(* ===== verification/_CoqProject ===== *)
-Q . S2P
Prelude.v
Sha256.v
JsText.v
JsNumber.v
JsDouble.v
Json.v
JsMap.v
Primitives.v
SparseMerkle.v
FixedMerkle.v
NodeStore.v
PersistentSMT.v
GateRegistry.v
Gates.v
SharedRows.v
BlockQueries.v
BlockHash.v
StateHash.v
StakeQuorum.v
Checkpoint.v
Async.v
VerifiedTip.v
VerifiedTipSound.v
VerifiedTipProgress.v
Subtrees.v
FollowerRoots.v
Orchestrator.v
SourceQuorum.v
ReorgVote.v
TransparencyLog.v
Poller.v
HaltPersistence.v
WireCodec.v
Sql.v
TableLifecycle.v
TokenRefold.v
Balances.v
Rollback.v
RollbackAtomic.v
RollbackEffect.v
RollbackResets.v
RollbackBalances.v
RollbackInPlace.v
RollbackExample.v
Regex.v
Validation.v
SchemaGuard.v
RowWrites.v
Applier.v
ApplierAtomic.v
ApplierMirror.v
ApplierBalances.v
ApplierRollback.v
ApplierUpdates.v
ApplierRoots.v
ApplierExample.v
JsonPrefix.v
ServerReads.v
RowProducers.v
SnapshotBuilder.v
SnapshotWire.v
SnapshotPaging.v
SnapshotReplica.v
SnapshotCatchup.v
SnapshotExample.v
TrainGate.v
