(* ===== verification/Prelude.v ===== *)
(** * xchain-sync: a verification library

    xchain-sync replicates the database of an indexer (or of a chain decoder) from one
    or more source servers.  A server polls its database, broadcasts blocks and
    snapshots and keeps a transparency log; a follower ([client/sync.js]) applies what
    its sources send and must never serve data that its own recomputation, its
    sources' agreement or the signed checkpoints contradict.  This library models the
    parts of the program that decide those questions, as executable definitions
    translated from the sources (paths are under [src/src/]), with the theorems that
    make them correct.

    ** The program's parts and their files

    - Language layer.  [Prelude] (errors as [result], bytes, hex text, automation),
      [Sha256] (FIPS 180-4 and the class [HashFn] the clients are proved against),
      [JsText], [JsNumber], [JsDouble], [JsMap] (strings, numbers, ordered maps of the
      language), [Json] ([util/index.js]: [jsonStringify], [getDataHash], with a reader
      that inverts the printer).
    - Commitments.  [Primitives] ([merkle/primitives.js]), [SparseMerkle] and
      [FixedMerkle] ([merkle.js]), [NodeStore] and [PersistentSMT] (the copy-on-write
      tree of [state_commitment/index.js] over the class [NodeStore]; the reference
      tree is its abstract specification and [update], [buildFull] and [prove] refine
      it), [Subtrees] ([contract_state_subtree.js], [escrow_leaf_subtree.js]),
      [FollowerRoots] and [Orchestrator] (the per-block roots of
      [state_commitment/index.js] and the row that stores them).
    - Activation.  [GateRegistry] ([consensus/gate_registry/]), [SharedRows] (its
      committed rows), [Gates] ([consensus/gates/]).
    - Consensus hashes.  [BlockQueries] and [BlockHash] ([client/block_hasher.js]: the
      three chained hashes of a block), [StateHash] ([consensus/state_hash.js] and its
      sections).  The database is a parameter: a function from a query text and its
      arguments to rows or an error.
    - Signatures.  [StakeQuorum] ([consensus/stake_weighted_quorum.js]; the bignumber
      package is a class with an exact-decimal instance), [Checkpoint]
      ([checkpoint.js], [consensus/equivocation_header.js],
      [consensus/snapshot_reorg_buffer.js]).
    - The follower.  [Async] (asynchronous methods as resumptions, a rely-guarantee
      logic and its soundness), [VerifiedTip] with [VerifiedTipSound] and
      [VerifiedTipProgress] ([client/verified_tip.js] and the walks, live blocks,
      rollbacks and catch-ups of [client/sync.js] that use it), [SourceQuorum] (voting
      on a live block, strikes and evictions, the timeout, continuity of
      [client/hash_verifier.js]), [ReorgVote] ([client/rollback_guard.js],
      [client/retroactive_admission.js], and the votes, depth check, rollback, restart
      and clear of [client/sync.js]).
    - The follower's safety latch.  [HaltPersistence] ([client/halt_persistence.js],
      [db/sync_halt.js] and the halts, clear and start of [client/sync.js]): queries in
      flight, a retry timer, a durable row and its copy.  [TrainGate]
      ([consensus/gates/train_gate.js] and the check of [client/sync.js] before an apply)
      halts through it at a train boundary.
    - The rollback.  [Sql] (an abstract syntax and semantics of the statements, schema
      gaps as errors, transactions as a state and error monad over a schedule of
      faults), [TableLifecycle] ([table_lifecycle.js] with its rows and the topologies
      of [schema/replicated_tables.js]), [TokenRefold] ([db/token_refold.js]),
      [Balances] ([db/balance_helpers.js]), [Rollback] ([client/rollback.js], every
      statement of both rollbacks); the theorems are in [RollbackAtomic],
      [RollbackEffect], [RollbackResets], [RollbackBalances] and [RollbackInPlace], and
      [RollbackExample] runs a small replica.
    - The applier.  [RowWrites] (INSERT with its conflict clauses and the keyed deletes of
      [db/tables/table_mutations.js]; the schema's columns are the class [Storage]),
      [Applier] ([client/applier.js]: blocks, full and incremental snapshots, the dispenser
      replacement, the lookup repair and the derived state, each in its transaction); the
      theorems are in [ApplierAtomic], [ApplierMirror], [ApplierBalances],
      [ApplierRollback] and [ApplierUpdates]; [ApplierRoots] makes the class [Commitment]
      of [Orchestrator], and [ApplierExample] runs a small replica.
    - Input.  [Regex] (the regular expressions the sources use, with JavaScript's greedy
      matching), [Validation] ([util/validation.js] and the self-heal of
      [sql/migrations/runner.js]), [SchemaGuard] (what the self-heal can be made to send).
    - The server.  [TransparencyLog] ([server/transparency_log.js],
      [server/merkle_tree.js], [db/sync_meta.js], [db/merkle_epochs.js]), [Poller]
      ([server/poller.js], [server/poller/]: the cursor over a source that moves between
      any two queries), [WireCodec] ([util/wire_codec.js]).
    - The server's snapshots.  [ServerReads] (queries under one read view, a response that
      may be cut anywhere; rows and their order are the class [SourceDb]), [RowProducers]
      ([server/cooldown_credits.js], [server/derived_rewards.js],
      [server/recovery_rewards.js], [server/updated_rows.js]), [SnapshotBuilder]
      ([server/snapshot_builder.js] and [server/snapshot_builder/], [db/pool_sizing.js]);
      [JsonPrefix] (no proper prefix of a document is one) and the theorems of
      [SnapshotWire], [SnapshotPaging], [SnapshotReplica] and [SnapshotCatchup];
      [SnapshotExample] serves a small source to the replica of [ApplierExample].

    How they meet: the live path of [SourceQuorum] hands a block to the apply and
    verification path of [VerifiedTip], whose recomputation is [BlockHash] (abstracted
    there as the class [BlockStore]); a rewind passes [ReorgVote] before the rollback of
    [VerifiedTip], whose effect on the tables is [Rollback]; [ReorgVote] runs on the
    voting state of [SourceQuorum]; [Orchestrator] composes [Gates], [Subtrees],
    [FollowerRoots] and [PersistentSMT]; [StateHash] and [BlockHash] read their
    activation from [GateRegistry], as [Rollback] does; [Checkpoint] uses [StakeQuorum]
    and [Gates]; [Rollback] takes its table lists from [TableLifecycle] and ends with
    [Balances] and [TokenRefold]; [Poller] writes and prunes the [TransparencyLog].
    [Applier] shares [Sql], [Balances] and the escrow re-derivation with [Rollback], decodes
    with [WireCodec] and asks the class [Commitment] for a block's roots.
    [SnapshotReplica] and [SnapshotCatchup] compose the whole path: the text
    [SnapshotBuilder] streams, its parsing, and the transaction of [Applier].

    ** What the theorems show

    - A follower's marker of verified blocks is sound in every interleaving, across
      crashes and database faults, as long as blocks land in order and no read of the
      marker is overtaken (C1), and a walk that is not disturbed ends with the verdict the
      stored blocks deserve (C30).
    - An apply is all or nothing under any faults (C3); it keeps the balances of the ledger
      (C11), lands every updated row (C17) and applies a height once (C18).
    - A bootstrap makes a replica a copy of the source (C5) and a catch-up completes it
      (C10), from the server's queries to the replica's tables, whatever fails in between;
      paging is invisible (C21) and snapshots leave the pool a connection (C36).
    - A rollback is all or nothing (C2); it removes exactly the orphaned rows (C7), undoes the
      rows an apply added (C9), gives slashed stakes and bet feeds back what they were (C13, C14), leaves
      the balances of the surviving ledger (C15), edits declared columns only and adds rows
      to two tables only (C16).
      The scoped rebuild of balances is the full one (C37).
    - A live block is applied on the same vote of a quorum of active sources (C6) or, on a
      timeout, when no active source votes otherwise (C31); votes are equal texts, which
      are equal hashes when no hash text holds the separator.  Evictions keep the quorum
      reachable (C32).
    - Rewinds are bounded cumulatively (C12); deeper ones need a quorum, and so does every
      reported one where reorg voting is on and confirmation strict (C29).  A halt whose
      write has come to rest survives the process (C8), a start fails closed (C24) and a
      follower stops at the boundary of a release train it does not implement (C35).
    - What a server announces tracks its source (C4), reaches its tip (C23) and covers a
      reorg within its window that ran while it was down (C33).
    - The consensus hashes bind the rows and the history (C20), and a state hash never
      stands on a failed read of a class, the status lookup apart (C22).
    - Checkpoint verdicts are exact (C25), the stake threshold is exact and its quorums
      intersect (C26, C38).
    - Stored roots are consistent (C27); the persistent tree refines the reference tree
      (C28); proofs bind their leaf (C39).
    - The activation registry is well formed (C40), and the transparency log answers
      with recorded leaves, committed roots and paths that verify unless a query failed or
      a pruned height was recorded again (C34).
    - A self-heal statement is one action, under the quoting its guard knows (C19).

    Further theorems without a number support these in their files: canonical keys and
    amounts, the memo of the stakes root, complete and compressed proofs, the roots of the
    live ledger, burial heights, committed activation rows, the fields a checkpoint signs,
    the classes a state hash commits to, the refold of a token, the wire form of a row, the rows any payload of a
    full snapshot leaves.  Binding theorems assume no collision among an explicit set of
    preimages ([collision_free]); none assumes that a hash is injective.

    ** Bounds and fuel

    Loops whose length the data fixes are structural.  [rangeLoop] (windows of a walk)
    takes the number of blocks plus one as fuel and one block a window is the slowest
    rate; [layers_from] halves its layer and takes the number of leaves; C30 and
    [proof_climbs] show that both suffice.  [walk_back] descends positive heights and takes
    the starting height; the chunked [purge] removes a row in at least every fourth query
    and takes four queries a row ([purge_total]); [page_loop] takes the rows of its table plus
    one, and C21 shows that it ends by itself; the regular expressions take the length of
    the text.  Integers that the code keeps in doubles are
    [Z], with the conversions written out where they can lose precision ([JsDouble]).

    ** Modelling choices of the asynchronous part

    A database call of [VerifiedTip] is atomic at some point between its call and its
    continuation, may fail, and sees committed rows only; block applies and rollbacks
    commit as a whole, except that a rollback may be observed in stages.  The fields
    [announced], [trusted], [next] and [odd] are bookkeeping that no code reads; [odd]
    marks runs outside the statements' assumptions (a block landed out of order, or a
    marker read was overtaken), and two examples show such runs.  [ReorgVote] and
    [SourceQuorum] treat a handler as one step; the asynchronous effects they ask for
    (apply, catch up) are later steps.  [TransparencyLog] lets any query fail softly;
    that a path verifies assumes the database answered, and an example shows why.

    A query of [Poller] lets the source make any list of moves first and may fail softly or
    hard.  A statement of [Rollback] acts on finite maps from columns to values; the text
    collation and the decimal cast of the database and the decimal package are classes
    with concrete instances in the examples.

    The applier's replica has a schema it does not know: [Storage] says what a column makes
    of a bound value and which keys it enforces, and [faithful] is what replication needs
    of it.  A server's query runs on the snapshot's view or, where the code leaves that
    connection, on the database as it is at that moment ([live]).

    ** Not modelled

    Transport and process plumbing ([api.js], [sync_service.js], [http/],
    [observability/], [hub/], [server/block_broadcaster/]), with the headers, the
    compression and the sockets of the parts above; the payload of a live block
    (the per-block selects of [server/poller.js]); migrations, DDL and column lists
    ([schema/], [sql/] beyond the table topologies and the self-heal); coin parameters
    ([coins/]); parsing of the environment ([config.js]); the pinned validator set
    ([client/pinned_validators.js]), which chooses the trust root a checkpoint is verified
    against, and the armed map ([consensus/armed_map/]), a fingerprint for operators. *)

(** ** Bytes, hex text, errors and shared automation *)

From Stdlib Require Export ZArith Lia Bool.
From Stdlib Require Import Strings.Byte.
From stdpp Require Import countable.
From stdpp Require Export base tactics gmap strings fin_maps list.
Export list.

#[global] Open Scope Z_scope.

(** ** Errors

    A JavaScript function that can [throw] returns a [result]: [Ok v] when it
    returns [v] and [Throw msg] when it raises an [Error].  [rbind] threads the
    exception through a sequence of statements. *)
Inductive result (A : Type) : Type :=
| Ok (a : A)
| Throw (msg : string).
Arguments Ok {A} a.
Arguments Throw {A} msg.

Definition rbind {A B} (r : result A) (k : A -> result B) : result B :=
  match r with
  | Ok a => k a
  | Throw m => Throw m
  end.

Declare Scope js_scope.
Delimit Scope js_scope with js.
Notation "'let!' x := r 'in' k" := (rbind r (fun x => k))
  (at level 200, x pattern, r at level 200, k at level 200) : js_scope.
#[global] Open Scope js_scope.

Definition is_ok {A} (r : result A) : bool :=
  match r with Ok _ => true | Throw _ => false end.

Lemma rbind_Ok {A B} (r : result A) (k : A -> result B) b :
  rbind r k = Ok b <-> exists a, r = Ok a /\ k a = Ok b.
Proof. destruct r; cbn; naive_solver. Qed.

(** Left-to-right traversal with a throwing step ([for ... of] with a body that
    may throw). *)
Fixpoint rfold {S A} (f : S -> A -> result S) (s : S) (l : list A) : result S :=
  match l with
  | [] => Ok s
  | a :: l' => rbind (f s a) (fun s' => rfold f s' l')
  end.

Fixpoint rmap {A B} (f : A -> result B) (l : list A) : result (list B) :=
  match l with
  | [] => Ok []
  | a :: l' => rbind (f a) (fun b => rbind (rmap f l') (fun bs => Ok (b :: bs)))
  end.

Lemma rmap_Ok {A B} (f : A -> result B) l bs :
  rmap f l = Ok bs <-> Forall2 (fun a b => f a = Ok b) l bs.
Proof.
  revert bs; induction l as [|a l IH]; intros bs; cbn.
  - split; [intros [= <-]; constructor | inversion 1; done].
  - rewrite rbind_Ok. setoid_rewrite rbind_Ok. split.
    + intros (b & Hb & bs' & Hbs & [= <-]). constructor; [done|]. by apply IH.
    + inversion 1 as [|? b ? bs' Hb Hrest]; subst.
      exists b; split; [done|]. exists bs'. split; [by apply IH|done].
Qed.

(** ** Bytes *)
Notation byte := Byte.byte.
Notation bytes := (list Byte.byte).

#[global] Instance byte_eq_dec : EqDecision byte := Byte.byte_eq_dec.

#[global] Instance byte_countable : Countable byte :=
  inj_countable Byte.to_N Byte.of_N Byte.of_to_N.

Definition b2z (b : byte) : Z := Z.of_N (Byte.to_N b).

(** A number stored into a Buffer cell keeps its low eight bits. *)
Definition z2b (z : Z) : byte :=
  match Byte.of_N (Z.to_N (z mod 256)) with
  | Some b => b
  | None => Byte.x00
  end.

Lemma b2z_range b : 0 <= b2z b < 256.
Proof. unfold b2z. pose proof (Byte.to_N_bounded b). lia. Qed.

Lemma z2b_b2z b : z2b (b2z b) = b.
Proof.
  unfold z2b. rewrite Z.mod_small by apply b2z_range.
  unfold b2z. by rewrite N2Z.id, Byte.of_to_N.
Qed.

Lemma b2z_z2b z : b2z (z2b z) = z mod 256.
Proof.
  unfold z2b. pose proof (Z.mod_pos_bound z 256 ltac:(lia)) as Hb.
  destruct (Byte.of_N (Z.to_N (z mod 256))) as [b|] eqn:E.
  - unfold b2z. apply Byte.to_of_N in E. rewrite E. lia.
  - apply Byte.of_N_None_iff in E. lia.
Qed.

#[global] Instance b2z_inj : Inj (=) (=) b2z.
Proof. intros a b H. rewrite <- (z2b_b2z a), <- (z2b_b2z b). by rewrite H. Qed.

(** ** Text

    A JavaScript string is represented by the [string] of its UTF-8 bytes, so
    [Buffer.from(s, 'utf8')] is [utf8 s]. *)
Definition utf8 (s : string) : bytes := String.list_byte_of_string s.
Definition of_utf8 (b : bytes) : string := String.string_of_list_byte b.

Lemma of_utf8_utf8 s : of_utf8 (utf8 s) = s.
Proof. apply String.string_of_list_byte_of_string. Qed.

Lemma utf8_of_utf8 b : utf8 (of_utf8 b) = b.
Proof. apply String.list_byte_of_string_of_list_byte. Qed.

#[global] Instance utf8_inj : Inj (=) (=) utf8.
Proof. intros a b H. rewrite <- (of_utf8_utf8 a), <- (of_utf8_utf8 b). by rewrite H. Qed.

Lemma utf8_cons c s : utf8 (String c s) = Ascii.byte_of_ascii c :: utf8 s.
Proof. reflexivity. Qed.

Lemma utf8_app s t : utf8 (s +:+ t) = utf8 s ++ utf8 t.
Proof.
  induction s as [|c s IH]; [done|].
  change (String c s +:+ t) with (String c (s +:+ t)).
  by rewrite !utf8_cons, IH.
Qed.

(** ** Hexadecimal text ([Buffer.toString('hex')], [Buffer.from(x, 'hex')])

    Encoding writes two lower-case digits per byte.  Decoding accepts digits of
    either case, stops at the first pair that is not two digits and drops a
    trailing odd digit, as Node's decoder does. *)
Definition hex_digit (n : Z) : byte :=
  if n <? 10 then z2b (48 + n) else z2b (87 + n).

Definition hex_value (b : byte) : option Z :=
  let c := b2z b in
  if (48 <=? c) && (c <=? 57) then Some (c - 48)
  else if (97 <=? c) && (c <=? 102) then Some (c - 87)
  else if (65 <=? c) && (c <=? 70) then Some (c - 55)
  else None.

Fixpoint hex_encode_bytes (b : bytes) : bytes :=
  match b with
  | [] => []
  | x :: b' => hex_digit (b2z x / 16) :: hex_digit (b2z x mod 16) :: hex_encode_bytes b'
  end.

Fixpoint hex_decode_bytes (b : bytes) : bytes :=
  match b with
  | hi :: lo :: b' =>
      match hex_value hi, hex_value lo with
      | Some h, Some l => z2b (16 * h + l) :: hex_decode_bytes b'
      | _, _ => []
      end
  | _ => []
  end.

Definition hex_encode (b : bytes) : string := of_utf8 (hex_encode_bytes b).
Definition hex_decode (s : string) : bytes := hex_decode_bytes (utf8 s).

Lemma hex_value_digit n : 0 <= n < 16 -> hex_value (hex_digit n) = Some n.
Proof.
  intros Hn. assert (forallb (fun k => bool_decide (hex_value (hex_digit k) = Some k))
    (seqZ 0 16) = true) as Hall by reflexivity.
  rewrite List.forallb_forall in Hall. specialize (Hall n).
  rewrite bool_decide_eq_true in Hall. apply Hall.
  apply list_elem_of_In, elem_of_seqZ. lia.
Qed.

Lemma hex_decode_encode_bytes b : hex_decode_bytes (hex_encode_bytes b) = b.
Proof.
  induction b as [|x b IH]; [done|]. cbn [hex_encode_bytes hex_decode_bytes].
  pose proof (b2z_range x).
  rewrite !hex_value_digit by (split; [apply Z.div_pos || apply Z.mod_pos_bound; lia
    | apply Z.div_lt_upper_bound || apply Z.mod_pos_bound; lia]).
  f_equal; [|done]. rewrite <- (z2b_b2z x) at 3. f_equal.
  rewrite (Z.div_mod (b2z x) 16) at 3; lia.
Qed.

(** The hex text of a buffer determines the buffer. *)
Lemma hex_decode_encode b : hex_decode (hex_encode b) = b.
Proof. unfold hex_decode, hex_encode. by rewrite utf8_of_utf8, hex_decode_encode_bytes. Qed.

#[global] Instance hex_encode_inj : Inj (=) (=) hex_encode.
Proof. intros a b H. rewrite <- (hex_decode_encode a), <- (hex_decode_encode b). by rewrite H. Qed.

(** ** Lists *)

Lemma Forall_lookup_rev {A} (P : A -> Prop) (l : list A) :
  (forall i x, l !! i = Some x -> P x) -> Forall P l.
Proof. intros H. apply Forall_lookup. exact H. Qed.

Lemma elem_of_lfilter {A} (f : A -> bool) (l : list A) x :
  x ∈ List.filter f l <-> x ∈ l /\ f x = true.
Proof. by rewrite !list_elem_of_In, filter_In. Qed.

Lemma Forall_lfilter {A} (P : A -> Prop) f (l : list A) : Forall P l -> Forall P (List.filter f l).
Proof. rewrite !Forall_forall. intros H x [Hx _]%elem_of_lfilter. auto. Qed.

Lemma NoDup_map_lfilter {A B} (g : A -> B) f (l : list A) :
  NoDup (map g l) -> NoDup (map g (List.filter f l)).
Proof.
  induction l as [|a l IH]; cbn; [done|]. rewrite NoDup_cons. intros [Hnin Hnd].
  destruct (f a); [|auto]. cbn. apply NoDup_cons. split; [|auto].
  intros (x & Hx & [Hin _]%elem_of_lfilter)%list_elem_of_fmap.
  apply Hnin, list_elem_of_fmap. eauto.
Qed.

Lemma lfilter_all {A} (f : A -> bool) (l : list A) : (forall x, x ∈ l -> f x = true) -> List.filter f l = l.
Proof.
  induction l as [|x l IH]; cbn; [done|]. intros Hf. rewrite (Hf x) by left. f_equal. apply IH. intros y Hy. apply Hf. by right.
Qed.

Lemma sublist_lfilter {A} (f : A -> bool) (l l' : list A) : sublist l l' -> sublist (List.filter f l) (List.filter f l').
Proof. induction 1 as [|x l l' _ IH|x l l' _ IH]; cbn; [done|case_match; [by apply sublist_skip|done]|case_match; [by apply sublist_cons|done]]. Qed.
Lemma sublist_lfilter_self {A} (f : A -> bool) (l : list A) : sublist (List.filter f l) l.
Proof. induction l as [|x l IH]; cbn; [done|]. case_match; [by apply sublist_skip|by apply sublist_cons]. Qed.
Lemma sublist_same_length {A} (l l' : list A) : sublist l l' -> length l = length l' -> l = l'.
Proof.
  induction 1 as [|x l l' _ IH|x l l' Hs _]; cbn; [done|intros [= E]; by rewrite IH|].
  intros E. apply sublist_length in Hs. lia.
Qed.

Lemma app_inj_len {A} (a b c d : list A) :
  length a = length c -> a ++ b = c ++ d -> a = c /\ b = d.
Proof. intros Hl Heq. by apply app_inj_1. Qed.

(** ** Automation

    [js_simpl] splits the boolean connectives the handlers' guards are written
    with and turns integer comparisons into propositions for [lia]. *)
Create HintDb sync discriminated.

Ltac js_simpl :=
  repeat match goal with
  | H : _ && _ = true |- _ => apply andb_true_iff in H; destruct H
  | H : _ && _ = false |- _ => apply andb_false_iff in H
  | H : _ || _ = true |- _ => apply orb_true_iff in H
  | H : _ || _ = false |- _ => apply orb_false_iff in H; destruct H
  | H : negb _ = true |- _ => apply negb_true_iff in H
  | H : negb _ = false |- _ => apply negb_false_iff in H
  | H : (_ =? _) = true |- _ => apply Z.eqb_eq in H
  | H : (_ =? _) = false |- _ => apply Z.eqb_neq in H
  | H : (_ <? _) = true |- _ => apply Z.ltb_lt in H
  | H : (_ <? _) = false |- _ => apply Z.ltb_ge in H
  | H : (_ <=? _) = true |- _ => apply Z.leb_le in H
  | H : (_ <=? _) = false |- _ => apply Z.leb_gt in H
  | H : bool_decide _ = true |- _ => apply bool_decide_eq_true in H
  | H : bool_decide _ = false |- _ => apply bool_decide_eq_false in H
  end.

(** Case analysis on the scrutinee of the first [match] or [if] of the goal. *)
Ltac js_case :=
  match goal with
  | |- context [match ?x with _ => _ end] =>
      lazymatch x with
      | context [match _ with _ => _ end] => fail
      | _ => let E := fresh "E" in destruct x eqn:E
      end
  end.

Ltac js_auto := js_simpl; subst; try congruence; try lia; eauto with sync.

#[export] Hint Resolve b2z_range hex_decode_encode : sync.
#[export] Hint Rewrite @length_app @length_cons @length_nil @length_map : sync.

(** One bind of a run that ends in [Ok]. *)
Tactic Notation "bind_step" hyp(H) "as" simple_intropattern(pat) ident(E) :=
  rewrite rbind_Ok in H; destruct H as (pat & E & H).
