(* ===== verification/Sha256.v ===== *)
(** * Sha256: the hash every root is built from

    [crypto.createHash('sha256').update(buf).digest()] of Node's standard
    library, written out from FIPS 180-4 over [N] so that roots, keys and proofs
    of the development evaluate, and the interface [HashFn] the components are
    proved against: a function from byte strings to 32-byte digests.  No theorem
    of the development assumes that a hash function is injective; the binding
    theorems assume that no two preimages of an explicit set collide
    ([collision_free]). *)

From Stdlib Require Import NArith.
From S2P Require Import Prelude.

(** ** The interface *)
Class HashFn := {
  sha256 : bytes -> bytes;
  sha256_length : forall b, length (sha256 b) = 32%nat;
}.

#[export] Hint Resolve sha256_length : sync.

(** No two distinct byte strings of [D] have the same digest. *)
Definition collision_free `{HashFn} (D : bytes -> Prop) : Prop :=
  forall x y, D x -> D y -> sha256 x = sha256 y -> x = y.

Lemma collision_free_mono `{HashFn} (D D' : bytes -> Prop) :
  (forall x, D' x -> D x) -> collision_free D -> collision_free D'.
Proof. intros Hsub HD x y Hx Hy. apply HD; auto. Qed.

(** A decision procedure for the collision-freeness of a finite list, used to
    discharge the hypothesis on concrete inputs. *)
Definition digest_code (d : bytes) : Z := fold_left (fun acc b => acc * 256 + b2z b) d 0.

(** The preimages seen so far, by digest; a digest seen with another preimage is
    a collision. *)
Fixpoint no_clash `{HashFn} (l : list bytes) (m : gmap Z bytes) : bool :=
  match l with
  | [] => true
  | b :: l' =>
      let c := digest_code (sha256 b) in
      match m !! c with
      | Some b' => bool_decide (b = b') && no_clash l' m
      | None => no_clash l' (<[c := b]> m)
      end
  end.

Definition collision_free_list `{HashFn} (l : list bytes) : bool := no_clash l ∅.

Lemma no_clash_sound `{HashFn} l m : no_clash l m = true -> exists m', m ⊆ m' /\
  forall x, x ∈ l -> m' !! digest_code (sha256 x) = Some x.
Proof.
  revert m; induction l as [|b l IH]; intros m; cbn [no_clash].
  - intros _. exists m. split; [done|]. by intros x ?%not_elem_of_nil.
  - destruct (m !! digest_code (sha256 b)) as [b'|] eqn:E; intros Hc; js_simpl.
    + subst b'. destruct (IH m) as (m' & Hsub & Hm'); [done|]. exists m'. split; [done|].
      intros x [->|Hx]%elem_of_cons; [by eapply lookup_weaken|auto].
    + destruct (IH _ Hc) as (m' & Hsub & Hm'). exists m'.
      split; [etrans; [by apply insert_subseteq|exact Hsub]|].
      intros x [->|Hx]%elem_of_cons; [|auto]. eapply lookup_weaken; [apply lookup_insert_eq|exact Hsub].
Qed.

Lemma collision_free_list_sound `{HashFn} l :
  collision_free_list l = true -> collision_free (fun x => x ∈ l).
Proof.
  intros (m' & _ & Hm)%no_clash_sound x y Hx Hy He.
  apply Hm in Hx, Hy. rewrite He in Hx. congruence.
Qed.

(** ** FIPS 180-4 *)
Module Fips.
Local Open Scope N_scope.

Definition mask32 : N := 4294967295.
Definition add32 (x y : N) : N := N.land (x + y) mask32.
Definition rotr (n x : N) : N := N.lor (N.shiftr x n) (N.land (N.shiftl x (32 - n)) mask32).
Definition ch (x y z : N) : N := N.lxor (N.land x y) (N.land (N.lxor x mask32) z).
Definition maj (x y z : N) : N := N.lxor (N.lxor (N.land x y) (N.land x z)) (N.land y z).
Definition bsig0 (x : N) : N := N.lxor (N.lxor (rotr 2 x) (rotr 13 x)) (rotr 22 x).
Definition bsig1 (x : N) : N := N.lxor (N.lxor (rotr 6 x) (rotr 11 x)) (rotr 25 x).
Definition ssig0 (x : N) : N := N.lxor (N.lxor (rotr 7 x) (rotr 18 x)) (N.shiftr x 3).
Definition ssig1 (x : N) : N := N.lxor (N.lxor (rotr 17 x) (rotr 19 x)) (N.shiftr x 10).

Definition round_constants : list N :=
  [1116352408; 1899447441; 3049323471; 3921009573; 961987163; 1508970993; 2453635748;
   2870763221; 3624381080; 310598401; 607225278; 1426881987; 1925078388; 2162078206;
   2614888103; 3248222580; 3835390401; 4022224774; 264347078; 604807628; 770255983;
   1249150122; 1555081692; 1996064986; 2554220882; 2821834349; 2952996808; 3210313671;
   3336571891; 3584528711; 113926993; 338241895; 666307205; 773529912; 1294757372;
   1396182291; 1695183700; 1986661051; 2177026350; 2456956037; 2730485921; 2820302411;
   3259730800; 3345764771; 3516065817; 3600352804; 4094571909; 275423344; 430227734;
   506948616; 659060556; 883997877; 958139571; 1322822218; 1537002063; 1747873779;
   1955562222; 2024104815; 2227730452; 2361852424; 2428436474; 2756734187; 3204031479;
   3329325298].

Record regs := Regs { ra : N; rb : N; rc : N; rd : N; re : N; rf : N; rg : N; rh : N }.

Definition initial : regs :=
  Regs 1779033703 3144134277 1013904242 2773480762 1359893119 2600822924 528734635 1541459225.

(** One round: [wt] is the schedule word, [kt] the round constant. *)
Definition round (r : regs) (kt wt : N) : regs :=
  let t1 := add32 (add32 (add32 (add32 (rh r) (bsig1 (re r))) (ch (re r) (rf r) (rg r))) kt) wt in
  let t2 := add32 (bsig0 (ra r)) (maj (ra r) (rb r) (rc r)) in
  Regs (add32 t1 t2) (ra r) (rb r) (rc r) (add32 (rd r) t1) (re r) (rf r) (rg r).

(** The message schedule is kept as a window of sixteen words: its head is the
    word of this round and the word sixteen rounds later enters at the end. *)
Definition slide (w : list N) : list N :=
  let at_ i := nth i w 0 in
  tail w ++ [add32 (add32 (ssig1 (at_ 14%nat)) (at_ 9%nat)) (add32 (ssig0 (at_ 1%nat)) (at_ 0%nat))].

Fixpoint rounds (ks : list N) (w : list N) (r : regs) : regs :=
  match ks with
  | [] => r
  | k :: ks' => rounds ks' (slide w) (round r k (hd 0 w))
  end.

Definition add_regs (x y : regs) : regs :=
  Regs (add32 (ra x) (ra y)) (add32 (rb x) (rb y)) (add32 (rc x) (rc y)) (add32 (rd x) (rd y))
       (add32 (re x) (re y)) (add32 (rf x) (rf y)) (add32 (rg x) (rg y)) (add32 (rh x) (rh y)).

Definition compress (r : regs) (block : list N) : regs :=
  add_regs r (rounds round_constants block r).

Definition word_of_bytes (a b c d : byte) : N :=
  ((Byte.to_N a * 256 + Byte.to_N b) * 256 + Byte.to_N c) * 256 + Byte.to_N d.

Fixpoint words (b : bytes) : list N :=
  match b with
  | a :: b :: c :: d :: rest => word_of_bytes a b c d :: words rest
  | _ => []
  end.

Definition byte_at (w : N) (shift : N) : byte := z2b (Z.of_N (N.shiftr w shift)).
Definition word_bytes (w : N) : bytes := [byte_at w 24; byte_at w 16; byte_at w 8; byte_at w 0].

Definition pad (b : bytes) : bytes :=
  let len := N.of_nat (length b) in
  let zeros := Z.to_nat ((55 - Z.of_N len) mod 64)%Z in
  b ++ [Byte.x80] ++ repeat Byte.x00 zeros
    ++ word_bytes (N.shiftr (len * 8) 32) ++ word_bytes (N.land (len * 8) mask32).

(** Sixteen words at a time; the fuel is the number of words, which bounds the
    number of blocks. *)
Fixpoint blocks (fuel : nat) (ws : list N) (r : regs) : regs :=
  match fuel, ws with
  | S fuel', _ :: _ => blocks fuel' (drop 16 ws) (compress r (take 16 ws))
  | _, _ => r
  end.

Definition digest_bytes (r : regs) : bytes :=
  word_bytes (ra r) ++ word_bytes (rb r) ++ word_bytes (rc r) ++ word_bytes (rd r)
  ++ word_bytes (re r) ++ word_bytes (rf r) ++ word_bytes (rg r) ++ word_bytes (rh r).

Definition digest (b : bytes) : bytes :=
  let ws := words (pad b) in digest_bytes (blocks (length ws) ws initial).

Lemma digest_length b : length (digest b) = 32%nat.
Proof. reflexivity. Qed.

(** The published vectors for the empty message, a one-block message and a
    two-block message. *)
Example digest_empty : hex_encode (digest []) =
  "e3b0c44298fc1c149afbf4c8996fb92427ae41e4649b934ca495991b7852b855".
Proof. vm_compute. reflexivity. Qed.
Example digest_abc : hex_encode (digest (utf8 "abc")) =
  "ba7816bf8f01cfea414140de5dae2223b00361a396177a9cb410ff61f20015ad".
Proof. vm_compute. reflexivity. Qed.
Example digest_two_blocks :
  hex_encode (digest (utf8 "abcdbcdecdefdefgefghfghighijhijkijkljklmklmnlmnomnopnopq")) =
  "248d6a61d20638b8e5c026930c3e6039a33ce45964ff2167f6ecedd419db06c1".
Proof. vm_compute. reflexivity. Qed.
End Fips.

(** The program's hash. *)
Definition node_crypto : HashFn :=
  {| sha256 := Fips.digest; sha256_length := Fips.digest_length |}.

(** ** A cheap digest for evaluating deep trees

    The theorems hold for every [HashFn].  Where a statement is evaluated on a
    full 256-level tree inside the kernel, this multiplicative digest modulo 2^64
    stands in for SHA-256. *)
Module Poly.
Definition mask64 : Z := Z.ones 64.
Definition fold_bytes (b : bytes) : Z :=
  fold_left (fun acc x => Z.land (acc * 33 + b2z x + 1) mask64) b 5381.
Fixpoint be_bytes (n : nat) (z : Z) : bytes :=
  match n with
  | O => []
  | S n' => be_bytes n' (Z.shiftr z 8) ++ [z2b (Z.land z 255)]
  end.
Definition digest (b : bytes) : bytes := be_bytes 32 (fold_bytes b).
Lemma be_bytes_length n z : length (be_bytes n z) = n.
Proof. revert z; induction n as [|n IH]; intros z; cbn; [done|]. rewrite length_app, IH. cbn. lia. Qed.
Lemma poly_digest_length b : length (digest b) = 32%nat.
Proof. apply be_bytes_length. Qed.
End Poly.

Definition poly_hash : HashFn :=
  {| sha256 := Poly.digest; sha256_length := Poly.poly_digest_length |}.
