(* ===== verification/JsText.v ===== *)
(** * JsText: the text operations of the language the components use

    Decimal text of integers ([String(n)], [BigInt.toString()] and the digits
    [BigInt(s)] reads), [String.prototype.trim], [toLowerCase] on ASCII text,
    [padStart] and the leading-zero strip [replace(/^0+(?=\d)/, '')].  Text is
    handled as its UTF-8 bytes. *)

From S2P Require Import Prelude.

Definition ch (s : string) : byte := nth 0 (utf8 s) Byte.x00.
Notation c_zero := Byte.x30.
Notation c_dot := Byte.x2e.
Notation c_minus := Byte.x2d.
Notation c_plus := Byte.x2b.

(** ** Decimal digits *)
Definition is_digit (b : byte) : bool := (48 <=? b2z b) && (b2z b <=? 57).
Definition digit_val (b : byte) : Z := b2z b - 48.
Definition digit_of (d : Z) : byte := z2b (48 + d).

Definition dec_val (l : bytes) : Z := fold_left (fun acc b => 10 * acc + digit_val b) l 0.

(** [dec_digits fuel z] prints a non-negative integer; every division by ten
    removes at least one bit, so [Z.log2 z + 1] steps are enough. *)
Fixpoint dec_digits (fuel : nat) (z : Z) : bytes :=
  match fuel with
  | O => [digit_of z]
  | S fuel' => if z <? 10 then [digit_of z] else dec_digits fuel' (z / 10) ++ [digit_of (z mod 10)]
  end.
Definition dec_of_nonneg (z : Z) : bytes := dec_digits (Z.to_nat (Z.log2 z + 1)) z.
Definition dec_of (z : Z) : bytes :=
  if z <? 0 then c_minus :: dec_of_nonneg (- z) else dec_of_nonneg z.

(** [String(n)] of an integer. *)
Definition string_of_int (z : Z) : string := of_utf8 (dec_of z).

(** [x.replace(/^0+(?=\d)/, '')] *)
Fixpoint strip_zeros (l : bytes) : bytes :=
  match l with
  | z :: r =>
      match r with
      | d :: _ => if bool_decide (z = c_zero) && is_digit d then strip_zeros r else l
      | [] => l
      end
  | [] => l
  end.

(** [x.padStart(n, '0')] *)
Definition pad_start (n : nat) (l : bytes) : bytes := replicate (n - length l) c_zero ++ l.

Fixpoint span_digits (l : bytes) : bytes * bytes :=
  match l with
  | b :: r => if is_digit b then let '(d, t) := span_digits r in (b :: d, t) else ([], l)
  | [] => ([], [])
  end.

(** ** White space ([String.prototype.trim])

    The white space and line terminator code points of ECMA-262, as UTF-8. *)
Definition js_white_space : list bytes :=
  [[Byte.x09]; [Byte.x0a]; [Byte.x0b]; [Byte.x0c]; [Byte.x0d]; [Byte.x20];
   [Byte.xc2; Byte.xa0]; [Byte.xef; Byte.xbb; Byte.xbf]; [Byte.xe1; Byte.x9a; Byte.x80]]
  ++ map (fun z => [Byte.xe2; Byte.x80; z2b z]) (seqZ 128 11)
  ++ [[Byte.xe2; Byte.x80; Byte.xa8]; [Byte.xe2; Byte.x80; Byte.xa9]; [Byte.xe2; Byte.x80; Byte.xaf];
      [Byte.xe2; Byte.x81; Byte.x9f]; [Byte.xe3; Byte.x80; Byte.x80]].

Fixpoint strip_prefix (p l : bytes) : option bytes :=
  match p, l with
  | [], _ => Some l
  | a :: p', b :: l' => if bool_decide (a = b) then strip_prefix p' l' else None
  | _ :: _, [] => None
  end.

Definition strip_one (ws : list bytes) (l : bytes) : option bytes :=
  head (omap (fun w => strip_prefix w l) ws).

(** Each step removes at least one byte, so the length of the text is enough fuel. *)
Fixpoint strip_all (ws : list bytes) (fuel : nat) (l : bytes) : bytes :=
  match fuel with
  | O => l
  | S fuel' => match strip_one ws l with Some l' => strip_all ws fuel' l' | None => l end
  end.

Definition trim_start (l : bytes) : bytes := strip_all js_white_space (length l) l.
Definition trim_end (l : bytes) : bytes :=
  rev (strip_all (map (@rev byte) js_white_space) (length l) (rev l)).
Definition trim (l : bytes) : bytes := trim_end (trim_start l).

(** [toLowerCase] on the ASCII letters; other code points are left alone. *)
Definition lower_byte (b : byte) : byte :=
  if (65 <=? b2z b) && (b2z b <=? 90) then z2b (b2z b + 32) else b.
Definition to_lower (s : string) : string := of_utf8 (map lower_byte (utf8 s)).

(** ** Digits and values *)

Lemma digit_val_range b : is_digit b = true -> 0 <= digit_val b < 10.
Proof. unfold is_digit, digit_val. intros. js_auto. Qed.

Lemma digit_of_val b : is_digit b = true -> digit_of (digit_val b) = b.
Proof.
  intros _. unfold digit_of, digit_val. replace (48 + (b2z b - 48)) with (b2z b) by lia.
  apply z2b_b2z.
Qed.

Lemma b2z_digit_of d : 0 <= d < 10 -> b2z (digit_of d) = 48 + d.
Proof. intros. unfold digit_of. rewrite b2z_z2b. apply Z.mod_small. lia. Qed.

Lemma is_digit_of d : 0 <= d < 10 -> is_digit (digit_of d) = true.
Proof.
  intros. unfold is_digit. rewrite b2z_digit_of by done.
  apply andb_true_iff; split; apply Z.leb_le; lia.
Qed.

Lemma digit_val_of d : 0 <= d < 10 -> digit_val (digit_of d) = d.
Proof. intros. unfold digit_val. rewrite b2z_digit_of by done. lia. Qed.

#[export] Hint Resolve digit_val_range is_digit_of : sync.

Lemma dec_val_snoc l b : dec_val (l ++ [b]) = 10 * dec_val l + digit_val b.
Proof. unfold dec_val. by rewrite fold_left_app. Qed.

Lemma dec_val_single b : dec_val [b] = digit_val b.
Proof. change (dec_val [b]) with (10 * 0 + digit_val b). lia. Qed.

Lemma fold_dec_app l acc :
  fold_left (fun acc b => 10 * acc + digit_val b) l acc
  = acc * 10 ^ Z.of_nat (length l) + dec_val l.
Proof.
  revert acc. induction l as [|b l IH] using rev_ind; intros acc; [cbn; lia|].
  rewrite fold_left_app, dec_val_snoc, length_app, Nat2Z.inj_add. cbn [fold_left length].
  rewrite IH. change (Z.of_nat 1) with 1. rewrite Z.pow_add_r by lia. lia.
Qed.

Lemma dec_val_app l r : dec_val (l ++ r) = dec_val l * 10 ^ Z.of_nat (length r) + dec_val r.
Proof. unfold dec_val at 1. rewrite fold_left_app. apply fold_dec_app. Qed.

Lemma dec_val_cons b l : dec_val (b :: l) = digit_val b * 10 ^ Z.of_nat (length l) + dec_val l.
Proof. change (b :: l) with ([b] ++ l). by rewrite dec_val_app, dec_val_single. Qed.

Lemma dec_val_range l : Forall (fun b => is_digit b = true) l ->
  0 <= dec_val l < 10 ^ Z.of_nat (length l).
Proof.
  induction 1 as [|b l Hb Hl IH]; [cbn; lia|].
  rewrite dec_val_cons, length_cons, Nat2Z.inj_succ, Z.pow_succ_r by lia.
  pose proof (digit_val_range _ Hb). nia.
Qed.

Lemma dec_val_zeros n : dec_val (replicate n c_zero) = 0.
Proof. induction n as [|n IH]; [done|]. cbn [replicate]. rewrite dec_val_cons, IH.
  change (digit_val c_zero) with 0. lia. Qed.

Lemma dec_digits_digits fuel z : 0 <= z < 10 \/ (z < 2 ^ Z.of_nat fuel /\ 0 <= z) ->
  Forall (fun b => is_digit b = true) (dec_digits fuel z) /\ dec_val (dec_digits fuel z) = z.
Proof.
  revert z; induction fuel as [|fuel IH]; intros z Hz; cbn [dec_digits].
  - assert (0 <= z < 10) by (destruct Hz as [?|[H ?]]; [done|cbn in H; lia]).
    split; [repeat constructor; auto with sync|]. by rewrite dec_val_single, digit_val_of.
  - destruct (z <? 10) eqn:Ez; js_simpl.
    + assert (0 <= z < 10) by lia.
      split; [repeat constructor; auto with sync|]. by rewrite dec_val_single, digit_val_of.
    + pose proof (Z.mod_pos_bound z 10 ltac:(lia)) as Hm.
      pose proof (Z.div_mod z 10 ltac:(lia)) as Hdm.
      destruct (IH (z / 10)) as [Hd Hv].
      { right. destruct Hz as [Hz|[Hz Hz0]]; [lia|].
        rewrite Nat2Z.inj_succ, Z.pow_succ_r in Hz by lia. lia. }
      split.
      * apply Forall_app; split; [done|]. repeat constructor. auto with sync.
      * rewrite dec_val_snoc, Hv, digit_val_of by done. lia.
Qed.

Lemma dec_of_nonneg_spec z : 0 <= z ->
  Forall (fun b => is_digit b = true) (dec_of_nonneg z) /\ dec_val (dec_of_nonneg z) = z.
Proof.
  intros Hz. apply dec_digits_digits.
  destruct (Z.eq_dec z 0) as [->|Hnz]; [left; lia|]. right. split; [|done].
  rewrite Z2Nat.id by (pose proof (Z.log2_nonneg z); lia).
  apply Z.log2_spec. lia.
Qed.

(** ** Printing is inverse to reading, up to leading zeros *)

Lemma strip_zeros_zeros n b : is_digit b = true -> strip_zeros (replicate n c_zero ++ [b]) = [b].
Proof.
  intros Hb. induction n as [|n IH]; [done|]. cbn [replicate app strip_zeros].
  destruct n as [|n]; cbn [replicate app] in *.
  - by rewrite Hb.
  - exact IH.
Qed.

Lemma strip_zeros_snoc l b : l <> [] -> Forall (fun b => is_digit b = true) l ->
  is_digit b = true -> dec_val l <> 0 -> strip_zeros (l ++ [b]) = strip_zeros l ++ [b].
Proof.
  intros Hne Hl Hb. induction Hl as [|a l Ha Hl IH]; [done|]. intros Hv.
  destruct l as [|d l].
  - cbn. rewrite Hb. destruct (bool_decide (a = c_zero)) eqn:E; [|done].
    js_simpl. subst. by contradict Hv.
  - cbn [strip_zeros app]. inversion Hl as [|? ? Hd]; subst. rewrite Hd.
    destruct (bool_decide (a = c_zero)) eqn:E; cbn [andb]; [|done].
    js_simpl; subst. apply IH; [done|]. intros Hz. apply Hv.
    rewrite dec_val_cons, Hz. change (digit_val c_zero) with 0. lia.
Qed.

Lemma dec_val_zero_strip l : Forall (fun b => is_digit b = true) l ->
  dec_val l = 0 -> l = replicate (length l) c_zero.
Proof.
  induction 1 as [|b l Hb Hl IH]; [done|]. rewrite dec_val_cons. intros Hz.
  pose proof (digit_val_range _ Hb). pose proof (dec_val_range _ Hl).
  assert (0 < 10 ^ Z.of_nat (length l)) by (apply Z.pow_pos_nonneg; lia).
  assert (digit_val b = 0) as Hb0 by nia. cbn [length replicate]. rewrite <- IH by nia.
  f_equal. rewrite <- (digit_of_val b Hb), Hb0. reflexivity.
Qed.

Lemma dec_digits_val fuel l : l <> [] -> Forall (fun b => is_digit b = true) l ->
  dec_val l < 10 \/ dec_val l < 2 ^ Z.of_nat fuel ->
  dec_digits fuel (dec_val l) = strip_zeros l.
Proof.
  revert l; induction fuel as [|fuel IH]; intros l Hne Hl Hb;
    destruct l as [|b l _] using rev_ind; try done; clear Hne;
    apply Forall_app in Hl as [Hl Hd]; inversion Hd as [|? ? Hdb _]; subst;
    pose proof (dec_val_range _ Hl) as Hr; pose proof (digit_val_range _ Hdb) as Hdr;
    rewrite dec_val_snoc in *; cbn [dec_digits].
  - assert (dec_val l = 0) as H0 by (cbn in Hb; lia).
    rewrite H0, (dec_val_zero_strip l Hl H0), strip_zeros_zeros by done.
    replace (10 * 0 + digit_val b) with (digit_val b) by lia. by rewrite digit_of_val.
  - destruct (_ <? 10) eqn:E; js_simpl.
    + assert (dec_val l = 0) as H0 by lia.
      rewrite H0, (dec_val_zero_strip l Hl H0), strip_zeros_zeros by done.
      replace (10 * 0 + digit_val b) with (digit_val b) by lia. by rewrite digit_of_val.
    + assert (dec_val l <> 0) by lia.
      assert (l <> []) as Hln by (intros ->; cbn in *; lia).
      rewrite strip_zeros_snoc by done.
      replace ((10 * dec_val l + digit_val b) / 10) with (dec_val l)
        by (apply Z.div_unique with (digit_val b); lia).
      replace ((10 * dec_val l + digit_val b) mod 10) with (digit_val b)
        by (apply Z.mod_unique with (dec_val l); lia).
      rewrite digit_of_val by done. f_equal. apply IH; [done..|].
      destruct Hb as [Hb|Hb]; [lia|]. rewrite Nat2Z.inj_succ, Z.pow_succ_r in Hb by lia. lia.
Qed.

Lemma dec_of_nonneg_val l : l <> [] -> Forall (fun b => is_digit b = true) l ->
  dec_of_nonneg (dec_val l) = strip_zeros l.
Proof.
  intros Hne Hl. apply dec_digits_val; [done..|].
  pose proof (dec_val_range _ Hl).
  destruct (Z.eq_dec (dec_val l) 0) as [->|]; [left; lia|]. right.
  rewrite Z2Nat.id by (pose proof (Z.log2_nonneg (dec_val l)); lia).
  apply Z.log2_spec. lia.
Qed.

Lemma strip_zeros_idem l : l <> [] -> Forall (fun b => is_digit b = true) l ->
  strip_zeros (strip_zeros l) = strip_zeros l.
Proof.
  intros Hne Hl. rewrite <- (dec_of_nonneg_val l) by done.
  destruct (dec_of_nonneg_spec (dec_val l)) as [Hd Hv]; [by apply dec_val_range|].
  rewrite <- dec_of_nonneg_val, Hv; [done| |done].
  unfold dec_of_nonneg. generalize (Z.to_nat (Z.log2 (dec_val l) + 1)). intros [|n]; cbn; [done|].
  case_match; [done|]. by destruct (dec_digits n _).
Qed.

Lemma dec_of_nonneg_ne z : dec_of_nonneg z <> [].
Proof.
  unfold dec_of_nonneg. generalize (Z.to_nat (Z.log2 z + 1)). intros [|n]; cbn; [done|].
  case_match; [done|]. by destruct (dec_digits n _).
Qed.

Lemma strip_dec_of_nonneg z : 0 <= z -> strip_zeros (dec_of_nonneg z) = dec_of_nonneg z.
Proof.
  intros Hz. destruct (dec_of_nonneg_spec z Hz) as [Hd Hv].
  rewrite <- (dec_of_nonneg_val (dec_of_nonneg z)) by (done || apply dec_of_nonneg_ne).
  by rewrite Hv.
Qed.

Lemma dec_of_nonneg_inj a b : 0 <= a -> 0 <= b -> dec_of_nonneg a = dec_of_nonneg b -> a = b.
Proof.
  intros Ha Hb He. destruct (dec_of_nonneg_spec a Ha) as [_ <-].
  destruct (dec_of_nonneg_spec b Hb) as [_ <-]. by rewrite He.
Qed.

(** ** Spans *)
Lemma span_digits_app d t : Forall (fun b => is_digit b = true) d ->
  match t with [] => True | b :: _ => is_digit b = false end ->
  span_digits (d ++ t) = (d, t).
Proof.
  intros Hd Ht. induction Hd as [|b d Hb Hd IH]; cbn.
  - destruct t as [|b t]; [done|]. cbn. by rewrite Ht.
  - by rewrite Hb, IH.
Qed.

Lemma span_digits_spec l d t : span_digits l = (d, t) ->
  l = d ++ t /\ Forall (fun b => is_digit b = true) d
  /\ match t with [] => True | b :: _ => is_digit b = false end.
Proof.
  revert d t; induction l as [|b l IH]; intros d t; cbn; [intros [= <- <-]; auto|].
  destruct (is_digit b) eqn:Eb.
  - destruct (span_digits l) as [d' t'] eqn:E. intros [= <- <-].
    destruct (IH d' t' eq_refl) as (-> & Hd & Ht). auto.
  - intros [= <- <-]. auto.
Qed.

(** ** Values read from rows and configuration

    The fragment of JavaScript values that reach the encoders: columns are
    strings, integers, [null] or absent. *)
Inductive jsval :=
| JUndef
| JNull
| JBool (b : bool)
| JInt (z : Z)
| JStr (s : string).

#[global] Instance jsval_eq_dec : EqDecision jsval.
Proof. solve_decision. Defined.

(** [String(v)] *)
Definition js_String (v : jsval) : string :=
  match v with
  | JUndef => "undefined"
  | JNull => "null"
  | JBool true => "true"
  | JBool false => "false"
  | JInt z => string_of_int z
  | JStr s => s
  end.

(** [v == null] *)
Definition is_nullish (v : jsval) : bool :=
  match v with JUndef | JNull => true | _ => false end.

Definition js_typeof (v : jsval) : string :=
  match v with
  | JUndef => "undefined"
  | JNull => "object"
  | JBool _ => "boolean"
  | JInt _ => "number"
  | JStr _ => "string"
  end.

(** [l.join(sep)] of texts. *)
Fixpoint join_text (sep : string) (l : list string) : string :=
  match l with
  | [] => ""
  | [x] => x
  | x :: l' => x +:+ sep +:+ join_text sep l'
  end.

(** Texts without the separator byte join injectively. *)
Lemma join_text_pipe_inj l l' : l <> [] -> l' <> [] ->
  Forall (fun x => ch "|" ∉ utf8 x) l -> Forall (fun x => ch "|" ∉ utf8 x) l' ->
  join_text "|" l = join_text "|" l' -> l = l'.
Proof.
  assert (forall (a a' r r' : bytes) c, c ∉ a -> c ∉ a' -> a ++ c :: r = a' ++ c :: r' -> a = a' /\ r = r') as Hsplit.
  { induction a as [|x a IH]; intros [|x' a'] r r' c Ha Ha' He; cbn in He; simplify_eq; rewrite ?not_elem_of_cons in *.
    - done.
    - naive_solver.
    - naive_solver.
    - destruct (IH a' r r' c) as [-> ->]; naive_solver. }
  revert l'; induction l as [|x l IH]; intros [|x' l'] Hne Hne' Hf Hf' He; try done.
  apply Forall_cons in Hf as [Hx Hf], Hf' as [Hx' Hf'].
  assert (forall y m, utf8 (join_text "|" (y :: m)) = utf8 y ++ match m with [] => [] | _ => ch "|" :: utf8 (join_text "|" m) end) as Hj.
  { intros y [|z m]; cbn [join_text]; [by rewrite app_nil_r|]. by rewrite !utf8_app. }
  apply (f_equal utf8) in He. rewrite !Hj in He. destruct l as [|y l], l' as [|y' l'].
  - rewrite !app_nil_r in He. by apply (inj utf8) in He as ->.
  - rewrite app_nil_r in He. rewrite He in Hx. exfalso. apply Hx. apply elem_of_app. right. left.
  - rewrite app_nil_r in He. rewrite <- He in Hx'. exfalso. apply Hx'. apply elem_of_app. right. left.
  - apply Hsplit in He as [He1 He2]; [|done..]. apply (inj utf8) in He1 as ->. apply (inj utf8) in He2.
    f_equal. by apply IH.
Qed.

(** The number of separators in a joined text. *)
Definition pipes (s : string) : nat := length (List.filter (fun b => bool_decide (b = ch "|")) (utf8 s)).
Lemma pipes_app a b : pipes (a +:+ b) = (pipes a + pipes b)%nat.
Proof. unfold pipes. by rewrite utf8_app, List.filter_app, length_app. Qed.
Lemma pipes_free s : pipes s = O <-> ch "|" ∉ utf8 s.
Proof.
  unfold pipes. rewrite length_zero_iff_nil. split.
  - intros E Hin. assert (ch "|" ∈ List.filter (fun b => bool_decide (b = ch "|")) (utf8 s)) as Hf.
    { apply elem_of_lfilter. split; [done|]. by apply bool_decide_eq_true. }
    rewrite E in Hf. by apply not_elem_of_nil in Hf.
  - intros Hn. destruct (List.filter _ _) as [|b l] eqn:E; [done|]. exfalso.
    assert (b ∈ List.filter (fun b => bool_decide (b = ch "|")) (utf8 s)) as Hb by (rewrite E; left).
    apply elem_of_lfilter in Hb as [Hb Ht]. apply bool_decide_eq_true in Ht as ->. done.
Qed.
Fixpoint pipe_sum (l : list string) : nat := match l with [] => O | x :: l' => (pipes x + pipe_sum l')%nat end.
Lemma pipes_join l : l <> [] -> (pipes (join_text "|" l) + 1 = pipe_sum l + length l)%nat.
Proof.
  induction l as [|x [|y l] IH]; intros Hne; [done|cbn [join_text pipe_sum length]; lia|]. specialize (IH ltac:(done)).
  change (join_text "|" (x :: y :: l)) with (x +:+ "|" +:+ join_text "|" (y :: l)).
  rewrite !pipes_app. change (pipes "|") with 1%nat.
  cbn [pipe_sum length] in *. lia.
Qed.
(** It is enough that one side is free of the separator when the lists are as long. *)
Lemma join_text_pipe_inj_len l l' : length l = length l' -> Forall (fun x => ch "|" ∉ utf8 x) l ->
  join_text "|" l = join_text "|" l' -> l = l'.
Proof.
  intros Hl Hf He. destruct l as [|x l]; [by destruct l'|]. assert (l' <> []) as Hne by (by destruct l').
  assert (pipe_sum (x :: l) = O) as Hz.
  { revert Hf. generalize (x :: l). intros m Hm. induction Hm as [|y m Hy _ IH]; [done|]. cbn [pipe_sum]. apply pipes_free in Hy. lia. }
  pose proof (pipes_join (x :: l) ltac:(done)) as H1. pose proof (pipes_join l' Hne) as H2.
  assert (pipe_sum l' = O) as Hz' by (rewrite He in H1; lia).
  apply join_text_pipe_inj; try done. clear -Hz'. induction l' as [|y m IH]; constructor; cbn [pipe_sum] in Hz'.
  - apply pipes_free. lia.
  - apply IH. lia.
Qed.

(** ** Trimming leaves digits alone *)

Definition not_digit_head (w : bytes) : bool :=
  match w with b :: _ => negb (is_digit b) | [] => false end.

Lemma strip_one_digit ws b l : forallb not_digit_head ws = true -> is_digit b = true ->
  strip_one ws (b :: l) = None.
Proof.
  intros Hws Hb. unfold strip_one. induction ws as [|w ws IH]; [done|].
  cbn in Hws. js_simpl. destruct w as [|c w]; [done|]. cbn.
  destruct (bool_decide (c = b)) eqn:E; [|by apply IH].
  js_simpl. subst. unfold not_digit_head in *. by rewrite Hb in H.
Qed.

Lemma strip_all_digit ws n b l : forallb not_digit_head ws = true -> is_digit b = true ->
  strip_all ws n (b :: l) = b :: l.
Proof. intros. destruct n; [done|]. cbn [strip_all]. by rewrite strip_one_digit. Qed.

(** Text that starts and ends with a digit has no white space to trim. *)
Lemma trim_digits a l b : is_digit a = true -> is_digit b = true ->
  trim (a :: l ++ [b]) = a :: l ++ [b].
Proof.
  intros Ha Hb. unfold trim, trim_start. rewrite strip_all_digit by done.
  unfold trim_end. change (a :: l ++ [b]) with ((a :: l) ++ [b]).
  rewrite rev_app_distr. cbn [rev app]. rewrite strip_all_digit by done.
  cbn [rev]. rewrite rev_app_distr, rev_involutive. done.
Qed.
