(* ===== verification/JsNumber.v ===== *)
(** * JsNumber: integers as JavaScript numbers

    The parts of number conversion the gates, codecs and configuration readers
    use: rounding of an integer to the nearest double (ties to even, overflow to
    infinity), [Number] of a digit string, and [parseInt] without a radix. *)

From S2P Require Import Prelude JsText.

(** ** Rounding to binary64 *)
Definition MAX_SAFE : Z := 2 ^ 53 - 1.

(** The 53-bit significand nearest to a non-negative integer, ties to even. *)
Definition round_pos (z : Z) : Z :=
  if z <? 2 ^ 53 then z
  else
    let e := Z.log2 z - 52 in
    let q := Z.shiftr z e in
    let r := z - Z.shiftl q e in
    let half := Z.shiftl 1 (e - 1) in
    let q' := if r <? half then q else if half <? r then q + 1 else if Z.even q then q else q + 1 in
    Z.shiftl q' e.

(** [None] is an infinity. *)
Definition to_double (z : Z) : option Z :=
  let m := round_pos (Z.abs z) in
  if 2 ^ 1024 <=? m then None else Some (Z.sgn z * m).

(** [Number(s)] of a string of decimal digits. *)
Definition number_of_digits (l : bytes) : option Z := to_double (dec_val l).

(** [/^\d+$/.test(s)] *)
Definition all_digits (l : bytes) : bool := match l with [] => false | _ => forallb is_digit l end.

(** ** parseInt *)
Fixpoint span_hex (l : bytes) : bytes :=
  match l with
  | [] => []
  | b :: l' => match hex_value b with Some _ => b :: span_hex l' | None => [] end
  end.
Definition hex_val (l : bytes) : Z :=
  fold_left (fun acc b => 16 * acc + default 0 (hex_value b)) l 0.

Definition strip_sign (l : bytes) : Z * bytes :=
  match l with
  | b :: l' => if bool_decide (b = ch "-") then (-1, l')
               else if bool_decide (b = ch "+") then (1, l') else (1, l)
  | [] => (1, [])
  end.

(** The finite result of [parseInt(s)], [None] for NaN and the infinities. *)
Definition parse_int (s : string) : option Z :=
  let '(sg, l) := strip_sign (trim_start (utf8 s)) in
  match l with
  | z :: x :: rest =>
      if bool_decide (z = c_zero) && (bool_decide (x = ch "x") || bool_decide (x = ch "X"))
      then match span_hex rest with
           | [] => None
           | ds => (fun m => sg * m) <$> to_double (hex_val ds)
           end
      else match (span_digits l).1 with
           | [] => None
           | ds => (fun m => sg * m) <$> to_double (dec_val ds)
           end
  | _ => match (span_digits l).1 with
         | [] => None
         | ds => (fun m => sg * m) <$> to_double (dec_val ds)
         end
  end.

(** ** Exactness on safe integers *)

Lemma round_pos_small z : z < 2 ^ 53 -> round_pos z = z.
Proof. intros Hz. unfold round_pos. by rewrite (proj2 (Z.ltb_lt _ _) Hz). Qed.

Lemma to_double_small z : Z.abs z < 2 ^ 53 -> to_double z = Some z.
Proof.
  intros Hz. unfold to_double. rewrite round_pos_small by done.
  assert (2 ^ 53 <= 2 ^ 1024) by (apply Z.pow_le_mono_r; lia).
  rewrite (proj2 (Z.leb_gt _ _)) by lia. f_equal. rewrite Z.mul_comm. apply Z.abs_sgn.
Qed.

(** Rounding moves an integer by at most half a unit in the last place. *)
Lemma round_pos_error z : 2 ^ 53 <= z ->
  Z.abs (round_pos z - z) <= 2 ^ (Z.log2 z - 53) /\ 2 ^ (Z.log2 z - 52) * (round_pos z / 2 ^ (Z.log2 z - 52)) = round_pos z.
Proof.
  intros Hz. unfold round_pos. rewrite (proj2 (Z.ltb_ge _ _)) by lia.
  assert (53 <= Z.log2 z) as Hlog by (apply Z.log2_le_pow2; lia).
  set (e := Z.log2 z - 52). replace (Z.log2 z - 53) with (e - 1) by lia.
  rewrite Z.shiftr_div_pow2, !Z.shiftl_mul_pow2 by lia. rewrite Z.mul_1_l.
  assert (2 ^ e = 2 * 2 ^ (e - 1)) as He by (rewrite <- Z.pow_succ_r by lia; f_equal; lia).
  pose proof (Z.pow_pos_nonneg 2 (e - 1) ltac:(lia) ltac:(lia)) as Hp.
  pose proof (Z.div_mod z (2 ^ e) ltac:(lia)) as Hdm. pose proof (Z.mod_pos_bound z (2 ^ e) ltac:(lia)) as Hm.
  set (q := z / 2 ^ e) in *. split.
  - repeat case_match; js_simpl; nia.
  - rewrite Z.div_mul by lia. lia.
Qed.

Lemma span_digits_all l : forallb is_digit l = true -> span_digits l = (l, []).
Proof.
  induction l as [|b l IH]; cbn; [done|]. intros Hl. js_simpl. rewrite H, IH by done. done.
Qed.

Lemma strip_sign_digit b l : is_digit b = true -> strip_sign (b :: l) = (1, b :: l).
Proof.
  intros Hb. unfold strip_sign. repeat case_bool_decide; subst; try done; discriminate Hb.
Qed.

(** A pure digit string parses to its value, as [Number] does. *)
Lemma parse_int_digits l : all_digits l = true -> parse_int (of_utf8 l) = number_of_digits l.
Proof.
  destruct l as [|b l]; [done|]. unfold all_digits. intros Hd.
  assert (is_digit b = true) as Hb by (cbn in Hd; by js_simpl).
  assert (span_digits (b :: l) = (b :: l, [])) as Hs by (by apply span_digits_all).
  unfold parse_int. rewrite utf8_of_utf8. unfold trim_start.
  rewrite strip_all_digit, strip_sign_digit by done.
  assert ((fun m : Z => 1 * m) <$> to_double (dec_val (b :: l)) = number_of_digits (b :: l)) as Hv.
  { unfold number_of_digits. destruct (to_double (dec_val (b :: l))) as [m|]; [|done]. cbn. f_equal. lia. }
  destruct l as [|c l]; [by rewrite Hs|].
  replace (bool_decide (c = ch "x") || bool_decide (c = ch "X")) with false.
  - rewrite andb_false_r, Hs. exact Hv.
  - cbn in Hd. js_simpl. repeat case_bool_decide; subst; done.
Qed.

Lemma parse_int_height z : 0 <= z < 2 ^ 53 -> parse_int (string_of_int z) = Some z.
Proof.
  intros Hz. unfold string_of_int, dec_of. rewrite (proj2 (Z.ltb_ge _ _)) by lia.
  destruct (dec_of_nonneg_spec z ltac:(lia)) as [Hd Hv].
  rewrite parse_int_digits.
  - unfold number_of_digits. rewrite Hv. apply to_double_small. lia.
  - unfold all_digits. pose proof (dec_of_nonneg_ne z) as Hne.
    destruct (dec_of_nonneg z) as [|b l]; [done|]. apply forallb_forall.
    intros x Hx%list_elem_of_In. rewrite Forall_forall in Hd. by apply Hd.
Qed.
