(* ===== verification/JsDouble.v ===== *)
(** * JsDouble: the [Number] conversion

    [Number(v)] for the primitive values the modules convert: the grammar of
    StringNumericLiteral with white space trimmed (the empty text is zero), decimal
    literals with fraction and exponent rounded to the nearest double, hexadecimal,
    octal and binary integers, and [Infinity].  A finite double is [m * 2^e];
    the sign of zero is not kept, since no caller observes it. *)

From S2P Require Import Prelude JsText JsNumber.

Inductive jsnum :=
| Fin (m e : Z)
| Inf (neg : bool)
| NaN.

(** ** Rounding a ratio to the nearest double, ties to even *)
Definition half_even (n d : Z) : Z :=
  let q := n / d in let r := n mod d in
  if 2 * r <? d then q else if d <? 2 * r then q + 1 else if Z.even q then q else q + 1.

(** [n * 2^-e / d] as a ratio. *)
Definition scaled (n d e : Z) : Z * Z := if e <? 0 then (n * 2 ^ (- e), d) else (n, d * 2 ^ e).

Definition round_ratio (n d : Z) : jsnum :=
  if n =? 0 then Fin 0 0
  else
    let e0 := Z.log2 n - Z.log2 d - 53 in
    let e1 := let '(a, b) := scaled n d e0 in if 2 ^ 53 <=? a / b then e0 + 1 else e0 in
    let e := Z.max e1 (-1074) in
    let '(a, b) := scaled n d e in
    let m := half_even a b in
    if (971 <? e) || ((e =? 971) && (2 ^ 53 <=? m)) then Inf false else Fin m e.

Definition num_neg (x : jsnum) : jsnum :=
  match x with
  | Fin m e => Fin (- m) e
  | Inf s => Inf (negb s)
  | NaN => NaN
  end.

(** ** StringNumericLiteral *)
Definition exponent_part (l : bytes) : option Z :=
  match l with
  | [] => Some 0
  | b :: l' =>
      if bool_decide (b = ch "e") || bool_decide (b = ch "E") then
        let '(sign, ds) := strip_sign l' in
        if all_digits ds then Some (sign * dec_val ds) else None
      else None
  end.

Definition decimal_literal (l : bytes) : jsnum :=
  let '(i, rest) := span_digits l in
  let '(f, rest) := match rest with
                    | b :: rest' => if bool_decide (b = c_dot) then span_digits rest' else ([], rest)
                    | [] => ([], rest)
                    end in
  if bool_decide (i = []) && bool_decide (f = []) then NaN
  else match exponent_part rest with
       | None => NaN
       | Some x =>
           let k := x - Z.of_nat (length f) in
           let n := dec_val (i ++ f) in
           if k <? 0 then round_ratio n (10 ^ (- k)) else round_ratio (n * 10 ^ k) 1
       end.

Definition base_digit (base : Z) (b : byte) : option Z :=
  let z := b2z b in
  let d := if is_digit b then z - 48
           else if (97 <=? z) && (z <=? 102) then z - 87 else if (65 <=? z) && (z <=? 70) then z - 55 else 99 in
  if d <? base then Some d else None.
Fixpoint base_value (base : Z) (l : bytes) (acc : Z) : option Z :=
  match l with
  | [] => Some acc
  | b :: l' => match base_digit base b with Some d => base_value base l' (base * acc + d) | None => None end
  end.
Definition based_literal (base : Z) (l : bytes) : jsnum :=
  match l with
  | [] => NaN
  | _ => match base_value base l 0 with Some n => round_ratio n 1 | None => NaN end
  end.

Definition number_literal (l : bytes) : jsnum :=
  match l with
  | [] => Fin 0 0
  | z :: x :: l' =>
      if bool_decide (z = c_zero) && (bool_decide (x = ch "x") || bool_decide (x = ch "X")) then based_literal 16 l'
      else if bool_decide (z = c_zero) && (bool_decide (x = ch "o") || bool_decide (x = ch "O")) then based_literal 8 l'
      else if bool_decide (z = c_zero) && (bool_decide (x = ch "b") || bool_decide (x = ch "B")) then based_literal 2 l'
      else
        let '(sign, body) := strip_sign l in
        let v := if bool_decide (body = utf8 "Infinity") then Inf false else decimal_literal body in
        if sign <? 0 then num_neg v else v
  | _ => decimal_literal l
  end.

Definition js_number (v : jsval) : jsnum :=
  match v with
  | JUndef => NaN
  | JNull => Fin 0 0
  | JBool b => Fin (if b then 1 else 0) 0
  | JInt z => Fin z 0
  | JStr s => number_literal (trim (utf8 s))
  end.

(** ** Predicates on numbers *)
Definition isFinite (x : jsnum) : bool := match x with Fin _ _ => true | _ => false end.

(** Order of two finite numbers; comparisons with [NaN] are false. *)
Definition fin_le (m e m' e' : Z) : bool :=
  let lo := Z.min e e' in m * 2 ^ (e - lo) <=? m' * 2 ^ (e' - lo).
Definition num_le (x y : jsnum) : bool :=
  match x, y with
  | Fin m e, Fin m' e' => fin_le m e m' e'
  | NaN, _ | _, NaN => false
  | Inf true, _ | _, Inf false => true
  | _, _ => false
  end.

(** The integer a finite number is, if it is one. *)
Definition num_integer (x : jsnum) : option Z :=
  match x with
  | Fin m e => if 0 <=? e then Some (m * 2 ^ e)
               else if m mod 2 ^ (- e) =? 0 then Some (m / 2 ^ (- e)) else None
  | _ => None
  end.
Definition safe_integer (x : jsnum) : option Z :=
  match num_integer x with
  | Some z => if Z.abs z <=? MAX_SAFE then Some z else None
  | None => None
  end.
(** [Math.floor] of a finite number. *)
Definition num_floor (x : jsnum) : Z :=
  match x with
  | Fin m e => if 0 <=? e then m * 2 ^ e else m / 2 ^ (- e)
  | _ => 0
  end.

(** ** Conformance examples *)
Definition num_text (s : string) : jsnum := js_number (JStr s).
Example number_texts :
  num_text "" = Fin 0 0 /\ num_text "  " = Fin 0 0 /\ safe_integer (num_text " 42 ") = Some 42
  /\ safe_integer (num_text "1e3") = Some 1000 /\ safe_integer (num_text "12.0") = Some 12
  /\ safe_integer (num_text "0x1F") = Some 31 /\ safe_integer (num_text "-7") = Some (-7)
  /\ num_text "1.2.3" = NaN /\ num_text "12px" = NaN /\ num_text "." = NaN /\ num_text "-Infinity" = Inf true
  /\ safe_integer (num_text "9007199254740993") = None /\ num_integer (num_text "9007199254740993") = Some 9007199254740992
  /\ num_integer (num_text "1.5") = None /\ num_floor (num_text "1.5") = 1 /\ num_text "1e400" = Inf false
  /\ num_text "0.1" = Fin 7205759403792794 (-56).
Proof. vm_compute. repeat split. Qed.

Lemma num_integer_Fin z : num_integer (Fin z 0) = Some z.
Proof. cbn. by rewrite Z.mul_1_r. Qed.

Lemma fin_le_int z z' : num_le (Fin z 0) (Fin z' 0) = (z <=? z').
Proof. cbn. unfold fin_le. cbn. by rewrite !Z.mul_1_r. Qed.

(** The order of finite numbers is total and transitive. *)
Lemma fin_le_total m e m' e' : fin_le m e m' e' = true \/ fin_le m' e' m e = true.
Proof. unfold fin_le. rewrite (Z.min_comm e' e). rewrite !Z.leb_le. lia. Qed.

Lemma fin_le_scale m e m' e' lo : lo <= e -> lo <= e' ->
  fin_le m e m' e' = (m * 2 ^ (e - lo) <=? m' * 2 ^ (e' - lo)).
Proof.
  intros He He'. unfold fin_le. set (mn := Z.min e e').
  replace (e - lo) with ((e - mn) + (mn - lo)) by lia. replace (e' - lo) with ((e' - mn) + (mn - lo)) by lia.
  rewrite !Z.pow_add_r by lia. rewrite !Z.mul_assoc.
  assert (0 < 2 ^ (mn - lo)) by (apply Z.pow_pos_nonneg; lia).
  destruct (Z.leb_spec (m * 2 ^ (e - mn)) (m' * 2 ^ (e' - mn))); symmetry.
  - apply Z.leb_le. nia.
  - apply Z.leb_gt. nia.
Qed.

Lemma fin_le_trans m1 e1 m2 e2 m3 e3 : fin_le m1 e1 m2 e2 = true -> fin_le m2 e2 m3 e3 = true -> fin_le m1 e1 m3 e3 = true.
Proof.
  set (lo := Z.min e1 (Z.min e2 e3)). rewrite !(fin_le_scale _ _ _ _ lo) by lia. rewrite !Z.leb_le. lia.
Qed.
