(* ===== verification/Json.v ===== *)
(** * Json: the JSON text the consensus digests are taken over

    [util/index.js]: [jsonStringify] is [JSON.stringify] with a replacer that
    writes a bigint as its decimal string, and [getDataHash] is the SHA-256 of
    that text in hex.  The values are the ones rows and preimages are made of:
    [undefined], [null], booleans, integer numbers, bigints, strings, arrays and
    objects in key order.  [serialize] is the part of [JSON.stringify] that
    drops an absent member, writes [null] for an absent array item and applies
    the replacer; [print_json] writes the text.  [read_json] is a reader of that
    text: the round trip [read_print] shows that the text determines the value,
    which is what makes a digest of it a commitment. *)

From S2P Require Import Prelude Sha256 JsText.

(** ** Values *)
Inductive jv :=
| VUndef
| VNull
| VBool (b : bool)
| VNum (z : Z)
| VBig (z : Z)
| VStr (s : string)
| VArr (l : list jv)
| VObj (l : list (string * jv)).

Inductive json :=
| PNull
| PBool (b : bool)
| PNum (z : Z)
| PStr (s : string)
| PArr (l : list json)
| PObj (l : list (string * json)).

(** The value of a member after the replacer; [None] is [undefined]. *)
Fixpoint serialize (v : jv) : option json :=
  match v with
  | VUndef => None
  | VNull => Some PNull
  | VBool b => Some (PBool b)
  | VNum z => Some (PNum z)
  | VBig z => Some (PStr (string_of_int z))
  | VStr s => Some (PStr s)
  | VArr l => Some (PArr (List.map (fun x => default PNull (serialize x)) l))
  | VObj l =>
      Some (PObj (List.flat_map
        (fun m => match serialize m.2 with Some j => [(m.1, j)] | None => [] end) l))
  end.

(** ** Printing *)
Definition c_quote : byte := Byte.x22.
Definition c_bslash : byte := Byte.x5c.
Definition c_comma : byte := Byte.x2c.
Definition c_colon : byte := Byte.x3a.
Definition c_lbrack : byte := Byte.x5b.
Definition c_rbrack : byte := Byte.x5d.
Definition c_lbrace : byte := Byte.x7b.
Definition c_rbrace : byte := Byte.x7d.

(** The two-character escapes: backspace, tab, line feed, form feed, carriage
    return, quote and backslash. *)
Definition short_escapes : list (byte * byte) :=
  [(Byte.x08, ch "b"); (Byte.x09, ch "t"); (Byte.x0a, ch "n"); (Byte.x0c, ch "f");
   (Byte.x0d, ch "r"); (c_quote, c_quote); (c_bslash, c_bslash)].

Fixpoint assoc_fst (k : byte) (l : list (byte * byte)) : option byte :=
  match l with
  | [] => None
  | (a, b) :: l' => if bool_decide (k = a) then Some b else assoc_fst k l'
  end.
Definition swap_pairs (l : list (byte * byte)) : list (byte * byte) := map (fun p => (p.2, p.1)) l.

Definition escape_byte (b : byte) : bytes :=
  match assoc_fst b short_escapes with
  | Some e => [c_bslash; e]
  | None =>
      if b2z b <? 32 then [c_bslash; ch "u"; c_zero; c_zero] ++ hex_encode_bytes [b] else [b]
  end.

Definition print_string (s : string) : bytes :=
  c_quote :: List.flat_map escape_byte (utf8 s) ++ [c_quote].

Fixpoint join_comma (l : list bytes) : bytes :=
  match l with
  | [] => []
  | [x] => x
  | x :: l' => x ++ c_comma :: join_comma l'
  end.

Definition print_member (p : json -> bytes) (m : string * json) : bytes :=
  print_string m.1 ++ c_colon :: p m.2.

Fixpoint print_json (j : json) : bytes :=
  match j with
  | PNull => utf8 "null"
  | PBool true => utf8 "true"
  | PBool false => utf8 "false"
  | PNum z => dec_of z
  | PStr s => print_string s
  | PArr l => c_lbrack :: join_comma (List.map print_json l) ++ [c_rbrack]
  | PObj l => c_lbrace :: join_comma (List.map (print_member print_json) l) ++ [c_rbrace]
  end.

(** [jsonStringify(obj)]; [None] is the [undefined] it returns for [undefined]. *)
Definition jsonStringify (v : jv) : option bytes := print_json <$> serialize v.

(** [Object.assign({}, data)] of an array with extra properties: its items under
    their indices, in order, then the properties. *)
Definition index_keys (l : list jv) : list (string * jv) :=
  List.combine (List.map (fun i => string_of_int (Z.of_nat i)) (List.seq 0 (length l))) l.

(** [getDataHash(data)] of the members [Object.assign({}, data)] copies. *)
Definition getDataHash `{HashFn} (members : list (string * jv)) : string :=
  hex_encode (sha256 (default [] (jsonStringify (VObj members)))).

(** ** Reading *)
Fixpoint unescape (l : bytes) : option (bytes * bytes) :=
  match l with
  | [] => None
  | b :: r =>
      if bool_decide (b = c_quote) then Some ([], r)
      else if bool_decide (b = c_bslash) then
        match r with
        | [] => None
        | e :: r' =>
            if bool_decide (e = ch "u") then
              match r' with
              | _ :: _ :: h1 :: h2 :: r'' =>
                  match unescape r'' with
                  | Some (s, t) => Some (hex_decode_bytes [h1; h2] ++ s, t)
                  | None => None
                  end
              | _ => None
              end
            else
              match assoc_fst e (swap_pairs short_escapes), unescape r' with
              | Some c, Some (s, t) => Some (c :: s, t)
              | _, _ => None
              end
        end
      else match unescape r with Some (s, t) => Some (b :: s, t) | None => None end
  end.

(** Items separated by commas up to the closing byte. *)
Fixpoint read_items {A} (p : bytes -> option (A * bytes)) (close : byte) (n : nat) (l : bytes)
  : option (list A * bytes) :=
  match n with
  | O => None
  | S n' =>
      match p l with
      | Some (a, c :: r) =>
          if bool_decide (c = close) then Some ([a], r)
          else if bool_decide (c = c_comma) then
            match read_items p close n' r with
            | Some (rest, t) => Some (a :: rest, t)
            | None => None
            end
          else None
      | _ => None
      end
  end.

Definition read_member (p : bytes -> option (json * bytes)) (l : bytes)
  : option ((string * json) * bytes) :=
  match l with
  | q :: r =>
      if bool_decide (q = c_quote) then
        match unescape r with
        | Some (k, c :: t) =>
            if bool_decide (c = c_colon) then
              match p t with
              | Some (v, t') => Some ((of_utf8 k, v), t')
              | None => None
              end
            else None
        | _ => None
        end
      else None
  | [] => None
  end.

Definition read_number (l : bytes) : option (json * bytes) :=
  match strip_prefix [c_minus] l with
  | Some r => match span_digits r with ([], _) => None | (d, t) => Some (PNum (- dec_val d), t) end
  | None => match span_digits l with ([], _) => None | (d, t) => Some (PNum (dec_val d), t) end
  end.

Definition read_word (w : string) (j : json) (l : bytes) : option (json * bytes) :=
  match strip_prefix (utf8 w) l with Some r => Some (j, r) | None => None end.

(** The fuel bounds the depth of the value and the number of items of a list;
    the size of the value is enough. *)
Fixpoint read_json (fuel : nat) (l : bytes) : option (json * bytes) :=
  match fuel with
  | O => None
  | S n =>
      match l with
      | [] => None
      | b :: r =>
          if bool_decide (b = c_quote) then
            match unescape r with Some (s, t) => Some (PStr (of_utf8 s), t) | None => None end
          else if bool_decide (b = c_lbrack) then
            match strip_prefix [c_rbrack] r with
            | Some t => Some (PArr [], t)
            | None => match read_items (read_json n) c_rbrack n r with
                      | Some (items, t) => Some (PArr items, t) | None => None end
            end
          else if bool_decide (b = c_lbrace) then
            match strip_prefix [c_rbrace] r with
            | Some t => Some (PObj [], t)
            | None => match read_items (read_member (read_json n)) c_rbrace n r with
                      | Some (items, t) => Some (PObj items, t) | None => None end
            end
          else if bool_decide (b = ch "n") then read_word "null" PNull l
          else if bool_decide (b = ch "t") then read_word "true" (PBool true) l
          else if bool_decide (b = ch "f") then read_word "false" (PBool false) l
          else read_number l
      end
  end.

(** ** The round trip *)

Lemma unescape_escape b r :
  unescape (escape_byte b ++ r) = match unescape r with Some (s, t) => Some (b :: s, t) | None => None end.
Proof. destruct b; reflexivity. Qed.

Lemma unescape_print l rest :
  unescape (List.flat_map escape_byte l ++ c_quote :: rest) = Some (l, rest).
Proof. induction l as [|b l IH]; [reflexivity|]. cbn [List.flat_map]. by rewrite <- app_assoc, unescape_escape, IH. Qed.

(** What may follow a value: nothing that would extend a number. *)
Definition stops (rest : bytes) : Prop :=
  match rest with [] => True | b :: _ => is_digit b = false end.

Lemma read_items_join {A} (p : bytes -> option (A * bytes)) (pr : A -> bytes) close n l rest :
  l <> [] -> (length l <= n)%nat -> is_digit close = false -> close <> c_comma ->
  Forall (fun a => forall t, stops t -> p (pr a ++ t) = Some (a, t)) l ->
  read_items p close n (join_comma (List.map pr l) ++ close :: rest) = Some (l, rest).
Proof.
  intros Hne Hn Hc Hcc Hl. revert n Hne Hn. induction Hl as [|a l Ha Hl IH]; intros n Hne Hn; [done|].
  destruct n as [|n]; [cbn in Hn; lia|]. cbn [read_items List.map]. destruct l as [|a' l].
  - cbn [List.map join_comma]. rewrite Ha by exact Hc. by rewrite bool_decide_eq_true_2.
  - cbn [List.map join_comma]. rewrite <- app_assoc. cbn [app]. rewrite Ha by reflexivity.
    rewrite bool_decide_eq_false_2, bool_decide_eq_true_2 by done.
    cbn [List.map] in IH. rewrite IH; [done|done|cbn in *; lia].
Qed.

(** The number of values of a document. *)
Fixpoint json_size (j : json) : nat :=
  match j with
  | PArr l => S (list_sum (List.map (fun x => S (json_size x)) l))
  | PObj l => S (list_sum (List.map (fun m => S (json_size m.2)) l))
  | _ => 1
  end.

(** Induction through the items of arrays and objects. *)
Lemma json_nested_ind (P : json -> Prop) :
  P PNull -> (forall b, P (PBool b)) -> (forall z, P (PNum z)) -> (forall s, P (PStr s)) ->
  (forall l, Forall P l -> P (PArr l)) -> (forall l, Forall (fun m => P m.2) l -> P (PObj l)) ->
  forall j, P j.
Proof.
  intros Hn Hb Hz Hs Ha Ho. fix IH 1. intros [ |b|z|s|l|l]; [exact Hn|apply Hb|apply Hz|apply Hs| |].
  - apply Ha. induction l; constructor; auto.
  - apply Ho. induction l; constructor; auto.
Qed.

Lemma size_items {A} (f : A -> nat) (l : list A) (n : nat) :
  (list_sum (List.map (fun x => S (f x)) l) <= n)%nat ->
  (length l <= n)%nat /\ Forall (fun x => (f x <= n)%nat) l.
Proof.
  intros H. split.
  - revert n H; induction l as [|x l IH]; intros n H; [cbn; lia|]. cbn [List.map length] in *.
    change (S (f x) + list_sum (List.map (fun x => S (f x)) l) <= n)%nat in H.
    pose proof (IH (n - S (f x))%nat ltac:(lia)). lia.
  - induction l as [|x l IH]; [constructor|].
    change (S (f x) + list_sum (List.map (fun x => S (f x)) l) <= n)%nat in H.
    constructor; [lia|]. apply IH. lia.
Qed.

Lemma read_number_digits z rest : stops rest -> 0 <= z ->
  read_number (dec_of_nonneg z ++ rest) = Some (PNum z, rest).
Proof.
  intros Hs Hz. destruct (dec_of_nonneg_spec z Hz) as [Hd Hv]. unfold read_number.
  destruct (dec_of_nonneg z) as [|d l] eqn:E; [by apply dec_of_nonneg_ne in E|].
  replace (strip_prefix [c_minus] ((d :: l) ++ rest)) with (@None bytes).
  - rewrite span_digits_app by (done || exact Hs). by rewrite Hv.
  - cbn. rewrite bool_decide_eq_false_2; [done|]. intros <-. by inversion Hd.
Qed.

(** A digit or a sign leads into the reader of numbers. *)
Lemma read_json_number fuel b r : is_digit b = true \/ b = c_minus ->
  read_json (S fuel) (b :: r) = read_number (b :: r).
Proof. intros [Hb| ->]; [destruct b; try discriminate Hb; reflexivity|reflexivity]. Qed.

Lemma read_json_dec fuel z rest : stops rest -> read_json (S fuel) (dec_of z ++ rest) = Some (PNum z, rest).
Proof.
  intros Hs. unfold dec_of. destruct (z <? 0) eqn:Ez; js_simpl.
  - cbn [app]. rewrite read_json_number by auto. unfold read_number.
    replace (strip_prefix [c_minus] (c_minus :: dec_of_nonneg (- z) ++ rest))
      with (Some (dec_of_nonneg (- z) ++ rest)) by reflexivity.
    destruct (dec_of_nonneg_spec (- z) ltac:(lia)) as [Hd Hv].
    rewrite span_digits_app by (done || exact Hs).
    destruct (dec_of_nonneg (- z)) as [|d l] eqn:E; [by apply dec_of_nonneg_ne in E|].
    rewrite Hv. do 2 f_equal. f_equal. lia.
  - destruct (dec_of_nonneg_spec z Ez) as [Hd Hv].
    rewrite <- (read_number_digits z rest) by done.
    destruct (dec_of_nonneg z) as [|d l] eqn:E; [by apply dec_of_nonneg_ne in E|].
    cbn [app]. apply read_json_number. left. by inversion Hd.
Qed.

Lemma read_member_print p m rest : stops rest ->
  (forall t, stops t -> p (print_json m.2 ++ t) = Some (m.2, t)) ->
  read_member p (print_member print_json m ++ rest) = Some (m, rest).
Proof.
  intros Hs Hp. destruct m as [k v]. unfold print_member, print_string. cbn [fst snd app read_member].
  rewrite bool_decide_eq_true_2 by done. rewrite <- !app_assoc. cbn [app].
  rewrite unescape_print, bool_decide_eq_true_2, Hp by done. by rewrite of_utf8_utf8.
Qed.

(** The first byte of a value never closes a list. *)
Lemma print_open j : exists b r, print_json j = b :: r /\ b <> c_rbrack /\ b <> c_rbrace.
Proof.
  destruct j as [ |[]|z|s|l|l]; cbn; try (eexists _, _; split; [reflexivity|split; discriminate]).
  unfold dec_of. destruct (z <? 0) eqn:Ez; [eexists _, _; split; [reflexivity|split; discriminate]|].
  js_simpl. destruct (dec_of_nonneg_spec z Ez) as [Hd _].
  destruct (dec_of_nonneg z) as [|b r] eqn:E; [by apply dec_of_nonneg_ne in E|].
  exists b, r. split; [done|]. apply Forall_cons in Hd as [Hd _]. split; intros ->; discriminate Hd.
Qed.

Lemma join_comma_open {A} (pr : A -> bytes) c a l rest :
  (exists b r, pr a = b :: r /\ b <> c) ->
  strip_prefix [c] (join_comma (List.map pr (a :: l)) ++ rest) = None.
Proof.
  intros (b & r & E & Hb).
  assert (exists r', join_comma (List.map pr (a :: l)) ++ rest = b :: r') as [r' ->].
  { cbn [List.map]. destruct l; cbn [List.map join_comma]; rewrite E; eexists; reflexivity. }
  cbn. by rewrite bool_decide_eq_false_2.
Qed.

(** Reading the text of a document returns the document and what follows it. *)
Lemma read_print j fuel rest : (json_size j <= fuel)%nat -> stops rest ->
  read_json fuel (print_json j ++ rest) = Some (j, rest).
Proof.
  revert fuel rest. induction j as [ |[]|z|s|l IH|l IH] using json_nested_ind; intros fuel rest Hf Hs;
    (destruct fuel as [|fuel]; [cbn in Hf; lia|]); try reflexivity.
  - by apply read_json_dec.
  - cbn [print_json]. unfold print_string. rewrite <- app_comm_cons, <- app_assoc. cbn [app read_json].
    rewrite bool_decide_eq_true_2, unescape_print by done. by rewrite of_utf8_utf8.
  - cbn [json_size] in Hf. apply le_S_n in Hf. apply size_items in Hf as [Hlen Hsz].
    cbn [print_json]. rewrite <- app_comm_cons, <- app_assoc. cbn [read_json].
    rewrite bool_decide_eq_false_2, bool_decide_eq_true_2 by done.
    destruct l as [|a l]; [reflexivity|]. cbn [app].
    rewrite join_comma_open by (destruct (print_open a) as (b & r & -> & ? & ?); eauto).
    rewrite read_items_join; [done..|].
    rewrite Forall_forall in IH, Hsz |- *. intros x Hx t Ht. by apply IH; [|apply Hsz|].
  - cbn [json_size] in Hf. apply le_S_n in Hf.
    apply (size_items (fun m : string * json => json_size m.2)) in Hf as [Hlen Hsz].
    cbn [print_json]. rewrite <- app_comm_cons, <- app_assoc. cbn [read_json].
    rewrite !bool_decide_eq_false_2, bool_decide_eq_true_2 by done.
    destruct l as [|a l]; [reflexivity|]. cbn [app].
    rewrite join_comma_open by (eexists _, _; split; [reflexivity|discriminate]).
    rewrite read_items_join; [done..|].
    rewrite Forall_forall in IH, Hsz |- *. intros x Hx t Ht. apply read_member_print; [done|].
    intros t' Ht'. by apply IH; [|apply Hsz|].
Qed.

#[global] Instance print_json_inj : Inj (=) (=) print_json.
Proof.
  intros a b H. set (n := (json_size a + json_size b)%nat).
  pose proof (read_print a n [] ltac:(lia) I) as Ha. pose proof (read_print b n [] ltac:(lia) I) as Hb.
  rewrite !app_nil_r in *. rewrite H in Ha. congruence.
Qed.

(** ** [JSON.parse] *)

(** [JSON.parse] of a text that [JSON.stringify] wrote; [None] is a syntax error. *)
Definition JSON_parse (text : string) : option json :=
  match read_json (S (length (utf8 text))) (utf8 text) with Some (j, []) => Some j | _ => None end.

(** A document is no larger than its text, so the text's length is enough fuel. *)
Lemma join_length l : (list_sum (map length l) + length l <= S (length (join_comma l)))%nat.
Proof.
  induction l as [|x l IH]; [cbn; lia|]. destruct l as [|y l]; [cbn; lia|].
  change (join_comma (x :: y :: l)) with (x ++ c_comma :: join_comma (y :: l)). rewrite length_app. cbn [length] in *.
  change (list_sum (map length (x :: y :: l))) with (length x + list_sum (map length (y :: l)))%nat. lia.
Qed.
Lemma sum_cons a l : list_sum (a :: l) = (a + list_sum l)%nat.
Proof. reflexivity. Qed.
Lemma json_size_print j : (json_size j <= length (print_json j))%nat.
Proof.
  induction j as [ |[]|z|s|l IH|l IH] using json_nested_ind; cbn [json_size print_json]; try (cbn; lia).
  - assert (dec_of z <> []) as Hne; [|destruct (dec_of z); [done|cbn; lia]].
    unfold dec_of. case_match; [done|]. apply dec_of_nonneg_ne.
  - cbn [length]. rewrite length_app. cbn [length].
    assert (list_sum (map (fun x => S (json_size x)) l) <= list_sum (map length (map print_json l)) + length (map print_json l))%nat as Hs.
    { induction IH as [|x l Hx Hl IHl]; [cbn; lia|]. cbn [map length] in *. rewrite !sum_cons. lia. }
    pose proof (join_length (map print_json l)). lia.
  - cbn [length]. rewrite length_app. cbn [length].
    assert (list_sum (map (fun m => S (json_size m.2)) l) <= list_sum (map length (map (print_member print_json) l)) + length (map (print_member print_json) l))%nat as Hs.
    { induction IH as [|x l Hx Hl IHl]; [cbn; lia|]. cbn [map length] in *. rewrite !sum_cons. unfold print_member at 1. rewrite length_app. cbn [length]. lia. }
    pose proof (join_length (map (print_member print_json) l)). lia.
Qed.
Lemma parse_print j : JSON_parse (of_utf8 (print_json j)) = Some j.
Proof.
  unfold JSON_parse. rewrite utf8_of_utf8. rewrite <- (app_nil_r (print_json j)) at 2.
  rewrite read_print; [done|pose proof (json_size_print j); lia|exact I].
Qed.

(** The text [getDataHash] hashes, as a function of the serialized members. *)
Definition members_of (l : list (string * jv)) : list (string * json) :=
  List.flat_map (fun m => match serialize m.2 with Some j => [(m.1, j)] | None => [] end) l.
Definition hash_text (l : list (string * jv)) : bytes := print_json (PObj (members_of l)).

Lemma getDataHash_text `{HashFn} l : getDataHash l = hex_encode (sha256 (hash_text l)).
Proof. reflexivity. Qed.

Lemma hash_text_inj l l' : hash_text l = hash_text l' -> members_of l = members_of l'.
Proof. intros H. apply (inj print_json) in H. congruence. Qed.

(** Two objects with the same digest have the same serialized members, unless
    their two texts are a collision of the hash. *)
Lemma getDataHash_inj `{HashFn} (D : bytes -> Prop) l l' :
  collision_free D -> D (hash_text l) -> D (hash_text l') ->
  getDataHash l = getDataHash l' -> members_of l = members_of l'.
Proof.
  rewrite !getDataHash_text. intros Hcf HD HD' He. apply hash_text_inj.
  apply Hcf; [done..|]. by apply (inj hex_encode).
Qed.
