(* ===== verification/JsMap.v ===== *)
(** * JsMap: the insertion-ordered [Map] of the language

    [Map.prototype.set] keeps the position of a key that is already present and
    appends a new one; iteration follows that order.  The order is observable in
    the components that iterate a [Map], so a map is an association list with
    distinct keys.  The lemmas give the lookup equations and the invariance of
    [NoDup] on the keys. *)

From S2P Require Import Prelude.

Section JsMap.
Context {K V : Type} `{EqDecision K}.

Definition jsmap : Type := list (K * V).

Fixpoint jm_get (k : K) (m : jsmap) : option V :=
  match m with
  | [] => None
  | (k', v) :: m' => if decide (k = k') then Some v else jm_get k m'
  end.

Definition jm_has (k : K) (m : jsmap) : bool :=
  match jm_get k m with Some _ => true | None => false end.

Fixpoint jm_set (k : K) (v : V) (m : jsmap) : jsmap :=
  match m with
  | [] => [(k, v)]
  | (k', v') :: m' => if decide (k = k') then (k', v) :: m' else (k', v') :: jm_set k v m'
  end.

Fixpoint jm_delete (k : K) (m : jsmap) : jsmap :=
  match m with
  | [] => []
  | (k', v') :: m' => if decide (k = k') then m' else (k', v') :: jm_delete k m'
  end.

Definition jm_keys (m : jsmap) : list K := map fst m.
Definition jm_wf (m : jsmap) : Prop := NoDup (jm_keys m).

Lemma jm_keys_cons k v m : jm_keys ((k, v) :: m) = k :: jm_keys m.
Proof. reflexivity. Qed.

Lemma jm_get_set_eq k v m : jm_get k (jm_set k v m) = Some v.
Proof.
  induction m as [|[k' v'] m IH]; cbn; [by rewrite decide_True|].
  destruct (decide (k = k')); cbn; [by rewrite decide_True | by rewrite decide_False].
Qed.

Lemma jm_get_set_ne k k' v m : k <> k' -> jm_get k' (jm_set k v m) = jm_get k' m.
Proof.
  intros Hne. induction m as [|[q w] m IH]; cbn; [by rewrite decide_False|].
  destruct (decide (k = q)); subst; cbn.
  - by rewrite !(decide_False (P := k' = q)) by congruence.
  - by rewrite IH.
Qed.

Lemma jm_get_Some_In k v m : jm_get k m = Some v -> (k, v) ∈ m.
Proof.
  induction m as [|[q w] m IH]; cbn; [done|].
  destruct (decide (k = q)); [intros [= ->]; subst; left | right; auto].
Qed.

Lemma jm_get_None k m : jm_get k m = None <-> k ∉ jm_keys m.
Proof.
  induction m as [|[q w] m IH]; cbn; [split; [intros _; apply not_elem_of_nil|done]|].
  destruct (decide (k = q)) as [->|]; rewrite ?not_elem_of_cons; naive_solver.
Qed.

Lemma jm_get_In k v m : jm_wf m -> (k, v) ∈ m -> jm_get k m = Some v.
Proof.
  unfold jm_wf. induction m as [|[q w] m IH]; cbn; [by intros _ ?%not_elem_of_nil|].
  rewrite NoDup_cons, elem_of_cons. intros [Hq Hnd] [[= -> ->]|Hin]; [by rewrite decide_True|].
  rewrite decide_False; [auto|]. intros ->. apply Hq. apply list_elem_of_fmap.
  by exists (q, v).
Qed.

Lemma jm_keys_set k v m :
  jm_keys (jm_set k v m) = if decide (k ∈ jm_keys m) then jm_keys m else jm_keys m ++ [k].
Proof.
  induction m as [|[q w] m IH]; cbn [jm_set].
  - by rewrite decide_False by apply not_elem_of_nil.
  - destruct (decide (k = q)) as [->|Hne]; rewrite !jm_keys_cons.
    + by rewrite decide_True by (left; done).
    + rewrite IH. destruct (decide (k ∈ jm_keys m)) as [Hin|Hin].
      * by rewrite decide_True by (by right).
      * by rewrite decide_False by (rewrite not_elem_of_cons; done).
Qed.

Lemma jm_set_wf k v m : jm_wf m -> jm_wf (jm_set k v m).
Proof.
  unfold jm_wf. rewrite jm_keys_set. case_decide; [done|].
  intros. apply NoDup_app. split; [done|]. split; [|apply NoDup_singleton]. set_solver.
Qed.

Lemma jm_delete_sub k m p : p ∈ jm_delete k m -> p ∈ m.
Proof.
  induction m as [|[q w] m IH]; cbn; [done|]. case_decide; [by right|].
  rewrite !elem_of_cons. naive_solver.
Qed.

Lemma jm_delete_wf k m : jm_wf m -> jm_wf (jm_delete k m).
Proof.
  unfold jm_wf. induction m as [|[q w] m IH]; cbn; [done|]. rewrite NoDup_cons.
  intros [Hq Hnd]. case_decide; [done|]. cbn. rewrite NoDup_cons. split; [|auto].
  intros (p & Hp & Hin)%list_elem_of_fmap. apply Hq, list_elem_of_fmap.
  exists p. eauto using jm_delete_sub.
Qed.

Lemma jm_get_delete_eq k m : jm_wf m -> jm_get k (jm_delete k m) = None.
Proof.
  unfold jm_wf. induction m as [|[q w] m IH]; cbn; [done|]. rewrite NoDup_cons. intros [Hq Hnd].
  case_decide as Hk; [subst; by apply jm_get_None|]. cbn. rewrite decide_False by done. auto.
Qed.

Lemma jm_get_delete_ne k k' m : k <> k' -> jm_get k' (jm_delete k m) = jm_get k' m.
Proof.
  intros Hne. induction m as [|[q w] m IH]; cbn; [done|]. case_decide as Hk; subst.
  - by rewrite decide_False by congruence.
  - cbn. by rewrite IH.
Qed.

(** A loop [for(const x of l) m.set(f(x), g(x))]. *)
Lemma jm_set_fold_wf {A} (f : A -> K) (g : A -> V) l m :
  jm_wf m -> jm_wf (fold_left (fun m x => jm_set (f x) (g x) m) l m).
Proof. revert m; induction l as [|x l IH]; cbn; intros m Hm; [done|]. by apply IH, jm_set_wf. Qed.

Lemma jm_In_set_inv k v m p : p ∈ jm_set k v m -> p = (k, v) \/ p ∈ m.
Proof.
  induction m as [|[q w] m IH]; cbn; [by intros ->%list_elem_of_singleton; left|].
  case_decide as Hk; subst; rewrite !elem_of_cons; naive_solver.
Qed.
End JsMap.
Arguments jsmap : clear implicits.

#[export] Hint Resolve jm_set_wf jm_delete_wf : sync.
