(* ===== verification/Primitives.v ===== *)
(** * Primitives: the byte layer of the light-client roots

    Models [src/src/merkle/primitives.js]: the version constants, the
    domain-separated hashes, the table of empty-subtree constants, the canonical
    amount and field encodings and the key derivations.  A Buffer is its [bytes];
    a value that may be a Buffer or a hex string is a [bufhex].  The theorems:
    the canonical amount is a function of the amount's value and determines it
    ([canonicalAmount_units], [render_inj]), the field join is injective, and so
    distinct identities have distinct key preimages. *)

From S2P Require Import Prelude Sha256 JsText.

Definition MERKLE_VERSION : Z := 1.
Definition STATE_ROOT_VERSION : Z := 1.
Definition BLOCK_MERKLE_VERSION : Z := 1.
Definition SMT_DEPTH : nat := 256.

Definition LEAF_PREFIX : bytes := [Byte.x00].
Definition NODE_PREFIX : bytes := [Byte.x01].
Definition EMPTY_PREFIX : bytes := [Byte.x02].
Definition NUL : bytes := [Byte.x00].

(** A parameter the code passes through [toBuf] or [toHex]: a Buffer or the hex
    text of one. *)
Inductive bufhex := Buf (b : bytes) | Hex (s : string).

Definition toBuf (x : bufhex) : bytes := match x with Buf b => b | Hex s => hex_decode s end.
Definition toHex (x : bufhex) : string := match x with Buf b => hex_encode b | Hex s => s end.

(** The preimage of an internal node. *)
Definition node_preimage (l r : bytes) : bytes := NODE_PREFIX ++ l ++ r.

Section Hashing.
Context `{HashFn}.

Definition leafHash (b : bytes) : bytes := sha256 (LEAF_PREFIX ++ b).
Definition nodeHash (left right : bufhex) : bytes := sha256 (node_preimage (toBuf left) (toBuf right)).

(** [EMPTY[h]]: the root of an all-empty subtree of height [h]. *)
Fixpoint EMPTY (h : nat) : bytes :=
  match h with
  | O => sha256 (EMPTY_PREFIX ++ utf8 "XCHAIN_EMPTY_LEAF")
  | S h' => let e := EMPTY h' in nodeHash (Buf e) (Buf e)
  end.

Definition EMPTY_SMT_ROOT : bytes := EMPTY SMT_DEPTH.
End Hashing.

(** ** Canonical amounts *)

(** [/^\d+(\.\d{1,18})?$/] *)
Definition amount_re (s : bytes) : bool :=
  let '(i, r) := span_digits s in
  negb (bool_decide (i = [])) &&
  match r with
  | [] => true
  | c :: f => bool_decide (c = c_dot) && forallb is_digit f
              && (1 <=? Z.of_nat (length f)) && (Z.of_nat (length f) <=? 18)
  end.

(** [s.split('.')] of text the expression accepts. *)
Definition split_amount (s : bytes) : bytes * bytes :=
  let '(i, r) := span_digits s in (i, tail r).

Definition canonicalAmount (input : jsval) : result string :=
  match input with
  | JStr input =>
      let s := trim (utf8 input) in
      if negb (amount_re s)
      then Throw ("merkle: non-canonical amount " +:+ input)
      else
        let '(intPart, fracPart) := split_amount s in
        let intPart := strip_zeros intPart in
        let fracPart := take 18 (fracPart ++ replicate 18 c_zero) in
        Ok (of_utf8 (intPart ++ [c_dot] ++ fracPart))
  | v => Throw ("merkle: amount must be a string, got " +:+ js_typeof v)
  end.

(** ** Field join and keys *)

(** The loop of [joinFields]; [first] is [i === 0]. *)
Fixpoint joinFields_from (first : bool) (parts : list jsval) : result bytes :=
  match parts with
  | [] => Ok []
  | p :: parts' =>
      let b := utf8 (js_String p) in
      if bool_decide (Byte.x00 ∈ b)
      then Throw ("merkle: field contains 0x00, breaks injective join: " +:+ js_String p)
      else let! rest := joinFields_from false parts' in
           Ok ((if first then [] else NUL) ++ b ++ rest)
  end.
Definition joinFields (parts : list jsval) : result bytes := joinFields_from true parts.

Section Keys.
Context `{HashFn}.

Definition smtKey (domainTag : string) (fields : list jsval) : result bytes :=
  let! b := joinFields (JStr domainTag :: fields) in Ok (sha256 b).
Definition balanceKey (chain network address tick : jsval) : result bytes :=
  smtKey "XCHAIN_BAL" [chain; network; address; tick].
Definition escrowKey (chain network address tick : jsval) : result bytes :=
  smtKey "XCHAIN_ESC" [chain; network; address; tick].
Definition stakeKey (pubkey capability : jsval) : result bytes :=
  smtKey "XCHAIN_STK" [pubkey; capability].
Definition contractStateKey (chain network contractIndex stateKey : jsval) : result bytes :=
  smtKey "XCHAIN_CST" [chain; network; JStr (js_String contractIndex); stateKey].
Definition amountLeaf (amount : jsval) : result bytes :=
  let! c := canonicalAmount amount in Ok (leafHash (utf8 c)).
End Keys.

(** ** Hex text and node preimages *)

(** The hex form of a Buffer reads back as the Buffer. *)
Lemma toBuf_toHex x b : toBuf x = b -> toBuf (Hex (toHex (Buf b))) = b.
Proof. intros _. cbn. apply hex_decode_encode. Qed.

Lemma node_preimage_inj l r l' r' : length l = length l' ->
  node_preimage l r = node_preimage l' r' -> l = l' /\ r = r'.
Proof. unfold node_preimage. intros Hl [= Heq]. by apply app_inj_len. Qed.

Section HashFacts.
Context `{HashFn}.

Lemma EMPTY_length h : length (EMPTY h) = 32%nat.
Proof. destruct h; apply sha256_length. Qed.

Lemma nodeHash_length l r : length (nodeHash l r) = 32%nat.
Proof. apply sha256_length. Qed.

Lemma leafHash_length b : length (leafHash b) = 32%nat.
Proof. apply sha256_length. Qed.
End HashFacts.
#[export] Hint Resolve EMPTY_length nodeHash_length leafHash_length : sync.
#[export] Hint Rewrite @EMPTY_length @nodeHash_length @leafHash_length @sha256_length : sync.

(** ** Amounts by value

    [amount_units s] is the number of 10^-18 units the text [s] denotes, or
    [None] when the text is outside the grammar; [render v] is the one canonical
    text of [v] units. *)
Definition amount_units (s : string) : option Z :=
  let t := trim (utf8 s) in
  if amount_re t then
    let '(i, f) := split_amount t in
    Some (dec_val i * 10 ^ 18 + dec_val f * 10 ^ (18 - Z.of_nat (length f)))
  else None.

Definition frac18 (v : Z) : bytes := pad_start 18 (dec_of_nonneg v).
Definition render (v : Z) : string :=
  of_utf8 (dec_of_nonneg (v / 10 ^ 18) ++ [c_dot] ++ frac18 (v mod 10 ^ 18)).

Lemma amount_re_inv s : amount_re s = true ->
  exists i f, split_amount s = (i, f) /\ i <> []
    /\ Forall (fun b => is_digit b = true) i /\ Forall (fun b => is_digit b = true) f
    /\ (length f <= 18)%nat
    /\ (s = i \/ s = i ++ c_dot :: f).
Proof.
  unfold amount_re, split_amount. destruct (span_digits s) as [i r] eqn:E.
  destruct (span_digits_spec _ _ _ E) as (-> & Hi & _). intros Hre.
  exists i, (tail r). split; [done|]. js_simpl. split; [done|]. split; [done|].
  destruct r as [|c f]; cbn [tail].
  - repeat split; [constructor|cbn; lia|]. left. by rewrite app_nil_r.
  - js_simpl. subst. repeat split; [|lia|by right].
    rewrite List.forallb_forall in *. apply Forall_forall.
    intros x Hx. apply list_elem_of_In in Hx. auto.
Qed.

Lemma dec_val_pad f : (length f <= 18)%nat ->
  dec_val (take 18 (f ++ replicate 18 c_zero)) = dec_val f * 10 ^ (18 - Z.of_nat (length f))
  /\ length (take 18 (f ++ replicate 18 c_zero)) = 18%nat.
Proof.
  intros Hf.
  assert (take 18 (f ++ replicate 18 c_zero) = f ++ replicate (18 - length f) c_zero) as ->.
  { rewrite take_app, take_ge by lia. by rewrite take_replicate, Nat.min_l by lia. }
  rewrite dec_val_app, dec_val_zeros, length_replicate. split.
  - rewrite Z.add_0_r. f_equal. f_equal. lia.
  - rewrite length_app, length_replicate. lia.
Qed.

Lemma strip_zeros_split l :
  l = replicate (length l - length (strip_zeros l)) c_zero ++ strip_zeros l
  /\ (length (strip_zeros l) <= length l)%nat.
Proof.
  induction l as [|z l [IH IHl]]; [done|]. cbn [strip_zeros].
  destruct l as [|d l]; [by rewrite Nat.sub_diag|].
  destruct (bool_decide (z = c_zero)) eqn:E; cbn [andb]; [|by rewrite Nat.sub_diag].
  destruct (is_digit d); [|by rewrite Nat.sub_diag]. js_simpl; subst.
  split; [|cbn in *; lia].
  rewrite length_cons. rewrite Nat.sub_succ_l by done. cbn [replicate app]. by f_equal.
Qed.

Lemma pad_start_strip n l : l <> [] -> Forall (fun b => is_digit b = true) l -> length l = n ->
  pad_start n (dec_of_nonneg (dec_val l)) = l.
Proof.
  intros Hne Hl <-. rewrite dec_of_nonneg_val by done. unfold pad_start.
  symmetry. apply strip_zeros_split.
Qed.

Lemma frac18_spec v : 0 <= v < 10 ^ 18 ->
  Forall (fun b => is_digit b = true) (frac18 v) /\ length (frac18 v) = 18%nat /\ dec_val (frac18 v) = v.
Proof.
  intros Hv. destruct (dec_of_nonneg_spec v) as [Hd Hval]; [lia|].
  assert (length (dec_of_nonneg v) <= 18)%nat as Hlen.
  { pose proof (strip_dec_of_nonneg v ltac:(lia)) as Hs.
    destruct (dec_of_nonneg v) as [|d l] eqn:E; [cbn; lia|].
    destruct (decide (d = c_zero)) as [->|Hd0].
    - destruct l as [|e l]; [cbn; lia|]. inversion Hd as [|? ? _ Hd']; inversion Hd' as [|? ? He _]; subst.
      cbn [strip_zeros] in Hs. rewrite bool_decide_true, He in Hs by done. cbn [andb] in Hs.
      destruct (strip_zeros_split (e :: l)) as [_ Hle]. cbn [strip_zeros] in Hle.
      rewrite Hs in Hle. cbn in Hle. lia.
    - inversion Hd as [|? ? Hdd Hd']; subst. rewrite dec_val_cons in Hv.
      pose proof (digit_val_range _ Hdd). pose proof (dec_val_range _ Hd').
      assert (digit_val d <> 0) by (intros Hz; apply Hd0; rewrite <- (digit_of_val d), Hz by done; reflexivity).
      assert (10 ^ Z.of_nat (length l) < 10 ^ 18) as Hp by nia.
      apply Z.pow_lt_mono_r_iff in Hp; cbn; lia. }
  unfold frac18, pad_start. repeat split.
  - apply Forall_app; split; [|done]. by apply Forall_replicate.
  - rewrite length_app, length_replicate. lia.
  - by rewrite dec_val_app, dec_val_zeros, Hval.
Qed.

Lemma units_divmod a b : 0 <= b < 10 ^ 18 ->
  (a * 10 ^ 18 + b) / 10 ^ 18 = a /\ (a * 10 ^ 18 + b) mod 10 ^ 18 = b.
Proof.
  intros Hb. split; symmetry; [apply Z.div_unique with b | apply Z.mod_unique with a]; lia.
Qed.

(** The canonical text of an amount is the rendering of its value. *)
Lemma canonicalAmount_units s :
  canonicalAmount (JStr s) =
  match amount_units s with
  | Some v => Ok (render v)
  | None => Throw ("merkle: non-canonical amount " +:+ s)
  end.
Proof.
  unfold canonicalAmount, amount_units. destruct (amount_re (trim (utf8 s))) eqn:Hre; [|done].
  destruct (amount_re_inv _ Hre) as (i & f & Hsp & Hne & Hi & Hf & Hlen & _).
  cbn [negb]. rewrite Hsp. unfold render. do 2 f_equal.
  destruct (dec_val_pad f Hlen) as [Hpv Hpl].
  set (F := take 18 (f ++ replicate 18 c_zero)) in *.
  assert (Forall (fun b => is_digit b = true) F) as HF.
  { apply Forall_take, Forall_app. split; [done|]. by apply Forall_replicate. }
  pose proof (dec_val_range F HF) as HFr. rewrite Hpl in HFr. change (Z.of_nat 18) with 18 in HFr.
  rewrite <- Hpv. destruct (units_divmod (dec_val i) (dec_val F) HFr) as [-> ->].
  rewrite dec_of_nonneg_val by done. f_equal. f_equal. unfold frac18.
  rewrite pad_start_strip; [done| |done..]. intros HF0. by rewrite HF0 in Hpl.
Qed.

(** Amount text from its two digit strings. *)
Definition amount_text (i f : bytes) : bytes := match f with [] => i | _ => i ++ [c_dot] ++ f end.

Lemma trim_amount_text i f : i <> [] -> Forall (fun b => is_digit b = true) i ->
  Forall (fun b => is_digit b = true) f -> trim (amount_text i f) = amount_text i f.
Proof.
  intros Hne Hi Hf. destruct i as [|a i']; [done|]. inversion Hi; subst.
  destruct f as [|b f' _] using rev_ind.
  - destruct i' as [|b i'' _] using rev_ind; cbn [amount_text].
    + unfold trim, trim_start, trim_end. rewrite strip_all_digit by done. cbn [rev app].
      by rewrite strip_all_digit.
    + apply trim_digits; [done|]. apply Forall_cons in Hi as [_ Hi]. apply Forall_app in Hi as [_ Hb].
      by inversion Hb.
  - apply Forall_app in Hf as [_ Hb]. inversion Hb; subst.
    replace (amount_text (a :: i') (f' ++ [b])) with (a :: (i' ++ c_dot :: f') ++ [b]).
    + by apply trim_digits.
    + cbn [app]. rewrite <- app_assoc. cbn [app]. by destruct f'.
Qed.

Lemma amount_units_text i f : i <> [] -> Forall (fun b => is_digit b = true) i ->
  Forall (fun b => is_digit b = true) f -> (length f <= 18)%nat ->
  amount_units (of_utf8 (amount_text i f)) = Some (dec_val i * 10 ^ 18 + dec_val f * 10 ^ (18 - Z.of_nat (length f))).
Proof.
  intros Hne Hi Hf Hl. unfold amount_units. rewrite utf8_of_utf8, trim_amount_text by done.
  assert (span_digits (amount_text i f) = (i, match f with [] => [] | _ => c_dot :: f end)) as Hs.
  { destruct f as [|b f]; cbn [amount_text].
    - rewrite <- (app_nil_r i) at 1. by apply span_digits_app.
    - by apply span_digits_app. }
  unfold amount_re, split_amount. rewrite Hs, bool_decide_false by done.
  assert (forallb is_digit f = true) as Hfd.
  { apply List.forallb_forall. intros x Hx%list_elem_of_In. rewrite Forall_forall in Hf. by apply Hf. }
  destruct f as [|b f]; [done|]. rewrite bool_decide_true, Hfd by done. cbn [negb andb tail].
  rewrite (proj2 (Z.leb_le 1 _)) by (cbn; lia). by rewrite (proj2 (Z.leb_le _ 18)) by lia.
Qed.

(** The canonical text of a value denotes it: canonical forms are fixed points. *)
Lemma amount_units_render v : 0 <= v -> amount_units (render v) = Some v.
Proof.
  intros Hv. pose proof (Z.mod_pos_bound v (10 ^ 18) ltac:(lia)) as Hm.
  destruct (dec_of_nonneg_spec (v / 10 ^ 18)) as [Hid Hiv]; [apply Z.div_pos; lia|].
  destruct (frac18_spec (v mod 10 ^ 18) Hm) as (Hfd & Hfl & Hfv).
  assert (render v = of_utf8 (amount_text (dec_of_nonneg (v / 10 ^ 18)) (frac18 (v mod 10 ^ 18)))) as ->.
  { unfold render, amount_text. by destruct (frac18 (v mod 10 ^ 18)). }
  rewrite amount_units_text by (done || apply dec_of_nonneg_ne || lia). f_equal. rewrite Hiv, Hfv, Hfl.
  change (10 ^ (18 - Z.of_nat 18)) with 1. rewrite (Z.div_mod v (10 ^ 18)) at 3 by lia. lia.
Qed.

Lemma render_inj a b : 0 <= a -> 0 <= b -> render a = render b -> a = b.
Proof.
  intros Ha Hb He. apply (f_equal amount_units) in He.
  rewrite !amount_units_render in He by done. congruence.
Qed.

Lemma amount_units_nonneg s v : amount_units s = Some v -> 0 <= v.
Proof.
  unfold amount_units. destruct (amount_re (trim (utf8 s))) eqn:Hre; [|done].
  destruct (amount_re_inv _ Hre) as (i & f & -> & Hne & Hi & Hf & Hlen & _). intros [= <-].
  pose proof (dec_val_range i Hi). pose proof (dec_val_range f Hf).
  assert (0 < 10 ^ (18 - Z.of_nat (length f))) by (apply Z.pow_pos_nonneg; lia). nia.
Qed.

(** ** The field join is injective *)

Definition nul_start (l : bytes) : Prop := match l with [] => True | b :: _ => b = Byte.x00 end.

Lemma nul_free_split x y r r' :
  Byte.x00 ∉ x -> Byte.x00 ∉ y -> nul_start r -> nul_start r' ->
  x ++ r = y ++ r' -> x = y /\ r = r'.
Proof.
  revert y; induction x as [|a x IH]; intros [|b y] Hx Hy Hr Hr'; cbn; intros He.
  - done.
  - destruct r as [|c r]; [done|]. cbn in Hr. injection He as -> ->. subst. set_solver.
  - destruct r' as [|c r']; [done|]. cbn in Hr'. injection He as -> <-. subst. set_solver.
  - injection He as -> He. destruct (IH y) as [-> ->]; set_solver.
Qed.

Lemma joinFields_from_inv first p ps b : joinFields_from first (p :: ps) = Ok b ->
  exists rest, joinFields_from false ps = Ok rest /\ Byte.x00 ∉ utf8 (js_String p)
    /\ b = (if first then [] else NUL) ++ utf8 (js_String p) ++ rest.
Proof.
  cbn. destruct (bool_decide _) eqn:E; [done|]. js_simpl.
  rewrite rbind_Ok. intros (rest & Hr & [= <-]). eauto.
Qed.

Lemma joinFields_from_nul ps b : joinFields_from false ps = Ok b -> nul_start b.
Proof.
  destruct ps as [|p ps]; [intros [= <-]; done|].
  intros (rest & _ & _ & ->)%joinFields_from_inv. done.
Qed.

Lemma joinFields_from_false_inj ps qs b :
  joinFields_from false ps = Ok b -> joinFields_from false qs = Ok b ->
  map js_String ps = map js_String qs.
Proof.
  revert qs b; induction ps as [|p ps IH]; intros [|q qs] b Hp Hq.
  - done.
  - injection Hp as <-. by apply joinFields_from_inv in Hq as (? & _ & _ & ?).
  - injection Hq as <-. by apply joinFields_from_inv in Hp as (? & _ & _ & ?).
  - apply joinFields_from_inv in Hp as (r & Hr & Hnp & ->).
    apply joinFields_from_inv in Hq as (r' & Hr' & Hnq & He). injection He as He.
    apply nul_free_split in He as [He ->]; eauto using joinFields_from_nul.
    cbn. f_equal; [by apply (inj utf8)|]. eauto.
Qed.

Lemma joinFields_inj ps qs b : ps <> [] -> qs <> [] ->
  joinFields ps = Ok b -> joinFields qs = Ok b -> map js_String ps = map js_String qs.
Proof.
  destruct ps as [|p ps], qs as [|q qs]; try done. intros _ _ Hp Hq.
  apply joinFields_from_inv in Hp as (r & Hr & Hnp & ->).
  apply joinFields_from_inv in Hq as (r' & Hr' & Hnq & He). cbn [app] in He.
  apply nul_free_split in He as [He ->]; eauto using joinFields_from_nul.
  cbn. f_equal; [by apply (inj utf8)|]. eauto using joinFields_from_false_inj.
Qed.

(** The join throws exactly when a field carries the separator byte. *)
Lemma joinFields_from_ok first ps :
  (exists b, joinFields_from first ps = Ok b) <->
  Forall (fun p => Byte.x00 ∉ utf8 (js_String p)) ps.
Proof.
  revert first; induction ps as [|p ps IH]; intros first; cbn.
  - split; eauto.
  - rewrite Forall_cons, <- (IH false). case_bool_decide as E.
    + split; [intros [b Hb]; done | naive_solver].
    + split; [intros [b Hb]; apply rbind_Ok in Hb as (r & Hr & _); eauto|].
      intros [_ [r Hr]]. rewrite Hr. cbn. eauto.
Qed.

(** ** Properties *)

(** The canonical amount is a function of the amount's value: two accepted
    texts have the same canonical form exactly when they denote the same number
    of 10^-18 units, and the canonical form is itself accepted and unchanged. *)
Theorem canonicalAmount_by_value s t c d :
  canonicalAmount (JStr s) = Ok c -> canonicalAmount (JStr t) = Ok d ->
  (c = d <-> amount_units s = amount_units t) /\ canonicalAmount (JStr c) = Ok c.
Proof.
  rewrite !canonicalAmount_units.
  destruct (amount_units s) as [u|] eqn:Hu; [|intros; discriminate].
  destruct (amount_units t) as [v|] eqn:Hv; [|intros; discriminate].
  apply amount_units_nonneg in Hu, Hv. intros [= <-] [= <-]. split.
  - split; [intros He; f_equal; by apply render_inj | by intros [= ->]].
  - by rewrite amount_units_render.
Qed.

Lemma canonicalAmount_by_value_witness :
  canonicalAmount (JStr " 00042.50 ") = Ok "42.500000000000000000" /\
  ("42.500000000000000000" = "42.500000000000000000" :> string <->
   amount_units " 00042.50 " = amount_units "42.5") /\
  canonicalAmount (JStr "42.500000000000000000") = Ok "42.500000000000000000".
Proof.
  split; [vm_compute; reflexivity|].
  apply (canonicalAmount_by_value " 00042.50 " "42.5"); vm_compute; reflexivity.
Defined.

(** Keys bind their identity: when two derivations succeed and their two
    preimages do not collide, equal keys mean the same domain tag and the same
    field texts, so a balance key is never an escrow, stake or contract-state
    key and never the key of another holder. *)
Theorem smtKey_binding `{HashFn} t f t' f' b b' :
  joinFields (JStr t :: f) = Ok b -> joinFields (JStr t' :: f') = Ok b' ->
  collision_free (fun x => x = b \/ x = b') ->
  smtKey t f = smtKey t' f' -> t = t' /\ map js_String f = map js_String f'.
Proof.
  intros Hb Hb' Hcf. unfold smtKey. rewrite Hb, Hb'. cbn. intros [= He].
  apply Hcf in He; [|auto..]. subst b'.
  assert (map js_String (JStr t :: f) = map js_String (JStr t' :: f')) as Hm
    by (by eapply joinFields_inj).
  by injection Hm.
Qed.

Definition ex_cst_fields (contractIndex : jsval) : list jsval :=
  [JStr "BTC"; JStr "regtest"; contractIndex; JStr "owner"].

(** A contract index read as a number and the same index read as text. *)
Lemma smtKey_binding_witness :
  "XCHAIN_CST" = "XCHAIN_CST" :> string
  /\ map js_String (ex_cst_fields (JInt 7)) = map js_String (ex_cst_fields (JStr "7")).
Proof.
  eapply (smtKey_binding (H := node_crypto) "XCHAIN_CST" (ex_cst_fields (JInt 7))
            "XCHAIN_CST" (ex_cst_fields (JStr "7"))).
  - vm_compute; reflexivity.
  - vm_compute; reflexivity.
  - intros x y [->| ->] [->| ->] _; reflexivity.
  - vm_compute; reflexivity.
Defined.
