(* ===== verification/SparseMerkle.v ===== *)
(** * SparseMerkle: the reference sparse Merkle tree and its proofs

    Models the depth-256 tree of [src/src/merkle.js]: [bitAt], [smtNode], the
    class [SparseMerkleTree] (its [Map] of hex keys to hex leaves is an ordered
    [jsmap]), [verifySmtProof], and the compressed wire form of a proof.  The
    loops over depths are recursions on the remaining height; depth is
    [SMT_DEPTH - height].

    The theorems: a proof produced by [prove] verifies against [root], for
    present and for absent keys; an accepted proof for a 32-byte leaf binds the
    committed leaf as long as the preimages hashed on the two paths do not
    collide; the root does not depend on insertion order; compression round
    trips and decompression rejects a wrong sibling count. *)

From S2P Require Import Prelude Sha256 JsText JsMap Primitives.

(** [(keyBuf[i >> 3] >> (7 - (i & 7))) & 1]; a byte past the end reads as
    [undefined], which the shift turns into 0. *)
Definition bitAt (keyBuf : bytes) (i : nat) : Z :=
  Z.land (Z.shiftr (b2z (nth (i / 8) keyBuf Byte.x00)) (7 - Z.of_nat (i mod 8))) 1.

Record entry := Entry { key : bytes; leaf : bytes }.

(** The two halves of a level ([left] and [right] of the loops). *)
Definition side (b : bool) (depth : nat) (es : list entry) : list entry :=
  List.filter (fun e => Bool.eqb (negb (bitAt (key e) depth =? 0)) b) es.

Section SMT.
Context `{HashFn}.

(** [smtNode(entries, depth)] with [h = SMT_DEPTH - depth]. *)
Fixpoint smtNode (h : nat) (entries : list entry) : bytes :=
  match entries with
  | [] => EMPTY h
  | e :: _ =>
      match h with
      | O => leaf e
      | S h' =>
          let depth := (SMT_DEPTH - h)%nat in
          nodeHash (Buf (smtNode h' (side false depth entries)))
                   (Buf (smtNode h' (side true depth entries)))
      end
  end.

(** ** class SparseMerkleTree *)
Definition leaves := jsmap string string.

Definition smt_new : leaves := [].
Definition smt_set (keyBuf : bufhex) (leafBufOrNull : option bufhex) (t : leaves) : leaves :=
  let k := toHex keyBuf in
  match leafBufOrNull with
  | None => jm_delete k t
  | Some l => jm_set k (toHex l) t
  end.
Definition smt_delete (keyBuf : bufhex) (t : leaves) : leaves := jm_delete (toHex keyBuf) t.
Definition smt_has (keyBuf : bufhex) (t : leaves) : bool := jm_has (toHex keyBuf) t.
Definition smt_size (t : leaves) : nat := length t.
Definition smt_entries (t : leaves) : list entry :=
  map (fun '(k, v) => Entry (hex_decode k) (hex_decode v)) t.
Definition smt_root (t : leaves) : bytes := smtNode SMT_DEPTH (smt_entries t).
Definition smt_rootHex (t : leaves) : string := toHex (Buf (smt_root t)).

(** The loop of [prove]: the sibling at each depth, top down. *)
Fixpoint prove_loop (k : bytes) (h : nat) (level : list entry) : list string :=
  match h with
  | O => []
  | S h' =>
      let depth := (SMT_DEPTH - h)%nat in
      let left := side false depth level in
      let right := side true depth level in
      let goRight := bitAt k depth =? 1 in
      let sibEntries := if goRight then left else right in
      toHex (Buf (smtNode h' sibEntries)) :: prove_loop k h' (if goRight then right else left)
  end.

(** ** Compressed proofs *)
Record compressed_proof := Compressed { bitmap : string; csiblings : list string }.

(** [bitmap[d >> 3] |= 1 << (7 - (d & 7))] *)
Definition set_bit (bm : bytes) (d : nat) : bytes :=
  <[(d / 8)%nat := z2b (Z.lor (b2z (nth (d / 8) bm Byte.x00)) (Z.shiftl 1 (7 - Z.of_nat (d mod 8))))]> bm.

(** The loop of [compressSmtProof] from depth [d] on: the bitmap and the real
    siblings collected so far. *)
Fixpoint compress_loop (d : nat) (siblings : list bufhex) (bm : bytes) (real : list string)
  : bytes * list string :=
  match siblings with
  | [] => (bm, real)
  | s :: rest =>
      let sib := toBuf s in
      if bool_decide (sib = EMPTY (SMT_DEPTH - 1 - d))
      then compress_loop (S d) rest bm real
      else compress_loop (S d) rest (set_bit bm d) (real ++ [toHex (Buf sib)])
  end.

(** A missing sibling is [undefined], on which [Buffer.from] throws. *)
Definition compressSmtProof (siblings : list bufhex) : result compressed_proof :=
  if Nat.ltb (length siblings) SMT_DEPTH then Throw "The first argument must be of type string"
  else
    let '(bm, real) := compress_loop 0 (take SMT_DEPTH siblings) (replicate 32 Byte.x00) [] in
    Ok (Compressed (hex_encode bm) real).

(** The loop of [decompressSmtProof] for the depths [d .. d + n - 1]; an index
    past the end of [real] reads as [undefined], shown here as the empty string,
    and leaves [ri] above the length, which the caller rejects. *)
Fixpoint decompress_loop (n d : nat) (bm : bytes) (real : list string) (ri : nat)
  : list string * nat :=
  match n with
  | O => ([], ri)
  | S n' =>
      if bitAt bm d =? 0 then
        let '(out, ri') := decompress_loop n' (S d) bm real ri in
        (toHex (Buf (EMPTY (SMT_DEPTH - 1 - d))) :: out, ri')
      else
        let '(out, ri') := decompress_loop n' (S d) bm real (S ri) in
        (nth ri real "" :: out, ri')
  end.

Definition decompressSmtProof (c : compressed_proof) : result (list string) :=
  let bm := toBuf (Hex (bitmap c)) in
  let '(out, ri) := decompress_loop SMT_DEPTH 0 bm (csiblings c) 0 in
  if Nat.eqb ri (length (csiblings c)) then Ok out
  else Throw "merkle: surplus siblings in compressed proof".

Record smt_proof := SmtProof {
  pkey : string; leaf_value : option string; psiblings : list string; pcompressed : compressed_proof }.

Definition smt_prove (keyBuf : bufhex) (t : leaves) : result smt_proof :=
  let k := toBuf keyBuf in
  let siblings := prove_loop k SMT_DEPTH (smt_entries t) in
  let khex := toHex (Buf k) in
  let! c := compressSmtProof (map Hex siblings) in
  Ok (SmtProof khex (jm_get khex t) siblings c).

(** The climb of [verifySmtProof]: the loop runs from the deepest level up, so
    the recursion combines the levels below before the sibling at depth [d]. *)
Fixpoint climb (k : bytes) (d : nat) (siblings : list bufhex) (node : bytes) : bytes :=
  match siblings with
  | [] => node
  | sib :: rest =>
      let node := climb k (S d) rest node in
      if bitAt k d =? 0 then nodeHash (Buf node) (Buf (toBuf sib))
      else nodeHash (Buf (toBuf sib)) (Buf node)
  end.

(** [siblings] is [None] when the argument is not an array. *)
Definition verifySmtProof (rootHex keyBuf : bufhex) (leafValueOrNull : option bufhex)
    (siblings : option (list bufhex)) : bool :=
  match siblings with
  | None => false
  | Some siblings =>
      if negb (Nat.eqb (length siblings) SMT_DEPTH) then false
      else
        let node := match leafValueOrNull with None => EMPTY 0 | Some l => toBuf l end in
        bool_decide (toHex (Buf (climb (toBuf keyBuf) 0 siblings node)) = toHex rootHex)
  end.

Definition verifyCompressedSmtProof (rootHex keyBuf : bufhex) (leafValueOrNull : option bufhex)
    (c : compressed_proof) : result bool :=
  let! siblings := decompressSmtProof c in
  Ok (verifySmtProof rootHex keyBuf leafValueOrNull (Some (map Hex siblings))).
End SMT.

(** ** Bits *)

Lemma bitAt_testbit k i :
  bitAt k i = Z.b2z (Z.testbit (b2z (nth (i / 8) k Byte.x00)) (7 - Z.of_nat (i mod 8))).
Proof.
  unfold bitAt. change 1 with (Z.ones 1) at 1. rewrite Z.land_ones by lia.
  rewrite Z.testbit_spec'; [|pose proof (Nat.mod_upper_bound i 8); lia].
  rewrite Z.shiftr_div_pow2 by (pose proof (Nat.mod_upper_bound i 8); lia). done.
Qed.

Lemma bitAt_01 k i : bitAt k i = 0 \/ bitAt k i = 1.
Proof. rewrite bitAt_testbit. destruct (Z.testbit _ _); cbn; auto. Qed.

Definition bit (k : bytes) (i : nat) : bool := negb (bitAt k i =? 0).

Lemma bitAt_eqb1 k i : (bitAt k i =? 1) = bit k i.
Proof. unfold bit. by destruct (bitAt_01 k i) as [-> | ->]. Qed.

Lemma bit_testbit k i :
  bit k i = Z.testbit (b2z (nth (i / 8) k Byte.x00)) (7 - Z.of_nat (i mod 8)).
Proof. unfold bit. rewrite bitAt_testbit. by destruct (Z.testbit _ _). Qed.

(** A byte string of 32 bytes is determined by its 256 path bits. *)
Lemma bits_ext k k' n : length k = n -> length k' = n ->
  (forall i, (i < 8 * n)%nat -> bit k i = bit k' i) -> k = k'.
Proof.
  intros Hk Hk' Hb. apply (nth_ext _ _ Byte.x00 Byte.x00); [congruence|].
  intros j Hj. apply (inj b2z). apply Z.bits_inj'. intros m Hm.
  pose proof (b2z_range (nth j k Byte.x00)) as R1. pose proof (b2z_range (nth j k' Byte.x00)) as R2.
  destruct (Z_lt_ge_dec m 8) as [Hm8|Hm8].
  - specialize (Hb (8 * j + Z.to_nat (7 - m))%nat ltac:(lia)). rewrite !bit_testbit in Hb.
    replace ((8 * j + Z.to_nat (7 - m)) / 8)%nat with j in Hb
      by (apply Nat.div_unique with (Z.to_nat (7 - m)); lia).
    replace ((8 * j + Z.to_nat (7 - m)) mod 8)%nat with (Z.to_nat (7 - m)) in Hb
      by (apply Nat.mod_unique with j; lia).
    by replace (7 - Z.of_nat (Z.to_nat (7 - m))) with m in Hb by lia.
  - rewrite !Z.bits_above_log2; [done| lia | | lia |];
    match goal with |- Z.log2 ?x < m =>
      destruct (Z.eq_dec x 0) as [->|]; [cbn; lia|];
      assert (Z.log2 x < 8) by (apply Z.log2_lt_pow2; lia); lia end.
Qed.

Lemma side_eq b d es : side b d es = List.filter (fun e => Bool.eqb (bit (key e) d) b) es.
Proof. reflexivity. Qed.

(** ** The tree along one path *)
Section Path.
Context `{HashFn}.

Lemma smtNode_nil h : smtNode h [] = EMPTY h.
Proof. by destruct h. Qed.

(** An empty subtree hashes like a node of two empty subtrees, so the recursion
    equation needs no case for it. *)
Lemma smtNode_S h es :
  smtNode (S h) es =
  nodeHash (Buf (smtNode h (side false (SMT_DEPTH - S h) es)))
           (Buf (smtNode h (side true (SMT_DEPTH - S h) es))).
Proof. destruct es as [|e es]; [|done]. cbn [side List.filter]. by rewrite !smtNode_nil. Qed.

Definition join (b : bool) (node sib : bytes) : bytes :=
  if b then nodeHash (Buf sib) (Buf node) else nodeHash (Buf node) (Buf sib).

Lemma smtNode_join h es b :
  smtNode (S h) es =
  join b (smtNode h (side b (SMT_DEPTH - S h) es)) (smtNode h (side (negb b) (SMT_DEPTH - S h) es)).
Proof. rewrite smtNode_S. by destruct b. Qed.

Lemma climb_cons k d s rest node :
  climb k d (s :: rest) node = join (bit k d) (climb k (S d) rest node) (toBuf s).
Proof. cbn. unfold bit, join. by destruct (bitAt_01 k d) as [-> | ->]. Qed.

(** The entries that agree with [k] on the depths from [SMT_DEPTH - h] down. *)
Fixpoint on_path (k : bytes) (h : nat) (es : list entry) : list entry :=
  match h with
  | O => es
  | S h' => on_path k h' (side (bit k (SMT_DEPTH - S h')) (SMT_DEPTH - S h') es)
  end.

Fixpoint path_sibs (k : bytes) (h : nat) (es : list entry) : list bytes :=
  match h with
  | O => []
  | S h' =>
      let d := (SMT_DEPTH - S h')%nat in
      smtNode h' (side (negb (bit k d)) d es) :: path_sibs k h' (side (bit k d) d es)
  end.

Lemma prove_loop_sibs k h es :
  prove_loop k h es = map (fun s => toHex (Buf s)) (path_sibs k h es).
Proof.
  revert es; induction h as [|h IH]; intros es; [done|]. cbn [prove_loop path_sibs map].
  rewrite bitAt_eqb1. f_equal; [|rewrite IH]; by destruct (bit k (SMT_DEPTH - S h)).
Qed.

Lemma path_sibs_length k h es : length (path_sibs k h es) = h.
Proof. revert es; induction h as [|h IH]; intros es; cbn; auto. Qed.

(** The root is the climb of the path's siblings from the node at its end. *)
Lemma smtNode_climb k h es : (h <= SMT_DEPTH)%nat ->
  smtNode h es = climb k (SMT_DEPTH - h) (map Buf (path_sibs k h es)) (smtNode 0 (on_path k h es)).
Proof.
  revert es; induction h as [|h IH]; intros es Hh; [done|].
  cbn [path_sibs map on_path]. rewrite climb_cons, (smtNode_join _ _ (bit k (SMT_DEPTH - S h))).
  rewrite (IH (side _ _ _)) by lia. cbn [toBuf].
  by replace (S (SMT_DEPTH - S h)) with (SMT_DEPTH - h)%nat by lia.
Qed.
End Path.

(** ** Well-formed leaf sets *)

(** Distinct 32-byte keys with 32-byte leaves. *)
Definition entries_ok (es : list entry) : Prop :=
  NoDup (map key es) /\ Forall (fun e => length (key e) = 32%nat /\ length (leaf e) = 32%nat) es.

Definition entry_get (k : bytes) (es : list entry) : option bytes :=
  leaf <$> List.find (fun e => bool_decide (key e = k)) es.

(** Every key and leaf of the map is the hex text of 32 bytes. *)
Definition leaves_ok (t : leaves) : Prop :=
  jm_wf t /\ Forall (fun p => exists k l, p = (hex_encode k, hex_encode l)
                             /\ length k = 32%nat /\ length l = 32%nat) t.

(** The committed leaf of a key. *)
Definition smt_get (k : bytes) (t : leaves) : option bytes := hex_decode <$> jm_get (hex_encode k) t.

Lemma leaves_ok_new : leaves_ok smt_new.
Proof. split; [apply NoDup_nil_2|constructor]. Qed.

Lemma leaves_ok_set k l t : length k = 32%nat ->
  match l with Some l => length l = 32%nat | None => True end ->
  leaves_ok t -> leaves_ok (smt_set (Buf k) (Buf <$> l) t).
Proof.
  intros Hk Hl [Hwf Ht]. rewrite Forall_forall in Ht. destruct l as [l|]; cbn.
  - split; [auto with sync|]. apply Forall_forall. intros p [->|Hp]%jm_In_set_inv; eauto.
  - split; [auto with sync|]. apply Forall_forall. eauto using jm_delete_sub.
Qed.

Lemma smt_get_set k l t k' : leaves_ok t ->
  smt_get k' (smt_set (Buf k) (Buf <$> l) t) = if decide (k' = k) then l else smt_get k' t.
Proof.
  intros [Hwf _]. unfold smt_get, smt_set. destruct l as [l|]; cbn [fmap option_fmap option_map toHex].
  - destruct (decide (k' = k)) as [->|Hne].
    + rewrite jm_get_set_eq. cbn. by rewrite hex_decode_encode.
    + rewrite jm_get_set_ne; [done|]. by intros ?%(inj hex_encode).
  - destruct (decide (k' = k)) as [->|Hne].
    + by rewrite jm_get_delete_eq.
    + rewrite jm_get_delete_ne; [done|]. by intros ?%(inj hex_encode).
Qed.

Lemma smt_entries_ok t : leaves_ok t -> entries_ok (smt_entries t).
Proof.
  intros [Hwf Ht]. unfold jm_wf, jm_keys in Hwf. unfold smt_entries.
  induction Ht as [|p t (k & l & -> & Hk & Hl) Ht IH]; [split; constructor|].
  cbn [map fst] in *. rewrite NoDup_cons in Hwf. destruct Hwf as [Hnin Hnd].
  destruct (IH Hnd) as [IH1 IH2]. rewrite !hex_decode_encode. split; cbn.
  - apply NoDup_cons. split; [|done]. intros (e & Hke & (q & -> & Hq)%list_elem_of_fmap)%list_elem_of_fmap.
    apply Hnin, list_elem_of_fmap. exists q. split; [|done].
    rewrite Forall_forall in Ht. destruct (Ht q Hq) as (k' & l' & -> & _).
    cbn in *. by rewrite hex_decode_encode in Hke; subst.
  - by constructor.
Qed.

Lemma entry_get_entries k t : leaves_ok t -> entry_get k (smt_entries t) = smt_get k t.
Proof.
  intros [_ Ht]. unfold entry_get, smt_get, smt_entries.
  induction Ht as [|p t (k' & l & -> & Hk & Hl) Ht IH]; [done|]. cbn.
  rewrite !hex_decode_encode. case_bool_decide as E.
  - subst. by rewrite decide_True by done; cbn; rewrite hex_decode_encode.
  - rewrite decide_False; [done|]. by intros ?%(inj hex_encode).
Qed.

Lemma entry_get_Some k l es : entries_ok es -> entry_get k es = Some l <-> Entry k l ∈ es.
Proof.
  intros [Hnd _]. unfold entry_get. induction es as [|[k' l'] es IH]; cbn in *.
  - split; [done|]. by intros ?%not_elem_of_nil.
  - rewrite NoDup_cons in Hnd. destruct Hnd as [Hnin Hnd]. rewrite elem_of_cons.
    case_bool_decide as E; cbn.
    + subst. split; [intros [= ->]; auto|]. intros [[= ->]|Hin]; [done|].
      exfalso. apply Hnin, list_elem_of_fmap. by exists (Entry k l).
    + rewrite IH by done. naive_solver.
Qed.

Lemma entries_ok_side b d es : entries_ok es -> entries_ok (side b d es).
Proof.
  intros [Hnd Hf]. unfold side. split; [by apply NoDup_map_lfilter | by apply Forall_lfilter].
Qed.

Lemma elem_of_side e b d es : e ∈ side b d es <-> e ∈ es /\ bit (key e) d = b.
Proof. by rewrite side_eq, elem_of_lfilter, eqb_true_iff. Qed.

Lemma on_path_ok k h es : entries_ok es -> entries_ok (on_path k h es).
Proof. revert es; induction h as [|h IH]; intros es Hes; cbn; auto using entries_ok_side. Qed.

Lemma elem_of_on_path e k h es : (h <= SMT_DEPTH)%nat ->
  e ∈ on_path k h es <->
  e ∈ es /\ forall d, (SMT_DEPTH - h <= d < SMT_DEPTH)%nat -> bit (key e) d = bit k d.
Proof.
  revert es; induction h as [|h IH]; intros es Hh; cbn [on_path].
  - split; [split; [done|lia] | tauto].
  - rewrite IH, elem_of_side by lia. split.
    + intros [[Hin Hb] Hd]. split; [done|]. intros d Hdr.
      destruct (decide (d = SMT_DEPTH - S h)%nat) as [->|]; [done|]. apply Hd. lia.
    + intros [Hin Hd]. split; [split; [done|]; apply Hd; lia|]. intros d Hdr. apply Hd. lia.
Qed.

Lemma on_path_full e k es : entries_ok es -> length k = 32%nat ->
  e ∈ on_path k SMT_DEPTH es <-> e ∈ es /\ key e = k.
Proof.
  intros [_ Hf] Hk. rewrite elem_of_on_path by done. split; intros [Hin Hd]; (split; [done|]).
  - rewrite Forall_forall in Hf. destruct (Hf e Hin) as [Hl _].
    apply (bits_ext _ _ 32); [done..|]. intros i Hi. apply Hd. unfold SMT_DEPTH. lia.
  - by subst.
Qed.

Lemma NoDup_same_key k es : NoDup (map key es) -> (forall e, e ∈ es -> key e = k) ->
  es = [] \/ exists e, es = [e].
Proof.
  destruct es as [|e [|e' es]]; [by left|intros _ _; right; by exists e|]. cbn. rewrite !NoDup_cons. intros [Hnin _] Hk.
  exfalso. apply Hnin. rewrite (Hk e) by (by left). rewrite (Hk e') by (right; by left). by left.
Qed.

Section Committed.
Context `{HashFn}.

(** The node at the end of a 32-byte key's path is its leaf, or the empty leaf. *)
Lemma on_path_leaf k es : entries_ok es -> length k = 32%nat ->
  smtNode 0 (on_path k SMT_DEPTH es) = default (EMPTY 0) (entry_get k es).
Proof.
  intros Hes Hk. pose proof (on_path_ok k SMT_DEPTH _ Hes) as [Hnd _].
  destruct (NoDup_same_key k _ Hnd) as [Hnil|[e He]].
  { intros e He. by apply on_path_full in He as [_ ?]. }
  - rewrite Hnil. destruct (entry_get k es) as [l|] eqn:E; [|done].
    apply entry_get_Some in E; [|done].
    assert (Entry k l ∈ on_path k SMT_DEPTH es) as Hin by (by apply on_path_full).
    rewrite Hnil in Hin. by apply not_elem_of_nil in Hin.
  - rewrite He. assert (e ∈ on_path k SMT_DEPTH es) as Hin by (rewrite He; by left).
    apply on_path_full in Hin as [Hin <-]; [|done..].
    assert (entry_get (key e) es = Some (leaf e)) as -> by (apply entry_get_Some; [done|]; by destruct e).
    done.
Qed.

(** The root as the climb of one key's siblings. *)
Lemma smtNode_root_climb k es : entries_ok es -> length k = 32%nat ->
  smtNode SMT_DEPTH es =
  climb k 0 (map Buf (path_sibs k SMT_DEPTH es)) (default (EMPTY 0) (entry_get k es)).
Proof.
  intros Hes Hk. rewrite (smtNode_climb k SMT_DEPTH es) by done.
  by rewrite on_path_leaf.
Qed.

(** ** Order independence *)

(** All keys agree on the first [d] bits. *)
Definition agree (d : nat) (es : list entry) : Prop :=
  forall e e' i, e ∈ es -> e' ∈ es -> (i < d)%nat -> bit (key e) i = bit (key e') i.

Lemma agree_side b d es : agree d es -> agree (S d) (side b d es).
Proof.
  intros Ha e e' i He He' Hi. apply elem_of_side in He as [He Hb], He' as [He' Hb'].
  destruct (decide (i = d)) as [->|]; [congruence|]. apply Ha; [done..|lia].
Qed.

Lemma side_perm b d es es' : es ≡ₚ es' -> side b d es ≡ₚ side b d es'.
Proof.
  induction 1 as [|x l l' Hp IH|x y l|l l' l'' H1 IH1 H2 IH2]; cbn; [done| | |by etrans].
  - case_match; [by constructor|done].
  - repeat case_match; try done. apply perm_swap.
Qed.

Lemma smtNode_perm h es es' : (h <= SMT_DEPTH)%nat -> agree (SMT_DEPTH - h) es -> entries_ok es ->
  es ≡ₚ es' -> smtNode h es = smtNode h es'.
Proof.
  revert es es'; induction h as [|h IH]; intros es es' Hh Ha Hok Hp.
  - assert (es = [] \/ exists e, es = [e]) as [-> | [e ->]].
    { destruct es as [|e es]; [by left|]. destruct Hok as [Hnd Hf].
      apply (NoDup_same_key (key e)); [done|]. intros e' He'. rewrite Forall_forall in Hf.
      apply (bits_ext _ _ 32); [apply Hf; done | apply Hf; by left|].
      intros i Hi. apply Ha; [done|by left|]. rewrite Nat.sub_0_r. exact Hi. }
    + by apply Permutation_nil_l in Hp as ->.
    + by apply Permutation_singleton_l in Hp as ->.
  - rewrite !smtNode_S. f_equal; f_equal; apply IH; auto using side_perm, entries_ok_side; try lia;
      replace (SMT_DEPTH - h)%nat with (S (SMT_DEPTH - S h)) by lia; by apply agree_side.
Qed.

Lemma entries_perm es es' : entries_ok es -> entries_ok es' ->
  (forall k, entry_get k es = entry_get k es') -> es ≡ₚ es'.
Proof.
  intros Hok Hok' Hg.
  assert (forall l, entries_ok l -> NoDup l) as Hnd.
  { intros l [Hn _]. by apply NoDup_fmap_1 in Hn. }
  apply NoDup_Permutation; [auto..|]. intros [k l].
  by rewrite <- !entry_get_Some, Hg by done.
Qed.

(** The root is a function of the committed leaf set. *)
Lemma smtNode_ext es es' : entries_ok es -> entries_ok es' ->
  (forall k, entry_get k es = entry_get k es') -> smtNode SMT_DEPTH es = smtNode SMT_DEPTH es'.
Proof.
  intros Hok Hok' Hg. apply smtNode_perm; [done| |done|by apply entries_perm].
  rewrite Nat.sub_diag. intros ??? _ _ ?; lia.
Qed.

(** ** Binding *)

(** The preimages hashed by a climb. *)
Fixpoint climb_preimages (k : bytes) (d : nat) (siblings : list bytes) (node : bytes) : list bytes :=
  match siblings with
  | [] => []
  | s :: rest =>
      let below := climb k (S d) (map Buf rest) node in
      (if bit k d then node_preimage s below else node_preimage below s)
        :: climb_preimages k (S d) rest node
  end.

Lemma climb_length k d sibs node : length node = 32%nat -> length (climb k d sibs node) = 32%nat.
Proof. intros Hn. destruct sibs as [|s sibs]; [done|]. cbn. case_match; apply nodeHash_length. Qed.

Lemma join_inj (b : bool) n s n' s' (D : bytes -> Prop) : collision_free D ->
  D (if b then node_preimage s n else node_preimage n s) ->
  D (if b then node_preimage s' n' else node_preimage n' s') ->
  length n = 32%nat -> length n' = 32%nat -> join b n s = join b n' s' -> n = n' /\ s = s'.
Proof.
  intros Hcf Hd Hd' Hn Hn' He. unfold join in He. destruct b; apply Hcf in He; try done;
    unfold node_preimage in He; injection He as He; cbn in He.
  - apply app_inj_2 in He as [-> ->]; [done|congruence].
  - apply app_inj_len in He; [done|congruence].
Qed.

Lemma climb_inj (D : bytes -> Prop) k d sibs sibs' node node' : collision_free D ->
  length sibs = length sibs' -> length node = 32%nat -> length node' = 32%nat ->
  Forall D (climb_preimages k d sibs node) -> Forall D (climb_preimages k d sibs' node') ->
  climb k d (map Buf sibs) node = climb k d (map Buf sibs') node' ->
  node = node' /\ sibs = sibs'.
Proof.
  intros Hcf. revert d sibs'; induction sibs as [|s sibs IH];
    intros d [|s' sibs'] Hl Hn Hn' HD HD' He; try discriminate Hl; [done|]. injection Hl as Hl. cbn [map] in He. rewrite !climb_cons in He. cbn [toBuf] in He.
  cbn [climb_preimages] in HD, HD'. apply Forall_cons in HD as [HD1 HD], HD' as [HD1' HD'].
  eapply join_inj in He as [He ->]; eauto using climb_length.
  destruct (IH (S d) sibs' Hl Hn Hn' HD HD' He) as [-> ->]. done.
Qed.
End Committed.

(** ** Compression *)

Lemma set_bit_length bm d : length (set_bit bm d) = length bm.
Proof. apply length_insert. Qed.

Lemma set_bit_spec bm d i : length bm = 32%nat -> (d < 256)%nat ->
  bit (set_bit bm d) i = if decide (i = d) then true else bit bm i.
Proof.
  intros Hl Hd. rewrite !bit_testbit. unfold set_bit.
  pose proof (Nat.mod_upper_bound i 8 ltac:(lia)) as Hmi.
  pose proof (Nat.mod_upper_bound d 8 ltac:(lia)) as Hmd.
  assert (d / 8 < 32)%nat as Hd8 by (apply Nat.Div0.div_lt_upper_bound; lia).
  set (x := nth (d / 8) bm Byte.x00). pose proof (b2z_range x) as Hx.
  rewrite !nth_lookup, list_lookup_insert. destruct (decide (d / 8 = i / 8)%nat) as [He|He].
  - rewrite decide_True by lia. cbn [from_option id]. rewrite b2z_z2b.
    assert (0 <= 7 - Z.of_nat (d mod 8) < 8) as Hs by lia.
    assert (Z.shiftl 1 (7 - Z.of_nat (d mod 8)) < 256) as Hsh.
    { rewrite Z.shiftl_1_l. change 256 with (2 ^ 8). apply Z.pow_lt_mono_r; lia. }
    rewrite <- (Z.land_ones _ 8) by lia. rewrite Z.land_spec, Z.lor_spec, Z.ones_spec_low by lia.
    rewrite andb_true_r, Z.shiftl_1_l, Z.pow2_bits_eqb by lia.
    rewrite <- nth_lookup, <- He. fold x.
    destruct (decide (i = d)) as [->|Hne].
    + rewrite Z.eqb_refl. apply orb_true_r.
    + replace (_ =? _) with false; [apply orb_false_r|]. symmetry. apply Z.eqb_neq.
      intros Heq. apply Hne. rewrite (Nat.div_mod_eq i 8), (Nat.div_mod_eq d 8). lia.
  - rewrite decide_False by tauto. rewrite decide_False by congruence. done.
Qed.

Section Compression.
Context `{HashFn}.

Definition is_real (d : nat) (s : bufhex) : bool :=
  negb (bool_decide (toBuf s = EMPTY (SMT_DEPTH - 1 - d))).

Fixpoint reals (d : nat) (sibs : list bufhex) : list string :=
  match sibs with
  | [] => []
  | s :: rest => (if is_real d s then [toHex (Buf (toBuf s))] else []) ++ reals (S d) rest
  end.

Lemma compress_loop_spec sibs d bm real : length bm = 32%nat -> (d + length sibs <= 256)%nat ->
  exists bm', compress_loop d sibs bm real = (bm', real ++ reals d sibs)
    /\ length bm' = 32%nat
    /\ (forall i, (i < d)%nat -> bit bm' i = bit bm i)
    /\ forall j s, sibs !! j = Some s -> bit bm' (d + j) = is_real (d + j) s || bit bm (d + j).
Proof.
  revert d bm real; induction sibs as [|s sibs IH]; intros d bm real Hbm Hd; cbn [compress_loop reals].
  - exists bm. by rewrite app_nil_r.
  - cbn in Hd. unfold is_real at 1. destruct (bool_decide (toBuf s = _)) eqn:Er; cbn [negb app].
    + destruct (IH (S d) bm real Hbm ltac:(lia)) as (bm' & Hc & Hl & Hlow & Hb). exists bm'.
      split; [done|]. split; [done|]. split; [auto with lia|]. intros [|j] s'.
      * intros [= <-]. rewrite Nat.add_0_r, Hlow by lia. unfold is_real. by rewrite Er.
      * intros Hs. rewrite Nat.add_succ_r. by apply Hb.
    + destruct (IH (S d) (set_bit bm d) (real ++ [toHex (Buf (toBuf s))])) as (bm' & Hc & Hl & Hlow & Hb);
        [by rewrite set_bit_length | lia |]. exists bm'.
      split; [by rewrite Hc, <- app_assoc|]. split; [done|]. split.
      * intros i Hi. rewrite Hlow, set_bit_spec, decide_False by (done || lia). done.
      * intros [|j] s'.
        -- intros [= <-]. rewrite Nat.add_0_r, Hlow, set_bit_spec, decide_True by (done || lia).
           unfold is_real. by rewrite Er.
        -- intros Hs. rewrite Nat.add_succ_r. change (S (d + j)) with (S d + j)%nat.
           rewrite (Hb _ _ Hs), set_bit_spec, decide_False by (done || lia). done.
Qed.

Lemma bit_zeros i : bit (replicate 32 Byte.x00) i = false.
Proof.
  rewrite bit_testbit, nth_lookup.
  destruct (replicate 32 Byte.x00 !! _) as [b|] eqn:E;
    [apply lookup_replicate in E as [-> _]|]; apply Z.testbit_0_l.
Qed.

Lemma compressSmtProof_spec sibs : length sibs = SMT_DEPTH ->
  exists bm, compressSmtProof sibs = Ok (Compressed (hex_encode bm) (reals 0 sibs))
    /\ length bm = 32%nat
    /\ forall i s, sibs !! i = Some s -> bit bm i = is_real i s.
Proof.
  intros Hl. unfold compressSmtProof. rewrite Hl, Nat.ltb_irrefl, take_ge by lia.
  destruct (compress_loop_spec sibs 0 (replicate 32 Byte.x00) []) as (bm & -> & Hbm & _ & Hb);
    [done | unfold SMT_DEPTH in Hl; lia|].
  exists bm. split; [done|]. split; [done|]. intros i s Hs.
  specialize (Hb i s Hs). cbn [Nat.add] in Hb. by rewrite Hb, bit_zeros, orb_false_r.
Qed.

Lemma drop_cons_inv {A} ri (real : list A) x l d : drop ri real = x :: l ->
  nth ri real d = x /\ drop (S ri) real = l.
Proof.
  revert real; induction ri as [|ri IH]; intros [|y real]; cbn; try done.
  - intros [= -> ->]. by rewrite drop_0.
  - apply IH.
Qed.

Lemma decompress_loop_spec sibs d bm real ri tl :
  (forall i s, sibs !! i = Some s -> bit bm (d + i) = is_real (d + i) s) ->
  drop ri real = reals d sibs ++ tl ->
  decompress_loop (length sibs) d bm real ri =
  (map (fun s => toHex (Buf (toBuf s))) sibs, (ri + length (reals d sibs))%nat).
Proof.
  revert d ri; induction sibs as [|s sibs IH]; intros d ri Hb Hd; cbn [length decompress_loop reals map].
  - by rewrite Nat.add_0_r.
  - pose proof (Hb 0%nat s eq_refl) as H0. rewrite Nat.add_0_r in H0. cbn [reals] in Hd.
    assert (forall i s, sibs !! i = Some s -> bit bm (S d + i) = is_real (S d + i) s) as Hb'.
    { intros i s' Hs. specialize (Hb (S i) s' Hs). by rewrite Nat.add_succ_r in Hb. }
    destruct (is_real d s) eqn:Er; unfold bit in H0.
    + apply negb_true_iff in H0. rewrite H0.
      cbn [app] in Hd. apply (drop_cons_inv _ _ _ _ "") in Hd as [Hn Hd].
      rewrite (IH (S d) (S ri) Hb' Hd), Hn. cbn. f_equal. lia.
    + apply negb_false_iff in H0. rewrite H0.
      rewrite (IH (S d) ri Hb' Hd). unfold is_real in Er. js_simpl. by rewrite Er.
Qed.

Lemma decompress_compress sibs c : length sibs = SMT_DEPTH -> compressSmtProof sibs = Ok c ->
  decompressSmtProof c = Ok (map (fun s => toHex (Buf (toBuf s))) sibs).
Proof.
  intros Hl Hc. destruct (compressSmtProof_spec sibs Hl) as (bm & Hc' & Hbm & Hb).
  rewrite Hc' in Hc. injection Hc as <-. unfold decompressSmtProof. cbn [bitmap csiblings toBuf].
  rewrite hex_decode_encode, <- Hl.
  rewrite (decompress_loop_spec sibs 0 bm (reals 0 sibs) 0 []); [|done|by rewrite drop_0, app_nil_r].
  by rewrite Nat.eqb_refl.
Qed.
End Compression.

(** A decompression that succeeds consumed exactly one sibling per set bit. *)
Definition set_bits (bm : bytes) (d n : nat) : nat :=
  length (List.filter (fun i => bit bm i) (seq d n)).

Lemma decompress_loop_count `{HashFn} n d bm real ri :
  let '(out, ri') := decompress_loop n d bm real ri in
  length out = n /\ ri' = (ri + set_bits bm d n)%nat.
Proof.
  revert d ri; induction n as [|n IH]; intros d ri; cbn [decompress_loop]; [cbn; lia|].
  unfold set_bits. cbn [seq List.filter]. unfold bit at 1.
  destruct (bitAt bm d =? 0); cbn [negb].
  - specialize (IH (S d) ri). destruct (decompress_loop n (S d) bm real ri) as [out r].
    destruct IH as [Hl Hr]. cbn [length]. rewrite Hl. split; [done|]. by rewrite Hr.
  - specialize (IH (S d) (S ri)). destruct (decompress_loop n (S d) bm real (S ri)) as [out r].
    destruct IH as [Hl Hr]. cbn [length]. rewrite Hl. split; [done|]. rewrite Hr. unfold set_bits. lia.
Qed.

(** ** Properties *)
#[local] Strategy opaque [SMT_DEPTH].
Section Properties.
Context `{HashFn}.

Lemma map_toBuf_hex l : map (fun s => toBuf (Hex (hex_encode s))) l = l.
Proof. rewrite <- (map_id l) at 2. apply map_ext. intros a. apply hex_decode_encode. Qed.

Lemma climb_toBuf k d sibs node : climb k d sibs node = climb k d (map (fun s => Buf (toBuf s)) sibs) node.
Proof. revert d; induction sibs as [|s sibs IH]; intros d; [done|]. cbn [map]. by rewrite !climb_cons, IH. Qed.

Lemma climb_hex k d sibs node : climb k d (map (fun s => Hex (hex_encode s)) sibs) node = climb k d (map Buf sibs) node.
Proof.
  rewrite climb_toBuf, map_map. f_equal. apply map_ext. intros a. cbn. by rewrite hex_decode_encode.
Qed.

Lemma smt_prove_siblings k t : length k = 32%nat -> leaves_ok t ->
  smt_root t = climb k 0 (map Buf (path_sibs k SMT_DEPTH (smt_entries t))) (default (EMPTY 0) (smt_get k t)).
Proof.
  intros Hk Ht. unfold smt_root. rewrite (smtNode_root_climb k) by auto using smt_entries_ok.
  by rewrite entry_get_entries.
Qed.

Lemma leaf_node_get k t :
  match Hex <$> jm_get (hex_encode k) t with None => EMPTY 0 | Some l => toBuf l end
  = default (EMPTY 0) (smt_get k t).
Proof. unfold smt_get. by destruct (jm_get (hex_encode k) t). Qed.

(** Completeness of proofs: for every well-formed tree and every 32-byte key,
    [prove] returns a proof whose leaf value is the committed leaf (or null for
    an absent key), and both the plain and the compressed verifier accept it
    against the tree's root. *)
Theorem smt_prove_complete k t : length k = 32%nat -> leaves_ok t ->
  exists p, smt_prove (Buf k) t = Ok p
    /\ leaf_value p = jm_get (hex_encode k) t
    /\ verifySmtProof (Buf (smt_root t)) (Buf k) (Hex <$> leaf_value p) (Some (map Hex (psiblings p))) = true
    /\ verifyCompressedSmtProof (Hex (smt_rootHex t)) (Buf k) (Hex <$> leaf_value p) (pcompressed p) = Ok true.
Proof.
  intros Hk Ht. unfold smt_prove. cbn [toBuf]. rewrite prove_loop_sibs.
  set (sibs := path_sibs k SMT_DEPTH (smt_entries t)).
  assert (length sibs = SMT_DEPTH) as Hlen by apply path_sibs_length.
  destruct (compressSmtProof_spec (map Hex (map (fun s => toHex (Buf s)) sibs))) as (bm & Hc & _);
    [by rewrite !length_map|].
  pose proof Hc as Hd. apply decompress_compress in Hd; [|by rewrite !length_map].
  rewrite Hc. cbn [rbind]. eexists. split; [done|]. cbn [leaf_value psiblings pcompressed].
  split; [done|]. rewrite map_map in *. rewrite map_map in Hd. cbn [toHex] in *.
  assert (forall root, toHex root = hex_encode (smt_root t) ->
    verifySmtProof root (Buf k) (Hex <$> jm_get (hex_encode k) t)
      (Some (map (fun s => Hex (hex_encode s)) sibs)) = true) as Hv.
  { intros root Hroot. unfold verifySmtProof. rewrite length_map, Hlen, Nat.eqb_refl. cbn [negb].
    rewrite leaf_node_get. cbn [toBuf toHex]. rewrite climb_hex, Hroot, (smt_prove_siblings k t Hk Ht).
    by apply bool_decide_eq_true. }
  split; [by apply Hv|]. unfold verifyCompressedSmtProof. rewrite Hd. cbn [rbind]. f_equal.
  rewrite map_map. cbn [toBuf].
  rewrite (map_ext _ (fun s => Hex (hex_encode s))) by (intros a; by rewrite hex_decode_encode).
  by apply Hv.
Qed.

(** C39. Binding of proofs: whenever the verifier accepts a proof against the root
    of a well-formed tree, the claimed 32-byte leaf (the empty leaf when the
    claim is absence) is the committed one and the siblings are the tree's own,
    provided the preimages hashed on the two paths do not collide. *)
Theorem verifySmtProof_binding k t v siblings root (D : bytes -> Prop) :
  length k = 32%nat -> leaves_ok t ->
  match v with Some l => length (toBuf l) = 32%nat | None => True end ->
  toHex root = smt_rootHex t ->
  collision_free D ->
  Forall D (climb_preimages k 0 (map toBuf siblings) (default (EMPTY 0) (toBuf <$> v))) ->
  Forall D (climb_preimages k 0 (path_sibs k SMT_DEPTH (smt_entries t)) (default (EMPTY 0) (smt_get k t))) ->
  verifySmtProof root (Buf k) v (Some siblings) = true ->
  default (EMPTY 0) (toBuf <$> v) = default (EMPTY 0) (smt_get k t)
  /\ map toBuf siblings = path_sibs k SMT_DEPTH (smt_entries t).
Proof.
  intros Hk Ht Hv Hroot Hcf HD HD' Hver. unfold verifySmtProof in Hver.
  destruct (negb _) eqn:El; [done|]. apply negb_false_iff, Nat.eqb_eq in El.
  js_simpl. rewrite Hroot in Hver. unfold smt_rootHex in Hver. cbn [toHex toBuf] in Hver.
  apply (inj hex_encode) in Hver. rewrite (smt_prove_siblings k t Hk Ht), climb_toBuf in Hver.
  rewrite <- (map_map toBuf Buf) in Hver.
  replace (match v with Some l => toBuf l | None => EMPTY 0 end)
    with (default (EMPTY 0) (toBuf <$> v)) in Hver by (by destruct v).
  eapply climb_inj in Hver; [exact Hver|exact Hcf| | | |exact HD|exact HD'].
  - by rewrite length_map, path_sibs_length.
  - destruct v; [done|apply (EMPTY_length 0)].
  - destruct (smt_get k t) as [l|] eqn:E; [|apply (EMPTY_length 0)].
    rewrite <- entry_get_entries in E by done. pose proof (smt_entries_ok t Ht) as Hok.
    apply entry_get_Some in E; [|done]. destruct Hok as [_ Hok]. rewrite Forall_forall in Hok.
    apply (Hok _ E).
Qed.

(** The root is a function of the committed leaf set alone: two trees reached
    by any sequences of sets and deletes that commit the same leaves have the
    same root. *)
Theorem smt_root_extensional t t' : leaves_ok t -> leaves_ok t' ->
  (forall k, smt_get k t = smt_get k t') -> smt_root t = smt_root t'.
Proof.
  intros Ht Ht' Hg. unfold smt_root. apply smtNode_ext; auto using smt_entries_ok.
  intros k. by rewrite !entry_get_entries.
Qed.

(** The compressed wire form loses nothing and is checked: 256 sibling hashes
    compress and decompress to themselves, and a compressed proof decompresses
    only when it carries exactly one sibling per set bit of its bitmap. *)
Theorem compressed_proof_roundtrip (sibs : list bytes) c out : length sibs = SMT_DEPTH ->
  (exists c', compressSmtProof (map (fun s => Hex (hex_encode s)) sibs) = Ok c'
     /\ decompressSmtProof c' = Ok (map hex_encode sibs))
  /\ (decompressSmtProof c = Ok out ->
      length out = SMT_DEPTH /\ length (csiblings c) = set_bits (hex_decode (bitmap c)) 0 SMT_DEPTH).
Proof.
  intros Hl. split.
  - destruct (compressSmtProof_spec (map (fun s => Hex (hex_encode s)) sibs)) as (bm & Hc & _);
      [by rewrite length_map|].
    eexists. split; [exact Hc|]. apply decompress_compress in Hc; [|by rewrite length_map].
    rewrite Hc, map_map. f_equal. apply map_ext. intros a. cbn. by rewrite hex_decode_encode.
  - unfold decompressSmtProof. cbn [toBuf].
    pose proof (decompress_loop_count SMT_DEPTH 0 (hex_decode (bitmap c)) (csiblings c) 0) as Hcnt.
    destruct (decompress_loop _ _ _ _ _) as [o ri]. destruct Hcnt as [Ho Hri].
    destruct (Nat.eqb ri (length (csiblings c))) eqn:E; [|done]. intros [= <-].
    apply Nat.eqb_eq in E. split; [done|]. rewrite <- E, Hri. done.
Qed.
End Properties.

(** ** Witnesses *)
Definition ex_key1 : bytes := replicate 32 Byte.x01.
Definition ex_key2 : bytes := replicate 32 Byte.xff.
Definition ex_leaf1 : bytes := replicate 32 Byte.xaa.
Definition ex_leaf2 : bytes := replicate 32 Byte.xbb.
Definition ex_tree : leaves :=
  smt_set (Buf ex_key2) (Some (Buf ex_leaf2)) (smt_set (Buf ex_key1) (Some (Buf ex_leaf1)) smt_new).
Definition ex_tree_swapped : leaves :=
  smt_set (Buf ex_key1) (Some (Buf ex_leaf1)) (smt_set (Buf ex_key2) (Some (Buf ex_leaf2)) smt_new).

Lemma ex_tree_ok : leaves_ok ex_tree.
Proof.
  apply (leaves_ok_set ex_key2 (Some ex_leaf2)); [done..|].
  apply (leaves_ok_set ex_key1 (Some ex_leaf1)); [done..|]. apply leaves_ok_new.
Qed.
Lemma ex_tree_swapped_ok : leaves_ok ex_tree_swapped.
Proof.
  apply (leaves_ok_set ex_key1 (Some ex_leaf1)); [done..|].
  apply (leaves_ok_set ex_key2 (Some ex_leaf2)); [done..|]. apply leaves_ok_new.
Qed.

Lemma smt_prove_complete_witness :
  exists p, smt_prove (H := node_crypto) (Buf ex_key1) ex_tree = Ok p
    /\ leaf_value p = Some (hex_encode ex_leaf1)
    /\ verifySmtProof (H := node_crypto) (Buf (smt_root (H := node_crypto) ex_tree)) (Buf ex_key1)
         (Hex <$> leaf_value p) (Some (map Hex (psiblings p))) = true.
Proof.
  destruct (smt_prove_complete (H := node_crypto) ex_key1 ex_tree eq_refl ex_tree_ok)
    as (p & Hp & Hl & Hv & _).
  exists p. split; [exact Hp|]. split; [rewrite Hl; reflexivity | exact Hv].
Defined.

(** The absence proof of a key in the empty tree: the siblings are the empty
    constants, read off a table computed once. *)
Section EmptyTree.
Context `{HashFn}.

Fixpoint empty_table (n : nat) : list bytes :=
  match n with
  | O => [EMPTY 0]
  | S n' => let t := empty_table n' in
            match t with e :: _ => nodeHash (Buf e) (Buf e) :: t | [] => [] end
  end.

Lemma empty_table_spec n : empty_table n = EMPTY n :: match n with O => [] | S n' => empty_table n' end.
Proof. induction n as [|n IH]; [done|]. cbn [empty_table]. by rewrite IH at 1. Qed.

Definition empty_sibs (n : nat) : list bytes := match n with O => [] | S n' => empty_table n' end.

Lemma empty_sibs_S n : empty_sibs (S n) = EMPTY n :: empty_sibs n.
Proof. apply empty_table_spec. Qed.

Lemma path_sibs_nil k h : path_sibs k h [] = empty_sibs h.
Proof.
  induction h as [|h IH]; [done|]. rewrite empty_sibs_S. cbn [path_sibs side List.filter].
  by rewrite smtNode_nil, IH.
Qed.

Lemma climb_empty k d n : climb k d (map Buf (empty_sibs n)) (EMPTY 0) = EMPTY n.
Proof.
  revert d; induction n as [|n IH]; intros d; [done|]. rewrite empty_sibs_S. cbn [map].
  rewrite climb_cons, IH. unfold join. by destruct (bit k d).
Qed.

Lemma climb_preimages_empty k d n :
  climb_preimages k d (empty_sibs n) (EMPTY 0) = map (fun e => node_preimage e e) (empty_sibs n).
Proof.
  revert d; induction n as [|n IH]; intros d; [done|]. rewrite empty_sibs_S.
  cbn [climb_preimages map]. rewrite climb_empty, IH. by destruct (bit k d).
Qed.
End EmptyTree.

Lemma verifySmtProof_binding_witness :
  default (EMPTY (H := poly_hash) 0) (toBuf <$> (None : option bufhex))
    = default (EMPTY (H := poly_hash) 0) (smt_get ex_key1 smt_new)
  /\ map toBuf (map Buf (empty_sibs (H := poly_hash) SMT_DEPTH))
     = path_sibs (H := poly_hash) ex_key1 SMT_DEPTH (smt_entries smt_new).
Proof.
  apply (verifySmtProof_binding (H := poly_hash) ex_key1 smt_new None
    (map Buf (empty_sibs (H := poly_hash) SMT_DEPTH)) (Buf (EMPTY (H := poly_hash) SMT_DEPTH))
    (fun x => x ∈ map (fun e => node_preimage e e) (empty_sibs (H := poly_hash) SMT_DEPTH))).
  - reflexivity.
  - apply leaves_ok_new.
  - exact I.
  - unfold smt_rootHex, smt_root. cbn [smt_entries smt_new map]. by rewrite smtNode_nil.
  - apply (collision_free_list_sound (H := poly_hash)). vm_compute. reflexivity.
  - rewrite map_map, map_id. cbn [fmap option_fmap option_map from_option id].
    rewrite climb_preimages_empty. apply Forall_forall. intros x Hx. exact Hx.
  - cbn [smt_entries smt_new map]. rewrite path_sibs_nil.
    unfold smt_get. cbn [jm_get smt_new fmap option_fmap option_map from_option id].
    rewrite climb_preimages_empty. apply Forall_forall. intros x Hx. exact Hx.
  - unfold verifySmtProof. rewrite length_map, <- (path_sibs_nil ex_key1), path_sibs_length, path_sibs_nil.
    rewrite Nat.eqb_refl. cbn [negb toBuf]. rewrite climb_empty. by apply bool_decide_eq_true.
Defined.

Lemma smt_root_extensional_witness :
  ex_tree <> ex_tree_swapped
  /\ smt_root (H := node_crypto) ex_tree = smt_root (H := node_crypto) ex_tree_swapped.
Proof.
  split; [vm_compute; congruence|].
  apply (smt_root_extensional (H := node_crypto) _ _ ex_tree_ok ex_tree_swapped_ok).
  intros k. unfold ex_tree, ex_tree_swapped.
  rewrite (smt_get_set ex_key2 (Some ex_leaf2)), (smt_get_set ex_key1 (Some ex_leaf1)),
    (smt_get_set ex_key1 (Some ex_leaf1)), (smt_get_set ex_key2 (Some ex_leaf2));
    repeat first [apply (leaves_ok_set ex_key1 (Some ex_leaf1)); [done..|]
                 |apply (leaves_ok_set ex_key2 (Some ex_leaf2)); [done..|]
                 |apply leaves_ok_new].
  destruct (decide (k = ex_key2)) as [->|]; [|done].
  rewrite decide_False by (vm_compute; congruence). reflexivity.
Defined.

Lemma compressed_proof_roundtrip_witness :
  exists c', compressSmtProof (H := node_crypto)
      (map (fun s => Hex (hex_encode s)) (replicate SMT_DEPTH ex_leaf1)) = Ok c'
    /\ decompressSmtProof (H := node_crypto) c' = Ok (map hex_encode (replicate SMT_DEPTH ex_leaf1)).
Proof.
  apply (compressed_proof_roundtrip (H := node_crypto) _ (Compressed "" []) []).
  apply length_replicate.
Defined.

(** The committed golden constants of the repository's fixture are the model's. *)
Example golden_empty_0 : toHex (Buf (EMPTY (H := node_crypto) 0)) =
  "7d0eefdcd395118b3a5c35e09d967d4c8f3ccc6db2a7ba96fbb4a9689d9151dd".
Proof. vm_compute. reflexivity. Qed.
Example golden_empty_1 : toHex (Buf (EMPTY (H := node_crypto) 1)) =
  "f883205469c0b06a6e429f91fe4dc4fb27b76ce7cc97606fb777dc3a2205550c".
Proof. vm_compute. reflexivity. Qed.
Example golden_balance_key :
  (let! k := balanceKey (H := node_crypto) (JStr "BTC") (JStr "regtest")
     (JStr "1JDogZS6tQcSxwfxhv6XKKjcyicYA4Feev") (JStr "XCHAIN") in Ok (toHex (Buf k))) =
  Ok "48d2a5a24e5e585e0ed27170a81314efcccbd921870ae8ba551c750ecfbed0ff".
Proof. vm_compute. reflexivity. Qed.
Example golden_leaf :
  (let! l := amountLeaf (H := node_crypto) (JStr "1000.5") in Ok (toHex (Buf l))) =
  Ok "e3669b6569cf7df2286807720b1bafa1f989098ef4636a1b0511f28a02eb4d6d".
Proof. vm_compute. reflexivity. Qed.
