(* ===== verification/FixedMerkle.v ===== *)
(** * FixedMerkle: the fixed binary tree, the state root and the block root

    Models the second half of [src/src/merkle.js]: [nextPow2],
    [fixedMerkleRoot], [fixedMerkleProof], [verifyFixedMerkleProof], the named
    sub-root assembly ([stateRoot], [stateRootProof]), the stake leaves with the
    exact sum [sumCanonicalAmounts], and the per-block content leaves.

    The theorems: inclusion proofs verify and bind the leaf at their index; a
    block root binds the exact ordered list of leaf preimages, whatever their
    number; the stake total is the exact sum of the weights. *)

From S2P Require Import Prelude Sha256 JsText JsMap Primitives SparseMerkle.

(** [let p = 1; while(p < n) p <<= 1;] for vectors below 2^30 leaves; [p] doubles
    at each step, so [n] steps are enough. *)
Fixpoint nextPow2_loop (fuel : nat) (p n : nat) : nat :=
  match fuel with
  | O => p
  | S fuel' => if Nat.ltb p n then nextPow2_loop fuel' (2 * p) n else p
  end.
Definition nextPow2 (n : nat) : nat := nextPow2_loop n 1 n.

Section Fixed.
Context `{HashFn}.

(** One round of the reduction loop.  The layer has even length there. *)
Fixpoint pair_up (layer : list bytes) : list bytes :=
  match layer with
  | a :: b :: rest => nodeHash (Buf a) (Buf b) :: pair_up rest
  | _ => []
  end.

Definition pad_layer (leaves : list bytes) : list bytes :=
  leaves ++ replicate (nextPow2 (length leaves) - length leaves) (EMPTY 0).

(** [while(layer.length > 1)]; a round at least halves the layer, so its length
    is enough fuel. *)
Fixpoint reduce_loop (fuel : nat) (layer : list bytes) : bytes :=
  match fuel with
  | O => nth 0 layer []
  | S fuel' => if Nat.ltb 1 (length layer) then reduce_loop fuel' (pair_up layer) else nth 0 layer []
  end.

Definition fixedMerkleRoot (leaves : list bufhex) : bytes :=
  match leaves with
  | [] => EMPTY 0
  | _ => let layer := pad_layer (map toBuf leaves) in reduce_loop (length layer) layer
  end.

Record fixed_proof := FixedProof { findex : Z; fsiblings : list string }.

Fixpoint fixed_proof_loop (fuel : nat) (layer : list bytes) (idx : nat) : list string :=
  match fuel with
  | O => []
  | S fuel' =>
      if Nat.ltb 1 (length layer) then
        let sibIdx := Nat.lxor idx 1 in
        toHex (Buf (nth sibIdx layer [])) :: fixed_proof_loop fuel' (pair_up layer) (Nat.div2 idx)
      else []
  end.

Definition fixedMerkleProof (leaves : list bufhex) (index : Z) : result fixed_proof :=
  if (index <? 0) || (Z.of_nat (length leaves) <=? index)
  then Throw "merkle: index out of range"
  else
    let layer := pad_layer (map toBuf leaves) in
    Ok (FixedProof index (fixed_proof_loop (length layer) layer (Z.to_nat index))).

Fixpoint fixed_verify_loop (node : bytes) (idx : nat) (siblings : list bufhex) : bytes :=
  match siblings with
  | [] => node
  | sib :: rest =>
      let node' := if Nat.even idx then nodeHash (Buf node) (Buf (toBuf sib))
                   else nodeHash (Buf (toBuf sib)) (Buf node) in
      fixed_verify_loop node' (Nat.div2 idx) rest
  end.

(** The index is a non-negative integer below 2^31, on which [idx & 1] and
    [idx >>= 1] are parity and halving. *)
Definition verifyFixedMerkleProof (rootHex leafBuf : bufhex) (index : nat) (siblings : list bufhex) : bool :=
  bool_decide (toHex (Buf (fixed_verify_loop (toBuf leafBuf) index siblings)) = toHex rootHex).

(** ** Top-level state root *)
Definition STATE_SUBTREES : list string :=
  ["balances_root"; "stakes_root"; "ownership_root"; "tokens_root"; "contract_state_root"].

(** The object of named sub-roots (hex text); an absent object is the empty map. *)
Definition sub_roots := jsmap string string.

(** [(subRoots && subRoots[name]) ? toBuf(subRoots[name]) : EMPTY_SMT_ROOT]: an
    absent and an empty text are both falsy. *)
Definition sub_root_leaf (subRoots : sub_roots) (name : string) : bytes :=
  match jm_get name subRoots with
  | Some s => if bool_decide (s = "") then EMPTY_SMT_ROOT else toBuf (Hex s)
  | None => EMPTY_SMT_ROOT
  end.

Definition stateRoot (subRoots : sub_roots) : bytes :=
  fixedMerkleRoot (map (fun name => Buf (sub_root_leaf subRoots name)) STATE_SUBTREES).

(** [STATE_SUBTREES.indexOf(name)] *)
Fixpoint index_of (name : string) (l : list string) : option nat :=
  match l with
  | [] => None
  | x :: l' => if decide (name = x) then Some 0%nat else S <$> index_of name l'
  end.

Definition stateRootProof (subRoots : sub_roots) (name : string) : result fixed_proof :=
  match index_of name STATE_SUBTREES with
  | None => Throw ("merkle: unknown state sub-tree " +:+ name)
  | Some idx =>
      fixedMerkleProof (map (fun n => Buf (sub_root_leaf subRoots n)) STATE_SUBTREES) (Z.of_nat idx)
  end.

(** ** Stake leaves *)
Definition STAKE_TOTAL_PUBKEY : string := "__total__".

Definition stakeMemberLeaf (source weight : jsval) : result bytes :=
  let! w := canonicalAmount weight in
  let! b := joinFields [JStr "STK"; source; JStr w] in Ok (leafHash b).
Definition stakeTotalLeaf (total : jsval) : result bytes :=
  let! w := canonicalAmount total in
  let! b := joinFields [JStr "STKTOTAL"; JStr w] in Ok (leafHash b).
End Fixed.

(** [acc += BigInt(i) * 10n**18n + BigInt(f)] over the split canonical texts. *)
Definition sum_step (acc : Z) (a : jsval) : result Z :=
  let! c := canonicalAmount (JStr (js_String a)) in
  let '(i, f) := split_amount (utf8 c) in
  Ok (acc + (dec_val i * 1000000000000000000 + dec_val f)).

Definition sumCanonicalAmounts (amounts : list jsval) : result string :=
  let! acc := rfold sum_step 0 amounts in
  let s := dec_of acc in
  let frac := if Nat.ltb 18 (length s) then drop (length s - 18) s else pad_start 18 s in
  let intp := if Nat.ltb 18 (length s) then take (length s - 18) s else [c_zero] in
  Ok (of_utf8 (strip_zeros intp ++ [c_dot] ++ frac)).

(** ** Per-block content leaves *)
Record ledger_row := LedgerRow { l_action_index : jsval; l_address : jsval; l_tick : jsval; l_amount : jsval }.
Record action_row := ActionRow { a_action_index : jsval; a_tx_index : jsval; a_action : jsval }.
Record contract_row := ContractRow {
  c_action_index : jsval; c_source_address : jsval; c_code_hash : jsval; c_status : jsval }.
Record state_row := StateRow { s_contract_index : jsval; s_state_key : jsval; s_state_value : jsval }.
Record execution_row := ExecutionRow {
  x_action_index : jsval; x_contract_index : jsval; x_caller_address : jsval;
  x_gas_used : jsval; x_status : jsval; x_emitted_count : jsval }.
Record emission_row := EmissionRow {
  e_execution_index : jsval; e_emitted_action : jsval; e_action_index : jsval; e_position : jsval }.
Record transfer_row := TransferRow {
  t_action_index : jsval; t_contract_index : jsval; t_source_address : jsval;
  t_tick : jsval; t_amount : jsval; t_status : jsval }.

(** The rows of one block, each table in the order the query gathered it; an
    absent table is the empty list. *)
Record block_rows := BlockRows {
  credits : list ledger_row; debits : list ledger_row; escrows : list ledger_row;
  actions : list action_row;
  contracts : list contract_row; cstate : list state_row; executions : list execution_row;
  emissions : list emission_row; deposits : list transfer_row; withdrawals : list transfer_row }.

(** [x == null ? '' : x] *)
Definition nz (x : jsval) : jsval := if is_nullish x then JStr "" else x.

(** The field vectors the leaf encoders join. *)
Definition ledger_fields (kind : string) (r : ledger_row) : list jsval :=
  [JStr "L"; JStr kind; l_action_index r; nz (l_address r); nz (l_tick r); l_amount r].
Definition actions_fields (r : action_row) : list jsval :=
  [JStr "A"; a_action_index r; nz (a_tx_index r); nz (a_action r)].
Definition contract_fields (subTable : string) (fields : list jsval) : list jsval :=
  JStr "C" :: JStr subTable :: fields.
Definition transfer_fields (r : transfer_row) : list jsval :=
  [t_action_index r; t_contract_index r; nz (t_source_address r); nz (t_tick r); t_amount r; nz (t_status r)].

Definition block_fields (rows : block_rows) : list (list jsval) :=
  map (ledger_fields "credit") (credits rows) ++
  map (ledger_fields "debit") (debits rows) ++
  map (ledger_fields "escrow") (escrows rows) ++
  map actions_fields (actions rows) ++
  map (fun r => contract_fields "contracts"
         [c_action_index r; nz (c_source_address r); nz (c_code_hash r); nz (c_status r)]) (contracts rows) ++
  map (fun r => contract_fields "state" [s_contract_index r; nz (s_state_key r); nz (s_state_value r)])
      (cstate rows) ++
  map (fun r => contract_fields "executions"
         [x_action_index r; x_contract_index r; nz (x_caller_address r); nz (x_gas_used r);
          nz (x_status r); nz (x_emitted_count r)]) (executions rows) ++
  map (fun r => contract_fields "emissions"
         [e_execution_index r; nz (e_emitted_action r); e_action_index r; e_position r]) (emissions rows) ++
  map (fun r => contract_fields "deposits" (transfer_fields r)) (deposits rows) ++
  map (fun r => contract_fields "withdrawals" (transfer_fields r)) (withdrawals rows).

Section BlockLeaves.
Context `{HashFn}.

(** [leafHash(joinFields(fields))]: the body of [ledgerLeaf], [actionsLeaf] and
    [contractLeaf]. *)
Definition row_leaf (fields : list jsval) : result bytes :=
  let! b := joinFields fields in Ok (leafHash b).

Definition blockMerkleLeaves (rows : block_rows) : result (list bytes) := rmap row_leaf (block_fields rows).
Definition blockMerkleRoot (orderedLeaves : list bytes) : bytes := fixedMerkleRoot (map Buf orderedLeaves).
End BlockLeaves.

(** ** Widths *)

Lemma pow2_pos h : (1 <= 2 ^ h)%nat.
Proof. induction h as [|h IH]; [done|]. rewrite Nat.pow_succ_r'. lia. Qed.

(** Linear arithmetic on powers of two of successive exponents. *)
Ltac pow2_lia :=
  repeat match goal with
  | h : nat |- _ => lazymatch goal with
                    | _ : (1 <= 2 ^ h)%nat |- _ => fail
                    | _ => pose proof (pow2_pos h)
                    end
  end; rewrite ?Nat.pow_succ_r' in *; lia.

Lemma nextPow2_loop_spec fuel a n : (n <= 2 ^ a + fuel)%nat -> exists h,
  nextPow2_loop fuel (2 ^ a) n = (2 ^ h)%nat /\ (n <= 2 ^ h)%nat
  /\ ((2 ^ a < n)%nat -> (2 ^ h < 2 * n)%nat) /\ ((n <= 2 ^ a)%nat -> h = a).
Proof.
  revert a; induction fuel as [|fuel IH]; intros a Hn; cbn [nextPow2_loop].
  - exists a. repeat split; lia.
  - destruct (Nat.ltb (2 ^ a) n) eqn:E; [apply Nat.ltb_lt in E | apply Nat.ltb_ge in E].
    + rewrite <- Nat.pow_succ_r'. pose proof (pow2_pos a).
      destruct (IH (S a)) as (h & Hh & Hle & Hlt & Hge); [pow2_lia|].
      exists h. split; [done|]. split; [done|]. split; [|lia]. intros _.
      destruct (decide (2 ^ S a < n)%nat) as [Hl|Hl]; [auto|].
      rewrite Hge by lia. pow2_lia.
    + exists a. repeat split; lia.
Qed.

(** The padded width is the least power of two that holds the leaves. *)
Lemma nextPow2_spec n : exists h, nextPow2 n = (2 ^ h)%nat /\ (n <= 2 ^ h)%nat
  /\ ((1 < n)%nat -> (2 ^ h < 2 * n)%nat).
Proof.
  destruct (nextPow2_loop_spec n 0 n) as (h & Hh & Hle & Hlt & _); [cbn; lia|].
  exists h. eauto.
Qed.

Lemma even_double j : Nat.even (2 * j) = true.
Proof. by rewrite Nat.even_mul. Qed.
Lemma even_succ_double j : Nat.even (2 * j + 1) = false.
Proof. by rewrite Nat.even_add, Nat.even_mul. Qed.

Lemma lxor_even j : Nat.lxor (2 * j) 1 = (2 * j + 1)%nat.
Proof.
  apply Nat.bits_inj. intros [|i]; rewrite Nat.lxor_spec.
  - by rewrite !Nat.bit0_odd, Nat.odd_add, Nat.odd_mul.
  - rewrite <- !Nat.testbit_div2. change (Nat.div2 1) with 0%nat.
    rewrite Nat.bits_0, xorb_false_r, Nat.add_1_r.
    by rewrite Nat.div2_succ_double, Nat.div2_double.
Qed.

Lemma lxor_odd j : Nat.lxor (2 * j + 1) 1 = (2 * j)%nat.
Proof. by rewrite <- lxor_even, Nat.lxor_assoc, Nat.lxor_nilpotent, Nat.lxor_0_r. Qed.

Lemma div2_even j : Nat.div2 (2 * j) = j.
Proof. apply Nat.div2_double. Qed.
Lemma div2_odd j : Nat.div2 (2 * j + 1) = j.
Proof. rewrite Nat.add_1_r. apply Nat.div2_succ_double. Qed.

Lemma parity_cases idx : exists j, idx = (2 * j)%nat \/ idx = (2 * j + 1)%nat.
Proof.
  exists (Nat.div2 idx). rewrite (Nat.div2_odd idx) at 1 3. destruct (Nat.odd idx); cbn; lia.
Qed.

Section FixedFacts.
Context `{HashFn}.

Lemma pad_layer_length leaves : exists h, length (pad_layer leaves) = (2 ^ h)%nat
  /\ (length leaves <= 2 ^ h)%nat /\ nextPow2 (length leaves) = (2 ^ h)%nat.
Proof.
  destruct (nextPow2_spec (length leaves)) as (h & Hh & Hle & _). exists h.
  unfold pad_layer. rewrite length_app, length_replicate, Hh. repeat split; lia.
Qed.

(** ** Rounds of the reduction *)

Lemma pair_up_length layer n : length layer = (2 * n)%nat -> length (pair_up layer) = n.
Proof.
  revert layer; induction n as [|n IH]; intros [|a [|b layer]]; cbn [length pair_up]; try lia.
  intros Hl. f_equal. apply IH. lia.
Qed.

Lemma pair_up_pow2 layer h : length layer = (2 ^ S h)%nat -> length (pair_up layer) = (2 ^ h)%nat.
Proof. intros Hl. apply pair_up_length. by rewrite Hl, Nat.pow_succ_r'. Qed.

Lemma pair_up_nth layer j n : length layer = (2 * n)%nat -> (j < n)%nat ->
  nth j (pair_up layer) [] = nodeHash (Buf (nth (2 * j) layer [])) (Buf (nth (2 * j + 1) layer [])).
Proof.
  revert layer n; induction j as [|j IH]; intros [|a [|b layer]] n Hl Hj; cbn [length] in Hl; try lia; [done|].
  cbn [pair_up nth]. rewrite (IH layer (n - 1)%nat) by lia.
  replace (2 * S j)%nat with (S (S (2 * j))) by lia. done.
Qed.

Lemma pair_up_32 n layer : length layer = (2 * n)%nat ->
  Forall (fun b => length b = 32%nat) (pair_up layer).
Proof.
  revert layer; induction n as [|n IH]; intros [|a [|b layer]] Hl; cbn [length pair_up] in *; try lia;
    constructor; [apply nodeHash_length|]. apply IH. lia.
Qed.

(** Reduction of a layer of [2^h] nodes, by height. *)
Fixpoint reduce (h : nat) (layer : list bytes) : bytes :=
  match h with
  | O => nth 0 layer []
  | S h' => reduce h' (pair_up layer)
  end.

(** The loop terminates within its fuel with the reduction by height. *)
Lemma reduce_loop_reduce h fuel layer : length layer = (2 ^ h)%nat -> (2 ^ h <= fuel)%nat ->
  reduce_loop fuel layer = reduce h layer.
Proof.
  revert fuel layer; induction h as [|h IH]; intros fuel layer Hl Hf.
  - destruct fuel as [|fuel]; [cbn in Hf; lia|]. cbn [reduce_loop reduce]. by rewrite Hl.
  - destruct fuel as [|fuel]; [pow2_lia|]. cbn [reduce_loop reduce]. rewrite Hl.
    replace (Nat.ltb 1 (2 ^ S h)) with true by (symmetry; apply Nat.ltb_lt; pow2_lia).
    apply IH; [by apply pair_up_pow2 | pow2_lia].
Qed.

Lemma fixedMerkleRoot_reduce leaves : leaves <> [] -> exists h,
  length (pad_layer (map toBuf leaves)) = (2 ^ h)%nat /\ (length leaves <= 2 ^ h)%nat
  /\ fixedMerkleRoot leaves = reduce h (pad_layer (map toBuf leaves)).
Proof.
  intros Hne. destruct (pad_layer_length (map toBuf leaves)) as (h & Hl & Hle & _).
  rewrite length_map in Hle. exists h. split; [done|]. split; [done|].
  unfold fixedMerkleRoot. destruct leaves as [|l leaves]; [done|].
  apply reduce_loop_reduce; [done|]. by rewrite Hl.
Qed.

(** ** Completeness of inclusion proofs *)

Lemma proof_loop_complete h fuel layer idx : length layer = (2 ^ h)%nat -> (2 ^ h <= fuel)%nat ->
  (idx < 2 ^ h)%nat ->
  length (fixed_proof_loop fuel layer idx) = h /\
  fixed_verify_loop (nth idx layer []) idx (map Hex (fixed_proof_loop fuel layer idx)) = reduce h layer.
Proof.
  revert fuel layer idx; induction h as [|h IH]; intros fuel layer idx Hl Hf Hi;
    (destruct fuel as [|fuel]; [pow2_lia|]); cbn [fixed_proof_loop reduce]; rewrite Hl.
  - cbn in Hi. replace idx with 0%nat by lia. done.
  - replace (Nat.ltb 1 (2 ^ S h)) with true by (symmetry; apply Nat.ltb_lt; pow2_lia).
    destruct (IH fuel (pair_up layer) (Nat.div2 idx)) as [IHl IHv];
      [by apply pair_up_pow2 | pow2_lia | |].
    { destruct (parity_cases idx) as [j [-> | ->]]; rewrite ?div2_even, ?div2_odd; pow2_lia. }
    cbn [length map fixed_verify_loop]. split; [by rewrite IHl|].
    rewrite <- IHv. f_equal. cbn [toBuf toHex]. rewrite hex_decode_encode.
    destruct (parity_cases idx) as [j [-> | ->]].
    + rewrite even_double, lxor_even, div2_even, (pair_up_nth layer j (2 ^ h)) by pow2_lia. done.
    + rewrite even_succ_double, lxor_odd, div2_odd, (pair_up_nth layer j (2 ^ h)) by pow2_lia. done.
Qed.

(** ** Binding *)

(** The preimages hashed by a reduction and by a verification. *)
Fixpoint pair_preimages (layer : list bytes) : list bytes :=
  match layer with
  | a :: b :: rest => node_preimage a b :: pair_preimages rest
  | _ => []
  end.
Fixpoint reduce_preimages (h : nat) (layer : list bytes) : list bytes :=
  match h with
  | O => []
  | S h' => pair_preimages layer ++ reduce_preimages h' (pair_up layer)
  end.
Fixpoint verify_preimages (node : bytes) (idx : nat) (siblings : list bufhex) : list bytes :=
  match siblings with
  | [] => []
  | sib :: rest =>
      let p := if Nat.even idx then node_preimage node (toBuf sib) else node_preimage (toBuf sib) node in
      p :: verify_preimages (sha256 p) (Nat.div2 idx) rest
  end.

Lemma pair_preimages_nth layer j n : length layer = (2 * n)%nat -> (j < n)%nat ->
  node_preimage (nth (2 * j) layer []) (nth (2 * j + 1) layer []) ∈ pair_preimages layer.
Proof.
  revert layer n; induction j as [|j IH]; intros [|a [|b layer]] n Hl Hj; cbn [length] in Hl; try lia.
  - by left.
  - right. specialize (IH layer (n - 1)%nat ltac:(lia) ltac:(lia)).
    by replace (2 * S j)%nat with (S (S (2 * j))) by lia.
Qed.

Lemma nth_Forall {A} (P : A -> Prop) (l : list A) i d : Forall P l -> (i < length l)%nat -> P (nth i l d).
Proof. intros Hl Hi. eapply Forall_nth in Hl; eauto. Qed.

Lemma verify_loop_binding (D : bytes -> Prop) h layer node idx siblings :
  collision_free D -> length layer = (2 ^ h)%nat -> length siblings = h ->
  Forall (fun b => length b = 32%nat) layer -> length node = 32%nat ->
  Forall D (reduce_preimages h layer) -> Forall D (verify_preimages node idx siblings) ->
  fixed_verify_loop node idx siblings = reduce h layer ->
  node = nth (idx mod 2 ^ h) layer [].
Proof.
  intros Hcf. revert layer node idx siblings; induction h as [|h IH];
    intros layer node idx siblings Hl Hs H32 Hn HD HD' He;
    (destruct siblings as [|sib rest]; cbn [length] in Hs; try discriminate Hs).
  - cbn in He. rewrite He. by rewrite Nat.pow_0_r, Nat.mod_1_r.
  - injection Hs as Hs. cbn [fixed_verify_loop verify_preimages reduce reduce_preimages] in *.
    apply Forall_app in HD as [HDp HDr]. apply Forall_cons in HD' as [HDn HDv].
    pose proof (pow2_pos h) as Hp.
    assert (length layer = 2 * 2 ^ h)%nat as Hl2 by (by rewrite Hl, Nat.pow_succ_r').
    pose proof (fun n i s => IH (pair_up layer) n i s (pair_up_pow2 _ _ Hl)) as IH'.
    assert (Nat.div2 idx mod 2 ^ h < 2 ^ h)%nat as Hj by (apply Nat.mod_upper_bound; lia).
    pose proof (pair_preimages_nth layer _ _ Hl2 Hj) as Hin.
    rewrite Forall_forall in HDp. specialize (HDp _ Hin).
    assert (forall i, (i < 2 * 2 ^ h)%nat -> length (nth i layer []) = 32%nat) as Hnl
      by (intros i Hi; apply (nth_Forall (fun b => length b = 32%nat)); [done|lia]).
    destruct (parity_cases idx) as [j [-> | ->]].
    + rewrite even_double in *. rewrite div2_even in *.
      apply IH' in He; try done; [|by apply pair_up_32 with (2 ^ h)%nat | apply nodeHash_length].
      rewrite (pair_up_nth layer _ (2 ^ h)) in He by done. unfold nodeHash in He. cbn [toBuf] in He.
      apply Hcf in He; [|done..]. apply node_preimage_inj in He as [-> _]; [|rewrite Hn; symmetry; apply Hnl; lia].
      f_equal. rewrite Nat.pow_succ_r', Nat.Div0.mul_mod_distr_l. done.
    + rewrite even_succ_double in *. rewrite div2_odd in *.
      apply IH' in He; try done; [|by apply pair_up_32 with (2 ^ h)%nat | apply nodeHash_length].
      rewrite (pair_up_nth layer _ (2 ^ h)) in He by done. unfold nodeHash in He. cbn [toBuf] in He.
      apply Hcf in He; [|done..]. unfold node_preimage in He. injection He as He. cbn [toBuf] in He.
      apply app_inj_2 in He as [_ ->]; [|rewrite Hn; symmetry; apply Hnl; lia].
      f_equal. apply Nat.mod_unique with (j / 2 ^ h)%nat; [pow2_lia|].
      rewrite Nat.pow_succ_r', <- Nat.mul_assoc.
      rewrite (Nat.div_mod_eq j (2 ^ h)) at 1. lia.
Qed.
End FixedFacts.

(** ** The root determines its layer

    A layer of hashes of leaf-tagged or empty-tagged preimages is determined by
    its root, width included: a leaf can never stand for an internal node. *)
Section RootBinding.
Context `{HashFn}.
Variable D : bytes -> Prop.
Hypothesis Hcf : collision_free D.

Definition leafish (x : bytes) : Prop := exists p, x = sha256 p /\ D p /\ head p <> Some Byte.x01.

Lemma pair_up_app a b n : length a = (2 * n)%nat -> pair_up (a ++ b) = pair_up a ++ pair_up b.
Proof.
  revert a; induction n as [|n IH]; intros [|x [|y a]] Hl; cbn [length] in Hl; try lia; [done|].
  cbn [app pair_up]. f_equal. apply IH. lia.
Qed.

Lemma pair_preimages_app a b n : length a = (2 * n)%nat ->
  pair_preimages (a ++ b) = pair_preimages a ++ pair_preimages b.
Proof.
  revert a; induction n as [|n IH]; intros [|x [|y a]] Hl; cbn [length] in Hl; try lia; [done|].
  cbn [app pair_preimages]. f_equal. apply IH. lia.
Qed.

Lemma reduce_split h a b : length a = (2 ^ h)%nat -> length b = (2 ^ h)%nat ->
  reduce (S h) (a ++ b) = nodeHash (Buf (reduce h a)) (Buf (reduce h b)).
Proof.
  revert a b; induction h as [|h IH]; intros a b Ha Hb.
  - destruct a as [|x [|? ?]], b as [|y [|? ?]]; try discriminate. done.
  - cbn [reduce]. rewrite (pair_up_app a b (2 ^ h)) by (by rewrite Ha, Nat.pow_succ_r').
    apply IH; by apply pair_up_pow2.
Qed.

Lemma reduce_preimages_split h a b : length a = (2 ^ h)%nat -> length b = (2 ^ h)%nat ->
  forall p, p = node_preimage (reduce h a) (reduce h b) \/ p ∈ reduce_preimages h a
    \/ p ∈ reduce_preimages h b -> p ∈ reduce_preimages (S h) (a ++ b).
Proof.
  revert a b; induction h as [|h IH]; intros a b Ha Hb p Hp.
  - destruct a as [|x [|? ?]], b as [|y [|? ?]]; try discriminate.
    destruct Hp as [->|[Hp|Hp]]; [by left|by apply not_elem_of_nil in Hp..].
  - remember (S h) as h1. cbn [reduce_preimages]. subst h1.
    assert (length a = 2 * 2 ^ h)%nat as Ha' by (by rewrite Ha, Nat.pow_succ_r').
    rewrite (pair_up_app a b _ Ha'), (pair_preimages_app a b _ Ha').
    specialize (IH (pair_up a) (pair_up b) (pair_up_pow2 _ _ Ha) (pair_up_pow2 _ _ Hb) p).
    cbn [reduce_preimages reduce] in *. rewrite !elem_of_app in *. naive_solver.
Qed.

Lemma reduce_length h layer : length layer = (2 ^ h)%nat -> Forall leafish layer ->
  length (reduce h layer) = 32%nat.
Proof.
  revert layer; destruct h as [|h]; intros layer Hl Hf.
  - destruct layer as [|x [|? ?]]; try discriminate. apply Forall_cons in Hf as [(p & -> & _) _].
    apply sha256_length.
  - assert (length layer = 2 ^ h + 2 ^ h)%nat as Hl' by (rewrite Hl, Nat.pow_succ_r'; lia).
    rewrite <- (take_drop (2 ^ h) layer), reduce_split; [apply nodeHash_length| |].
    + rewrite length_take. lia.
    + rewrite length_drop. lia.
Qed.

Lemma layer_halves h (layer : list bytes) : length layer = (2 ^ S h)%nat -> exists a b,
  layer = a ++ b /\ length a = (2 ^ h)%nat /\ length b = (2 ^ h)%nat.
Proof.
  intros Hl. exists (take (2 ^ h) layer), (drop (2 ^ h) layer).
  rewrite take_drop, length_take, length_drop, Hl, Nat.pow_succ_r'. repeat split; lia.
Qed.

Lemma leaf_not_root x h layer : leafish x -> length layer = (2 ^ S h)%nat ->
  Forall D (reduce_preimages (S h) layer) -> x <> reduce (S h) layer.
Proof.
  intros (p & -> & Hp & Hhd) Hl HD He.
  destruct (layer_halves h layer Hl) as (a & b & -> & Ha & Hb).
  rewrite reduce_split in He by done. unfold nodeHash in He. cbn [toBuf] in He.
  rewrite Forall_forall in HD. apply Hcf in He; [by subst p|done|].
  apply HD, reduce_preimages_split; auto.
Qed.

Lemma reduce_binding h h' layer layer' :
  length layer = (2 ^ h)%nat -> length layer' = (2 ^ h')%nat ->
  Forall leafish layer -> Forall leafish layer' ->
  Forall D (reduce_preimages h layer) -> Forall D (reduce_preimages h' layer') ->
  reduce h layer = reduce h' layer' -> layer = layer'.
Proof.
  revert h' layer layer'; induction h as [|h IH]; intros h' layer layer' Hl Hl' Hf Hf' HD HD' He.
  - destruct layer as [|x [|? ?]]; try discriminate. apply Forall_cons in Hf as [Hx _].
    destruct h' as [|h']; [|by apply leaf_not_root in He].
    destruct layer' as [|y [|? ?]]; try discriminate. cbn in He. by subst.
  - destruct h' as [|h'].
    { destruct layer' as [|y [|? ?]]; try discriminate. apply Forall_cons in Hf' as [Hy _].
      symmetry in He. by apply leaf_not_root in He. }
    destruct (layer_halves h layer Hl) as (a & b & -> & Ha & Hb).
    destruct (layer_halves h' layer' Hl') as (a' & b' & -> & Ha' & Hb').
    rewrite !reduce_split in He by done. unfold nodeHash in He. cbn [toBuf] in He.
    apply Forall_app in Hf as [Hfa Hfb], Hf' as [Hfa' Hfb'].
    rewrite Forall_forall in HD, HD'.
    apply Hcf in He; [|apply HD, reduce_preimages_split; auto|apply HD', reduce_preimages_split; auto].
    apply node_preimage_inj in He as [He1 He2]; [|by rewrite !reduce_length].
    f_equal; [apply (IH h' a a') | apply (IH h' b b')]; auto; apply Forall_forall; intros p Hp;
      first [apply HD, reduce_preimages_split; solve [auto] | apply HD', reduce_preimages_split; solve [auto]].
Qed.
End RootBinding.

Definition empty_preimage : bytes := EMPTY_PREFIX ++ utf8 "XCHAIN_EMPTY_LEAF".

Section BlockBinding.
Context `{HashFn}.

(** The reduced layer of a leaf vector; the empty vector's root is [EMPTY[0]],
    the root of the one-node layer [[EMPTY[0]]]. *)
Definition block_layer (leaves : list bytes) : list bytes :=
  match leaves with [] => [EMPTY 0] | _ => pad_layer leaves end.

(** Everything hashed to build the root over leaf preimages [ps]. *)
Definition block_preimages (ps : list bytes) : list bytes :=
  let layer := block_layer (map leafHash ps) in
  empty_preimage :: map (fun p => LEAF_PREFIX ++ p) ps
  ++ reduce_preimages (Nat.log2 (length layer)) layer.

Lemma block_layer_root leaves : exists h, length (block_layer leaves) = (2 ^ h)%nat
  /\ blockMerkleRoot leaves = reduce h (block_layer leaves).
Proof.
  unfold blockMerkleRoot. destruct leaves as [|l leaves]; [by exists 0%nat|].
  destruct (fixedMerkleRoot_reduce (map Buf (l :: leaves))) as (h & Hl & _ & Hr); [done|].
  exists h. unfold block_layer. rewrite Hr, map_map, map_id in *. done.
Qed.

Lemma block_layer_split leaves : exists n, block_layer leaves = leaves ++ replicate n (EMPTY 0).
Proof. destruct leaves as [|l leaves]; [by exists 1%nat|]. by eexists. Qed.

Lemma pad_strip (D : bytes -> Prop) ps qs a b : collision_free D -> D empty_preimage ->
  Forall D (map (fun p => LEAF_PREFIX ++ p) ps) -> Forall D (map (fun p => LEAF_PREFIX ++ p) qs) ->
  map leafHash ps ++ replicate a (EMPTY 0) = map leafHash qs ++ replicate b (EMPTY 0) -> ps = qs.
Proof.
  intros Hcf He. revert qs; induction ps as [|p ps IH]; intros [|q qs] Hp Hq Heq.
  - done.
  - exfalso. destruct a as [|a]; [done|]. injection Heq as Heq _.
    apply Forall_cons in Hq as [Hq _]. apply Hcf in Heq; done.
  - exfalso. destruct b as [|b]; [done|]. injection Heq as Heq _.
    apply Forall_cons in Hp as [Hp _]. apply Hcf in Heq; done.
  - cbn [map app] in *. apply Forall_cons in Hp as [Hp Hps], Hq as [Hq Hqs]. injection Heq as Heq1 Heq2.
    apply Hcf in Heq1; [|done..]. injection Heq1 as ->. f_equal. eauto.
Qed.

Lemma block_layer_leafish (D : bytes -> Prop) ps :
  Forall D (block_preimages ps) -> Forall (leafish D) (block_layer (map leafHash ps)).
Proof.
  intros HD. apply Forall_cons in HD as [He HD]. apply Forall_app in HD as [HD _].
  destruct (block_layer_split (map leafHash ps)) as [n ->]. apply Forall_app. split.
  - apply Forall_forall. intros x (p & -> & Hp)%list_elem_of_fmap. exists (LEAF_PREFIX ++ p).
    split; [done|]. split; [|done]. rewrite Forall_forall in HD. apply HD, list_elem_of_fmap. eauto.
  - apply Forall_replicate. by exists empty_preimage.
Qed.

(** The block root binds the ordered list of leaf preimages. *)
Lemma block_root_preimages (D : bytes -> Prop) ps qs : collision_free D ->
  Forall D (block_preimages ps) -> Forall D (block_preimages qs) ->
  blockMerkleRoot (map leafHash ps) = blockMerkleRoot (map leafHash qs) -> ps = qs.
Proof.
  intros Hcf HD HD' He.
  pose proof (block_layer_leafish D ps HD) as Hf. pose proof (block_layer_leafish D qs HD') as Hf'.
  destruct (block_layer_root (map leafHash ps)) as (h & Hl & Hr).
  destruct (block_layer_root (map leafHash qs)) as (h' & Hl' & Hr'). rewrite Hr, Hr' in He.
  unfold block_preimages in HD, HD'. rewrite Hl in HD. rewrite Hl' in HD'.
  rewrite Nat.log2_pow2 in HD, HD' by lia.
  apply Forall_cons in HD as [HDe HD], HD' as [_ HD'].
  apply Forall_app in HD as [HDp HDr], HD' as [HDq HDr'].
  apply (reduce_binding D Hcf) in He; [|done..].
  destruct (block_layer_split (map leafHash ps)) as [a Ha].
  destruct (block_layer_split (map leafHash qs)) as [b Hb].
  rewrite Ha, Hb in He. by eapply pad_strip.
Qed.

Lemma blockMerkleLeaves_preimages rows leaves : blockMerkleLeaves rows = Ok leaves ->
  exists ps, rmap joinFields (block_fields rows) = Ok ps /\ leaves = map leafHash ps.
Proof.
  unfold blockMerkleLeaves. generalize (block_fields rows). intros fs. revert leaves.
  induction fs as [|f fs IH]; intros leaves; cbn.
  - intros [= <-]. by exists [].
  - rewrite rbind_Ok. intros (l & Hl & Hrest). rewrite rbind_Ok in Hrest.
    destruct Hrest as (ls & Hls & [= <-]). apply rbind_Ok in Hl as (b & Hb & [= <-]).
    destruct (IH _ Hls) as (ps & Hps & ->). exists (b :: ps). rewrite Hb, Hps. done.
Qed.
End BlockBinding.

(** ** Exact sums *)

Lemma split_render v : 0 <= v ->
  split_amount (utf8 (render v)) = (dec_of_nonneg (v / 10 ^ 18), frac18 (v mod 10 ^ 18)).
Proof.
  intros Hv. unfold render, split_amount. rewrite utf8_of_utf8. cbn [app].
  rewrite span_digits_app; [done| |done].
  apply dec_of_nonneg_spec. apply Z.div_pos; lia.
Qed.

Lemma sum_step_units acc a :
  sum_step acc a = match amount_units (js_String a) with
                   | Some v => Ok (acc + v)
                   | None => Throw ("merkle: non-canonical amount " +:+ js_String a)
                   end.
Proof.
  unfold sum_step. rewrite canonicalAmount_units.
  destruct (amount_units (js_String a)) as [v|] eqn:Ev; cbn [rbind]; [|done].
  pose proof (amount_units_nonneg _ _ Ev) as Hv. rewrite split_render by done.
  pose proof (Z.mod_pos_bound v (10 ^ 18) ltac:(lia)).
  destruct (dec_of_nonneg_spec (v / 10 ^ 18)) as [_ ->]; [apply Z.div_pos; lia|].
  destruct (frac18_spec (v mod 10 ^ 18)) as (_ & _ & ->); [done|].
  do 2 f_equal. rewrite (Z.div_mod v (10 ^ 18)) at 3 by lia. lia.
Qed.

(** The value of a list of amounts. *)
Definition sum_units (l : list jsval) : option Z :=
  foldr (fun a acc => v ← amount_units (js_String a); s ← acc; Some (v + s)) (Some 0) l.

Lemma rfold_sum_units l acc :
  match sum_units l with
  | Some s => rfold sum_step acc l = Ok (acc + s)
  | None => exists m, rfold sum_step acc l = Throw m
  end.
Proof.
  revert acc; induction l as [|a l IH]; intros acc; cbn [sum_units foldr rfold]; [by rewrite Z.add_0_r|].
  rewrite sum_step_units. destruct (amount_units (js_String a)) as [v|]; cbn; [|eauto].
  specialize (IH (acc + v)). unfold sum_units in IH. destruct (foldr _ _ l) as [s|]; cbn.
  - rewrite IH. f_equal. lia.
  - exact IH.
Qed.

Lemma sum_units_nonneg l s : sum_units l = Some s -> 0 <= s.
Proof.
  revert s; induction l as [|a l IH]; intros s; cbn; [intros [= <-]; lia|].
  destruct (amount_units (js_String a)) as [v|] eqn:Ev; cbn; [|done].
  unfold sum_units in IH. destruct (foldr _ _ l) as [t|]; cbn; [|done]. intros [= <-].
  apply amount_units_nonneg in Ev. specialize (IH t eq_refl). lia.
Qed.

Lemma render_digits acc : 0 <= acc ->
  let s := dec_of acc in
  of_utf8 (strip_zeros (if Nat.ltb 18 (length s) then take (length s - 18) s else [c_zero])
           ++ [c_dot] ++ (if Nat.ltb 18 (length s) then drop (length s - 18) s else pad_start 18 s))
  = render acc.
Proof.
  intros Ha s. unfold render. f_equal.
  destruct (dec_of_nonneg_spec acc Ha) as [Hd Hv].
  assert (s = dec_of_nonneg acc) as Es by (unfold s, dec_of; destruct (acc <? 0) eqn:E; js_simpl; [lia|done]).
  rewrite <- Es in Hd, Hv. destruct (Nat.ltb 18 (length s)) eqn:El.
  - apply Nat.ltb_lt in El. set (n := (length s - 18)%nat).
    rewrite <- (take_drop n s), Forall_app in Hd. destruct Hd as [Ht Hdr].
    assert (length (drop n s) = 18%nat) as Hl18 by (rewrite length_drop; lia).
    assert (take n s <> []) as Hne by (intros Hn; apply (f_equal length) in Hn; rewrite length_take in Hn; cbn in Hn; lia).
    pose proof (dec_val_range _ Hdr) as Hr. rewrite Hl18 in Hr.
    rewrite <- (take_drop n s), dec_val_app, Hl18 in Hv. change (Z.of_nat 18) with 18 in *.
    destruct (units_divmod (dec_val (take n s)) (dec_val (drop n s)) Hr) as [H1 H2].
    rewrite Hv in H1, H2. rewrite H1, H2, dec_of_nonneg_val by done. unfold frac18.
    rewrite pad_start_strip by (done || by (intros Hn; rewrite Hn in Hl18)). done.
  - apply Nat.ltb_ge in El. pose proof (dec_val_range s Hd) as Hr. rewrite Hv in Hr.
    assert (10 ^ Z.of_nat (length s) <= 10 ^ 18) by (apply Z.pow_le_mono_r; lia).
    rewrite Z.div_small, Z.mod_small by lia. unfold frac18. rewrite <- Es. done.
Qed.

(** ** Properties *)
#[local] Strategy opaque [SMT_DEPTH].

(** Inclusion proofs of the fixed tree verify: for every non-empty leaf
    vector and index in range, [fixedMerkleProof] succeeds, has logarithmic
    length, and [verifyFixedMerkleProof] accepts it for the leaf at the index;
    out of range it throws. *)
Theorem fixedMerkleProof_complete `{HashFn} leaves index :
  match fixedMerkleProof leaves index with
  | Ok p => exists leaf, leaves !! Z.to_nat index = Some leaf /\ findex p = index
      /\ nextPow2 (length leaves) = (2 ^ length (fsiblings p))%nat
      /\ verifyFixedMerkleProof (Buf (fixedMerkleRoot leaves)) leaf (Z.to_nat index)
           (map Hex (fsiblings p)) = true
  | Throw _ => index < 0 \/ Z.of_nat (length leaves) <= index
  end.
Proof.
  unfold fixedMerkleProof. destruct (_ || _) eqn:E; js_simpl; [lia|].
  assert (leaves <> []) as Hne by (intros ->; cbn in *; lia).
  destruct (lookup_lt_is_Some_2 leaves (Z.to_nat index)) as [leaf Hleaf]; [lia|].
  destruct (fixedMerkleRoot_reduce leaves Hne) as (h & Hl & Hle & Hr).
  destruct (proof_loop_complete h (length (pad_layer (map toBuf leaves))) (pad_layer (map toBuf leaves)) (Z.to_nat index) Hl)
    as [Hpl Hpv]; [by rewrite Hl | lia |].
  exists leaf. cbn [findex fsiblings]. split; [done|]. split; [done|]. split.
  - rewrite Hpl. destruct (pad_layer_length (map toBuf leaves)) as (h' & Hl' & _ & Hn).
    rewrite length_map in Hn. by rewrite Hn, <- Hl'.
  - unfold verifyFixedMerkleProof. apply bool_decide_eq_true. cbn [toHex]. f_equal.
    rewrite Hr, <- Hpv. f_equal. symmetry. apply nth_lookup_Some with (d := []).
    unfold pad_layer. apply lookup_app_l_Some. by rewrite list_lookup_fmap, Hleaf.
Qed.

(** Sub-root proofs bind: if a proof of three siblings for the position of a
    named sub-tree verifies against [stateRoot subRoots], the proved 32-byte root
    is the one committed under that name (the empty root when the slot is
    absent), provided the hashed preimages do not collide. *)
Theorem stateRoot_binding `{HashFn} (D : bytes -> Prop) subRoots name idx (leaf : bytes) siblings :
  let layer := pad_layer (map (sub_root_leaf subRoots) STATE_SUBTREES) in
  collision_free D -> index_of name STATE_SUBTREES = Some idx ->
  Forall (fun b => length b = 32%nat) (map (sub_root_leaf subRoots) STATE_SUBTREES) ->
  length leaf = 32%nat -> length siblings = 3%nat ->
  Forall D (reduce_preimages 3 layer) -> Forall D (verify_preimages leaf idx siblings) ->
  verifyFixedMerkleProof (Buf (stateRoot subRoots)) (Buf leaf) idx siblings = true ->
  leaf = sub_root_leaf subRoots name.
Proof.
  intros layer Hcf Hidx H32 Hleaf Hsib HD HD' Hv. unfold verifyFixedMerkleProof in Hv. js_simpl.
  apply (inj hex_encode) in Hv. cbn [toBuf] in Hv.
  assert (length layer = 2 ^ 3)%nat as Hl by reflexivity.
  assert (stateRoot subRoots = reduce 3 layer) as Hr.
  { unfold stateRoot. destruct (fixedMerkleRoot_reduce
      (map (fun name => Buf (sub_root_leaf subRoots name)) STATE_SUBTREES)) as (h & Hlh & _ & ->); [done|].
    rewrite map_map in *. cbn [toBuf] in *. change (length _) with 8%nat in Hlh.
    change 8%nat with (2 ^ 3)%nat in Hlh. apply Nat.pow_inj_r in Hlh; [|lia]. by subst h. }
  rewrite Hr in Hv.
  eapply verify_loop_binding in Hv; try eassumption.
  - rewrite Hv. unfold layer. cbn [index_of STATE_SUBTREES] in Hidx.
    repeat (destruct (decide _) as [->|]; [injection Hidx as <-; reflexivity|]). discriminate Hidx.
  - apply Forall_app. split; [done|]. apply Forall_replicate, EMPTY_length.
Qed.

(** The block root binds the block's content: two row sets with the same
    [block_merkle_root] have the same rows, field text by field text, in the
    same tables and the same order, even when they differ in number, provided
    the preimages hashed for the two roots do not collide. *)
Theorem blockMerkleRoot_binding `{HashFn} (D : bytes -> Prop) rows rows' leaves leaves' ps ps' :
  blockMerkleLeaves rows = Ok leaves -> blockMerkleLeaves rows' = Ok leaves' ->
  rmap joinFields (block_fields rows) = Ok ps -> rmap joinFields (block_fields rows') = Ok ps' ->
  collision_free D -> Forall D (block_preimages ps) -> Forall D (block_preimages ps') ->
  blockMerkleRoot leaves = blockMerkleRoot leaves' ->
  map (map js_String) (block_fields rows) = map (map js_String) (block_fields rows').
Proof.
  intros Hb Hb' Hps Hps' Hcf HD HD' He.
  apply blockMerkleLeaves_preimages in Hb as (qs & Hqs & ->), Hb' as (qs' & Hqs' & ->).
  rewrite Hps in Hqs. rewrite Hps' in Hqs'. injection Hqs as <-. injection Hqs' as <-.
  apply (block_root_preimages D) in He; [subst ps'|done..].
  rewrite rmap_Ok in Hps, Hps'.
  assert (forall r, Forall (fun f => f <> []) (block_fields r)) as Hne.
  { intros r. unfold block_fields. rewrite !Forall_app, !Forall_fmap.
    repeat split; apply Forall_true; intros; discriminate. }
  pose proof (Hne rows) as Hn. pose proof (Hne rows') as Hn'. clear Hne HD HD'.
  revert Hn' Hps'. generalize (block_fields rows'). revert Hn.
  induction Hps as [|f p fs ps Hf Hfs IH]; intros Hn fs' Hn' Hfs'; inversion Hfs'; subst; [done|].
  apply Forall_cons in Hn as [? ?], Hn' as [? ?]. cbn [map]. f_equal; [|eauto].
  by eapply joinFields_inj.
Qed.

(** [sumCanonicalAmounts] is exact: on amounts of the grammar it returns the
    canonical text of the sum of their values, and it throws if any amount is
    outside the grammar. *)
Theorem sumCanonicalAmounts_exact amounts :
  match sum_units amounts with
  | Some total => sumCanonicalAmounts amounts = Ok (render total)
  | None => exists m, sumCanonicalAmounts amounts = Throw m
  end.
Proof.
  unfold sumCanonicalAmounts. pose proof (rfold_sum_units amounts 0) as Hs.
  destruct (sum_units amounts) as [total|] eqn:E.
  - rewrite Hs. cbn [rbind]. f_equal. apply (render_digits total). by eapply sum_units_nonneg.
  - destruct Hs as [m ->]. by exists m.
Qed.

(** ** Witnesses *)
Definition ex_sub_roots : sub_roots :=
  zip STATE_SUBTREES (map (fun b => hex_encode (replicate 32 b)) [Byte.x01; Byte.x02; Byte.x03; Byte.x04; Byte.x05]).
Definition ex_sub_siblings : list bufhex :=
  match stateRootProof (H := node_crypto) ex_sub_roots "ownership_root" with
  | Ok p => map Hex (fsiblings p)
  | Throw _ => []
  end.
Definition ex_sub_leaf : bytes := replicate 32 Byte.x03.
Definition ex_sub_preimages : list bytes :=
  reduce_preimages (H := node_crypto) 3
    (pad_layer (H := node_crypto) (map (sub_root_leaf (H := node_crypto) ex_sub_roots) STATE_SUBTREES))
  ++ verify_preimages (H := node_crypto) ex_sub_leaf 2 ex_sub_siblings.

Lemma stateRoot_binding_witness :
  ex_sub_leaf = sub_root_leaf (H := node_crypto) ex_sub_roots "ownership_root".
Proof.
  apply (stateRoot_binding (H := node_crypto) (fun x => x ∈ ex_sub_preimages) ex_sub_roots
           "ownership_root" 2 ex_sub_leaf ex_sub_siblings).
  - apply (collision_free_list_sound (H := node_crypto)). vm_compute. reflexivity.
  - reflexivity.
  - repeat constructor.
  - reflexivity.
  - reflexivity.
  - apply Forall_forall. intros x Hx. apply elem_of_app. by left.
  - apply Forall_forall. intros x Hx. apply elem_of_app. by right.
  - vm_compute. reflexivity.
Defined.

Definition ex_rows (status : jsval) : block_rows :=
  BlockRows [LedgerRow (JInt 7) (JStr "addr1") (JStr "XCHAIN") (JStr "1000.5")]
    [LedgerRow (JInt 7) JNull (JStr "XCHAIN") (JStr "2")] []
    [ActionRow (JInt 7) (JInt 3) (JStr "SEND")] [ContractRow (JInt 8) (JStr "addr1") (JStr "ab") status]
    [] [] [] [] [].
Definition ex_row_preimages (status : jsval) : list bytes :=
  match rmap joinFields (block_fields (ex_rows status)) with Ok ps => ps | Throw _ => [] end.
Definition ex_row_leaves (status : jsval) : list bytes := map (leafHash (H := node_crypto)) (ex_row_preimages status).

(** A null status and an empty one are the same content. *)
Lemma blockMerkleRoot_binding_witness :
  map (map js_String) (block_fields (ex_rows JNull)) = map (map js_String) (block_fields (ex_rows (JStr ""))).
Proof.
  apply (blockMerkleRoot_binding (H := node_crypto)
    (fun x => x ∈ block_preimages (H := node_crypto) (ex_row_preimages JNull))
    _ _ (ex_row_leaves JNull) (ex_row_leaves (JStr "")) (ex_row_preimages JNull) (ex_row_preimages (JStr ""))).
  - vm_compute. reflexivity.
  - vm_compute. reflexivity.
  - vm_compute. reflexivity.
  - vm_compute. reflexivity.
  - apply (collision_free_list_sound (H := node_crypto)). vm_compute. reflexivity.
  - apply Forall_forall. intros x Hx. exact Hx.
  - apply Forall_forall. intros x Hx. exact Hx.
  - vm_compute. reflexivity.
Defined.
