(* ===== verification/NodeStore.v ===== *)
(** * NodeStore: the content-addressed node stores of the persistent tree

    Models [DbNodeStore] and [MemoryNodeStore] of
    [src/src/state_commitment/index.js] with the statements of
    [src/src/db/subtree/node_store_rows.js].  The interface the tree engine is
    proved against is the class [NodeStore] (the operations, [putMany] optional
    as in the source) with [NodeStoreLaws] (what each operation does to the
    table of rows): a read returns the row of a hash or throws, and a write
    keeps the row a hash already has.  Both stores discharge the laws; the
    database store throws on every statement while its connection is failing
    ([doQueryStrict]), so a failed read is never taken for an absent row. *)

From S2P Require Import Prelude JsMap.

Record node_row := Row { left_hash : string; right_hash : string }.
Record node := Node { n_hash : string; n_left : string; n_right : string }.

#[global] Instance node_row_eq_dec : EqDecision node_row.
Proof. solve_decision. Defined.

(** ** The interface *)
Class NodeStore (S : Type) := {
  ns_get : string -> S -> result (option node_row);
  ns_put : string -> string -> string -> S -> result S;
  ns_putMany : option (list node -> S -> result S);
}.

(** [INSERT IGNORE] under the unique key [node_hash]. *)
Definition put_row (m : gmap string node_row) (n : node) : gmap string node_row :=
  match m !! n_hash n with
  | Some _ => m
  | None => <[n_hash n := Row (n_left n) (n_right n)]> m
  end.
Definition put_rows (m : gmap string node_row) (ns : list node) : gmap string node_row :=
  fold_left put_row ns m.

Class NodeStoreLaws (S : Type) `{NodeStore S} := {
  ns_rows : S -> gmap string node_row;
  ns_up : S -> bool;
  ns_get_sound : forall h s r, ns_get h s = Ok r -> r = ns_rows s !! h;
  ns_put_sound : forall h l r s s', ns_put h l r s = Ok s' ->
    ns_rows s' = put_row (ns_rows s) (Node h l r);
  ns_putMany_sound : forall f ns s s', ns_putMany = Some f -> f ns s = Ok s' ->
    ns_rows s' = put_rows (ns_rows s) ns;
  ns_get_up : forall h s, ns_up s = true -> exists r, ns_get h s = Ok r;
  ns_put_up : forall h l r s, ns_up s = true -> exists s', ns_put h l r s = Ok s' /\ ns_up s' = true;
  ns_putMany_up : forall f ns s, ns_putMany = Some f -> ns_up s = true ->
    exists s', f ns s = Ok s' /\ ns_up s' = true;
}.

(** Rows are never changed or removed. *)
Lemma put_row_sub m n : m ⊆ put_row m n.
Proof.
  unfold put_row. destruct (m !! n_hash n) eqn:E; [done|]. by apply insert_subseteq.
Qed.

Lemma put_rows_sub ns m : m ⊆ put_rows m ns.
Proof.
  revert m; induction ns as [|n ns IH]; intros m; [done|]. cbn.
  etrans; [apply (put_row_sub m n) | apply IH].
Qed.

Lemma put_row_inv m n h r : put_row m n !! h = Some r ->
  m !! h = Some r \/ (h = n_hash n /\ r = Row (n_left n) (n_right n)).
Proof.
  unfold put_row. destruct (m !! n_hash n) eqn:E; [by left|].
  rewrite lookup_insert_Some. intros [[<- <-]|[_ Hr]]; auto.
Qed.

Lemma put_rows_inv ns m h r : put_rows m ns !! h = Some r ->
  m !! h = Some r \/ exists n, n ∈ ns /\ h = n_hash n /\ r = Row (n_left n) (n_right n).
Proof.
  revert m; induction ns as [|n ns IH]; intros m; cbn; [by left|].
  intros [Hp|(n' & Hin & Hh)]%IH; [|right; exists n'; split; [by right|done]].
  apply put_row_inv in Hp as [Hp|Hn]; [by left|]. right. exists n. split; [by left|done].
Qed.

(** Every hash of the batch has a row afterwards. *)
Lemma put_rows_has ns m n : n ∈ ns -> is_Some (put_rows m ns !! n_hash n).
Proof.
  revert m; induction ns as [|n' ns IH]; intros m; cbn; [by intros ?%not_elem_of_nil|].
  rewrite elem_of_cons. intros [<-|Hin]; [|by apply IH].
  assert (is_Some (put_row m n !! n_hash n)) as [r Hr].
  { unfold put_row. destruct (m !! n_hash n) eqn:E; [by rewrite E|]. by rewrite lookup_insert_eq. }
  exists r. eapply lookup_weaken; [exact Hr | apply put_rows_sub].
Qed.

(** ** class MemoryNodeStore *)
Record memory_store := MemoryStore { mem_map : jsmap string node_row }.

Definition mem_get (h : string) (s : memory_store) : result (option node_row) :=
  Ok (if jm_has h (mem_map s) then jm_get h (mem_map s) else None).
Definition mem_put_one (s : memory_store) (n : node) : memory_store :=
  if jm_has (n_hash n) (mem_map s) then s
  else MemoryStore (jm_set (n_hash n) (Row (n_left n) (n_right n)) (mem_map s)).
Definition mem_put (h l r : string) (s : memory_store) : result memory_store := Ok (mem_put_one s (Node h l r)).
Definition mem_putMany (ns : list node) (s : memory_store) : result memory_store :=
  rfold (fun s n => mem_put (n_hash n) (n_left n) (n_right n) s) s ns.
Definition mem_size (s : memory_store) : nat := length (mem_map s).

#[global] Instance MemoryNodeStore : NodeStore memory_store := {
  ns_get := mem_get; ns_put := mem_put; ns_putMany := Some mem_putMany }.

(** ** class DbNodeStore

    The table [state_tree_nodes] in insertion order, and the error every
    statement raises while the connection fails. *)
Record node_table := NodeTable { state_tree_nodes : list node; db_fault : option string }.

Definition doQueryStrict {A} (db : node_table) (answer : A) : result A :=
  match db_fault db with
  | Some e => Throw e
  | None => Ok answer
  end.

Definition NODE_PUT_CHUNK : nat := 128.

Definition row_of (n : node) : node_row := Row (n_left n) (n_right n).
Definition same_hash (h : string) (n : node) : bool := bool_decide (n_hash n = h).

Definition selectNodeRow (nodeHashHex : string) (db : node_table) : result (list node_row) :=
  doQueryStrict db (take 1 (map row_of (List.filter (same_hash nodeHashHex) (state_tree_nodes db)))).

(** One value of an [INSERT IGNORE]. *)
Definition insert_ignore (t : list node) (n : node) : list node :=
  if existsb (same_hash (n_hash n)) t then t else t ++ [n].

Definition insertNodeRow (h l r : string) (db : node_table) : result node_table :=
  doQueryStrict db (NodeTable (insert_ignore (state_tree_nodes db) (Node h l r)) (db_fault db)).
Definition insertNodeRows (chunk : list node) (db : node_table) : result node_table :=
  doQueryStrict db (NodeTable (fold_left insert_ignore chunk (state_tree_nodes db)) (db_fault db)).

Definition db_get (h : string) (db : node_table) : result (option node_row) :=
  let! rows := selectNodeRow h db in Ok (head rows).
Definition db_put (h l r : string) (db : node_table) : result node_table := insertNodeRow h l r db.

(** [for(let i = 0; i < nodes.length; i += NODE_PUT_CHUNK)]; every round drops a
    non-empty chunk, so the length is enough fuel. *)
Fixpoint db_putMany_loop (fuel : nat) (nodes : list node) (db : node_table) : result node_table :=
  match fuel, nodes with
  | _, [] => Ok db
  | O, _ => Ok db
  | S fuel', _ =>
      let! db' := insertNodeRows (take NODE_PUT_CHUNK nodes) db in
      db_putMany_loop fuel' (drop NODE_PUT_CHUNK nodes) db'
  end.
Definition db_putMany (nodes : list node) (db : node_table) : result node_table :=
  db_putMany_loop (length nodes) nodes db.

#[global] Instance DbNodeStore : NodeStore node_table := {
  ns_get := db_get; ns_put := db_put; ns_putMany := Some db_putMany }.

(** ** The stores satisfy the interface *)

Lemma list_to_map_jm (m : jsmap string node_row) h :
  (list_to_map m : gmap string node_row) !! h = jm_get h m.
Proof.
  induction m as [|[k v] m IH]; cbn; [by rewrite lookup_empty|].
  destruct (decide (h = k)) as [->|]; [by rewrite lookup_insert_eq|]. by rewrite lookup_insert_ne.
Qed.

Definition mem_rows (s : memory_store) : gmap string node_row := list_to_map (mem_map s).

Lemma mem_put_rows s n : mem_rows (mem_put_one s n) = put_row (mem_rows s) n.
Proof.
  unfold mem_put_one, put_row, jm_has, mem_rows. rewrite list_to_map_jm.
  destruct (jm_get (n_hash n) (mem_map s)) eqn:E; [done|]. apply map_eq. intros h. cbn [mem_map].
  rewrite list_to_map_jm. destruct (decide (h = n_hash n)) as [->|Hne].
  - by rewrite jm_get_set_eq, lookup_insert_eq.
  - by rewrite jm_get_set_ne, lookup_insert_ne, list_to_map_jm.
Qed.

Lemma mem_putMany_fold ns s : mem_putMany ns s = Ok (fold_left mem_put_one ns s).
Proof. unfold mem_putMany. revert s; induction ns as [|[h l r] ns IH]; intros s; cbn; [done|apply IH]. Qed.

#[global] Instance memory_store_laws : NodeStoreLaws memory_store.
Proof.
  refine {| ns_rows := mem_rows; ns_up := fun _ => true |}; cbn.
  - unfold mem_get, jm_has, mem_rows. intros h s r [= <-]. rewrite list_to_map_jm. by destruct (jm_get h (mem_map s)).
  - unfold mem_put. intros h l r s s' [= <-]. apply mem_put_rows.
  - intros f ns s s' [= <-]. rewrite mem_putMany_fold. intros [= <-].
    revert s; induction ns as [|n ns IH]; intros s; cbn; [done|]. by rewrite IH, mem_put_rows.
  - unfold mem_get. eauto.
  - unfold mem_put. eauto.
  - intros f ns s [= <-] _. rewrite mem_putMany_fold. eauto.
Defined.

Definition table_rows (t : list node) : gmap string node_row :=
  list_to_map (map (fun n => (n_hash n, row_of n)) t).

Lemma table_rows_filter t h :
  head (map row_of (List.filter (same_hash h) t)) = table_rows t !! h.
Proof.
  induction t as [|n t IH]; cbn; [by rewrite lookup_empty|]. unfold same_hash at 1.
  case_bool_decide as E; cbn.
  - by rewrite E, lookup_insert_eq.
  - by rewrite lookup_insert_ne.
Qed.

Lemma table_rows_exists t h : existsb (same_hash h) t = true <-> is_Some (table_rows t !! h).
Proof.
  induction t as [|n t IH]; cbn; [rewrite lookup_empty; split; [done|by intros [? ?]]|].
  unfold same_hash at 1. case_bool_decide as E; cbn.
  - rewrite E, lookup_insert_eq. naive_solver.
  - by rewrite lookup_insert_ne.
Qed.

Lemma insert_ignore_rows t n : table_rows (insert_ignore t n) = put_row (table_rows t) n.
Proof.
  unfold insert_ignore, put_row. destruct (existsb (same_hash (n_hash n)) t) eqn:E.
  - apply table_rows_exists in E as [r ->]. done.
  - destruct (table_rows t !! n_hash n) as [r|] eqn:Er.
    { assert (existsb (same_hash (n_hash n)) t = true) by (apply table_rows_exists; by exists r). congruence. }
    unfold table_rows in *. rewrite map_app, list_to_map_app. cbn.
    rewrite insert_empty. rewrite <- insert_union_singleton_r; [done|exact Er].
Qed.

Lemma insert_ignore_fold ns t : table_rows (fold_left insert_ignore ns t) = put_rows (table_rows t) ns.
Proof. revert t; induction ns as [|n ns IH]; intros t; cbn [fold_left put_rows]; [done|].
  unfold put_rows in *. cbn [fold_left]. by rewrite IH, insert_ignore_rows. Qed.

(** Chunking does not change the rows written. *)
Lemma db_putMany_loop_spec fuel ns db : (length ns <= fuel)%nat -> db_fault db = None ->
  db_putMany_loop fuel ns db = Ok (NodeTable (fold_left insert_ignore ns (state_tree_nodes db)) None).
Proof.
  revert ns db; induction fuel as [|fuel IH]; intros ns [t f] Hl; cbn [db_fault]; intros ->.
  - destruct ns; [done|]. cbn in Hl. lia.
  - destruct ns as [|n ns]; [done|]. cbn [db_putMany_loop rbind insertNodeRows doQueryStrict db_fault state_tree_nodes].
    rewrite IH; [|rewrite length_drop; cbn in *; unfold NODE_PUT_CHUNK; lia|done].
    cbn [state_tree_nodes]. rewrite <- fold_left_app, take_drop. done.
Qed.

Lemma db_putMany_fault ns db e : db_fault db = Some e -> ns <> [] -> db_putMany ns db = Throw e.
Proof.
  destruct ns as [|n ns]; [done|]. intros He _. unfold db_putMany. cbn [length db_putMany_loop].
  unfold insertNodeRows, doQueryStrict. by rewrite He.
Qed.

#[global] Instance node_table_laws : NodeStoreLaws node_table.
Proof.
  refine {| ns_rows := fun db => table_rows (state_tree_nodes db);
            ns_up := fun db => match db_fault db with None => true | Some _ => false end |}; cbn.
  - unfold db_get, selectNodeRow, doQueryStrict. intros h db r. destruct (db_fault db); cbn; [done|].
    intros [= <-]. rewrite <- table_rows_filter. by destruct (map _ _).
  - unfold db_put, insertNodeRow, doQueryStrict. intros h l r db db'. destruct (db_fault db); [done|].
    intros [= <-]. apply insert_ignore_rows.
  - intros f ns db db' [= <-] Hp. destruct (db_fault db) as [e|] eqn:Ef.
    + destruct ns as [|n ns]; [by injection Hp as <-|]. by rewrite (db_putMany_fault _ _ e) in Hp.
    + unfold db_putMany in Hp. rewrite db_putMany_loop_spec in Hp by done. injection Hp as <-.
      apply insert_ignore_fold.
  - unfold db_get, selectNodeRow, doQueryStrict. intros h db. destruct (db_fault db); [done|]. cbn. eauto.
  - unfold db_put, insertNodeRow, doQueryStrict. intros h l r db. destruct (db_fault db) eqn:E; [done|].
    intros _. eexists. split; [done|]. done.
  - intros f ns db [= <-]. destruct (db_fault db) eqn:E; [done|]. intros _.
    unfold db_putMany. rewrite db_putMany_loop_spec by done. eauto.
Defined.
