(* ===== verification/PersistentSMT.v ===== *)
(** * PersistentSMT: the copy-on-write tree over a node store

    Models [class PersistentSMT] of [src/src/state_commitment/index.js]
    ([descend], [putBatch], [update], [buildFull], [prove]) against the
    [NodeStore] interface, and proves that it refines the in-memory reference
    tree of SparseMerkle.  [repr s root t] says that the store holds the whole
    tree of the leaf set [t] under [root]; an update returns the root of the
    updated leaf set, keeps every root that was represented, and a proof read
    from the store is the reference tree's proof.  The hypotheses are the
    store's own invariant (rows are addressed by the hash of their children) and
    that no two preimages of an explicit set [D] collide. *)

From S2P Require Import Prelude Sha256 JsText JsMap Primitives SparseMerkle NodeStore.

Section Engine.
Context `{HashFn} {S : Type} `{NodeStore S}.

Definition EMPTY_ROOT_HEX : string := toHex (Buf EMPTY_SMT_ROOT).
Definition EMPTY0_HEX : string := toHex (Buf (EMPTY 0)).

(** The loop of [descend] for the depths [SMT_DEPTH - h .. SMT_DEPTH - 1]: the
    remaining siblings and the leaf reached. *)
Fixpoint descend_loop (k : bytes) (h : nat) (cur : string) (empty : bool) (s : S)
  : result (list string * string) :=
  match h with
  | O => Ok ([], if empty then EMPTY0_HEX else cur)
  | Datatypes.S h' =>
      let d := (SMT_DEPTH - h)%nat in
      let sibEmptyHex := toHex (Buf (EMPTY (SMT_DEPTH - 1 - d))) in
      if empty then
        let! rest := descend_loop k h' cur true s in Ok (sibEmptyHex :: rest.1, rest.2)
      else
        let! row := ns_get cur s in
        match row with
        | None => let! rest := descend_loop k h' cur true s in Ok (sibEmptyHex :: rest.1, rest.2)
        | Some row =>
            let sib := if bitAt k d =? 0 then right_hash row else left_hash row in
            let cur' := if bitAt k d =? 0 then left_hash row else right_hash row in
            let! rest := descend_loop k h' cur' false s in Ok (sib :: rest.1, rest.2)
        end
  end.
Definition descend (rootHex : string) (keyBuf : bytes) (s : S) : result (list string * string) :=
  descend_loop keyBuf SMT_DEPTH rootHex false s.

Definition putBatch (nodes : list node) (s : S) : result S :=
  match ns_putMany with
  | Some putMany => putMany nodes s
  | None => rfold (fun s n => ns_put (n_hash n) (n_left n) (n_right n) s) s nodes
  end.

(** The climb of [update] above depth [d]: the new hash and the pending rows,
    deepest first.  The loop runs from the deepest level up. *)
Fixpoint update_loop (k : bytes) (d : nat) (siblings : list string) (cur : string) : string * list node :=
  match siblings with
  | [] => (cur, [])
  | sib :: rest =>
      let '(cur, pending) := update_loop k (Datatypes.S d) rest cur in
      let left := if bitAt k d =? 0 then cur else sib in
      let right := if bitAt k d =? 0 then sib else cur in
      let parent := toHex (Buf (nodeHash (Hex left) (Hex right))) in
      (parent,
       if bool_decide (parent = toHex (Buf (EMPTY (SMT_DEPTH - d)))) then pending
       else pending ++ [Node parent left right])
  end.

Definition update (rootHex : string) (keyBuf : bytes) (newLeafHexOrNull : option string) (s : S)
  : result (S * string) :=
  let! path := descend rootHex keyBuf s in
  let '(cur, pending) := update_loop keyBuf 0 path.1 (default EMPTY0_HEX newLeafHexOrNull) in
  let! s' := (match pending with [] => Ok s | _ => putBatch pending s end) in
  Ok (s', cur).

(** Threading a root through a list of updates, as [buildFull] and the per-block
    recomputations do. *)
Definition update_step (st : S * string) (kv : string * option string) : result (S * string) :=
  update st.2 (toBuf (Hex kv.1)) kv.2 st.1.

Definition buildFull (entries : list (string * string)) (s : S) : result (S * string) :=
  rfold (fun st e => update_step st (e.1, Some e.2)) (s, EMPTY_ROOT_HEX) entries.

Definition prove (rootHex : string) (keyBuf : bytes) (s : S) : result smt_proof :=
  let! path := descend rootHex keyBuf s in
  let '(siblings, oldLeaf) := path in
  let present := negb (bool_decide (oldLeaf = EMPTY0_HEX)) in
  let! c := compressSmtProof (map Hex siblings) in
  Ok (SmtProof (toHex (Buf keyBuf)) (if present then Some oldLeaf else None) siblings c).
End Engine.

#[local] Strategy opaque [SMT_DEPTH].

(** ** What the store holds *)
Section Stored.
Context `{HashFn}.

Notation hx := hex_encode.

(** Every non-empty node of the tree of [es] (of height [h]) has its row. *)
Fixpoint stored (m : gmap string node_row) (h : nat) (es : list entry) : Prop :=
  match h with
  | O => True
  | S h' =>
      let l := side false (SMT_DEPTH - h) es in
      let r := side true (SMT_DEPTH - h) es in
      es = [] \/
      (m !! hx (smtNode h es) = Some (Row (hx (smtNode h' l)) (hx (smtNode h' r)))
       /\ stored m h' l /\ stored m h' r)
  end.

(** Rows are addressed by the hash of their two 32-byte children, and their
    preimages are in [D]. *)
Definition addressed (D : bytes -> Prop) (m : gmap string node_row) : Prop :=
  forall x row, m !! x = Some row -> exists a b,
    length a = 32%nat /\ length b = 32%nat /\ row = Row (hx a) (hx b)
    /\ x = hx (nodeHash (Buf a) (Buf b)) /\ D (node_preimage a b).

(** The preimages of the empty-subtree constants are in [D]. *)
Definition empties_in (D : bytes -> Prop) : Prop :=
  forall h, (h < SMT_DEPTH)%nat -> D (node_preimage (EMPTY h) (EMPTY h)).

Lemma stored_nil m h : stored m h [].
Proof. destruct h; cbn; auto. Qed.

Lemma stored_mono m m' h es : m ⊆ m' -> stored m h es -> stored m' h es.
Proof.
  intros Hm. revert es; induction h as [|h IH]; intros es; cbn [stored]; [done|].
  intros [->|(Hr & Hl & Hrt)]; [by left|]. right. split_and!; eauto using lookup_weaken.
Qed.

Lemma agree_step h b es : (S h <= SMT_DEPTH)%nat -> agree (SMT_DEPTH - S h) es ->
  agree (SMT_DEPTH - h) (side b (SMT_DEPTH - S h) es).
Proof. intros Hh Ha. replace (SMT_DEPTH - h)%nat with (S (SMT_DEPTH - S h)) by lia. by apply agree_side. Qed.

Lemma smtNode_length h es : entries_ok es -> length (smtNode h es) = 32%nat.
Proof.
  intros [_ Hf]. destruct es as [|e es]; [rewrite smtNode_nil; apply EMPTY_length|].
  apply Forall_cons in Hf as [[_ Hl] _]. destruct h; [done|]. apply nodeHash_length.
Qed.

Lemma stored_perm m h es es' : (h <= SMT_DEPTH)%nat -> agree (SMT_DEPTH - h) es -> entries_ok es ->
  es ≡ₚ es' -> stored m h es -> stored m h es'.
Proof.
  revert es es'; induction h as [|h IH]; intros es es' Hh Ha Hok Hp; cbn [stored]; [done|].
  intros [->|(Hr & Hl & Hrt)]; [left; by apply Permutation_nil_l in Hp|]. right.
  assert (forall b, smtNode h (side b (SMT_DEPTH - S h) es') = smtNode h (side b (SMT_DEPTH - S h) es)) as He.
  { intros b. symmetry. apply smtNode_perm; auto using side_perm, entries_ok_side, agree_step. lia. }
  rewrite !He. rewrite <- (smtNode_perm (S h) es es') by done.
  split; [done|]. split; eapply IH; eauto using side_perm, entries_ok_side, agree_step; lia.
Qed.

Context (D : bytes -> Prop) (Hcf : collision_free D) (Hempty : empties_in D).

(** A stored row is the pair of children its hash commits to. *)
Lemma addressed_row m x row a b : addressed D m -> m !! x = Some row ->
  length a = 32%nat -> length b = 32%nat -> x = hx (nodeHash (Buf a) (Buf b)) -> D (node_preimage a b) ->
  row = Row (hx a) (hx b).
Proof.
  intros Ha Hx Hla Hlb -> HD. destruct (Ha _ _ Hx) as (a' & b' & Hla' & Hlb' & -> & He & HD').
  apply (inj hex_encode) in He.
  change (sha256 (node_preimage a b) = sha256 (node_preimage a' b')) in He.
  apply Hcf in He; [|done..].
  apply node_preimage_inj in He as [-> ->]; [done|congruence].
Qed.

Lemma EMPTY_row m h row : addressed D m -> (h < SMT_DEPTH)%nat ->
  m !! hx (EMPTY (S h)) = Some row -> row = Row (hx (EMPTY h)) (hx (EMPTY h)).
Proof. intros Ha Hh Hx. eapply addressed_row; eauto using EMPTY_length. Qed.

(** A node is empty only if both its children are. *)
Lemma join_not_EMPTY h es : let d := (SMT_DEPTH - S h)%nat in
  (h < SMT_DEPTH)%nat -> entries_ok es -> es <> [] ->
  (forall b, side b d es <> [] -> smtNode h (side b d es) <> EMPTY h) ->
  D (node_preimage (smtNode h (side false d es)) (smtNode h (side true d es))) ->
  smtNode (S h) es <> EMPTY (S h).
Proof.
  intros d Hh Hok Hne Hsides HD He. rewrite smtNode_S in He. fold d in He.
  change (sha256 (node_preimage (smtNode h (side false d es)) (smtNode h (side true d es)))
          = sha256 (node_preimage (EMPTY h) (EMPTY h))) in He.
  apply Hcf in He; [|done|by apply Hempty].
  apply node_preimage_inj in He as [Hel Her]; [|by rewrite EMPTY_length, smtNode_length by auto using entries_ok_side].
  destruct es as [|e es]; [done|]. apply (Hsides (bit (key e) d)); [|by destruct (bit (key e) d)].
  assert (e ∈ side (bit (key e) d) d (e :: es)) as Hin by (apply elem_of_side; split; [by left|done]).
  intros Hn. rewrite Hn in Hin. by apply not_elem_of_nil in Hin.
Qed.

(** A non-empty stored subtree of real leaves is not mistaken for an empty one. *)
Lemma stored_not_EMPTY m h es : addressed D m -> (h <= SMT_DEPTH)%nat -> entries_ok es ->
  Forall (fun e => leaf e <> EMPTY 0) es -> stored m h es -> es <> [] -> smtNode h es <> EMPTY h.
Proof.
  intros Ha. revert es; induction h as [|h IH]; intros es Hh Hok Hreal Hst Hne.
  - destruct es as [|e es]; [done|]. by apply Forall_cons in Hreal as [Hr _].
  - cbn [stored] in Hst. destruct Hst as [->|(Hr & Hl & Hrt)]; [done|].
    apply join_not_EMPTY; [lia|done|done| |].
    + intros b Hb. apply IH; auto using entries_ok_side, Forall_lfilter; [lia| |by destruct b].
      by apply Forall_lfilter.
    + apply Ha in Hr as (a & b & _ & _ & [= Hea Heb] & _ & HD).
      apply (inj hex_encode) in Hea, Heb. by rewrite Hea, Heb.
Qed.

(** ** Replacing one leaf *)

(** [es] and [es'] hold the same leaves at every key but [k]. *)
Definition same_off (k : bytes) (es es' : list entry) : Prop :=
  forall e, key e <> k -> e ∈ es <-> e ∈ es'.

Lemma same_off_side k b d es es' : same_off k es es' -> same_off k (side b d es) (side b d es').
Proof. intros Hs e He. rewrite !elem_of_side, (Hs e He). done. Qed.

Lemma sibling_perm k d es es' : entries_ok es -> entries_ok es' -> same_off k es es' ->
  side (negb (bit k d)) d es ≡ₚ side (negb (bit k d)) d es'.
Proof.
  intros Hok Hok' Hs.
  assert (forall l, entries_ok l -> NoDup (side (negb (bit k d)) d l)) as Hnd.
  { intros l Hl. apply (entries_ok_side (negb (bit k d)) d) in Hl as [Hn _]. by apply NoDup_fmap_1 in Hn. }
  apply NoDup_Permutation; [auto..|]. intros e. rewrite !elem_of_side.
  split; intros [Hin Hb]; (split; [|done]); apply Hs; auto;
    intros Hk; rewrite Hk in Hb; by destruct (bit k d).
Qed.

(** The siblings of a path do not depend on the leaf at its end. *)
Lemma path_sibs_same k h es es' : (h <= SMT_DEPTH)%nat -> agree (SMT_DEPTH - h) es ->
  entries_ok es -> entries_ok es' -> same_off k es es' -> path_sibs k h es' = path_sibs k h es.
Proof.
  revert es es'; induction h as [|h IH]; intros es es' Hh Ha Hok Hok' Hs; cbn [path_sibs]; [done|].
  f_equal; [|apply IH; auto using entries_ok_side, agree_step, same_off_side; lia].
  symmetry. apply smtNode_perm; auto using entries_ok_side, agree_step, sibling_perm. lia.
Qed.

(** The rows of a climb, deepest first. *)
Fixpoint path_nodes (k : bytes) (d : nat) (sibs : list bytes) (l : bytes) : list node :=
  match sibs with
  | [] => []
  | s :: rest =>
      let c := climb k (S d) (map Buf rest) l in
      let p := climb k d (map Buf sibs) l in
      path_nodes k (S d) rest l ++
      (if bool_decide (p = EMPTY (SMT_DEPTH - d)) then []
       else [if bit k d then Node (hx p) (hx s) (hx c) else Node (hx p) (hx c) (hx s)])
  end.

Lemma bool_decide_hx (a b : bytes) : bool_decide (hx a = hx b) = bool_decide (a = b).
Proof. apply bool_decide_ext. split; [apply (inj hex_encode)|by intros ->]. Qed.

Lemma update_loop_spec k d sibs l :
  update_loop k d (map hx sibs) (hx l) = (hx (climb k d (map Buf sibs) l), path_nodes k d sibs l).
Proof.
  revert d; induction sibs as [|s sibs IH]; intros d; [done|].
  cbn [update_loop map path_nodes]. rewrite IH, !climb_cons. unfold nodeHash.
  cbn [toBuf toHex]. unfold join, nodeHash, bit. destruct (bitAt_01 k d) as [-> | ->]; cbn [Z.eqb negb toBuf];
    rewrite !hex_decode_encode, bool_decide_hx; f_equal; case_bool_decide; by rewrite ?app_nil_r.
Qed.

Lemma path_nodes_addressed k d sibs l n : length l = 32%nat -> Forall (fun s => length s = 32%nat) sibs ->
  Forall D (climb_preimages k d sibs l) -> n ∈ path_nodes k d sibs l -> exists a b,
    length a = 32%nat /\ length b = 32%nat /\ n = Node (hx (nodeHash (Buf a) (Buf b))) (hx a) (hx b)
    /\ D (node_preimage a b).
Proof.
  intros Hl. revert d; induction sibs as [|s sibs IH]; intros d Hs HD; cbn [path_nodes];
    [by intros ?%not_elem_of_nil|].
  apply Forall_cons in Hs as [Hs Hsibs]. cbn [climb_preimages] in HD. apply Forall_cons in HD as [HD1 HD].
  rewrite elem_of_app. intros [Hn|Hn]; [by eapply IH|].
  case_bool_decide; [by apply not_elem_of_nil in Hn|]. apply list_elem_of_singleton in Hn.
  cbn [map] in Hn. rewrite climb_cons in Hn. cbn [toBuf] in Hn. unfold join in Hn.
  pose proof (climb_length k (S d) (map Buf sibs) l Hl). destruct (bit k d); subst n; eauto 10.
Qed.

Lemma addressed_put k d sibs l m : length l = 32%nat -> Forall (fun s => length s = 32%nat) sibs ->
  Forall D (climb_preimages k d sibs l) -> addressed D m ->
  addressed D (put_rows m (path_nodes k d sibs l)).
Proof.
  intros Hl Hs HD Ha x row [Hx|(n & Hn & -> & ->)]%put_rows_inv; [by apply Ha|].
  eapply path_nodes_addressed in Hn as (a & b & ? & ? & -> & ?); eauto 10.
Qed.

Lemma path_sibs_32 k h es : entries_ok es -> Forall (fun s => length s = 32%nat) (path_sibs k h es).
Proof.
  revert es; induction h as [|h IH]; intros es Hok; cbn [path_sibs]; constructor;
    auto using smtNode_length, entries_ok_side.
Qed.

(** The rows of the climb complete the stored tree of the updated leaf set. *)
Lemma stored_update m m' k h es es' :
  let l := smtNode 0 (on_path k h es') in
  let sibs := path_sibs k h es' in
  (h <= SMT_DEPTH)%nat -> agree (SMT_DEPTH - h) es -> entries_ok es -> entries_ok es' -> same_off k es es' ->
  Forall (fun e => leaf e <> EMPTY 0) es' -> m ⊆ m' -> addressed D m' ->
  Forall D (climb_preimages k (SMT_DEPTH - h) sibs l) ->
  (forall n, n ∈ path_nodes k (SMT_DEPTH - h) sibs l -> is_Some (m' !! n_hash n)) ->
  stored m h es -> stored m' h es'.
Proof.
  cbn zeta. revert es es'; induction h as [|h IH];
    intros es es' Hh Ha Hok Hok' Hs Hreal Hm Hadr HD Hrows Hst; [done|].
  cbn [path_sibs on_path climb_preimages path_nodes map] in HD, Hrows.
  set (d := (SMT_DEPTH - S h)%nat) in *. set (b := bit k d) in *.
  replace (S d) with (SMT_DEPTH - h)%nat in HD, Hrows by lia.
  apply Forall_cons in HD as [HD1 HD].
  assert (stored m' h (side b d es')) as Hpath.
  { eapply (IH (side b d es)); eauto using entries_ok_side, same_off_side; try lia.
    - by apply agree_step.
    - by apply Forall_lfilter.
    - intros n Hn. apply Hrows. apply elem_of_app. by left.
    - cbn [stored] in Hst. destruct Hst as [->|(_ & Hl & Hr)]; [apply stored_nil|]. by destruct b. }
  assert (stored m' h (side (negb b) d es')) as Hsib.
  { apply (stored_mono m); [done|]. apply (stored_perm m h (side (negb b) d es)); [lia| | |by apply (sibling_perm k)|].
    - by apply agree_step.
    - auto using entries_ok_side.
    - cbn [stored] in Hst. destruct Hst as [->|(_ & Hl & Hr)]; [apply stored_nil|]. fold d in Hl, Hr.
      by destruct b. }
  cbn [stored]. fold d. destruct (decide (es' = [])) as [|Hne]; [by left|right].
  assert (climb k (SMT_DEPTH - h) (map Buf (path_sibs k h (side b d es')))
            (smtNode 0 (on_path k h (side b d es'))) = smtNode h (side b d es')) as Hcl
    by (symmetry; apply smtNode_climb; lia).
  assert (stored m' h (side false d es') /\ stored m' h (side true d es')) as [Hl Hr] by (by destruct b).
  split; [|done].
  assert (D (node_preimage (smtNode h (side false d es')) (smtNode h (side true d es')))) as HDn.
  { rewrite Hcl in HD1. by destruct b. }
  assert (smtNode (S h) es' <> EMPTY (S h)) as He.
  { apply join_not_EMPTY; [lia|done|done| |done]. fold d. intros c Hc.
    apply (stored_not_EMPTY m'); auto using entries_ok_side; [lia|by apply Forall_lfilter|by destruct c]. }
  assert (is_Some (m' !! hx (smtNode (S h) es'))) as [row Hrow].
  { assert (climb k d (Buf (smtNode h (side (negb b) d es')) :: map Buf (path_sibs k h (side b d es')))
              (smtNode 0 (on_path k h (side b d es'))) = smtNode (S h) es') as Hp.
    { rewrite climb_cons. replace (S d) with (SMT_DEPTH - h)%nat by lia. rewrite Hcl.
      symmetry. apply smtNode_join. }
    rewrite Hp in Hrows. replace (SMT_DEPTH - d)%nat with (S h) in Hrows by lia.
    rewrite bool_decide_eq_false_2 in Hrows by done.
    edestruct Hrows as [row Hrow]; [apply elem_of_app; right; by apply list_elem_of_singleton|].
    exists row. by destruct b. }
  rewrite Hrow. f_equal. eapply addressed_row; eauto using smtNode_length, entries_ok_side.
  by rewrite smtNode_S.
Qed.
End Stored.

(** ** Refinement of the reference tree *)
Section Refinement.
Context `{HashFn} {St : Type} `{NodeStoreLaws St}.

Notation hx := hex_encode.

(** The store holds the tree of the leaf set [t], whose root is [root]; the
    leaves are real ones (the empty leaf stands for absence). *)
Definition repr (s : St) (root : string) (t : leaves) : Prop :=
  root = smt_rootHex t /\ leaves_ok t /\ Forall (fun e => leaf e <> EMPTY 0) (smt_entries t)
  /\ stored (ns_rows s) SMT_DEPTH (smt_entries t).

(** The preimages an update of key [k] to leaf [l] hashes. *)
Definition update_preimages (t : leaves) (k : bytes) (l : option bytes) : list bytes :=
  climb_preimages k 0 (path_sibs k SMT_DEPTH (smt_entries t)) (default (EMPTY 0) l).

(** A leaf that may be written: 32 bytes and not the empty leaf. *)
Definition leaf_ok (l : option bytes) : Prop :=
  match l with Some l => length l = 32%nat /\ l <> EMPTY 0 | None => True end.

Lemma agree_0 es : agree (SMT_DEPTH - SMT_DEPTH) es.
Proof. rewrite Nat.sub_diag. intros ??? _ _ ?; lia. Qed.

Lemma descend_loop_empty k h cur s : (h <= SMT_DEPTH)%nat ->
  descend_loop k h cur true s = Ok (map hx (path_sibs k h []), EMPTY0_HEX).
Proof.
  intros Hh. induction h as [|h IH]; [done|].
  cbn [descend_loop path_sibs side List.filter map]. rewrite IH by lia. cbn [rbind fst snd].
  rewrite smtNode_nil. by replace (SMT_DEPTH - 1 - (SMT_DEPTH - S h))%nat with h by lia.
Qed.

Lemma on_path_nil k h : on_path k h [] = [].
Proof. induction h as [|h IH]; [done|]. exact IH. Qed.

Lemma descend_loop_up k h cur e s : ns_up s = true -> exists p, descend_loop k h cur e s = Ok p.
Proof.
  intros Hup. revert cur e; induction h as [|h IH]; intros cur e; cbn [descend_loop]; [eauto|].
  assert (forall sib cur e, exists p, rbind (descend_loop k h cur e s)
            (fun rest => Ok (sib :: rest.1, rest.2)) = Ok p) as Hrest.
  { intros sib c e'. destruct (IH c e') as [p ->]. cbn. eauto. }
  destruct e; [apply Hrest|]. destruct (ns_get_up cur s Hup) as [[row|] ->]; cbn [rbind]; apply Hrest.
Qed.

Context (D : bytes -> Prop) (Hcf : collision_free D) (Hempty : empties_in D).

Lemma descend_loop_sound s k h es p : addressed D (ns_rows s) -> (h <= SMT_DEPTH)%nat ->
  stored (ns_rows s) h es -> descend_loop k h (hx (smtNode h es)) false s = Ok p ->
  p = (map hx (path_sibs k h es), hx (smtNode 0 (on_path k h es))).
Proof.
  intros Ha. revert es p; induction h as [|h IH]; intros es p Hh Hst; [by intros [= <-]|].
  cbn [descend_loop path_sibs on_path map].
  destruct (ns_get (hx (smtNode (S h) es)) s) as [row|] eqn:Eg; cbn [rbind]; [|done].
  apply ns_get_sound in Eg. set (d := (SMT_DEPTH - S h)%nat) in *.
  assert (forall c sib es', stored (ns_rows s) h es' -> c = hx (smtNode h es') ->
    rbind (descend_loop k h c false s) (fun rest => Ok (sib :: rest.1, rest.2)) = Ok p ->
    p = (sib :: map hx (path_sibs k h es'), hx (smtNode 0 (on_path k h es')))) as Hstep.
  { intros c sib es' Hst' -> (q & Hq & [= <-])%rbind_Ok. apply IH in Hq as ->; [done|lia|done]. }
  destruct row as [row|].
  - assert (row = Row (hx (smtNode h (side false d es))) (hx (smtNode h (side true d es)))
            /\ forall b, stored (ns_rows s) h (side b d es)) as [-> Hs].
    { cbn [stored] in Hst. destruct Hst as [->|(Hr & Hl & Hrt)].
      - split; [|intros; apply stored_nil]. rewrite smtNode_nil in Eg. cbn [side List.filter].
        rewrite !smtNode_nil. eapply EMPTY_row; eauto.
      - rewrite Hr in Eg. injection Eg as ->. split; [done|]. intros []; done. }
    intros Hd. unfold bit. destruct (bitAt_01 k d) as [E|E]; rewrite E in *; cbn [Z.eqb negb] in *;
      cbn [left_hash right_hash] in Hd; by eapply Hstep in Hd.
  - cbn [stored] in Hst. destruct Hst as [->|(Hr & _)]; [|congruence].
    rewrite descend_loop_empty by lia. intros [= <-]. cbn [side List.filter]. rewrite smtNode_nil, on_path_nil.
    by replace (SMT_DEPTH - 1 - d)%nat with h by lia.
Qed.

Lemma repr_entries s root t : repr s root t ->
  entries_ok (smt_entries t) /\ root = hx (smtNode SMT_DEPTH (smt_entries t)).
Proof. intros (-> & Hok & _). split; [by apply smt_entries_ok|done]. Qed.

(** Reading a key's path from the store gives the reference tree's siblings and
    leaf. *)
Lemma descend_sound s root t k p : addressed D (ns_rows s) -> repr s root t -> length k = 32%nat ->
  descend root k s = Ok p ->
  p = (map hx (path_sibs k SMT_DEPTH (smt_entries t)), hx (default (EMPTY 0) (smt_get k t))).
Proof.
  intros Ha Hr Hk Hd. pose proof (repr_entries _ _ _ Hr) as [Hes ->]. destruct Hr as (_ & Hok & _ & Hst).
  apply descend_loop_sound in Hd as ->; [|done..].
  by rewrite on_path_leaf, entry_get_entries by done.
Qed.

Lemma same_off_set t k l : leaves_ok t -> length k = 32%nat -> leaf_ok l ->
  same_off k (smt_entries t) (smt_entries (smt_set (Buf k) (Buf <$> l) t)).
Proof.
  intros Hok Hk Hl [k' l'] Hne. cbn in Hne.
  assert (leaves_ok (smt_set (Buf k) (Buf <$> l) t)) as Hok'
    by (apply leaves_ok_set; [done| |done]; destruct l; [apply Hl|done]).
  rewrite <- !entry_get_Some, !entry_get_entries by auto using smt_entries_ok.
  by rewrite smt_get_set, decide_False.
Qed.

Lemma real_set t k l : leaves_ok t -> length k = 32%nat -> leaf_ok l ->
  Forall (fun e => leaf e <> EMPTY 0) (smt_entries t) ->
  Forall (fun e => leaf e <> EMPTY 0) (smt_entries (smt_set (Buf k) (Buf <$> l) t)).
Proof.
  intros Hok Hk Hl. rewrite !Forall_forall. intros Hr [k' l'].
  assert (leaves_ok (smt_set (Buf k) (Buf <$> l) t)) as Hok'
    by (apply leaves_ok_set; [done| |done]; destruct l; [apply Hl|done]).
  rewrite <- entry_get_Some, entry_get_entries, smt_get_set by auto using smt_entries_ok.
  destruct (decide (k' = k)) as [->|]; [intros ->; apply Hl|].
  rewrite <- entry_get_entries, entry_get_Some by auto using smt_entries_ok. apply Hr.
Qed.

Lemma putBatch_sound ns s s' : putBatch ns s = Ok s' -> ns_rows s' = put_rows (ns_rows s) ns.
Proof.
  unfold putBatch. destruct ns_putMany as [f|] eqn:Ef; [by apply ns_putMany_sound|].
  revert s; induction ns as [|n ns IH]; intros s; cbn [rfold]; [by intros [= <-]|].
  rewrite rbind_Ok. intros (s1 & Hs1 & Hrest). apply ns_put_sound in Hs1. apply IH in Hrest.
  rewrite Hrest, Hs1. by destruct n.
Qed.

Lemma putBatch_up ns s : ns_up s = true -> exists s', putBatch ns s = Ok s' /\ ns_up s' = true.
Proof.
  unfold putBatch. destruct ns_putMany as [f|] eqn:Ef; [by apply ns_putMany_up|].
  revert s; induction ns as [|n ns IH]; intros s Hup; cbn [rfold]; [eauto|].
  destruct (ns_put_up (n_hash n) (n_left n) (n_right n) s Hup) as (s1 & -> & Hup1). cbn. by apply IH.
Qed.

Lemma update_up root k l s : ns_up s = true -> exists s' r, update root k l s = Ok (s', r) /\ ns_up s' = true.
Proof.
  intros Hup. unfold update, descend. destruct (descend_loop_up k SMT_DEPTH root false s Hup) as [p ->].
  cbn [rbind]. destruct (update_loop _ _ _ _) as [cur [|n ns]]; cbn [rbind]; [eauto|].
  destruct (putBatch_up (n :: ns) s Hup) as (s' & -> & Hup'). cbn. eauto.
Qed.

Lemma repr_mono s s' r u : ns_rows s ⊆ ns_rows s' -> repr s r u -> repr s' r u.
Proof. intros Hsub (? & ? & ? & ?). unfold repr. eauto using stored_mono. Qed.

(** An update that returns: its root and store represent the updated leaf set,
    and every root represented before still is. *)
Lemma update_sound s root t k l s' root' :
  addressed D (ns_rows s) -> repr s root t -> length k = 32%nat -> leaf_ok l ->
  Forall D (update_preimages t k l) -> update root k (hx <$> l) s = Ok (s', root') ->
  repr s' root' (smt_set (Buf k) (Buf <$> l) t) /\ addressed D (ns_rows s')
  /\ ns_rows s ⊆ ns_rows s'.
Proof.
  intros Ha Hr Hk Hl HD Hu. unfold update in Hu. rewrite rbind_Ok in Hu. destruct Hu as (p & Hp & Hu).
  apply (descend_sound s root t) in Hp; [|done..]. subst p. cbn [fst] in Hu.
  replace (default EMPTY0_HEX (hx <$> l)) with (hx (default (EMPTY 0) l)) in Hu by (by destruct l).
  set (lf := default (EMPTY 0) l) in *. set (sibs := path_sibs k SMT_DEPTH (smt_entries t)) in *.
  rewrite update_loop_spec in Hu.
  assert (ns_rows s' = put_rows (ns_rows s) (path_nodes k 0 sibs lf)
          /\ root' = hx (climb k 0 (map Buf sibs) lf)) as [Hrows ->].
  { rewrite rbind_Ok in Hu. destruct Hu as (s1 & Hs1 & [= -> ->]). split; [|done].
    destruct (path_nodes k 0 sibs lf); [by injection Hs1 as ->|]. by apply putBatch_sound. }
  destruct (repr_entries _ _ _ Hr) as [Hes _]. destruct Hr as (_ & Hok & Hreal & Hst).
  set (t' := smt_set (Buf k) (Buf <$> l) t).
  assert (leaves_ok t') as Hok' by (apply leaves_ok_set; [done| |done]; destruct l; [apply Hl|done]).
  pose proof (smt_entries_ok _ Hok') as Hes'.
  assert (length lf = 32%nat) as Hlf by (unfold lf; destruct l; [apply Hl|apply EMPTY_length]).
  assert (path_sibs k SMT_DEPTH (smt_entries t') = sibs) as Hsibs
    by (apply path_sibs_same; [done|apply agree_0|done|done|by apply same_off_set]).
  assert (smtNode 0 (on_path k SMT_DEPTH (smt_entries t')) = lf) as Hlf'.
  { rewrite on_path_leaf, entry_get_entries by done. unfold t'. by rewrite smt_get_set, decide_True. }
  assert (addressed D (ns_rows s')) as Ha' by (rewrite Hrows; apply addressed_put; [done|by apply path_sibs_32|done|done]).
  assert (ns_rows s ⊆ ns_rows s') as Hsub by (rewrite Hrows; apply put_rows_sub).
  split; [|by split]. split; [|split; [exact Hok'|split; [by apply real_set|]]].
  - unfold smt_rootHex, smt_root. rewrite (smtNode_root_climb k) by done. rewrite <- Hlf', on_path_leaf by done.
    by rewrite Hsibs.
  - apply (stored_update D Hcf Hempty (ns_rows s) _ k SMT_DEPTH (smt_entries t));
      [done|apply agree_0|done|done|by apply same_off_set|by apply real_set|done|done| | |done];
      rewrite Hsibs, Hlf', Nat.sub_diag; [done|].
    intros n Hn. rewrite Hrows. by apply put_rows_has.
Qed.

(** ** Sequences of updates *)
Definition set_all (t : leaves) (kvs : list (bytes * option bytes)) : leaves :=
  fold_left (fun t kv => smt_set (Buf kv.1) (Buf <$> kv.2) t) kvs t.

(** Every key and leaf is well formed and every preimage hashed on the way is in
    [D]. *)
Fixpoint updates_ok (t : leaves) (kvs : list (bytes * option bytes)) : Prop :=
  match kvs with
  | [] => True
  | (k, l) :: rest =>
      (length k = 32%nat /\ leaf_ok l /\ Forall D (update_preimages t k l))
      /\ updates_ok (smt_set (Buf k) (Buf <$> l) t) rest
  end.

Definition hex_updates (kvs : list (bytes * option bytes)) : list (string * option string) :=
  map (fun kv => (hx kv.1, hx <$> kv.2)) kvs.

Lemma updates_sound kvs s root t s' root' : addressed D (ns_rows s) -> repr s root t -> updates_ok t kvs ->
  rfold update_step (s, root) (hex_updates kvs) = Ok (s', root') ->
  repr s' root' (set_all t kvs) /\ addressed D (ns_rows s') /\ ns_rows s ⊆ ns_rows s'.
Proof.
  revert s root t; induction kvs as [|[k l] kvs IH]; intros s root t Ha Hr Hok;
    unfold hex_updates; cbn [rfold map].
  - intros [= <- <-]. auto.
  - destruct Hok as [(Hk & Hl & HD) Hrest]. rewrite rbind_Ok. intros ([s1 r1] & Hu & Hf).
    unfold update_step in Hu. cbn [fst snd toBuf] in Hu. rewrite hex_decode_encode in Hu.
    fold (hex_updates kvs) in Hf.
    apply (update_sound _ _ t) in Hu as (Hr1 & Ha1 & Hs1); [|done..].
    apply (IH _ _ (smt_set (Buf k) (Buf <$> l) t)) in Hf as (? & ? & ?); [|done..].
    split_and!; [done..|]. by etrans.
Qed.

Lemma updates_up kvs s root : ns_up s = true ->
  exists s' r, rfold update_step (s, root) kvs = Ok (s', r) /\ ns_up s' = true.
Proof.
  revert s root; induction kvs as [|[k l] kvs IH]; intros s root Hup; cbn; [eauto|].
  destruct (update_up root (toBuf (Hex k)) l s Hup) as (s1 & r1 & Hu & Hup1).
  unfold update_step at 1. cbn [fst snd]. rewrite Hu. cbn. by apply IH.
Qed.

Lemma repr_empty s : repr s EMPTY_ROOT_HEX smt_new.
Proof.
  split; [|split; [apply leaves_ok_new|split; [constructor|apply stored_nil]]].
  unfold smt_rootHex, smt_root. cbn [smt_entries smt_new map]. by rewrite smtNode_nil.
Qed.

Lemma jm_get_hex k t : leaves_ok t -> jm_get (hx k) t = hx <$> smt_get k t.
Proof.
  intros [_ Hf]. unfold smt_get. destruct (jm_get (hx k) t) as [v|] eqn:Ev; [|done].
  apply jm_get_Some_In in Ev. rewrite Forall_forall in Hf.
  destruct (Hf _ Ev) as (k0 & l0 & [= _ ->] & _). cbn. by rewrite hex_decode_encode.
Qed.

Lemma buildFull_updates (entries : list (bytes * bytes)) s :
  buildFull (map (fun e => (hx e.1, hx e.2)) entries) s
  = rfold update_step (s, EMPTY_ROOT_HEX) (hex_updates (map (fun e => (e.1, Some e.2)) entries)).
Proof.
  unfold buildFull. generalize (s, EMPTY_ROOT_HEX). induction entries as [|e es IH]; intros st; [done|].
  cbn. destruct (update_step st _); cbn; [apply IH|done].
Qed.
End Refinement.

(** ** Properties *)
Section Properties.
Context `{HashFn} {St : Type} `{NodeStoreLaws St}.
Context (D : bytes -> Prop).

(** C28. An update refines the reference tree: from a store that represents the
    leaf set [t] under [root], [update] returns the root of [t] with the key set
    (or deleted), the new store represents it, every root represented before is
    still represented (copy-on-write), and the update fails only if the store
    does. *)
Theorem update_refines s root t k l :
  collision_free D -> empties_in D -> addressed D (ns_rows s) -> repr s root t ->
  length k = 32%nat -> leaf_ok l -> Forall D (update_preimages t k l) ->
  match update root k (hex_encode <$> l) s with
  | Ok (s', root') =>
      root' = smt_rootHex (smt_set (Buf k) (Buf <$> l) t)
      /\ repr s' root' (smt_set (Buf k) (Buf <$> l) t)
      /\ addressed D (ns_rows s')
      /\ forall r u, repr s r u -> repr s' r u
  | Throw _ => ns_up s = false
  end.
Proof.
  intros Hcf He Ha Hr Hk Hl HD. destruct (update root k (hex_encode <$> l) s) as [[s' root']|m] eqn:Hu.
  - destruct (update_sound D Hcf He s root t k l s' root') as (Hr' & Ha' & Hsub); [done..|].
    split_and!; [apply Hr'|done..|]. intros r u. by apply repr_mono.
  - destruct (ns_up s) eqn:Hup; [|done].
    destruct (update_up root k (hex_encode <$> l) s Hup) as (s' & r & Hok & _). congruence.
Qed.

(** [buildFull] refines the reference tree: from an empty or any other
    well-addressed store it returns the root of the leaf set its entries
    describe, later entries of a key winning, and fails only if the store
    does. *)
Theorem buildFull_refines s (entries : list (bytes * bytes)) :
  let kvs := map (fun e => (e.1, Some e.2)) entries in
  collision_free D -> empties_in D -> addressed D (ns_rows s) -> updates_ok D smt_new kvs ->
  match buildFull (map (fun e => (hex_encode e.1, hex_encode e.2)) entries) s with
  | Ok (s', root) => root = smt_rootHex (set_all smt_new kvs) /\ repr s' root (set_all smt_new kvs)
      /\ forall r u, repr s r u -> repr s' r u
  | Throw _ => ns_up s = false
  end.
Proof.
  intros kvs Hcf He Ha Hok. rewrite buildFull_updates. fold kvs.
  destruct (rfold _ _ _) as [[s' root']|m] eqn:Hu.
  - apply (updates_sound D Hcf He _ _ _ smt_new) in Hu as (Hr & Ha' & Hsub); auto using repr_empty.
    split_and!; [apply Hr|done|]. intros r u. by apply repr_mono.
  - destruct (ns_up s) eqn:Hup; [|done].
    destruct (updates_up (hex_updates kvs) s EMPTY_ROOT_HEX Hup) as (s' & r & Hok' & _). congruence.
Qed.

(** A proof read from the store, as of any represented root (the latest or a
    historical one), is the reference tree's proof for that leaf set: same
    siblings, same leaf value or absence, same compressed form. *)
Theorem prove_refines s root t k :
  collision_free D -> empties_in D -> addressed D (ns_rows s) -> repr s root t -> length k = 32%nat ->
  match prove root k s with
  | Ok p => smt_prove (Buf k) t = Ok p
  | Throw _ => ns_up s = false
  end.
Proof.
  intros Hcf He Ha Hr Hk. unfold prove. destruct (descend root k s) as [path|m] eqn:Ed; cbn [rbind].
  - apply (descend_sound D Hcf He s root t) in Ed; [|done..]. subst path.
    destruct Hr as (_ & Hok & Hreal & _). unfold smt_prove.
    rewrite prove_loop_sibs. cbn [toBuf toHex]. rewrite jm_get_hex by done.
    change (map (fun s => hex_encode s) (path_sibs k SMT_DEPTH (smt_entries t)))
      with (map hex_encode (path_sibs k SMT_DEPTH (smt_entries t))).
    destruct (compressSmtProof_spec (map Hex (map hex_encode (path_sibs k SMT_DEPTH (smt_entries t)))))
      as (bm & -> & _); [by rewrite !length_map, path_sibs_length|]. cbn [rbind]. do 2 f_equal.
    destruct (smt_get k t) as [l|] eqn:E; cbn [from_option id fmap option_fmap option_map].
    + rewrite bool_decide_eq_false_2; [done|]. intros Hx%(inj hex_encode).
      rewrite <- entry_get_entries, entry_get_Some in E by auto using smt_entries_ok.
      rewrite Forall_forall in Hreal. by apply (Hreal _ E).
    + by rewrite bool_decide_eq_true_2.
  - destruct (ns_up s) eqn:Hup; [|done]. unfold descend in Ed.
    destruct (descend_loop_up k SMT_DEPTH root false s Hup) as [p Hp]. congruence.
Qed.
End Properties.

(** ** Witnesses *)

(** The climb and its preimages in one pass. *)
Fixpoint climb_run `{HashFn} (k : bytes) (d : nat) (sibs : list bytes) (node : bytes) : bytes * list bytes :=
  match sibs with
  | [] => (node, [])
  | s :: rest =>
      let '(below, ps) := climb_run k (S d) rest node in
      let p := if bit k d then node_preimage s below else node_preimage below s in
      (sha256 p, p :: ps)
  end.

Lemma climb_run_spec `{HashFn} k d sibs node :
  climb_run k d sibs node = (climb k d (map Buf sibs) node, climb_preimages k d sibs node).
Proof.
  revert d; induction sibs as [|s sibs IH]; intros d; [done|]. cbn [climb_run climb_preimages map].
  rewrite IH, climb_cons. unfold join. by destruct (bit k d).
Qed.

(** The preimages of updating one key to each of some leaves in a tree that holds
    no other key, with those of the empty constants. *)
Definition one_key_preimages `{HashFn} (k : bytes) (ls : list bytes) : list bytes :=
  let sibs := empty_sibs SMT_DEPTH in
  map (fun e => node_preimage e e) sibs ++ List.concat (map (fun l => (climb_run k 0 sibs l).2) ls).

Lemma one_key_empties `{HashFn} k ls : empties_in (fun x => x ∈ one_key_preimages k ls).
Proof.
  assert (forall n h, (h < n)%nat ->
    node_preimage (EMPTY h) (EMPTY h) ∈ map (fun e => node_preimage e e) (empty_sibs n)) as Hin.
  { induction n as [|n IH]; intros h Hh; [lia|]. rewrite empty_sibs_S. cbn [map].
    destruct (decide (h = n)) as [->|]; [by left|]. right. apply IH. lia. }
  intros h Hh. unfold one_key_preimages. apply elem_of_app. left. by apply Hin.
Qed.

Lemma one_key_update `{HashFn} k ls t l : length k = 32%nat -> leaves_ok t ->
  (forall k', k' <> k -> smt_get k' t = None) -> match l with Some l => l ∈ ls | None => True end ->
  Forall (fun x => x ∈ one_key_preimages k ls) (update_preimages t k l).
Proof.
  intros Hk Hok Hone Hl. unfold update_preimages.
  rewrite (path_sibs_same k SMT_DEPTH (smt_entries smt_new)), path_sibs_nil;
    [|done|apply agree_0|apply smt_entries_ok, leaves_ok_new|by apply smt_entries_ok|].
  - apply Forall_forall. intros x Hx. unfold one_key_preimages. apply elem_of_app. destruct l as [l|].
    + right. apply list_elem_of_In, in_concat. exists ((climb_run k 0 (empty_sibs SMT_DEPTH) l).2).
      split; [apply (in_map (fun l => (climb_run k 0 (empty_sibs SMT_DEPTH) l).2)); by apply list_elem_of_In|].
      rewrite climb_run_spec. by apply list_elem_of_In.
    + left. cbn [from_option id] in Hx. by rewrite climb_preimages_empty in Hx.
  - intros [k' l'] Hne. cbn in Hne. rewrite <- !entry_get_Some, !entry_get_entries
      by auto using smt_entries_ok, leaves_ok_new.
    rewrite Hone by done. done.
Qed.

Section Witnesses.
#[local] Instance ex_hash : HashFn := poly_hash.

Definition ex_D (x : bytes) : Prop := x ∈ one_key_preimages ex_key1 [ex_leaf1; ex_leaf2].
Definition ex_store : node_table := NodeTable [] None.
(** The key is written twice; the second leaf stays. *)
Definition ex_entries : list (bytes * bytes) := [(ex_key1, ex_leaf2); (ex_key1, ex_leaf1)].

Lemma ex_D_free : collision_free ex_D.
Proof. apply collision_free_list_sound. vm_compute. reflexivity. Qed.

Lemma ex_D_empties : empties_in ex_D.
Proof. apply one_key_empties. Qed.

Lemma ex_addressed : addressed ex_D (ns_rows ex_store).
Proof. intros x row Hx. by vm_compute in Hx. Qed.

Lemma ex_leaves_ok l : leaf_ok (Some l) -> leaves_ok (smt_set (Buf ex_key1) (Some (Buf l)) smt_new).
Proof. intros [Hl _]. apply (leaves_ok_set ex_key1 (Some l)); [done|done|apply leaves_ok_new]. Qed.

Lemma ex_leaf_ok l : l = ex_leaf1 \/ l = ex_leaf2 -> leaf_ok (Some l).
Proof. intros [-> | ->]; split; [done|vm_compute; discriminate|done|vm_compute; discriminate]. Qed.

Lemma ex_update t l : leaves_ok t -> (forall k', k' <> ex_key1 -> smt_get k' t = None) ->
  l = ex_leaf1 \/ l = ex_leaf2 -> Forall ex_D (update_preimages t ex_key1 (Some l)).
Proof.
  intros Hok Hone Hl. apply one_key_update; [done..|]. rewrite !elem_of_cons. naive_solver.
Qed.

Lemma ex_updates_ok : updates_ok ex_D smt_new (map (fun e => (e.1, Some e.2)) ex_entries).
Proof.
  assert (leaf_ok (Some ex_leaf1) /\ leaf_ok (Some ex_leaf2)) as [H1 H2] by (split; apply ex_leaf_ok; auto).
  split; [|split; [|done]]; (split; [done|split; [done|]]).
  - apply ex_update; [apply leaves_ok_new|done|auto].
  - apply ex_update; [by apply (ex_leaves_ok ex_leaf2)| |auto]. intros k' Hne.
    rewrite (smt_get_set ex_key1 (Some ex_leaf2)) by apply leaves_ok_new. by rewrite decide_False.
Qed.

Lemma update_refines_witness :
  match update EMPTY_ROOT_HEX ex_key1 (hex_encode <$> Some ex_leaf1) ex_store with
  | Ok (s', root') =>
      root' = smt_rootHex (smt_set (Buf ex_key1) (Buf <$> Some ex_leaf1) smt_new)
      /\ repr s' root' (smt_set (Buf ex_key1) (Buf <$> Some ex_leaf1) smt_new)
      /\ addressed ex_D (ns_rows s') /\ forall r u, repr ex_store r u -> repr s' r u
  | Throw _ => ns_up ex_store = false
  end.
Proof.
  apply (update_refines ex_D ex_store EMPTY_ROOT_HEX smt_new ex_key1 (Some ex_leaf1) ex_D_free ex_D_empties ex_addressed).
  - apply repr_empty.
  - reflexivity.
  - apply ex_leaf_ok. by left.
  - apply ex_update; [apply leaves_ok_new|done|by left].
Defined.

Lemma buildFull_refines_witness :
  match buildFull (map (fun e => (hex_encode e.1, hex_encode e.2)) ex_entries) ex_store with
  | Ok (s', root) =>
      root = smt_rootHex (set_all smt_new (map (fun e => (e.1, Some e.2)) ex_entries))
      /\ repr s' root (set_all smt_new (map (fun e => (e.1, Some e.2)) ex_entries))
      /\ forall r u, repr ex_store r u -> repr s' r u
  | Throw _ => ns_up ex_store = false
  end.
Proof. exact (buildFull_refines ex_D ex_store ex_entries ex_D_free ex_D_empties ex_addressed ex_updates_ok). Defined.

(** The store and root after the two writes. *)
Definition ex_built : node_table * string :=
  match buildFull (map (fun e => (hex_encode e.1, hex_encode e.2)) ex_entries) ex_store with
  | Ok p => p
  | Throw _ => (ex_store, EMPTY_ROOT_HEX)
  end.

Lemma ex_built_repr :
  repr ex_built.1 ex_built.2 (set_all smt_new (map (fun e => (e.1, Some e.2)) ex_entries))
  /\ addressed ex_D (ns_rows ex_built.1).
Proof.
  destruct (updates_up (hex_updates (map (fun e => (e.1, Some e.2)) ex_entries)) ex_store EMPTY_ROOT_HEX)
    as (s' & r & Hu & _); [reflexivity|].
  unfold ex_built. rewrite buildFull_updates, Hu.
  apply (updates_sound ex_D ex_D_free ex_D_empties _ _ _ smt_new) in Hu as (Hr & Ha & _); [by split| | |].
  - apply ex_addressed.
  - apply repr_empty.
  - apply ex_updates_ok.
Qed.

Lemma prove_refines_witness :
  match prove ex_built.2 ex_key2 ex_built.1 with
  | Ok p => smt_prove (Buf ex_key2) (set_all smt_new (map (fun e => (e.1, Some e.2)) ex_entries)) = Ok p
  | Throw _ => ns_up ex_built.1 = false
  end.
Proof.
  apply (prove_refines ex_D _ _ _ ex_key2 ex_D_free ex_D_empties (proj2 ex_built_repr) (proj1 ex_built_repr)).
  reflexivity.
Defined.
End Witnesses.
