(* ===== verification/GateRegistry.v ===== *)
(** * GateRegistry: the activation registry and its regtest arming

    Models [src/src/consensus/gate_registry/core.js] (rows, registration checks,
    the read path and the one generic predicate [activeAt]),
    [regtest_env.js] (the arming grammar) and [shared_rows.js] (the arming rules
    and the read overlay, with its cache).  The rows themselves are data that
    [addGate] loads; the theorems quantify over every registry that
    registrations can build.

    They show: registration keeps the rows well formed and append-only;
    [activeAt] fails closed and is decided by the coin key before the network
    key; and no environment variable moves a gate off regtest. *)

From S2P Require Import Prelude JsText JsNumber JsMap.

(** ** Row values

    Numbers of the tables are integers (heights, instants, versions); a
    non-finite number, a class instance and a function are values registration
    refuses. *)
Inductive gval :=
| GUndef
| GNull
| GBool (b : bool)
| GNum (z : Z)
| GNonFinite
| GStr (s : string)
| GRegExp (s : string)
| GArr (l : list gval)
| GObj (kvs : list (string * gval))
| GOpaque (kind : string).

Definition UNARMED : gval := GNum 9999999999.
Definition UNPINNED : gval := GNull.
Definition UNITS : list string := ["height"; "time"; "epoch"; "ruleset"; "constant"].

Definition isPlainObject (v : gval) : bool := match v with GObj _ => true | _ => false end.

(** The deep copies; frozen and mutable ones hold the same data. *)
Fixpoint frozenCopy (v : gval) : gval :=
  match v with
  | GArr l => GArr (map frozenCopy l)
  | GObj kvs => GObj (map (fun p => (p.1, frozenCopy p.2)) kvs)
  | _ => v
  end.
Fixpoint mutableCopy (v : gval) : gval :=
  match v with
  | GArr l => GArr (map mutableCopy l)
  | GObj kvs => GObj (map (fun p => (p.1, mutableCopy p.2)) kvs)
  | _ => v
  end.

(** An own property of a plain object, [undefined] when absent. *)
Definition own (v : gval) (k : string) : option gval :=
  match v with
  | GObj kvs => jm_get k kvs
  | _ => None
  end.

Definition resolveThreshold (table : gval) (network : string) (coin : jsval) : gval :=
  let bare := default GUndef (own table network) in
  if is_nullish coin then bare
  else match own table (js_String coin +:+ ":" +:+ network) with
       | Some v => v
       | None => bare
       end.

Definition reached (threshold : gval) (clock : jsval) : bool :=
  match parse_int (js_String clock) with
  | None => false
  | Some c => match threshold with
              | GNum t => t <=? c
              | _ => false
              end
  end.

(** ** Registration checks *)
Definition is_word (b : byte) : bool :=
  is_digit b || ((65 <=? b2z b) && (b2z b <=? 90)) || ((97 <=? b2z b) && (b2z b <=? 122))
  || bool_decide (b = ch "_").
Definition is_stem (b : byte) : bool :=
  is_word b || bool_decide (b = ch "/") || bool_decide (b = ch "-").

Fixpoint split_on (sep : byte) (l : bytes) : list bytes :=
  match l with
  | [] => [[]]
  | b :: l' =>
      if bool_decide (b = sep) then [] :: split_on sep l'
      else match split_on sep l' with
           | seg :: rest => (b :: seg) :: rest
           | [] => [[b]]
           end
  end.
Definition seg_ok (f : byte -> bool) (seg : bytes) : bool :=
  negb (bool_decide (seg = [])) && forallb f seg.

(** [/^[A-Za-z0-9_/-]+(\.[A-Za-z0-9_]+)+$/]: neither character class has the
    dot, so the match is the split at the dots. *)
Definition KEY_RE (s : string) : bool :=
  match split_on (ch ".") (utf8 s) with
  | stem :: seg :: rest => seg_ok is_stem stem && forallb (seg_ok is_word) (seg :: rest)
  | _ => false
  end.

Definition checkKey (key : jsval) (wh : string) : result string :=
  match key with
  | JStr k => if KEY_RE k then Ok k else Throw (wh +:+ ": key " +:+ k +:+ " does not match the key grammar")
  | _ => Throw (wh +:+ ": key does not match the key grammar")
  end.

Fixpoint checkEntries (key : string) (entries : list (string * gval)) : result unit :=
  match entries with
  | [] => Ok tt
  | (network, v) :: rest =>
      match v with
      | GNull | GNum _ => checkEntries key rest
      | _ => Throw ("addGate: " +:+ key +:+ " entry " +:+ network +:+ " must be a finite number or UNPINNED")
      end
  end.
Fixpoint checkLeaves (key : string) (leaves : list gval) : result unit :=
  match leaves with
  | [] => Ok tt
  | GObj entries :: rest => let! _ := checkEntries key entries in checkLeaves key rest
  | _ => Throw ("addGate: " +:+ key +:+ " ruleset table must map versions to network tables")
  end.
Definition checkTable (key unit : string) (table : gval) : result Datatypes.unit :=
  match table with
  | GObj kvs => checkLeaves key (if bool_decide (unit = "ruleset") then map snd kvs else [table])
  | _ => Throw ("addGate: " +:+ key +:+ " table must be a plain object of network keys")
  end.

Fixpoint checkValue (key : string) (value : gval) (wh : string) : result unit :=
  match value with
  | GNull | GBool _ | GStr _ | GNum _ | GRegExp _ => Ok tt
  | GNonFinite => Throw ("addGate: " +:+ key +:+ " refused non-finite number at " +:+ wh)
  | GArr l =>
      (fix go (i : Z) (l : list gval) : result unit :=
         match l with
         | [] => Ok tt
         | v :: l' =>
             let! _ := checkValue key v (wh +:+ "[" +:+ string_of_int i +:+ "]") in go (i + 1) l'
         end) 0 l
  | GObj kvs =>
      (fix go (kvs : list (string * gval)) : result unit :=
         match kvs with
         | [] => Ok tt
         | (k, GUndef) :: rest => go rest
         | (k, v) :: rest => let! _ := checkValue key v (wh +:+ "." +:+ k) in go rest
         end) kvs
  | GUndef => Throw ("addGate: " +:+ key +:+ " refused undefined at " +:+ wh)
  | GOpaque kind => Throw ("addGate: " +:+ key +:+ " refused " +:+ kind +:+ " at " +:+ wh)
  end.

(** ** class GateRegistry *)
Record gate_row := GateRow { unit_of : string; value_of : gval }.
Record registry := Registry {
  entries : jsmap string gate_row;
  overlay : option (string -> gval -> result gval);
}.

Definition createRegistry : registry := Registry [] None.
Definition setReadOverlay (fn : string -> gval -> result gval) (r : registry) : registry :=
  Registry (entries r) (Some fn).

Definition miss {A} (key : string) : result A := Throw ("activation registry has no row " +:+ key).

Definition read (key : string) (r : registry) : result gval :=
  match jm_get key (entries r) with
  | None => miss key
  | Some row => match overlay r with
                | Some fn => fn key (value_of row)
                | None => Ok (value_of row)
                end
  end.

Definition addGate (key : jsval) (unit : string) (table : gval) (r : registry) : result registry :=
  let! k := checkKey key "addGate" in
  if jm_has k (entries r) then Throw ("addGate: duplicate key " +:+ k)
  else if negb (bool_decide (unit ∈ UNITS))
  then Throw ("addGate: " +:+ k +:+ " unit must be one of height|time|epoch|ruleset|constant, got " +:+ unit)
  else
    let! _ := (if bool_decide (unit = "constant") then Ok tt else checkTable k unit table) in
    let! _ := checkValue k table "$" in
    Ok (Registry (jm_set k (GateRow unit (frozenCopy table)) (entries r)) (overlay r)).

Definition has (key : string) (r : registry) : bool := jm_has key (entries r).
Definition get (key : string) (r : registry) : result gval := read key r.
Definition copy (key : string) (r : registry) : result gval := let! v := get key r in Ok (mutableCopy v).
Definition unitOf (key : string) (r : registry) : result string :=
  match jm_get key (entries r) with
  | None => miss key
  | Some row => Ok (unit_of row)
  end.
Definition keys (r : registry) : list string := jm_keys (entries r).
Definition rows (r : registry) : result (list (string * gval)) :=
  rmap (fun k => let! v := read k r in Ok (k, v)) (keys r).

Definition activeAt (key : string) (network coin height time : jsval) (r : registry) : result bool :=
  match jm_get key (entries r) with
  | None => miss key
  | Some row =>
      if negb (bool_decide (unit_of row = "height")) && negb (bool_decide (unit_of row = "epoch"))
         && negb (bool_decide (unit_of row = "time"))
      then Throw ("activeAt: unsupported unit " +:+ unit_of row +:+ " for " +:+ key)
      else match network with
           | JStr n =>
               let! table := read key r in
               Ok (reached (resolveThreshold table n coin)
                     (if bool_decide (unit_of row = "time") then time else height))
           | _ => Ok false
           end
  end.

(** ** Regtest arming *)
Definition off_words : list string := [""; "off"; "inert"; "false"; "no"; "none"].
Definition on_words : list string := ["armed"; "genesis"; "on"; "true"; "yes"].

Definition regtestHeight (raw : jsval) (armedHeight : Z) : option Z :=
  if is_nullish raw then None
  else
    let s := to_lower (of_utf8 (trim (utf8 (js_String raw)))) in
    if bool_decide (s ∈ off_words) then None
    else if bool_decide (s ∈ on_words) then Some armedHeight
    else if all_digits (utf8 s) then number_of_digits (utf8 s)
    else None.

Record arming_rule := Rule { env : string; label : string; armedHeight : Z; arm_keys : list string }.

Definition REGTEST_ARMING : jsmap string arming_rule :=
  [
   ("anchor_fold_activation.ANCHOR_FOLD_ACTIVATION",
    Rule "XC_ANCHOR_FOLD_REGTEST_ACTIVATION" "ANCHOR FOLD" 0 ["regtest"]);
   ("archive_section_verdict_activation.ARCHIVE_SECTION_VERDICT_STATE_HASH_ACTIVATION",
    Rule "XC_ANCHOR_FOLD_REGTEST_ACTIVATION" "ANCHOR FOLD" 0 ["regtest"]);
   ("anchor_bundle_order_activation.ANCHOR_BUNDLE_ORDER_ACTIVATION",
    Rule "XC_ANCHOR_STAKE_REGTEST_ACTIVATION" "ANCHOR STAKE" 0 ["regtest"]);
   ("archive_match_count_activation.ARCHIVE_MATCH_COUNT_ACTIVATION",
    Rule "XC_ANCHOR_STAKE_REGTEST_ACTIVATION" "ANCHOR STAKE" 0 ["regtest"]);
   ("stake_weight_collation_activation.STAKE_WEIGHT_COLLATION_ACTIVATION",
    Rule "XC_ANCHOR_STAKE_REGTEST_ACTIVATION" "ANCHOR STAKE" 0 ["regtest"]);
   ("slash_grid_activation.SLASH_GRID_ACTIVATION",
    Rule "XC_ANCHOR_SLASH_REGTEST_ACTIVATION" "ANCHOR SLASH" 0 ["regtest"]);
   ("slash_ledger_consolidation_activation.SLASH_LEDGER_CONSOLIDATION_ACTIVATION",
    Rule "XC_ANCHOR_SLASH_REGTEST_ACTIVATION" "ANCHOR SLASH" 0 ["regtest"]);
   ("rollcall_activation.ROLLCALL_ACTIVATION",
    Rule "XC_ROLLCALL_REGTEST_ACTIVATION" "ROLLCALL" 0 ["regtest"]);
   ("rollcall_gates_activation.ROLLCALL_GATES_ACTIVATION",
    Rule "XC_ROLLCALL_GATES_REGTEST_ACTIVATION" "ROLLCALL gates" 0 ["regtest"]);
   ("mirror_admission_activation.MIRROR_ADMISSION_ACTIVATION",
    Rule "XC_MIRROR_ADMISSION_ACTIVATION" "MIRROR ADMISSION" 0 ["BTC:regtest"; "LTC:regtest"; "DOGE:regtest"]);
   ("mirror_admission_activation.MIRROR_ADMISSION_CONSUMER_ACTIVATION",
    Rule "XC_MIRROR_ADMISSION_ACTIVATION" "MIRROR ADMISSION" 0 ["BTC:regtest"; "LTC:regtest"; "DOGE:regtest"]);
   ("anchor_reward_activation.ANCHOR_ATTEST_BARRIER_ACTIVATION",
    Rule "XC_MIRROR_ADMISSION_ACTIVATION" "MIRROR ADMISSION" 0 ["regtest"]);
   ("dispenser_send_amount_compare_activation.DISPENSER_SEND_AMOUNT_COMPARE_ACTIVATION",
    Rule "XC_AMOUNTS_PRICE_REGTEST_ACTIVATION" "AMOUNTS PRICE" 0 ["regtest"]);
   ("price_fee_batch_landed_activation.PRICE_FEE_BATCH_LANDED_ACTIVATION",
    Rule "XC_AMOUNTS_PRICE_REGTEST_ACTIVATION" "AMOUNTS PRICE" 0 ["regtest"]);
   ("amount_representability_activation.AMOUNT_REPRESENTABILITY_ACTIVATION",
    Rule "XC_AMOUNTS_PRICE_REGTEST_TIME" "AMOUNTS PRICE TIME" 0 ["regtest"]);
   ("vote_callback_binding_activation.VOTE_CALLBACK_BINDING_REQUIRES_USABLE_METHOD",
    Rule "XC_CONTRACTS_REGTEST_ACTIVATION" "CONTRACTS" 0 ["regtest"]);
   ("list_owner_activation.LIST_OWNER_ACTIVATION",
    Rule "XC_LISTS_MARKET_REGTEST_ACTIVATION" "LISTS MARKET" 0 ["regtest"]);
   ("empty_allow_list_denies_activation.EMPTY_ALLOW_LIST_DENIES",
    Rule "XC_LISTS_MARKET_REGTEST_ACTIVATION" "LISTS MARKET" 0 ["regtest"]);
   ("swap_edit_rematch_activation.SWAP_EDIT_REMATCH_ACTIVATION",
    Rule "XC_LISTS_MARKET_REGTEST_ACTIVATION" "LISTS MARKET" 0 ["regtest"]);
   ("token_gate_list_at_block.TOKEN_GATE_LIST_AT_BLOCK",
    Rule "XC_LISTS_MARKET_REGTEST_ACTIVATION" "LISTS MARKET" 0 ["regtest"]);
   ("list_reference_validity_activation.LIST_REFERENCE_REQUIRES_VALID_LIST",
    Rule "XC_LISTS_MARKET_REGTEST_ACTIVATION" "LISTS MARKET" 0 ["regtest"]);
   ("list_head_follows_edit_chain.LIST_HEAD_FOLLOWS_EDIT_CHAIN",
    Rule "XC_LISTS_MARKET_REGTEST_ACTIVATION" "LISTS MARKET" 0 ["regtest"]);
   ("order_swap_maker_policy_admission.ORDER_SWAP_MAKER_POLICY_ADMISSION",
    Rule "XC_LISTS_MARKET_REGTEST_ACTIVATION" "LISTS MARKET" 0 ["regtest"]);
   ("order_swap_payout_policy_activation.ORDER_SWAP_PAYOUT_POLICY_PER_TOKEN",
    Rule "XC_LISTS_MARKET_REGTEST_ACTIVATION" "LISTS MARKET" 0 ["regtest"]);
   ("issue_policy_list_detach.ISSUE_POLICY_LIST_DETACH",
    Rule "XC_LISTS_MARKET_REGTEST_ACTIVATION" "LISTS MARKET" 0 ["regtest"]);
   ("bridge_policy_detach_activation.BRIDGE_POLICY_DETACH",
    Rule "XC_LISTS_MARKET_REGTEST_ACTIVATION" "LISTS MARKET" 0 ["regtest"]);
   ("callback_compensation_activation.CALLBACK_COMPENSATES_EVERY_DEBITED_HOLDER",
    Rule "XC_LISTS_MARKET_REGTEST_ACTIVATION" "LISTS MARKET" 0 ["regtest"]);
   ("dispenser_settlement_price_activation.DISPENSER_SETTLEMENT_PRICE_ACTIVATION",
    Rule "XC_LISTS_MARKET_REGTEST_TIME" "LISTS MARKET TIME" 0 ["regtest"]);
   ("dispenser_freshness_proven_use_activation.DISPENSER_FRESHNESS_PROVEN_USE_ACTIVATION",
    Rule "XC_LISTS_MARKET_REGTEST_TIME" "LISTS MARKET TIME" 0 ["regtest"]);
   ("list_edit_remove_activation.LIST_EDIT_REMOVE_ACTIVATION",
    Rule "XC_LISTS_MARKET_REGTEST_TIME" "LISTS MARKET TIME" 0 ["regtest"]);
   ("remote_token_admission_activation.REMOTE_TOKEN_ADMISSION_ACTIVATION",
    Rule "XC_REMOTE_TOKEN_ADMISSION_REGTEST_ACTIVATION" "REMOTE TOKEN ADMISSION" 0 ["regtest"]);
   ("pass_progress_retirement_activation.PASS_PROGRESS_RETIREMENT_ACTIVATION",
    Rule "XC_PASS_PROGRESS_RETIREMENT_REGTEST_ACTIVATION" "PASS PROGRESS RETIREMENT" 0 ["regtest"]);
   ("slash_historical_set_activation.SLASH_HISTORICAL_SET_ACTIVATION",
    Rule "XC_SLASH_HISTORICAL_SET_REGTEST_ACTIVATION" "SLASH HISTORICAL SET" 0 ["regtest"]);
   ("anchor_reward_copy_selection_activation.ANCHOR_REWARD_COPY_SELECTION_ACTIVATION",
    Rule "XC_ANCHOR_REWARD_COPY_SELECTION_REGTEST_ACTIVATION" "ANCHOR REWARD COPY SELECTION" 0 ["regtest"]);
   ("token_supply_representation_activation.TOKEN_SUPPLY_REPRESENTATION_ACTIVATION",
    Rule "XC_TOKEN_SUPPLY_REPRESENTATION_REGTEST_ACTIVATION" "TOKEN SUPPLY REPRESENTATION" 0 ["regtest"]);
   ("dispenser_fiat_pricing_activation.DISPENSER_FIAT_PRICING_ACTIVATION",
    Rule "XC_DISPENSER_FIAT_PRICING_REGTEST_ACTIVATION" "DISPENSER FIAT PRICING" 0 ["regtest"]);
   ("bridge_policy_apply_order_activation.BRIDGE_POLICY_APPLY_ORDER_ACTIVATION",
    Rule "XC_BRIDGE_POLICY_APPLY_ORDER_REGTEST_ACTIVATION" "BRIDGE POLICY APPLY ORDER" 0 ["regtest"]);
   ("vm_emission_amount_format_activation.VM_EMISSION_AMOUNT_FORMAT_ACTIVATION",
    Rule "XC_VM_EMISSION_AMOUNT_FORMAT_REGTEST_ACTIVATION" "VM EMISSION AMOUNT FORMAT" 0 ["regtest"]);
   ("execute_fee_cap_activation.EXECUTE_FEE_CAP_ACTIVATION",
    Rule "XC_EXECUTE_FEE_CAP_REGTEST_ACTIVATION" "EXECUTE FEE CAP" 0 ["regtest"]);
   ("vote_v3_tick_existence_activation.VOTE_V3_TICK_EXISTENCE_ACTIVATION",
    Rule "XC_VOTE_V3_TICK_EXISTENCE_REGTEST_ACTIVATION" "VOTE V3 TICK EXISTENCE" 0 ["regtest"]);
   ("match_origin_open_activation.MATCH_ORIGIN_OPEN_ACTIVATION",
    Rule "XC_MATCH_ORIGIN_OPEN_REGTEST_ACTIVATION" "MATCH ORIGIN OPEN" 0 ["regtest"]);
   ("match_equal_price_oldest_first_activation.MATCH_EQUAL_PRICE_OLDEST_FIRST",
    Rule "XC_MATCH_EQUAL_PRICE_OLDEST_FIRST_REGTEST_ACTIVATION" "MATCH EQUAL PRICE OLDEST FIRST" 0 ["regtest"]);
   ("reassemble_chunk_parent_status_activation.REASSEMBLE_CHUNK_PARENT_STATUS_ACTIVATION",
    Rule "XC_REASSEMBLE_CHUNK_PARENT_STATUS_REGTEST_ACTIVATION" "REASSEMBLE CHUNK PARENT STATUS" 0 ["regtest"]);
   ("unstake_delegated_row_journal_activation.UNSTAKE_DELEGATED_ROW_JOURNAL_ACTIVATION",
    Rule "XC_UNSTAKE_DELEGATED_ROW_JOURNAL_REGTEST_ACTIVATION" "UNSTAKE DELEGATED ROW JOURNAL" 0 ["regtest"]);
   ("anchor_checkpoint_seq_bind_activation.ANCHOR_CHECKPOINT_SEQ_BIND_ACTIVATION",
    Rule "XC_ANCHOR_CHECKPOINT_SEQ_BIND_REGTEST_ACTIVATION" "ANCHOR CHECKPOINT SEQ BIND" 0 ["regtest"]);
   ("dividend_empty_allow_list_denies_activation.DIVIDEND_EMPTY_ALLOW_LIST_DENIES_ACTIVATION",
    Rule "XC_DIVIDEND_EMPTY_ALLOW_LIST_DENIES_REGTEST_ACTIVATION" "DIVIDEND EMPTY ALLOW LIST DENIES" 0 ["regtest"]);
   ("airdrop_zero_legs_omitted_activation.AIRDROP_ZERO_LEGS_OMITTED_ACTIVATION",
    Rule "XC_AIRDROP_ZERO_LEGS_OMITTED_REGTEST_ACTIVATION" "AIRDROP ZERO LEGS OMITTED" 0 ["regtest"]);
   ("tick_normalize_activation.TICK_NORMALIZE_ACTIVATION",
    Rule "XC_TICK_NORMALIZE_REGTEST_ACTIVATION" "TICK NORMALIZE" 0 ["regtest"]) ].

Definition ENV_READERS : list string :=
  [ "XC_ANCHOR_FOLD_REGTEST_ACTIVATION";
    "XC_ANCHOR_STAKE_REGTEST_ACTIVATION";
    "XC_ANCHOR_SLASH_REGTEST_ACTIVATION";
    "XC_ROLLCALL_REGTEST_ACTIVATION";
    "XC_ROLLCALL_GATES_REGTEST_ACTIVATION";
    "XC_MIRROR_ADMISSION_ACTIVATION";
    "XC_AMOUNTS_PRICE_REGTEST_ACTIVATION";
    "XC_AMOUNTS_PRICE_REGTEST_TIME";
    "XC_CONTRACTS_REGTEST_ACTIVATION";
    "XC_LISTS_MARKET_REGTEST_ACTIVATION";
    "XC_LISTS_MARKET_REGTEST_TIME";
    "XC_REMOTE_TOKEN_ADMISSION_REGTEST_ACTIVATION";
    "XC_PASS_PROGRESS_RETIREMENT_REGTEST_ACTIVATION";
    "XC_SLASH_HISTORICAL_SET_REGTEST_ACTIVATION";
    "XC_ANCHOR_REWARD_COPY_SELECTION_REGTEST_ACTIVATION";
    "XC_TOKEN_SUPPLY_REPRESENTATION_REGTEST_ACTIVATION";
    "XC_DISPENSER_FIAT_PRICING_REGTEST_ACTIVATION";
    "XC_BRIDGE_POLICY_APPLY_ORDER_REGTEST_ACTIVATION";
    "XC_VM_EMISSION_AMOUNT_FORMAT_REGTEST_ACTIVATION";
    "XC_EXECUTE_FEE_CAP_REGTEST_ACTIVATION";
    "XC_VOTE_V3_TICK_EXISTENCE_REGTEST_ACTIVATION";
    "XC_MATCH_ORIGIN_OPEN_REGTEST_ACTIVATION";
    "XC_MATCH_EQUAL_PRICE_OLDEST_FIRST_REGTEST_ACTIVATION";
    "XC_REASSEMBLE_CHUNK_PARENT_STATUS_REGTEST_ACTIVATION";
    "XC_UNSTAKE_DELEGATED_ROW_JOURNAL_REGTEST_ACTIVATION";
    "XC_ANCHOR_CHECKPOINT_SEQ_BIND_REGTEST_ACTIVATION";
    "XC_DIVIDEND_EMPTY_ALLOW_LIST_DENIES_REGTEST_ACTIVATION";
    "XC_AIRDROP_ZERO_LEGS_OMITTED_REGTEST_ACTIVATION";
    "XC_TICK_NORMALIZE_REGTEST_ACTIVATION" ].

(** The process environment: the value of each variable, [undefined] when unset. *)
Definition environment := string -> jsval.

Definition readRuleEnv (rule : arming_rule) (e : environment) : result jsval :=
  if bool_decide (env rule ∈ ENV_READERS) then Ok (e (env rule))
  else Throw ("REGTEST_ARMING names " +:+ env rule +:+ " but ENV_READERS has no reader for it").

(** [Object.assign({}, table)] of a plain object. *)
Definition own_entries (table : gval) : list (string * gval) :=
  match table with GObj kvs => kvs | _ => [] end.

Definition armed (rule : arming_rule) (table : gval) (raw : jsval) : gval :=
  match regtestHeight raw (armedHeight rule) with
  | None => table
  | Some height => GObj (fold_left (fun out k => jm_set k (GNum height) out) (arm_keys rule) (own_entries table))
  end.

(** The overlay without its cache. *)
Definition regtestArming (e : environment) (key : string) (table : gval) : result gval :=
  match jm_get key REGTEST_ARMING with
  | None => Ok table
  | Some rule => let! raw := readRuleEnv rule e in Ok (armed rule table raw)
  end.

(** The overlay as written, with the cache of the closure. *)
Record cache_entry := CacheEntry { c_raw : jsval; c_value : gval }.
Definition armAtRead (e : environment) (key : string) (table : gval) (cache : jsmap string cache_entry)
  : result (gval * jsmap string cache_entry) :=
  match jm_get key REGTEST_ARMING with
  | None => Ok (table, cache)
  | Some rule =>
      let! raw := readRuleEnv rule e in
      let fresh :=
        let value := armed rule table raw in Ok (value, jm_set key (CacheEntry raw value) cache) in
      match jm_get key cache with
      | Some hit => if bool_decide (c_raw hit = raw) then Ok (c_value hit, cache) else fresh
      | None => fresh
      end
  end.

Definition registerRows (queued : list (string * string * gval)) (e : environment) (r : registry) : result registry :=
  let! r' := rfold (fun r q => addGate (JStr q.1.1) q.1.2 q.2 r) r queued in
  Ok (setReadOverlay (regtestArming e) r').

(** ** Copies hold the same data *)

Fixpoint gval_ind' (P : gval -> Prop)
    (Hundef : P GUndef) (Hnull : P GNull) (Hbool : forall b, P (GBool b)) (Hnum : forall z, P (GNum z))
    (Hnf : P GNonFinite) (Hstr : forall s, P (GStr s)) (Hre : forall s, P (GRegExp s))
    (Harr : forall l, Forall P l -> P (GArr l))
    (Hobj : forall kvs, Forall (fun p => P p.2) kvs -> P (GObj kvs))
    (Hop : forall k, P (GOpaque k)) (v : gval) : P v :=
  let rec := gval_ind' P Hundef Hnull Hbool Hnum Hnf Hstr Hre Harr Hobj Hop in
  match v with
  | GUndef => Hundef | GNull => Hnull | GBool b => Hbool b | GNum z => Hnum z | GNonFinite => Hnf
  | GStr s => Hstr s | GRegExp s => Hre s
  | GArr l => Harr l ((fix go l : Forall P l :=
      match l with [] => Forall_nil_2 _ | x :: l' => Forall_cons_2 _ _ _ (rec x) (go l') end) l)
  | GObj kvs => Hobj kvs ((fix go kvs : Forall (fun p => P p.2) kvs :=
      match kvs with [] => Forall_nil_2 _ | p :: kvs' => Forall_cons_2 _ _ _ (rec p.2) (go kvs') end) kvs)
  | GOpaque k => Hop k
  end.

Lemma frozenCopy_id v : frozenCopy v = v.
Proof.
  induction v using gval_ind'; cbn; try done; f_equal.
  - induction H as [|x l Hx Hl IH]; cbn; [done|]. by rewrite Hx, IH.
  - induction H as [|[k x] l Hx Hl IH]; cbn in *; [done|]. by rewrite Hx, IH.
Qed.
Lemma mutableCopy_id v : mutableCopy v = v.
Proof.
  induction v using gval_ind'; cbn; try done; f_equal.
  - induction H as [|x l Hx Hl IH]; cbn; [done|]. by rewrite Hx, IH.
  - induction H as [|[k x] l Hx Hl IH]; cbn in *; [done|]. by rewrite Hx, IH.
Qed.

(** ** Well-formed registries *)

(** A threshold is a number or unpinned. *)
Definition threshold_ok (v : gval) : Prop := match v with GNull | GNum _ => True | _ => False end.

(** A table of network thresholds. *)
Definition table_ok (v : gval) : Prop :=
  exists kvs, v = GObj kvs /\ Forall (fun p => threshold_ok p.2) kvs.

Definition row_ok (key : string) (row : gate_row) : Prop :=
  KEY_RE key = true /\ unit_of row ∈ UNITS
  /\ (unit_of row = "height" \/ unit_of row = "epoch" \/ unit_of row = "time" -> table_ok (value_of row))
  /\ (unit_of row = "ruleset" -> exists kvs, value_of row = GObj kvs /\ Forall (fun p => table_ok p.2) kvs).

Definition registry_ok (r : registry) : Prop :=
  jm_wf (entries r) /\ forall key row, jm_get key (entries r) = Some row -> row_ok key row.

Lemma checkEntries_ok key kvs : checkEntries key kvs = Ok tt -> Forall (fun p => threshold_ok p.2) kvs.
Proof.
  induction kvs as [|[k v] kvs IH]; cbn; [constructor|]. intros Hc.
  destruct v; try discriminate Hc; constructor; cbn; auto.
Qed.

Lemma checkLeaves_ok key leaves : checkLeaves key leaves = Ok tt -> Forall table_ok leaves.
Proof.
  induction leaves as [|v leaves IH]; cbn; [constructor|]. destruct v; try discriminate.
  rewrite rbind_Ok. intros ([] & He & Hl). constructor; [|auto]. exists kvs. eauto using checkEntries_ok.
Qed.

Lemma checkTable_ok key unit v : checkTable key unit v = Ok tt ->
  (unit <> "ruleset" -> table_ok v)
  /\ (unit = "ruleset" -> exists kvs, v = GObj kvs /\ Forall (fun p => table_ok p.2) kvs).
Proof.
  unfold checkTable. destruct v; try discriminate. intros Hc%checkLeaves_ok. case_bool_decide as E.
  - split; [done|]. intros _. exists kvs. split; [done|]. by rewrite Forall_fmap in Hc.
  - split; [|done]. by apply Forall_cons in Hc as [? _].
Qed.

(** One registration or overlay installation. *)
Inductive reg_step : registry -> registry -> Prop :=
| step_add key unit table r r' : addGate key unit table r = Ok r' -> reg_step r r'
| step_overlay fn r : reg_step r (setReadOverlay fn r).

(** What a successful registration did. *)
Lemma addGate_inv key unit table r r' : addGate key unit table r = Ok r' -> exists k,
  key = JStr k /\ jm_get k (entries r) = None /\ row_ok k (GateRow unit table)
  /\ r' = Registry (jm_set k (GateRow unit table) (entries r)) (overlay r).
Proof.
  unfold addGate. rewrite rbind_Ok. intros (k & Hk & Hrest).
  destruct key; cbn in Hk; try discriminate. destruct (KEY_RE s) eqn:Ek; [|done]. injection Hk as <-.
  unfold jm_has in Hrest. destruct (jm_get s (entries r)) eqn:Eg; [discriminate|].
  destruct (bool_decide (unit ∈ UNITS)) eqn:Eu; [|discriminate]. cbn [negb] in Hrest.
  rewrite rbind_Ok in Hrest. destruct Hrest as ([] & Ht & Hrest). rewrite rbind_Ok in Hrest.
  destruct Hrest as (_ & _ & [= <-]). rewrite frozenCopy_id. exists s. split_and!; [done..| |done].
  js_simpl. split_and!; cbn; [done..| |];
    (case_bool_decide as Ec; [subst; try naive_solver|apply checkTable_ok in Ht as [Ht1 Ht2]; auto]).
  intros Hu. apply Ht1. naive_solver.
Qed.

Lemma reg_step_ok r r' : reg_step r r' -> registry_ok r -> registry_ok r'.
Proof.
  intros Hs [Hwf Hrows]. destruct Hs as [key unit table r r' Ha|fn r]; [|done].
  apply addGate_inv in Ha as (k & -> & Hnone & Hok & ->). split; [by apply jm_set_wf|]. cbn.
  intros key row. destruct (decide (k = key)) as [<-|Hne].
  - rewrite jm_get_set_eq. by intros [= <-].
  - rewrite jm_get_set_ne by done. apply Hrows.
Qed.

Lemma reg_step_keeps r r' key row : reg_step r r' ->
  jm_get key (entries r) = Some row -> jm_get key (entries r') = Some row.
Proof.
  intros [k unit table r1 r2 Ha|fn r1] Hg; [|done].
  apply addGate_inv in Ha as (k' & -> & Hnone & _ & ->). cbn.
  rewrite jm_get_set_ne; [done|]. intros ->. congruence.
Qed.

Lemma registry_reachable_ok r : rtc reg_step createRegistry r -> registry_ok r.
Proof.
  intros Hr. remember createRegistry as r0 eqn:E.
  assert (registry_ok r0) as H0 by (subst; split; [apply NoDup_nil_2|done]). clear E.
  induction Hr as [|r1 r2 r3 Hs Hr IH]; [done|]. eauto using reg_step_ok.
Qed.

(** ** The cache of the overlay *)

(** Every cached value was armed from its raw text and the committed table. *)
Definition cache_ok (committed : string -> gval) (cache : jsmap string cache_entry) : Prop :=
  forall key rule hit, jm_get key cache = Some hit -> jm_get key REGTEST_ARMING = Some rule ->
    c_value hit = armed rule (committed key) (c_raw hit).

(** The cache is transparent: [armAtRead] returns what arming the committed table
    from the current environment gives. *)
Lemma armAtRead_transparent committed e key cache : cache_ok committed cache ->
  match armAtRead e key (committed key) cache with
  | Ok (v, cache') => regtestArming e key (committed key) = Ok v /\ cache_ok committed cache'
  | Throw m => regtestArming e key (committed key) = Throw m
  end.
Proof.
  intros Hc. unfold armAtRead, regtestArming.
  destruct (jm_get key REGTEST_ARMING) as [rule|] eqn:Er; [|done].
  destruct (readRuleEnv rule e) as [raw|m]; cbn [rbind]; [|done].
  assert (cache_ok committed (jm_set key (CacheEntry raw (armed rule (committed key) raw)) cache)) as Hfresh.
  { intros k rule' hit. destruct (decide (key = k)) as [<-|Hne].
    - rewrite jm_get_set_eq. intros [= <-]. rewrite Er. intros [= <-]. done.
    - rewrite jm_get_set_ne by done. apply Hc. }
  destruct (jm_get key cache) as [hit|] eqn:Eh; [|done].
  case_bool_decide as Eraw; [|done]. subst raw. split; [|done]. f_equal. symmetry. by eapply Hc.
Qed.

(** ** Regtest entries only *)

Definition ends_net (s : string) : bool := bool_decide (take 3 (rev (utf8 s)) = rev (utf8 "net")).

Lemma rules_regtest_only :
  forallb (fun p => bool_decide (env p.2 ∈ ENV_READERS) && forallb (fun k => negb (ends_net k)) (arm_keys p.2))
    REGTEST_ARMING = true.
Proof. vm_compute. reflexivity. Qed.

Lemma rule_regtest_only key rule : jm_get key REGTEST_ARMING = Some rule ->
  env rule ∈ ENV_READERS /\ forall k, k ∈ arm_keys rule -> ends_net k = false.
Proof.
  intros Hr%jm_get_Some_In. pose proof rules_regtest_only as Hall. rewrite List.forallb_forall in Hall.
  apply list_elem_of_In in Hr. specialize (Hall _ Hr). cbn [snd] in Hall. js_simpl. split; [done|].
  intros k Hk. rewrite List.forallb_forall in *. apply list_elem_of_In in Hk.
  match goal with Hf : forall x, In x _ -> _ |- _ => specialize (Hf _ Hk) end. by js_simpl.
Qed.

Lemma own_armed rule table raw k : (forall k', k' ∈ arm_keys rule -> ends_net k' = false) ->
  ends_net k = true -> own (armed rule table raw) k = own table k.
Proof.
  intros Hks Hk. unfold armed. destruct (regtestHeight raw (armedHeight rule)) as [height|]; [|done].
  cbn [own]. replace (own table k) with (jm_get k (own_entries table)) by (by destruct table).
  generalize (own_entries table). induction (arm_keys rule) as [|k' ks IH]; intros kvs; cbn; [done|].
  rewrite IH by (intros; apply Hks; by right). apply jm_get_set_ne.
  intros ->. rewrite (Hks k) in Hk by (by left). done.
Qed.

Lemma ends_net_app pre s : ends_net s = true -> ends_net (pre +:+ s) = true.
Proof.
  unfold ends_net. rewrite !bool_decide_eq_true, utf8_app, rev_app_distr. intros Hs.
  rewrite take_app_le; [done|]. apply (f_equal length) in Hs. rewrite length_take in Hs.
  change (length (rev (utf8 "net"))) with 3%nat in Hs. lia.
Qed.

Lemma ends_net_network n : n = "mainnet" \/ n = "testnet" -> ends_net n = true.
Proof. by intros [-> | ->]. Qed.

Lemma resolve_armed rule table raw n coin : (forall k', k' ∈ arm_keys rule -> ends_net k' = false) ->
  n = "mainnet" \/ n = "testnet" ->
  resolveThreshold (armed rule table raw) n coin = resolveThreshold table n coin.
Proof.
  intros Hks Hn. unfold resolveThreshold.
  rewrite !own_armed by (done || auto using ends_net_app, ends_net_network). done.
Qed.

(** ** The predicate *)

Lemma reached_true v clock : reached v clock = true <->
  exists t c, parse_int (js_String clock) = Some c /\ t <= c /\ v = GNum t.
Proof.
  unfold reached. destruct (parse_int (js_String clock)) as [c|]; [|split; [done|by intros (? & ? & ? & _)]].
  destruct v; try (split; [done|by intros (? & ? & _ & _ & ?)]). rewrite Z.leb_le. split.
  - intros Hle. eauto.
  - by intros (? & ? & [= ->] & Hle & [= ->]).
Qed.

Lemma resolve_num table n coin t : resolveThreshold table n coin = GNum t <->
  own table (js_String coin +:+ ":" +:+ n) = Some (GNum t) /\ is_nullish coin = false
  \/ (own table (js_String coin +:+ ":" +:+ n) = None \/ is_nullish coin = true) /\ own table n = Some (GNum t).
Proof.
  unfold resolveThreshold.
  assert (default GUndef (own table n) = GNum t <-> own table n = Some (GNum t)) as Hd.
  { destruct (own table n); cbn; split; congruence. }
  destruct (is_nullish coin); [rewrite Hd; split; [auto|by intros [[_ ?]|[_ ?]]]|].
  destruct (own table (js_String coin +:+ ":" +:+ n)) as [v|]; [|rewrite Hd; split; [auto|by intros [[? _]|[_ ?]]]].
  split; [by intros ->; left|]. intros [[[= ->] _]|[[?|?] _]]; done.
Qed.

(** ** Properties *)

(** C40. The registry invariant: in every registry that registrations and overlay
    installations reach, keys are distinct and follow the key grammar, units are
    of the closed list, every height, epoch and time table maps to numbers or
    UNPINNED, every ruleset table nests such tables, and a registered row is
    never changed or removed by later steps. *)
Theorem registry_invariant r r' key row :
  rtc reg_step createRegistry r -> rtc reg_step r r' -> jm_get key (entries r) = Some row ->
  registry_ok r /\ row_ok key row /\ jm_get key (entries r') = Some row.
Proof.
  intros Hr Hr' Hg. pose proof (registry_reachable_ok r Hr) as Hok. split; [done|].
  split; [by apply Hok|]. revert Hg. clear Hr Hok. induction Hr'; eauto using reg_step_keeps.
Qed.

(** [activeAt] fails closed: on a reachable registry without arming it
    answers for every registered height, epoch or time row, and it answers true
    exactly when the clock parses to a number at or above a numeric threshold
    found under the coin key or, when there is no coin key, under the network
    key.  An UNPINNED or missing entry is never active. *)
Theorem activeAt_fail_closed r key row n coin height time :
  rtc reg_step createRegistry r -> overlay r = None -> jm_get key (entries r) = Some row ->
  unit_of row = "height" \/ unit_of row = "epoch" \/ unit_of row = "time" ->
  exists b, activeAt key (JStr n) coin height time r = Ok b /\
    (b = true <-> exists t c,
       parse_int (js_String (if bool_decide (unit_of row = "time") then time else height)) = Some c
       /\ t <= c
       /\ (own (value_of row) (js_String coin +:+ ":" +:+ n) = Some (GNum t) /\ is_nullish coin = false
           \/ (own (value_of row) (js_String coin +:+ ":" +:+ n) = None \/ is_nullish coin = true)
              /\ own (value_of row) n = Some (GNum t))).
Proof.
  intros Hr Ho Hg Hu. unfold activeAt, read. rewrite Hg, Ho.
  assert (negb (bool_decide (unit_of row = "height")) && negb (bool_decide (unit_of row = "epoch"))
          && negb (bool_decide (unit_of row = "time")) = false) as ->.
  { destruct Hu as [-> | [-> | ->]]; reflexivity. }
  cbn [rbind]. eexists. split; [reflexivity|]. rewrite reached_true. by setoid_rewrite resolve_num.
Qed.

(** The overlay is transparent off regtest. *)
Lemma overlay_regtest_only r e key n coin height time :
  n = "mainnet" \/ n = "testnet" ->
  activeAt key (JStr n) coin height time (setReadOverlay (regtestArming e) r)
  = activeAt key (JStr n) coin height time (Registry (entries r) None).
Proof.
  intros Hn. unfold activeAt, read, setReadOverlay. cbn [entries overlay].
  destruct (jm_get key (entries r)) as [row|]; [|done]. case_match; [done|].
  unfold regtestArming. destruct (jm_get key REGTEST_ARMING) as [rule|] eqn:Er; [|done].
  apply rule_regtest_only in Er as [Henv Hks]. unfold readRuleEnv. rewrite bool_decide_eq_true_2 by done.
  cbn [rbind]. by rewrite resolve_armed.
Qed.

(** No environment variable moves a mainnet or testnet gate: with the regtest
    arming installed over any environment, [activeAt] answers on those networks
    exactly as the committed rows alone do, for every key, coin, height and
    time. *)
Theorem arming_regtest_only r e key n coin height time :
  n = "mainnet" \/ n = "testnet" ->
  activeAt key (JStr n) coin height time (setReadOverlay (regtestArming e) r)
  = activeAt key (JStr n) coin height time (Registry (entries r) None).
Proof. apply overlay_regtest_only. Qed.

(** ** Witnesses *)
Definition ex_table : gval := GObj [("BTC:mainnet", GNum 958500); ("mainnet", UNPINNED); ("regtest", GNum 0)].
Definition ex_key : string := "state_commitment_activation.STATE_COMMITMENT_ACTIVATION".
Definition ex_row : gate_row := GateRow "height" ex_table.
Definition ex_registry : registry := Registry [(ex_key, ex_row)] None.
Definition ex_registry2 : registry :=
  Registry [(ex_key, ex_row); ("consensus-constants.GAS_TICK", GateRow "constant" (GStr "XCHAIN"))] None.

Lemma ex_reach : rtc reg_step createRegistry ex_registry.
Proof. eapply rtc_once, (step_add (JStr ex_key) "height" ex_table). reflexivity. Qed.

Lemma registry_invariant_witness :
  registry_ok ex_registry /\ row_ok ex_key ex_row /\ jm_get ex_key (entries ex_registry2) = Some ex_row.
Proof.
  apply (registry_invariant ex_registry ex_registry2 ex_key ex_row ex_reach); [|reflexivity].
  eapply rtc_once, (step_add (JStr "consensus-constants.GAS_TICK") "constant" (GStr "XCHAIN")). reflexivity.
Defined.

Lemma activeAt_fail_closed_witness :
  exists b, activeAt ex_key (JStr "mainnet") (JStr "BTC") (JInt 958500) JUndef ex_registry = Ok b /\
    (b = true <-> exists t c,
       parse_int (js_String (if bool_decide (unit_of ex_row = "time") then JUndef else JInt 958500)) = Some c
       /\ t <= c
       /\ (own (value_of ex_row) "BTC:mainnet" = Some (GNum t) /\ is_nullish (JStr "BTC") = false
           \/ (own (value_of ex_row) "BTC:mainnet" = None \/ is_nullish (JStr "BTC") = true)
              /\ own (value_of ex_row) "mainnet" = Some (GNum t))).
Proof.
  apply (activeAt_fail_closed ex_registry ex_key ex_row "mainnet" (JStr "BTC") (JInt 958500) JUndef ex_reach);
    [reflexivity | reflexivity | left; reflexivity].
Defined.

Definition ex_env : environment := fun _ => JStr "armed".

Lemma arming_regtest_only_witness :
  activeAt "rollcall_activation.ROLLCALL_ACTIVATION" (JStr "testnet") JNull (JInt 5) JUndef
    (setReadOverlay (regtestArming ex_env) ex_registry2)
  = activeAt "rollcall_activation.ROLLCALL_ACTIVATION" (JStr "testnet") JNull (JInt 5) JUndef
    (Registry (entries ex_registry2) None).
Proof. apply (arming_regtest_only ex_registry2 ex_env). right. reflexivity. Defined.

(** The coin key wins over an unpinned network key; the network key alone is
    inactive; on regtest the arming rules apply. *)
Example activeAt_coin_key : activeAt ex_key (JStr "mainnet") (JStr "BTC") (JStr "958500") JUndef ex_registry = Ok true.
Proof. vm_compute. reflexivity. Qed.
Example activeAt_unpinned : activeAt ex_key (JStr "mainnet") (JStr "LTC") (JInt 958500) JUndef ex_registry = Ok false.
Proof. vm_compute. reflexivity. Qed.
Example KEY_RE_accepts : KEY_RE ex_key = true /\ KEY_RE "a-b/c.D" = true /\ KEY_RE "abc" = false
  /\ KEY_RE "a..b" = false /\ KEY_RE ".b" = false /\ KEY_RE "a.b-c" = false.
Proof. vm_compute. repeat split. Qed.
Example regtest_words : regtestHeight (JStr " ARMED ") 0 = Some 0 /\ regtestHeight (JStr "120") 0 = Some 120
  /\ regtestHeight (JStr "12x") 0 = None /\ regtestHeight JUndef 0 = None.
Proof. vm_compute. repeat split. Qed.
