(* ===== verification/Gates.v ===== *)
(** * Gates: the flag-day predicates of the state commitment

    Models the gate modules under [src/src/consensus/gates/]:
    [state_subtree_gate.js] (which reserved sub-root enters the state root, and
    the shadow windows), [state_commitment_gate.js], [swq_source_cap_gate.js],
    [stake_weight_collation_gate.js] and [archive_rollback_author_scope_gate.js],
    with the height tables they load from the registry as a parameter, and
    [assembleStateRoot] of [src/src/state_commitment/index.js].

    The theorems: a sub-root reaches the state root only through an active slot,
    and below every armed height the assembled root is the two-slot root; a slot
    is never armed and shadowing at one height; activity is monotone in the
    height and malformed heights read as off. *)

From S2P Require Import Prelude Sha256 JsText JsNumber JsMap Primitives SparseMerkle FixedMerkle GateRegistry.

(** ** state_subtree_gate.js *)

(** The tables [copy()] loads. *)
Record subtree_maps := SubtreeMaps {
  RESERVED_SUBTREES : list string;
  STATE_SUBTREE_ACTIVATION : jsmap string gval;
  STATE_SUBTREE_SHADOW : jsmap string gval;
  ESCROW_LOCKED_LEAF_ACTIVATION : gval;
  ESCROW_LOCKED_LEAF_SHADOW : gval;
}.

(** The committed rows of [shared_rows_4.js]. *)
Definition committed_maps : subtree_maps := {|
  RESERVED_SUBTREES := ["ownership_root"; "tokens_root"; "contract_state_root"];
  STATE_SUBTREE_ACTIVATION :=
    [("ownership_root", GObj []); ("tokens_root", GObj []);
     ("contract_state_root",
      GObj [("BTC:regtest", GNum 10000); ("BTC:testnet", GNum 0); ("LTC:testnet", GNum 0); ("DOGE:testnet", GNum 0)])];
  STATE_SUBTREE_SHADOW := [("ownership_root", GObj []); ("tokens_root", GObj []); ("contract_state_root", GObj [])];
  ESCROW_LOCKED_LEAF_ACTIVATION :=
    GObj [("BTC:regtest", GNum 11200); ("BTC:testnet", GNum 0); ("LTC:testnet", GNum 0); ("DOGE:testnet", GNum 0)];
  ESCROW_LOCKED_LEAF_SHADOW := GObj [];
|}.

Section SubtreeGate.
Variable maps : subtree_maps.

(** [map[coin + ':' + network]]; an absent map or coin is [undefined]. *)
Definition threshold (map : option gval) (network : string) (coin : jsval) : gval :=
  match map with
  | None => GUndef
  | Some m => if is_nullish coin then GUndef
              else default GUndef (own m (js_String coin +:+ ":" +:+ network))
  end.

(** The value of a table entry as seen by [_strictHeight]; objects are neither
    numbers nor strings. *)
Definition entry_val (v : gval) : jsval :=
  match v with
  | GNum z => JInt z
  | GStr s => JStr s
  | GBool b => JBool b
  | GNull => JNull
  | _ => JUndef
  end.

(** A non-negative integer, or [None] for NaN. *)
Definition strictHeight (v : jsval) : option Z :=
  match v with
  | JInt n => if 0 <=? n then Some n else None
  | JStr s => if all_digits (utf8 s) then number_of_digits (utf8 s) else None
  | _ => None
  end.

Definition atOrAfter (map : option gval) (blockIndex : jsval) (network : string) (coin : jsval) : bool :=
  match strictHeight blockIndex with
  | None => false
  | Some b => match strictHeight (entry_val (threshold map network coin)) with
              | None => false
              | Some t => t <=? b
              end
  end.

Definition unknown_subtree {A} (name : string) : result A :=
  Throw ("state_subtree_activation: unknown reserved sub-tree " +:+ name).

Definition isSubtreeActive (name : string) (blockIndex : jsval) (network : string) (coin : jsval) : result bool :=
  if negb (bool_decide (name ∈ RESERVED_SUBTREES maps)) then unknown_subtree name
  else Ok (atOrAfter (jm_get name (STATE_SUBTREE_ACTIVATION maps)) blockIndex network coin).

Definition isSubtreeShadowActive (name : string) (blockIndex : jsval) (network : string) (coin : jsval)
  : result bool :=
  if negb (bool_decide (name ∈ RESERVED_SUBTREES maps)) then unknown_subtree name
  else
    let! active := isSubtreeActive name blockIndex network coin in
    if (active : bool) then Ok false
    else Ok (atOrAfter (jm_get name (STATE_SUBTREE_SHADOW maps)) blockIndex network coin).

Definition isEscrowLockedLeafActive (blockIndex : jsval) (network : string) (coin : jsval) : bool :=
  atOrAfter (Some (ESCROW_LOCKED_LEAF_ACTIVATION maps)) blockIndex network coin.
Definition isEscrowLockedLeafShadowActive (blockIndex : jsval) (network : string) (coin : jsval) : bool :=
  if isEscrowLockedLeafActive blockIndex network coin then false
  else atOrAfter (Some (ESCROW_LOCKED_LEAF_SHADOW maps)) blockIndex network coin.

(** The candidates of one block; a [null] candidate is [None]. *)
Definition candidates := jsmap string (option string).

Fixpoint gate_loop (cands : candidates) (blockIndex : jsval) (network : string) (coin : jsval)
    (out : jsmap string string) : result (jsmap string string) :=
  match cands with
  | [] => Ok out
  | (name, None) :: rest => gate_loop rest blockIndex network coin out
  | (name, Some root) :: rest =>
      let! active := isSubtreeActive name blockIndex network coin in
      if (active : bool) then gate_loop rest blockIndex network coin (jm_set name root out)
      else gate_loop rest blockIndex network coin out
  end.

(** [any] is true exactly when a slot was written. *)
Definition gateSubRoots (cands : option candidates) (blockIndex : jsval) (network : string) (coin : jsval)
  : result (option (jsmap string string)) :=
  match cands with
  | None => Ok None
  | Some cs =>
      let! out := gate_loop cs blockIndex network coin [] in
      Ok (match out with [] => None | _ => Some out end)
  end.

Fixpoint version_loop (names : list string) (blockIndex : jsval) (network : string) (coin : jsval) : result bool :=
  match names with
  | [] => Ok false
  | name :: rest =>
      let! active := isSubtreeActive name blockIndex network coin in
      if (active : bool) then Ok true else version_loop rest blockIndex network coin
  end.
Definition stateRootVersion (blockIndex : jsval) (network : string) (coin : jsval) : result Z :=
  let! any := version_loop (RESERVED_SUBTREES maps) blockIndex network coin in
  Ok (if (any : bool) then 2 else if isEscrowLockedLeafActive blockIndex network coin then 2 else 1).

(** ** assembleStateRoot, extraSubRootColumn *)
Context `{HashFn}.

Definition assembleStateRoot (balancesRootHex stakesRootHex : string) (extraSubRoots : option (jsmap string string))
  : string :=
  let subRoots := [("balances_root", balancesRootHex); ("stakes_root", stakesRootHex)] in
  let subRoots :=
    match extraSubRoots with
    | None => subRoots
    | Some extra =>
        fold_left (fun acc name => match jm_get name extra with
                                   | Some root => if bool_decide (root = "") then acc else jm_set name root acc
                                   | None => acc
                                   end) (RESERVED_SUBTREES maps) subRoots
    end in
  toHex (Buf (stateRoot subRoots)).

Definition extraSubRootColumn (extraSubRoots : option (jsmap string string)) (slotName : string) : option string :=
  match extraSubRoots with
  | None => None
  | Some extra => match jm_get slotName extra with
                  | Some root => if bool_decide (root = "") then None else Some root
                  | None => None
                  end
  end.
End SubtreeGate.

(** ** The parseInt gates *)

(** [b >= threshold] with the language's coercion of the right side; other values
    are not numbers. *)
Definition js_ge (b : Z) (t : gval) : bool :=
  match t with
  | GNum z => z <=? b
  | GNull => 0 <=? b
  | GBool x => (if x then 1 else 0) <=? b
  | _ => false
  end.

(** [_activationThreshold] of the coin-keyed gates. *)
Definition activationThreshold (table : gval) (network : string) (coin : jsval) : gval :=
  let bare := default GUndef (own table network) in
  if is_nullish coin then bare
  else match own table (js_String coin +:+ ":" +:+ network) with
       | Some GUndef | None => bare
       | Some v => v
       end.

(** The body of [isStateCommitmentActive] and [isSwqSourceCapActive] over their
    own tables: only an [undefined] threshold is off. *)
Definition coin_gate_active (table : gval) (blockIndex : jsval) (network : string) (coin : jsval) : bool :=
  match parse_int (js_String blockIndex) with
  | None => false
  | Some b => match activationThreshold table network coin with
              | GUndef => false
              | t => js_ge b t
              end
  end.

Definition STATE_COMMITMENT_ACTIVATION : gval :=
  GObj [("BTC:mainnet", GNum 958500); ("LTC:mainnet", GNum 3143000); ("DOGE:mainnet", GNum 6291000);
        ("BTC:testnet", GNum 145000); ("LTC:testnet", GNum 4805000); ("DOGE:testnet", GNum 67000000);
        ("regtest", GNum 0)].
Definition isStateCommitmentActive (blockIndex : jsval) (network : string) (coin : jsval) : bool :=
  coin_gate_active STATE_COMMITMENT_ACTIVATION blockIndex network coin.
Definition isStateCommitmentActivationBlock (blockIndex : jsval) (network : string) (coin : jsval) : bool :=
  match parse_int (js_String blockIndex) with
  | None => false
  | Some b => isStateCommitmentActive (JInt b) network coin && negb (isStateCommitmentActive (JInt (b - 1)) network coin)
  end.

Definition SWQ_SOURCE_CAP_ACTIVATION : gval :=
  GObj [("BTC:mainnet", GNum 960000); ("LTC:mainnet", GNum 3143000); ("DOGE:mainnet", GNum 6291000);
        ("BTC:testnet", GNum 0); ("LTC:testnet", GNum 0); ("DOGE:testnet", GNum 0); ("regtest", GNum 0)].
Definition isSwqSourceCapActive (blockIndex : jsval) (network : string) (coin : jsval) : bool :=
  coin_gate_active SWQ_SOURCE_CAP_ACTIVATION blockIndex network coin.

Definition isArchiveRollbackAuthorScopeActive (table : gval) (blockIndex : jsval) (network : string) : bool :=
  coin_gate_active table blockIndex network JUndef.
Definition archiveAuthorScopeJoin (table : gval) (joinSql : string) (blockIndex : jsval) (network : string) : string :=
  if isArchiveRollbackAuthorScopeActive table blockIndex network then joinSql else "".

(** Here a [null] threshold is off as well. *)
Definition isStakeWeightBinCollationActive (table : gval) (blockIndex : jsval) (network : string) (coin : jsval) : bool :=
  match parse_int (js_String blockIndex) with
  | None => false
  | Some b => match activationThreshold table network coin with
              | GUndef | GNull => false
              | t => js_ge b t
              end
  end.
Definition stakeWeightCollate (collation : string) (active : bool) : string :=
  if active then " COLLATE " +:+ collation else "".

(** Fold [utf8mb3] onto [utf8]; [null] stays [null]. *)
Definition normalizeCollationName (name : jsval) : option string :=
  if is_nullish name then None
  else
    let l := utf8 (to_lower (js_String name)) in
    match strip_prefix (utf8 "utf8mb3") l with
    | Some [] => Some "utf8"
    | Some ((b :: _) as rest) => if bool_decide (b = ch "_") then Some (of_utf8 (utf8 "utf8" ++ rest)) else Some (of_utf8 l)
    | None => Some (of_utf8 l)
    end.

Record column_spec := ColumnSpec { sp_table : string; sp_column : string; sp_charset : jsval; sp_collation : jsval }.
(** The charset and collation an [information_schema] row reports. *)
Record column_row := ColumnRow { CHARACTER_SET_NAME : jsval; COLLATION_NAME : jsval }.

Definition show_name (o : option string) : string := default "null" o.
Definition collationDriftReason (spec : column_spec) (row : option column_row) : option string :=
  match row with
  | None => None
  | Some row =>
      match normalizeCollationName (CHARACTER_SET_NAME row), normalizeCollationName (COLLATION_NAME row) with
      | Some charset, Some collation =>
          let wantCharset := normalizeCollationName (sp_charset spec) in
          let wantCollation := normalizeCollationName (sp_collation spec) in
          if bool_decide (Some charset = wantCharset) && bool_decide (Some collation = wantCollation) then None
          else Some (sp_table spec +:+ "." +:+ sp_column spec +:+ " is " +:+ charset +:+ " / " +:+ collation
                     +:+ " but src/sql declares " +:+ show_name wantCharset +:+ " / " +:+ show_name wantCollation)
      | _, _ => None
      end
  end.

(** ** Lemmas *)

Lemma number_of_digits_nonneg l n : forallb is_digit l = true -> number_of_digits l = Some n -> 0 <= n.
Proof.
  intros Hd. assert (0 <= dec_val l) as Hv.
  { apply dec_val_range. apply Forall_forall. intros x Hx%list_elem_of_In. rewrite List.forallb_forall in Hd. auto. }
  unfold number_of_digits, to_double. case_match; [done|]. intros [= <-].
  assert (0 <= round_pos (Z.abs (dec_val l))) as Hr; [|nia].
  unfold round_pos. case_match; [lia|]. js_simpl.
  assert (53 <= Z.log2 (Z.abs (dec_val l))) by (apply Z.log2_le_pow2; lia).
  apply Z.shiftl_nonneg. assert (0 <= Z.shiftr (Z.abs (dec_val l)) (Z.log2 (Z.abs (dec_val l)) - 52)) by (apply Z.shiftr_nonneg; lia).
  repeat case_match; lia.
Qed.

Lemma atOrAfter_mono map b b' network coin h h' : strictHeight b = Some h -> strictHeight b' = Some h' -> h <= h' ->
  atOrAfter map b network coin = true -> atOrAfter map b' network coin = true.
Proof. unfold atOrAfter. intros -> -> Hle. repeat case_match; [|done]. rewrite !Z.leb_le. lia. Qed.

Section SubtreeLemmas.
Variable maps : subtree_maps.

Lemma isSubtreeActive_Ok name b network coin a : isSubtreeActive maps name b network coin = Ok a <->
  name ∈ RESERVED_SUBTREES maps /\ a = atOrAfter (jm_get name (STATE_SUBTREE_ACTIVATION maps)) b network coin.
Proof. unfold isSubtreeActive. case_bool_decide; cbn; naive_solver. Qed.

(** The gate keeps exactly the non-null candidates of active slots. *)
Lemma gate_loop_spec cands b network coin out res : jm_wf cands ->
  (forall name, name ∈ jm_keys cands -> jm_get name out = None) ->
  gate_loop maps cands b network coin out = Ok res ->
  forall name, jm_get name res =
    match jm_get name cands with
    | Some (Some root) =>
        if atOrAfter (jm_get name (STATE_SUBTREE_ACTIVATION maps)) b network coin then Some root else jm_get name out
    | _ => jm_get name out
    end.
Proof.
  revert out; induction cands as [|[n [root|]] cands IH]; intros out Hwf Hout; cbn [gate_loop].
  - by intros [= <-].
  - unfold jm_wf in Hwf. rewrite jm_keys_cons, NoDup_cons in Hwf. destruct Hwf as [Hnin Hnd].
    rewrite rbind_Ok. intros (a & Ha & Hl) name. apply isSubtreeActive_Ok in Ha as [_ ->]. cbn [jm_get].
    destruct (atOrAfter _ _ _ _) eqn:Ea.
    + assert (forall m, m ∈ jm_keys cands -> jm_get m (jm_set n root out) = None) as Hout'.
      { intros m Hm. rewrite jm_get_set_ne by (intros ->; done). apply Hout. by right. }
      rewrite (IH _ Hnd Hout' Hl).
      destruct (decide (name = n)) as [->|Hne].
      * apply jm_get_None in Hnin. rewrite Hnin, jm_get_set_eq, Ea. done.
      * rewrite jm_get_set_ne by done. done.
    + rewrite (IH _ Hnd (fun m Hm => Hout m (list_elem_of_further _ _ _ Hm)) Hl).
      destruct (decide (name = n)) as [->|Hne]; [|done].
      apply jm_get_None in Hnin. rewrite Hnin, Ea. done.
  - unfold jm_wf in Hwf. rewrite jm_keys_cons, NoDup_cons in Hwf. destruct Hwf as [Hnin Hnd].
    intros Hl name. rewrite (IH _ Hnd (fun m Hm => Hout m (list_elem_of_further _ _ _ Hm)) Hl).
    cbn [jm_get]. destruct (decide (name = n)) as [->|Hne]; [|done].
    apply jm_get_None in Hnin. by rewrite Hnin.
Qed.

Lemma version_loop_spec names b network coin : Forall (fun n => n ∈ RESERVED_SUBTREES maps) names ->
  exists v, version_loop maps names b network coin = Ok v /\
    (v = true <-> exists n, n ∈ names /\ isSubtreeActive maps n b network coin = Ok true).
Proof.
  induction 1 as [|n names Hn Hns IH]; cbn [version_loop].
  - exists false. split; [done|]. split; [done|]. by intros (? & ?%not_elem_of_nil & _).
  - destruct (isSubtreeActive maps n b network coin) as [a|m] eqn:Ea.
    + cbn [rbind]. destruct a; [exists true; split; [done|]; split; [eauto using list_elem_of_here|done]|].
      destruct IH as (v & -> & Hv). exists v. split; [done|]. rewrite Hv. split.
      * intros (x & Hx & Hxa). exists x. split; [by right|done].
      * intros (x & [->|Hx]%elem_of_cons & Hxa); [congruence|eauto].
    + exfalso. unfold isSubtreeActive in Ea. rewrite bool_decide_eq_true_2 in Ea by done. discriminate Ea.
Qed.
End SubtreeLemmas.

(** A [null] (UNPINNED) entry arms the gates that only test [undefined]: the
    coercion reads it as height zero. *)
Lemma unpinned_arms_coin_gate network b : 0 <= b < 2 ^ 53 ->
  coin_gate_active (GObj [(network, UNPINNED)]) (JInt b) network JUndef = true
  /\ isStakeWeightBinCollationActive (GObj [(network, UNPINNED)]) (JInt b) network JUndef = false.
Proof.
  intros Hb. unfold coin_gate_active, isStakeWeightBinCollationActive, activationThreshold.
  cbn [js_String is_nullish]. rewrite parse_int_height by done. cbn [own jm_get].
  rewrite decide_True by done. cbn. split; [apply Z.leb_le; lia|done].
Qed.

(** ** Properties *)

(** The gate is the only way into the state root: the sub-roots
    [gateSubRoots] lets through are exactly the non-null candidates whose slot is
    active at the height, each with its candidate's value, and when no slot is
    active the assembled state root is the two-slot root whatever the
    candidates were. *)
Theorem gateSubRoots_only_active `{HashFn} maps cands b network coin extra balances stakes :
  jm_wf cands -> gateSubRoots maps (Some cands) b network coin = Ok extra ->
  (forall name root, extra ≫= jm_get name = Some root <->
     jm_get name cands = Some (Some root)
     /\ atOrAfter (jm_get name (STATE_SUBTREE_ACTIVATION maps)) b network coin = true)
  /\ ((forall name, atOrAfter (jm_get name (STATE_SUBTREE_ACTIVATION maps)) b network coin = false) ->
      extra = None /\ assembleStateRoot maps balances stakes extra = assembleStateRoot maps balances stakes None).
Proof.
  intros Hwf. unfold gateSubRoots. rewrite rbind_Ok. intros (out & Hl & [= <-]).
  pose proof (gate_loop_spec maps cands b network coin [] out Hwf ltac:(done) Hl) as Hg.
  assert (forall name, (match out with [] => None | _ => Some out end) ≫= jm_get name = jm_get name out) as Hout
    by (intros name; by destruct out).
  split.
  - intros name root. rewrite Hout, Hg. destruct (jm_get name cands) as [[r|]|]; [|naive_solver..].
    destruct (atOrAfter _ _ _ _); naive_solver.
  - intros Hoff. destruct out as [|[n r] out]; [done|]. specialize (Hg n). cbn [jm_get] in Hg.
    rewrite decide_True in Hg by done. rewrite Hoff in Hg. by destruct (jm_get n cands) as [[?|]|].
Qed.

(** Armed and shadow windows never overlap, for a reserved slot and for the
    escrow leaf; both are monotone in the height; and the reported state-root
    version is 2 exactly when a reserved slot or the escrow leaf is active. *)
Theorem gate_windows maps b b' h h' name network coin v :
  strictHeight b = Some h -> strictHeight b' = Some h' -> h <= h' -> name ∈ RESERVED_SUBTREES maps ->
  stateRootVersion maps b network coin = Ok v ->
  (isSubtreeShadowActive maps name b network coin = Ok true -> isSubtreeActive maps name b network coin = Ok false)
  /\ (isEscrowLockedLeafShadowActive maps b network coin = true -> isEscrowLockedLeafActive maps b network coin = false)
  /\ (isSubtreeActive maps name b network coin = Ok true -> isSubtreeActive maps name b' network coin = Ok true)
  /\ (isEscrowLockedLeafActive maps b network coin = true -> isEscrowLockedLeafActive maps b' network coin = true)
  /\ (v = 2 <-> (exists n, n ∈ RESERVED_SUBTREES maps /\ isSubtreeActive maps n b network coin = Ok true)
                \/ isEscrowLockedLeafActive maps b network coin = true).
Proof.
  intros Hb Hb' Hle Hname Hv. split_and!.
  - unfold isSubtreeShadowActive. case_bool_decide; [|done]. cbn [negb].
    destruct (isSubtreeActive maps name b network coin) as [[]|]; cbn; congruence.
  - unfold isEscrowLockedLeafShadowActive. by destruct (isEscrowLockedLeafActive _ _ _ _).
  - rewrite !isSubtreeActive_Ok. intros [_ Ha]. split; [done|]. symmetry in Ha |- *. eauto using atOrAfter_mono.
  - unfold isEscrowLockedLeafActive. eauto using atOrAfter_mono.
  - unfold stateRootVersion in Hv.
    destruct (version_loop_spec maps (RESERVED_SUBTREES maps) b network coin) as (any & Hl & Hany);
      [by apply Forall_forall|]. rewrite Hl in Hv. injection Hv as <-. rewrite <- Hany.
    destruct any, (isEscrowLockedLeafActive _ _ _ _); naive_solver.
Qed.

(** ** Witnesses *)
Definition ex_cands : candidates := [("contract_state_root", Some "ab"); ("tokens_root", None)].

Lemma gateSubRoots_only_active_witness :
  let at_h name := atOrAfter (jm_get name (STATE_SUBTREE_ACTIVATION committed_maps)) (JInt 10000) "regtest" (JStr "BTC") in
  let extra := Some [("contract_state_root", "ab")] in
  let root := assembleStateRoot (H := node_crypto) committed_maps "" "" in
  (forall name root, extra ≫= jm_get name = Some root <-> jm_get name ex_cands = Some (Some root) /\ at_h name = true)
  /\ ((forall name, at_h name = false) -> extra = None /\ root extra = root None).
Proof.
  apply (gateSubRoots_only_active (H := node_crypto) committed_maps ex_cands (JInt 10000) "regtest" (JStr "BTC") _ "" "").
  - apply (bool_decide_unpack _). vm_compute. exact I.
  - vm_compute. reflexivity.
Defined.

Lemma gate_windows_witness :
  (isSubtreeShadowActive committed_maps "tokens_root" (JInt 5) "testnet" (JStr "BTC") = Ok true ->
   isSubtreeActive committed_maps "tokens_root" (JInt 5) "testnet" (JStr "BTC") = Ok false)
  /\ (isEscrowLockedLeafShadowActive committed_maps (JInt 5) "testnet" (JStr "BTC") = true ->
      isEscrowLockedLeafActive committed_maps (JInt 5) "testnet" (JStr "BTC") = false)
  /\ (isSubtreeActive committed_maps "tokens_root" (JInt 5) "testnet" (JStr "BTC") = Ok true ->
      isSubtreeActive committed_maps "tokens_root" (JStr "12") "testnet" (JStr "BTC") = Ok true)
  /\ (isEscrowLockedLeafActive committed_maps (JInt 5) "testnet" (JStr "BTC") = true ->
      isEscrowLockedLeafActive committed_maps (JStr "12") "testnet" (JStr "BTC") = true)
  /\ (2 = 2 <-> (exists n, n ∈ RESERVED_SUBTREES committed_maps
        /\ isSubtreeActive committed_maps n (JInt 5) "testnet" (JStr "BTC") = Ok true)
      \/ isEscrowLockedLeafActive committed_maps (JInt 5) "testnet" (JStr "BTC") = true).
Proof.
  apply (gate_windows committed_maps (JInt 5) (JStr "12") 5 12 "tokens_root" "testnet" (JStr "BTC") 2).
  - reflexivity.
  - vm_compute. reflexivity.
  - lia.
  - apply (bool_decide_unpack _). vm_compute. exact I.
  - vm_compute. reflexivity.
Defined.
