(* ===== verification/SharedRows.v ===== *)
(** * SharedRows: the committed activation table

    The rows [src/src/consensus/gate_registry/shared_rows_1.js] to
    [shared_rows_5.js] queue with [addGate], in file order, and the registry
    [src/src/consensus/gate_registry.js] builds from them.  A regular expression
    is its source text.

    The theorems: loading the table never throws and every row reads back as
    declared; the module gates that test only for [undefined] agree with the
    registry on it; and the flag days of the stake commitment are ordered as the
    rows' comments require. *)

From S2P Require Import Prelude Sha256 JsText JsNumber JsMap Primitives GateRegistry Gates.

Definition rows_1a : list (string * string * gval) :=
  [("anchor_bundle_order_activation.ANCHOR_BUNDLE_ORDER_ACTIVATION", "height", GObj [("mainnet", UNARMED);
      ("BTC:testnet", GNum 155001); ("LTC:testnet", GNum 4906040); ("DOGE:testnet", GNum 67962387);
      ("testnet", UNARMED); ("regtest", GNum 0)]);
   ("anchor_reward_activation.ANCHOR_REWARD_ACTIVATION", "height", GObj [("mainnet", GNum 961000);
      ("testnet", GNum 0); ("regtest", GNum 0)]);
   ("anchor_reward_activation.ANCHOR_REWARD_AMOUNT", "constant", GStr "10.00000000");
   ("anchor_reward_activation.ARCHIVE_REWARD_ACTIVATION", "height", GObj [("mainnet", GNum 963000);
      ("testnet", GNum 0); ("regtest", GNum 0)]);
   ("anchor_reward_activation.ARCHIVE_REWARD_AMOUNT", "constant", GStr "10.00000000")].

Definition rows_1b : list (string * string * gval) :=
  [("anchor_reward_activation.ANCHOR_REWARD_DERIVE_ACTIVATION", "height", GObj [("mainnet", GNum 0);
      ("testnet", GNum 0); ("regtest", GNum 0)]);
   ("anchor_reward_activation.ANCHOR_REWARD_MIRROR_MATURITY", "constant", GNum 144);
   ("anchor_reward_activation.ANCHOR_REWARD_DOGE_MIN_CONFIRMATIONS", "constant", GNum 60);
   ("anchor_reward_activation.ANCHOR_ATTEST_ARRIVAL_MARGIN_S", "constant", GNum 64800);
   ("anchor_reward_activation.ANCHOR_ATTEST_BARRIER_ACTIVATION", "height", GObj [("mainnet", GNull);
      ("testnet", GNum 154291); ("regtest", UNPINNED)]);
   ("archive_rollback_author_scope_activation.ARCHIVE_ROLLBACK_AUTHOR_SCOPE_ACTIVATION", "height", GObj [("mainnet", GNum 0);
      ("testnet", GNum 67915000); ("regtest", UNARMED)]);
   ("archive_rollback_author_scope_activation.ARCHIVE_AUTHOR_SCOPE_JOIN_SQL", "constant", GStr "JOIN actions         pact ON pact.action_index = p.action_index JOIN index_addresses padr ON padr.id = pact.source_id JOIN actions         cact ON cact.action_index = c.action_index JOIN index_addresses cadr ON cadr.id = cact.source_id AND cadr.address = padr.address ");
   ("attest_relay_activation.ATTEST_RELAY_ACTIVATION", "height", GObj [("mainnet", GNum 963000);
      ("testnet", GNum 0); ("regtest", GNum 0)]);
   ("attest_response_mirror_activation.ATTEST_RESPONSE_MIRROR_ACTIVATION", "height", GObj [("mainnet", GNull);
      ("testnet", GNum 151324); ("regtest", GNum 0)]);
   ("attest_responsible_widening_activation.ATTEST_RESPONSIBLE_WIDENING_ACTIVATION", "height", GObj [("mainnet", GNum 0);
      ("testnet", GNum 150780); ("regtest", GNum 0)])].

Definition rows_1c : list (string * string * gval) :=
  [("attest_responsible_widening_activation.ATTEST_RESPONSIBLE_WIDENING", "constant", GObj [("confirmations", GNum 3);
      ("maxSlots", GNum 2)])].

Definition rows_2a : list (string * string * gval) :=
  [("attest_responsible_widening_activation.ATTEST_RESPONSIBLE_WIDENING_V2", "constant", GObj [("startOffset", GNum 0);
      ("headroom", GNum 1); ("maxSlots", GNum 2)]);
   ("attest_zero_conf_activation.ATTEST_ZERO_CONF_ACTIVATION", "height", GObj [("mainnet", GNull);
      ("testnet", GNum 151800); ("regtest", GNum 0)]);
   ("checkpoint_commitment_activation.CHECKPOINT_COMMITMENT_ACTIVATION", "height", GObj [("mainnet", GNum 961000);
      ("testnet", GNum 146000); ("regtest", GNum 0)]);
   ("cross_chain_royalty_activation.CROSS_CHAIN_ROYALTY_ACTIVATION", "height", GObj [("mainnet", GNum 961000);
      ("testnet", GNum 0); ("regtest", GNum 0)]);
   ("equivocation_header.EQUIV_HEADER_ACTIVATION", "height", GObj [("mainnet", GNum 961000); ("testnet", GNum 0);
      ("regtest", GNum 0)]);
   ("equivocation_header.ENGINE_TAGS", "constant", GObj [("DEX", GStr "XDEX"); ("XCALL", GStr "XCALL");
      ("ATTEST", GStr "XATTEST"); ("ORACLE", GStr "XORACLE"); ("ORACLE_BATCH", GStr "XORACLEB");
      ("CHECKPOINT", GStr "XCHECKPOINT"); ("CONFIG", GStr "XCONFIG"); ("NODEPROOF", GStr "XNODEPROOF");
      ("ROLLCALL", GStr "XROLLCALL"); ("BRIDGE", GStr "XBRIDGE"); ("POLICY", GStr "XPOLICY");
      ("LIST_SHARE", GStr "XLISTSHARE")]);
   ("list_edit_resolution_activation.LIST_EDIT_RESOLUTION_ACTIVATION", "height", GObj [("BTC:mainnet", GNum 963000);
      ("LTC:mainnet", GNum 3162000); ("DOGE:mainnet", GNum 6338000); ("BTC:testnet", GNum 0);
      ("LTC:testnet", GNum 0); ("DOGE:testnet", GNum 0); ("regtest", GNum 0)]);
   ("mirror_admission_activation.ADMIT_MARGIN_BLOCKS", "constant", GObj [("default", GNum 4);
      ("attestation_responses", GNum 1); ("oracle_prices", GNum 1); ("anchor_reward_attestations", GNum 144)]);
   ("mirror_admission_activation.ADMIT_MIN_FUTURE_BLOCKS", "constant", GNum 1);
   ("mirror_admission_activation.ADMIT_MAX_FUTURE_BLOCKS", "constant", GObj [("BTC", GNum 6); ("LTC", GNum 24);
      ("DOGE", GNum 60); ("default", GNum 6)])].

Definition rows_2b : list (string * string * gval) :=
  [("mirror_admission_activation.MIRROR_ADMISSION_ACTIVATION", "height", GObj [("BTC:mainnet", GNull);
      ("LTC:mainnet", GNull); ("DOGE:mainnet", GNull); ("BTC:testnet", GNum 154234);
      ("LTC:testnet", GNum 4903068); ("DOGE:testnet", GNum 67936053); ("BTC:regtest", UNPINNED);
      ("LTC:regtest", UNPINNED); ("DOGE:regtest", UNPINNED)]);
   ("mirror_admission_activation.MIRROR_ADMISSION_CONSUMER_ACTIVATION", "height", GObj [("BTC:mainnet", GNull);
      ("LTC:mainnet", GNull); ("DOGE:mainnet", GNull); ("BTC:testnet", GNum 154291);
      ("LTC:testnet", GNum 4903291); ("DOGE:testnet", GNum 67936888); ("BTC:regtest", UNPINNED);
      ("LTC:regtest", UNPINNED); ("DOGE:regtest", UNPINNED)]);
   ("mirror_admission_activation.MIRROR_ADMISSION_REGTEST_ENV", "constant", GStr "XC_MIRROR_ADMISSION_ACTIVATION");
   ("mirror_admission_activation.MIRROR_ADMISSION_REGTEST_ARMED_HEIGHT", "constant", GNum 0);
   ("mirror_admission_activation.CHAIN_CODE_RE", "constant", GRegExp "^[A-Z0-9]{1,10}$");
   ("mirror_admission_activation.CANONICAL_HEIGHT_RE", "constant", GRegExp "^(?:0|[1-9][0-9]*)$");
   ("mirror_admission_activation.ADMIT_COLUMN_CHAINS", "constant", GArr [GStr "BTC"; GStr "LTC"; GStr "DOGE"]);
   ("price_pair_activation.PRICE_PAIR_TICKER_MAX_LEGACY", "constant", GNum 5);
   ("price_pair_activation.PRICE_PAIR_TICKER_MAX_WIDE", "constant", GNum 6);
   ("price_pair_activation.PRICE_PAIR_WIDEN_ACTIVATION", "time", GObj [("mainnet", GNum 0); ("testnet", GNum 0);
      ("regtest", GNum 0)]);
   ("price_pair_activation.PRICE_PAIR_RE_LEGACY", "constant", GRegExp "^[A-Z]{3,5}\/[A-Z]{3,5}$");
   ("price_pair_activation.PRICE_PAIR_RE_WIDE", "constant", GRegExp "^[A-Z]{3,6}\/[A-Z]{3,5}$");
   ("price_scale_activation.PRICE_SCALE_MAX_DECIMALS", "constant", GNum 8);
   ("price_scale_activation.PRICE_VALUE_RE_LEGACY", "constant", GRegExp "^[0-9]+(\.[0-9]+)?$");
   ("price_scale_activation.PRICE_VALUE_RE_CANONICAL", "constant", GRegExp "^(0|[1-9][0-9]*)(\.[0-9]{1,8})?$");
   ("price_scale_activation.PRICE_V1_CANONICAL_ACTIVATION", "time", GObj [("mainnet", UNARMED);
      ("BTC:testnet", GNum 1791061097); ("LTC:testnet", GNum 1791061097); ("DOGE:testnet", GNum 1791061097);
      ("testnet", UNARMED); ("regtest", GNum 0)]);
   ("price_scale_activation.PRICE_V1_FEE_RE_CANONICAL", "constant", GRegExp "^(0|[1-9][0-9]*)(\.[0-9]{1,18})?$");
   ("price_scale_activation.PRICE_V1_VALUE_MAX_LENGTH", "constant", GNum 19);
   ("price_scale_activation.PRICE_V1_FEE_MAX_LENGTH", "constant", GNum 20);
   ("price_sig_tally_activation.PRICE_SIG_TALLY_ACTIVATION", "height", GObj [("mainnet", GNum 963000);
      ("testnet", GNum 0); ("regtest", GNum 0)]);
   ("retraction_signing_activation.RETRACTION_SIGNING_ACTIVATION", "height", GObj [("mainnet", GNum 963000);
      ("testnet", GNum 0); ("regtest", GNum 0)])].

Definition rows_2c : list (string * string * gval) :=
  [("price_fee_batch_landed_activation.PRICE_LANDING_CHAINS", "constant", GObj [("mainnet", GArr [GStr "DOGE"]);
      ("testnet", GArr [GStr "DOGE"]); ("regtest", GArr [GStr "DOGE"])])].

Definition rows_3a : list (string * string * gval) :=
  [("rollcall_activation.ROLLCALL_ACTIVATION", "epoch", GObj [("mainnet", GNum 0); ("testnet", GNum 151200);
      ("regtest", UNPINNED)]);
   ("rollcall_activation.ROLLCALL_REGTEST_ARMED_HEIGHT", "constant", GNum 0);
   ("rollcall_activation.ROLLCALL_REGTEST_ENV", "constant", GStr "XC_ROLLCALL_REGTEST_ACTIVATION");
   ("rollcall_activation.ROLLCALL_INTERVAL_BLOCKS", "constant", GObj [("mainnet", GNum 1008);
      ("testnet", GNum 1008); ("regtest", GNum 30)]);
   ("rollcall_activation.ROLLCALL_ACCEPT_WINDOW_BLOCKS", "constant", GObj [("mainnet", GNum 144);
      ("testnet", GNum 144); ("regtest", GNum 12)]);
   ("rollcall_activation.ROLLCALL_PROOF_DELAY_BLOCKS", "constant", GObj [("mainnet", GNum 36);
      ("testnet", GNum 36); ("regtest", GNum 2)]);
   ("rollcall_activation.ROLLCALL_DOGE_MATURITY", "constant", GObj [("mainnet", GNum 60); ("testnet", GNum 60);
      ("regtest", GNum 2)]);
   ("rollcall_activation.ROLLCALL_EVICT_MISSES", "constant", GNum 2);
   ("rollcall_activation.ROLLCALL_STREAK_LOOKBACK", "constant", GNum 4);
   ("rollcall_activation.ROLLCALL_REWARD_AMOUNT", "constant", GStr "10.00000000");
   ("rollcall_gates_activation.ROLLCALL_GATES_ACTIVATION", "epoch", GObj [("mainnet", GNull);
      ("testnet", GNum 152208); ("regtest", UNPINNED)]);
   ("rollcall_gates_activation.ROLLCALL_GATES_REGTEST_ARMED_HEIGHT", "constant", GNum 0);
   ("rollcall_gates_activation.ROLLCALL_GATES_REGTEST_ENV", "constant", GStr "XC_ROLLCALL_GATES_REGTEST_ACTIVATION");
   ("snapshot_reorg_buffer.CANONICAL_REORG_BUFFER", "constant", GNum 6);
   ("snapshot_reorg_buffer.SNAPSHOT_BURIAL_ACTIVATION", "height", GObj [("mainnet", GNum 0); ("testnet", GNum 0);
      ("regtest", GNum 0)]);
   ("stake_weight_collation_activation.STAKE_WEIGHT_COLLATION", "constant", GStr "utf8_bin");
   ("stake_weight_collation_activation.STAKE_WEIGHT_COLLATION_ACTIVATION", "height", GObj [("BTC:mainnet", GNum 0);
      ("LTC:mainnet", GNum 0); ("DOGE:mainnet", GNum 0); ("BTC:testnet", GNum 155001);
      ("LTC:testnet", GNum 4906040); ("DOGE:testnet", GNum 67962387); ("regtest", GNum 0)]);
   ("stake_weight_collation_activation.STAKE_WEIGHT_ORDERING_COLUMNS", "constant", GArr [GObj [("table", GStr "index_addresses");
      ("column", GStr "address"); ("charset", GStr "utf8"); ("collation", GStr "utf8_general_ci")];
      GObj [("table", GStr "index_pubkeys"); ("column", GStr "pubkey"); ("charset", GStr "utf8");
      ("collation", GStr "utf8_general_ci")]]);
   ("stake_weighted_quorum.STAKE_WEIGHTED_QUORUM_ACTIVATION", "height", GObj [("mainnet", GNum 961000);
      ("testnet", GNum 0); ("regtest", GNum 0)])].

Definition rows_3b : list (string * string * gval) :=
  [("stateHash.STATE_HASH_VERSION", "constant", GNum 1);
   ("stateHash.DEACTIVATION_TABLES", "constant", GArr [GStr "stakes"; GStr "delegations"; GStr "contract_stakes";
      GStr "contract_delegations"]);
   ("stateHash.SLASH_SPECS", "constant", GArr [GObj [("table", GStr "stakes");
      ("debits", GStr "capability_slash_debits"); ("target", GStr "stakes")]; GObj [("table", GStr "unstakes");
      ("debits", GStr "capability_slash_debits"); ("target", GStr "unstakes")];
      GObj [("table", GStr "contract_stakes"); ("debits", GStr "contract_slash_debits");
      ("target", GStr "contract_stakes")]; GObj [("table", GStr "contract_unstakes");
      ("debits", GStr "contract_slash_debits"); ("target", GStr "contract_unstakes")]]);
   ("stateHash.REQUEST_STATUS_TABLES", "constant", GArr [GStr "attests"; GStr "xcalls"]);
   ("stateHash.COOLDOWN_TABLES", "constant", GArr [GStr "unstakes"; GStr "contract_unstakes"]);
   ("stateHash.POLL_FINALIZE_STATE_HASH_ACTIVATION", "height", GObj [("BTC:mainnet", GNum 958500);
      ("LTC:mainnet", GNum 3143000); ("DOGE:mainnet", GNum 6291000); ("BTC:testnet", GNum 145000);
      ("LTC:testnet", GNum 4805000); ("DOGE:testnet", GNum 67000000); ("regtest", GNum 0)]);
   ("stateHash.TOKEN_SUPPLY_STATE_HASH_ACTIVATION", "height", GObj [("BTC:mainnet", GNum 958500);
      ("LTC:mainnet", GNum 3143000); ("DOGE:mainnet", GNum 6291000); ("BTC:testnet", GNum 145000);
      ("LTC:testnet", GNum 4805000); ("DOGE:testnet", GNum 67000000); ("regtest", GNum 0)]);
   ("stateHash.BET_STATUS_STATE_HASH_ACTIVATION", "height", GObj [("BTC:mainnet", GNum 963000);
      ("LTC:mainnet", GNum 3162000); ("DOGE:mainnet", GNum 6338000); ("BTC:testnet", GNum 0);
      ("LTC:testnet", GNum 0); ("DOGE:testnet", GNum 0); ("regtest", GNum 0)]);
   ("stateHash.ARCHIVE_HEAD_VERSIONS", "constant", GArr [GNum 1]);
   ("stateHash.ARCHIVE_HEAD_VERSIONS_SQL", "constant", GStr "IN (1)")].

Definition rows_4a : list (string * string * gval) :=
  [("stateHash.ARCHIVE_INVALID_HEIGHT_KEY_ACTIVATION", "height", GObj [("BTC:mainnet", GNum 0);
      ("LTC:mainnet", GNum 0); ("DOGE:mainnet", GNum 0); ("BTC:testnet", GNum 155000);
      ("LTC:testnet", GNum 4896000); ("DOGE:testnet", GNum 67915000); ("regtest", GNum 0)]);
   ("stateHash.ARCHIVE_CHUNK_HEIGHT_COL", "constant", GStr "c.block_index_doge");
   ("stateHash.ARCHIVE_CHUNK_HEIGHT_COL_LEGACY", "constant", GStr "c.block_index");
   ("state_commitment_activation.STATE_COMMITMENT_ACTIVATION", "height", GObj [("BTC:mainnet", GNum 958500);
      ("LTC:mainnet", GNum 3143000); ("DOGE:mainnet", GNum 6291000); ("BTC:testnet", GNum 145000);
      ("LTC:testnet", GNum 4805000); ("DOGE:testnet", GNum 67000000); ("regtest", GNum 0)]);
   ("state_key_collation_activation.STATE_KEY_COLLATION_ACTIVATION", "height", GObj [("BTC:mainnet", GNum 962500);
      ("LTC:mainnet", GNum 3160000); ("DOGE:mainnet", GNum 6335000); ("BTC:testnet", GNum 0);
      ("LTC:testnet", GNum 0); ("DOGE:testnet", GNum 0); ("regtest", GNum 0)]);
   ("state_subtree_activation.RESERVED_SUBTREES", "constant", GArr [GStr "ownership_root"; GStr "tokens_root";
      GStr "contract_state_root"]);
   ("state_subtree_activation.STATE_SUBTREE_ACTIVATION", "constant", GObj [("ownership_root", GObj []);
      ("tokens_root", GObj []); ("contract_state_root", GObj [("BTC:regtest", GNum 10000);
      ("BTC:testnet", GNum 0); ("LTC:testnet", GNum 0); ("DOGE:testnet", GNum 0)])])].

Definition rows_4b : list (string * string * gval) :=
  [("state_subtree_activation.STATE_SUBTREE_SHADOW", "constant", GObj [("ownership_root", GObj []);
      ("tokens_root", GObj []); ("contract_state_root", GObj [])]);
   ("state_subtree_activation.ESCROW_LOCKED_LEAF_ACTIVATION", "height", GObj [("BTC:regtest", GNum 11200);
      ("BTC:testnet", GNum 0); ("LTC:testnet", GNum 0); ("DOGE:testnet", GNum 0)]);
   ("state_subtree_activation.ESCROW_LOCKED_LEAF_SHADOW", "height", GObj []);
   ("swq_source_cap_activation.STAKE_WEIGHT_MAX_SOURCES", "constant", GNum 1000);
   ("swq_source_cap_activation.STAKE_WEIGHT_MAX_KEYS_PER_SOURCE", "constant", GNum 64);
   ("swq_source_cap_activation.SWQ_SOURCE_CAP_ACTIVATION", "height", GObj [("BTC:mainnet", GNum 960000);
      ("LTC:mainnet", GNum 3143000); ("DOGE:mainnet", GNum 6291000); ("BTC:testnet", GNum 0);
      ("LTC:testnet", GNum 0); ("DOGE:testnet", GNum 0); ("regtest", GNum 0)]);
   ("token_bridge_activation.TOKEN_BRIDGE_ACTIVATION", "height", GObj [("mainnet", UNARMED);
      ("BTC:testnet", GNum 154567); ("LTC:testnet", GNum 4903068); ("DOGE:testnet", GNum 67951140);
      ("testnet", UNARMED); ("regtest", GNum 0)])].

Definition rows_5a : list (string * string * gval) :=
  [("token_policy_activation.TOKEN_POLICY_INHERITANCE_ACTIVATION", "height", GObj [("mainnet", UNARMED);
      ("BTC:testnet", GNum 154567); ("LTC:testnet", GNum 4903068); ("DOGE:testnet", GNum 67951140);
      ("testnet", UNARMED); ("regtest", GNum 0)]);
   ("train_activation.TRAIN_ACTIVATION", "ruleset", GObj [("1.0.0", GObj [("mainnet", GNum 0);
      ("testnet", GNum 0); ("regtest", GNum 0)]); ("0.19.0", GObj [("mainnet", UNARMED);
      ("testnet", GNum 152787); ("regtest", GNum 0)]); ("0.20.0", GObj [("mainnet", UNARMED);
      ("testnet", GNum 154074); ("regtest", GNum 0)]); ("0.21.0", GObj [("mainnet", UNARMED);
      ("testnet", GNum 154566); ("regtest", GNum 0)])]);
   ("xchain_bridge_activation.XCHAIN_BRIDGE_ACTIVATION", "height", GObj [("BTC:mainnet", UNARMED);
      ("LTC:mainnet", UNARMED); ("DOGE:mainnet", UNARMED); ("mainnet", UNARMED); ("BTC:testnet", GNum 152929);
      ("LTC:testnet", GNum 4887898); ("DOGE:testnet", GNum 67902062); ("testnet", UNARMED);
      ("regtest", GNum 0)]);
   ("anchor_empty_fold_reject_activation.ANCHOR_EMPTY_FOLD_REJECT_ACTIVATION", "height", GObj [("mainnet", UNARMED);
      ("BTC:testnet", GNum 156230); ("LTC:testnet", GNum 4912984); ("DOGE:testnet", GNum 67989993);
      ("testnet", UNARMED); ("regtest", GNum 0)]);
   ("cooldown_maturity_escrow_reversal_activation.COOLDOWN_MATURITY_ESCROW_REVERSAL_ACTIVATION", "height", GObj [("mainnet", UNARMED);
      ("BTC:testnet", GNum 156230); ("LTC:testnet", GNum 4912984); ("DOGE:testnet", GNum 67989993);
      ("testnet", UNARMED); ("regtest", GNum 0)]);
   ("dispenser_refill_policy_activation.DISPENSER_REFILL_POLICY_ACTIVATION", "height", GObj [("mainnet", UNARMED);
      ("BTC:testnet", GNum 156230); ("LTC:testnet", GNum 4912984); ("DOGE:testnet", GNum 67989993);
      ("testnet", UNARMED); ("regtest", GNum 0)]);
   ("anchor_fold_activation.ANCHOR_FOLD_ACTIVATION", "height", GObj [("mainnet", UNARMED);
      ("BTC:testnet", GNum 155001); ("LTC:testnet", GNum 4906040); ("DOGE:testnet", GNum 67962387);
      ("testnet", UNARMED); ("regtest", UNPINNED)])].

Definition rows_5b : list (string * string * gval) :=
  [("archive_rollcall_presence_activation.ARCHIVE_ROLLCALL_PRESENCE_ACTIVATION", "height", GObj [("mainnet", UNPINNED);
      ("BTC:testnet", GNum 158557); ("LTC:testnet", GNum 4949697); ("DOGE:testnet", GNum 68035864);
      ("testnet", UNARMED); ("regtest", GNum 0)]);
   ("archive_section_verdict_activation.ARCHIVE_SECTION_VERDICT_STATE_HASH_ACTIVATION", "height", GObj [("mainnet", UNARMED);
      ("BTC:testnet", GNum 155001); ("LTC:testnet", GNum 4906040); ("DOGE:testnet", GNum 67962387);
      ("testnet", UNARMED); ("regtest", UNPINNED)]);
   ("attest_relay_response_deadline_activation.ATTEST_RELAY_RESPONSE_DEADLINE_ACTIVATION", "time", GObj [("mainnet", UNARMED);
      ("BTC:testnet", GNum 1791804379); ("LTC:testnet", GNum 1791804379); ("DOGE:testnet", GNum 1791804379);
      ("testnet", GNum 1791804379); ("regtest", GNum 0)]);
   ("bridge_row_fields_terminal_activation.BRIDGE_ROW_FIELDS_TERMINAL_ACTIVATION", "height", GObj [("mainnet", UNARMED);
      ("BTC:testnet", GNum 156230); ("LTC:testnet", GNum 4912984); ("DOGE:testnet", GNum 67989993);
      ("testnet", UNARMED); ("regtest", GNum 0)]);
   ("checkpoint_supersede_activation.CHECKPOINT_SUPERSEDE_ACTIVATION", "height", GObj [("mainnet", UNPINNED);
      ("BTC:testnet", GNum 158557); ("LTC:testnet", GNum 4949697); ("DOGE:testnet", GNum 68035864);
      ("testnet", UNARMED); ("regtest", GNum 0)]);
   ("list_share_producer_activation.LIST_SHARE_PRODUCER_ACTIVATION", "height", GObj [("mainnet", UNARMED);
      ("testnet", GNum 154777); ("regtest", GNum 0)]);
   ("list_share_consumer_activation.LIST_SHARE_CONSUMER_ACTIVATION", "height", GObj [("mainnet", UNARMED);
      ("testnet", UNARMED); ("BTC:testnet", GNum 154777); ("LTC:testnet", GNum 4905004);
      ("DOGE:testnet", GNum 67956922); ("regtest", GNum 0)]);
   ("list_meta_activation.LIST_META_ACTIVATION", "height", GObj [("mainnet", UNARMED); ("testnet", UNARMED);
      ("BTC:testnet", GNum 155001); ("LTC:testnet", GNum 4906040); ("DOGE:testnet", GNum 67962387);
      ("regtest", GNum 0)]);
   ("mirror_admission_margin_activation.ADMIT_CHAIN_MARGIN_BLOCKS", "constant", GObj [("DOGE", GObj [("bridge_transfers", GNum 14);
      ("cross_chain_calls", GNum 14); ("cross_chain_matches", GNum 14); ("list_snapshots", GNum 14);
      ("policy_snapshots", GNum 14); ("price_snapshots", GNum 16); ("remote_token_snapshots", GNum 14)]);
      ("LTC", GObj [("bridge_transfers", GNum 14); ("cross_chain_calls", GNum 14);
      ("cross_chain_matches", GNum 14); ("list_snapshots", GNum 14); ("policy_snapshots", GNum 14);
      ("price_snapshots", GNum 17); ("remote_token_snapshots", GNum 14)])]);
   ("mirror_admission_margin_activation.ADMIT_CHAIN_MARGIN_ACTIVATION", "height", GObj [("mainnet", UNPINNED);
      ("DOGE:mainnet", UNPINNED); ("DOGE:testnet", GNum 67989993); ("LTC:mainnet", UNPINNED);
      ("LTC:testnet", GNum 4949697); ("regtest", GNum 0)]);
   ("oracle_price_age_hourly_activation.ORACLE_PRICE_AGE_HOURLY_ACTIVATION", "height", GObj [("mainnet", UNARMED);
      ("testnet", UNARMED); ("BTC:testnet", GNum 154778); ("LTC:testnet", GNum 4905005);
      ("DOGE:testnet", GNum 67956923); ("regtest", GNum 0)]);
   ("oracle_hourly_window_activation.ORACLE_HOURLY_WINDOW_FIRST_ROUND", "constant", GObj [("mainnet", UNARMED);
      ("testnet", GNum 5082); ("regtest", GNum 0)]);
   ("oracle_round_time_activation.ORACLE_ROUND_TIME_ACTIVATION", "height", GObj [("mainnet", UNARMED);
      ("testnet", UNARMED); ("BTC:testnet", GNum 155158); ("LTC:testnet", GNum 4907593);
      ("DOGE:testnet", GNum 67966647); ("regtest", GNum 0)]);
   ("order_match_price_cross_activation.ORDER_MATCH_PRICE_CROSS_ACTIVATION", "height", GObj [("mainnet", UNARMED);
      ("BTC:testnet", GNum 156908); ("LTC:testnet", GNum 4927400); ("DOGE:testnet", GNum 68005165);
      ("testnet", GNum 156908); ("regtest", GNum 0)])].

Definition rows_5c : list (string * string * gval) :=
  [("remote_token_admission_activation.REMOTE_TOKEN_ADMISSION_ACTIVATION", "height", GObj [("mainnet", UNARMED);
      ("BTC:testnet", GNum 156908); ("LTC:testnet", GNum 4927400); ("DOGE:testnet", GNum 68005165);
      ("testnet", GNum 156908); ("regtest", UNPINNED)]);
   ("stateHash.ATTEST_BATCH_HEAD_STATE_HASH_ACTIVATION", "height", GObj [("mainnet", UNARMED);
      ("BTC:testnet", GNum 156230); ("LTC:testnet", GNum 4912984); ("DOGE:testnet", GNum 67989993);
      ("testnet", UNARMED); ("regtest", GNum 0)])].

(** The queue, in part-file order. *)
Definition committed_rows : list (string * string * gval) :=
  rows_1a ++ rows_1b ++ rows_1c ++ rows_2a ++ rows_2b ++ rows_2c ++ rows_3a ++ rows_3b
  ++ rows_4a ++ rows_4b ++ rows_5a ++ rows_5b ++ rows_5c.

(** The registry the process builds when the module loads. *)
Definition committed_registry (e : environment) : result registry := registerRows committed_rows e createRegistry.

(** ** Agreement of the module gates with the registry *)

(** Every entry of a threshold table is a number. *)
Definition numeric_table (v : gval) : bool :=
  match v with
  | GObj kvs => forallb (fun p => match p.2 with GNum _ => true | _ => false end) kvs
  | _ => false
  end.

Lemma numeric_own v k x : numeric_table v = true -> own v k = Some x -> exists z, x = GNum z.
Proof.
  destruct v as [| | | | | | | |kvs|]; cbn; try done. intros Hf Hg. apply jm_get_Some_In in Hg.
  rewrite forallb_forall in Hf. apply list_elem_of_In, Hf in Hg. cbn in Hg. destruct x; try done. eauto.
Qed.

(** On such a table the [undefined]-only test and the registry's strict test
    agree. *)
Lemma coin_gate_numeric table b network coin : numeric_table table = true ->
  coin_gate_active table b network coin = reached (resolveThreshold table network coin) b.
Proof.
  intros Hn. unfold coin_gate_active, reached. destruct (parse_int (js_String b)) as [c|]; [|done].
  assert (activationThreshold table network coin = resolveThreshold table network coin) as ->.
  { unfold activationThreshold, resolveThreshold. destruct (is_nullish coin); [done|].
    destruct (own table _) as [x|] eqn:E; [|done]. by destruct (numeric_own _ _ _ Hn E) as [z ->]. }
  assert (resolveThreshold table network coin = GUndef \/ exists z, resolveThreshold table network coin = GNum z)
    as [->|[z ->]]; [|done..].
  assert (forall k, default GUndef (own table k) = GUndef \/ exists z, default GUndef (own table k) = GNum z) as Hd.
  { intros k. destruct (own table k) as [x|] eqn:E; [right; by eapply numeric_own|by left]. }
  unfold resolveThreshold. destruct (is_nullish coin); [apply Hd|].
  destruct (own table (js_String coin +:+ ":" +:+ network)) as [x|] eqn:E; [right; by eapply numeric_own|apply Hd].
Qed.

Definition QUORUM_TABLE : gval := GObj [("mainnet", GNum 961000); ("testnet", GNum 0); ("regtest", GNum 0)].
Definition CHECKPOINT_TABLE : gval := GObj [("mainnet", GNum 961000); ("testnet", GNum 146000); ("regtest", GNum 0)].
Definition K_STATE_COMMITMENT : string := "state_commitment_activation.STATE_COMMITMENT_ACTIVATION".
Definition K_SOURCE_CAP : string := "swq_source_cap_activation.SWQ_SOURCE_CAP_ACTIVATION".
Definition K_QUORUM : string := "stake_weighted_quorum.STAKE_WEIGHTED_QUORUM_ACTIVATION".
Definition K_CHECKPOINT : string := "checkpoint_commitment_activation.CHECKPOINT_COMMITMENT_ACTIVATION".

Definition row_entry (q : string * string * gval) : string * gate_row := (q.1.1, GateRow q.1.2 q.2).

Lemma committed_entries :
  rfold (fun r q => addGate (JStr q.1.1) q.1.2 q.2 r) createRegistry committed_rows
  = Ok (Registry (map row_entry committed_rows) None).
Proof. vm_compute. reflexivity. Qed.

Lemma committed_registry_eq e :
  committed_registry e = Ok (Registry (map row_entry committed_rows) (Some (regtestArming e))).
Proof. unfold committed_registry, registerRows. by rewrite committed_entries. Qed.

Lemma committed_wf : jm_wf (map row_entry committed_rows).
Proof. apply (bool_decide_unpack _). vm_compute. exact I. Qed.

Lemma committed_get key unit v : (key, unit, v) ∈ committed_rows ->
  jm_get key (map row_entry committed_rows) = Some (GateRow unit v).
Proof. intros Hq. apply jm_get_In; [apply committed_wf|]. by apply (list_elem_of_fmap_2 row_entry _ (key, unit, v)). Qed.

Lemma Ok_inj {A} (a b : A) : Ok a = Ok b -> a = b.
Proof. by injection 1. Qed.

Lemma activeAt_committed e r key v n coin h : committed_registry e = Ok r -> (key, "height", v) ∈ committed_rows ->
  n = "mainnet" \/ n = "testnet" ->
  activeAt key (JStr n) coin h JUndef r = Ok (reached (resolveThreshold v n coin) h).
Proof.
  rewrite committed_registry_eq. intros Hr Hq Hn. apply Ok_inj in Hr as <-.
  pose proof (overlay_regtest_only (Registry (map row_entry committed_rows) None) e key n coin h JUndef Hn) as Ho.
  unfold setReadOverlay in Ho. cbn [entries overlay] in Ho. rewrite Ho.
  unfold activeAt, read. cbn [entries overlay]. by rewrite (committed_get key "height" v Hq).
Qed.

Lemma commitment_rows :
  (K_STATE_COMMITMENT, "height", STATE_COMMITMENT_ACTIVATION) ∈ committed_rows
  /\ (K_SOURCE_CAP, "height", SWQ_SOURCE_CAP_ACTIVATION) ∈ committed_rows
  /\ (K_QUORUM, "height", QUORUM_TABLE) ∈ committed_rows /\ (K_CHECKPOINT, "height", CHECKPOINT_TABLE) ∈ committed_rows.
Proof.
  split_and!; [apply (list_elem_of_lookup_2 _ 80)|apply (list_elem_of_lookup_2 _ 89)|apply (list_elem_of_lookup_2 _ 66)
    |apply (list_elem_of_lookup_2 _ 18)]; vm_compute; reflexivity.
Qed.

(** ** Properties *)

(** Loading the committed table never throws: [registerRows] accepts every
    row of the five part files, every row reads back under its key with the unit
    and the value it was declared with, and the registry holds no other key. *)
Theorem committed_registry_loads e : exists r, committed_registry e = Ok r
  /\ (forall key unit v, (key, unit, v) ∈ committed_rows -> jm_get key (entries r) = Some (GateRow unit v))
  /\ forall key, key ∈ keys r <-> exists unit v, (key, unit, v) ∈ committed_rows.
Proof.
  rewrite committed_registry_eq. eexists. split; [done|]. unfold keys. cbn [entries]. split.
  - apply committed_get.
  - intros key. unfold jm_keys. rewrite map_map. rewrite list_elem_of_fmap. split.
    + intros ([[k u] v] & -> & Hq). eauto.
    + intros (u & v & Hq). by exists (key, u, v).
Qed.

(** The gates agree with each other over the committed table.  On mainnet and
    testnet the module gates, which only test for [undefined], answer as the
    registry's [activeAt] does; and the flag days are ordered as the stake
    commitment needs: on mainnet the stake-weighted quorum is active only where the
    source cap is, and the cap only where BTC commits its state; on testnet every
    committed BTC root is a capped one; on both, checkpoints carry roots only where
    BTC commits its state. *)
Theorem committed_flag_days e r n coin h :
  committed_registry e = Ok r -> n = "mainnet" \/ n = "testnet" ->
  let active key coin := activeAt key (JStr n) coin (JInt h) JUndef r in
  active K_STATE_COMMITMENT coin = Ok (isStateCommitmentActive (JInt h) n coin)
  /\ active K_SOURCE_CAP coin = Ok (isSwqSourceCapActive (JInt h) n coin)
  /\ (n = "mainnet" -> active K_QUORUM (JStr "BTC") = Ok true -> active K_SOURCE_CAP (JStr "BTC") = Ok true)
  /\ (n = "mainnet" -> active K_SOURCE_CAP (JStr "BTC") = Ok true -> active K_STATE_COMMITMENT (JStr "BTC") = Ok true)
  /\ (n = "testnet" -> active K_STATE_COMMITMENT (JStr "BTC") = Ok true -> active K_SOURCE_CAP (JStr "BTC") = Ok true)
  /\ (active K_CHECKPOINT (JStr "BTC") = Ok true -> active K_STATE_COMMITMENT (JStr "BTC") = Ok true).
Proof.
  intros Hr Hn active. unfold active.
  assert (forall key coin v, (key, "height", v) ∈ committed_rows ->
    activeAt key (JStr n) coin (JInt h) JUndef r = Ok (reached (resolveThreshold v n coin) (JInt h))) as Hact.
  { intros key c v Hq. by apply (activeAt_committed e). }
  destruct commitment_rows as (Hs & Hc & Hq & Hk).
  rewrite !(Hact _ _ _ Hs), !(Hact _ _ _ Hc), !(Hact _ _ _ Hq), !(Hact _ _ _ Hk). clear Hact Hs Hc Hq Hk active Hr.
  unfold isStateCommitmentActive, isSwqSourceCapActive. rewrite !coin_gate_numeric by reflexivity.
  split; [done|]. split; [done|].
  assert (forall t u : Z, u <= t -> Ok (reached (GNum t) (JInt h)) = Ok true -> Ok (reached (GNum u) (JInt h)) = Ok true) as Hmono.
  { intros t u Htu Ht%Ok_inj. f_equal. rewrite reached_true in *. destruct Ht as (z & c & Hp & Hc & [= <-]).
    exists u, c. split_and!; [done|lia|done]. }
  destruct Hn as [-> | ->]; split_and!; try (intros Hd; discriminate Hd).
  - intros _. exact (Hmono 961000 960000 ltac:(lia)).
  - intros _. exact (Hmono 960000 958500 ltac:(lia)).
  - exact (Hmono 961000 958500 ltac:(lia)).
  - intros _. exact (Hmono 145000 0 ltac:(lia)).
  - exact (Hmono 146000 145000 ltac:(lia)).
Qed.


Lemma committed_flag_days_witness : exists r, committed_registry ex_env = Ok r
  /\ activeAt K_SOURCE_CAP (JStr "mainnet") (JStr "BTC") (JInt 961000) JUndef r = Ok true
  /\ activeAt K_STATE_COMMITMENT (JStr "mainnet") (JStr "BTC") (JInt 961000) JUndef r = Ok true.
Proof.
  eexists. split; [apply committed_registry_eq|].
  destruct (committed_flag_days ex_env _ "mainnet" (JStr "BTC") 961000 (committed_registry_eq ex_env) (or_introl eq_refl))
    as (_ & _ & Hq & Hc & _).
  assert (activeAt K_SOURCE_CAP (JStr "mainnet") (JStr "BTC") (JInt 961000) JUndef
    (Registry (map row_entry committed_rows) (Some (regtestArming ex_env))) = Ok true) as Hcap.
  { apply Hq; [done|]. vm_compute. reflexivity. }
  split; [exact Hcap|]. by apply Hc.
Defined.
