(* ===== verification/BlockQueries.v ===== *)
(** * BlockQueries: the database interface and the block-hash query texts

    [src/src/client/block_hasher.js] reads every preimage through [doQueryStrict]
    with a query whose text is fixed: the call sites write a query on one line and
    [consensusSql] recovers the multi-line text of [BLOCK_HASH_QUERIES] with the
    same words, or throws.  The database is not part of the repository: it is the
    argument [database], a function from a query text and its arguments to rows or
    to an error with its [errno].  [query_shapes] shows that every call site has
    its entry.  [src/src/util/protocol_address_roles.js] is the address map
    applied to the rows. *)

From S2P Require Import Prelude JsText JsMap Json.

(** ** Rows and queries *)

(** A result row: the columns of the SELECT list, in order. *)
Definition row : Type := list (string * jv).

Inductive query_result :=
| QRows (l : list row)
| QError (errno : option Z) (msg : string).

Definition database : Type := string -> list jv -> query_result.

(** [row[k]] *)
Definition column (r : row) (k : string) : jv := default VUndef (jm_get k r).

(** [db.doQueryStrict(sql, args)]: a read error throws. *)
Definition doQueryStrict (db : database) (sql : string) (args : list jv) : result (list row) :=
  match db sql args with
  | QRows l => Ok l
  | QError _ msg => Throw msg
  end.

(** ** BLOCK_HASH_QUERIES *)

Definition contractStateHashQuery (stateKeyCollate : string) : string :=
  "SELECT cs.contract_index, cs.state_key, cs.state_value
                 FROM contract_state cs
                 INNER JOIN (
                     SELECT MAX(id) as max_id
                     FROM contract_state
                     WHERE block_index=?
                     GROUP BY contract_index, state_key" +:+ stateKeyCollate +:+
  "
                 ) latest ON cs.id = latest.max_id
                 ORDER BY cs.contract_index ASC, cs.state_key" +:+ stateKeyCollate +:+ " ASC".

Definition CREDITS_QUERY : string := "SELECT
                    c.action_index,
                    a1.address AS address,
                    t1.tick    AS tick,
                    c.amount
                FROM
                    credits c
                    INNER JOIN actions        a  ON (a.action_index=c.action_index)                    LEFT  JOIN index_addresses a1 ON (a1.id=c.address_id)
                    LEFT  JOIN index_tickers   t1 ON (t1.id=c.tick_id)
                WHERE
                    a.block_index=?
                ORDER BY
                    c.action_index ASC, a1.address COLLATE utf8_bin ASC, t1.tick COLLATE utf8mb4_bin ASC, c.amount ASC".

Definition DEBITS_QUERY : string := "SELECT
                    d.action_index,
                    a1.address AS address,
                    t1.tick    AS tick,
                    d.amount
                FROM
                    debits d
                    INNER JOIN actions        a  ON (a.action_index=d.action_index)                    LEFT  JOIN index_addresses a1 ON (a1.id=d.address_id)
                    LEFT  JOIN index_tickers   t1 ON (t1.id=d.tick_id)
                WHERE
                    a.block_index=?
                ORDER BY
                    d.action_index ASC, a1.address COLLATE utf8_bin ASC, t1.tick COLLATE utf8mb4_bin ASC, d.amount ASC".

Definition ESCROWS_QUERY : string := "SELECT
                    e.action_index,
                    a1.address AS address,
                    t1.tick    AS tick,
                    e.amount
                FROM
                    escrows e
                    INNER JOIN actions        a  ON (a.action_index=e.action_index)                    LEFT  JOIN index_addresses a1 ON (a1.id=e.address_id)
                    LEFT  JOIN index_tickers   t1 ON (t1.id=e.tick_id)
                WHERE
                    a.block_index=?
                ORDER BY
                    e.action_index ASC, a1.address COLLATE utf8_bin ASC, t1.tick COLLATE utf8mb4_bin ASC, e.amount ASC".

Definition ACTIONS_QUERY : string := "SELECT
                    a.action_index,
                    a.tx_index,
                    ia.action AS action
                FROM
                    actions a                    LEFT  JOIN index_actions ia ON (ia.id=a.action_id)
                WHERE
                    a.block_index=?
                ORDER BY
                    a.action_index ASC".

Definition CONTRACTS_QUERY : string := "SELECT c.action_index, a1.address AS source_address, c.code_hash, s1.status AS status
                 FROM contracts c
                 INNER JOIN actions a ON (a.action_index=c.action_index)                 LEFT  JOIN index_addresses a1 ON (a1.id=c.source_id)
                 LEFT  JOIN index_statuses  s1 ON (s1.id=c.status_id)
                 WHERE a.block_index=?
                 ORDER BY c.action_index ASC".

Definition EXECUTIONS_QUERY : string := "SELECT ce.action_index, ce.contract_index, a1.address AS caller_address, ce.gas_used, s1.status AS status, ce.emitted_count
                 FROM contract_executions ce
                 INNER JOIN actions a ON (a.action_index=ce.action_index)                 LEFT  JOIN index_addresses a1 ON (a1.id=ce.caller_id)
                 LEFT  JOIN index_statuses  s1 ON (s1.id=ce.status_id)
                 WHERE a.block_index=?
                 ORDER BY ce.action_index ASC".

Definition EMISSIONS_QUERY : string := "SELECT em.execution_index, em.emitted_action, em.action_index, em.position
                 FROM contract_emissions em
                 INNER JOIN contract_executions ce ON (ce.action_index=em.execution_index)
                 INNER JOIN actions a ON (a.action_index=ce.action_index)
                 WHERE a.block_index=?
                 ORDER BY em.execution_index ASC, em.position ASC".

Definition DEPOSITS_QUERY : string := "SELECT d.action_index, d.contract_index, a1.address AS source_address, t1.tick AS tick, d.amount, s1.status AS status
                 FROM deposits d
                 INNER JOIN actions a ON (a.action_index=d.action_index)                 LEFT  JOIN index_addresses a1 ON (a1.id=d.source_id)
                 LEFT  JOIN index_tickers   t1 ON (t1.id=d.tick_id)
                 LEFT  JOIN index_statuses  s1 ON (s1.id=d.status_id)
                 WHERE a.block_index=?
                 ORDER BY d.action_index ASC, d.contract_index ASC, a1.address COLLATE utf8_bin ASC, t1.tick COLLATE utf8mb4_bin ASC, d.amount ASC, s1.status COLLATE utf8_bin ASC".

Definition WITHDRAWALS_QUERY : string := "SELECT w.action_index, w.contract_index, a1.address AS source_address, t1.tick AS tick, w.amount, s1.status AS status
                 FROM withdrawals w
                 INNER JOIN actions a ON (a.action_index=w.action_index)                 LEFT  JOIN index_addresses a1 ON (a1.id=w.source_id)
                 LEFT  JOIN index_tickers   t1 ON (t1.id=w.tick_id)
                 LEFT  JOIN index_statuses  s1 ON (s1.id=w.status_id)
                 WHERE a.block_index=?
                 ORDER BY w.action_index ASC, w.contract_index ASC, a1.address COLLATE utf8_bin ASC, t1.tick COLLATE utf8mb4_bin ASC, w.amount ASC, s1.status COLLATE utf8_bin ASC".

Definition PREVIOUS_QUERY : string := "SELECT
                t1.hash as ledger,
                t2.hash as actions,
                t3.hash as contracts
            FROM
                blocks b
                LEFT JOIN index_transactions t1 ON (t1.id=b.ledger_hash_id)
                LEFT JOIN index_transactions t2 ON (t2.id=b.actions_hash_id)
                LEFT JOIN index_transactions t3 ON (t3.id=b.contract_hash_id)
            WHERE
                b.block_index=?".

Definition BLOCK_HASH_QUERIES : list string :=
  [CREDITS_QUERY;
   DEBITS_QUERY;
   ESCROWS_QUERY;
   ACTIONS_QUERY;
   CONTRACTS_QUERY;
   contractStateHashQuery "";
   contractStateHashQuery " COLLATE utf8_bin";
   EXECUTIONS_QUERY;
   EMISSIONS_QUERY;
   DEPOSITS_QUERY;
   WITHDRAWALS_QUERY;
   PREVIOUS_QUERY].

(** ** The call sites *)

Definition CREDITS_SQL : string :=
  "SELECT c.action_index, a1.address AS address, t1.tick AS tick, c.amount FROM credits c INNER JOIN actions a ON (a.action_index=c.action_index) LEFT JOIN index_addresses a1 ON (a1.id=c.address_id) LEFT JOIN index_tickers t1 ON (t1.id=c.tick_id) WHERE a.block_index=? ORDER BY c.action_index ASC, a1.address COLLATE utf8_bin ASC, t1.tick COLLATE utf8mb4_bin ASC, c.amount ASC".

Definition DEBITS_SQL : string :=
  "SELECT d.action_index, a1.address AS address, t1.tick AS tick, d.amount FROM debits d INNER JOIN actions a ON (a.action_index=d.action_index) LEFT JOIN index_addresses a1 ON (a1.id=d.address_id) LEFT JOIN index_tickers t1 ON (t1.id=d.tick_id) WHERE a.block_index=? ORDER BY d.action_index ASC, a1.address COLLATE utf8_bin ASC, t1.tick COLLATE utf8mb4_bin ASC, d.amount ASC".

Definition ESCROWS_SQL : string :=
  "SELECT e.action_index, a1.address AS address, t1.tick AS tick, e.amount FROM escrows e INNER JOIN actions a ON (a.action_index=e.action_index) LEFT JOIN index_addresses a1 ON (a1.id=e.address_id) LEFT JOIN index_tickers t1 ON (t1.id=e.tick_id) WHERE a.block_index=? ORDER BY e.action_index ASC, a1.address COLLATE utf8_bin ASC, t1.tick COLLATE utf8mb4_bin ASC, e.amount ASC".

Definition ACTIONS_SQL : string :=
  "SELECT a.action_index, a.tx_index, ia.action AS action FROM actions a LEFT JOIN index_actions ia ON (ia.id=a.action_id) WHERE a.block_index=? ORDER BY a.action_index ASC".

Definition CONTRACTS_SQL : string :=
  "SELECT c.action_index, a1.address AS source_address, c.code_hash, s1.status AS status FROM contracts c INNER JOIN actions a ON (a.action_index=c.action_index) LEFT JOIN index_addresses a1 ON (a1.id=c.source_id) LEFT JOIN index_statuses s1 ON (s1.id=c.status_id) WHERE a.block_index=? ORDER BY c.action_index ASC".

Definition EXECUTIONS_SQL : string :=
  "SELECT ce.action_index, ce.contract_index, a1.address AS caller_address, ce.gas_used, s1.status AS status, ce.emitted_count FROM contract_executions ce INNER JOIN actions a ON (a.action_index=ce.action_index) LEFT JOIN index_addresses a1 ON (a1.id=ce.caller_id) LEFT JOIN index_statuses s1 ON (s1.id=ce.status_id) WHERE a.block_index=? ORDER BY ce.action_index ASC".

Definition EMISSIONS_SQL : string :=
  "SELECT em.execution_index, em.emitted_action, em.action_index, em.position FROM contract_emissions em INNER JOIN contract_executions ce ON (ce.action_index=em.execution_index) INNER JOIN actions a ON (a.action_index=ce.action_index) WHERE a.block_index=? ORDER BY em.execution_index ASC, em.position ASC".

Definition DEPOSITS_SQL : string :=
  "SELECT d.action_index, d.contract_index, a1.address AS source_address, t1.tick AS tick, d.amount, s1.status AS status FROM deposits d INNER JOIN actions a ON (a.action_index=d.action_index) LEFT JOIN index_addresses a1 ON (a1.id=d.source_id) LEFT JOIN index_tickers t1 ON (t1.id=d.tick_id) LEFT JOIN index_statuses s1 ON (s1.id=d.status_id) WHERE a.block_index=? ORDER BY d.action_index ASC, d.contract_index ASC, a1.address COLLATE utf8_bin ASC, t1.tick COLLATE utf8mb4_bin ASC, d.amount ASC, s1.status COLLATE utf8_bin ASC".

Definition WITHDRAWALS_SQL : string :=
  "SELECT w.action_index, w.contract_index, a1.address AS source_address, t1.tick AS tick, w.amount, s1.status AS status FROM withdrawals w INNER JOIN actions a ON (a.action_index=w.action_index) LEFT JOIN index_addresses a1 ON (a1.id=w.source_id) LEFT JOIN index_tickers t1 ON (t1.id=w.tick_id) LEFT JOIN index_statuses s1 ON (s1.id=w.status_id) WHERE a.block_index=? ORDER BY w.action_index ASC, w.contract_index ASC, a1.address COLLATE utf8_bin ASC, t1.tick COLLATE utf8mb4_bin ASC, w.amount ASC, s1.status COLLATE utf8_bin ASC".

Definition PREVIOUS_SQL : string :=
  "SELECT t1.hash as ledger, t2.hash as actions, t3.hash as contracts FROM blocks b LEFT JOIN index_transactions t1 ON (t1.id=b.ledger_hash_id) LEFT JOIN index_transactions t2 ON (t2.id=b.actions_hash_id) LEFT JOIN index_transactions t3 ON (t3.id=b.contract_hash_id) WHERE b.block_index=?".

Definition stateQuery (stateKeyCollate : string) : string :=
  "SELECT cs.contract_index, cs.state_key, cs.state_value FROM contract_state cs INNER JOIN ( SELECT MAX(id) as max_id FROM contract_state WHERE block_index=? GROUP BY contract_index, state_key" +:+ stateKeyCollate +:+
  " ) latest ON cs.id = latest.max_id ORDER BY cs.contract_index ASC, cs.state_key" +:+ stateKeyCollate +:+ " ASC".

(** [query.replace(/\s+/g, ' ').trim()] on ASCII text. *)
Definition is_space (b : byte) : bool := ((9 <=? b2z b) && (b2z b <=? 13)) || (b2z b =? 32).
Fixpoint collapse (after_space : bool) (l : bytes) : bytes :=
  match l with
  | [] => []
  | b :: r =>
      if is_space b then (if after_space then collapse true r else Byte.x20 :: collapse true r)
      else b :: collapse false r
  end.
Definition query_shape (q : string) : string := of_utf8 (trim (collapse false (utf8 q))).

(** [BLOCK_HASH_QUERY_BY_SHAPE.get(shape)], or the throw of [consensusSql]. *)
Definition consensusSql (query : string) : result string :=
  match List.find (fun q => bool_decide (query_shape q = query_shape query)) BLOCK_HASH_QUERIES with
  | Some q => Ok q
  | None => Throw ("consensusSql: no BLOCK_HASH_QUERIES entry for query shape: " +:+ query_shape query)
  end.

(** Every call site resolves, to the entry with its words. *)
Lemma query_shapes :
  List.map consensusSql [CREDITS_SQL; DEBITS_SQL; ESCROWS_SQL; ACTIONS_SQL; CONTRACTS_SQL; stateQuery "";
                         stateQuery " COLLATE utf8_bin"; EXECUTIONS_SQL; EMISSIONS_SQL; DEPOSITS_SQL;
                         WITHDRAWALS_SQL; PREVIOUS_SQL]
  = List.map Ok BLOCK_HASH_QUERIES.
Proof. vm_compute. reflexivity. Qed.

(** ** Addresses *)

Definition ROLE_BY_ADDRESS : list (string * string) :=
  [("1XChainBurnAddressXXXXXXXXXbRsd2N", "BURN");
   ("1XChain3M4uRwcHqt4XuhVBUQ8cL4qQsA", "GAS");
   ("1Donate1GERVKPW6GFQcnGeTa8dgL6Abyp", "DONATE1");
   ("1Donate2LkbBrsanwCVRPWZCXAqQcvcqGz", "DONATE2");
   ("1RewardsRQTXMAytLt4bBQvPEscKsSEXt", "REWARD");
   ("mxchainburnaddressXXXXXXXXXXa8EAfp", "BURN");
   ("mgassdEpzH2AuKGK9W5FZh8drWYKrpXk6D", "GAS");
   ("mfztXKX1HeVdCQf6pDCZFEzo5i5wYNHAM6", "DONATE1");
   ("myBbbZ4t7BPoyNcT4sHtFwZDuiyYGDXLQM", "DONATE2");
   ("mrewards4RQFYoZ5yEv4xr12PzfjDYViks", "REWARD");
   ("mgash6jYSKAR3Q5HPpDgNX2BYr18q9N6GQ", "GAS");
   ("muYHF9MMnK6Nmd5zx7EBtqEYZdaf2Xy8JX", "DONATE1");
   ("mkQd27aJSqsQ666z1Q4MLFmd3Ybqzy3TNw", "DONATE2");
   ("mrewardshQqD1ptkEBZGjPDF77L5uKJQmk", "REWARD");
   ("LXChainBurnAddressXXXXXXXXXXSkrYkJ", "BURN");
   ("LXChainCN6yjHVqqS9tYzYVYZ8CCZcSx72", "GAS");
   ("Ldonate18tNZcVThKm5MX33EjvhaanJ6Mg", "DONATE1");
   ("Ldonate2io846q2e7q8dUArh3TNnaq9ENb", "DONATE2");
   ("XXXXXXXXXXXXXXXXXXXXXXXXXXXXXXXXXX", "REWARD");
   ("mgashLN9oSvj2CUJYKWdNxh6VkamPg1Ges", "GAS");
   ("mybp5CceJvVV5tNCCiF7oBiZWko2fNkmnT", "DONATE1");
   ("muKEjejjXQvLY7Lp7Ecpn29gM2TCb5BLTF", "DONATE2");
   ("mgas5QYE38Bg34hwEjFKaE7Gs536FARue4", "GAS");
   ("mgNY2ZXbnNEkRT5ZRF8yGamivrSX2QH97h", "DONATE1");
   ("n2DLJPppXUi8jC6fLiSkthZi2sc9UKiZHd", "DONATE2");
   ("DChainBurnAddressXXXXXXXXXXXawc9pt", "BURN");
   ("DGasfpttCnTijuuoAdiJ9sXJjG7vQ5pMkW", "GAS");
   ("DDonate1RBcwGnCRNnVtwuCmQyWW1Gn25f", "DONATE1");
   ("DDonate2o3Sg4phybp92oFpkmv8S9ZhGSV", "DONATE2");
   ("nchainburnaddressXXXXXXXXXXXYKgF7W", "BURN");
   ("ngasn6zHFzJ72zpk3DBKmXhD2XtszujSDW", "GAS");
   ("ndonate1dE87UXUFf4gjyhPg7hfQRJXVXr", "DONATE1");
   ("ndonate2wev8vKDgvd1DHhtJtvkRbn2usJ", "DONATE2");
   ("mvs8WdppEhzQLxfcYwrr1eoKA2nUFi55ff", "BURN");
   ("mgasDTdKu5DsbW97qSRnE8raAuYpKMfmhg", "GAS");
   ("mzdg8wGxgP3Jk45FuZPspumCL3Ruup37ob", "DONATE1");
   ("mmXU8RU7q3BUsyT66rtw1H6P7B2ZZd9c5Y", "DONATE2");
   ("17BridgeLtcXChainXXXXXXXXXXa5uRRy", "BRIDGE_LTC");
   ("17BridgeDogeXChainXXXXXXXXXVuqXcv", "BRIDGE_DOGE");
   ("mfbtcbridgeLtcXXXXXXXXXXXXXXVPqpoV", "BRIDGE_LTC");
   ("mfbtcbridgedogeXXXXXXXXXXXXXUXTr4m", "BRIDGE_DOGE");
   ("LKLtcbridgebtcXXXXXXXXXXXXXXXA61Gk", "BRIDGE_BTC");
   ("LKLtcbridgedogeXXXXXXXXXXXXXX8Aknx", "BRIDGE_DOGE");
   ("mgLtcbridgebtcXXXXXXXXXXXXXXYpo2Bo", "BRIDGE_BTC");
   ("mgLtcbridgedogeXXXXXXXXXXXXXZBQunc", "BRIDGE_DOGE");
   ("D5dogebridgebtcXXXXXXXXXXXXXVAFQt9", "BRIDGE_BTC");
   ("D5dogebridgeLtcXXXXXXXXXXXXXUVFLyn", "BRIDGE_LTC");
   ("nUdogebridgebtcXXXXXXXXXXXXXWUG2kx", "BRIDGE_BTC");
   ("nUdogebridgeLtcXXXXXXXXXXXXXTsEz6W", "BRIDGE_LTC");
   ("mfdogebridgebtcXXXXXXXXXXXXXZ3agHN", "BRIDGE_BTC");
   ("mfdogebridgeLtcXXXXXXXXXXXXXXb2E4n", "BRIDGE_LTC")].

(** The properties every object inherits: reading one of these names from the map
    finds a function (which JSON drops) or, for the last, the prototype object. *)
Definition inherited_functions : list string :=
  ["constructor"; "hasOwnProperty"; "isPrototypeOf"; "propertyIsEnumerable"; "toLocaleString";
   "toString"; "valueOf"; "__defineGetter__"; "__defineSetter__"; "__lookupGetter__"; "__lookupSetter__"].

Definition canonicalizeHashAddress (address : jv) : jv :=
  match address with
  | VStr s =>
      match jm_get s ROLE_BY_ADDRESS with
      | Some role => VStr role
      | None => if bool_decide (s ∈ inherited_functions) then VUndef
                else if bool_decide (s = "__proto__") then VObj [] else address
      end
  | _ => address
  end.

(** [for (const row of rows) row.address = canonicalizeHashAddress(row.address)] *)
Definition canonicalRow (r : row) : row := jm_set "address" (canonicalizeHashAddress (column r "address")) r.
