(* ===== verification/BlockHash.v ===== *)
(** * BlockHash: the chained consensus hashes of a block

    Models [BlockHasher.computeBlockHashes] of [src/src/client/block_hasher.js]:
    the ledger, actions and contract hashes of a block, each the SHA-256 of the
    JSON of the rows the block's queries return together with the block index, the
    hash the previous block committed and the scheme version.  The [actions] rows
    are hashed as an object with numeric keys ([Object.assign] of an array), and a
    block without a predecessor has no [previous_hash] member.

    [block_hash_chain_binding]: when the recomputation of every block of a range
    reproduces the hash the block committed on two databases, and the two commit
    the same hash at the end of the range, then both hold the same canonical rows
    and commit the same hash at every block of the range. *)

From S2P Require Import Prelude Sha256 JsText JsMap Json GateRegistry Gates SharedRows BlockQueries.

Definition BLOCK_HASH_VERSION : Z := 1.
Definition STATE_KEY_COLLATION_KEY : string := "state_key_collation_activation.STATE_KEY_COLLATION_ACTIVATION".

(** The three preimages, as the code names them. *)
Inductive hash_table := Ledger | Actions | Contracts.

Record ledger_data := LedgerData { credits : list row; debits : list row; escrows : list row }.
Record contract_data := ContractData {
  contracts : list row; state : list row; executions : list row;
  emissions : list row; deposits : list row; withdrawals : list row }.

(** The committed hashes of a [blocks] row. *)
Record hashes3 := Hashes3 { ledger_hash : jv; actions_hash : jv; contract_hash : jv }.

Definition table_hash (h : hashes3) (t : hash_table) : jv :=
  match t with Ledger => ledger_hash h | Actions => actions_hash h | Contracts => contract_hash h end.

Section Hasher.
Context `{HashFn}.
Variable reg : registry.
Variable db : database.

Definition strictRead (query : string) (height : Z) : result (list row) :=
  let! q := consensusSql query in doQueryStrict db q [VNum height].

Definition getLedgerHashData (height : Z) : result ledger_data :=
  let! cs := strictRead CREDITS_SQL height in
  let! ds := strictRead DEBITS_SQL height in
  let! es := strictRead ESCROWS_SQL height in
  Ok (LedgerData (List.map canonicalRow cs) (List.map canonicalRow ds) (List.map canonicalRow es)).

Definition getActionsHashData (height : Z) : result (list row) := strictRead ACTIONS_SQL height.

Definition getContractsHashData (height : Z) (network coin : jsval) : result contract_data :=
  let! cs := strictRead CONTRACTS_SQL height in
  let! active := activeAt STATE_KEY_COLLATION_KEY network coin (JInt height) JNull reg in
  let! st := strictRead (stateQuery (if (active : bool) then " COLLATE utf8_bin" else "")) height in
  let! ex := strictRead EXECUTIONS_SQL height in
  let! em := strictRead EMISSIONS_SQL height in
  let! dp := strictRead DEPOSITS_SQL height in
  let! wd := strictRead WITHDRAWALS_SQL height in
  Ok (ContractData cs st ex em dp wd).

(** The committed hashes of block [height], read as the predecessor of the next
    one; a missing row leaves the three hashes undefined. *)
Definition committedHashes (height : Z) : result hashes3 :=
  let! rs := strictRead PREVIOUS_SQL height in
  Ok (match rs with
      | r :: _ => Hashes3 (column r "ledger") (column r "actions") (column r "contracts")
      | [] => Hashes3 VUndef VUndef VUndef
      end).

Definition rowsJson (l : list row) : jv := VArr (List.map VObj l).

Definition ledger_members (d : ledger_data) : list (string * jv) :=
  [("credits", rowsJson (credits d)); ("debits", rowsJson (debits d)); ("escrows", rowsJson (escrows d))].
Definition actions_members (l : list row) : list (string * jv) := index_keys (List.map VObj l).
Definition contract_members (d : contract_data) : list (string * jv) :=
  [("contracts", rowsJson (contracts d)); ("state", rowsJson (state d)); ("executions", rowsJson (executions d));
   ("emissions", rowsJson (emissions d)); ("deposits", rowsJson (deposits d)); ("withdrawals", rowsJson (withdrawals d))].

(** [data['block_index']], [data['previous_hash']] and [data['hash_version']]. *)
Definition chain_members (block_index : Z) (previous : jv) : list (string * jv) :=
  [("block_index", VNum block_index); ("previous_hash", previous); ("hash_version", VNum BLOCK_HASH_VERSION)].

Definition preimage (members : list (string * jv)) (block_index : Z) (previous : jv) : list (string * jv) :=
  members ++ chain_members block_index previous.

Record gathered := Gathered { g_ledger : ledger_data; g_actions : list row; g_contracts : contract_data; g_previous : hashes3 }.

Definition gather (block_index : Z) (network coin : jsval) : result gathered :=
  let! ledger := getLedgerHashData block_index in
  let! actions := getActionsHashData block_index in
  let! contracts_data := getContractsHashData block_index network coin in
  let! previous := committedHashes (block_index - 1) in
  Ok (Gathered ledger actions contracts_data previous).

Definition table_members (g : gathered) (t : hash_table) : list (string * jv) :=
  match t with
  | Ledger => ledger_members (g_ledger g)
  | Actions => actions_members (g_actions g)
  | Contracts => contract_members (g_contracts g)
  end.

Definition table_preimage (g : gathered) (block_index : Z) (t : hash_table) : list (string * jv) :=
  preimage (table_members g t) block_index (table_hash (g_previous g) t).

Definition computeBlockHashes (block_index : Z) (network coin : jsval) : result hashes3 :=
  let! g := gather block_index network coin in
  Ok (Hashes3 (VStr (getDataHash (table_preimage g block_index Ledger)))
              (VStr (getDataHash (table_preimage g block_index Actions)))
              (VStr (getDataHash (table_preimage g block_index Contracts)))).
End Hasher.

(** ** What a preimage determines *)

(** The JSON of a row. *)
Definition row_json (r : row) : json := default PNull (serialize (VObj r)).

(** The canonical rows of a table: what the JSON of the preimage keeps of them. *)
Definition canonical_rows (g : gathered) (t : hash_table) : list (list json) :=
  match t with
  | Ledger => List.map (List.map row_json) [credits (g_ledger g); debits (g_ledger g); escrows (g_ledger g)]
  | Actions => [List.map row_json (g_actions g)]
  | Contracts =>
      let c := g_contracts g in
      List.map (List.map row_json) [contracts c; state c; executions c; emissions c; deposits c; withdrawals c]
  end.

Lemma members_of_app a b : members_of (a ++ b) = members_of a ++ members_of b.
Proof. apply List.flat_map_app. Qed.

Lemma rows_member k l : members_of [(k, rowsJson l)] = [(k, PArr (List.map row_json l))].
Proof. unfold members_of, rowsJson. cbn. by rewrite List.map_map. Qed.

Lemma members_of_chain h p :
  members_of (chain_members h p) =
  ("block_index", PNum h) :: (match serialize p with Some j => [("previous_hash", j)] | None => [] end)
  ++ [("hash_version", PNum BLOCK_HASH_VERSION)].
Proof. unfold members_of. cbn [List.flat_map chain_members fst snd serialize app]. done. Qed.

Lemma chain_members_inj h p h' p' :
  members_of (chain_members h p) = members_of (chain_members h' p') -> h = h' /\ serialize p = serialize p'.
Proof.
  rewrite !members_of_chain. intros He. injection He as Hh He. split; [done|].
  destruct (serialize p), (serialize p'); cbn in He; simplify_eq; done.
Qed.

Lemma members_of_index_keys l :
  members_of (actions_members l)
  = List.combine (List.map (fun i => string_of_int (Z.of_nat i)) (List.seq 0 (length l))) (List.map row_json l).
Proof.
  unfold actions_members, index_keys. rewrite List.length_map. generalize 0%nat as i.
  induction l as [|r l IH]; intros i; [done|]. cbn [List.map length List.seq List.combine].
  change (?a :: ?b) with ([a] ++ b). rewrite members_of_app, IH. done.
Qed.

Lemma string_of_int_digit n : exists b r, utf8 (string_of_int (Z.of_nat n)) = b :: r /\ is_digit b = true.
Proof.
  unfold string_of_int. rewrite utf8_of_utf8. unfold dec_of. rewrite (proj2 (Z.ltb_ge _ _)) by lia.
  destruct (dec_of_nonneg_spec (Z.of_nat n) ltac:(lia)) as [Hd _].
  destruct (dec_of_nonneg (Z.of_nat n)) as [|b r] eqn:E; [by apply dec_of_nonneg_ne in E|].
  exists b, r. split; [done|]. by apply Forall_cons in Hd as [? _].
Qed.

Lemma index_not_chain n : string_of_int (Z.of_nat n) <> "block_index".
Proof. destruct (string_of_int_digit n) as (b & r & E & Hb). intros He. rewrite He in E. injection E as <- <-. discriminate Hb. Qed.

(** Indexed items followed by the chain members split at the first key that is
    not an index. *)
Lemma indexed_split i (l l' : list json) h p h' p' :
  List.combine (List.map (fun i => string_of_int (Z.of_nat i)) (List.seq i (length l))) l ++ members_of (chain_members h p)
  = List.combine (List.map (fun i => string_of_int (Z.of_nat i)) (List.seq i (length l'))) l' ++ members_of (chain_members h' p') ->
  l = l' /\ members_of (chain_members h p) = members_of (chain_members h' p').
Proof.
  revert i l'. induction l as [|x l IH]; intros i [|x' l']; cbn [length List.seq List.map List.combine app]; intros He.
  - done.
  - exfalso. rewrite (members_of_chain h p) in He. injection He as Hk _ _. symmetry in Hk. by apply index_not_chain in Hk.
  - exfalso. rewrite (members_of_chain h' p') in He. injection He as Hk _ _. by apply index_not_chain in Hk.
  - injection He as -> He. apply IH in He as [-> ->]. done.
Qed.

Lemma fixed_split (m m' : list (string * jv)) h p h' p' :
  length (members_of m) = length (members_of m') ->
  members_of (preimage m h p) = members_of (preimage m' h' p') ->
  members_of m = members_of m' /\ members_of (chain_members h p) = members_of (chain_members h' p').
Proof. unfold preimage. rewrite !members_of_app. intros Hl He. by apply app_inj_len in He. Qed.

Lemma ledger_members_of d : members_of (ledger_members d) =
  [("credits", PArr (List.map row_json (credits d))); ("debits", PArr (List.map row_json (debits d)));
   ("escrows", PArr (List.map row_json (escrows d)))].
Proof. unfold members_of, ledger_members, rowsJson. cbn. by rewrite !List.map_map. Qed.

Lemma contract_members_of d : members_of (contract_members d) =
  [("contracts", PArr (List.map row_json (contracts d))); ("state", PArr (List.map row_json (state d)));
   ("executions", PArr (List.map row_json (executions d))); ("emissions", PArr (List.map row_json (emissions d)));
   ("deposits", PArr (List.map row_json (deposits d))); ("withdrawals", PArr (List.map row_json (withdrawals d)))].
Proof. unfold members_of, contract_members, rowsJson. cbn. by rewrite !List.map_map. Qed.

(** A preimage determines the canonical rows, the block and the previous hash. *)
Lemma table_preimage_inj g g' h h' t :
  members_of (table_preimage g h t) = members_of (table_preimage g' h' t) ->
  canonical_rows g t = canonical_rows g' t /\ h = h'
  /\ serialize (table_hash (g_previous g) t) = serialize (table_hash (g_previous g') t).
Proof.
  destruct t; unfold table_preimage, table_members, canonical_rows; intros He.
  - apply fixed_split in He as [He Hc]; [|by rewrite !ledger_members_of].
    rewrite !ledger_members_of in He. apply chain_members_inj in Hc as [-> ->].
    injection He as E1 E2 E3. cbn [List.map]. by rewrite E1, E2, E3.
  - unfold preimage in He. rewrite !members_of_app, !members_of_index_keys in He.
    rewrite <- (List.length_map row_json (g_actions g)), <- (List.length_map row_json (g_actions g')) in He.
    apply indexed_split in He as [-> Hc]. by apply chain_members_inj in Hc as [-> ->].
  - apply fixed_split in He as [He Hc]; [|by rewrite !contract_members_of].
    rewrite !contract_members_of in He. apply chain_members_inj in Hc as [-> ->].
    injection He as E1 E2 E3 E4 E5 E6. cbn [List.map]. by rewrite E1, E2, E3, E4, E5, E6.
Qed.

Lemma VStr_inj a b : VStr a = VStr b -> a = b.
Proof. by intros [= ->]. Qed.

(** The query texts are data: no proof below looks inside them. *)
#[local] Opaque consensusSql.

(** ** The chain *)
Section Chain.
Context `{HashFn}.
Variable reg : registry.
Variables network coin : jsval.

(** The canonical rows of a block and the hash it committed, in a database. *)
Definition block_rows (db : database) (h : Z) (t : hash_table) : result (list (list json)) :=
  let! g := gather reg db h network coin in Ok (canonical_rows g t).
Definition committed_hash (db : database) (h : Z) (t : hash_table) : result jv :=
  let! c := committedHashes db h in Ok (table_hash c t).

(** The recomputation of block [h] gives the hash the block committed. *)
Definition reproduces (db : database) (h : Z) (t : hash_table) : Prop :=
  exists hs, computeBlockHashes reg db h network coin = Ok hs /\ committed_hash db h t = Ok (table_hash hs t).

(** The texts hashed for the blocks of a range. *)
Definition hashed (db : database) (lo hi : Z) (t : hash_table) (x : bytes) : Prop :=
  exists h g, lo < h <= hi /\ gather reg db h network coin = Ok g /\ x = hash_text (table_preimage g h t).

Lemma reproduces_inv db h t : reproduces db h t ->
  exists g, gather reg db h network coin = Ok g
  /\ committed_hash db h t = Ok (VStr (getDataHash (table_preimage g h t))).
Proof.
  intros (hs & Hc & Hm). unfold computeBlockHashes in Hc. bind_step Hc as g Hg. injection Hc as <-.
  exists g. split; [done|]. rewrite Hm. by destruct t.
Qed.

Lemma gather_previous db h g t : gather reg db h network coin = Ok g ->
  committed_hash db (h - 1) t = Ok (table_hash (g_previous g) t).
Proof.
  intros Hg. unfold gather in Hg. bind_step Hg as l E1. bind_step Hg as a E2. bind_step Hg as c E3.
  bind_step Hg as p E4. injection Hg as <-. unfold committed_hash. by rewrite E4.
Qed.

Lemma hashed_mono db lo hi lo' hi' t x : hashed db lo hi t x -> lo' <= lo -> hi <= hi' -> hashed db lo' hi' t x.
Proof. intros (h & g & ? & ? & ?) ? ?. exists h, g. repeat split; (assumption || lia). Qed.

(** One step down the chain. *)
Lemma chain_step (D : bytes -> Prop) dbA dbB h t :
  collision_free D -> (forall x, hashed dbA (h - 1) h t x -> D x) -> (forall x, hashed dbB (h - 1) h t x -> D x) ->
  reproduces dbA h t -> reproduces dbB h t -> committed_hash dbA h t = committed_hash dbB h t ->
  block_rows dbA h t = block_rows dbB h t
  /\ (let! a := committed_hash dbA (h - 1) t in Ok (serialize a)) = (let! b := committed_hash dbB (h - 1) t in Ok (serialize b)).
Proof.
  intros Hcf HDA HDB (gA & HgA & HcA)%reproduces_inv (gB & HgB & HcB)%reproduces_inv Heq.
  rewrite HcA, HcB in Heq. apply Ok_inj, VStr_inj in Heq.
  assert (members_of (table_preimage gA h t) = members_of (table_preimage gB h t)) as Hm.
  { eapply getDataHash_inj; [exact Hcf| | |exact Heq].
    - apply HDA. exists h, gA. split; [lia|split; [exact HgA|reflexivity]].
    - apply HDB. exists h, gB. split; [lia|split; [exact HgB|reflexivity]]. }
  apply table_preimage_inj in Hm as (Hr & _ & Hp). split.
  - unfold block_rows. rewrite HgA, HgB. cbn [rbind]. by rewrite Hr.
  - rewrite (gather_previous dbA h gA), (gather_previous dbB h gB) by assumption. cbn [rbind]. by rewrite Hp.
Qed.

(** A reproduced hash is text, so its JSON determines it. *)
Lemma committed_text dbA dbB h t : reproduces dbA h t -> reproduces dbB h t ->
  (let! a := committed_hash dbA h t in Ok (serialize a)) = (let! b := committed_hash dbB h t in Ok (serialize b)) ->
  committed_hash dbA h t = committed_hash dbB h t.
Proof.
  intros (gA & _ & HcA)%reproduces_inv (gB & _ & HcB)%reproduces_inv. rewrite HcA, HcB. cbn [rbind serialize].
  intros He. apply Ok_inj in He. by injection He as ->.
Qed.
End Chain.

Section Binding.
Context `{HashFn}.
Variable reg : registry.
Variables network coin : jsval.

(** C20.  The consensus hashes bind the history: when on two databases the
    recomputation of every block of [(base, n]] reproduces the hash the block
    committed (for one of the three tables), and both commit the same hash at block
    [n], then at every block of the range both databases hold the same canonical
    rows of that table and commit the same hash, and the hashes committed at [base]
    have the same JSON; the only way out is a collision of the hash among the texts
    hashed for the range. *)
Theorem block_hash_chain_binding (D : bytes -> Prop) dbA dbB t base n :
  collision_free D ->
  (forall x, hashed reg network coin dbA base n t x \/ hashed reg network coin dbB base n t x -> D x) ->
  (forall h, base < h <= n -> reproduces reg network coin dbA h t /\ reproduces reg network coin dbB h t) ->
  committed_hash dbA n t = committed_hash dbB n t ->
  (forall h, base < h <= n ->
     block_rows reg network coin dbA h t = block_rows reg network coin dbB h t
     /\ committed_hash dbA h t = committed_hash dbB h t)
  /\ (base < n -> (let! a := committed_hash dbA base t in Ok (serialize a))
                  = (let! b := committed_hash dbB base t in Ok (serialize b))).
Proof.
  intros Hcf HD Hrep Hn.
  assert (forall k : nat, base < n - Z.of_nat k ->
            committed_hash dbA (n - Z.of_nat k) t = committed_hash dbB (n - Z.of_nat k) t) as Hdown.
  { intros k; induction k as [|k IH]; intros Hk; [replace (n - Z.of_nat 0) with n by lia; exact Hn|].
    specialize (IH ltac:(lia)). destruct (Hrep (n - Z.of_nat k) ltac:(lia)) as [HA HB].
    destruct (chain_step reg network coin D dbA dbB (n - Z.of_nat k) t) as [_ Hp]; try assumption;
      [intros x Hx; apply HD; left|intros x Hx; apply HD; right|]; [eapply hashed_mono; [exact Hx|lia..]..|].
    replace (n - Z.of_nat (S k)) with (n - Z.of_nat k - 1) in * by lia.
    destruct (Hrep (n - Z.of_nat k - 1) ltac:(lia)) as [HA' HB'].
    exact (committed_text reg network coin dbA dbB _ t HA' HB' Hp). }
  assert (forall h, base < h <= n -> committed_hash dbA h t = committed_hash dbB h t) as Hc.
  { intros h Hh. specialize (Hdown (Z.to_nat (n - h)) ltac:(lia)).
    replace (n - Z.of_nat (Z.to_nat (n - h))) with h in Hdown by lia. exact Hdown. }
  assert (forall h, base < h <= n ->
    block_rows reg network coin dbA h t = block_rows reg network coin dbB h t
    /\ (let! a := committed_hash dbA (h - 1) t in Ok (serialize a))
       = (let! b := committed_hash dbB (h - 1) t in Ok (serialize b))) as Hstep.
  { intros h Hh. destruct (Hrep h Hh). apply (chain_step reg network coin D); try assumption; [..|exact (Hc h Hh)];
      intros x Hx; apply HD; [left|right]; (eapply hashed_mono; [exact Hx|lia..]). }
  split.
  - intros h Hh. split; [exact (proj1 (Hstep h Hh))|exact (Hc h Hh)].
  - intros Hb. destruct (Hstep (base + 1) ltac:(lia)) as [_ Hp]. replace (base + 1 - 1) with base in Hp by lia. exact Hp.
Qed.
End Binding.

(** ** Two replicas of two blocks

    The second one resolves the burn address of another chain: the canonical rows
    are the same. *)
Definition ex_registry_bh : registry := Registry (map row_entry committed_rows) (Some (regtestArming ex_env)).

Definition ex_rows (burn : string) (sql : string) (h : Z) : list row :=
  if bool_decide (sql = CREDITS_QUERY) && (h =? 101)
  then [[("action_index", VNum 7); ("address", VStr burn); ("tick", VStr "XCH"); ("amount", VStr "1.5")]]
  else if bool_decide (sql = ACTIONS_QUERY) && (h <=? 102)
  then [[("action_index", VNum (h - 94)); ("tx_index", VBig h); ("action", VStr "SEND")]]
  else [].

Definition prev_row (h : hashes3) : row :=
  [("ledger", ledger_hash h); ("actions", actions_hash h); ("contracts", contract_hash h)].

(** A database with the given committed hashes. *)
Definition ex_db (burn : string) (committed : list (Z * hashes3)) : database := fun sql args =>
  match args with
  | [VNum h] =>
      if bool_decide (sql = PREVIOUS_QUERY)
      then QRows (List.map (fun p => prev_row p.2) (List.filter (fun p => Z.eqb (fst p) h) committed))
      else QRows (ex_rows burn sql h)
  | _ => QError None "arguments"
  end.

(** ** The repository's golden vector ([test/fixtures/block-hash-vectors.json]) *)
Definition golden_results : list (string * list row) :=
  [(CREDITS_QUERY, [[("action_index", VNum 1); ("address", VStr "1JDogZS6tQcSxwfxhv6XKKjcyicYA4Feev"); ("tick", VStr "JDOG"); ("amount", VStr "1000")];
      [("action_index", VNum 3); ("address", VStr "1FuckButtZ6tQcSxwfxhv6XKKjcyiabcde"); ("tick", VStr "JDOG"); ("amount", VStr "500")]]);
   (DEBITS_QUERY, [[("action_index", VNum 1); ("address", VStr "1AdminZS6tQcSxwfxhv6XKKjcyicYA4Fee"); ("tick", VStr "JDOG"); ("amount", VStr "1500")]]);
   (ESCROWS_QUERY, []);
   (ACTIONS_QUERY, [[("action_index", VNum 1); ("tx_index", VNum 1); ("action", VStr "SEND")];
      [("action_index", VNum 2); ("tx_index", VNum 1); ("action", VStr "DEPLOY")];
      [("action_index", VNum 3); ("tx_index", VNum 2); ("action", VStr "SEND")]]);
   (CONTRACTS_QUERY, [[("action_index", VNum 2); ("source_address", VStr "1AdminZS6tQcSxwfxhv6XKKjcyicYA4Fee"); ("code_hash", VStr "deadbeefcafe"); ("status", VStr "deployed")]]);
   (contractStateHashQuery "", [[("contract_index", VNum 2); ("state_key", VStr "counter"); ("state_value", VStr "42")];
      [("contract_index", VNum 2); ("state_key", VStr "owner"); ("state_value", VStr "abc")]]);
   (EXECUTIONS_QUERY, [[("action_index", VNum 3); ("contract_index", VNum 2); ("caller_address", VStr "1FuckButtZ6tQcSxwfxhv6XKKjcyiabcde"); ("gas_used", VStr "12345"); ("status", VStr "success"); ("emitted_count", VNum 1)]]);
   (EMISSIONS_QUERY, [[("execution_index", VNum 3); ("emitted_action", VStr "EXECUTE"); ("action_index", VNum 3); ("position", VNum 0)]]);
   (DEPOSITS_QUERY, [[("action_index", VNum 1); ("contract_index", VNum 2); ("source_address", VStr "1JDogZS6tQcSxwfxhv6XKKjcyicYA4Feev"); ("tick", VStr "JDOG"); ("amount", VStr "1000"); ("status", VStr "success")]]);
   (WITHDRAWALS_QUERY, []);
   (PREVIOUS_QUERY, [[("ledger", VStr "prevLedgerHash"); ("actions", VStr "prevActionsHash"); ("contracts", VStr "prevContractsHash")]])].
Definition golden_db : database := fun sql _ => QRows (default [] (jm_get sql golden_results)).

Example golden_block_hashes :
  computeBlockHashes (H := node_crypto) ex_registry_bh golden_db 1000 JUndef JUndef
  = Ok (Hashes3 (VStr "b877b7b65bae57b5f7db81a32013bc69afea70549f7bf1fe7e6dccd82929acdc")
                (VStr "a87f2987494bbe53eafdddaf8a6d5fea0672a9cded1c8ad157f107181d5bae36")
                (VStr "2e473721e1df1581a90e7e8fa57bf5928b166fe1e5efab79efacc3f88b0da0dd")).
Proof. vm_compute. reflexivity. Qed.

Definition ex_burn_btc : string := "1XChainBurnAddressXXXXXXXXXbRsd2N".
Definition ex_burn_ltc : string := "LXChainBurnAddressXXXXXXXXXXSkrYkJ".
(** The hashes both replicas commit. *)
Definition ex_committed : list (Z * hashes3) :=
  [(100, Hashes3 (VStr "aa") (VStr "bb") VNull);
   (101, Hashes3 (VStr "132128ed47b4b1bb1dfb782ab38edf8f05a5877129e556c13ff801615141c2fd")
                 (VStr "af275d8117fe5578329c3e41e459c93be8a1d59fc82e0a9a617c991311dd27c5")
                 (VStr "867890295f06cd8a5c140d0216120e97b347d11e85b80cc629f8afdf275f48c7"));
   (102, Hashes3 (VStr "7a98c5b99d4bc513a51c7b5f2d7441be7431b461e6e02fc14f2c3822d5271dc2")
                 (VStr "9c15df3a92263cf7f5f3727ffa0e9d54de07f6f3c43404e5a414b928ff3dae3e")
                 (VStr "55a182bf2d997ab6a83e1ebac83351f3aa918922f3779a7b51db2e86e7e95791"))].
Definition ex_replica (burn : string) : database := ex_db burn ex_committed.
Definition ex_gathered (burn : string) (h : Z) : result gathered :=
  gather ex_registry_bh (ex_replica burn) h (JStr "mainnet") (JStr "BTC").
Definition ex_texts : list bytes :=
  List.flat_map (fun burn => List.flat_map (fun h =>
    match ex_gathered burn h with Ok g => [hash_text (table_preimage g h Ledger)] | Throw _ => [] end) [101; 102])
    [ex_burn_btc; ex_burn_ltc].

Lemma ex_texts_collision_free : collision_free (H := node_crypto) (fun x => x ∈ ex_texts).
Proof. apply collision_free_list_sound. vm_compute. reflexivity. Qed.

Lemma ex_hashed burn x : burn = ex_burn_btc \/ burn = ex_burn_ltc ->
  hashed ex_registry_bh (JStr "mainnet") (JStr "BTC") (ex_replica burn) 100 102 Ledger x -> x ∈ ex_texts.
Proof.
  intros Hb (h & g & Hh & Hg & ->). unfold ex_texts.
  assert (h = 101 \/ h = 102) as Hc by lia.
  apply (proj2 (list_elem_of_In _ _)). apply (proj2 (List.in_flat_map _ _ _)). exists burn.
  split; [destruct Hb as [->| ->]; [left|right; left]; reflexivity|].
  apply (proj2 (List.in_flat_map _ _ _)). exists h.
  split; [destruct Hc as [->| ->]; [left|right; left]; reflexivity|].
  unfold ex_gathered. rewrite Hg. left. reflexivity.
Qed.

Lemma ex_reproduces burn h : burn = ex_burn_btc \/ burn = ex_burn_ltc -> 100 < h <= 102 ->
  reproduces (H := node_crypto) ex_registry_bh (JStr "mainnet") (JStr "BTC") (ex_replica burn) h Ledger.
Proof.
  intros Hb Hh. assert (h = 101 \/ h = 102) as Hc by lia.
  destruct Hb as [->| ->], Hc as [->| ->]; eexists; split; vm_compute; reflexivity.
Qed.

Lemma block_hash_chain_binding_witness :
  (forall h, 100 < h <= 102 ->
     block_rows ex_registry_bh (JStr "mainnet") (JStr "BTC") (ex_replica ex_burn_btc) h Ledger
     = block_rows ex_registry_bh (JStr "mainnet") (JStr "BTC") (ex_replica ex_burn_ltc) h Ledger
     /\ committed_hash (ex_replica ex_burn_btc) h Ledger = committed_hash (ex_replica ex_burn_ltc) h Ledger)
  /\ block_rows ex_registry_bh (JStr "mainnet") (JStr "BTC") (ex_replica ex_burn_btc) 102 Ledger = Ok [[]; []; []].
Proof.
  split; [|vm_compute; reflexivity].
  exact (proj1 (block_hash_chain_binding (H := node_crypto) ex_registry_bh (JStr "mainnet") (JStr "BTC")
    (fun x => x ∈ ex_texts) (ex_replica ex_burn_btc) (ex_replica ex_burn_ltc) Ledger 100 102
    ex_texts_collision_free
    (fun x Hx => match Hx with
                 | or_introl Hx => ex_hashed ex_burn_btc x (or_introl eq_refl) Hx
                 | or_intror Hx => ex_hashed ex_burn_ltc x (or_intror eq_refl) Hx
                 end)
    (fun h Hh => conj (ex_reproduces ex_burn_btc h (or_introl eq_refl) Hh)
                      (ex_reproduces ex_burn_ltc h (or_intror eq_refl) Hh))
    ltac:(vm_compute; reflexivity))).
Defined.
