(* ===== verification/StateHash.v ===== *)
(** * StateHash: the per-block state hash

    Models [src/src/consensus/state_hash.js] and [src/src/consensus/state_hash/]:
    the preimage of the fourth hash of a block, over the rows that the block
    changed in place.  Each class of rows is one or more queries; a class whose
    table or column does not exist yet contributes no rows, and every other read
    error stops the hash ([tolerantQuery]).  The classes behind a flag day are
    queried and present only once their gate is active.

    [state_hash_gated]: the keys of the preimage, in order.
    [state_hash_total]: the hash exists exactly when every query it issues
    succeeds or fails for want of a table or column, the status lookup apart.
    [state_hash_binding]: equal state hashes have equal classes. *)

From S2P Require Import Prelude Sha256 JsText JsNumber JsMap Json GateRegistry Gates SharedRows BlockQueries BlockHash.

(** ** Constants ([activation.js], [mutation_sections.js]) *)
Definition STATE_HASH_VERSION : Z := 1.
Definition DEACTIVATION_TABLES : list string := ["stakes"; "delegations"; "contract_stakes"; "contract_delegations"].
Record slash_spec := SlashSpec { s_table : string; s_debits : string; s_target : string }.
Definition SLASH_SPECS : list slash_spec :=
  [SlashSpec "stakes" "capability_slash_debits" "stakes"; SlashSpec "unstakes" "capability_slash_debits" "unstakes";
   SlashSpec "contract_stakes" "contract_slash_debits" "contract_stakes";
   SlashSpec "contract_unstakes" "contract_slash_debits" "contract_unstakes"].
Definition REQUEST_STATUS_TABLES : list string := ["attests"; "xcalls"].
Definition COOLDOWN_TABLES : list string := ["unstakes"; "contract_unstakes"].
Definition ARCHIVE_HEAD_VERSIONS_SQL : string := "IN (1)".
Definition ARCHIVE_CHUNK_HEIGHT_COL : string := "c.block_index_doge".
Definition ARCHIVE_CHUNK_HEIGHT_COL_LEGACY : string := "c.block_index".
Definition ATTEST_BATCH_HEAD_VERSION : Z := 5.
Definition ATTEST_BATCH_CONTINUATION_VERSION : Z := 6.
Definition ATTEST_BATCH_COMPLETION_STAMP : string := " (stamped on batch completion)".

Definition slash_value (s : slash_spec) : gval :=
  GObj [("table", GStr (s_table s)); ("debits", GStr (s_debits s)); ("target", GStr (s_target s))].

(** The constants are the rows of the activation registry they are copied from. *)
Lemma state_hash_constants e r : committed_registry e = Ok r ->
  copy "stateHash.STATE_HASH_VERSION" r = Ok (GNum STATE_HASH_VERSION)
  /\ copy "stateHash.DEACTIVATION_TABLES" r = Ok (GArr (List.map GStr DEACTIVATION_TABLES))
  /\ copy "stateHash.SLASH_SPECS" r = Ok (GArr (List.map slash_value SLASH_SPECS))
  /\ copy "stateHash.REQUEST_STATUS_TABLES" r = Ok (GArr (List.map GStr REQUEST_STATUS_TABLES))
  /\ copy "stateHash.COOLDOWN_TABLES" r = Ok (GArr (List.map GStr COOLDOWN_TABLES))
  /\ copy "stateHash.ARCHIVE_HEAD_VERSIONS_SQL" r = Ok (GStr ARCHIVE_HEAD_VERSIONS_SQL)
  /\ copy "stateHash.ARCHIVE_CHUNK_HEIGHT_COL" r = Ok (GStr ARCHIVE_CHUNK_HEIGHT_COL)
  /\ copy "stateHash.ARCHIVE_CHUNK_HEIGHT_COL_LEGACY" r = Ok (GStr ARCHIVE_CHUNK_HEIGHT_COL_LEGACY).
Proof. rewrite committed_registry_eq. intros Hr. apply Ok_inj in Hr as <-. repeat split. Qed.

(** ** The queries *)
Definition bt (s : string) : string := "`" +:+ s +:+ "`".
Definition between_args (B : Z) : list jv := [VNum B; VNum B].

Definition deactivation_sql (t : string) : string :=
  "SELECT action_index, deactivation_block FROM " +:+ bt t +:+ " " +:+
  "WHERE deactivation_block BETWEEN ? AND ? ORDER BY action_index ASC".
Definition slash_sql (s : slash_spec) : string :=
  "SELECT DISTINCT t.action_index, t.amount FROM " +:+ bt (s_table s) +:+ " t " +:+
  "JOIN " +:+ bt (s_debits s) +:+ " d ON d.stake_action_index = t.action_index " +:+
  "WHERE d.target_table = ? AND d.block_index BETWEEN ? AND ? ORDER BY t.action_index ASC".
Definition request_status_sql (t : string) : string :=
  "SELECT action_index, request_status, resolved_block FROM " +:+ bt t +:+ " " +:+
  "WHERE version = 0 AND resolved_block BETWEEN ? AND ? ORDER BY action_index ASC".
Definition cooldown_sql (t : string) : string :=
  "SELECT t.action_index, s.status AS status FROM " +:+ bt t +:+ " t " +:+
  "LEFT JOIN index_statuses s ON (s.id = t.status_id) " +:+
  "WHERE t.cooldown_end_block BETWEEN ? AND ? ORDER BY t.action_index ASC".
Definition refund_credits_sql : string :=
  "SELECT action_index, address, tick, amount FROM ( " +:+
  "SELECT c.action_index, a.address AS address, ti.tick AS tick, c.amount " +:+
  "FROM credits c " +:+
  "JOIN unstakes u ON (u.action_index = c.action_index AND u.source_id = c.address_id) " +:+
  "JOIN index_tickers g ON (g.id = c.tick_id AND g.tick = ?) " +:+
  "LEFT JOIN index_addresses a ON (a.id = c.address_id) " +:+
  "LEFT JOIN index_tickers ti ON (ti.id = c.tick_id) " +:+
  "WHERE u.status_id = ? AND u.cooldown_end_block BETWEEN ? AND ? " +:+
  "UNION ALL " +:+
  "SELECT c.action_index, a.address AS address, ti.tick AS tick, c.amount " +:+
  "FROM credits c " +:+
  "JOIN contract_unstakes cu ON (cu.action_index = c.action_index AND cu.source_id = c.address_id AND cu.tick_id = c.tick_id) " +:+
  "LEFT JOIN index_addresses a ON (a.id = c.address_id) " +:+
  "LEFT JOIN index_tickers ti ON (ti.id = c.tick_id) " +:+
  "WHERE cu.status_id = ? AND cu.cooldown_end_block BETWEEN ? AND ? " +:+
  ") x ORDER BY action_index ASC, address COLLATE utf8_bin ASC, tick COLLATE utf8mb4_bin ASC, amount ASC".
Definition archiveHeadPredicate (alias : string) : string :=
  alias +:+ ".match_batch_seq IS NOT NULL AND " +:+ alias +:+ ".version <> 2".
Definition checkpointSectionPredicate (alias : string) : string := alias +:+ ".chain IS NOT NULL".
Definition anchor_invalid_sql (chunkHeightCol : string) : string :=
  "SELECT p.action_index, s.status AS status FROM anchor_actions p " +:+
  "JOIN anchor_actions c ON c.version = 2 AND c.match_batch_seq = p.match_batch_seq " +:+
  "JOIN index_statuses s ON s.id = p.status_id AND s.status = 'invalid_archive' " +:+
  "JOIN index_statuses cs ON cs.id = c.status_id AND cs.status = 'valid' " +:+
  "WHERE " +:+ archiveHeadPredicate "p" +:+ " AND p.version " +:+ ARCHIVE_HEAD_VERSIONS_SQL +:+
  " AND " +:+ chunkHeightCol +:+ " BETWEEN ? AND ? " +:+
  "ORDER BY p.action_index ASC".
Definition index_addresses_sql : string := "SELECT id, address FROM index_addresses WHERE block_index = ? ORDER BY id ASC".
Definition index_tickers_sql : string := "SELECT id, tick FROM index_tickers WHERE block_index = ? ORDER BY id ASC".
Definition poll_finalize_sql : string :=
  "SELECT action_index, poll_status, winning_option, total_weight, total_voters, " +:+
  "quorum_met, min_voters_met, fail_reason, decided_early, effective_close_block, " +:+
  "finalized_action_index, resolved_block, deposit_resolved, callback_execute_action_index " +:+
  "FROM polls WHERE resolved_block BETWEEN ? AND ? ORDER BY action_index ASC".
Definition token_supply_sql : string :=
  "SELECT tk.tick AS tick, t.supply AS supply FROM tokens t " +:+
  "JOIN index_tickers tk ON (tk.id = t.tick_id) " +:+
  "WHERE t.tick_id IN ( " +:+
  "SELECT c.tick_id FROM credits c JOIN actions a ON (a.action_index = c.action_index) WHERE a.block_index BETWEEN ? AND ? AND c.tick_id IS NOT NULL " +:+
  "UNION " +:+
  "SELECT d.tick_id FROM debits d JOIN actions a ON (a.action_index = d.action_index) WHERE a.block_index BETWEEN ? AND ? AND d.tick_id IS NOT NULL " +:+
  "UNION " +:+
  "SELECT e.tick_id FROM escrows e JOIN actions a ON (a.action_index = e.action_index) WHERE a.block_index BETWEEN ? AND ? AND e.tick_id IS NOT NULL " +:+
  ") ORDER BY tick COLLATE utf8mb4_bin ASC".
Definition bet_feed_sql : string :=
  "SELECT f.action_index, s.status AS feed_status, f.closed_block, f.terminal_block " +:+
  "FROM bet_feeds f JOIN index_statuses s ON (s.id = f.feed_status_id) " +:+
  "WHERE f.closed_block = ? OR f.terminal_block = ? ORDER BY f.action_index ASC".
Definition bet_sql : string :=
  "SELECT b.action_index, s.status AS bet_status, b.settled_block " +:+
  "FROM bets b JOIN index_statuses s ON (s.id = b.bet_status_id) " +:+
  "WHERE b.settled_block = ? ORDER BY b.action_index ASC".
Definition attest_batch_head_sql : string :=
  "SELECT p.action_index, s.status AS status, p.batch_total_chunks AS total_chunks, p.batch_crc32 AS crc32 FROM attests p " +:+
  "JOIN index_statuses s ON s.id = p.status_id AND s.status LIKE ? " +:+
  "JOIN actions pa ON pa.action_index = p.action_index " +:+
  "WHERE p.version = ? AND p.batch_chunk_index = 0 AND EXISTS ( " +:+
  "SELECT 1 FROM attests e " +:+
  "WHERE e.version = ? AND e.request_id = p.request_id AND e.block_index = ? " +:+
  ") AND ( " +:+
  "SELECT ca.block_index FROM attests c " +:+
  "JOIN index_statuses cs ON cs.id = c.status_id AND cs.status = 'valid' " +:+
  "JOIN actions ca ON ca.action_index = c.action_index AND ca.source_id = pa.source_id " +:+
  "WHERE c.request_id = p.request_id AND c.version = ? AND c.batch_chunk_index IS NOT NULL " +:+
  "AND c.batch_total_chunks = p.batch_total_chunks AND c.batch_crc32 = p.batch_crc32 " +:+
  "ORDER BY c.action_index DESC LIMIT 1 " +:+
  ") = ? ORDER BY p.action_index ASC".

(** ** The collectors *)
Section Collect.
Variable reg : registry.
Variable db : database.

(** [tolerantQuery(db, sql, args)] *)
Definition tolerantQuery (sql : string) (args : list jv) : result (list row) :=
  match db sql args with
  | QRows l => Ok l
  | QError errno msg =>
      if bool_decide (errno = Some 1146) || bool_decide (errno = Some 1054) then Ok [] else Throw msg
  end.

Definition nullish (v : jv) : bool := match v with VUndef | VNull => true | _ => false end.

(** An object built one table at a time. *)
Fixpoint per_table {A} (name : A -> string) (read : A -> result (list row)) (acc : row) (l : list A) : result row :=
  match l with
  | [] => Ok acc
  | t :: l' => let! rows := read t in per_table name read (jm_set (name t) (rowsJson rows) acc) l'
  end.

Definition collectDeactivations (B : Z) (delay : option Z) : result jv :=
  let! o := per_table id (fun t =>
      match delay with
      | None => Ok []
      | Some d => tolerantQuery (deactivation_sql t) (between_args (B + d))
      end) [] DEACTIVATION_TABLES in
  Ok (VObj o).
Definition collectSlashes (B : Z) : result jv :=
  let! o := per_table s_table (fun s => tolerantQuery (slash_sql s) (VStr (s_target s) :: between_args B)) [] SLASH_SPECS in
  Ok (VObj o).
Definition collectRequestStatus (B : Z) : result jv :=
  let! o := per_table id (fun t => tolerantQuery (request_status_sql t) (between_args B)) [] REQUEST_STATUS_TABLES in
  Ok (VObj o).
Definition collectCooldown (B : Z) : result jv :=
  let! o := per_table id (fun t => tolerantQuery (cooldown_sql t) (between_args B)) [] COOLDOWN_TABLES in
  Ok (VObj o).
Definition refund_args (B : Z) (gasTick completedStatusId : jv) : list jv :=
  [gasTick; completedStatusId; VNum B; VNum B; completedStatusId; VNum B; VNum B].
Definition collectCredits (B : Z) (gasTick completedStatusId : jv) : result (list row) :=
  if nullish completedStatusId then Ok [] else tolerantQuery refund_credits_sql (refund_args B gasTick completedStatusId).

(** The gates: [copy] of the table at load, then the coin-keyed test. *)
Definition hash_gate (key : string) (B : Z) (network coin : jsval) : result bool :=
  let! table := copy key reg in Ok (coin_gate_active table (JInt B) (js_String network) coin).
Definition isPollFinalizeStateHashActive := hash_gate "stateHash.POLL_FINALIZE_STATE_HASH_ACTIVATION".
Definition isTokenSupplyStateHashActive := hash_gate "stateHash.TOKEN_SUPPLY_STATE_HASH_ACTIVATION".
Definition isBetStatusStateHashActive := hash_gate "stateHash.BET_STATUS_STATE_HASH_ACTIVATION".
Definition isArchiveInvalidHeightKeyActive := hash_gate "stateHash.ARCHIVE_INVALID_HEIGHT_KEY_ACTIVATION".
Definition isAttestBatchHeadStateHashActive := hash_gate "stateHash.ATTEST_BATCH_HEAD_STATE_HASH_ACTIVATION".

Definition chunk_height_col (active : bool) : string :=
  if active then ARCHIVE_CHUNK_HEIGHT_COL else ARCHIVE_CHUNK_HEIGHT_COL_LEGACY.
Definition collectAnchorInvalid (B : Z) (network coin : jsval) : result (list row) :=
  let! active := isArchiveInvalidHeightKeyActive B network coin in
  tolerantQuery (anchor_invalid_sql (chunk_height_col active)) (between_args B).
Definition collectIndexMapDelta (B : Z) : result (list row * list row) :=
  let! a := tolerantQuery index_addresses_sql [VNum B] in
  let! t := tolerantQuery index_tickers_sql [VNum B] in Ok (a, t).
Definition collectPollFinalize (B : Z) : result (list row) := tolerantQuery poll_finalize_sql (between_args B).
Definition token_supply_args (B : Z) : list jv := between_args B ++ between_args B ++ between_args B.
Definition collectTokenSupply (B : Z) : result (list row) := tolerantQuery token_supply_sql (token_supply_args B).
Definition collectBetStatus (B : Z) : result (list row * list row) :=
  let! f := tolerantQuery bet_feed_sql [VNum B; VNum B] in
  let! b := tolerantQuery bet_sql [VNum B] in Ok (f, b).
Definition attest_batch_args (B : Z) : list jv :=
  [VStr ("%" +:+ ATTEST_BATCH_COMPLETION_STAMP); VNum ATTEST_BATCH_HEAD_VERSION;
   VNum ATTEST_BATCH_CONTINUATION_VERSION; VNum B; VNum ATTEST_BATCH_CONTINUATION_VERSION; VNum B].
Definition collectAttestBatchHead (B : Z) : result (list row) := tolerantQuery attest_batch_head_sql (attest_batch_args B).

(** [active ? await collect(db, B) : null] *)
Definition when {A} (active : bool) (r : result A) : result (option A) :=
  if active then let! a := r in Ok (Some a) else Ok None.
Definition gated (active : option (list row)) (key : string) : list (string * jv) :=
  match active with Some l => [(key, rowsJson l)] | None => [] end.

Record hash_opts := HashOpts { activationDelay : option Z; gasTick : jv; h_network : jsval; h_coin : jsval }.

(** [db.doQuery(sql, args)]: outside a transaction an error reads as no rows. *)
Definition doQuery (tx : bool) (sql : string) (args : list jv) : result (list row) :=
  match db sql args with
  | QRows l => Ok l
  | QError _ msg => if tx then Throw msg else Ok []
  end.
Definition status_sql : string := "SELECT id FROM index_statuses WHERE status = ? LIMIT 1".
(** [Number(id)] of an id column. *)
Definition number_of_id (v : jv) : jv := match v with VBig z => VNum z | _ => v end.
Definition getStatusId (tx : bool) (status : string) : result jv :=
  let! rows := doQuery tx status_sql [VStr status] in
  Ok (match rows with r :: _ => number_of_id (column r "id") | [] => VNull end).

(** [buildStateHashData(db, blockIndex, opts)]; [tx] says whether the reads run
    inside a transaction. *)
Definition buildStateHashData (tx : bool) (B : Z) (o : hash_opts) : result (list (string * jv)) :=
  let! completedStatusId := getStatusId tx "completed" in
  let! deactivations := collectDeactivations B (activationDelay o) in
  let! slashes := collectSlashes B in
  let! request_status := collectRequestStatus B in
  let! cooldown := collectCooldown B in
  let! credits := collectCredits B (gasTick o) completedStatusId in
  let! anchor_invalid := collectAnchorInvalid B (h_network o) (h_coin o) in
  let! indexMap := collectIndexMapDelta B in
  let! pollActive := isPollFinalizeStateHashActive B (h_network o) (h_coin o) in
  let! poll_finalize := when pollActive (collectPollFinalize B) in
  let! supplyActive := isTokenSupplyStateHashActive B (h_network o) (h_coin o) in
  let! token_supply := when supplyActive (collectTokenSupply B) in
  let! betActive := isBetStatusStateHashActive B (h_network o) (h_coin o) in
  let! bet := when betActive (collectBetStatus B) in
  let! attestActive := isAttestBatchHeadStateHashActive B (h_network o) (h_coin o) in
  let! attest_batch_head := when attestActive (collectAttestBatchHead B) in
  Ok ([("deactivations", deactivations); ("slashes", slashes); ("request_status", request_status);
       ("cooldown", cooldown); ("credits", rowsJson credits); ("anchor_invalid", rowsJson anchor_invalid);
       ("index_addresses_new", rowsJson indexMap.1); ("index_tickers_new", rowsJson indexMap.2)]
      ++ gated poll_finalize "poll_finalize" ++ gated token_supply "token_supply"
      ++ gated (fst <$> bet) "bet_feed_status" ++ gated (snd <$> bet) "bet_status"
      ++ gated attest_batch_head "attest_batch_head"
      ++ [("block_index", VNum B); ("state_hash_version", VNum STATE_HASH_VERSION)]).

(** [BlockHasher.computeStateHash] *)
Definition computeStateHash `{HashFn} (tx : bool) (B : Z) (o : hash_opts) : result string :=
  let! data := buildStateHashData tx B o in Ok (getDataHash data).
End Collect.

(** ** [classDigests(preimage, getDataHash)] ([client/state_hash_classes.js]) *)
Record class_digest := ClassDigest { cd_class : string; cd_rows : option Z; cd_digest : string }.
Definition classDigests `{HashFn} (preimage : list (string * jv)) : list class_digest :=
  List.map (fun m => ClassDigest m.1 (match m.2 with VArr l => Some (Z.of_nat (length l)) | _ => None end)
                       (of_utf8 (take 16 (utf8 (getDataHash [("class", VStr m.1); ("value", m.2)]))))) preimage.

(** ** The queries a hash issues *)

(** A query that succeeds, or fails for want of a table or column. *)
Definition tolerable (db : database) (q : string * list jv) : bool :=
  match db q.1 q.2 with
  | QRows _ => true
  | QError errno _ => bool_decide (errno = Some 1146) || bool_decide (errno = Some 1054)
  end.

(** The five gates of a block. *)
Record hash_gates := HashGates { hg_archive : bool; hg_poll : bool; hg_supply : bool; hg_bet : bool; hg_attest : bool }.
Definition read_gates (reg : registry) (B : Z) (o : hash_opts) : result hash_gates :=
  let! a := isArchiveInvalidHeightKeyActive reg B (h_network o) (h_coin o) in
  let! p := isPollFinalizeStateHashActive reg B (h_network o) (h_coin o) in
  let! s := isTokenSupplyStateHashActive reg B (h_network o) (h_coin o) in
  let! b := isBetStatusStateHashActive reg B (h_network o) (h_coin o) in
  let! t := isAttestBatchHeadStateHashActive reg B (h_network o) (h_coin o) in
  Ok (HashGates a p s b t).

Definition issued (B : Z) (o : hash_opts) (completed : jv) (g : hash_gates) : list (string * list jv) :=
  match activationDelay o with
  | Some d => List.map (fun t => (deactivation_sql t, between_args (B + d))) DEACTIVATION_TABLES
  | None => []
  end
  ++ List.map (fun s => (slash_sql s, VStr (s_target s) :: between_args B)) SLASH_SPECS
  ++ List.map (fun t => (request_status_sql t, between_args B)) REQUEST_STATUS_TABLES
  ++ List.map (fun t => (cooldown_sql t, between_args B)) COOLDOWN_TABLES
  ++ (if nullish completed then [] else [(refund_credits_sql, refund_args B (gasTick o) completed)])
  ++ [(anchor_invalid_sql (chunk_height_col (hg_archive g)), between_args B)]
  ++ [(index_addresses_sql, [VNum B]); (index_tickers_sql, [VNum B])]
  ++ (if hg_poll g then [(poll_finalize_sql, between_args B)] else [])
  ++ (if hg_supply g then [(token_supply_sql, token_supply_args B)] else [])
  ++ (if hg_bet g then [(bet_feed_sql, [VNum B; VNum B]); (bet_sql, [VNum B])] else [])
  ++ (if hg_attest g then [(attest_batch_head_sql, attest_batch_args B)] else []).

(** ** Success of a sequence of reads *)

Lemma is_ok_bind {A C} (r : result A) (k : A -> result C) b :
  (forall a, r = Ok a -> is_ok (k a) = b) -> is_ok (rbind r k) = is_ok r && b.
Proof. destruct r as [a|m]; cbn; [intros H; by apply H|done]. Qed.

Section Success.
Variable db : database.

Lemma tolerantQuery_ok sql args : is_ok (tolerantQuery db sql args) = tolerable db (sql, args).
Proof. unfold tolerantQuery, tolerable. cbn [fst snd]. destruct (db sql args) as [|errno msg]; [done|].
  by destruct (bool_decide (errno = Some 1146) || bool_decide (errno = Some 1054)). Qed.

Lemma per_table_ok {A} name (read : A -> result (list row)) acc l :
  is_ok (per_table name read acc l) = forallb (fun t => is_ok (read t)) l.
Proof.
  revert acc; induction l as [|t l IH]; intros acc; [done|]. cbn [per_table forallb].
  rewrite (is_ok_bind _ _ (forallb (fun t => is_ok (read t)) l)); [done|]. intros rows _. apply IH.
Qed.

Lemma per_table_obj {A} name (read : A -> result (list row)) l :
  is_ok (let! o := per_table name read [] l in Ok (VObj o)) = forallb (fun t => is_ok (read t)) l.
Proof. rewrite (is_ok_bind _ _ true) by done. by rewrite per_table_ok, andb_true_r. Qed.

Lemma forallb_tolerable {A} (q : A -> string * list jv) l :
  forallb (fun t => is_ok (tolerantQuery db (q t).1 (q t).2)) l = forallb (tolerable db) (List.map q l).
Proof.
  induction l as [|t l IH]; [done|]. cbn [forallb List.map]. rewrite tolerantQuery_ok, IH. by destruct (q t).
Qed.

Lemma deactivations_ok B d : is_ok (collectDeactivations db B d) = forallb (tolerable db)
  (match d with Some d => List.map (fun t => (deactivation_sql t, between_args (B + d))) DEACTIVATION_TABLES | None => [] end).
Proof.
  unfold collectDeactivations. rewrite per_table_obj. destruct d as [d|]; [|done].
  apply (forallb_tolerable (fun t => (deactivation_sql t, between_args (B + d)))).
Qed.
Lemma slashes_ok B : is_ok (collectSlashes db B)
  = forallb (tolerable db) (List.map (fun s => (slash_sql s, VStr (s_target s) :: between_args B)) SLASH_SPECS).
Proof. unfold collectSlashes. rewrite per_table_obj.
  apply (forallb_tolerable (fun s => (slash_sql s, VStr (s_target s) :: between_args B))). Qed.
Lemma request_status_ok B : is_ok (collectRequestStatus db B)
  = forallb (tolerable db) (List.map (fun t => (request_status_sql t, between_args B)) REQUEST_STATUS_TABLES).
Proof. unfold collectRequestStatus. rewrite per_table_obj.
  apply (forallb_tolerable (fun t => (request_status_sql t, between_args B))). Qed.
Lemma cooldown_ok B : is_ok (collectCooldown db B)
  = forallb (tolerable db) (List.map (fun t => (cooldown_sql t, between_args B)) COOLDOWN_TABLES).
Proof. unfold collectCooldown. rewrite per_table_obj.
  apply (forallb_tolerable (fun t => (cooldown_sql t, between_args B))). Qed.
Lemma credits_ok B gas cid : is_ok (collectCredits db B gas cid)
  = forallb (tolerable db) (if nullish cid then [] else [(refund_credits_sql, refund_args B gas cid)]).
Proof. unfold collectCredits. destruct (nullish cid); [done|]. by rewrite tolerantQuery_ok, <- (andb_true_r (tolerable _ _)). Qed.

Lemma two_queries_ok {A} q1 a1 q2 a2 (k : list row -> list row -> A) :
  is_ok (let! x := tolerantQuery db q1 a1 in let! y := tolerantQuery db q2 a2 in Ok (k x y))
  = forallb (tolerable db) [(q1, a1); (q2, a2)].
Proof.
  rewrite (is_ok_bind _ _ (tolerable db (q2, a2))).
  - cbn [forallb]. by rewrite tolerantQuery_ok, andb_true_r.
  - intros x _. rewrite (is_ok_bind _ _ true) by done. by rewrite tolerantQuery_ok, andb_true_r.
Qed.

Lemma when_ok {A} (active : bool) (r : result A) qs : is_ok r = forallb (tolerable db) qs ->
  is_ok (when active r) = forallb (tolerable db) (if active then qs else []).
Proof. intros Hr. destruct active; [|done]. cbn [when]. rewrite (is_ok_bind _ _ true) by done. by rewrite andb_true_r. Qed.

Lemma one_query_ok q a : is_ok (tolerantQuery db q a) = forallb (tolerable db) [(q, a)].
Proof. cbn [forallb]. by rewrite tolerantQuery_ok, andb_true_r. Qed.
End Success.

Section Theorems.
Variable reg : registry.

Lemma read_gates_inv B o g : read_gates reg B o = Ok g ->
  isArchiveInvalidHeightKeyActive reg B (h_network o) (h_coin o) = Ok (hg_archive g)
  /\ isPollFinalizeStateHashActive reg B (h_network o) (h_coin o) = Ok (hg_poll g)
  /\ isTokenSupplyStateHashActive reg B (h_network o) (h_coin o) = Ok (hg_supply g)
  /\ isBetStatusStateHashActive reg B (h_network o) (h_coin o) = Ok (hg_bet g)
  /\ isAttestBatchHeadStateHashActive reg B (h_network o) (h_coin o) = Ok (hg_attest g).
Proof.
  intros Hg. unfold read_gates in Hg. bind_step Hg as a E1. bind_step Hg as p E2. bind_step Hg as s E3.
  bind_step Hg as b E4. bind_step Hg as t E5. apply Ok_inj in Hg as <-. done.
Qed.

Lemma build_total db tx B o g : read_gates reg B o = Ok g ->
  is_ok (buildStateHashData reg db tx B o)
  = match getStatusId db tx "completed" with Ok cid => forallb (tolerable db) (issued B o cid g) | Throw _ => false end.
Proof.
  intros (Ga & Gp & Gs & Gb & Gt)%read_gates_inv. unfold buildStateHashData, issued.
  destruct (getStatusId db tx "completed") as [cid|e]; [|done].
  rewrite Gp, Gs, Gb, Gt. cbn [rbind]. unfold collectAnchorInvalid. rewrite Ga. cbn [rbind].
  rewrite !forallb_app, <- deactivations_ok, <- slashes_ok, <- request_status_ok, <- cooldown_ok, <- credits_ok.
  rewrite <- (one_query_ok db (anchor_invalid_sql _)), <- (two_queries_ok db index_addresses_sql [VNum B] _ _ pair).
  do 7 (apply is_ok_bind; intros ? _).
  rewrite <- (when_ok db (hg_poll g) (collectPollFinalize db B) [(poll_finalize_sql, between_args B)] (one_query_ok db _ _)).
  rewrite <- (when_ok db (hg_supply g) (collectTokenSupply db B) [(token_supply_sql, token_supply_args B)] (one_query_ok db _ _)).
  rewrite <- (when_ok db (hg_bet g) (collectBetStatus db B) [(bet_feed_sql, [VNum B; VNum B]); (bet_sql, [VNum B])] (two_queries_ok db _ _ _ _ pair)).
  rewrite <- (when_ok db (hg_attest g) (collectAttestBatchHead db B) [(attest_batch_head_sql, attest_batch_args B)] (one_query_ok db _ _)).
  do 3 (apply is_ok_bind; intros ? _). rewrite (is_ok_bind _ _ true) by done. apply andb_true_r.
Qed.

(** A fault of the status lookup outside a transaction reads as "no completed
    status": the refund credits are then hashed as an empty class, whatever rows
    the database holds. *)
Lemma status_fault_empties_credits db errno msg B o pre :
  db status_sql [VStr "completed"] = QError errno msg ->
  buildStateHashData reg db false B o = Ok pre -> ("credits", VArr []) ∈ pre.
Proof.
  intros Hf Hb. unfold buildStateHashData, getStatusId, doQuery in Hb. rewrite Hf in Hb. cbn [rbind] in Hb.
  bind_step Hb as de E1. bind_step Hb as sl E2. bind_step Hb as rs E3. bind_step Hb as co E4.
  bind_step Hb as cr E5. apply Ok_inj in E5 as <-. do 10 (let E := fresh in bind_step Hb as ? E). apply Ok_inj in Hb as <-.
  apply elem_of_app. left. do 4 right. left.
Qed.

(** C22.  A state hash never stands on a failed read of a class: with the block's gates
    read, the preimage is built exactly when the lookup of the [completed] status does not
    throw and each of the queries issued after it (those of the ungated classes and of the
    classes whose gate is active, and no other) succeeds or fails for want of a table or
    column; any other error of theirs stops the hash.  The lookup itself throws only inside
    a transaction: outside one its failure reads as no such status, and the refund credits
    are hashed as an empty class. *)
Theorem state_hash_total db tx B o g :
  read_gates reg B o = Ok g ->
  is_ok (buildStateHashData reg db tx B o)
    = match getStatusId db tx "completed" with Ok cid => forallb (tolerable db) (issued B o cid g) | Throw _ => false end
  /\ (forall errno msg, db status_sql [VStr "completed"] = QError errno msg ->
       if tx then is_ok (buildStateHashData reg db tx B o) = false
       else forall pre, buildStateHashData reg db tx B o = Ok pre -> ("credits", VArr []) ∈ pre).
Proof.
  intros Hg. split; [by apply build_total|]. intros errno msg Hf. destruct tx; [|intros pre; by apply (status_fault_empties_credits db errno msg)].
  rewrite (build_total db true B o g Hg). unfold getStatusId, doQuery. by rewrite Hf.
Qed.

(** The keys of the preimage, in order. *)
Definition preimage_keys (g : hash_gates) : list string :=
  ["deactivations"; "slashes"; "request_status"; "cooldown"; "credits"; "anchor_invalid";
   "index_addresses_new"; "index_tickers_new"]
  ++ (if hg_poll g then ["poll_finalize"] else []) ++ (if hg_supply g then ["token_supply"] else [])
  ++ (if hg_bet g then ["bet_feed_status"; "bet_status"] else [])
  ++ (if hg_attest g then ["attest_batch_head"] else []) ++ ["block_index"; "state_hash_version"].

(** A member that JSON keeps. *)
Definition kept (m : string * jv) : Prop := is_Some (serialize m.2).

Lemma members_of_keys l : Forall kept l -> List.map fst (members_of l) = List.map fst l.
Proof.
  induction 1 as [|[k v] l [j Hj] Hl IH]; [done|]. cbn [snd] in Hj.
  unfold members_of. cbn [List.flat_map fst snd]. rewrite Hj. cbn [app List.map fst]. by rewrite <- IH.
Qed.

Lemma per_table_obj_kept {A} name (read : A -> result (list row)) l v :
  (let! o := per_table name read [] l in Ok (VObj o)) = Ok v -> is_Some (serialize v).
Proof. intros Hv. bind_step Hv as o E. apply Ok_inj in Hv as <-. by eexists. Qed.

Lemma gated_when_keys {A} (active : bool) (r : result A) (x : option A) (f : A -> list row) key :
  when active r = Ok x -> List.map fst (gated (f <$> x) key) = (if active then [key] else [])
  /\ Forall kept (gated (f <$> x) key).
Proof.
  unfold when. destruct active; intros Hw.
  - bind_step Hw as a E. apply Ok_inj in Hw as <-. split; [done|]. repeat constructor. by eexists.
  - apply Ok_inj in Hw as <-. done.
Qed.

(** The preimage: its keys, and that it ends in the block and the version. *)
Lemma build_shape db tx B o g pre : buildStateHashData reg db tx B o = Ok pre -> read_gates reg B o = Ok g ->
  List.map fst pre = preimage_keys g /\ Forall kept pre
  /\ exists l, pre = l ++ [("block_index", VNum B); ("state_hash_version", VNum STATE_HASH_VERSION)].
Proof.
  intros Hb (Ga & Gp & Gs & Gb & Gt)%read_gates_inv. unfold buildStateHashData in Hb.
  rewrite Gp, Gs, Gb, Gt in Hb. bind_step Hb as cid E0. bind_step Hb as de E1. bind_step Hb as sl E2.
  bind_step Hb as rs E3. bind_step Hb as co E4. bind_step Hb as cr E5. bind_step Hb as an E6.
  bind_step Hb as im E7. cbn [rbind] in Hb. bind_step Hb as po E8. bind_step Hb as ts E9.
  bind_step Hb as be E10. bind_step Hb as at' E11. apply Ok_inj in Hb as <-.
  rewrite <- (option_fmap_id po), <- (option_fmap_id ts), <- (option_fmap_id at').
  destruct (gated_when_keys _ _ _ id "poll_finalize" E8) as [K8 V8], (gated_when_keys _ _ _ id "token_supply" E9) as [K9 V9],
    (gated_when_keys _ _ _ fst "bet_feed_status" E10) as [K10 V10], (gated_when_keys _ _ _ snd "bet_status" E10) as [K11 V11],
    (gated_when_keys _ _ _ id "attest_batch_head" E11) as [K12 V12].
  apply per_table_obj_kept in E1, E2, E3, E4. split_and!.
  - rewrite !List.map_app, K8, K9, K10, K11, K12. unfold preimage_keys. by destruct (hg_bet g).
  - repeat (apply Forall_app; split); try assumption; repeat (apply Forall_cons; split); try done; by eexists.
  - eexists. rewrite !app_assoc. reflexivity.
Qed.

Lemma preimage_keys_inj g g' : preimage_keys g = preimage_keys g' ->
  hg_poll g = hg_poll g' /\ hg_supply g = hg_supply g' /\ hg_bet g = hg_bet g' /\ hg_attest g = hg_attest g'.
Proof. destruct g as [? [] [] [] []], g' as [? [] [] [] []]; intros [=]; done. Qed.

(** The state hash is a commitment to the block and to every class: two
    preimages with the same hash, built over any two databases and options, are of
    the same block, have the same gated classes switched on, and agree on the JSON
    of every class, unless their two texts collide. *)
Theorem state_hash_binding `{HashFn} (D : bytes -> Prop) dbA dbB txA txB BA BB oA oB gA gB pA pB :
  collision_free D -> D (hash_text pA) -> D (hash_text pB) ->
  read_gates reg BA oA = Ok gA -> read_gates reg BB oB = Ok gB ->
  buildStateHashData reg dbA txA BA oA = Ok pA -> buildStateHashData reg dbB txB BB oB = Ok pB ->
  computeStateHash reg dbA txA BA oA = computeStateHash reg dbB txB BB oB ->
  BA = BB
  /\ (hg_poll gA, hg_supply gA, hg_bet gA, hg_attest gA) = (hg_poll gB, hg_supply gB, hg_bet gB, hg_attest gB)
  /\ List.map fst (members_of pA) = preimage_keys gA
  /\ members_of pA = members_of pB.
Proof.
  intros Hcf HA HB GA GB EA EB He. unfold computeStateHash in He. rewrite EA, EB in He. cbn [rbind] in He.
  apply Ok_inj in He. pose proof (getDataHash_inj D pA pB Hcf HA HB He) as Hm.
  destruct (build_shape _ _ _ _ _ _ EA GA) as (KA & VA & lA & ->),
    (build_shape _ _ _ _ _ _ EB GB) as (KB & VB & lB & ->).
  pose proof (members_of_keys _ VA) as MA. pose proof (members_of_keys _ VB) as MB. split_and!.
  - rewrite !members_of_app in Hm. by apply app_inj_2 in Hm as [_ [=]].
  - rewrite Hm, MB, KB, KA in MA. symmetry in MA. by apply preimage_keys_inj in MA as (-> & -> & -> & ->).
  - by rewrite MA, KA.
  - exact Hm.
Qed.

End Theorems.

(** ** The repository's golden vector ([test/fixtures/state-hash-vectors.json])

    The recorded replies end with the refund credits, so the three later classes
    are absent from its text. *)
Definition golden_state_rows : list (string * list row) :=
  [(deactivation_sql "stakes", [[("action_index", VNum 10); ("deactivation_block", VNum 1006)]]);
   (deactivation_sql "contract_stakes", [[("action_index", VNum 11); ("deactivation_block", VNum 1006)]]);
   (slash_sql (SlashSpec "stakes" "capability_slash_debits" "stakes"), [[("action_index", VNum 12); ("amount", VStr "900")]]);
   (slash_sql (SlashSpec "contract_unstakes" "contract_slash_debits" "contract_unstakes"), [[("action_index", VNum 13); ("amount", VStr "50")]]);
   (request_status_sql "attests", [[("action_index", VNum 14); ("request_status", VStr "fulfilled"); ("resolved_block", VNum 1000)]]);
   (request_status_sql "xcalls", [[("action_index", VNum 15); ("request_status", VStr "expired"); ("resolved_block", VNum 1000)]]);
   (cooldown_sql "unstakes", [[("action_index", VNum 16); ("status", VStr "completed")]]);
   (cooldown_sql "contract_unstakes", [[("action_index", VNum 17); ("status", VStr "completed")]]);
   (refund_credits_sql, [[("action_index", VNum 16); ("address", VStr "1JDogZS6tQcSxwfxhv6XKKjcyicYA4Feev"); ("tick", VStr "XCHAIN"); ("amount", VStr "1000")];
      [("action_index", VNum 17); ("address", VStr "1FuckButtZ6tQcSxwfxhv6XKKjcyiabcde"); ("tick", VStr "JDOG"); ("amount", VStr "500")]]);
   (status_sql, [[("id", VBig 7)]])].
Definition golden_state_db : database := fun sql _ => QRows (default [] (jm_get sql golden_state_rows)).
Definition golden_opts : hash_opts := HashOpts (Some 6) (VStr "XCHAIN") JUndef JUndef.

Example golden_state_hash :
  (let! pre := buildStateHashData ex_registry_bh golden_state_db false 1000 golden_opts in
   Ok (getDataHash (H := node_crypto)
         (List.filter (fun m => negb (bool_decide (fst m ∈ ["anchor_invalid"; "index_addresses_new"; "index_tickers_new"]))) pre)))
  = Ok "7d99b6756840c44e1e93d02e91710e77e809688216e4af54748adfe51965c8c8".
Proof. vm_compute. reflexivity. Qed.

(** ** Witnesses *)
Definition ex_opts : hash_opts := HashOpts (Some 6) (VStr "XCHAIN") (JStr "mainnet") (JStr "BTC").
Definition ex_gates : hash_gates := HashGates true true true false false.
(** A database without the [polls] table: the class is empty. *)
Definition ex_state_db : database := fun sql args =>
  if bool_decide (sql = poll_finalize_sql) then QError (Some 1146) "no such table" else golden_state_db sql args.
(** A database whose slash query times out. *)
Definition ex_timeout_db : database := fun sql args =>
  if bool_decide (sql = slash_sql (SlashSpec "stakes" "capability_slash_debits" "stakes"))
  then QError None "timeout" else golden_state_db sql args.

Lemma state_hash_total_witness :
  is_ok (buildStateHashData ex_registry_bh ex_state_db false 960000 ex_opts) = true
  /\ is_ok (buildStateHashData ex_registry_bh ex_timeout_db false 960000 ex_opts) = false.
Proof.
  split.
  - etrans; [refine (proj1 (state_hash_total ex_registry_bh ex_state_db false 960000 ex_opts ex_gates _)); vm_compute; reflexivity|vm_compute; reflexivity].
  - etrans; [refine (proj1 (state_hash_total ex_registry_bh ex_timeout_db false 960000 ex_opts ex_gates _)); vm_compute; reflexivity|vm_compute; reflexivity].
Defined.

Definition ex_preimage (db : database) : list (string * jv) :=
  match buildStateHashData ex_registry_bh db false 960000 ex_opts with Ok p => p | Throw _ => [] end.
(** The same rows, with the polls table present and empty. *)
Definition ex_pair : list bytes := [hash_text (ex_preimage ex_state_db); hash_text (ex_preimage golden_state_db)].

Lemma state_hash_binding_witness :
  960000 = 960000 /\ members_of (ex_preimage ex_state_db) = members_of (ex_preimage golden_state_db).
Proof.
  split; [reflexivity|].
  refine (proj2 (proj2 (proj2 (state_hash_binding (H := node_crypto) ex_registry_bh (fun x => x ∈ ex_pair)
    ex_state_db golden_state_db false false 960000 960000 ex_opts ex_opts ex_gates ex_gates
    (ex_preimage ex_state_db) (ex_preimage golden_state_db) _ _ _ _ _ _ _ _)))).
  - apply collision_free_list_sound. vm_compute. reflexivity.
  - left.
  - right. left.
  - vm_compute. reflexivity.
  - vm_compute. reflexivity.
  - vm_compute. reflexivity.
  - vm_compute. reflexivity.
  - vm_compute. reflexivity.
Defined.
