(* ===== verification/StakeQuorum.v ===== *)
(** * StakeQuorum: the source-deduplicated stake quorum

    Models [src/src/consensus/stake_weighted_quorum.js].  The module computes on
    bignumbers of the [mathjs] package, which is a parameter here: the class
    [BigNumber] names the operations the module calls, [BigNumberLaws] their
    documented behaviour (results that fit the package's 64 significant digits
    are exact, comparisons are exact), and [ExactDecimal] is a concrete instance.

    The theorems: the test holds exactly when the snapshot is well formed and the
    distinct signing sources hold more than two thirds of the stake; two sets of
    signers that both pass share sources with more than a third of it. *)

From S2P Require Import Prelude Sha256 JsText JsNumber JsMap Primitives GateRegistry Gates SharedRows.

(** ** Decimal weight text *)

(** The digits before and after the dot of [\d+\.?\d*|\.\d+], and the sign. *)
Definition split_sign (l : bytes) : bool * bytes :=
  match l with
  | b :: l' => if bool_decide (b = ch "-") then (true, l') else if bool_decide (b = ch "+") then (false, l') else (false, l)
  | [] => (false, l)
  end.
Definition split_body (l : bytes) : option (bytes * bytes) :=
  let '(i, rest) := span_digits l in
  match rest with
  | [] => if bool_decide (i = []) then None else Some (i, [])
  | b :: f => if bool_decide (b = c_dot) && forallb is_digit f && negb (bool_decide (i = []) && bool_decide (f = []))
              then Some (i, f) else None
  end.
Definition split_weight (l : bytes) : option (bool * bytes * bytes) :=
  let '(neg, l') := split_sign l in (fun p => (neg, p.1, p.2)) <$> split_body l'.
Definition weight_re (s : string) : bool := match split_weight (utf8 s) with Some _ => true | None => false end.

(** A weight in units of [10^-K]; no value when it has more than [K] decimals or
    an explicit plus sign. *)
Definition weight_units (K : nat) (s : string) : option Z :=
  match split_weight (utf8 s) with
  | Some (neg, i, f) =>
      if (length f <=? K)%nat && negb (bool_decide (head (utf8 s) = Some (ch "+")))
      then let z := dec_val i * 10 ^ Z.of_nat K + dec_val f * 10 ^ Z.of_nat (K - length f) in
           Some (if neg then - z else z)
      else None
  | None => None
  end.

(** ** The bignumber package *)
Class BigNumber := {
  bn : Type;
  bignumber_int : Z -> bn;
  bignumber : string -> bn;
  bn_add : bn -> bn -> bn;
  bn_multiply : bn -> Z -> bn;
  bn_lt0 : bn -> bool;
  bn_lte0 : bn -> bool;
  bn_gt : bn -> bn -> bool;
}.

(** The precision the package is configured with, in significant digits. *)
Definition BN_LIMIT : Z := 10 ^ 64.

(** [bn_is K b n]: [b] is exactly [n * 10^-K]. *)
Class BigNumberLaws `{BigNumber} := {
  bn_is : nat -> bn -> Z -> Prop;
  bignumber_zero K : bn_is K (bignumber_int 0) 0;
  bignumber_text K s n : weight_units K s = Some n -> Z.abs n < BN_LIMIT -> bn_is K (bignumber s) n;
  bn_add_exact K a b n m : bn_is K a n -> bn_is K b m -> Z.abs (n + m) < BN_LIMIT -> bn_is K (bn_add a b) (n + m);
  bn_multiply_exact K a n c : bn_is K a n -> Z.abs (n * c) < BN_LIMIT -> bn_is K (bn_multiply a c) (n * c);
  bn_lt0_exact K a n : bn_is K a n -> bn_lt0 a = (n <? 0);
  bn_lte0_exact K a n : bn_is K a n -> bn_lte0 a = (n <=? 0);
  bn_gt_exact K a b n m : bn_is K a n -> bn_is K b m -> bn_gt a b = (m <? n);
}.

(** ** The module *)
Record validator := Validator { v_source : jsval; v_pubkey : jsval; v_weight : jsval }.
(** A snapshot array: its rows ([None]: a falsy row) and the [truncated] mark. *)
Record snapshot := Snapshot { s_rows : list (option validator); s_truncated : bool }.

Definition isStakeWeightedQuorumActive (snapshotBlock network : jsval) : bool :=
  coin_gate_active QUORUM_TABLE snapshotBlock (js_String network) JUndef.

Definition trimmed (v : jsval) : string := of_utf8 (trim (utf8 (js_String v))).
Definition blank_source (v : jsval) : bool := is_nullish v || bool_decide (trimmed v = "").

(** The weight text of a row, trimmed; [None] when it is missing or not decimal. *)
Definition row_weight (v : validator) : option string :=
  if is_nullish (v_weight v) then None
  else if bool_decide (trimmed (v_weight v) = "") || negb (weight_re (trimmed (v_weight v))) then None
  else Some (trimmed (v_weight v)).

Section Quorum.
Context `{BigNumber}.

Definition bcnum (v : jsval) : bn :=
  let s := if is_nullish v then "0" else trimmed v in
  if bool_decide (s = "") || negb (weight_re s) then bignumber_int 0 else bignumber s.

Fixpoint total_loop (rows : list (option validator)) (weightBySource : jsmap string string)
  : result (jsmap string string) :=
  match rows with
  | [] => Ok weightBySource
  | None :: _ => Throw "stake_weighted_quorum.totalStake: blank/missing source would collapse the stake bucket"
  | Some v :: rest =>
      if blank_source (v_source v)
      then Throw "stake_weighted_quorum.totalStake: blank/missing source would collapse the stake bucket"
      else
        let src := js_String (v_source v) in
        if jm_has src weightBySource then total_loop rest weightBySource
        else if is_nullish (v_weight v)
        then Throw "stake_weighted_quorum.totalStake: missing weight would silently lower S"
        else match row_weight v with
             | None => Throw "stake_weighted_quorum.totalStake: nonnumeric weight would silently lower S"
             | Some ws => total_loop rest (jm_set src ws weightBySource)
             end
  end.
Definition totalStake (validators : snapshot) : result bn :=
  if s_truncated validators then Throw "stake_weighted_quorum.totalStake: truncated snapshot cannot be summed"
  else
    let! weightBySource := total_loop (s_rows validators) [] in
    rfold (fun S p =>
             let bw := bcnum (JStr p.2) in
             if bn_lt0 bw then Throw "stake_weighted_quorum.totalStake: negative weight in snapshot"
             else Ok (bn_add S bw)) (bignumber_int 0) weightBySource.

Record stake_index := StakeIndex { weightBySource : jsmap string string; pubkeyToSource : jsmap string string }.

Fixpoint index_loop (rows : list (option validator)) (ix : stake_index) : option stake_index :=
  match rows with
  | [] => Some ix
  | None :: _ => None
  | Some v :: rest =>
      if blank_source (v_source v) then None
      else
        let src := js_String (v_source v) in
        let pk := to_lower (js_String (v_pubkey v)) in
        let p := jm_set pk src (pubkeyToSource ix) in
        if jm_has src (weightBySource ix) then index_loop rest (StakeIndex (weightBySource ix) p)
        else match row_weight v with
             | None => None
             | Some ws => index_loop rest (StakeIndex (jm_set src ws (weightBySource ix)) p)
             end
  end.
Definition indexStakeSources (validators : snapshot) : option stake_index :=
  index_loop (s_rows validators) (StakeIndex [] []).

Fixpoint sum_loop (ws : jsmap string string) (S : bn) : option bn :=
  match ws with
  | [] => Some S
  | (_, w) :: rest => let bw := bcnum (JStr w) in if bn_lt0 bw then None else sum_loop rest (bn_add S bw)
  end.
Definition sumStakeWeights (ws : jsmap string string) : option bn :=
  match sum_loop ws (bignumber_int 0) with
  | Some total => if bn_lte0 total then None else Some total
  | None => None
  end.

Fixpoint signer_loop (index : stake_index) (signers : list jsval) (seen counted : list string) (tally : bn) : bn :=
  match signers with
  | [] => tally
  | pk :: rest =>
      let lpk := to_lower (js_String pk) in
      if bool_decide (lpk ∈ seen) then signer_loop index rest seen counted tally
      else match jm_get lpk (pubkeyToSource index) with
           | None => signer_loop index rest (lpk :: seen) counted tally
           | Some src =>
               if bool_decide (src ∈ counted) then signer_loop index rest (lpk :: seen) counted tally
               else signer_loop index rest (lpk :: seen) (src :: counted)
                      (bn_add tally (bcnum (match jm_get src (weightBySource index) with Some w => JStr w | None => JUndef end)))
           end
  end.
Definition sumSignerStake (index : stake_index) (signerPubkeys : list jsval) : bn :=
  signer_loop index signerPubkeys [] [] (bignumber_int 0).

Definition meetsStakeThreshold (validators : snapshot) (signerPubkeys : list jsval) : bool :=
  if s_truncated validators then false
  else match indexStakeSources validators with
       | None => false
       | Some index =>
           match sumStakeWeights (weightBySource index) with
           | None => false
           | Some total => bn_gt (bn_multiply (sumSignerStake index signerPubkeys) 3) (bn_multiply total 2)
           end
       end.
End Quorum.

(** ** Exact decimals: an instance of the laws *)
#[export] Instance ExactDecimal : BigNumber := {|
  bn := Z * nat;
  bignumber_int z := (z, 0%nat);
  bignumber s := match split_weight (utf8 s) with
                 | Some (neg, i, f) => let z := dec_val (i ++ f) in (if neg then - z else z, length f)
                 | None => (0, 0%nat)
                 end;
  bn_add a b := (a.1 * 10 ^ Z.of_nat b.2 + b.1 * 10 ^ Z.of_nat a.2, (a.2 + b.2)%nat);
  bn_multiply a c := (a.1 * c, a.2);
  bn_lt0 a := a.1 <? 0;
  bn_lte0 a := a.1 <=? 0;
  bn_gt a b := b.1 * 10 ^ Z.of_nat a.2 <? a.1 * 10 ^ Z.of_nat b.2;
|}.

Lemma pow10_pos k : 0 < 10 ^ Z.of_nat k.
Proof. apply Z.pow_pos_nonneg; lia. Qed.
Lemma pow10_add k m : 10 ^ Z.of_nat (k + m) = 10 ^ Z.of_nat k * 10 ^ Z.of_nat m.
Proof. rewrite Nat2Z.inj_add. apply Z.pow_add_r; lia. Qed.

#[export] Program Instance ExactDecimalLaws : BigNumberLaws := {|
  bn_is K b n := b.1 * 10 ^ Z.of_nat K = n * 10 ^ Z.of_nat b.2;
|}.
Next Obligation. done. Qed.
Next Obligation.
  intros K s n. unfold weight_units, bignumber, ExactDecimal. destruct (split_weight (utf8 s)) as [[[neg i] f]|]; [|done].
  destruct (_ && _) eqn:E; [|done]. intros [= <-] _. cbn [fst snd]. apply andb_true_iff in E as [E _]. apply Nat.leb_le in E. rewrite dec_val_app.
  assert (10 ^ Z.of_nat K = 10 ^ Z.of_nat (K - length f) * 10 ^ Z.of_nat (length f)) as HK
    by (rewrite <- pow10_add; f_equal; lia).
  destruct neg; rewrite HK; ring.
Qed.
Next Obligation. intros K [a ka] [b kb] n m. cbn. rewrite pow10_add. intros Ha Hb _. nia. Qed.
Next Obligation.
  intros K [a ka] n c. cbn [fst snd bn_multiply ExactDecimal]. intros Ha _.
  transitivity (c * (a * 10 ^ Z.of_nat K)); [ring|]. rewrite Ha. ring.
Qed.
Next Obligation.
  intros K [a ka] n. cbn. intros Ha. pose proof (pow10_pos K). pose proof (pow10_pos ka).
  destruct (Z.ltb_spec a 0), (Z.ltb_spec n 0); try done; nia.
Qed.
Next Obligation.
  intros K [a ka] n. cbn. intros Ha. pose proof (pow10_pos K). pose proof (pow10_pos ka).
  destruct (Z.leb_spec a 0), (Z.leb_spec n 0); try done; nia.
Qed.
Next Obligation.
  intros K [a ka] [b kb] n m. cbn. intros Ha Hb. pose proof (pow10_pos K) as HK. pose proof (pow10_pos ka).
  pose proof (pow10_pos kb).
  set (x := 10 ^ Z.of_nat ka) in *. set (y := 10 ^ Z.of_nat kb) in *. set (z := 10 ^ Z.of_nat K) in *.
  assert (a * y * z = n * (x * y) /\ b * x * z = m * (x * y)) as [Hn Hm] by (split; nia).
  assert (0 < x * y) by nia.
  destruct (Z.ltb_spec (b * x) (a * y)), (Z.ltb_spec m n); try done; nia.
Qed.

(** ** Weight text is not trimmed twice *)
Definition graphic (b : byte) : bool := (33 <=? b2z b) && (b2z b <=? 126).

Lemma strip_all_graphic ws n l : forallb (fun w => match w with b :: _ => negb (graphic b) | [] => false end) ws = true ->
  forallb graphic l = true -> strip_all ws n l = l.
Proof.
  intros Hws Hl. destruct n; [done|]. cbn [strip_all].
  assert (strip_one ws l = None) as ->; [|done]. unfold strip_one.
  induction ws as [|w ws IH]; [done|]. cbn [forallb] in Hws. apply andb_true_iff in Hws as [Hw Hws].
  destruct w as [|c w]; [done|]. cbn [omap list_omap]. destruct l as [|b l]; cbn [strip_prefix]; [by apply IH|].
  rewrite bool_decide_eq_false_2; [by apply IH|]. intros ->. cbn [forallb] in Hl. apply andb_true_iff in Hl as [Hb _].
  by rewrite Hb in Hw.
Qed.

Lemma trim_graphic l : forallb graphic l = true -> trim l = l.
Proof.
  intros Hl. unfold trim, trim_start, trim_end. rewrite (strip_all_graphic js_white_space) by done.
  rewrite strip_all_graphic; [apply rev_involutive|done|].
  apply forallb_forall. intros x Hx%in_rev. rewrite forallb_forall in Hl. auto.
Qed.

Lemma digit_graphic b : is_digit b = true -> graphic b = true.
Proof. unfold is_digit, graphic. rewrite !andb_true_iff, !Z.leb_le. lia. Qed.

Lemma split_body_graphic l p : split_body l = Some p -> forallb graphic l = true.
Proof.
  unfold split_body. destruct (span_digits l) as [i rest] eqn:E. apply span_digits_spec in E as (-> & Hi & _). intros Hp.
  apply forallb_forall. intros x [Hx|Hx]%in_app_or.
  - rewrite Forall_forall in Hi. by apply list_elem_of_In, Hi, digit_graphic in Hx.
  - destruct rest as [|b f]; [done|]. destruct (_ && _) eqn:Ef; [|done]. rewrite !andb_true_iff in Ef.
    destruct Ef as [[Hb%bool_decide_eq_true Hf] _]. destruct Hx as [<-|Hx]; [by subst|].
    rewrite forallb_forall in Hf. by apply digit_graphic, Hf.
Qed.

Lemma weight_re_graphic s : weight_re s = true -> forallb graphic (utf8 s) = true.
Proof.
  unfold weight_re, split_weight. destruct (split_sign (utf8 s)) as [neg l] eqn:Es.
  destruct (split_body l) as [p|] eqn:Ep; [|done]. intros _. apply split_body_graphic in Ep.
  unfold split_sign in Es. destruct (utf8 s) as [|b l']; [done|].
  repeat case_bool_decide; simplify_eq; cbn [forallb]; rewrite ?Ep; done.
Qed.

Lemma bcnum_weight `{BigNumber} w : weight_re w = true -> bcnum (JStr w) = bignumber w.
Proof.
  intros Hw. unfold bcnum, trimmed. cbn [is_nullish js_String].
  rewrite trim_graphic, of_utf8_utf8, Hw by (by apply weight_re_graphic).
  rewrite bool_decide_eq_false_2; [done|]. by intros ->.
Qed.

Lemma row_weight_re v w : row_weight v = Some w -> weight_re w = true.
Proof.
  unfold row_weight. destruct (is_nullish _); [done|]. destruct (_ || _) eqn:E; [done|]. intros [= <-].
  apply orb_false_iff in E as [_ E]. by apply negb_false_iff in E.
Qed.

(** ** Specification *)
Definition zsum {A} (f : A -> Z) (l : list A) : Z := foldr (fun x acc => f x + acc) 0 l.

Lemma zsum_cons {A} (f : A -> Z) x l : zsum f (x :: l) = f x + zsum f l.
Proof. done. Qed.
Lemma zsum_perm {A} (f : A -> Z) l l' : l ≡ₚ l' -> zsum f l = zsum f l'.
Proof. induction 1; rewrite ?zsum_cons; lia. Qed.
Lemma zsum_ext {A} (f g : A -> Z) l : (forall x, x ∈ l -> f x = g x) -> zsum f l = zsum g l.
Proof.
  induction l as [|x l IH]; intros Hfg; [done|]. rewrite !zsum_cons, Hfg, IH; [done| |left].
  intros y Hy. apply Hfg. by right.
Qed.
Lemma zsum_le {A} (f g : A -> Z) l : (forall x, x ∈ l -> f x <= g x) -> zsum f l <= zsum g l.
Proof.
  induction l as [|x l IH]; intros Hfg; [done|]. rewrite !zsum_cons. pose proof (Hfg x ltac:(left)).
  assert (zsum f l <= zsum g l) by (apply IH; intros; apply Hfg; by right). lia.
Qed.
Lemma zsum_nonneg {A} (f : A -> Z) l : (forall x, x ∈ l -> 0 <= f x) -> 0 <= zsum f l.
Proof.
  induction l as [|x l IH]; intros Hf; [done|]. rewrite zsum_cons. pose proof (Hf x ltac:(left)).
  assert (0 <= zsum f l) by (apply IH; intros; apply Hf; by right). lia.
Qed.
Lemma zsum_map {A B} (f : B -> Z) (g : A -> B) l : zsum f (map g l) = zsum (fun x => f (g x)) l.
Proof. induction l as [|x l IH]; [done|]. cbn [map]. by rewrite !zsum_cons, IH. Qed.

Definition source_of (v : validator) : string := js_String (v_source v).
Definition key_of (v : validator) : string := to_lower (js_String (v_pubkey v)).
Definition valid_rows (rows : list (option validator)) : list validator := omap id rows.
Definition sources (rows : list (option validator)) : list string := map source_of (valid_rows rows).

(** The weight text of a source: that of its first row. *)
Definition source_weight (rows : list (option validator)) (s : string) : option string :=
  List.find (fun v => bool_decide (source_of v = s)) (valid_rows rows) ≫= row_weight.
(** The source a key signs for: that of its last row. *)
Definition key_source (rows : list (option validator)) (k : string) : option string :=
  source_of <$> last (List.filter (fun v => bool_decide (key_of v = k)) (valid_rows rows)).

Definition stake_units (K : nat) (rows : list (option validator)) (s : string) : Z :=
  default 0 (source_weight rows s ≫= weight_units K).
Definition total_units (K : nat) (rows : list (option validator)) : Z :=
  zsum (stake_units K rows) (remove_dups (sources rows)).
Definition signs (rows : list (option validator)) (signers : list jsval) (s : string) : bool :=
  existsb (fun pk => bool_decide (key_source rows (to_lower (js_String pk)) = Some s)) signers.
Definition signed_units (K : nat) (rows : list (option validator)) (signers : list jsval) : Z :=
  zsum (fun s => if signs rows signers s then stake_units K rows s else 0) (remove_dups (sources rows)).

(** A snapshot that can finalise: complete, every row with a source, every source
    with a decimal weight that is not negative. *)
Definition snapshot_ok (K : nat) (sn : snapshot) : Prop :=
  s_truncated sn = false
  /\ Forall (fun o => exists v, o = Some v /\ blank_source (v_source v) = false) (s_rows sn)
  /\ forall s, s ∈ sources (s_rows sn) -> is_Some (source_weight (s_rows sn) s) /\ 0 <= stake_units K (s_rows sn) s.

(** The weights have at most [K] decimals and three times their sum is within the
    precision of the bignumbers. *)
Definition snapshot_fits (K : nat) (rows : list (option validator)) : Prop :=
  (forall s w, source_weight rows s = Some w -> is_Some (weight_units K w))
  /\ 3 * zsum (fun s => Z.abs (stake_units K rows s)) (remove_dups (sources rows)) < BN_LIMIT.

(** ** The index maps *)
Lemma sources_cons v rows : sources (Some v :: rows) = source_of v :: sources rows.
Proof. done. Qed.

Lemma source_weight_cons v rows s :
  source_weight (Some v :: rows) s = if decide (source_of v = s) then row_weight v else source_weight rows s.
Proof.
  unfold source_weight, valid_rows. cbn [omap list_omap id List.find]. case_decide as E.
  - by rewrite bool_decide_eq_true_2.
  - by rewrite bool_decide_eq_false_2.
Qed.

Lemma key_source_cons v rows k : key_source (Some v :: rows) k
  = match key_source rows k with Some s => Some s | None => if decide (key_of v = k) then Some (source_of v) else None end.
Proof.
  unfold key_source, valid_rows. cbn [omap list_omap id List.filter]. case_decide as E.
  - rewrite bool_decide_eq_true_2 by done. rewrite last_cons. by destruct (last _).
  - rewrite bool_decide_eq_false_2 by done. by destruct (last _).
Qed.

Definition index_good (rows : list (option validator)) (w : jsmap string string) : Prop :=
  Forall (fun o => exists v, o = Some v /\ blank_source (v_source v) = false) rows
  /\ forall s, s ∈ sources rows -> jm_get s w = None -> is_Some (source_weight rows s).

Lemma index_good_cons v rows w w' : blank_source (v_source v) = false ->
  (forall s, jm_get s w' = None <-> s <> source_of v /\ jm_get s w = None) ->
  (jm_get (source_of v) w = None -> is_Some (row_weight v)) ->
  index_good (Some v :: rows) w <-> index_good rows w'.
Proof.
  intros Hb Hw Hv. unfold index_good. rewrite Forall_cons, sources_cons. split.
  - intros [[_ Hf] Hs]. split; [done|]. intros s Hin [Hne Hn]%Hw.
    specialize (Hs s ltac:(by right) Hn). by rewrite source_weight_cons, decide_False in Hs by done.
  - intros [Hf Hs]. split; [split; [eauto|done]|]. intros s Hin Hn. rewrite source_weight_cons. case_decide as E.
    + subst s. auto.
    + apply elem_of_cons in Hin as [?|Hin]; [congruence|]. apply Hs; [done|]. by apply Hw.
Qed.

Lemma index_loop_spec rows ix : jm_wf (weightBySource ix) ->
  match index_loop rows ix with
  | Some ix' => index_good rows (weightBySource ix) /\ jm_wf (weightBySource ix')
      /\ (forall s, jm_get s (weightBySource ix')
            = match jm_get s (weightBySource ix) with Some w => Some w | None => source_weight rows s end)
      /\ (forall k, jm_get k (pubkeyToSource ix')
            = match key_source rows k with Some s => Some s | None => jm_get k (pubkeyToSource ix) end)
  | None => ~ index_good rows (weightBySource ix)
  end.
Proof.
  revert ix; induction rows as [|[v|] rows IH]; intros ix Hwf; cbn [index_loop].
  - split_and!; [split; [constructor|by intros s ?%not_elem_of_nil]|done| |done]. intros s. by destruct (jm_get s _).
  - destruct (blank_source (v_source v)) eqn:Eb.
    { intros [Hf _]. apply Forall_cons in Hf as [(v' & [= <-] & Hv) _]. congruence. }
    fold (source_of v) (key_of v). unfold jm_has.
    assert (forall k, match key_source rows k with
        | Some s => Some s | None => jm_get k (jm_set (key_of v) (source_of v) (pubkeyToSource ix)) end
      = match key_source (Some v :: rows) k with Some s => Some s | None => jm_get k (pubkeyToSource ix) end) as Hk.
    { intros k. rewrite key_source_cons. destruct (key_source rows k); [done|]. case_decide as E.
      - subst k. by rewrite jm_get_set_eq.
      - by rewrite jm_get_set_ne. }
    destruct (jm_get (source_of v) (weightBySource ix)) as [w|] eqn:Ew; [|destruct (row_weight v) as [ws|] eqn:Er].
    + assert (index_good (Some v :: rows) (weightBySource ix) <-> index_good rows (weightBySource ix)) as Hiff.
      { apply index_good_cons; [done| |congruence]. intros s. split; [|tauto]. intros Hn. split; [congruence|done]. }
      specialize (IH (StakeIndex (weightBySource ix) (jm_set (key_of v) (source_of v) (pubkeyToSource ix))) Hwf).
      destruct (index_loop rows _) as [ix'|]; [|by intros ?%Hiff]. destruct IH as (Hg & Hwf' & Hw & Hp).
      split_and!; [by apply Hiff|done| |].
      * intros s. rewrite Hw. cbn [weightBySource]. destruct (jm_get s (weightBySource ix)) eqn:Es; [done|].
        rewrite source_weight_cons, decide_False by congruence. done.
      * intros k. by rewrite Hp, Hk.
    + assert (index_good (Some v :: rows) (weightBySource ix)
              <-> index_good rows (jm_set (source_of v) ws (weightBySource ix))) as Hiff.
      { apply index_good_cons; [done| |eauto]. intros s. destruct (decide (s = source_of v)) as [->|Hne].
           - rewrite jm_get_set_eq. naive_solver.
           - rewrite jm_get_set_ne by done. tauto. }
      specialize (IH (StakeIndex (jm_set (source_of v) ws (weightBySource ix)) (jm_set (key_of v) (source_of v) (pubkeyToSource ix)))
        (jm_set_wf _ _ _ Hwf)).
      destruct (index_loop rows _) as [ix'|]; [|by intros ?%Hiff]. destruct IH as (Hg & Hwf' & Hw & Hp).
      split_and!; [by apply Hiff|done| |].
      * intros s. rewrite Hw, source_weight_cons. cbn [weightBySource]. case_decide as E.
        -- subst s. by rewrite jm_get_set_eq, Ew, Er.
        -- by rewrite jm_get_set_ne.
      * intros k. by rewrite Hp, Hk.
    + intros [_ Hs]. destruct (Hs (source_of v)) as [x Hx]; [left|done|].
      rewrite source_weight_cons, decide_True in Hx by done. congruence.
  - intros [Hf _]. apply Forall_cons in Hf as [(v' & [=] & _) _].
Qed.

(** ** The two sums *)
Lemma zsum_split {A} `{EqDecision A} (f : A -> Z) l x : NoDup l -> x ∈ l ->
  zsum f l = f x + zsum (fun y => if decide (y = x) then 0 else f y) l.
Proof.
  induction l as [|y l IH]; [by intros _ ?%not_elem_of_nil|]. rewrite NoDup_cons, elem_of_cons, !zsum_cons.
  intros [Hy Hnd] [->|Hin].
  - rewrite decide_True by done. rewrite (zsum_ext (fun z => if decide (z = y) then 0 else f z) f); [lia|].
    intros z Hz. rewrite decide_False by congruence. done.
  - rewrite decide_False by congruence. rewrite IH by done. lia.
Qed.

Section Sums.
Context `{BigNumberLaws} (K : nat).

Definition text_units (w : string) : Z := default 0 (weight_units K w).

Lemma bcnum_is w n : weight_re w = true -> weight_units K w = Some n -> Z.abs n < BN_LIMIT -> bn_is K (bcnum (JStr w)) n.
Proof. intros Hw Hu Hn. rewrite bcnum_weight by done. by apply bignumber_text. Qed.

Lemma sum_loop_spec ws total n : bn_is K total n -> 0 <= n ->
  Forall (fun p : string * string => weight_re p.2 = true /\ is_Some (weight_units K p.2)) ws ->
  n + zsum (fun p => Z.abs (text_units p.2)) ws < BN_LIMIT ->
  match sum_loop ws total with
  | Some total' => Forall (fun p => 0 <= text_units p.2) ws /\ bn_is K total' (n + zsum (fun p => text_units p.2) ws)
  | None => exists p, p ∈ ws /\ text_units p.2 < 0
  end.
Proof.
  intros Ht Hn Hf. revert total n Ht Hn; induction Hf as [|[s w] ws [Hw [u Hu]] Hf IH]; intros total n Ht Hn Hlim.
  - cbn [sum_loop]. rewrite Z.add_0_r. auto.
  - rewrite zsum_cons in Hlim. cbn [sum_loop]. cbn [snd] in *.
    assert (0 <= zsum (fun p : string * string => Z.abs (text_units p.2)) ws) as Hnn by (apply zsum_nonneg; lia).
    assert (text_units w = u) as Htu by (unfold text_units; by rewrite Hu). rewrite Htu in Hlim.
    assert (bn_is K (bcnum (JStr w)) u) as Hb by (apply bcnum_is; [done..|lia]).
    rewrite (bn_lt0_exact K _ u) by done. destruct (Z.ltb_spec u 0) as [Hneg|Hpos].
    + exists (s, w). split; [left|]. cbn. lia.
    + specialize (IH (bn_add total (bcnum (JStr w))) (n + u) ltac:(apply bn_add_exact; [done..|lia]) ltac:(lia) ltac:(lia)).
      destruct (sum_loop ws _) as [total'|].
      * destruct IH as [Hall Hb']. rewrite zsum_cons. cbn [snd]. rewrite Htu, Z.add_assoc.
        split; [constructor; [cbn; lia|done]|done].
      * destruct IH as (p & Hp & Hlt). exists p. split; [by right|done].
Qed.

Section Signers.
Variables (index : stake_index) (L : list string).
Hypothesis HL : NoDup L.
Hypothesis Hmap : forall k s, jm_get k (pubkeyToSource index) = Some s -> s ∈ L.
Hypothesis Hweights : forall s, s ∈ L -> exists w, jm_get s (weightBySource index) = Some w
  /\ weight_re w = true /\ is_Some (weight_units K w) /\ 0 <= text_units w.

Definition src_units (s : string) : Z :=
  match jm_get s (weightBySource index) with Some w => text_units w | None => 0 end.
Definition maps_to (s : string) (pk : jsval) : bool :=
  bool_decide (jm_get (to_lower (js_String pk)) (pubkeyToSource index) = Some s).
(** What the signers still to come add, with [counted] already counted. *)
Definition remaining (counted : list string) (signers : list jsval) (s : string) : Z :=
  if bool_decide (s ∈ counted) then 0 else if existsb (maps_to s) signers then src_units s else 0.

Lemma src_units_nonneg s : s ∈ L -> 0 <= src_units s.
Proof. intros Hs. unfold src_units. destruct (Hweights s Hs) as (w & -> & _ & _ & Hnn). done. Qed.

Lemma remaining_skip counted pk signers s :
  (forall s, jm_get (to_lower (js_String pk)) (pubkeyToSource index) = Some s -> s ∈ counted) ->
  remaining counted (pk :: signers) s = remaining counted signers s.
Proof.
  intros Hpk. unfold remaining. case_bool_decide as Ec; [done|]. cbn [existsb].
  unfold maps_to at 1. rewrite bool_decide_eq_false_2; [done|]. intros Hm. by apply Hpk in Hm.
Qed.

Lemma signer_loop_spec signers seen counted tally n :
  bn_is K tally n -> 0 <= n ->
  (forall k s, k ∈ seen -> jm_get k (pubkeyToSource index) = Some s -> s ∈ counted) ->
  n + zsum (fun s => if bool_decide (s ∈ counted) then 0 else src_units s) L < BN_LIMIT ->
  bn_is K (signer_loop index signers seen counted tally) (n + zsum (remaining counted signers) L).
Proof.
  revert seen counted tally n; induction signers as [|pk signers IH]; intros seen counted tally n Ht Hn Hseen Hlim.
  - cbn [signer_loop]. rewrite (zsum_ext _ (fun _ => 0)).
    + assert (zsum (fun _ : string => 0) L = 0) as -> by (clear; induction L; [done|by rewrite zsum_cons]).
      by rewrite Z.add_0_r.
    + intros s _. unfold remaining. by case_bool_decide.
  - cbn [signer_loop]. set (lpk := to_lower (js_String pk)).
    destruct (bool_decide (lpk ∈ seen)) eqn:Es.
    { apply bool_decide_eq_true in Es. rewrite (zsum_ext _ (remaining counted signers)); [by apply IH|].
      intros s _. apply remaining_skip. fold lpk. intros s'. by apply Hseen. }
    clear Es. destruct (jm_get lpk (pubkeyToSource index)) as [src|] eqn:Ep.
    2: { rewrite (zsum_ext _ (remaining counted signers)).
         - apply IH; [done|done| |done]. intros k s [->|Hk]%elem_of_cons; [congruence|by apply Hseen].
         - intros s _. apply remaining_skip. fold lpk. congruence. }
    destruct (bool_decide (src ∈ counted)) eqn:Ec.
    { apply bool_decide_eq_true in Ec. rewrite (zsum_ext _ (remaining counted signers)).
      - apply IH; [done|done| |done]. intros k s [->|Hk]%elem_of_cons; [congruence|by apply Hseen].
      - intros s _. apply remaining_skip. fold lpk. congruence. }
    apply bool_decide_eq_false in Ec. pose proof (Hmap _ _ Ep) as Hin.
    destruct (Hweights src Hin) as (w & Hw & Hre & [u Hu] & Hnn).
    assert (src_units src = u /\ 0 <= u) as [Hsu Hu0].
    { unfold src_units, text_units in *. rewrite Hu in Hnn. by rewrite Hw, Hu. }
    rewrite Hw. rewrite (zsum_split _ L src HL Hin) in Hlim. rewrite bool_decide_eq_false_2, Hsu in Hlim by done.
    assert (zsum (fun y => if decide (y = src) then 0 else if bool_decide (y ∈ counted) then 0 else src_units y) L
      = zsum (fun y => if bool_decide (y ∈ src :: counted) then 0 else src_units y) L) as Hz.
    { apply zsum_ext. intros y _. destruct (decide (y = src)) as [->|Hne].
      - by rewrite bool_decide_eq_true_2 by left.
      - by rewrite (bool_decide_ext (y ∈ src :: counted) (y ∈ counted)) by (rewrite elem_of_cons; tauto). }
    rewrite Hz in Hlim.
    assert (0 <= zsum (fun y => if bool_decide (y ∈ src :: counted) then 0 else src_units y) L) as Hz0.
    { apply zsum_nonneg. intros y Hy. destruct (bool_decide _); [done|by apply src_units_nonneg]. }
    rewrite (zsum_split _ L src HL Hin).
    assert (remaining counted (pk :: signers) src = u) as ->.
    { unfold remaining. rewrite bool_decide_eq_false_2 by done. cbn [existsb]. unfold maps_to at 1. fold lpk.
      by rewrite bool_decide_eq_true_2. }
    rewrite (zsum_ext _ (remaining (src :: counted) signers)).
    + rewrite Z.add_assoc. apply IH; [|lia| |lia].
      * apply bn_add_exact; [done| |lia]. apply bcnum_is; [done|done|lia].
      * intros k s [->|Hk]%elem_of_cons Hs; [assert (s = src) as -> by congruence; left|right; by eapply Hseen].
    + intros y Hy. unfold remaining. destruct (decide (y = src)) as [->|Hne].
      * by rewrite bool_decide_eq_true_2 by left.
      * rewrite (bool_decide_ext (y ∈ src :: counted) (y ∈ counted)) by (rewrite elem_of_cons; tauto).
        destruct (bool_decide (y ∈ counted)); [done|]. cbn [existsb]. unfold maps_to at 1. fold lpk. rewrite bool_decide_eq_false_2 by congruence.
        done.
Qed.
End Signers.
End Sums.

(** ** The index of a snapshot *)
Lemma source_weight_in rows s w : source_weight rows s = Some w -> s ∈ sources rows /\ weight_re w = true.
Proof.
  unfold source_weight. destruct (List.find _ _) as [v|] eqn:E; [|done]. cbn. intros Hw. split; [|by eapply row_weight_re].
  apply List.find_some in E as [Hv Hs]. apply bool_decide_eq_true in Hs as <-.
  apply list_elem_of_fmap. exists v. split; [done|]. by apply list_elem_of_In.
Qed.

Lemma key_source_in rows k s : key_source rows k = Some s -> s ∈ sources rows.
Proof.
  unfold key_source. destruct (last _) as [v|] eqn:E; [|done]. intros [= <-].
  apply last_Some_elem_of, elem_of_lfilter in E as [Hv _]. apply list_elem_of_fmap. eauto.
Qed.

Section Index.
Context (K : nat) (sn : snapshot) (ix : stake_index).
Hypothesis Hix : indexStakeSources sn = Some ix.
Notation rows := (s_rows sn).

Lemma index_spec : index_good rows [] /\ jm_wf (weightBySource ix)
  /\ (forall s, jm_get s (weightBySource ix) = source_weight rows s)
  /\ (forall k, jm_get k (pubkeyToSource ix) = key_source rows k).
Proof.
  pose proof (index_loop_spec rows (StakeIndex [] []) ltac:(apply NoDup_nil_2)) as Hs.
  unfold indexStakeSources in Hix. rewrite Hix in Hs. destruct Hs as (Hg & Hwf & Hw & Hp). split_and!; [done|done|done|].
  intros k. rewrite Hp. by destruct (key_source rows k).
Qed.

Lemma index_keys : jm_keys (weightBySource ix) ≡ₚ remove_dups (sources rows).
Proof.
  destruct index_spec as ([_ Hg] & Hwf & Hw & _). apply NoDup_Permutation; [done|apply NoDup_remove_dups|].
  intros s. rewrite elem_of_remove_dups. split; intros Hs.
  - destruct (jm_get s (weightBySource ix)) as [w|] eqn:E; [|by apply jm_get_None in E].
    rewrite Hw in E. by apply source_weight_in in E as [? _].
  - destruct (decide (s ∈ jm_keys (weightBySource ix))) as [|Hn]; [done|]. apply jm_get_None in Hn. rewrite Hw in Hn.
    destruct (Hg s Hs eq_refl) as [w Hs']. congruence.
Qed.

Lemma index_units s : src_units K ix s = stake_units K rows s.
Proof.
  destruct index_spec as (_ & _ & Hw & _). unfold src_units, stake_units, text_units. rewrite Hw.
  by destruct (source_weight rows s).
Qed.

(** The sum over the entries of the map is the sum over the distinct sources. *)
Lemma index_sum (f : Z -> Z) : zsum (fun p => f (text_units K p.2)) (weightBySource ix)
  = zsum (fun s => f (stake_units K rows s)) (remove_dups (sources rows)).
Proof.
  rewrite <- (zsum_perm _ _ _ index_keys). unfold jm_keys. rewrite zsum_map. apply zsum_ext. intros [s w] Hp.
  destruct index_spec as (_ & Hwf & _). rewrite <- index_units. unfold src_units. by rewrite (jm_get_In s w _ Hwf Hp).
Qed.

Lemma index_entries : snapshot_fits K rows ->
  Forall (fun p : string * string => weight_re p.2 = true /\ is_Some (weight_units K p.2)) (weightBySource ix).
Proof.
  intros [Hfit _]. destruct index_spec as (_ & Hwf & Hw & _). apply Forall_forall. intros [s w] Hp.
  apply (jm_get_In s w _ Hwf) in Hp. rewrite Hw in Hp. split; [by apply source_weight_in in Hp as [_ ?]|by eapply Hfit].
Qed.
End Index.

(** ** Stake sums of a snapshot *)
Section SnapshotSums.
Context `{BigNumberLaws} (K : nat) (sn : snapshot) (ix : stake_index).
Hypothesis Hfit : snapshot_fits K (s_rows sn).
Hypothesis Hix : indexStakeSources sn = Some ix.
Notation rows := (s_rows sn).
Notation L := (remove_dups (sources rows)).

Lemma total_limit : 3 * zsum (fun p : string * string => Z.abs (text_units K p.2)) (weightBySource ix) < BN_LIMIT
  /\ 0 <= zsum (fun p : string * string => Z.abs (text_units K p.2)) (weightBySource ix).
Proof.
  split; [|apply zsum_nonneg; lia]. rewrite (index_sum K sn ix Hix Z.abs). apply Hfit.
Qed.

(** The total is exact, or some weight is negative. *)
Lemma total_exact :
  match sum_loop (weightBySource ix) (bignumber_int 0) with
  | Some total => (forall s, s ∈ L -> 0 <= stake_units K rows s) /\ bn_is K total (total_units K rows)
  | None => exists s, s ∈ sources rows /\ stake_units K rows s < 0
  end.
Proof.
  destruct total_limit as [Hlim Hnn]. destruct (index_spec sn ix Hix) as (_ & Hwf & Hw & _).
  pose proof (sum_loop_spec K (weightBySource ix) (bignumber_int 0) 0 (bignumber_zero K) ltac:(lia)
    (index_entries K sn ix Hix Hfit) ltac:(lia)) as Hloop.
  destruct (sum_loop (weightBySource ix) (bignumber_int 0)) as [total|].
  - destruct Hloop as [Hpos Htotal]. split.
    + intros s Hs. rewrite <- (index_keys sn ix Hix) in Hs. rewrite <- (index_units K sn ix Hix). unfold src_units.
      destruct (jm_get s (weightBySource ix)) as [w|] eqn:E; [|done]. apply jm_get_Some_In in E.
      rewrite Forall_forall in Hpos. by apply (Hpos (s, w)).
    + rewrite Z.add_0_l in Htotal.
      change (total_units K rows) with (zsum (fun s => stake_units K rows s) L).
      by rewrite <- (index_sum K sn ix Hix (fun z => z)).
  - destruct Hloop as ([s w] & Hin & Hneg). cbn in Hneg. apply (jm_get_In s w _ Hwf) in Hin. rewrite Hw in Hin.
    exists s. split; [by apply source_weight_in in Hin as [? _]|]. unfold stake_units. by rewrite Hin.
Qed.

Hypothesis Hpos : forall s, s ∈ L -> 0 <= stake_units K rows s.

Lemma total_abs : total_units K rows = zsum (fun p : string * string => Z.abs (text_units K p.2)) (weightBySource ix).
Proof. rewrite (index_sum K sn ix Hix Z.abs). apply zsum_ext. intros s Hs. specialize (Hpos s Hs). lia. Qed.

Lemma signed_range signers : 0 <= signed_units K rows signers <= total_units K rows.
Proof. split; [apply zsum_nonneg|apply zsum_le]; intros s Hs; specialize (Hpos s Hs); destruct (signs _ _ _); lia. Qed.

Lemma index_weights s : s ∈ L -> exists w, jm_get s (weightBySource ix) = Some w
  /\ weight_re w = true /\ is_Some (weight_units K w) /\ 0 <= text_units K w.
Proof.
  intros Hs. pose proof (Hpos s Hs) as Hp. rewrite <- (index_units K sn ix Hix) in Hp. unfold src_units in Hp.
  rewrite <- (index_keys sn ix Hix) in Hs.
  destruct (jm_get s (weightBySource ix)) as [w|] eqn:E; [|by apply jm_get_None in E]. exists w. split; [done|].
  apply jm_get_Some_In in E. pose proof (index_entries K sn ix Hix Hfit) as Hent. rewrite Forall_forall in Hent.
  destruct (Hent _ E). done.
Qed.

Lemma signed_exact signers : bn_is K (sumSignerStake ix signers) (signed_units K rows signers).
Proof.
  destruct (index_spec sn ix Hix) as (_ & _ & _ & Hp). destruct total_limit as [Hlim Hnn].
  assert (signed_units K rows signers = 0 + zsum (remaining K ix [] signers) L) as ->.
  { rewrite Z.add_0_l. apply zsum_ext. intros s _. unfold remaining.
    rewrite bool_decide_eq_false_2 by apply not_elem_of_nil. rewrite (index_units K sn ix Hix).
    assert (existsb (maps_to ix s) signers = signs rows signers s) as ->; [|done].
    unfold signs, maps_to. clear -Hp. induction signers as [|pk l IH]; cbn [existsb]; [done|]. by rewrite IH, Hp. }
  apply signer_loop_spec; [apply NoDup_remove_dups| |apply index_weights|apply bignumber_zero|lia
    |by intros k s ?%not_elem_of_nil|].
  - intros k s Hk. rewrite Hp in Hk. apply key_source_in in Hk. by rewrite elem_of_remove_dups.
  - rewrite (zsum_ext _ (stake_units K rows)).
    + change (zsum (stake_units K rows) L) with (total_units K rows). rewrite total_abs. lia.
    + intros s Hs. rewrite bool_decide_eq_false_2 by apply not_elem_of_nil. apply (index_units K sn ix Hix).
Qed.
End SnapshotSums.

(** The two loops that build the weight map agree. *)
Lemma total_loop_index rows ix :
  match index_loop rows ix with
  | Some ix' => total_loop rows (weightBySource ix) = Ok (weightBySource ix')
  | None => exists e, total_loop rows (weightBySource ix) = Throw e
  end.
Proof.
  revert ix; induction rows as [|[v|] rows IH]; intros ix; cbn [index_loop total_loop]; [done| |eauto].
  destruct (blank_source (v_source v)); [eauto|].
  set (p := jm_set (to_lower (js_String (v_pubkey v))) (js_String (v_source v)) (pubkeyToSource ix)).
  destruct (jm_has _ _); [apply (IH (StakeIndex (weightBySource ix) p))|]. unfold row_weight.
  destruct (is_nullish (v_weight v)); [eauto|]. destruct (_ || _); [eauto|].
  apply (IH (StakeIndex (jm_set (js_String (v_source v)) (trimmed (v_weight v)) (weightBySource ix)) p)).
Qed.

Lemma total_sum `{BigNumber} ws total :
  rfold (fun S (p : string * string) =>
           let bw := bcnum (JStr p.2) in
           if bn_lt0 bw then Throw "stake_weighted_quorum.totalStake: negative weight in snapshot"
           else Ok (bn_add S bw)) total ws
  = match sum_loop ws total with
    | Some total' => Ok total'
    | None => Throw "stake_weighted_quorum.totalStake: negative weight in snapshot"
    end.
Proof.
  revert total; induction ws as [|[s w] ws IH]; intros total; cbn [rfold sum_loop snd]; [done|].
  destruct (bn_lt0 _); cbn [rbind]; [done|apply IH].
Qed.

(** ** Properties *)
Section QuorumProperties.
Context `{BigNumberLaws}.

Lemma ok_index K sn : snapshot_ok K sn -> is_Some (indexStakeSources sn).
Proof.
  intros (_ & Hr & Hw). pose proof (index_loop_spec (s_rows sn) (StakeIndex [] []) ltac:(apply NoDup_nil_2)) as Hs.
  unfold indexStakeSources. destruct (index_loop _ _); [eauto|]. exfalso. apply Hs. split; [done|].
  intros s Hs' _. by apply Hw.
Qed.

Lemma index_ok K sn ix : s_truncated sn = false -> indexStakeSources sn = Some ix ->
  (forall s, s ∈ remove_dups (sources (s_rows sn)) -> 0 <= stake_units K (s_rows sn) s) -> snapshot_ok K sn.
Proof.
  intros Ht Hix Hpos. destruct (index_spec sn ix Hix) as ([Hr Hg] & _). split; [done|]. split; [done|].
  intros s Hs. split; [by apply Hg|]. apply Hpos. by rewrite elem_of_remove_dups.
Qed.

Lemma meets_spec K sn signers : snapshot_fits K (s_rows sn) ->
  meetsStakeThreshold sn signers = true <->
  snapshot_ok K sn /\ 2 * total_units K (s_rows sn) < 3 * signed_units K (s_rows sn) signers.
Proof.
  intros Hfit. unfold meetsStakeThreshold. destruct (s_truncated sn) eqn:Et; [by split; [|intros [[? _] _]; congruence]|].
  destruct (indexStakeSources sn) as [ix|] eqn:Hix.
  2: { split; [done|]. intros [Hok _]. apply ok_index in Hok as [ix Hok]. congruence. }
  pose proof (total_exact K sn ix Hfit Hix) as Htotal. unfold sumStakeWeights.
  destruct (sum_loop (weightBySource ix) (bignumber_int 0)) as [total|].
  2: { destruct Htotal as (s & Hs & Hneg). split; [done|]. intros ((_ & _ & Hok) & _). apply Hok in Hs as [_ Hs]. lia. }
  destruct Htotal as [Hpos Htotal]. pose proof (signed_range K sn Hpos signers) as Hrange.
  destruct (total_limit K sn ix Hfit Hix) as [Hlim _]. rewrite <- (total_abs K sn ix Hix Hpos) in Hlim.
  rewrite (bn_lte0_exact K _ _ Htotal). destruct (Z.leb_spec (total_units K (s_rows sn)) 0).
  - split; [done|]. intros [_ Hlt]. lia.
  - rewrite (bn_gt_exact K _ _ (signed_units K (s_rows sn) signers * 3) (total_units K (s_rows sn) * 2)).
    + rewrite Z.ltb_lt. split; [|lia]. intros Hlt. split; [by eapply index_ok|lia].
    + apply bn_multiply_exact; [by apply signed_exact|lia].
    + apply bn_multiply_exact; [done|lia].
Qed.

(** C26. The stake quorum is exact and fails closed: [meetsStakeThreshold] is true
    exactly when the snapshot is complete, every row has a source, every source a
    decimal weight that is not negative, and the distinct sources the signers
    stand for hold strictly more than two thirds of the total; [totalStake]
    returns that total on the same snapshots and throws on every other. *)
Theorem meetsStakeThreshold_exact K sn signers : snapshot_fits K (s_rows sn) ->
  (meetsStakeThreshold sn signers = true <->
   snapshot_ok K sn /\ 2 * total_units K (s_rows sn) < 3 * signed_units K (s_rows sn) signers)
  /\ match totalStake sn with
     | Ok total => snapshot_ok K sn /\ bn_is K total (total_units K (s_rows sn))
     | Throw _ => ~ snapshot_ok K sn
     end.
Proof.
  intros Hfit. split; [by apply meets_spec|]. unfold totalStake. destruct (s_truncated sn) eqn:Et.
  { intros [Hok _]. congruence. }
  pose proof (total_loop_index (s_rows sn) (StakeIndex [] [])) as Hloop. cbn [weightBySource] in Hloop.
  fold (indexStakeSources sn) in Hloop. destruct (indexStakeSources sn) as [ix|] eqn:Hix.
  - rewrite Hloop. cbn [rbind]. rewrite total_sum. pose proof (total_exact K sn ix Hfit Hix) as Htotal.
    destruct (sum_loop _ _) as [total|].
    + destruct Htotal as [Hpos Htotal]. split; [by eapply index_ok|done].
    + destruct Htotal as (s & Hs & Hneg). intros (_ & _ & Hok). apply Hok in Hs as [_ Hs]. lia.
  - destruct Hloop as [e ->]. cbn [rbind]. intros [ix Hok]%ok_index. congruence.
Qed.

(** C38. Quorum intersection: two signer sets that both meet the threshold over
    one snapshot have signing sources in common that hold more than a third of
    the total stake.  So two conflicting quorums need more than a third of the
    stake to sign twice. *)
Theorem quorum_intersection K sn signers1 signers2 : snapshot_fits K (s_rows sn) ->
  meetsStakeThreshold sn signers1 = true -> meetsStakeThreshold sn signers2 = true ->
  total_units K (s_rows sn) < 3 * zsum (fun s => if signs (s_rows sn) signers1 s && signs (s_rows sn) signers2 s
                                              then stake_units K (s_rows sn) s else 0)
                                    (remove_dups (sources (s_rows sn))).
Proof.
  intros Hfit H1%(meets_spec K _ _ Hfit) H2%(meets_spec K _ _ Hfit). destruct H1 as [(_ & _ & Hok) Hq1], H2 as [_ Hq2].
  unfold total_units, signed_units in *.
  assert (forall s, s ∈ remove_dups (sources (s_rows sn)) -> 0 <= stake_units K (s_rows sn) s) as Hpos.
  { intros s Hs. rewrite elem_of_remove_dups in Hs. by apply Hok. }
  assert (zsum (fun s => if signs (s_rows sn) signers1 s then stake_units K (s_rows sn) s else 0) (remove_dups (sources (s_rows sn)))
    + zsum (fun s => if signs (s_rows sn) signers2 s then stake_units K (s_rows sn) s else 0) (remove_dups (sources (s_rows sn)))
    <= zsum (stake_units K (s_rows sn)) (remove_dups (sources (s_rows sn)))
       + zsum (fun s => if signs (s_rows sn) signers1 s && signs (s_rows sn) signers2 s then stake_units K (s_rows sn) s else 0)
           (remove_dups (sources (s_rows sn)))) as Hincl; [|lia].
  clear -Hpos. induction (remove_dups (sources (s_rows sn))) as [|s l IH]; [done|]. rewrite !zsum_cons.
  specialize (IH ltac:(intros; apply Hpos; by right)). specialize (Hpos s ltac:(left)).
  destruct (signs _ signers1 s), (signs _ signers2 s); cbn [andb]; lia.
Qed.
End QuorumProperties.

(** ** Witnesses *)
Definition ex_validator (source pubkey weight : string) : option validator :=
  Some (Validator (JStr source) (JStr pubkey) (JStr weight)).
(** One source with two keys and two others; 50.5, 30 and 20.25. *)
Definition ex_snapshot : snapshot :=
  Snapshot [ex_validator "a" "AA11" "50.5"; ex_validator "a" "aa22" "50.5"; ex_validator "b" "bb" " 30";
            ex_validator "c" "cc" "20.25"] false.

Lemma ex_fits : snapshot_fits 2 (s_rows ex_snapshot).
Proof.
  split; [|vm_compute; done]. intros s w. unfold source_weight. destruct (List.find _ _) as [v|] eqn:E; [|done].
  apply List.find_some in E as [Hv _]. cbn in Hv.
  destruct Hv as [<-|[<-|[<-|[<-|[]]]]]; intros [= <-]; vm_compute; eauto.
Qed.

Lemma meetsStakeThreshold_exact_witness :
  meetsStakeThreshold ex_snapshot [JStr "aa11"; JStr "AA22"; JStr "cc"] = true
  /\ (meetsStakeThreshold ex_snapshot [JStr "aa11"; JStr "AA22"] = true <->
      snapshot_ok 2 ex_snapshot /\ 2 * total_units 2 (s_rows ex_snapshot)
        < 3 * signed_units 2 (s_rows ex_snapshot) [JStr "aa11"; JStr "AA22"]).
Proof.
  split; [vm_compute; reflexivity|].
  exact (proj1 (meetsStakeThreshold_exact 2 ex_snapshot [JStr "aa11"; JStr "AA22"] ex_fits)).
Defined.

Lemma quorum_intersection_witness :
  total_units 2 (s_rows ex_snapshot)
  < 3 * zsum (fun s => if signs (s_rows ex_snapshot) [JStr "aa22"; JStr "bb"] s
                          && signs (s_rows ex_snapshot) [JStr "cc"; JStr "aa11"] s
                       then stake_units 2 (s_rows ex_snapshot) s else 0)
          (remove_dups (sources (s_rows ex_snapshot))).
Proof.
  apply (quorum_intersection 2 ex_snapshot [JStr "aa22"; JStr "bb"] [JStr "cc"; JStr "aa11"] ex_fits);
    vm_compute; reflexivity.
Defined.

(** A truncated snapshot, a blank source, a missing weight or a negative weight
    never finalises. *)
Example quorum_fails_closed :
  meetsStakeThreshold (Snapshot (s_rows ex_snapshot) true) [JStr "aa11"; JStr "bb"; JStr "cc"] = false
  /\ meetsStakeThreshold (Snapshot [ex_validator " " "aa" "1"] false) [JStr "aa"] = false
  /\ meetsStakeThreshold (Snapshot [Some (Validator (JStr "a") (JStr "aa") JNull)] false) [JStr "aa"] = false
  /\ meetsStakeThreshold (Snapshot [ex_validator "a" "aa" "1"; ex_validator "b" "bb" "-5"] false) [] = false.
Proof. vm_compute. repeat split. Qed.
