(* ===== verification/Checkpoint.v ===== *)
(** * Checkpoint: quorum-signed state checkpoints

    Models [src/src/consensus/equivocation_header.js],
    [src/src/consensus/snapshot_reorg_buffer.js],
    [src/src/client/supersede_suffix.js] and [src/src/checkpoint.js] (all but the
    HTTP fetch).  Ed25519 is a parameter: [ed25519_verify] answers for a payload, a
    32-byte key and a 64-byte signature, with a library exception as false.  The
    activation registry is an argument.  The [validator_signatures] of a row may be
    an array or JSON text; a text is given by what [JSON.parse] returns on it.

    The theorems: the signed string determines every field it commits; a verdict
    counts exactly the distinct qualified keys with a valid signature and is valid
    only with the regime's quorum and the commitment fields; two count quorums
    intersect. *)

From S2P Require Import Prelude Sha256 JsText JsNumber JsDouble JsMap Primitives GateRegistry Gates SharedRows StakeQuorum.

(** ** equivocation_header.js *)
Definition EQUIV_HEADER_ACTIVATION : gval :=
  GObj [("mainnet", GNum 961000); ("testnet", GNum 0); ("regtest", GNum 0)].
Definition CHECKPOINT_TAG : string := "XCHECKPOINT".

Definition isEquivHeaderActive (snapshotBlock network : jsval) : bool :=
  coin_gate_active EQUIV_HEADER_ACTIVATION snapshotBlock (js_String network) JUndef.

Definition equivKey (engineTag roundId view : string) : string := engineTag +:+ "|" +:+ roundId +:+ "|" +:+ view.
Definition equivPrefix (key : string) : string := "EQUIV|" +:+ key +:+ "||".
Definition buildEquivCanonical (engineTag roundId view content : string) : string :=
  equivPrefix (equivKey engineTag roundId view) +:+ content.

(** ** snapshot_reorg_buffer.js *)
Definition CANONICAL_REORG_BUFFER : Z := 6.
Definition SNAPSHOT_BURIAL_ACTIVATION : gval := GObj [("mainnet", GNum 0); ("testnet", GNum 0); ("regtest", GNum 0)].

Definition isSnapshotBurialActive (snapshotBlock : jsval) (network : string) : bool :=
  match snapshotBlock with
  | JNull | JUndef | JBool _ => false
  | JStr s => if bool_decide (s = "") then false
              else match js_number snapshotBlock, own SNAPSHOT_BURIAL_ACTIVATION network with
                   | Fin m e, Some (GNum t) => num_le (Fin t 0) (Fin m e)
                   | _, _ => false
                   end
  | JInt z => match own SNAPSHOT_BURIAL_ACTIVATION network with
              | Some (GNum t) => num_le (Fin t 0) (Fin z 0)
              | _ => false
              end
  end.

Definition buriedSnapshotBlock (snapshotBlock : jsval) (network : string) : jsval :=
  if negb (isSnapshotBurialActive snapshotBlock network) then snapshotBlock
  else JInt (Z.max 0 (num_floor (js_number snapshotBlock) - CANONICAL_REORG_BUFFER)).

(** ** The checkpoint row *)
Record fold_fields := FoldFields {
  match_batch_seq : jsval; match_count : jsval; batch_crc32 : jsval; total_chunks : jsval }.
(** An element of [validator_signatures]: its [pubkey] and [sig], [None] for a
    falsy element. *)
Record sig_entry := SigEntry { sg_pubkey : jsval; sg_sig : jsval }.
(** The field: an array, another value, or JSON text with the result of parsing
    it ([None]: malformed; [Some None]: not an array). *)
Inductive sig_field :=
| SigArray (l : list (option sig_entry))
| SigText (parsed : option (option (list (option sig_entry))))
| SigOther.

Record checkpoint := Checkpoint {
  cp_chain : jsval; cp_network : jsval; cp_block_index : jsval; cp_block_hash : jsval;
  cp_ledger_hash : jsval; cp_actions_hash : jsval; cp_contract_hash : jsval;
  cp_checkpoint_seq : jsval; cp_snapshot_block : jsval;
  cp_state_root : jsval; cp_state_root_version : jsval;
  cp_block_merkle_root : jsval; cp_block_merkle_version : jsval;
  cp_supersedes_from : jsval; cp_rules_digest : jsval;
  cp_fold_archive : option fold_fields;
  cp_validator_signatures : sig_field }.

(** An element under [Array.prototype.join]. *)
Definition join_elem (v : jsval) : string := if is_nullish v then "" else js_String v.

(** ** client/supersede_suffix.js *)
Definition is_hex (b : byte) : bool :=
  is_digit b || ((97 <=? b2z b) && (b2z b <=? 102)) || ((65 <=? b2z b) && (b2z b <=? 70)).
Definition hex_text (n : nat) (s : string) : bool := bool_decide (length (utf8 s) = n) && forallb is_hex (utf8 s).

Definition hasSupersedeFields (cp : option checkpoint) : bool :=
  match cp with
  | Some cp => negb (is_nullish (cp_supersedes_from cp)) || negb (is_nullish (cp_rules_digest cp))
  | None => false
  end.

Definition supersedeSuffix (cp : checkpoint) : result string :=
  let hasFrom := negb (is_nullish (cp_supersedes_from cp)) in
  let hasDigest := negb (is_nullish (cp_rules_digest cp)) in
  if negb hasFrom && negb hasDigest then Ok ""
  else if negb hasFrom || negb hasDigest then Throw "checkpoint supersession requires supersedes_from and rules_digest"
  else match safe_integer (js_number (cp_supersedes_from cp)) with
       | None => Throw "supersedes_from must be a non-negative safe integer"
       | Some from =>
           if from <? 0 then Throw "supersedes_from must be a non-negative safe integer"
           else match cp_rules_digest cp with
                | JStr d => if hex_text 64 d then Ok ("|SUPERSEDE|" +:+ string_of_int from +:+ "|" +:+ to_lower d)
                            else Throw "rules_digest must be 64 hexadecimal characters"
                | _ => Throw "rules_digest must be 64 hexadecimal characters"
                end
       end.

(** ** checkpoint.js *)
Definition CHECKPOINT_COMMITMENT_KEY : string := "checkpoint_commitment_activation.CHECKPOINT_COMMITMENT_ACTIVATION".
Definition CHECKPOINT_SUPERSEDE_KEY : string := "checkpoint_supersede_activation.CHECKPOINT_SUPERSEDE_ACTIVATION".

Section Canonical.
Variable reg : registry.

Definition isCheckpointCommitmentActive (snapshotBlock network : jsval) : result bool :=
  activeAt CHECKPOINT_COMMITMENT_KEY network JNull snapshotBlock JNull reg.
Definition isCheckpointSupersedeActive (snapshotBlock network : jsval) : result bool :=
  activeAt CHECKPOINT_SUPERSEDE_KEY network (JStr "BTC") snapshotBlock JNull reg.

Definition has_roots (cp : checkpoint) : bool :=
  negb (is_nullish (cp_state_root cp)) && negb (is_nullish (cp_block_merkle_root cp))
  && negb (is_nullish (cp_state_root_version cp)) && negb (is_nullish (cp_block_merkle_version cp)).

Definition base_fields (cp : checkpoint) : list string :=
  ["XCHECKPOINT"; join_elem (cp_chain cp); join_elem (cp_network cp); js_String (cp_block_index cp);
   join_elem (cp_block_hash cp); join_elem (cp_ledger_hash cp); join_elem (cp_actions_hash cp);
   join_elem (cp_contract_hash cp); js_String (cp_checkpoint_seq cp); js_String (cp_snapshot_block cp)].
Definition root_fields (cp : checkpoint) : list string :=
  [to_lower (js_String (cp_state_root cp)); js_String (cp_state_root_version cp);
   to_lower (js_String (cp_block_merkle_root cp)); js_String (cp_block_merkle_version cp)].
Definition fold_texts (f : fold_fields) : list string :=
  [js_String (match_batch_seq f); js_String (match_count f); to_lower (js_String (batch_crc32 f));
   js_String (total_chunks f)].

Definition canonicalCheckpoint (cp : option checkpoint) : result string :=
  match cp with
  | None => Throw "CheckpointVerifier: checkpoint object required"
  | Some cp =>
      let raw := join_text "|" (base_fields cp) in
      let! commit := isCheckpointCommitmentActive (cp_snapshot_block cp) (cp_network cp) in
      let raw := if commit && has_roots cp then raw +:+ "|" +:+ join_text "|" (root_fields cp) else raw in
      let! sup := isCheckpointSupersedeActive (cp_snapshot_block cp) (cp_network cp) in
      let! suffix := (if sup && hasSupersedeFields (Some cp) then supersedeSuffix cp else Ok "") in
      let raw := raw +:+ suffix in
      let raw := match cp_fold_archive cp with
                 | Some f => raw +:+ "|" +:+ join_text "|" (fold_texts f)
                 | None => raw
                 end in
      if isEquivHeaderActive (cp_snapshot_block cp) (cp_network cp) then
        Ok (buildEquivCanonical CHECKPOINT_TAG
              (js_String (cp_chain cp) +:+ "|" +:+ js_String (cp_network cp) +:+ "|" +:+ js_String (cp_block_index cp)
               +:+ "|" +:+ js_String (cp_checkpoint_seq cp)
               +:+ match cp_fold_archive cp with Some f => "|" +:+ js_String (match_batch_seq f) | None => "" end)
              "0" raw)
      else Ok raw
  end.

Definition tryCanonicalCheckpoint (cp : option checkpoint) : option string :=
  match canonicalCheckpoint cp with Ok s => Some s | Throw _ => None end.

(** A root is absent when it is falsy. *)
Definition falsy (v : jsval) : bool :=
  match v with
  | JUndef | JNull | JBool false => true
  | JStr s => bool_decide (s = "")
  | JInt z => z =? 0
  | JBool true => false
  end.

Definition commitmentMissing (cp : option checkpoint) : result bool :=
  match cp with
  | None => Ok false
  | Some cp =>
      let! active := isCheckpointCommitmentActive (cp_snapshot_block cp) (cp_network cp) in
      Ok (active && (falsy (cp_state_root cp) || falsy (cp_block_merkle_root cp)
                     || is_nullish (cp_state_root_version cp) || is_nullish (cp_block_merkle_version cp)))
  end.

Definition commitmentActive (cp : option checkpoint) : result bool :=
  match cp with
  | None => Ok false
  | Some cp => isCheckpointCommitmentActive (cp_snapshot_block cp) (cp_network cp)
  end.

Definition supersessionDisallowed (cp : option checkpoint) : result bool :=
  match cp with
  | Some c => if hasSupersedeFields cp
              then let! active := isCheckpointSupersedeActive (cp_snapshot_block c) (cp_network c) in Ok (negb active)
              else Ok false
  | None => Ok false
  end.
End Canonical.

(** ** Signatures *)
Class Ed25519 := ed25519_verify : bytes -> bytes -> bytes -> bool.

(** An element of the supplied validator set. *)
Inductive ventry :=
| EKey (v : jsval)
| EObj (v : validator).
Record vset := VSet { vs_entries : list ventry; vs_truncated : bool }.

Section Verify.
Context `{Ed25519} `{BigNumber}.
Variable reg : registry.

Definition verifySignature (payload sigHex pubkeyHex : string) : bool :=
  if bool_decide (payload = "") || bool_decide (sigHex = "") || bool_decide (pubkeyHex = "") then false
  else if negb (hex_text 64 pubkeyHex) then false
  else if negb (hex_text 128 sigHex) then false
  else ed25519_verify (utf8 payload) (hex_decode pubkeyHex) (hex_decode sigHex).

Definition isWeightedEntry (e : ventry) : bool :=
  match e with
  | EKey _ => false
  | EObj v =>
      if blank_source (v_source v) then false
      else if is_nullish (v_weight v) || bool_decide (trimmed (v_weight v) = "") then false
      else isFinite (js_number (v_weight v)) && num_le (Fin 0 0) (js_number (v_weight v))
  end.

(** [String(p && p.pubkey !== undefined ? p.pubkey : p).toLowerCase()] *)
Definition entry_key (e : ventry) : string :=
  to_lower (match e with
            | EKey v => js_String v
            | EObj v => match v_pubkey v with JUndef => "[object Object]" | k => js_String k end
            end).
(** The row [meetsStakeThreshold] sees: a bare key has no fields. *)
Definition entry_row (e : ventry) : option validator :=
  match e with
  | EKey v => if falsy v then None else Some (Validator JUndef JUndef JUndef)
  | EObj v => Some v
  end.
Definition entry_snapshot (vs : vset) : snapshot := Snapshot (map entry_row (vs_entries vs)) (vs_truncated vs).

Definition qualified_keys (vs : vset) : list string := remove_dups (map entry_key (vs_entries vs)).
Definition count_quorum (n : Z) : Z :=
  if n <=? 1 then 1 else Z.max (2 * ((n - 1) / 3) + 1) ((n + 2) / 2).

(** [String(s && s.pubkey || '')] *)
Definition or_empty (v : jsval) : string := if falsy v then "" else js_String v.
Definition sig_pk (s : option sig_entry) : string :=
  match s with Some s => to_lower (or_empty (sg_pubkey s)) | None => "" end.
Definition sig_text (s : option sig_entry) : string :=
  match s with Some s => or_empty (sg_sig s) | None => "" end.

Definition sig_list (f : sig_field) : list (option sig_entry) :=
  match f with
  | SigArray l => l
  | SigText (Some (Some l)) => l
  | _ => []
  end.

(** The valid signers, in the order their signatures verify. *)
Fixpoint sig_loop (canonical : string) (qualified : list string) (sigs : list (option sig_entry)) (seen : list string)
  : list string :=
  match sigs with
  | [] => seen
  | s :: rest =>
      let pk := sig_pk s in
      if bool_decide (pk = "") || bool_decide (pk ∈ seen) || negb (bool_decide (pk ∈ qualified))
      then sig_loop canonical qualified rest seen
      else if verifySignature canonical (sig_text s) pk then sig_loop canonical qualified rest (seen ++ [pk])
      else sig_loop canonical qualified rest seen
  end.

Record verdict := Verdict {
  valid : bool; validSigs : nat; quorum : Z; weighted : bool; canonical : option string }.

Definition verifyCheckpoint (cp : option checkpoint) (vs : vset) : result verdict :=
  let qualified := qualified_keys vs in
  let n := Z.of_nat (length qualified) in
  let quorum := count_quorum n in
  let weighted := match cp with
                  | Some c => isStakeWeightedQuorumActive (cp_snapshot_block c) (cp_network c)
                  | None => isStakeWeightedQuorumActive JUndef JUndef
                  end in
  let canonical := tryCanonicalCheckpoint reg cp in
  let rejected := Ok (Verdict false 0 quorum weighted canonical) in
  match cp, canonical with
  | Some c, Some text =>
      let! missing := commitmentMissing reg cp in
      let! disallowed := (if (missing : bool) then Ok false else supersessionDisallowed reg cp) in
      if missing || disallowed then rejected
      else
        let signers := sig_loop text qualified (sig_list (cp_validator_signatures c)) [] in
        let valid :=
          if weighted
          then negb (bool_decide (vs_entries vs = [])) && forallb isWeightedEntry (vs_entries vs)
               && meetsStakeThreshold (entry_snapshot vs) (map JStr signers)
          else (0 <? n) && (quorum <=? Z.of_nat (length signers)) in
        Ok (Verdict valid (length signers) quorum weighted canonical)
  | _, _ => rejected
  end.

(** ** The served checkpoint *)
Record served_body := ServedBody {
  sb_checkpoint : option checkpoint; sb_validators : option vset; sb_snapshot_available : bool; sb_final : option bool }.
Record served_verdict := ServedVerdict {
  sv_verdict : verdict; sv_snapshotAvailable : bool; sv_final : bool; sv_validatorSource : string }.

Definition verifyServedCheckpoint (body : served_body) (supplied : option vset) : result served_verdict :=
  let set := match supplied with Some vs => vs | None => default (VSet [] false) (sb_validators body) end in
  let! v := verifyCheckpoint (sb_checkpoint body) set in
  Ok (ServedVerdict v (sb_snapshot_available body) (default true (sb_final body))
        (match supplied with Some _ => "supplied" | None => "explorer" end)).
End Verify.

(** ** The signed string as a list of fields *)
Definition pipe_free (s : string) : Prop := ch "|" ∉ utf8 s.

Lemma sapp_assoc (a b c : string) : (a +:+ b) +:+ c = a +:+ (b +:+ c).
Proof. apply (inj utf8). by rewrite !utf8_app, app_assoc. Qed.
Lemma sapp_nil_r (a : string) : a +:+ "" = a.
Proof. apply (inj utf8). rewrite utf8_app. apply app_nil_r. Qed.

Lemma join_text_app l l' : l <> [] -> l' <> [] ->
  join_text "|" (l ++ l') = join_text "|" l +:+ "|" +:+ join_text "|" l'.
Proof.
  intros Hl Hl'. induction l as [|x l IH]; [done|]. destruct l as [|y l].
  - by destruct l'.
  - specialize (IH ltac:(done)). cbn [app join_text] in *. rewrite IH. by rewrite !sapp_assoc.
Qed.

Section Binding.
Variable reg : registry.

Definition signed_roots (cp : checkpoint) : option (list string) :=
  match isCheckpointCommitmentActive reg (cp_snapshot_block cp) (cp_network cp) with
  | Ok true => if has_roots cp then Some (root_fields cp) else None
  | _ => None
  end.
(** The supersession suffix, split at its separators. *)
Definition signed_supersede (cp : checkpoint) : option (list string) :=
  match isCheckpointSupersedeActive reg (cp_snapshot_block cp) (cp_network cp), cp_rules_digest cp,
        safe_integer (js_number (cp_supersedes_from cp)) with
  | Ok true, JStr d, Some from =>
      if hasSupersedeFields (Some cp) then Some ["SUPERSEDE"; string_of_int from; to_lower d] else None
  | _, _, _ => None
  end.
Definition signed_fold (cp : checkpoint) : option (list string) := fold_texts <$> cp_fold_archive cp.
Definition header_fields (cp : checkpoint) : list string :=
  if isEquivHeaderActive (cp_snapshot_block cp) (cp_network cp)
  then ["EQUIV"; CHECKPOINT_TAG; js_String (cp_chain cp); js_String (cp_network cp); js_String (cp_block_index cp);
        js_String (cp_checkpoint_seq cp)]
       ++ match cp_fold_archive cp with Some f => [js_String (match_batch_seq f)] | None => [] end ++ ["0"; ""]
  else [].
Definition signed_fields (cp : checkpoint) : list string :=
  header_fields cp ++ base_fields cp ++ default [] (signed_roots cp) ++ default [] (signed_supersede cp)
  ++ default [] (signed_fold cp).

(** The text of every value that enters the string. *)
Definition cp_texts (cp : checkpoint) : list string :=
  map js_String [cp_chain cp; cp_network cp; cp_block_index cp; cp_block_hash cp; cp_ledger_hash cp; cp_actions_hash cp;
    cp_contract_hash cp; cp_checkpoint_seq cp; cp_snapshot_block cp; cp_state_root cp; cp_state_root_version cp;
    cp_block_merkle_root cp; cp_block_merkle_version cp; cp_rules_digest cp]
  ++ match cp_fold_archive cp with
     | Some f => map js_String [match_batch_seq f; match_count f; batch_crc32 f; total_chunks f]
     | None => []
     end.

Lemma join_cat l o : l <> [] -> (forall x, o = Some x -> x <> []) ->
  join_text "|" (l ++ default [] o) = join_text "|" l +:+ match o with Some x => "|" +:+ join_text "|" x | None => "" end.
Proof.
  intros Hl Ho. destruct o as [x|]; cbn [default from_option id].
  - by rewrite join_text_app by (done || by apply Ho).
  - by rewrite app_nil_r, sapp_nil_r.
Qed.

Lemma supersede_text cp suffix :
  (let! sup := isCheckpointSupersedeActive reg (cp_snapshot_block cp) (cp_network cp) in
   if sup && hasSupersedeFields (Some cp) then supersedeSuffix cp else Ok "") = Ok suffix ->
  suffix = match signed_supersede cp with Some x => "|" +:+ join_text "|" x | None => "" end.
Proof.
  unfold signed_supersede, supersedeSuffix.
  destruct (isCheckpointSupersedeActive _ _ _) as [[]|]; cbn [rbind andb]; [|by intros [= <-]|done].
  destruct (hasSupersedeFields (Some cp)) eqn:Eh.
  2: { intros [= <-]. by repeat case_match. }
  unfold hasSupersedeFields in Eh.
  destruct (is_nullish (cp_supersedes_from cp)) eqn:Ef, (is_nullish (cp_rules_digest cp)) eqn:Ed; try done. cbn [negb andb orb].
  destruct (safe_integer (js_number (cp_supersedes_from cp))) as [from|]; [|by destruct (cp_rules_digest cp)]. destruct (from <? 0); [done|].
  destruct (cp_rules_digest cp) as [| | | |d]; try done. destruct (hex_text 64 d); [|done]. by intros [= <-].
Qed.

Lemma signed_parts_ne cp x :
  signed_roots cp = Some x \/ signed_supersede cp = Some x \/ signed_fold cp = Some x -> x <> [].
Proof.
  unfold signed_roots, signed_supersede, signed_fold. intros [Hx|[Hx|Hx]] ->.
  - by repeat case_match.
  - by repeat case_match.
  - by destruct (cp_fold_archive cp).
Qed.

Lemma canonical_fields cp s : canonicalCheckpoint reg (Some cp) = Ok s -> s = join_text "|" (signed_fields cp).
Proof.
  unfold canonicalCheckpoint. intros Hs. bind_step Hs as commit Hc. bind_step Hs as sup Hp. bind_step Hs as suffix Hsuf.
  assert (suffix = match signed_supersede cp with Some x => "|" +:+ join_text "|" x | None => "" end) as ->.
  { apply supersede_text. by rewrite Hp. }
  set (raw0 := if commit && has_roots cp then _ else _) in Hs.
  assert (raw0 = join_text "|" (base_fields cp ++ default [] (signed_roots cp))) as Hraw.
  { rewrite join_cat by (done || intros; eapply signed_parts_ne; eauto).
    unfold raw0, signed_roots. rewrite Hc. destruct commit, (has_roots cp); by rewrite ?sapp_nil_r. }
  set (body := base_fields cp ++ default [] (signed_roots cp) ++ default [] (signed_supersede cp)
               ++ default [] (signed_fold cp)).
  assert (join_text "|" body = raw0 +:+ match signed_supersede cp with Some x => "|" +:+ join_text "|" x | None => "" end
    +:+ match signed_fold cp with Some x => "|" +:+ join_text "|" x | None => "" end) as Hbody.
  { unfold body. rewrite !app_assoc, !join_cat by (done || intros; eapply signed_parts_ne; eauto).
    by rewrite Hraw, join_cat, !sapp_assoc by (done || intros; eapply signed_parts_ne; eauto). }
  assert (body <> []) as Hne by done. change (signed_fields cp) with (header_fields cp ++ body). clearbody body.
  unfold header_fields, signed_fold in *. destruct (cp_fold_archive cp) as [f|], (isEquivHeaderActive _ _);
    injection Hs as <-; cbn [fmap option_fmap option_map] in Hbody; rewrite ?sapp_nil_r in Hbody;
    rewrite <- ?sapp_assoc in Hbody; rewrite ?sapp_assoc in *.
  - rewrite join_text_app by done. rewrite Hbody.
    unfold buildEquivCanonical, equivPrefix, equivKey. cbn [app join_text]. by rewrite !sapp_assoc.
  - by cbn [app].
  - rewrite join_text_app by done. rewrite Hbody.
    unfold buildEquivCanonical, equivPrefix, equivKey. cbn [app join_text]. by rewrite !sapp_assoc.
  - by cbn [app].
Qed.
Lemma lower_pipe s : pipe_free s -> pipe_free (to_lower s).
Proof.
  unfold pipe_free, to_lower. rewrite utf8_of_utf8. intros Hs (x & Hx & Hin)%list_elem_of_fmap. apply Hs.
  assert (x = ch "|") as <-; [|done]. symmetry in Hx. revert Hx. clear. destruct x; vm_compute; congruence.
Qed.
Lemma digits_pipe l : Forall (fun b => is_digit b = true) l -> ch "|" ∉ l.
Proof. intros Hl Hin. rewrite Forall_forall in Hl. by apply Hl in Hin. Qed.
Lemma int_pipe z : pipe_free (string_of_int z).
Proof.
  unfold pipe_free, string_of_int, dec_of. rewrite utf8_of_utf8. destruct (z <? 0) eqn:E.
  - intros [Hx|Hin]%elem_of_cons; [done|]. revert Hin. apply digits_pipe, dec_of_nonneg_spec. lia.
  - apply digits_pipe, dec_of_nonneg_spec. lia.
Qed.
Lemma elem_pipe v : pipe_free (js_String v) -> pipe_free (join_elem v).
Proof. unfold join_elem. destruct (is_nullish v); [|done]. intros _. apply not_elem_of_nil. Qed.

Lemma signed_fields_pipe cp : Forall pipe_free (cp_texts cp) -> Forall pipe_free (signed_fields cp).
Proof.
  unfold cp_texts. rewrite Forall_app. cbn [map]. rewrite !Forall_cons.
  intros [(? & ? & ? & ? & ? & ? & ? & ? & ? & ? & ? & ? & ? & Hd & _) Hf].
  assert (forall t, pipe_free t \/ t ∈ ["EQUIV"; CHECKPOINT_TAG; "0"; ""; "SUPERSEDE"; "XCHECKPOINT"] -> pipe_free t) as Hlit.
  { intros t [Ht|Ht]; [done|]. apply list_elem_of_In in Ht. unfold pipe_free.
    destruct Ht as [<-|[<-|[<-|[<-|[<-|[<-|[]]]]]]]; apply (bool_decide_unpack _); vm_compute; exact I. }
  assert (Forall pipe_free (default [] (signed_fold cp))
    /\ Forall pipe_free (match cp_fold_archive cp with Some f => [js_String (match_batch_seq f)] | None => [] end)) as [Hfold Hseq].
  { unfold signed_fold. destruct (cp_fold_archive cp); [|done]. cbn [map] in Hf. rewrite !Forall_cons in Hf.
    destruct Hf as (? & ? & ? & ? & _). cbn. repeat constructor; auto using lower_pipe. }
  unfold signed_fields. rewrite !Forall_app. split_and!; [| | | |done].
  - unfold header_fields. destruct (isEquivHeaderActive _ _); [|constructor]. rewrite !Forall_app.
    split_and!; [|done|]; repeat constructor; auto; apply Hlit; right; set_solver.
  - unfold base_fields. repeat constructor; auto using elem_pipe. apply Hlit. right. set_solver.
  - unfold signed_roots. repeat case_match; cbn; repeat constructor; auto using lower_pipe.
  - unfold signed_supersede. destruct (isCheckpointSupersedeActive _ _ _) as [[]|]; try constructor.
    destruct (cp_rules_digest cp) as [| | | |d]; try constructor.
    destruct (safe_integer (js_number (cp_supersedes_from cp))); [|constructor].
    destruct (hasSupersedeFields (Some cp)); constructor; [apply Hlit; right; set_solver|].
    repeat constructor; [apply int_pipe|by apply lower_pipe].
Qed.
Lemma signed_lengths cp : length (default [] (signed_roots cp)) = (if signed_roots cp then 4 else 0)%nat
  /\ length (default [] (signed_supersede cp)) = (if signed_supersede cp then 3 else 0)%nat
  /\ length (default [] (signed_fold cp)) = (if signed_fold cp then 4 else 0)%nat.
Proof.
  split_and!; unfold signed_roots, signed_supersede, signed_fold; try (by repeat case_match).
  by destruct (cp_fold_archive cp).
Qed.

(** A checkpoint signature binds every field: under the EQUIV header, when no
    field text contains the separator, two checkpoints with the same canonical
    string have the same chain, network, height, hashes, sequence and snapshot
    texts, and commit the same roots, supersession and folded archive, or none. *)
Theorem canonicalCheckpoint_binding cp cp' s :
  isEquivHeaderActive (cp_snapshot_block cp) (cp_network cp) = true ->
  isEquivHeaderActive (cp_snapshot_block cp') (cp_network cp') = true ->
  Forall pipe_free (cp_texts cp) -> Forall pipe_free (cp_texts cp') ->
  canonicalCheckpoint reg (Some cp) = Ok s -> canonicalCheckpoint reg (Some cp') = Ok s ->
  base_fields cp = base_fields cp' /\ signed_roots cp = signed_roots cp'
  /\ signed_supersede cp = signed_supersede cp' /\ signed_fold cp = signed_fold cp'.
Proof.
  intros He He' Hp Hp' Hs%canonical_fields Hs'%canonical_fields. rewrite Hs in Hs'. clear Hs.
  assert (forall c, signed_fields c <> []) as Hne by (intros c; unfold signed_fields; by destruct (header_fields c)).
  apply join_text_pipe_inj in Hs'; [|apply Hne|apply Hne|by apply signed_fields_pipe..].
  destruct (signed_lengths cp) as (Lr & Ls & Lf), (signed_lengths cp') as (Lr' & Ls' & Lf').
  assert (forall c, isEquivHeaderActive (cp_snapshot_block c) (cp_network c) = true ->
    length (header_fields c) = (8 + if signed_fold c then 1 else 0)%nat) as Hh.
  { intros c Hc. unfold header_fields, signed_fold. rewrite Hc. by destruct (cp_fold_archive c). }
  specialize (Hh cp He) as Lh. specialize (Hh cp' He') as Lh'. clear Hh.
  assert (length (base_fields cp) = 10%nat /\ length (base_fields cp') = 10%nat) as [Lb Lb'] by done.
  unfold signed_fields in Hs'. pose proof (f_equal length Hs') as Hlen. rewrite !length_app in Hlen.
  rewrite Lh, Lh', Lb, Lb', Lr, Lr', Ls, Ls', Lf, Lf' in Hlen.
  assert ((is_Some (signed_fold cp) <-> is_Some (signed_fold cp'))
    /\ (is_Some (signed_roots cp) <-> is_Some (signed_roots cp'))
    /\ (is_Some (signed_supersede cp) <-> is_Some (signed_supersede cp'))) as (Hf1 & Hr1 & Hs1)
    by (destruct (signed_fold cp), (signed_fold cp'), (signed_roots cp), (signed_roots cp'),
          (signed_supersede cp), (signed_supersede cp'); rewrite ?is_Some_alt; done).
  clear Hlen. assert (forall o o' : option (list string), (is_Some o <-> is_Some o') -> default [] o = default [] o' -> o = o') as Hopt.
  { intros [x|] [y|] Hiff; cbn; [congruence| | |done]; intros _; exfalso.
    - destruct Hiff as [[? ?] _]; [eauto|done].
    - destruct Hiff as [_ [? ?]]; [eauto|done]. }
  assert (forall o o' : option (list string), (is_Some o <-> is_Some o') -> forall n : nat,
    (if o then n else 0)%nat = (if o' then n else 0)%nat) as Hn.
  { intros [x|] [y|] Hiff n; [done| | |done]; exfalso; [destruct Hiff as [[? ?] _]|destruct Hiff as [_ [? ?]]]; eauto; done. }
  apply app_inj_len in Hs' as [_ Hs']; [|rewrite Lh, Lh'; f_equal; by apply Hn].
  apply app_inj_len in Hs' as [Hb Hs']; [|done].
  apply app_inj_len in Hs' as [Hr Hs']; [|rewrite Lr, Lr'; by apply Hn].
  apply app_inj_len in Hs' as [Hsu Hs']; [|rewrite Ls, Ls'; by apply Hn].
  split_and!; auto.
Qed.
End Binding.

(** ** The verdict *)
Section Verdict.
Context `{Ed25519} `{BigNumber}.
Variable reg : registry.

(** A key of the qualified set with a signature that verifies. *)
Definition signed_by (text : string) (sigs : list (option sig_entry)) (k : string) : Prop :=
  exists s, s ∈ sigs /\ sig_pk s = k /\ verifySignature text (sig_text s) k = true.

Lemma verify_nonempty text sg : verifySignature text sg "" = false.
Proof. unfold verifySignature. by rewrite (bool_decide_eq_true_2 ("" = "")), orb_true_r by done. Qed.

Lemma sig_loop_spec text qualified sigs seen : NoDup seen ->
  NoDup (sig_loop text qualified sigs seen)
  /\ forall k, k ∈ sig_loop text qualified sigs seen <-> k ∈ seen \/ (k ∈ qualified /\ signed_by text sigs k).
Proof.
  revert seen; induction sigs as [|s sigs IH]; intros seen Hnd; cbn [sig_loop].
  - split; [done|]. intros k. split; [by left|]. intros [?|[_ (s & Hs & _)]]; [done|]. by apply not_elem_of_nil in Hs.
  - assert (forall k, signed_by text (s :: sigs) k <->
      (sig_pk s = k /\ verifySignature text (sig_text s) k = true) \/ signed_by text sigs k) as Hcons.
    { intros k. unfold signed_by. setoid_rewrite elem_of_cons. naive_solver. }
    setoid_rewrite Hcons.
    destruct (bool_decide (sig_pk s = "") || bool_decide (sig_pk s ∈ seen) || negb (bool_decide (sig_pk s ∈ qualified))) eqn:E.
    + destruct (IH seen Hnd) as [Hn Hk]. split; [done|]. intros k. rewrite Hk. split; [naive_solver|].
      intros [?|[Hq [[Hs Hv]|?]]]; [by left| |by right]. subst k.
      rewrite !orb_true_iff, !negb_true_iff, !bool_decide_eq_true, bool_decide_eq_false in E.
      destruct E as [[E|E]|E]; [|by left|done]. rewrite E in Hv. by rewrite verify_nonempty in Hv.
    + rewrite !orb_false_iff, !negb_false_iff, !bool_decide_eq_false, bool_decide_eq_true in E. destruct E as [[_ Hns] Hq].
      destruct (verifySignature text (sig_text s) (sig_pk s)) eqn:Ev.
      * destruct (IH (seen ++ [sig_pk s])) as [Hn Hk].
        { apply NoDup_app. split_and!; [done| |apply NoDup_singleton]. by intros x Hx ->%list_elem_of_singleton. }
        split; [done|]. intros k. rewrite Hk, elem_of_app, list_elem_of_singleton. naive_solver.
      * destruct (IH seen Hnd) as [Hn Hk]. split; [done|]. intros k. rewrite Hk. split; [naive_solver|].
        intros [?|[? [[<- Hv]|?]]]; [by left|congruence|by right].
Qed.

(** C25. The verdict is exact and order-independent: for a checkpoint whose
    canonical string can be formed, that carries its commitment fields and no
    disallowed supersession, the counted signers are exactly the distinct
    qualified keys with at least one signature that verifies over that string (so
    garbage entries never suppress a good one), and it is valid exactly when they
    reach the count quorum or, in the weighted regime, when every entry carries
    stake and they meet the stake threshold.  Any other checkpoint is invalid with
    no signature counted. *)
Theorem verifyCheckpoint_exact cp vs v : verifyCheckpoint reg (Some cp) vs = Ok v ->
  let qualified := qualified_keys vs in
  let usable := is_Some (canonical v) /\ commitmentMissing reg (Some cp) = Ok false
                /\ supersessionDisallowed reg (Some cp) = Ok false in
  (forall text, canonical v = Some text -> usable -> exists signers,
      NoDup signers /\ length signers = validSigs v
      /\ (forall k, k ∈ signers <-> k ∈ qualified /\ signed_by text (sig_list (cp_validator_signatures cp)) k)
      /\ (valid v = true <->
          if isStakeWeightedQuorumActive (cp_snapshot_block cp) (cp_network cp)
          then vs_entries vs <> [] /\ Forall (fun e => isWeightedEntry e = true) (vs_entries vs)
               /\ meetsStakeThreshold (entry_snapshot vs) (map JStr signers) = true
          else qualified <> [] /\ count_quorum (Z.of_nat (length qualified)) <= Z.of_nat (validSigs v)))
  /\ (~ usable -> valid v = false /\ validSigs v = 0%nat).
Proof.
  intros Hv qualified usable. unfold verifyCheckpoint in Hv. fold qualified in Hv.
  destruct (tryCanonicalCheckpoint reg (Some cp)) as [text|] eqn:Et.
  2: { injection Hv as <-. split; [done|]. done. }
  bind_step Hv as missing Hm. bind_step Hv as disallowed Hd.
  destruct (missing || disallowed) eqn:Emd.
  { injection Hv as <-. split; [|done]. intros text' _ (_ & Hm' & Hd'). exfalso. rewrite Hm in Hm'. injection Hm' as ->.
    cbv iota in Hd. rewrite Hd in Hd'. injection Hd' as ->. done. }
  apply orb_false_iff in Emd as [-> ->]. cbv iota in Hd. injection Hv as <-. cbn [canonical valid validSigs] in *. split.
  2: { intros Hn. exfalso. apply Hn. split; [eauto|]. done. }
  intros text' [= <-] _. set (signers := sig_loop text qualified _ []).
  destruct (sig_loop_spec text qualified (sig_list (cp_validator_signatures cp)) [] (NoDup_nil_2)) as [Hnd Hk].
  fold signers in Hnd, Hk. exists signers. split_and!; [done|done| |].
  - intros k. rewrite Hk. split; [intros [?%not_elem_of_nil|?]; done|by right].
  - destruct (isStakeWeightedQuorumActive _ _).
    + rewrite !andb_true_iff, negb_true_iff, bool_decide_eq_false, forallb_forall, List.Forall_forall. tauto.
    + rewrite andb_true_iff, Z.ltb_lt, Z.leb_le. split; intros [Hq ?]; (split; [|done]).
      * intros Hnil. rewrite Hnil in Hq. done.
      * destruct qualified; [done|]. cbn [length]. lia.
Qed.
End Verdict.

(** ** The count quorum *)
Lemma count_quorum_bounds n : 1 <= n -> n < 2 * count_quorum n /\ count_quorum n <= n
  /\ forall f, n = 3 * f + 1 -> f + 1 <= 2 * count_quorum n - n.
Proof.
  intros Hn. unfold count_quorum. destruct (Z.leb_spec n 1).
  - assert (n = 1) as -> by lia. split_and!; [lia..|]. intros f Hf. lia.
  - pose proof (Z.div_mod (n - 1) 3 ltac:(lia)). pose proof (Z.mod_pos_bound (n - 1) 3 ltac:(lia)).
    pose proof (Z.div_mod (n + 2) 2 ltac:(lia)). pose proof (Z.mod_pos_bound (n + 2) 2 ltac:(lia)).
    split_and!; [lia..|]. intros f ->. replace (3 * f + 1 - 1) with (f * 3) in * by lia.
    rewrite Z.div_mul in * by lia. lia.
Qed.

(** Two count quorums of one qualified set intersect, and a set of
    [3f + 1] keys in at least [f + 1] of them, so more than [f] keys would have to
    sign two checkpoints. *)
Theorem count_quorum_intersection (qualified a b : list string) :
  let n := Z.of_nat (length qualified) in
  let common := List.filter (fun k => bool_decide (k ∈ b)) a in
  NoDup qualified -> NoDup a -> NoDup b -> a ⊆ qualified -> b ⊆ qualified -> qualified <> [] ->
  count_quorum n <= Z.of_nat (length a) -> count_quorum n <= Z.of_nat (length b) ->
  common <> [] /\ forall f, n = 3 * f + 1 -> f + 1 <= Z.of_nat (length common).
Proof.
  intros n common Hq Ha Hb Hsa Hsb Hne Hqa Hqb.
  set (only := List.filter (fun k => negb (bool_decide (k ∈ b))) a).
  assert (length a = length common + length only)%nat as Hlen.
  { unfold common, only. clear. induction a as [|x a IH]; cbn; [done|]. destruct (bool_decide (x ∈ b)); cbn; lia. }
  assert (length only + length b <= length qualified)%nat as Hu.
  { rewrite <- length_app. apply submseteq_length, NoDup_submseteq.
    - apply NoDup_app. split_and!; [|intros k [_ Hk]%elem_of_lfilter; by apply negb_true_iff, bool_decide_eq_false in Hk|done].
      unfold only. clear -Ha. induction Ha as [|x a Hx Ha IH]; cbn; [constructor|].
      destruct (negb _); [|done]. constructor; [|done]. intros [? _]%elem_of_lfilter. done.
    - intros k [[Hk _]%elem_of_lfilter|Hk]%elem_of_app; [by apply Hsa|by apply Hsb]. }
  destruct (count_quorum_bounds n) as (Hlt & _ & Hf); [destruct qualified; [done|cbn in *; lia]|].
  split.
  - intros Hc. rewrite Hc in Hlen. cbn in Hlen. lia.
  - intros f Hn. specialize (Hf f Hn). lia.
Qed.

(** Burial of a declared snapshot height: at an armed network a non-negative
    height resolves at most [CANONICAL_REORG_BUFFER] blocks below it, never below
    zero, monotonically; an unknown network and a value that is not a height are
    returned as they are. *)
Theorem buriedSnapshotBlock_spec h h' network : 0 <= h <= h' ->
  (network ∈ ["mainnet"; "testnet"; "regtest"] ->
     exists r r', buriedSnapshotBlock (JInt h) network = JInt r /\ buriedSnapshotBlock (JInt h') network = JInt r'
     /\ 0 <= r <= h /\ h - CANONICAL_REORG_BUFFER <= r /\ r <= r' /\ (CANONICAL_REORG_BUFFER <= h -> r = h - CANONICAL_REORG_BUFFER))
  /\ (network ∉ ["mainnet"; "testnet"; "regtest"] -> forall v, buriedSnapshotBlock v network = v)
  /\ forall v, v ∈ [JNull; JUndef; JStr ""; JBool true; JBool false; JStr "x"; JStr "NaN"] -> buriedSnapshotBlock v network = v.
Proof.
  intros Hh. assert (forall z, 0 <= z -> network ∈ ["mainnet"; "testnet"; "regtest"] ->
    buriedSnapshotBlock (JInt z) network = JInt (Z.max 0 (z - CANONICAL_REORG_BUFFER))) as Hb.
  { intros z Hz Hn. unfold buriedSnapshotBlock. assert (isSnapshotBurialActive (JInt z) network = true) as ->.
    - assert (own SNAPSHOT_BURIAL_ACTIVATION network = Some (GNum 0)) as Ho.
      { apply list_elem_of_In in Hn. destruct Hn as [<-|[<-|[<-|[]]]]; vm_compute; reflexivity. }
      unfold isSnapshotBurialActive. rewrite Ho, fin_le_int. by apply Z.leb_le.
    - cbn [negb js_number num_floor]. rewrite Z.mul_1_r. done. }
  split_and!.
  - intros Hn. rewrite !Hb by (done || lia). unfold CANONICAL_REORG_BUFFER. eexists _, _. split_and!; [done|done|lia..].
  - intros Hn v. unfold buriedSnapshotBlock. assert (own SNAPSHOT_BURIAL_ACTIVATION network = None) as Ho.
    { unfold own, SNAPSHOT_BURIAL_ACTIVATION. apply jm_get_None. exact Hn. }
    assert (isSnapshotBurialActive v network = false) as ->; [|done].
    unfold isSnapshotBurialActive. destruct v; try done; rewrite Ho; [done|]. case_bool_decide; [done|]. by case_match.
  - intros v Hv. apply list_elem_of_In in Hv. unfold buriedSnapshotBlock.
    destruct Hv as [<-|[<-|[<-|[<-|[<-|[<-|[<-|[]]]]]]]]; done.
Qed.

(** ** Witnesses *)
Definition ex_reg : registry := Registry (map row_entry committed_rows) (Some (regtestArming ex_env)).

(** A testnet checkpoint above every flag day; the roots of the second are in
    upper case and its height is text. *)
Definition ex_cp (block_index state_root : jsval) (sigs : sig_field) : checkpoint :=
  Checkpoint (JStr "BTC") (JStr "testnet") block_index (JStr "0a") (JStr "0b") (JStr "0c") (JStr "0d") (JInt 7)
    (JInt 150000) state_root (JInt 2) (JStr "ab") (JInt 1) JNull JNull None sigs.
Definition ex_cp1 : checkpoint := ex_cp (JInt 149990) (JStr "c0ffee") SigOther.
Definition ex_cp2 : checkpoint := ex_cp (JStr "149990") (JStr "C0FFEE") SigOther.
Definition ex_canonical : string :=
  match canonicalCheckpoint ex_reg (Some ex_cp1) with Ok s => s | Throw e => e end.

Lemma canonicalCheckpoint_binding_witness :
  base_fields ex_cp1 = base_fields ex_cp2 /\ signed_roots ex_reg ex_cp1 = signed_roots ex_reg ex_cp2
  /\ signed_supersede ex_reg ex_cp1 = signed_supersede ex_reg ex_cp2 /\ signed_fold ex_cp1 = signed_fold ex_cp2.
Proof.
  apply (canonicalCheckpoint_binding ex_reg ex_cp1 ex_cp2 ex_canonical).
  - vm_compute. reflexivity.
  - vm_compute. reflexivity.
  - unfold pipe_free. apply (bool_decide_unpack _). vm_compute. exact I.
  - unfold pipe_free. apply (bool_decide_unpack _). vm_compute. exact I.
  - vm_compute. reflexivity.
  - vm_compute. reflexivity.
Defined.

(** A toy signature scheme: the signature of a key is the key twice. *)
Section VerdictWitness.
#[local] Instance toy_ed25519 : Ed25519 := fun payload pk sg => bool_decide (sg = pk ++ pk).

Definition ex_hex (c : string) (n : nat) : string := of_utf8 (replicate n (ch c)).
Definition ex_sig (c : string) : option sig_entry := Some (SigEntry (JStr (ex_hex c 64)) (JStr (ex_hex c 128))).
(** A bad signature precedes the good one of the same key. *)
Definition ex_signed : checkpoint :=
  ex_cp (JInt 149990) (JStr "c0ffee")
    (SigArray [Some (SigEntry (JStr (ex_hex "a" 64)) (JStr (ex_hex "b" 128))); ex_sig "a"; None; ex_sig "a"]).
Definition ex_vset : vset :=
  VSet [EObj (Validator (JStr "s1") (JStr (ex_hex "A" 64)) (JStr "70")); EObj (Validator (JStr "s2") (JStr (ex_hex "b" 64)) (JStr "20.5"))] false.

Lemma ex_verdict_ok : exists v, verifyCheckpoint ex_reg (Some ex_signed) ex_vset = Ok v
  /\ valid v = true /\ validSigs v = 1%nat.
Proof. eexists. split; [vm_compute; reflexivity|]. split; reflexivity. Qed.

Lemma verifyCheckpoint_exact_witness : exists v, verifyCheckpoint ex_reg (Some ex_signed) ex_vset = Ok v
  /\ valid v = true
  /\ (~ (is_Some (canonical v) /\ commitmentMissing ex_reg (Some ex_signed) = Ok false
         /\ supersessionDisallowed ex_reg (Some ex_signed) = Ok false) -> valid v = false /\ validSigs v = 0%nat).
Proof.
  destruct ex_verdict_ok as (v & Hv & Hvalid & _). exists v. split; [exact Hv|]. split; [exact Hvalid|].
  exact (proj2 (verifyCheckpoint_exact ex_reg ex_signed ex_vset v Hv)).
Defined.
End VerdictWitness.

Lemma count_quorum_intersection_witness :
  List.filter (fun k => bool_decide (k ∈ ["b"; "c"; "d"])) ["a"; "b"; "c"] <> []
  /\ forall f, 4 = 3 * f + 1 -> f + 1 <= Z.of_nat (length (List.filter (fun k => bool_decide (k ∈ ["b"; "c"; "d"])) ["a"; "b"; "c"])).
Proof.
  apply (count_quorum_intersection ["a"; "b"; "c"; "d"] ["a"; "b"; "c"] ["b"; "c"; "d"]);
    try (apply (bool_decide_unpack _); vm_compute; exact I); set_solver.
Defined.

Lemma buriedSnapshotBlock_spec_witness :
  exists r r', buriedSnapshotBlock (JInt 4) "mainnet" = JInt r /\ buriedSnapshotBlock (JInt 100) "mainnet" = JInt r'
  /\ 0 <= r <= 4 /\ 4 - CANONICAL_REORG_BUFFER <= r /\ r <= r' /\ (CANONICAL_REORG_BUFFER <= 4 -> r = 4 - CANONICAL_REORG_BUFFER).
Proof. apply (buriedSnapshotBlock_spec 4 100 "mainnet"); [lia|set_solver]. Defined.
