(* ===== verification/Async.v ===== *)
(** * Async: asynchronous methods as resumptions

    An [async] method runs without interruption up to its next [await]; between
    two awaits of one method any other method may run.  [async A] is such a method
    over a shared state: it runs its synchronous part and then returns, throws, or
    suspends with the condition under which it may resume and what it does next.
    A system is a shared state and a list of suspended methods; a step resumes any
    one of them that is ready.

    [triple] is a rely-guarantee judgement: started in a state that satisfies the
    invariant and the precondition, every uninterrupted part of the method keeps the
    invariant and the guarantee [G], whatever the other methods do between the
    parts as long as they keep the rely [R].  [run_invariant] is its soundness: when
    every method of a system is safe and the guarantees of the others imply the rely
    of each, the invariant holds in every reachable state. *)

From S2P Require Import Prelude.

Section Async.
Context {S : Type}.

Inductive outcome (A : Type) :=
| Ret (a : A)
| Fail (e : string)
| Await (ready : S -> bool) (k : S -> S * outcome A).
Arguments Ret {A} a.
Arguments Fail {A} e.
Arguments Await {A} ready k.

Lemma outcome_nested_ind {A} (P : outcome A -> Prop) :
  (forall a, P (Ret a)) -> (forall e, P (Fail e)) ->
  (forall ready c, (forall s, P (snd (c s))) -> P (Await ready c)) -> forall o, P o.
Proof.
  intros Hr Hf Ha. fix IH 1. intros [a|e|ready c]; [apply Hr|apply Hf|]. apply Ha. intros s.
  destruct (c s) as [s' o']. exact (IH o').
Qed.

Definition async (A : Type) : Type := S -> S * outcome A.

Definition ret {A} (a : A) : async A := fun s => (s, Ret a).
Definition throw {A} (e : string) : async A := fun s => (s, Fail e).
Definition get : async S := fun s => (s, Ret s).
Definition gets {A} (f : S -> A) : async A := fun s => (s, Ret (f s)).
Definition modify (f : S -> S) : async unit := fun s => (f s, Ret tt).

(** Suspend until [ready]; [yield] suspends with no condition. *)
Definition await_until (ready : S -> bool) : async unit := fun s => (s, Await ready (ret tt)).
Definition yield : async unit := await_until (fun _ => true).

(** Continue an outcome with what follows a return and what follows a throw. *)
Fixpoint continue {A B} (o : outcome A) (k : A -> async B) (h : string -> async B) (s : S) : S * outcome B :=
  match o with
  | Ret a => k a s
  | Fail e => h e s
  | Await ready c => (s, Await ready (fun s1 => match c s1 with (s2, o') => continue o' k h s2 end))
  end.

Definition bind {A B} (m : async A) (k : A -> async B) : async B :=
  fun s => match m s with (s', o) => continue o k throw s' end.
(** [try { return await m; } catch(e) { h(e) }] *)
Definition try_catch {A} (m : async A) (h : string -> async A) : async A :=
  fun s => match m s with (s', o) => continue o ret h s' end.
(** [try { return await m; } finally { f }] with a synchronous [f]. *)
Definition finally {A} (m : async A) (f : S -> S) : async A :=
  fun s => match m s with
           | (s', o) => continue o (fun a s1 => (f s1, Ret a)) (fun e s1 => (f s1, Fail e)) s'
           end.

(** ** Systems *)
Definition system : Type := S * list (outcome unit).

(** Resume the method at position [i], if it is suspended and ready. *)
Definition resume (i : nat) (sys : system) : option system :=
  match sys.2 !! i with
  | Some (Await ready c) =>
      if ready sys.1 then match c sys.1 with (s', o') => Some (s', <[i := o']> sys.2) end else None
  | _ => None
  end.

(** A schedule; a choice that cannot run is skipped. *)
Fixpoint run (schedule : list nat) (sys : system) : system :=
  match schedule with
  | [] => sys
  | i :: rest => run rest (default sys (resume i sys))
  end.

Inductive step : system -> system -> Prop :=
| step_resume i s s' tasks ready c o' :
    tasks !! i = Some (Await ready c) -> ready s = true -> c s = (s', o') ->
    step (s, tasks) (s', <[i := o']> tasks).

Inductive steps : system -> system -> Prop :=
| steps_refl sys : steps sys sys
| steps_step sys1 sys2 sys3 : step sys1 sys2 -> steps sys2 sys3 -> steps sys1 sys3.

Lemma run_steps schedule sys : steps sys (run schedule sys).
Proof.
  revert sys; induction schedule as [|i rest IH]; intros sys; cbn [run]; [constructor|].
  destruct (resume i sys) as [sys'|] eqn:E; cbn; [|apply IH].
  eapply steps_step; [|apply IH]. destruct sys as [s tasks]. unfold resume in E. cbn in E.
  destruct (tasks !! i) as [[a|e|ready c]|] eqn:Ei; try done.
  destruct (ready s) eqn:Er; [|done]. destruct (c s) as [s' o'] eqn:Ec. injection E as <-.
  by econstructor.
Qed.

(** ** A method alone

    What a method does when nothing else runs: a value, an exception, or a
    suspension whose condition never comes.  The recursion is on the method, so
    every method of the model ends. *)
Inductive ending (A : Type) :=
| Value (a : A)
| Raised (e : string)
| Stuck.
Arguments Value {A} a.
Arguments Raised {A} e.
Arguments Stuck {A}.

Fixpoint finish {A} (o : outcome A) (s : S) : S * ending A :=
  match o with
  | Ret a => (s, Value a)
  | Fail e => (s, Raised e)
  | Await ready c => if ready s then match c s with (s', o') => finish o' s' end else (s, Stuck)
  end.
Definition alone {A} (m : async A) (s : S) : S * ending A := match m s with (s', o) => finish o s' end.

Lemma finish_continue {A B} (o : outcome A) (k : A -> async B) h s :
  (match continue o k h s with (s', o') => finish o' s' end)
  = match finish o s with
    | (s1, Value a) => alone (k a) s1
    | (s1, Raised e) => alone (h e) s1
    | (s1, Stuck) => (s1, Stuck)
    end.
Proof.
  revert s. induction o as [a|e|ready c IH] using outcome_nested_ind; intros s; cbn; [done..|].
  destruct (ready s); [|done]. specialize (IH s). destruct (c s) as [s2 o']. apply IH.
Qed.

(** Run alone from [P], a method returns, with [Q]. *)
Definition returns {A} (P : S -> Prop) (m : async A) (Q : A -> S -> Prop) : Prop :=
  forall s, P s -> exists s' a, alone m s = (s', Value a) /\ Q a s'.

Lemma returns_bind {A B} P (m : async A) (k : A -> async B) Q Q' :
  returns P m Q -> (forall a, returns (Q a) (k a) Q') -> returns P (bind m k) Q'.
Proof.
  intros Hm Hk s HP. destruct (Hm s HP) as (s1 & a & E1 & HQ). destruct (Hk a s1 HQ) as (s2 & b & E2 & HQ').
  exists s2, b. split; [|done]. unfold alone, bind in *. destruct (m s) as [s0 o].
  rewrite (finish_continue o k throw s0), E1. exact E2.
Qed.
Lemma returns_finally {A} P (m : async A) f (Q Q' : A -> S -> Prop) :
  returns P m Q -> (forall a s, Q a s -> Q' a (f s)) -> returns P (finally m f) Q'.
Proof.
  intros Hm Hf s HP. destruct (Hm s HP) as (s1 & a & E1 & HQ). exists (f s1), a. split; [|auto].
  unfold alone, finally in *. destruct (m s) as [s0 o]. by rewrite (finish_continue o _ _ s0), E1.
Qed.
Lemma returns_try {A} P (m : async A) h (Q : A -> S -> Prop) : returns P m Q -> returns P (try_catch m h) Q.
Proof.
  intros Hm s HP. destruct (Hm s HP) as (s1 & a & E1 & HQ). exists s1, a. split; [|auto].
  unfold alone, try_catch in *. destruct (m s) as [s0 o]. by rewrite (finish_continue o _ _ s0), E1.
Qed.
Lemma returns_ret {A} (a : A) (Q : A -> S -> Prop) : returns (Q a) (ret a) Q.
Proof. intros s HQ. by exists s, a. Qed.
Lemma returns_get (P : S -> Prop) : returns P get (fun a s => P s /\ s = a).
Proof. intros s HP. by exists s, s. Qed.
Lemma returns_modify f (P : S -> Prop) (Q : unit -> S -> Prop) : (forall s, P s -> Q tt (f s)) -> returns P (modify f) Q.
Proof. intros Hf s HP. exists (f s), tt. split; [done|auto]. Qed.
Lemma returns_await ready (P : S -> Prop) : (forall s, P s -> ready s = true) -> returns P (await_until ready) (fun _ => P).
Proof. intros Hr s HP. exists s, tt. unfold alone, await_until. cbn. by rewrite (Hr s HP). Qed.
Lemma returns_conseq {A} (P P' : S -> Prop) (m : async A) (Q Q' : A -> S -> Prop) :
  returns P m Q -> (forall s, P' s -> P s) -> (forall a s, Q a s -> Q' a s) -> returns P' m Q'.
Proof. intros Hm HP HQ s Hs. destruct (Hm s (HP s Hs)) as (s' & a & E & Hq). exists s', a. auto. Qed.

(** ** The judgement *)
Section Logic.
Variable I : S -> Prop.
Variables R G : S -> S -> Prop.

Fixpoint safe {A} (o : outcome A) (Q : A -> S -> Prop) (E : string -> S -> Prop) (s : S) : Prop :=
  match o with
  | Ret a => Q a s
  | Fail e => E e s
  | Await ready c =>
      forall s1, R s s1 -> I s1 -> ready s1 = true ->
      match c s1 with (s2, o') => I s2 /\ G s1 s2 /\ safe o' Q E s2 end
  end.

Definition triple {A} (P : S -> Prop) (m : async A) (Q : A -> S -> Prop) (E : string -> S -> Prop) : Prop :=
  forall s, I s -> P s -> match m s with (s', o) => I s' /\ G s s' /\ safe o Q E s' end.

Context (Grefl : forall s, G s s) (Gtrans : forall a b c, G a b -> G b c -> G a c).

Lemma safe_mono {A} (o : outcome A) (Q Q' : A -> S -> Prop) (E E' : string -> S -> Prop) s :
  (forall a s, I s -> Q a s -> Q' a s) -> (forall e s, I s -> E e s -> E' e s) -> I s -> safe o Q E s -> safe o Q' E' s.
Proof.
  intros HQ HE. revert s. induction o as [a|e|ready c IH] using outcome_nested_ind; intros s Hi; cbn; [auto..|].
  intros Hs s1 HR Hi1 Hr. specialize (Hs s1 HR Hi1 Hr). specialize (IH s1).
  destruct (c s1) as [s2 o']. destruct Hs as (? & ? & ?). auto.
Qed.

Lemma safe_continue {A B} (o : outcome A) (k : A -> async B) (h : string -> async B) Q E Q' E' s :
  I s -> safe o Q E s -> (forall a, triple (Q a) (k a) Q' E') -> (forall e, triple (E e) (h e) Q' E') ->
  match continue o k h s with (s', o') => I s' /\ G s s' /\ safe o' Q' E' s' end.
Proof.
  intros Hi Hs Hk Hh. revert s Hi Hs. induction o as [a|e|ready c IH] using outcome_nested_ind; intros s Hi Hs; cbn in *.
  - by apply Hk.
  - by apply Hh.
  - split; [done|]. split; [apply Grefl|]. intros s1 HR Hi1 Hr. specialize (Hs s1 HR Hi1 Hr). specialize (IH s1).
    destruct (c s1) as [s2 o'] eqn:Ec. cbn [snd] in IH. destruct Hs as (Hi2 & Hg & Hs).
    specialize (IH s2 Hi2 Hs). destruct (continue o' k h s2) as [s3 o3]. destruct IH as (? & ? & ?).
    split; [done|]. split; [by eapply Gtrans|done].
Qed.

Lemma triple_conseq {A} (P P' : S -> Prop) (m : async A) (Q Q' : A -> S -> Prop) (E E' : string -> S -> Prop) :
  triple P m Q E -> (forall s, I s -> P' s -> P s) -> (forall a s, I s -> Q a s -> Q' a s) ->
  (forall e s, I s -> E e s -> E' e s) -> triple P' m Q' E'.
Proof.
  intros Hm HP HQ HE s Hi HP'. specialize (Hm s Hi (HP s Hi HP')). destruct (m s) as [s' o].
  destruct Hm as (? & ? & ?). split; [done|]. split; [done|]. by eapply safe_mono.
Qed.

Lemma triple_ret {A} (a : A) (Q : A -> S -> Prop) E : triple (Q a) (ret a) Q E.
Proof. intros s Hi HQ. cbn. auto. Qed.

Lemma triple_throw {A} e (Q : A -> S -> Prop) (E : string -> S -> Prop) : triple (E e) (throw e) Q E.
Proof. intros s Hi HQ. cbn. auto. Qed.

Lemma triple_gets {A} (f : S -> A) (Q : A -> S -> Prop) E : triple (fun s => Q (f s) s) (gets f) Q E.
Proof. intros s Hi HQ. cbn. auto. Qed.

Lemma triple_modify f (Q : unit -> S -> Prop) E :
  triple (fun s => I (f s) /\ G s (f s) /\ Q tt (f s)) (modify f) Q E.
Proof. intros s Hi HQ. cbn. tauto. Qed.

Lemma triple_await ready (Q : unit -> S -> Prop) E :
  triple (fun s => forall s1, R s s1 -> I s1 -> ready s1 = true -> Q tt s1) (await_until ready) Q E.
Proof. intros s Hi HQ. cbn. split; [done|]. split; [apply Grefl|]. intros s1 HR Hi1 Hr. auto. Qed.

Lemma triple_bind {A B} P (m : async A) (k : A -> async B) Q Q' E :
  triple P m Q E -> (forall a, triple (Q a) (k a) Q' E) -> triple P (bind m k) Q' E.
Proof.
  intros Hm Hk s Hi HP. specialize (Hm s Hi HP). unfold bind. destruct (m s) as [s1 o].
  destruct Hm as (Hi1 & Hg & Hs).
  pose proof (safe_continue o k throw Q E Q' E s1 Hi1 Hs Hk (fun e => triple_throw e Q' E)) as Hc.
  destruct (continue o k throw s1) as [s2 o2]. destruct Hc as (? & ? & ?).
  split; [done|]. split; [by eapply Gtrans|done].
Qed.

Lemma triple_try {A} P (m : async A) (h : string -> async A) Q E E' :
  triple P m Q E -> (forall e, triple (E e) (h e) Q E') -> triple P (try_catch m h) Q E'.
Proof.
  intros Hm Hh s Hi HP. specialize (Hm s Hi HP). unfold try_catch. destruct (m s) as [s1 o].
  destruct Hm as (Hi1 & Hg & Hs).
  pose proof (safe_continue o ret h Q E Q E' s1 Hi1 Hs (fun a => triple_ret a Q E') Hh) as Hc.
  destruct (continue o ret h s1) as [s2 o2]. destruct Hc as (? & ? & ?).
  split; [done|]. split; [by eapply Gtrans|done].
Qed.

Lemma triple_finally {A} P (m : async A) f (Q Q' : A -> S -> Prop) (E E' : string -> S -> Prop) :
  triple P m Q E ->
  (forall a s, I s -> Q a s -> I (f s) /\ G s (f s) /\ Q' a (f s)) ->
  (forall e s, I s -> E e s -> I (f s) /\ G s (f s) /\ E' e (f s)) ->
  triple P (finally m f) Q' E'.
Proof.
  intros Hm HQ HE s Hi HP. specialize (Hm s Hi HP). unfold finally. destruct (m s) as [s1 o].
  destruct Hm as (Hi1 & Hg & Hs).
  pose proof (safe_continue o (fun a s1 => (f s1, Ret a)) (fun e s1 => (f s1, Fail e)) Q E Q' E' s1 Hi1 Hs HQ HE) as Hc.
  destruct (continue o _ _ s1) as [s2 o2]. destruct Hc as (? & ? & ?).
  split; [done|]. split; [by eapply Gtrans|done].
Qed.
(** What neither the others nor the method itself can undo may be carried along. *)
Lemma triple_frame {A} (F P : S -> Prop) (m : async A) (Q : A -> S -> Prop) (E : string -> S -> Prop) :
  (forall s s', R s s' -> I s' -> F s -> F s') -> (forall s s', G s s' -> I s' -> F s -> F s') ->
  triple P m Q E ->
  triple (fun s => P s /\ F s) m (fun a s => Q a s /\ F s) (fun e s => E e s /\ F s).
Proof.
  intros HR HG Hm s Hi [HP HF]. specialize (Hm s Hi HP). destruct (m s) as [s' o].
  destruct Hm as (Hi' & Hg & Hs). split; [done|]. split; [done|].
  assert (F s') as HF' by (by eapply HG). clear HF HP Hg Hi. revert s' Hi' Hs HF'.
  induction o as [a|e|ready c IH] using outcome_nested_ind; intros s' Hi' Hs HF'; cbn in *; [done..|].
  intros s1 HRs Hi1 Hr. specialize (Hs s1 HRs Hi1 Hr). specialize (IH s1).
  destruct (c s1) as [s2 o']. destruct Hs as (? & ? & ?). cbn [snd] in IH.
  split; [done|]. split; [done|]. apply IH; [done..|]. eapply HG; [done|done|]. by eapply HR.
Qed.
End Logic.

(** ** Soundness *)
Section Soundness.
Variable I : S -> Prop.
Variables R G : nat -> S -> S -> Prop.
Context (Rrefl : forall i s, R i s s) (Rtrans : forall i a b c, R i a b -> R i b c -> R i a c).
Context (compatible : forall i j s s', i <> j -> G j s s' -> R i s s').

Definition task_safe (i : nat) (o : outcome unit) (s : S) : Prop :=
  safe I (R i) (G i) o (fun _ _ => True) (fun _ _ => True) s.
Definition system_safe (sys : system) : Prop :=
  I sys.1 /\ forall i o, sys.2 !! i = Some o -> task_safe i o sys.1.

Lemma task_safe_rely i o s s' : R i s s' -> task_safe i o s -> task_safe i o s'.
Proof. intros HR. unfold task_safe. destruct o as [a|e|ready c]; cbn; [done..|]. intros Hs s1 Hs1. apply Hs. by eapply Rtrans. Qed.

Lemma step_safe sys sys' : step sys sys' -> system_safe sys -> system_safe sys'.
Proof.
  destruct 1 as [i s s' tasks ready c o' Hi Hr Hc]. intros [HI Hsafe]. cbn in *.
  pose proof (Hsafe i _ Hi s (Rrefl i s) HI Hr) as Hrun. rewrite Hc in Hrun. destruct Hrun as (HI' & Hg & Ho).
  split; [done|]. cbn. intros j o Hj. destruct (decide (i = j)) as [<-|Hne].
  - rewrite list_lookup_insert_eq in Hj by (by eapply lookup_lt_Some). by injection Hj as <-.
  - rewrite list_lookup_insert_ne in Hj by done. eapply task_safe_rely; [by eapply compatible|]. by apply Hsafe.
Qed.

Lemma steps_safe sys sys' : steps sys sys' -> system_safe sys -> system_safe sys'.
Proof. induction 1; eauto using step_safe. Qed.

(** The invariant holds after every schedule of safe methods. *)
Lemma run_invariant schedule sys : system_safe sys -> I (run schedule sys).1.
Proof. intros Hs. by apply (steps_safe sys _ (run_steps schedule sys)). Qed.

(** A method that has been called and has not run yet: with a list of these, a
    schedule decides when each event arrives. *)
Definition spawn (m : async unit) : outcome unit := Await (fun _ => true) m.

Lemma spawn_safe i m s :
  triple I (R i) (G i) (fun _ => True) m (fun _ _ => True) (fun _ _ => True) -> task_safe i (spawn m) s.
Proof. intros Hm s1 _ HI _. by apply Hm. Qed.
End Soundness.
End Async.

Arguments outcome : clear implicits.
Arguments async : clear implicits.
Arguments system : clear implicits.
Arguments Value {A} a.
Arguments Raised {A} e.
Arguments Stuck {A}.
Arguments Ret {S A} a.
Arguments Fail {S A} e.
Arguments Await {S A} ready k.

Declare Scope async_scope.
Delimit Scope async_scope with async.
Notation "'let*' x := m 'in' k" := (bind m (fun x => k))
  (at level 200, x pattern, m at level 200, k at level 200) : async_scope.
Notation "m ;;; k" := (bind m (fun _ => k)) (at level 100, right associativity) : async_scope.
