(* ===== verification/VerifiedTip.v ===== *)
(** * VerifiedTip: the durable last-verified block of a replica

    Models [src/src/client/verified_tip.js] with the paths of
    [src/src/client/sync.js] that use it: the walk over committed blocks
    ([verifyUnverifiedTail]), a live block ([applyAndVerifyBlock]), a reorg rollback
    ([applyReorgRollback]) and a catch-up pass ([runIncrementalCatchUp]).  Each is an
    asynchronous method over the shared client state: another method may run at
    every [await], the marker writes are served in call order, row changes are made
    under the apply lock, and walks run beside it.

    The database is the part of the state that a crash keeps ([rows], [marker],
    [legacy]); its replies may fail ([replies], an arbitrary list).  Three fields are
    bookkeeping for the statements and are never read by the code: [announced] (the
    hashes live events carried), [trusted] (history accepted unverified, as the
    first walk without a marker does by design) and [next] (the height the next
    block is expected at).  [odd] records that a run left the assumptions of the
    statements: a block landed out of order, or a read of the marker or of the old
    key was overtaken by another method's write. *)

From S2P Require Import Prelude Async.

#[local] Open Scope async_scope.

(** What the walk needs of a block: the hash its row commits (none while the row's
    ledger hash is unresolved) and the recomputation from the predecessor's committed
    hash and the rows ([BlockHasher.computeBlockHashes]). *)
Class BlockStore := {
  block : Type;
  digest : Type;
  digest_eq_dec :: EqDecision digest;
  committed : block -> option digest;
  recompute : option (option digest) -> option block -> digest;
}.

(** [_verifiedTip]: [undefined], [null] or a height. *)
Inductive tipv := Unset | Absent | At (n : Z).
#[global] Instance tipv_eq_dec : EqDecision tipv.
Proof. solve_decision. Defined.

Inductive verdict := VOk | VHalted | VHeld.
Inductive block_result := BOk | BUnresolved | BHeld | BHalt (reason : string).

(** A reply of the database, and the outcome of the stored state-hash check. *)
Inductive reply := Good | Fault | Differs.

Definition tip_of (m : option Z) : tipv := match m with Some n => At n | None => Absent end.

Section Client.
Context `{BlockStore}.

Record client := Client {
  verifiedTip : tipv;
  persistedTip : tipv;
  rowGen : Z;
  removals : Z;
  halted : bool;
  stopping : bool;
  lastApplied : option Z;
  rows : gmap Z block;
  marker : option Z;
  legacy : option Z;
  markerWrites : list nat;
  applyLock : list nat;
  tailVerify : bool;
  tailResults : list verdict;
  replies : list reply;
  announced : list (Z * digest);
  trusted : Z;
  next : Z;
  odd : bool }.

Definition set_verifiedTip (v : tipv) (s : client) : client :=
  Client v (persistedTip s) (rowGen s) (removals s) (halted s) (stopping s) (lastApplied s) (rows s) (marker s) (legacy s) (markerWrites s) (applyLock s) (tailVerify s) (tailResults s) (replies s) (announced s) (trusted s) (next s) (odd s).
Definition set_persistedTip (v : tipv) (s : client) : client :=
  Client (verifiedTip s) v (rowGen s) (removals s) (halted s) (stopping s) (lastApplied s) (rows s) (marker s) (legacy s) (markerWrites s) (applyLock s) (tailVerify s) (tailResults s) (replies s) (announced s) (trusted s) (next s) (odd s).
Definition set_rowGen (v : Z) (s : client) : client :=
  Client (verifiedTip s) (persistedTip s) v (removals s) (halted s) (stopping s) (lastApplied s) (rows s) (marker s) (legacy s) (markerWrites s) (applyLock s) (tailVerify s) (tailResults s) (replies s) (announced s) (trusted s) (next s) (odd s).
Definition set_removals (v : Z) (s : client) : client :=
  Client (verifiedTip s) (persistedTip s) (rowGen s) v (halted s) (stopping s) (lastApplied s) (rows s) (marker s) (legacy s) (markerWrites s) (applyLock s) (tailVerify s) (tailResults s) (replies s) (announced s) (trusted s) (next s) (odd s).
Definition set_halted (v : bool) (s : client) : client :=
  Client (verifiedTip s) (persistedTip s) (rowGen s) (removals s) v (stopping s) (lastApplied s) (rows s) (marker s) (legacy s) (markerWrites s) (applyLock s) (tailVerify s) (tailResults s) (replies s) (announced s) (trusted s) (next s) (odd s).
Definition set_stopping (v : bool) (s : client) : client :=
  Client (verifiedTip s) (persistedTip s) (rowGen s) (removals s) (halted s) v (lastApplied s) (rows s) (marker s) (legacy s) (markerWrites s) (applyLock s) (tailVerify s) (tailResults s) (replies s) (announced s) (trusted s) (next s) (odd s).
Definition set_lastApplied (v : option Z) (s : client) : client :=
  Client (verifiedTip s) (persistedTip s) (rowGen s) (removals s) (halted s) (stopping s) v (rows s) (marker s) (legacy s) (markerWrites s) (applyLock s) (tailVerify s) (tailResults s) (replies s) (announced s) (trusted s) (next s) (odd s).
Definition set_rows (v : gmap Z block) (s : client) : client :=
  Client (verifiedTip s) (persistedTip s) (rowGen s) (removals s) (halted s) (stopping s) (lastApplied s) v (marker s) (legacy s) (markerWrites s) (applyLock s) (tailVerify s) (tailResults s) (replies s) (announced s) (trusted s) (next s) (odd s).
Definition set_marker (v : option Z) (s : client) : client :=
  Client (verifiedTip s) (persistedTip s) (rowGen s) (removals s) (halted s) (stopping s) (lastApplied s) (rows s) v (legacy s) (markerWrites s) (applyLock s) (tailVerify s) (tailResults s) (replies s) (announced s) (trusted s) (next s) (odd s).
Definition set_legacy (v : option Z) (s : client) : client :=
  Client (verifiedTip s) (persistedTip s) (rowGen s) (removals s) (halted s) (stopping s) (lastApplied s) (rows s) (marker s) v (markerWrites s) (applyLock s) (tailVerify s) (tailResults s) (replies s) (announced s) (trusted s) (next s) (odd s).
Definition set_markerWrites (v : list nat) (s : client) : client :=
  Client (verifiedTip s) (persistedTip s) (rowGen s) (removals s) (halted s) (stopping s) (lastApplied s) (rows s) (marker s) (legacy s) v (applyLock s) (tailVerify s) (tailResults s) (replies s) (announced s) (trusted s) (next s) (odd s).
Definition set_applyLock (v : list nat) (s : client) : client :=
  Client (verifiedTip s) (persistedTip s) (rowGen s) (removals s) (halted s) (stopping s) (lastApplied s) (rows s) (marker s) (legacy s) (markerWrites s) v (tailVerify s) (tailResults s) (replies s) (announced s) (trusted s) (next s) (odd s).
Definition set_tailVerify (v : bool) (s : client) : client :=
  Client (verifiedTip s) (persistedTip s) (rowGen s) (removals s) (halted s) (stopping s) (lastApplied s) (rows s) (marker s) (legacy s) (markerWrites s) (applyLock s) v (tailResults s) (replies s) (announced s) (trusted s) (next s) (odd s).
Definition set_tailResults (v : list verdict) (s : client) : client :=
  Client (verifiedTip s) (persistedTip s) (rowGen s) (removals s) (halted s) (stopping s) (lastApplied s) (rows s) (marker s) (legacy s) (markerWrites s) (applyLock s) (tailVerify s) v (replies s) (announced s) (trusted s) (next s) (odd s).
Definition set_replies (v : list reply) (s : client) : client :=
  Client (verifiedTip s) (persistedTip s) (rowGen s) (removals s) (halted s) (stopping s) (lastApplied s) (rows s) (marker s) (legacy s) (markerWrites s) (applyLock s) (tailVerify s) (tailResults s) v (announced s) (trusted s) (next s) (odd s).
Definition set_announced (v : list (Z * digest)) (s : client) : client :=
  Client (verifiedTip s) (persistedTip s) (rowGen s) (removals s) (halted s) (stopping s) (lastApplied s) (rows s) (marker s) (legacy s) (markerWrites s) (applyLock s) (tailVerify s) (tailResults s) (replies s) v (trusted s) (next s) (odd s).
Definition set_trusted (v : Z) (s : client) : client :=
  Client (verifiedTip s) (persistedTip s) (rowGen s) (removals s) (halted s) (stopping s) (lastApplied s) (rows s) (marker s) (legacy s) (markerWrites s) (applyLock s) (tailVerify s) (tailResults s) (replies s) (announced s) v (next s) (odd s).
Definition set_next (v : Z) (s : client) : client :=
  Client (verifiedTip s) (persistedTip s) (rowGen s) (removals s) (halted s) (stopping s) (lastApplied s) (rows s) (marker s) (legacy s) (markerWrites s) (applyLock s) (tailVerify s) (tailResults s) (replies s) (announced s) (trusted s) v (odd s).
Definition set_odd (v : bool) (s : client) : client :=
  Client (verifiedTip s) (persistedTip s) (rowGen s) (removals s) (halted s) (stopping s) (lastApplied s) (rows s) (marker s) (legacy s) (markerWrites s) (applyLock s) (tailVerify s) (tailResults s) (replies s) (announced s) (trusted s) (next s) v.

(** ** Configuration

    [VERIFY_RANGE_BATCH] (at least one), the truncation join floor of the replica,
    and [VERIFY_STATE_HASH]. *)
Record config := Config { batch : Z; bootstrapBase : option Z; verifyStateHash : bool }.
Variable cfg : config.

Definition MARKER_WRITE_STEP : Z := 50.

Definition flag_odd (b : client -> bool) (s : client) : client := set_odd (odd s || b s) s.

(** ** The database *)
Definition pop : async client reply := fun s =>
  match replies s with
  | [] => (s, Ret Good)
  | r :: l => (set_replies l s, Ret r)
  end.

(** One asynchronous read: the value is taken at some point between the call and
    the continuation; [None] is a rejected read. *)
Definition dbRead {A} (f : client -> A) : async client (option A) :=
  yield ;;; let* r := pop in let* a := gets f in yield ;;; ret (match r with Good => Some a | _ => None end).

(** A strict write: it lands as [f] or fails ([false]). *)
Definition dbWrite (f : client -> client) : async client bool :=
  yield ;;; let* r := pop in
  match r with
  | Good => modify f ;;; yield ;;; ret true
  | _ => yield ;;; ret false
  end.
(** A fail-soft write: a query that fails outside a transaction is swallowed by
    [doQuery] and reported as written; only a write that could not be issued is
    reported as failed. *)
Definition softWrite (f : client -> client) : async client bool :=
  yield ;;; let* r := pop in
  match r with
  | Good => modify f ;;; yield ;;; ret true
  | Fault => yield ;;; ret true
  | Differs => yield ;;; ret false
  end.
(** [db.setSyncState(verified_tip, n)] *)
Definition setMarker (n : Z) : async client bool := softWrite (set_marker (Some n)).

Definition top (m : gmap Z block) : option Z :=
  map_fold (fun k _ acc => match acc with Some a => Some (Z.max a k) | None => Some k end) None m.
Definition getLastBlock : async client (option (option Z)) := dbRead (fun s => top (rows s)).

(** ** verified_tip.js *)
Definition loadVerifiedTip : async client unit :=
  let* raw := dbRead marker in
  match raw with
  | None => throw "verified_tip read failed"
  | Some raw =>
      modify (fun s => set_persistedTip (tip_of raw) (set_verifiedTip (tip_of raw)
        (flag_odd (fun s => negb (bool_decide (verifiedTip s = Unset)) || negb (bool_decide (marker s = raw))) s)))
  end.

Definition rowsChangedSince (generation : Z) (s : client) : bool :=
  negb (rowGen s =? generation) || (0 <? removals s).
Definition bumpRowGeneration (s : client) : client := set_rowGen (rowGen s + 1) s.

(** Serve [fn] after every earlier marker write. *)
Definition queueMarkerWrite {A} (i : nat) (fn : async client A) : async client A :=
  modify (fun s => set_markerWrites (markerWrites s ++ [i]) s) ;;;
  await_until (fun s => bool_decide (head (markerWrites s) = Some i)) ;;;
  finally fn (fun s => set_markerWrites (tail (markerWrites s)) s).

Definition writeVerifiedTip (n : Z) : async client unit :=
  let* written := setMarker n in
  if (written : bool) then modify (set_persistedTip (At n)) else ret tt.

Definition advanceVerifiedTip (i : nat) (n generation : Z) : async client unit :=
  queueMarkerWrite i (
    let* s := get in
    if rowsChangedSince generation s then ret tt
    else if match verifiedTip s with At m => n <=? m | _ => false end then ret tt
    else modify (set_verifiedTip (At n)) ;;; writeVerifiedTip n).

Definition noteVerifiedBlock (h : Z) (s : client) : client :=
  match verifiedTip s with
  | At m => if m <? h then set_verifiedTip (At h) s else s
  | _ => set_verifiedTip (At h) s
  end.

Definition persistVerifiedTip (i : nat) (generation : Z) : async client unit :=
  queueMarkerWrite i (
    let* s := get in
    if rowsChangedSince generation s then ret tt
    else match verifiedTip s with
         | At m => if bool_decide (persistedTip s = At m) then ret tt else writeVerifiedTip m
         | _ => ret tt
         end).

(** The lowered marker lands. *)
Definition lower_marker (n : Z) (s : client) : client :=
  set_marker (Some n)
    (flag_odd (fun s => (next s <=? n) || match verifiedTip s with At _ => false | _ => true end) s).

Definition lowerVerifiedTip (i : nat) (n : Z) : async client unit :=
  modify bumpRowGeneration ;;;
  let* s := get in
  (if bool_decide (verifiedTip s = Unset) then loadVerifiedTip else ret tt) ;;;
  queueMarkerWrite i (
    let* s := get in
    if match verifiedTip s with At m => m <=? n | _ => false end then ret tt
    else
      let* written := dbWrite (lower_marker n) in
      if (written : bool) then modify (fun s => set_persistedTip (At n) (set_verifiedTip (At n) s))
      else throw "verified_tip write failed").

Definition endRowRemoval (s : client) : client :=
  bumpRowGeneration (set_removals (Z.max 0 (removals s - 1)) s).
Definition beginRowRemoval (i : nat) (n : Z) : async client unit :=
  modify (fun s => set_removals (removals s + 1) (bumpRowGeneration s)) ;;;
  try_catch (lowerVerifiedTip i n) (fun e => modify endRowRemoval ;;; throw e).

Definition startVerifiedTipBelow (sinceBlock : Z) : async client unit :=
  modify (fun s => set_verifiedTip (At (sinceBlock - 1))
    (flag_odd (fun s => negb (bool_decide (rows s = ∅)) || negb (next s =? sinceBlock) || (0 <? removals s)) s)).

Definition verifiedThroughLastApplied (s : client) : bool :=
  match verifiedTip s, lastApplied s with At m, Some n => m =? n | _, _ => false end.

(** ** Recomputing a committed block (client/sync.js) *)

(** The hash the predecessor's row commits; [None] when there is no such row. *)
Definition pred_hash (m : gmap Z block) (h : Z) : option (option digest) := committed <$> m !! (h - 1).

(** Up to three attempts with a sleep in between. *)
Definition retry3 {A} (m : async client (option A)) : async client (option A) :=
  let* a := m in
  match a with
  | Some x => ret (Some x)
  | None => yield ;;; let* b := m in
            match b with
            | Some x => ret (Some x)
            | None => yield ;;; m
            end
  end.

(** [blockHasher.computeBlockHashes(h)]: the rows of the block, then the hash of its
    predecessor, in separate reads. *)
Definition computeHash (h : Z) : async client (option digest) :=
  let* b := dbRead (fun s => rows s !! h) in
  match b with
  | None => ret None
  | Some b =>
      let* p := dbRead (fun s => pred_hash (rows s) h) in
      ret (match p with None => None | Some p => Some (recompute p b) end)
  end.

(** [verifyRecompute] of a bulk-applied block: [None] when the recomputation failed,
    else whether it matched. *)
Definition verifyRecompute (h : Z) (expected : digest) : async client (option bool) :=
  if bool_decide (bootstrapBase cfg = Some h) then ret (Some true)
  else let* d := retry3 (computeHash h) in
       ret (match d with None => None | Some d => Some (bool_decide (d = expected)) end).

Definition evaluateStoredStateHash : async client block_result :=
  if negb (verifyStateHash cfg) then ret BOk
  else yield ;;; let* r := pop in yield ;;;
       ret (match r with Good => BOk | Differs => BHalt "state-hash-divergence" | Fault => BHeld end).

Definition evaluateCommittedBlock (h : Z) (atTip : bool) : async client block_result :=
  let* c := retry3 (dbRead (fun s => committed <$> rows s !! h)) in
  match c with
  | None => ret (BHalt "boundary-read-error")
  | Some None | Some (Some None) => ret BUnresolved
  | Some (Some (Some expected)) =>
      let* m := verifyRecompute h expected in
      match m with
      | None => ret (BHalt "recompute-error")
      | Some false => ret (BHalt "local-recompute-divergence")
      | Some true => if atTip then evaluateStoredStateHash else ret BOk
      end
  end.

Definition haltOnDivergence : async client unit :=
  let* s := get in if halted s then ret tt else modify (set_halted true) ;;; yield.

(** ** The walk *)
Definition settleUnverifiedBlock (r : block_result) : async client verdict :=
  match r with
  | BHalt _ => haltOnDivergence ;;; ret VHalted
  | _ => ret VHeld
  end.

(** Blocks [h .. h+n-1] of the window that starts at [lo]. *)
Fixpoint windowLoop (i : nat) (n : nat) (h lo tip generation : Z) : async client verdict :=
  match n with
  | O =>
      persistVerifiedTip i generation ;;;
      let* s := get in ret (if rowsChangedSince generation s then VHeld else VOk)
  | S n' =>
      let* s := get in
      if rowsChangedSince generation s then ret VHeld
      else
        let* r := evaluateCommittedBlock h (h =? tip) in
        let* s := get in
        if rowsChangedSince generation s then ret VHeld
        else match r with
             | BOk =>
                 modify (noteVerifiedBlock h) ;;;
                 (if (h - lo + 1) mod MARKER_WRITE_STEP =? 0 then persistVerifiedTip i generation else ret tt) ;;;
                 windowLoop i n' (h + 1) lo tip generation
             | _ => persistVerifiedTip i generation ;;; settleUnverifiedBlock r
             end
  end.
Definition verifyCommittedWindow (i : nat) (lo hi tip generation : Z) : async client verdict :=
  windowLoop i (Z.to_nat (hi - lo + 1)) lo lo tip generation.

(** The windows from [lo]; one block a window is the slowest, so the number of
    blocks bounds the number of windows. *)
Fixpoint rangeLoop (i : nat) (n : nat) (lo stop generation : Z) : async client verdict :=
  match n with
  | O => ret VOk
  | S n' =>
      if stop <? lo then ret VOk
      else
        let hi := Z.min (lo + batch cfg - 1) stop in
        let* v := verifyCommittedWindow i lo hi stop generation in
        match v with
        | VOk =>
            if hi <? stop then
              let* s := get in
              if stopping s then ret VHeld else yield ;;; rangeLoop i n' (lo + batch cfg) stop generation
            else rangeLoop i n' (lo + batch cfg) stop generation
        | _ => ret v
        end
  end.
Definition verifyCommittedRange (i : nat) (start stop generation : Z) : async client verdict :=
  rangeLoop i (Z.to_nat (stop - start + 1) + 1) start stop generation.

(** The first walk without a marker: stored history below the tip (or below the
    block an earlier build left pending) is trusted. *)
Definition seedVerifiedTip (tip generation : Z) : async client unit :=
  let* l := dbRead legacy in
  let start := match l with Some (Some l) => Z.min l tip | _ => tip end in
  modify (fun s => set_verifiedTip (At (start - 1)) (set_trusted (Z.max (trusted s) (start - 1))
    (flag_odd (fun s => rowsChangedSince generation s || negb (bool_decide (verifiedTip s = Absent))) s))).

Definition dropLegacyPendingMarker : async client unit := softWrite (set_legacy None) ;;; ret tt.

Definition walk_start (m : Z) : Z :=
  match bootstrapBase cfg with Some b => Z.max (m + 1) b | None => m + 1 end.

Definition walkUnverifiedTail (i : nat) : async client verdict :=
  let* s := get in
  let generation := rowGen s in
  if rowsChangedSince generation s then ret VHeld
  else
    let* tip := getLastBlock in
    match tip with
    | None => ret VHeld
    | Some None => ret VOk
    | Some (Some tip) =>
        let* ready := try_catch
          (let* s := get in
           (if bool_decide (verifiedTip s = Unset) then loadVerifiedTip else ret tt) ;;;
           let* s := get in
           match verifiedTip s with
           | At m => if tip <? m then seedVerifiedTip tip generation ;;; ret (Some true) else ret (Some false)
           | _ => seedVerifiedTip tip generation ;;; ret (Some true)
           end)
          (fun _ => ret None) in
        match ready with
        | None => ret VHeld
        | Some seeded =>
            let* s := get in
            let start := walk_start (match verifiedTip s with At m => m | _ => -1 end) in
            if tip <? start then ret VOk
            else
              let* v := verifyCommittedRange i start tip generation in
              match v with
              | VOk => (if (seeded : bool) then dropLegacyPendingMarker else ret tt) ;;; ret VOk
              | _ => ret v
              end
        end
    end.

(** Concurrent callers share one walk: a caller that finds one in flight waits for
    its result. *)
Definition verifyUnverifiedTail (i : nat) : async client verdict :=
  let* s := get in
  if halted s then ret VHalted
  else if tailVerify s then
    let k := length (tailResults s) in
    await_until (fun s => Nat.ltb k (length (tailResults s))) ;;;
    let* s := get in ret (default VHeld (tailResults s !! k))
  else
    modify (set_tailVerify true) ;;;
    let* v := walkUnverifiedTail i in
    modify (fun s => set_tailVerify false (set_tailResults (tailResults s ++ [v]) s)) ;;;
    yield ;;; ret v.

(** ** The callers (client/sync.js) *)
Definition withApplyLock {A} (i : nat) (fn : async client A) : async client A :=
  modify (fun s => set_applyLock (applyLock s ++ [i]) s) ;;;
  await_until (fun s => bool_decide (head (applyLock s) = Some i)) ;;;
  finally fn (fun s => set_applyLock (tail (applyLock s)) s).

(** Rows landing at [n], the height after it being expected next. *)
Definition commit (n : Z) (b : block) (s : client) : client :=
  set_rows (<[n := b]> (rows s)) (set_next (n + 1)
    (flag_odd (fun s => negb (next s =? n) || match bootstrapBase cfg with Some b => n <? b | None => false end) s)).

(** [applier.applyBlock]: a block already stored is skipped; the transaction lands
    as a whole or not at all. *)
Definition applyBlock (n : Z) (b : block) : async client unit :=
  let* existing := dbRead (fun s => rows s !! n) in
  match existing with
  | None => throw "block row read failed"
  | Some (Some _) => ret tt
  | Some None =>
      yield ;;; let* r := pop in
      match r with
      | Good => modify (commit n b) ;;; yield
      | _ => yield ;;; throw "block apply failed"
      end
  end.

Record live_event := LiveEvent { ev_block : Z; ev_rows : block; ev_hash : digest }.

Definition liveBlockBlockedByUnverifiedTail (i : nat) : async client bool :=
  let* s := get in
  if verifiedThroughLastApplied s then ret false
  else let* v := verifyUnverifiedTail i in ret (match v with VOk => false | _ => true end).

(** The checks after the recomputation (state hash, state-commitment roots): each
    passes, halts or throws. *)
Definition liveCheck : async client bool :=
  yield ;;; let* r := pop in
  match r with
  | Good => yield ;;; ret false
  | Differs => haltOnDivergence ;;; ret true
  | Fault => yield ;;; throw "check failed"
  end.

Definition applyAndVerifyBlock (i : nat) (ev : live_event) : async client unit :=
  let* s := get in
  if halted s then ret tt
  else
    yield ;;;
    let* blocked := liveBlockBlockedByUnverifiedTail i in
    if (blocked : bool) then ret tt
    else
      let* generation := gets rowGen in
      modify (fun s => set_announced ((ev_block ev, ev_hash ev) :: announced s)
        (flag_odd (fun s => negb (bool_decide (verifiedTip s = At (ev_block ev - 1)))) s)) ;;;
      try_catch
        (withApplyLock i (applyBlock (ev_block ev) (ev_rows ev)) ;;;
         let* d := (if bool_decide (bootstrapBase cfg = Some (ev_block ev)) then ret (Some true)
                    else let* d := computeHash (ev_block ev) in
                         ret (match d with None => None | Some d => Some (bool_decide (d = ev_hash ev)) end)) in
         match d with
         | None => throw "recompute failed"
         | Some false => haltOnDivergence
         | Some true =>
             let* h1 := liveCheck in
             if (h1 : bool) then ret tt
             else
               let* h2 := liveCheck in
               if (h2 : bool) then ret tt
               else modify (set_lastApplied (Some (ev_block ev))) ;;;
                    advanceVerifiedTip i (ev_block ev) generation
         end)
        (fun _ => ret tt).

(** [rollback.rollback(n)]: the rows of blocks at or above [n] go in any number of
    steps ([partial] says which blocks each leaves). *)
Definition delete_from (n : Z) (keep : Z -> bool) (s : client) : client :=
  set_trusted (Z.min (trusted s) (n - 1))
    (set_rows (filter (fun p => p.1 < n \/ keep p.1 = true) (rows s)) s).
Fixpoint rollbackRows (n : Z) (partial : list (Z -> bool)) : async client unit :=
  match partial with
  | [] =>
      yield ;;; let* r := pop in
      match r with
      | Good => modify (fun s => set_next (Z.min (next s) n) (delete_from n (fun _ => false) s)) ;;; yield
      | _ => yield ;;; throw "rollback failed"
      end
  | keep :: rest => yield ;;; modify (delete_from n keep) ;;; rollbackRows n rest
  end.

Definition applyReorgRollback (i : nat) (n : Z) (partial : list (Z -> bool)) : async client unit :=
  try_catch
    (let* applied := withApplyLock i (
       let* s := get in
       if halted s then ret false
       else beginRowRemoval i (n - 1) ;;; finally (rollbackRows n partial) endRowRemoval ;;; ret true) in
     if (applied : bool) then modify (set_lastApplied (Some (n - 1))) else ret tt)
    (fun _ => haltOnDivergence).

Fixpoint commit_range (n : Z) (bs : list block) (s : client) : client :=
  match bs with
  | [] => s
  | b :: rest => commit_range (n + 1) rest (commit n b s)
  end.

(** A catch-up pass over the blocks [download since] a source serves. *)
Definition runIncrementalCatchUp (i : nat) (download : Z -> list block) : async client unit :=
  let* dbTip := getLastBlock in
  match dbTip with
  | None => ret tt
  | Some dbTip =>
      let sinceBlock := default 0 dbTip + 1 in
      let* v := match dbTip with
                | None => startVerifiedTipBelow sinceBlock ;;; ret VOk
                | Some _ => verifyUnverifiedTail i
                end in
      match v with
      | VOk =>
          yield ;;;
          try_catch
            (withApplyLock i (
               yield ;;; let* r := pop in
               match r with
               | Good => modify (commit_range sinceBlock (download sinceBlock)) ;;; yield
               | _ => yield ;;; throw "snapshot apply failed"
               end) ;;;
             modify (set_lastApplied (Some (sinceBlock + Z.of_nat (length (download sinceBlock)) - 1))) ;;;
             let* _ := verifyUnverifiedTail i in ret tt)
            (fun _ => ret tt)
      | _ => ret tt
      end
  end.

(** ** Events, runs and restarts *)
Inductive event :=
| Walk
| Live (ev : live_event)
| Reorg (n : Z) (partial : list (Z -> bool))
| CatchUp (download : Z -> list block).

Definition method_of (i : nat) (e : event) : async client unit :=
  match e with
  | Walk => verifyUnverifiedTail i ;;; ret tt
  | Live ev => applyAndVerifyBlock i ev
  | Reorg n partial => applyReorgRollback i n partial
  | CatchUp download => runIncrementalCatchUp i download
  end.

(** A process start: the database survives, the memory does not. *)
Definition restart (halt : bool) (cursor : option Z) (rs : list reply) (s : client) : client :=
  Client Unset Unset 0 0 halt false cursor (rows s) (marker s) (legacy s) [] [] false [] rs
    (announced s) (trusted s) (next s) (odd s).

(** One life of the process: the events it receives and a schedule of their parts,
    up to a crash. *)
Record epoch := Epoch { ep_halted : bool; ep_cursor : option Z; ep_replies : list reply;
                        ep_events : list event; ep_schedule : list nat }.
Definition run_epoch (e : epoch) (s : client) : client :=
  (run (ep_schedule e) (restart (ep_halted e) (ep_cursor e) (ep_replies e) s,
                        imap (fun i ev => spawn (method_of i ev)) (ep_events e))).1.
Definition run_epochs (es : list epoch) (s : client) : client := fold_left (fun s e => run_epoch e s) es s.

(** ** What the marker promises *)

(** The stored rows of block [h], if any, are trusted history, the join block, or
    reproduce the hash their row commits or a live event announced. *)
Definition vouched (s : client) (h : Z) : Prop :=
  forall b, rows s !! h = Some b ->
  h <= trusted s \/ bootstrapBase cfg = Some h
  \/ committed b = Some (recompute (pred_hash (rows s) h) (Some b))
  \/ (h, recompute (pred_hash (rows s) h) (Some b)) ∈ announced s.
Definition upto (s : client) (n : Z) : Prop := forall h, h <= n -> vouched s h.

Record sound (s : client) : Prop := {
  i_mem : forall m, verifiedTip s = At m -> upto s m;
  i_dur : forall d, marker s = Some d -> upto s d;
  i_rows : forall h, is_Some (rows s !! h) -> h < next s;
  i_base : forall b h, bootstrapBase cfg = Some b -> h < b -> rows s !! h = None;
  i_memlt : forall m, verifiedTip s = At m -> m < next s;
  i_durlt : forall d, marker s = Some d -> d < next s;
  i_order : forall d m, marker s = Some d -> verifiedTip s = At m -> d <= m;
  i_rem : 0 <= removals s;
  i_absent : verifiedTip s = Absent -> marker s = None;
}.
Definition INV (s : client) : Prop := odd s = false -> sound s.

(** ** Interference *)

(** What every part of every method keeps. *)
Record keeps (s s' : client) : Prop := {
  k_gen : rowGen s <= rowGen s';
  k_odd : odd s = true -> odd s' = true;
  k_ann : forall x, x ∈ announced s -> x ∈ announced s';
  k_rem : rowGen s' = rowGen s -> removals s' = removals s;
  k_rows : rowGen s' = rowGen s -> removals s = 0 -> odd s' = false ->
    next s <= next s' /\ trusted s <= trusted s' /\ forall h, h < next s -> rows s' !! h = rows s !! h;
  k_tip : odd s' = false -> (exists m, verifiedTip s = At m) -> exists m, verifiedTip s' = At m;
}.

(** Both markers are at or below [n]. *)
Definition capped (n : Z) (s : client) : Prop :=
  (exists m, verifiedTip s = At m /\ m <= n) /\ forall d, marker s = Some d -> d <= n.

(** What the holder [j] of the apply lock can rely on. *)
Definition lock_kept (j : nat) (s s' : client) : Prop :=
  head (applyLock s) = Some j ->
  head (applyLock s') = Some j /\ rows s' = rows s /\ removals s' = removals s /\ next s' = next s
  /\ (0 < removals s -> odd s' = false ->
      (verifiedTip s <> Unset -> verifiedTip s' = verifiedTip s) /\ forall n, capped n s -> capped n s').
(** What the marker write [j] being served can rely on. *)
Definition queue_kept (j : nat) (s s' : client) : Prop :=
  head (markerWrites s) = Some j ->
  head (markerWrites s') = Some j /\ marker s' = marker s
  /\ (odd s' = false -> forall m, verifiedTip s = At m -> exists m', verifiedTip s' = At m' /\ m <= m').

Definition rely (i : nat) (s s' : client) : Prop := keeps s s' /\ lock_kept i s s' /\ queue_kept i s s'.
Definition guarantee (i : nat) (s s' : client) : Prop :=
  keeps s s' /\ forall j, j <> i -> lock_kept j s s' /\ queue_kept j s s'.

Lemma keeps_refl s : keeps s s.
Proof. split; auto; lia || (intros; split_and!; auto; lia). Qed.

Lemma keeps_trans a b c : keeps a b -> keeps b c -> keeps a c.
Proof.
  intros [G1 O1 A1 M1 R1 T1] [G2 O2 A2 M2 R2 T2]. split; auto; [lia| | |].
  - intros He. rewrite M2, M1 by lia. done.
  - intros He Hz Ho. assert (odd b = false) as Hb by (destruct (odd b); [by rewrite O2 in Ho|done]).
    destruct R1 as (? & ? & Hr1); [lia|done..|]. destruct R2 as (? & ? & Hr2); [lia|rewrite M1 by lia; done|done|].
    split_and!; [lia..|]. intros h Hh. rewrite Hr2 by lia. auto.
  - intros Ho Hn. apply T2; [done|]. apply T1; [|done]. destruct (odd b); [by rewrite O2 in Ho|done].
Qed.

Lemma lock_kept_refl j s : lock_kept j s s.
Proof. intros Hj. split_and!; auto. Qed.
Lemma lock_kept_trans j a b c : keeps b c -> lock_kept j a b -> lock_kept j b c -> lock_kept j a c.
Proof.
  intros Hk H1 H2 Hj. destruct (H1 Hj) as (Hb & Er & Em & En & Hc1). destruct (H2 Hb) as (Hc & Er' & Em' & En' & Hc2).
  split_and!; [done|congruence..|]. intros Hp Ho.
  assert (odd b = false) as Hob by (destruct (odd b) eqn:E; [by rewrite (k_odd _ _ Hk E) in Ho|done]).
  destruct (Hc1 Hp Hob) as [V1 C1]. destruct (Hc2 ltac:(rewrite Em; done) Ho) as [V2 C2].
  split; [|auto]. intros Hu. rewrite V2; [auto|]. by rewrite V1.
Qed.
Lemma queue_kept_refl j s : queue_kept j s s.
Proof. intros Hj. split_and!; eauto with lia. Qed.
Lemma queue_kept_trans j a b c : keeps b c -> queue_kept j a b -> queue_kept j b c -> queue_kept j a c.
Proof.
  intros Hk H1 H2 Hj. destruct (H1 Hj) as (Hb & Er & V1). destruct (H2 Hb) as (Hc & Er' & V2).
  split_and!; [done|congruence|]. intros Ho m Hm.
  assert (odd b = false) as Hob by (destruct (odd b) eqn:E; [by rewrite (k_odd _ _ Hk E) in Ho|done]).
  destruct (V1 Hob m Hm) as (m1 & Hm1 & ?). destruct (V2 Ho m1 Hm1) as (m2 & Hm2 & ?). exists m2. split; [done|lia].
Qed.

Lemma rely_refl i s : rely i s s.
Proof. split_and!; [apply keeps_refl|apply lock_kept_refl|apply queue_kept_refl]. Qed.
Lemma rely_trans i a b c : rely i a b -> rely i b c -> rely i a c.
Proof.
  intros (K1 & L1 & Q1) (K2 & L2 & Q2). split_and!; [by eapply keeps_trans|by eapply lock_kept_trans|by eapply queue_kept_trans].
Qed.
Lemma guarantee_refl i s : guarantee i s s.
Proof. split; [apply keeps_refl|]. intros j _. split; [apply lock_kept_refl|apply queue_kept_refl]. Qed.
Lemma guarantee_trans i a b c : guarantee i a b -> guarantee i b c -> guarantee i a c.
Proof.
  intros [K1 H1] [K2 H2]. split; [by eapply keeps_trans|]. intros j Hj.
  destruct (H1 j Hj), (H2 j Hj). split; [by eapply lock_kept_trans|by eapply queue_kept_trans].
Qed.
Lemma guarantee_rely i j s s' : i <> j -> guarantee j s s' -> rely i s s'.
Proof. intros Hij [K HK]. destruct (HK i Hij). by split_and!. Qed.
End Client.
