(* ===== verification/VerifiedTipSound.v ===== *)
(** * VerifiedTipSound: the marker vouches only for verified blocks

    The rely-guarantee proofs of the methods of [VerifiedTip].  Every uninterrupted
    part of every method keeps the invariant [INV]; the generation protocol of
    [verified_tip.js] enters as [since]: a fact about rows read since generation [g]
    holds as long as the generation has not moved and no removal is in flight.
    [verified_tip_sound] is the result, for every schedule of walks, live blocks,
    rollbacks and catch-up passes and for every sequence of crashes and restarts. *)

From S2P Require Import Prelude Async VerifiedTip.

Section Sound.
Context `{BlockStore}.
Variable cfg : config.

Notation spec i := (triple (INV cfg) (rely i) (guarantee i)).

Lemma spec_bind {A B} i P (m : async client A) (k : A -> async client B) Q Q' E :
  spec i P m Q E -> (forall a, spec i (Q a) (k a) Q' E) -> spec i P (bind m k) Q' E.
Proof. apply triple_bind; [apply guarantee_refl|apply guarantee_trans]. Qed.
Lemma spec_seq {A B} i P (m : async client A) (k : async client B) (Q : client -> Prop) Q' E :
  spec i P m (fun _ => Q) E -> spec i Q k Q' E -> spec i P (bind m (fun _ => k)) Q' E.
Proof. intros Hm Hk. eapply spec_bind; [exact Hm|]. done. Qed.
Lemma spec_conseq {A} i (P P' : client -> Prop) (m : async client A) (Q Q' : A -> client -> Prop) (E E' : string -> client -> Prop) :
  spec i P m Q E -> (forall s, INV cfg s -> P' s -> P s) -> (forall a s, INV cfg s -> Q a s -> Q' a s) ->
  (forall e s, INV cfg s -> E e s -> E' e s) -> spec i P' m Q' E'.
Proof. apply triple_conseq. Qed.
Lemma spec_pre {A} i (P P' : client -> Prop) (m : async client A) Q E :
  spec i P m Q E -> (forall s, INV cfg s -> P' s -> P s) -> spec i P' m Q E.
Proof. intros Hm HP. by eapply spec_conseq. Qed.
Lemma spec_try {A} i P (m : async client A) h Q E E' :
  spec i P m Q E -> (forall e, spec i (E e) (h e) Q E') -> spec i P (try_catch m h) Q E'.
Proof. apply triple_try; [apply guarantee_refl|apply guarantee_trans]. Qed.

(** An assertion the others cannot invalidate. *)
Definition stable (i : nat) (P : client -> Prop) : Prop := forall s s', rely i s s' -> INV cfg s' -> P s -> P s'.
(** An assertion no method can invalidate. *)
Definition kept (F : client -> Prop) : Prop := forall s s', keeps s s' -> INV cfg s' -> F s -> F s'.

Lemma kept_stable i F : kept F -> stable i F.
Proof. intros HF s s' (HK & _) Hi. by apply HF. Qed.
Lemma stable_and i P Q : stable i P -> stable i Q -> stable i (fun s => P s /\ Q s).
Proof. intros HP HQ s s' HR Hi [? ?]. split; eauto. Qed.
Lemma kept_and P Q : kept P -> kept Q -> kept (fun s => P s /\ Q s).
Proof. intros HP HQ s s' HR Hi [? ?]. split; eauto. Qed.
Lemma kept_True : kept (fun _ => True).
Proof. done. Qed.
Lemma kept_pure (P : Prop) : kept (fun _ => P).
Proof. intros s s' _ _ HP. exact HP. Qed.

Lemma spec_frame {A} i (F P : client -> Prop) (m : async client A) Q E : kept F -> spec i P m Q E ->
  spec i (fun s => P s /\ F s) m (fun a s => Q a s /\ F s) (fun e s => E e s /\ F s).
Proof.
  intros HF. apply triple_frame.
  - intros s s' (HK & _). by apply HF.
  - intros s s' (HK & _). by apply HF.
Qed.

Lemma spec_ret {A} i (a : A) (Q : A -> client -> Prop) E : spec i (Q a) (ret a) Q E.
Proof. intros s Hi HQ. cbn. split_and!; [done|apply guarantee_refl|done]. Qed.
Lemma spec_throw {A} i e (Q : A -> client -> Prop) (E : string -> client -> Prop) : spec i (E e) (throw e) Q E.
Proof. intros s Hi HQ. cbn. split_and!; [done|apply guarantee_refl|done]. Qed.
Lemma spec_gets {A} i (f : client -> A) (P : client -> Prop) E : spec i P (gets f) (fun a s => P s /\ f s = a) E.
Proof. intros s Hi HQ. cbn. split_and!; [done|apply guarantee_refl|done..]. Qed.
Lemma spec_get i (P : client -> Prop) E : spec i P get (fun a s => P s /\ s = a) E.
Proof. intros s Hi HQ. cbn. split_and!; [done|apply guarantee_refl|done..]. Qed.
Lemma spec_await i ready P E : stable i P -> spec i P (await_until ready) (fun _ s => P s /\ ready s = true) E.
Proof. intros HP s Hi Hs. cbn. split_and!; [done|apply guarantee_refl|]. intros s1 HR Hi1 Hr. split_and!; [done|apply guarantee_refl|by eapply HP|done]. Qed.
Lemma spec_yield i P E : stable i P -> spec i P yield (fun _ => P) E.
Proof. intros HP. eapply spec_conseq; [by apply spec_await|done|by intros ? ? ? [? _]|done]. Qed.
Lemma spec_modify i f P (Q : unit -> client -> Prop) E :
  (forall s, INV cfg s -> P s -> INV cfg (f s) /\ guarantee i s (f s) /\ Q tt (f s)) -> spec i P (modify f) Q E.
Proof. intros Hf s Hi HP. cbn. apply Hf; done. Qed.

(** ** Updates of the fields the invariant does not read *)
Definition same_core (s s' : client) : Prop :=
  verifiedTip s' = verifiedTip s /\ rowGen s' = rowGen s /\ removals s' = removals s /\ rows s' = rows s
  /\ marker s' = marker s /\ announced s' = announced s /\ trusted s' = trusted s /\ next s' = next s /\ odd s' = odd s.

Lemma same_core_inv s s' : same_core s s' -> INV cfg s -> INV cfg s'.
Proof.
  intros (E1 & E2 & E3 & E4 & E5 & E6 & E7 & E8 & E9) Hi Ho. destruct Hi as [A B C D F K L M N]; [congruence|].
  split; unfold upto, vouched in *; rewrite ?E1, ?E2, ?E3, ?E4, ?E5, ?E6, ?E7, ?E8; auto.
Qed.
Lemma same_core_keeps s s' : same_core s s' -> keeps s s'.
Proof.
  intros (E1 & E2 & E3 & E4 & E5 & E6 & E7 & E8 & E9).
  split; rewrite ?E1, ?E2, ?E3, ?E4, ?E6, ?E7, ?E8, ?E9; auto; try lia. intros. split_and!; auto; lia.
Qed.
Lemma same_core_guarantee i s s' : same_core s s' ->
  (forall j, j <> i -> head (applyLock s) = Some j -> head (applyLock s') = Some j) ->
  (forall j, j <> i -> head (markerWrites s) = Some j -> head (markerWrites s') = Some j) -> guarantee i s s'.
Proof.
  intros HS HL HQ. split; [by apply same_core_keeps|]. destruct HS as (E1 & E2 & E3 & E4 & E5 & E6 & E7 & E8 & E9).
  intros j Hj. split; intros Hh; unfold capped; rewrite ?E1, ?E3, ?E4, ?E5, ?E8; split_and!; eauto with lia.
Qed.
Lemma spec_core i f P : (forall s, same_core s (f s) /\ applyLock (f s) = applyLock s /\ markerWrites (f s) = markerWrites s) ->
  (forall s, P s -> P (f s)) -> forall E, spec i P (modify f) (fun _ => P) E.
Proof.
  intros Hf HP E. apply spec_modify. intros s Hi Hs. destruct (Hf s) as (Hc & Hl & Hq).
  split_and!; [by eapply same_core_inv| |auto]. apply same_core_guarantee; [done|by rewrite Hl|by rewrite Hq].
Qed.

(** Assertions that survive the others and the bookkeeping of one's own. *)
Definition insensitive (P : client -> Prop) : Prop := forall s s', same_core s s' ->
  applyLock s' = applyLock s -> markerWrites s' = markerWrites s -> INV cfg s' -> P s -> P s'.
Definition steady (i : nat) (P : client -> Prop) : Prop := stable i P /\ insensitive P.

Lemma kept_steady i F : kept F -> steady i F.
Proof. intros HF. split; [by apply kept_stable|]. intros s s' Hc _ _ Hi. apply HF; [by apply same_core_keeps|done]. Qed.
Lemma steady_and i P Q : steady i P -> steady i Q -> steady i (fun s => P s /\ Q s).
Proof. intros [? HP] [? HQ]. split; [by apply stable_and|]. intros s s' ? ? ? ? [? ?]. split; eauto. Qed.

(** Holding the apply lock, and being the marker write that is served. *)
Definition has_lock (i : nat) (s : client) : Prop := head (applyLock s) = Some i.
Definition served (i : nat) (s : client) : Prop := head (markerWrites s) = Some i.

Lemma has_lock_steady i : steady i (has_lock i).
Proof. split; [intros s s' (_ & HL & _) _ Hh; by apply HL|]. intros s s' _ Hl _ _. unfold has_lock. by rewrite Hl. Qed.
Lemma served_steady i : steady i (served i).
Proof. split; [intros s s' (_ & _ & HQ) _ Hh; by apply HQ|]. intros s s' _ _ Hl _. unfold served. by rewrite Hl. Qed.

Lemma odd_back s s' : keeps s s' -> odd s' = false -> odd s = false.
Proof. intros HK Ho. destruct (odd s) eqn:E; [|done]. by rewrite (k_odd _ _ HK E) in Ho. Qed.

(** A removal of one's own, under the lock. *)
Definition removing (i : nat) (s : client) : Prop := has_lock i s /\ (odd s = false -> 0 < removals s).
Lemma removing_steady i : steady i (removing i).
Proof.
  split.
  - intros s s' (HK & HL & _) _ [Hh Hr]. destruct (HL Hh) as (? & _ & Em & _). split; [done|]. rewrite Em.
    intros Ho. apply Hr. by eapply odd_back.
  - intros s s' Hc Hl _ _ [Hh Hr]. unfold removing, has_lock. destruct Hc as (_ & _ & -> & _ & _ & _ & _ & _ & ->). by rewrite Hl.
Qed.

(** A removal with both markers lowered to [n]. *)
Definition lowered (i : nat) (n : Z) (s : client) : Prop := removing i s /\ (odd s = false -> capped n s).
Lemma lowered_steady i n : steady i (lowered i n).
Proof.
  split.
  - intros s s' (HK & HL & HQ) Hi [Hr Hc]. split; [by apply (proj1 (removing_steady i) s s')|].
    intros Ho. destruct Hr as [Hh Hr]. destruct (HL Hh) as (_ & _ & _ & _ & Hcap).
    pose proof (odd_back _ _ HK Ho) as Ho'. apply Hcap; auto.
  - intros s s' Hcore Hl Hm Hi [Hr Hc]. split; [by apply (proj2 (removing_steady i) s s')|].
    destruct Hcore as (E1 & _ & _ & _ & E5 & _ & _ & _ & E9). rewrite E9. unfold capped. by rewrite E1, E5.
Qed.

(** The marker write being served may write [v]: the marker in memory covers it. *)
Definition writable (i : nat) (v : Z) (s : client) : Prop :=
  served i s /\ (odd s = false -> exists m, verifiedTip s = At m /\ v <= m).
Lemma writable_steady i v : steady i (writable i v).
Proof.
  split.
  - intros s s' (HK & _ & HQ) _ [Hh Hm]. destruct (HQ Hh) as (Hh' & _ & Hup). split; [done|]. intros Ho.
    destruct (Hm (odd_back _ _ HK Ho)) as (m & Hv & ?). destruct (Hup Ho m Hv) as (m' & ? & ?). exists m'. split; [done|lia].
  - intros s s' Hcore _ Hl _ [Hh Hm]. unfold writable, served. rewrite Hl.
    destruct Hcore as (-> & _ & _ & _ & _ & _ & _ & _ & ->). done.
Qed.

(** A fact about the rows since generation [g]: it holds while the generation has
    not moved and no removal is in flight. *)
Definition since (g : Z) (F : client -> Prop) (s : client) : Prop :=
  g <= rowGen s /\ (odd s = false -> rowsChangedSince g s = false -> F s).
(** Facts that only depend on stored blocks below the next height. *)
Definition settled (F : client -> Prop) : Prop := forall s s',
  next s <= next s' -> trusted s <= trusted s' -> (forall x, x ∈ announced s -> x ∈ announced s') ->
  (forall h, h < next s -> rows s' !! h = rows s !! h) -> sound cfg s' -> F s -> F s'.

Lemma unchanged_iff g s : rowsChangedSince g s = false <-> rowGen s = g /\ removals s <= 0.
Proof. unfold rowsChangedSince. rewrite orb_false_iff, negb_false_iff, Z.eqb_eq, Z.ltb_ge. done. Qed.

Lemma since_kept g F : settled F -> kept (since g F).
Proof.
  intros HF s s' HK Hi [Hg HFs]. split; [pose proof (k_gen _ _ HK); lia|]. intros Ho [Hgen Hrem]%unchanged_iff.
  assert (rowGen s = g) as Hgs by (pose proof (k_gen _ _ HK); lia).
  pose proof (k_rem _ _ HK ltac:(lia)) as Em. pose proof (i_rem _ _ (Hi Ho)).
  destruct (k_rows _ _ HK ltac:(lia) ltac:(lia) Ho) as (? & ? & Hr).
  eapply HF; [done|done|by apply (k_ann _ _ HK)|done|by apply Hi|].
  apply HFs; [by eapply odd_back|]. apply unchanged_iff. split; [done|lia].
Qed.
Lemma since_mono g (F F' : client -> Prop) s : (sound cfg s -> F s -> F' s) -> INV cfg s -> since g F s -> since g F' s.
Proof. intros HF Hi [Hg Hs]. split; [done|]. intros Ho Hu. apply HF; [by apply Hi|auto]. Qed.
Lemma settled_and F F' : settled F -> settled F' -> settled (fun s => F s /\ F' s).
Proof. intros HF HF' s s' ? ? ? ? ? [? ?]. split; eauto. Qed.
Lemma settled_pure (P : Prop) : settled (fun _ => P).
Proof. intros s s' _ _ _ _ _ HP. exact HP. Qed.
Lemma settled_below n : settled (fun s => n < next s).
Proof. intros s s' ? _ _ _ _ ?. lia. Qed.
Lemma settled_row h (r : option block) : settled (fun s => h < next s /\ rows s !! h = r).
Proof. intros s s' ? _ _ Hr _ [? E]. split; [lia|]. by rewrite Hr. Qed.

Lemma settled_vouched h : settled (fun s => h < next s /\ vouched cfg s h).
Proof.
  intros s s' Hn Ht Ha Hr _ [Hh Hv]. split; [lia|]. intros b Hb. rewrite Hr in Hb by done.
  unfold pred_hash. rewrite Hr by lia. destruct (Hv b Hb) as [?|[?|[?|?]]]; [left; lia|auto..].
Qed.
Lemma settled_upto n : settled (fun s => n < next s /\ upto cfg s n).
Proof.
  intros s s' Hn Ht Ha Hr Hs [Hh Hu]. split; [lia|]. intros h Hle.
  apply (settled_vouched h s s'); try done. split; [lia|auto].
Qed.

(** ** The database *)
Lemma spec_pop i P E : steady i P -> spec i P pop (fun _ => P) E.
Proof.
  intros [_ HP] s Hi Hs. unfold pop. destruct (replies s) as [|r l] eqn:Er.
  - split_and!; [done|apply guarantee_refl|done].
  - assert (same_core s (set_replies l s)) as Hc by done.
    split_and!; [by eapply same_core_inv|by apply same_core_guarantee|].
    apply (HP s); try done. by eapply same_core_inv.
Qed.

Lemma spec_dbRead {A} i (f : client -> A) (P : client -> Prop) (V : A -> client -> Prop) E :
  steady i P -> (forall a, steady i (fun s => P s /\ V a s)) -> (forall s, INV cfg s -> P s -> V (f s) s) ->
  spec i P (dbRead f) (fun r s => P s /\ forall a, r = Some a -> V a s) E.
Proof.
  intros HP HV Hf. unfold dbRead.
  eapply spec_seq; [apply spec_yield, HP|]. eapply spec_bind; [by apply spec_pop|intros r].
  eapply spec_bind; [apply (spec_gets i f P)|intros a].
  eapply spec_seq; [eapply spec_pre; [apply (spec_yield i _ _ (proj1 (HV a)))|intros s Hi [? <-]; auto]|].
  eapply spec_pre; [apply spec_ret|]. intros s Hi [? ?]. split; [done|]. intros a'. by destruct r; intros [= <-].
Qed.

Lemma spec_dbWrite i f (P Q : client -> Prop) E :
  steady i P -> steady i Q -> (forall s, INV cfg s -> P s -> INV cfg (f s) /\ guarantee i s (f s) /\ Q (f s)) ->
  spec i P (dbWrite f) (fun written s => if (written : bool) then Q s else P s) E.
Proof.
  intros HP HQ Hf. unfold dbWrite.
  eapply spec_seq; [apply spec_yield, HP|]. eapply spec_bind; [by apply spec_pop|intros r].
  assert (forall (w : bool) (X : client -> Prop), steady i X -> X = (fun s => if w then Q s else P s) ->
    spec i X (bind yield (fun _ => ret w)) (fun (w : bool) s => if w then Q s else P s) E) as Hend.
  { intros w X HX ->. eapply spec_seq; [apply spec_yield, HX|]. apply (spec_ret i w (fun (w : bool) s => if w then Q s else P s)). }
  destruct r; [|by apply Hend..].
  eapply spec_seq; [by apply (spec_modify i f P (fun _ => Q))|by apply Hend].
Qed.

Lemma spec_softWrite i f (P : client -> Prop) E :
  steady i P -> (forall s, INV cfg s -> P s -> INV cfg (f s) /\ guarantee i s (f s) /\ P (f s)) ->
  spec i P (softWrite f) (fun _ => P) E.
Proof.
  intros HP Hf. unfold softWrite. eapply spec_seq; [apply spec_yield, HP|]. eapply spec_bind; [by apply spec_pop|intros r].
  assert (forall w : bool, spec i P (bind yield (fun _ => ret w)) (fun _ => P) E) as Hend.
  { intros w. eapply spec_seq; [apply spec_yield, HP|]. apply (spec_ret i w (fun _ => P)). }
  destruct r; [|apply Hend..]. eapply spec_seq; [by apply (spec_modify i f P (fun _ => P))|apply Hend].
Qed.

(** ** Serving marker writes *)
Lemma head_app_tail {A} (l : list A) a b : head l = Some b -> head (l ++ [a]) = Some b.
Proof. by destruct l. Qed.

Lemma spec_queue {A} i (P : client -> Prop) (fn : async client A) (Q : A -> client -> Prop) (E : string -> client -> Prop) :
  steady i P -> (forall s s', same_core s s' -> applyLock s' = applyLock s -> INV cfg s' -> P s -> P s') ->
  (forall a s s', same_core s s' -> applyLock s' = applyLock s -> INV cfg s' -> Q a s -> Q a s') ->
  (forall e s s', same_core s s' -> applyLock s' = applyLock s -> INV cfg s' -> E e s -> E e s') ->
  spec i (fun s => P s /\ served i s) fn (fun a s => Q a s /\ served i s) (fun e s => E e s /\ served i s) ->
  spec i P (queueMarkerWrite i fn) Q E.
Proof.
  intros HP HPc HQc HEc Hfn. unfold queueMarkerWrite.
  eapply (spec_seq i P _ _ P).
  { apply spec_modify. intros s Hi Hs.
    assert (same_core s (set_markerWrites (markerWrites s ++ [i]) s)) as Hc by done.
    split_and!; [by eapply same_core_inv| |by eapply HPc; [exact Hc|done|by eapply same_core_inv|]].
    apply same_core_guarantee; [done|done|]. intros j _ Hj. by apply head_app_tail. }
  eapply spec_seq; [apply spec_await, HP|].
  eapply triple_finally; [apply guarantee_refl|apply guarantee_trans| | |].
  - eapply spec_pre; [exact Hfn|]. intros s Hi [? Hh]. split; [done|]. by apply bool_decide_eq_true in Hh.
  - intros a s Hi [HQ Hh]. assert (same_core s (set_markerWrites (tail (markerWrites s)) s)) as Hc by done.
    split_and!; [by eapply same_core_inv| |by eapply HQc; [exact Hc|done|by eapply same_core_inv|]].
    apply same_core_guarantee; [done|done|]. intros j Hj Hj'. unfold served in Hh. congruence.
  - intros e s Hi [HE Hh]. assert (same_core s (set_markerWrites (tail (markerWrites s)) s)) as Hc by done.
    split_and!; [by eapply same_core_inv| |by eapply HEc; [exact Hc|done|by eapply same_core_inv|]].
    apply same_core_guarantee; [done|done|]. intros j Hj Hj'. unfold served in Hh. congruence.
Qed.

Lemma spec_lock {A} i (P : client -> Prop) (fn : async client A) (Q : A -> client -> Prop) (E : string -> client -> Prop) :
  kept P -> (forall a, kept (Q a)) -> (forall e, kept (E e)) ->
  spec i (fun s => P s /\ has_lock i s) fn (fun a s => Q a s /\ has_lock i s) (fun e s => E e s /\ has_lock i s) ->
  spec i P (withApplyLock i fn) Q E.
Proof.
  intros HP HQ HE Hfn. unfold withApplyLock.
  eapply (spec_seq i P _ _ P).
  { apply spec_modify. intros s Hi Hs.
    assert (same_core s (set_applyLock (applyLock s ++ [i]) s)) as Hc by done.
    split_and!; [by eapply same_core_inv| |by eapply HP; [apply same_core_keeps, Hc|by eapply same_core_inv|]].
    apply same_core_guarantee; [done| |done]. intros j _ Hj. by apply head_app_tail. }
  eapply spec_seq; [apply spec_await, kept_stable, HP|].
  eapply triple_finally; [apply guarantee_refl|apply guarantee_trans| | |].
  - eapply spec_pre; [exact Hfn|]. intros s Hi [? Hh]. split; [done|]. by apply bool_decide_eq_true in Hh.
  - intros a s Hi [HQs Hh]. assert (same_core s (set_applyLock (tail (applyLock s)) s)) as Hc by done.
    split_and!; [by eapply same_core_inv| |by eapply HQ; [apply same_core_keeps, Hc|by eapply same_core_inv|]].
    apply same_core_guarantee; [done| |done]. intros j Hj Hj'. unfold has_lock in Hh. congruence.
  - intros e s Hi [HEs Hh]. assert (same_core s (set_applyLock (tail (applyLock s)) s)) as Hc by done.
    split_and!; [by eapply same_core_inv| |by eapply HE; [apply same_core_keeps, Hc|by eapply same_core_inv|]].
    apply same_core_guarantee; [done| |done]. intros j Hj Hj'. unfold has_lock in Hh. congruence.
Qed.

(** ** Updates of the marker *)

(** An update that leaves the rows and the generation alone. *)
Lemma keeps_marker s s' : rowGen s' = rowGen s -> removals s' = removals s -> rows s' = rows s ->
  next s' = next s -> announced s' = announced s -> trusted s <= trusted s' -> (odd s = true -> odd s' = true) ->
  (odd s' = false -> (exists m, verifiedTip s = At m) -> exists m, verifiedTip s' = At m) -> keeps s s'.
Proof.
  intros E1 E2 E3 E4 E5 Ht Ho Hn. split; rewrite ?E1, ?E2, ?E3, ?E4, ?E5; auto; try lia.
  intros. split_and!; auto; lia.
Qed.

(** Both kinds of rely for an update by a task that holds neither. *)
Lemma guarantee_marker i s s' : keeps s s' -> rows s' = rows s -> removals s' = removals s -> next s' = next s ->
  applyLock s' = applyLock s -> markerWrites s' = markerWrites s ->
  (0 < removals s -> odd s' = false -> ~ has_lock i s ->
     (verifiedTip s <> Unset -> verifiedTip s' = verifiedTip s) /\ forall n, capped n s -> capped n s') ->
  (~ served i s -> marker s' = marker s
     /\ (odd s' = false -> forall m, verifiedTip s = At m -> exists m', verifiedTip s' = At m' /\ m <= m')) ->
  guarantee i s s'.
Proof.
  intros HK E1 E2 E3 E4 E5 HL HQ. split; [done|]. intros j Hj. split; intros Hh.
  - rewrite E4. split_and!; auto. intros Hp Ho. apply HL; [done..|]. unfold has_lock. congruence.
  - rewrite E5. destruct HQ as [? ?]; [unfold served; congruence|]. auto.
Qed.

Lemma raise_ok i n s : INV cfg s ->
  (odd s = false -> removals s <= 0 /\ upto cfg s n /\ n < next s /\ exists m, verifiedTip s = At m /\ m <= n) ->
  INV cfg (set_verifiedTip (At n) s) /\ guarantee i s (set_verifiedTip (At n) s).
Proof.
  intros Hi Hc. split.
  - intros Ho. destruct (Hc Ho) as (_ & Hu & Hlt & m & Hm & Hle). destruct (Hi Ho) as [A B C D F K L M N].
    split; cbn; auto.
    + by intros m' [= <-].
    + by intros m' [= <-].
    + intros d m' Hd [= <-]. specialize (L d m Hd Hm). lia.
    + done.
  - apply guarantee_marker; try done.
    + apply keeps_marker; try done; eauto.
    + cbn. intros Hp Ho. destruct (Hc Ho). lia.
    + intros _. cbn. split; [done|]. intros Ho m Hm. destruct (Hc Ho) as (_ & _ & _ & m' & Hm' & ?).
      exists n. split; [done|]. assert (m = m') by congruence. lia.
Qed.

Lemma note_ok i h s : INV cfg s ->
  (odd s = false -> removals s <= 0 /\ upto cfg s h /\ h < next s /\ exists m, verifiedTip s = At m) ->
  INV cfg (noteVerifiedBlock h s) /\ guarantee i s (noteVerifiedBlock h s).
Proof.
  intros Hi Hc. unfold noteVerifiedBlock. destruct (verifiedTip s) as [| |m] eqn:Ev.
  1,2: apply raise_ok; [done|]; intros Ho; destruct (Hc Ho) as (_ & _ & _ & m & ?); congruence.
  destruct (m <? h) eqn:El; js_simpl; [|split; [done|apply guarantee_refl]].
  apply raise_ok; [done|]. intros Ho. destruct (Hc Ho) as (? & ? & ? & _). split_and!; try done. exists m. split; [done|lia].
Qed.

(** The value of a served write lands. *)
Lemma write_ok i v s : INV cfg s -> writable i v s ->
  INV cfg (set_marker (Some v) s) /\ guarantee i s (set_marker (Some v) s).
Proof.
  intros Hi [Hs Hw]. split.
  - intros Ho. destruct (Hw Ho) as (m & Hm & Hle). destruct (Hi Ho) as [A B C D F K L M N]. split; cbn; auto.
    + intros d [= <-] h Hh. apply (A m Hm). lia.
    + intros d [= <-]. specialize (F m Hm). lia.
    + intros d m' [= <-] Hm'. assert (m = m') by congruence. lia.
    + intros Ha. congruence.
  - apply guarantee_marker; [apply keeps_marker; done|done..| |done].
    + cbn. intros Hp Ho _. split; [done|]. intros n [(m' & Hm' & Hle') Hd]. split; [eauto|]. cbn.
      destruct (Hw Ho) as (m & Hm & Hle). intros d [= <-]. assert (m = m') by congruence. lia.
Qed.

Lemma spec_writeVerifiedTip i v E : spec i (writable i v) (writeVerifiedTip v) (fun _ => writable i v) E.
Proof.
  unfold writeVerifiedTip, setMarker. eapply spec_bind.
  - apply (spec_softWrite i _ (writable i v)); [apply writable_steady|].
    intros s Hi Hw. destruct (write_ok i v s Hi Hw) as [Hi' Hg]. split_and!; [done..|]. exact Hw.
  - intros [].
    + apply spec_core; [intros s; repeat split|]. intros s Hw. exact Hw.
    + apply (spec_ret i tt (fun _ => writable i v)).
Qed.

(** The assertion of a method that throws nothing. *)
Notation never := (fun (_ : string) (_ : client) => False).

Lemma spec_never {A} i P (m : async client A) Q E : spec i P m Q never -> spec i P m Q E.
Proof. intros Hm. eapply spec_conseq; [exact Hm|done..]. Qed.
Lemma spec_carry {A} i (F P : client -> Prop) (m : async client A) Q E : kept F -> spec i P m Q never ->
  spec i (fun s => P s /\ F s) m (fun a s => Q a s /\ F s) E.
Proof. intros HF Hm. apply spec_never. eapply spec_conseq; [by apply (spec_frame i F)|done|done|by intros e s _ [? _]]. Qed.
Lemma spec_ret_true {A} i (a : A) P E : spec i P (ret a) (fun _ _ => True) E.
Proof. eapply spec_pre; [apply spec_ret|done]. Qed.
Lemma spec_post_true {A} i P (m : async client A) Q E : spec i P m Q E -> spec i P m (fun _ _ => True) E.
Proof. intros Hm. by eapply spec_conseq. Qed.

Lemma spec_persist i g : spec i (fun _ => True) (persistVerifiedTip i g) (fun _ _ => True) never.
Proof.
  apply spec_queue; [apply kept_steady, kept_True|done..|].
  eapply (spec_conseq i (served i) _ _ (fun _ s => served i s) _ never); [|by intros s _ [_ ?]|done|done].
  eapply spec_bind; [apply (spec_get i (served i))|]. intros s0.
  assert (forall P : client -> Prop, (forall s, P s -> served i s) -> spec i P (ret tt) (fun _ s => served i s) never) as Hret.
  { intros P HP. eapply spec_pre; [apply (spec_ret i tt (fun _ s => served i s))|]. intros s _ Hs. by apply HP. }
  destruct (rowsChangedSince g s0); [apply Hret; tauto|]. destruct (verifiedTip s0) as [| |m] eqn:Ev; [apply Hret; tauto..|].
  destruct (bool_decide _); [apply Hret; tauto|].
  eapply spec_conseq; [apply (spec_writeVerifiedTip i m never)| |by intros _ s _ [? _]|done].
  intros s _ [Hs ->]. split; [done|]. intros _. exists m. split; [done|lia].
Qed.

(** A block verified since [g], with everything below it. *)
Definition verified_to (n : Z) (s : client) : Prop :=
  (n < next s /\ upto cfg s n) /\ exists m, verifiedTip s = At m.
Definition numbered (s : client) : Prop := odd s = false -> exists m, verifiedTip s = At m.
Lemma numbered_kept : kept numbered.
Proof. intros s s' HK _ Hn Ho. apply (k_tip _ _ HK); [done|]. apply Hn. by eapply odd_back. Qed.

Lemma spec_advance i n g :
  spec i (fun s => since g (fun s => n < next s /\ upto cfg s n) s /\ numbered s)
    (advanceVerifiedTip i n g) (fun _ _ => True) never.
Proof.
  set (P := fun s => since g (fun s => n < next s /\ upto cfg s n) s /\ numbered s).
  assert (kept P) as HP by (apply kept_and; [apply since_kept, settled_upto|apply numbered_kept]).
  apply (spec_queue i P _ (fun _ _ => True) never); [by apply kept_steady| |done|done|].
  { intros s s' Hc _ Hi. apply HP; [by apply same_core_keeps|done]. }
  eapply (spec_conseq i (fun s => P s /\ served i s) _ _ (fun _ s => served i s) _ never); [|done|done|done].
  eapply spec_bind; [apply (spec_get i (fun s => P s /\ served i s))|]. intros s0.
  assert (spec i (fun s => (P s /\ served i s) /\ s = s0) (ret tt) (fun _ s => served i s) never) as Hret.
  { eapply spec_pre; [apply (spec_ret i tt (fun _ s => served i s))|]. tauto. }
  destruct (rowsChangedSince g s0) eqn:Eu; [done|].
  destruct (match verifiedTip s0 with At m => n <=? m | _ => false end) eqn:Em; [done|].
  eapply (spec_seq i _ _ _ (writable i n)).
  - apply spec_modify. intros s Hi [[[[_ Hsince] Hnum] Hs] ->].
    assert (odd s0 = false -> removals s0 <= 0 /\ upto cfg s0 n /\ n < next s0 /\ exists m, verifiedTip s0 = At m /\ m <= n) as Hc.
    { intros Ho. destruct (Hsince Ho Eu) as [Hlt Hu]. destruct (Hnum Ho) as [m Hm]. rewrite Hm in Em. js_simpl.
      apply unchanged_iff in Eu as [_ ?]. split_and!; try done. exists m. split; [done|lia]. }
    destruct (raise_ok i n s0 Hi Hc). split; [done|]. split; [done|]. split; [done|]. intros _. exists n. split; [done|lia].
  - eapply spec_conseq; [apply (spec_writeVerifiedTip i n never)|done|by intros _ s _ [? _]|done].
Qed.

(** ** Loading, lowering and removals *)
Lemma load_ok i raw s : INV cfg s ->
  let s' := set_persistedTip (tip_of raw) (set_verifiedTip (tip_of raw)
    (flag_odd (fun s => negb (bool_decide (verifiedTip s = Unset)) || negb (bool_decide (marker s = raw))) s)) in
  INV cfg s' /\ guarantee i s s' /\ (odd s' = false -> verifiedTip s' <> Unset).
Proof.
  intros Hi s'. assert (odd s' = false -> odd s = false /\ verifiedTip s = Unset /\ marker s = raw) as Hflag.
  { subst s'. cbn. intros Hf. js_simpl. done. }
  assert (keeps s s') as HK.
  { apply keeps_marker; try done.
    - cbn. intros ->. done.
    - intros Ho. destruct (Hflag Ho) as (_ & Hu & _). intros [m Hm]. congruence. }
  split_and!.
  - intros Ho. destruct (Hflag Ho) as (Ho' & Hu & Hr). destruct (Hi Ho') as [A B C D F K L M N]. split; cbn; auto.
    + intros m Hm. apply B. rewrite Hr. destruct raw; cbn in Hm; simplify_eq; done.
    + intros m Hm. apply K. rewrite Hr. destruct raw; cbn in Hm; simplify_eq; done.
    + intros d m Hd Hm. rewrite <- Hr, Hd in Hm. cbn in Hm. injection Hm as <-. lia.
    + intros Ha. rewrite Hr. by destruct raw.
  - apply guarantee_marker; try done.
    + intros Hp Ho _. destruct (Hflag Ho) as (_ & Hu & _). split; [done|]. intros n [(m & Hm & _) _]. congruence.
    + intros _. split; [done|]. intros Ho m Hm. destruct (Hflag Ho) as (_ & Hu & _). congruence.
  - intros _. cbn. by destruct raw.
Qed.

Lemma spec_load i (P : client -> Prop) : steady i P ->
  (forall s s', applyLock s' = applyLock s -> markerWrites s' = markerWrites s -> removals s' = removals s ->
     rowGen s' = rowGen s -> (odd s' = false -> odd s = false) -> P s -> P s') ->
  spec i P loadVerifiedTip (fun _ s => P s /\ (odd s = false -> verifiedTip s <> Unset)) (fun _ => P).
Proof.
  intros HP HPf. unfold loadVerifiedTip. eapply spec_bind.
  - apply (spec_dbRead i marker P (fun _ _ => True)); [done| |done].
    intros _. apply steady_and; [done|apply kept_steady, kept_True].
  - intros [raw|].
    + apply spec_modify. intros s Hi [Hs _]. destruct (load_ok i raw s Hi) as (? & ? & ?). split_and!; try done.
      eapply HPf; [..|exact Hs]; try done. by intros [? _]%orb_false_iff.
    + eapply spec_pre; [apply spec_throw|]. tauto.
Qed.

(** An update under the lock and, when it touches the marker, while served. *)
Lemma guarantee_own i s s' : keeps s s' -> has_lock i s -> 
  (served i s \/ (markerWrites s' = markerWrites s /\ marker s' = marker s /\ verifiedTip s' = verifiedTip s)) ->
  guarantee i s s'.
Proof.
  intros HK HL HQ. split; [done|]. intros j Hj. split; intros Hh; [unfold has_lock in HL; congruence|].
  destruct HQ as [HQ|(E1 & E2 & E3)]; [unfold served in HQ; congruence|].
  rewrite E1, E2, E3. split_and!; eauto with lia.
Qed.

(** An update that moves the generation keeps everything a walk relies on. *)
Lemma keeps_bump s s' : rowGen s < rowGen s' -> odd s' = odd s -> announced s' = announced s ->
  verifiedTip s' = verifiedTip s -> keeps s s'.
Proof. intros Hg E1 E2 E3. split; rewrite ?E1, ?E2, ?E3; auto; try lia. Qed.

Lemma upto_mono s s' n : rows s' = rows s -> announced s' = announced s -> trusted s <= trusted s' ->
  upto cfg s n -> upto cfg s' n.
Proof.
  intros E1 E2 Ht Hu h Hh b Hb. rewrite E1 in *. rewrite E2. destruct (Hu h Hh b Hb) as [?|[?|[?|?]]]; [left; lia|auto..].
Qed.

Lemma bump_ok i s : INV cfg s -> INV cfg (bumpRowGeneration s) /\ guarantee i s (bumpRowGeneration s).
Proof.
  intros Hi. split; [intros Ho; destruct (Hi Ho) as [A B C D F K L M N]; split; done|].
  split; [apply keeps_bump; cbn; done || lia|]. intros j _. split; intros Hh; cbn; split_and!; eauto with lia.
Qed.

(** The removal has seen the marker: it is loaded. *)
Definition armed (i : nat) (s : client) : Prop := removing i s /\ (odd s = false -> verifiedTip s <> Unset).
Lemma armed_steady i : steady i (armed i).
Proof.
  split.
  - intros s s' HR Hi [Hr Hv]. split; [by apply (proj1 (removing_steady i) s s')|]. intros Ho.
    destruct HR as (HK & HL & _), Hr as [Hh Hr]. destruct (HL Hh) as (_ & _ & _ & _ & Hsame).
    pose proof (odd_back _ _ HK Ho) as Ho'. rewrite (proj1 (Hsame (Hr Ho') Ho) (Hv Ho')). auto.
  - intros s s' Hc Hl Hm Hi [Hr Hv]. split; [by apply (proj2 (removing_steady i) s s')|].
    destruct Hc as (-> & _ & _ & _ & _ & _ & _ & _ & ->). done.
Qed.

(** A removal being served, the marker in memory being [V]. *)
Definition lowering (i : nat) (V : tipv) (d : option (option Z)) (s : client) : Prop :=
  removing i s /\ served i s
  /\ (odd s = false -> (verifiedTip s = V /\ V <> Unset) /\ match d with Some d => marker s = d | None => True end).
Lemma lowering_steady i V d : steady i (lowering i V d).
Proof.
  split.
  - intros s s' HR Hi (Hr & Hs & Hv). split_and!; [by apply (proj1 (removing_steady i) s s')|by apply (proj1 (served_steady i) s s')|].
    intros Ho. destruct HR as (HK & HL & HQ), Hr as [Hh Hr].
    destruct (HL Hh) as (_ & _ & _ & _ & Hsame), (HQ Hs) as (_ & Em & _), (Hv (odd_back _ _ HK Ho)) as [[E1 E2] E3].
    rewrite (proj1 (Hsame (Hr (odd_back _ _ HK Ho)) Ho) ltac:(congruence)), Em. done.
  - intros s s' Hc Hl Hm Hi (Hr & Hs & Hv).
    split_and!; [by apply (proj2 (removing_steady i) s s')|by apply (proj2 (served_steady i) s s')|].
    destruct Hc as (-> & _ & _ & _ & -> & _ & _ & _ & ->). done.
Qed.

Lemma lower_marker_ok i n V s : INV cfg s -> lowering i V None s ->
  (match V with At m => m <=? n | _ => false end = false) ->
  INV cfg (lower_marker n s) /\ guarantee i s (lower_marker n s) /\ lowering i V (Some (Some n)) (lower_marker n s).
Proof.
  intros Hi (Hr & Hs & Hv) HV.
  assert (odd (lower_marker n s) = false -> odd s = false /\ n < next s /\ exists m, verifiedTip s = At m /\ n < m) as Hflag.
  { cbn. intros Hf. js_simpl. split_and!; [done..|]. destruct (Hv ltac:(done)) as [[E1 _] _].
    destruct (verifiedTip s) as [| |m] eqn:Em; [done..|]. exists m. split; [done|]. subst V. js_simpl. lia. }
  split_and!.
  - intros Ho. destruct (Hflag Ho) as (Ho' & Hn & m & Em & Hlt). destruct (Hi Ho') as [A B C D F K L M N].
    split; cbn; try done.
    + intros d [= <-] h Hh. apply (A m Em). lia.
    + by intros d [= <-].
    + intros d m' [= <-] Hm'. assert (m' = m) by congruence. lia.
    + intros Ha. congruence.
  - apply guarantee_own; [|by destruct Hr|by left]. apply keeps_marker; try done. by cbn; intros ->.
  - split; [split; [apply Hr|]; intros Ho; apply Hr; by apply Hflag|]. split; [exact Hs|].
    intros Ho. destruct (Hflag Ho) as [Ho' _]. destruct (Hv Ho') as [? _]. done.
Qed.

Lemma lower_tip_ok i n V s : INV cfg s -> lowering i V (Some (Some n)) s ->
  let s' := set_persistedTip (At n) (set_verifiedTip (At n) s) in
  INV cfg s' /\ guarantee i s s' /\ lowered i n s' /\ served i s'.
Proof.
  intros Hi (Hr & Hs & Hv) s'. split_and!.
  - intros Ho. destruct (Hi Ho) as [A B C D F K L M N], (Hv Ho) as [_ Em]. split; cbn; try done.
    + intros m [= <-]. by apply B.
    + intros m [= <-]. by apply K.
    + intros d m Hd [= <-]. assert (d = n) by congruence. lia.
  - apply guarantee_own; [|by destruct Hr|by left]. apply keeps_marker; try done. eauto.
  - split; [exact Hr|]. intros Ho. split; [exists n; split; [done|lia]|]. cbn. intros d Hd.
    destruct (Hv Ho) as [_ Em]. assert (d = n) by congruence. lia.
  - exact Hs.
Qed.

Lemma spec_lower i n :
  spec i (removing i) (lowerVerifiedTip i n) (fun _ => lowered i n) (fun _ => removing i).
Proof.
  unfold lowerVerifiedTip. eapply (spec_seq i _ _ _ (removing i)).
  { apply spec_modify. intros s Hi Hr. destruct (bump_ok i s Hi). done. }
  eapply spec_bind; [apply (spec_get i (removing i))|]. intros s0.
  eapply (spec_seq i _ _ _ (armed i)).
  { destruct (bool_decide (verifiedTip s0 = Unset)) eqn:Eu; js_simpl.
    - eapply spec_pre; [apply (spec_load i (removing i))|tauto]; [apply removing_steady|].
      intros s s' El _ Em _ Hodd [Hh Hr]. unfold removing, has_lock. rewrite El, Em. auto.
    - eapply spec_pre; [apply (spec_ret i tt (fun _ => armed i))|]. intros s _ [Hr ->]. by split. }
  apply (spec_queue i (armed i) _ (fun _ => lowered i n) (fun _ => removing i)); [apply armed_steady|..].
  { intros s s' Hc El Hi Ha. unfold armed, removing, has_lock in *. destruct Hc as (-> & _ & -> & _ & _ & _ & _ & _ & ->). by rewrite El. }
  { intros _ s s' Hc El Hi Ha. unfold lowered, removing, has_lock, capped in *.
    destruct Hc as (-> & _ & -> & _ & -> & _ & _ & _ & ->). by rewrite El. }
  { intros _ s s' Hc El Hi Ha. unfold removing, has_lock in *. destruct Hc as (_ & _ & -> & _ & _ & _ & _ & _ & ->). by rewrite El. }
  eapply spec_bind; [apply (spec_get i (fun s => armed i s /\ served i s))|]. intros s1.
  destruct (match verifiedTip s1 with At m => m <=? n | _ => false end) eqn:Em.
  - eapply spec_pre; [apply (spec_ret i tt (fun _ s => lowered i n s /\ served i s))|].
    intros s Hi [[[Hr Hv] Hs] ->]. split; [|done]. split; [done|]. intros Ho.
    destruct (verifiedTip s1) as [| |m] eqn:Ev; try done. js_simpl. split; [eauto|].
    intros d Hd. pose proof (i_order _ _ (Hi Ho) d m Hd Ev). lia.
  - eapply spec_bind.
    + eapply spec_pre; [apply (spec_dbWrite i _ (lowering i (verifiedTip s1) None) (lowering i (verifiedTip s1) (Some (Some n))));
        [apply lowering_steady..|]|].
      * intros s Hi Hl. by apply lower_marker_ok.
      * intros s Hi [[[Hr Hv] Hs] ->]. split_and!; auto.
    + intros [].
      * apply spec_modify. intros s Hi Hl. destruct (lower_tip_ok i n _ s Hi Hl) as (? & ? & ? & ?). done.
      * eapply spec_pre; [apply (spec_throw i _ _ (fun _ s => removing i s /\ served i s))|]. by intros s _ (? & ? & _).
Qed.

Lemma begin_ok i s : INV cfg s -> has_lock i s ->
  let s' := set_removals (removals s + 1) (bumpRowGeneration s) in
  INV cfg s' /\ guarantee i s s' /\ removing i s'.
Proof.
  intros Hi Hh s'. split_and!.
  - intros Ho. destruct (Hi Ho) as [A B C D F K L M N]. split; try done. cbn. lia.
  - apply guarantee_own; [apply keeps_bump; cbn; done || lia|done|by right].
  - split; [done|]. intros Ho. cbn. pose proof (i_rem _ _ (Hi Ho)). lia.
Qed.

Lemma end_ok i s : INV cfg s -> has_lock i s ->
  INV cfg (endRowRemoval s) /\ guarantee i s (endRowRemoval s) /\ has_lock i (endRowRemoval s).
Proof.
  intros Hi Hh. split_and!; [|apply guarantee_own; [apply keeps_bump; cbn; done || lia|done|by right]|done].
  intros Ho. destruct (Hi Ho) as [A B C D F K L M N]. split; try done. cbn. lia.
Qed.

Lemma spec_begin i n : spec i (has_lock i) (beginRowRemoval i n) (fun _ => lowered i n) (fun _ => has_lock i).
Proof.
  unfold beginRowRemoval. eapply (spec_seq i _ _ _ (removing i)).
  { apply spec_modify. intros s Hi Hh. by apply begin_ok. }
  eapply spec_try; [apply spec_lower|]. intros e. eapply (spec_seq i _ _ _ (has_lock i)).
  - apply spec_modify. intros s Hi [Hh _]. by apply end_ok.
  - apply (spec_throw i e _ (fun _ => has_lock i)).
Qed.

(** Deleting blocks at or above [n] under lowered markers. *)
Lemma delete_sound n keep nx s : sound cfg s -> capped (n - 1) s -> 0 < removals s ->
  (nx = next s \/ (nx = Z.min (next s) n /\ forall h, keep h = false)) ->
  sound cfg (set_next nx (delete_from n keep s)).
Proof.
  intros [A B C D F K L M N] [(m & Hm & Hle) Hd] Hp Hnx.
  assert (forall h, h < n -> rows (delete_from n keep s) !! h = rows s !! h) as Hlow.
  { intros h Hh. cbn. destruct (rows s !! h) as [b|] eqn:Eb; [apply map_lookup_filter_Some_2; [done|by left]|].
    by apply map_lookup_filter_None_2; left. }
  assert (forall k, k <= n - 1 -> upto cfg s k -> upto cfg (set_next nx (delete_from n keep s)) k) as Hupto.
  { intros k Hk Hu h Hh b Hb. change (rows (delete_from n keep s) !! h = Some b) in Hb. rewrite Hlow in Hb by lia.
    unfold pred_hash. change (rows (set_next nx (delete_from n keep s))) with (rows (delete_from n keep s)).
    rewrite Hlow by lia. destruct (Hu h Hh b Hb) as [?|[?|[?|?]]]; [left; cbn; lia|auto..]. }
  assert (forall h, is_Some (rows (delete_from n keep s) !! h) -> is_Some (rows s !! h) /\ (h < n \/ keep h = true)) as Hsub.
  { intros h [b Hb]. cbn in Hb. apply map_lookup_filter_Some in Hb as [Hb Hk]. split; [eauto|done]. }
  assert (nx <= next s) by (destruct Hnx as [->|[-> _]]; lia).
  split; cbn [verifiedTip marker set_next delete_from set_trusted set_rows next removals].
  - intros m' Hm'. change (verifiedTip s = At m') in Hm'. apply Hupto; [|auto]. assert (m' = m) by congruence. lia.
  - intros d Hd'. change (marker s = Some d) in Hd'. apply Hupto; auto.
  - intros h Hh. apply Hsub in Hh as [Hh Hk]. specialize (C h Hh). destruct Hnx as [->|[-> Hkeep]]; [done|].
    destruct Hk as [?|Hk]; [lia|]. by rewrite Hkeep in Hk.
  - intros b h Hb Hlt. destruct (rows (delete_from n keep s) !! h) eqn:E; [|done].
    destruct (Hsub h ltac:(eauto)) as [[x Hx] _]. by rewrite (D b h Hb Hlt) in Hx.
  - intros m' Hm'. change (verifiedTip s = At m') in Hm'. assert (m' = m) by congruence. subst m'.
    specialize (F m Hm). destruct Hnx as [->|[-> _]]; lia.
  - intros d Hd'. change (marker s = Some d) in Hd'. specialize (Hd d Hd'). specialize (K d Hd').
    destruct Hnx as [->|[-> _]]; lia.
  - exact L.
  - exact M.
  - exact N.
Qed.

Lemma delete_ok i n keep nx s : INV cfg s -> lowered i (n - 1) s ->
  (nx = next s \/ (nx = Z.min (next s) n /\ forall h, keep h = false)) ->
  let s' := set_next nx (delete_from n keep s) in
  INV cfg s' /\ guarantee i s s' /\ lowered i (n - 1) s'.
Proof.
  intros Hi [[Hh Hr] Hc] Hnx s'. split_and!.
  - intros Ho. by apply delete_sound; auto.
  - apply guarantee_own; [|done|by right]. split; cbn; try done; try lia.
    intros _ Hz Ho. specialize (Hr Ho). lia.
  - split; [by split|]. exact Hc.
Qed.

Lemma spec_rollbackRows i n partial :
  spec i (lowered i (n - 1)) (rollbackRows n partial) (fun _ => lowered i (n - 1)) (fun _ => lowered i (n - 1)).
Proof.
  induction partial as [|keep rest IH]; cbn [rollbackRows].
  - eapply spec_seq; [apply spec_yield, lowered_steady|]. eapply spec_bind; [apply spec_pop, lowered_steady|]. intros r.
    assert (spec i (lowered i (n - 1)) (bind yield (fun _ => throw "rollback failed")) (fun _ : unit => lowered i (n - 1)) (fun _ => lowered i (n - 1))) as Hth.
    { eapply spec_seq; [apply spec_yield, lowered_steady|]. apply (spec_throw i _ _ (fun _ => lowered i (n - 1))). }
    destruct r; [|exact Hth..]. eapply (spec_seq i _ _ _ (lowered i (n - 1))); [|apply spec_yield, lowered_steady].
    apply spec_modify. intros s Hi Hl.
    exact (delete_ok i n (fun _ => false) (Z.min (next s) n) s Hi Hl (or_intror (conj eq_refl (fun _ => eq_refl)))).
  - eapply spec_seq; [apply spec_yield, lowered_steady|]. eapply (spec_seq i _ _ _ (lowered i (n - 1))); [|exact IH].
    apply spec_modify. intros s Hi Hl.
    pose proof (delete_ok i n keep (next s) s Hi Hl (or_introl eq_refl)) as Hd. cbn in Hd. exact Hd.
Qed.

Lemma spec_halt i P E : steady i P -> (forall s, P s -> P (set_halted true s)) -> spec i P haltOnDivergence (fun _ => P) E.
Proof.
  intros HP Hh. unfold haltOnDivergence. eapply spec_bind; [apply spec_get|]. intros s0.
  eapply (spec_pre i P); [|by intros ? ? [? _]]. case_match; [apply (spec_ret i tt (fun _ => P))|].
  eapply spec_seq; [|apply spec_yield, HP]. apply spec_core; [intros s; repeat split|done].
Qed.
Lemma spec_halt_true i E : spec i (fun _ => True) haltOnDivergence (fun _ _ => True) E.
Proof. apply spec_halt; [apply kept_steady, kept_True|done]. Qed.

Lemma spec_reorg i n partial : spec i (fun _ => True) (applyReorgRollback i n partial) (fun _ _ => True) never.
Proof.
  unfold applyReorgRollback. eapply (spec_try i _ _ _ _ (fun _ _ => True)); [|intros e; apply spec_halt_true].
  eapply (spec_bind i _ _ _ (fun _ _ => True)).
  - apply (spec_lock i (fun _ => True) _ (fun _ _ => True) (fun _ _ => True)); [apply kept_True|intros; apply kept_True..|].
    eapply (spec_conseq i (has_lock i) _ _ (fun _ => has_lock i) _ (fun _ => has_lock i)); [|by intros ? ? [_ ?]|done|done].
    eapply spec_bind; [apply (spec_get i (has_lock i))|]. intros s0.
    assert (forall (b : bool) P, (forall s, P s -> has_lock i s) -> spec i P (ret b) (fun _ => has_lock i) (fun _ => has_lock i)) as Hret.
    { intros b P HP. eapply spec_pre; [apply (spec_ret i b (fun _ => has_lock i))|]. intros s _ Hs. by apply HP. }
    destruct (halted s0); [apply Hret; tauto|].
    eapply (spec_seq i _ _ _ (lowered i (n - 1))); [eapply spec_pre; [apply spec_begin|tauto]|].
    eapply (spec_seq i _ _ _ (has_lock i)); [|by apply Hret].
    eapply triple_finally; [apply guarantee_refl|apply guarantee_trans|apply spec_rollbackRows|..];
      intros ? s Hi [[Hh _] _]; by apply end_ok.
  - intros []; [|apply spec_ret_true]. apply spec_core; [intros s; repeat split|done].
Qed.

(** ** Recomputing a block *)
Definition below (h : Z) (s : client) : Prop := h < next s.
(** [d] is the recomputation of block [h] on the current rows. *)
Definition recomputed (h : Z) (d : digest) (s : client) : Prop :=
  h < next s /\ d = recompute (pred_hash (rows s) h) (rows s !! h).
Lemma settled_recomputed h d : settled (recomputed h d).
Proof. intros s s' Hn _ _ Hr _ [Hh ->]. split; [lia|]. unfold pred_hash. by rewrite !Hr by lia. Qed.

Lemma spec_read_since {A} i g (f : client -> A) (F : client -> Prop) (V : A -> client -> Prop) E :
  settled F -> (forall a, settled (V a)) -> (forall s, sound cfg s -> F s -> V (f s) s) ->
  spec i (since g F) (dbRead f) (fun r s => since g F s /\ forall a, r = Some a -> since g (V a) s) E.
Proof.
  intros HF HV Hf. apply (spec_dbRead i f (since g F) (fun a => since g (V a))).
  - by apply kept_steady, since_kept.
  - intros a. apply kept_steady, kept_and; by apply since_kept.
  - intros s Hi Hs. eapply since_mono; [|exact Hi|exact Hs]. auto.
Qed.

Lemma spec_retry3 {A} i (P : client -> Prop) (m : async client (option A)) (V : A -> client -> Prop) E :
  steady i P -> spec i P m (fun r s => P s /\ forall a, r = Some a -> V a s) E ->
  spec i P (retry3 m) (fun r s => P s /\ forall a, r = Some a -> V a s) E.
Proof.
  intros HP Hm. unfold retry3.
  assert (forall x : A, spec i (fun s => P s /\ forall a, Some x = Some a -> V a s) (ret (Some x))
            (fun r s => P s /\ forall a, r = Some a -> V a s) E) as Hret.
  { intros x. apply (spec_ret i (Some x) (fun r s => P s /\ forall a, r = Some a -> V a s)). }
  eapply spec_bind; [exact Hm|]. intros [x|]; [apply Hret|].
  eapply spec_seq; [eapply spec_pre; [apply spec_yield, HP|tauto]|].
  eapply spec_bind; [exact Hm|]. intros [x|]; [apply Hret|].
  eapply spec_seq; [eapply spec_pre; [apply spec_yield, HP|tauto]|exact Hm].
Qed.

Lemma spec_computeHash i g h E :
  spec i (since g (below h)) (computeHash h)
    (fun r s => since g (below h) s /\ forall d, r = Some d -> since g (recomputed h d) s) E.
Proof.
  unfold computeHash. eapply spec_bind.
  - apply (spec_read_since i g _ (below h) (fun b s => h < next s /\ rows s !! h = b)); [apply settled_below|apply settled_row|done].
  - intros [b|].
    2: { eapply spec_pre; [apply (spec_ret i None (fun r s => since g (below h) s /\ forall d, r = Some d -> since g (recomputed h d) s))|].
         by intros s _ [? _]. }
    set (F := fun s => h < next s /\ rows s !! h = b).
    eapply spec_bind.
    + eapply spec_pre; [apply (spec_read_since i g (fun s => pred_hash (rows s) h) F (fun p s => recomputed h (recompute p b) s))|].
      * apply settled_row.
      * intros a. apply settled_recomputed.
      * intros s _ [Hh <-]. done.
      * intros s _ [_ Hv]. by apply Hv.
    + intros p. eapply spec_pre; [apply spec_ret|]. cbn. intros s Hi [HF Hv]. split.
      * eapply since_mono; [|exact Hi|exact HF]. by intros _ [? _].
      * intros d Hd. destruct p as [p|]; [|done]. injection Hd as <-. by apply Hv.
Qed.

(** The block is the join block or recomputes to [expected]. *)
Definition matches (h : Z) (expected : digest) (s : client) : Prop :=
  h < next s /\ (bootstrapBase cfg = Some h \/ expected = recompute (pred_hash (rows s) h) (rows s !! h)).
Lemma settled_matches h d : settled (matches h d).
Proof. intros s s' Hn _ _ Hr _ [Hh He]. split; [lia|]. unfold pred_hash in *. by rewrite !Hr by lia. Qed.

Lemma spec_verifyRecompute i g h expected E :
  spec i (since g (below h)) (verifyRecompute cfg h expected)
    (fun r s => since g (below h) s /\ (r = Some true -> since g (matches h expected) s)) E.
Proof.
  unfold verifyRecompute. destruct (bool_decide (bootstrapBase cfg = Some h)) eqn:Eb; js_simpl.
  - eapply spec_pre; [apply spec_ret|]. cbn. intros s Hi Hs. split; [done|]. intros _.
    eapply since_mono; [|exact Hi|exact Hs]. intros _ Hb. split; [exact Hb|auto].
  - eapply spec_bind.
    + apply (spec_retry3 i (since g (below h)) _ (fun d s => since g (recomputed h d) s)); [apply kept_steady, since_kept, settled_below|].
      apply spec_computeHash.
    + intros d. eapply spec_pre; [apply spec_ret|]. cbn. intros s Hi [Hs Hd]. split; [done|].
      destruct d as [d|]; [|done]. intros [= He]. js_simpl. subst d.
      eapply since_mono; [|exact Hi|by apply Hd]. intros _ [Hb He]. split; [done|auto].
Qed.

Lemma spec_stateHash i (F : client -> Prop) E : kept F -> spec i F (evaluateStoredStateHash cfg) (fun _ => F) E.
Proof.
  intros HF. unfold evaluateStoredStateHash. destruct (negb (verifyStateHash cfg)); [apply (spec_ret i BOk (fun _ => F))|].
  eapply spec_seq; [by apply spec_yield, kept_stable|]. eapply spec_bind; [by apply spec_pop, kept_steady|]. intros r.
  eapply spec_seq; [by apply spec_yield, kept_stable|]. eapply spec_pre; [apply spec_ret|]. done.
Qed.

Lemma spec_evaluate i g h atTip E :
  spec i (since g (below h)) (evaluateCommittedBlock cfg h atTip)
    (fun r s => since g (below h) s /\ (r = BOk -> since g (fun s => h < next s /\ vouched cfg s h) s)) E.
Proof.
  set (Q := fun r s => since g (below h) s /\ (r = BOk -> since g (fun s => h < next s /\ vouched cfg s h) s)).
  assert (forall r (P : client -> Prop), r <> BOk -> (forall s, P s -> since g (below h) s) -> spec i P (ret r) Q E) as Hno.
  { intros r P Hr HP. eapply spec_pre; [apply spec_ret|]. intros s _ Hs. split; [by apply HP|done]. }
  unfold evaluateCommittedBlock. eapply spec_bind.
  - apply (spec_retry3 i (since g (below h)) _ (fun c s => since g (fun s => h < next s /\ committed <$> rows s !! h = c) s));
      [apply kept_steady, since_kept, settled_below|].
    apply spec_read_since; [apply settled_below| |done]. intros a s s' ? _ _ Hr _ [? E1]. split; [lia|]. by rewrite Hr.
  - intros [[[expected|]|]|]; try (apply Hno; [done|tauto]).
    set (C := since g (fun s => h < next s /\ committed <$> rows s !! h = Some (Some expected))).
    assert (kept C) as HC. { apply since_kept. intros s s' ? _ _ Hr _ [? E1]. split; [lia|]. by rewrite Hr. }
    eapply spec_bind.
    + eapply spec_pre; [eapply (spec_carry i C); [exact HC|apply (spec_verifyRecompute i g h expected)]|].
      intros s _ [Hb Hc]. split; [done|by apply Hc].
    + cbn. intros [[]|]; try (apply Hno; [done|tauto]).
      assert (forall s, INV cfg s -> ((since g (below h) s /\ (Some true = Some true -> since g (matches h expected) s)) /\ C s) ->
                since g (fun s => h < next s /\ vouched cfg s h) s) as Hfin.
      { intros s Hi [[Hb Hm] Hc]. specialize (Hm eq_refl). destruct Hb as [Hg _]. split; [done|]. intros Ho Hu.
        destruct Hm as [_ Hm], Hc as [_ Hc]. specialize (Hm Ho Hu) as [Hlt Hm]. specialize (Hc Ho Hu) as [_ Hc]. split; [done|].
        intros b Hr. rewrite Hr in Hc, Hm. cbn in Hc. injection Hc as Hc. destruct Hm as [Hm|Hm]; [auto|].
        right. right. left. congruence. }
      destruct atTip.
      * eapply spec_conseq; [apply (spec_stateHash i (since g (fun s => h < next s /\ vouched cfg s h)) never), since_kept, settled_vouched|
          exact Hfin| |done].
        intros r s Hi Hs. split; [|done]. eapply since_mono; [|exact Hi|exact Hs]. by intros _ [? _].
      * eapply spec_pre; [apply spec_ret|]. intros s Hi Hs. specialize (Hfin s Hi Hs). split; [|done]. tauto.
Qed.

(** ** The walk *)

(** Every block below [h] is verified, and the tip the walk read is stored. *)
Definition walked (h tip : Z) (s : client) : Prop := (h - 1 < next s /\ upto cfg s (h - 1)) /\ tip < next s.
Lemma settled_walked h tip : settled (walked h tip).
Proof. apply settled_and; [apply settled_upto|apply settled_below]. Qed.
Definition walking (g h tip : Z) (s : client) : Prop := since g (walked h tip) s /\ numbered s.
Lemma walking_kept g h tip : kept (walking g h tip).
Proof. apply kept_and; [apply since_kept, settled_walked|apply numbered_kept]. Qed.

Lemma spec_settle i r E : spec i (fun _ => True) (settleUnverifiedBlock r) (fun _ _ => True) E.
Proof. destruct r; try apply spec_ret_true. eapply spec_seq; [apply spec_halt_true|apply spec_ret_true]. Qed.

Lemma spec_persist_carry i g F : kept F -> spec i F (persistVerifiedTip i g) (fun _ => F) never.
Proof.
  intros HF. eapply spec_conseq; [apply (spec_carry i F (fun _ => True) _ (fun _ _ => True) never HF), spec_persist|done|by intros _ s _ [_ ?]|done].
Qed.

Lemma note_walking i g h tip s : INV cfg s -> rowsChangedSince g s = false -> h <= tip ->
  since g (fun s => h < next s /\ vouched cfg s h) s -> walking g h tip s ->
  INV cfg (noteVerifiedBlock h s) /\ guarantee i s (noteVerifiedBlock h s) /\ walking g (h + 1) tip (noteVerifiedBlock h s).
Proof.
  intros Hi Hu Hle [_ Hv] [[Hg Hw] Hn].
  assert (odd s = false -> upto cfg s h /\ h < next s /\ tip < next s) as Hup.
  { intros Ho. destruct (Hv Ho Hu) as [Hlt Hvh], (Hw Ho Hu) as [[_ Hup] ?]. split_and!; [|lia..].
    intros h' Hh'. destruct (decide (h' = h)) as [->|]; [done|]. apply Hup. lia. }
  destruct (note_ok i h s Hi) as [Hi' Hg'].
  { intros Ho. destruct (Hup Ho) as (? & ? & ?). apply unchanged_iff in Hu as [_ ?]. split_and!; auto. }
  split_and!; [done..|]. 
  assert (rowGen (noteVerifiedBlock h s) = rowGen s /\ removals (noteVerifiedBlock h s) = removals s
          /\ odd (noteVerifiedBlock h s) = odd s /\ next (noteVerifiedBlock h s) = next s
          /\ (upto cfg s h -> upto cfg (noteVerifiedBlock h s) h)) as (E1 & E2 & E3 & E4 & E5).
  { unfold noteVerifiedBlock. destruct (verifiedTip s) as [| |m]; [done..|]. by destruct (m <? h). }
  split.
  - split; [by rewrite E1|]. rewrite E3. intros Ho _. destruct (Hup Ho) as (? & ? & ?).
    split; rewrite E4; [|done]. replace (h + 1 - 1) with h by lia. auto.
  - intros _. unfold noteVerifiedBlock. destruct (verifiedTip s) as [| |m] eqn:Ev; [eauto..|].
    destruct (m <? h); cbn; eauto.
Qed.

Lemma spec_windowLoop i n h lo tip g : h + Z.of_nat n <= tip + 1 ->
  spec i (walking g h tip) (windowLoop cfg i n h lo tip g) (fun v s => v = VOk -> walking g (h + Z.of_nat n) tip s) never.
Proof.
  revert h. induction n as [|n IH]; intros h Hle; cbn [windowLoop].
  - eapply spec_seq; [apply spec_persist_carry, (walking_kept g h tip)|].
    eapply spec_bind; [apply (spec_get i (walking g h tip))|]. intros s0.
    eapply spec_pre; [apply spec_ret|]. intros s _ [Hs _] _. change (Z.of_nat 0) with 0. rewrite Z.add_0_r. exact Hs.
  - assert (forall v (P : client -> Prop), v <> VOk -> spec i P (ret v) (fun v s => v = VOk -> walking g (h + Z.of_nat (S n)) tip s) never) as Hno.
    { intros v P Hv. eapply spec_pre; [apply spec_ret|]. done. }
    eapply spec_bind; [apply (spec_get i (walking g h tip))|]. intros s0.
    destruct (rowsChangedSince g s0); [by apply Hno|].
    eapply spec_bind.
    { eapply spec_pre; [apply (spec_carry i (walking g h tip)); [apply walking_kept|apply (spec_evaluate i g h (h =? tip))]|].
      intros s Hi [Hw _]. split; [|done]. eapply since_mono; [|exact Hi|exact (proj1 Hw)]. unfold below. intros _ [_ ?]. lia. }
    cbn. intros r. eapply spec_bind; [apply spec_get|]. intros s1. destruct (rowsChangedSince g s1) eqn:Eu; [by apply Hno|].
    assert (spec i (fun _ => True) (bind (persistVerifiedTip i g) (fun _ => settleUnverifiedBlock r))
      (fun v s => v = VOk -> r = BOk) never) as Hset.
    { eapply spec_seq; [apply spec_persist|]. destruct r; cbn [settleUnverifiedBlock]; try (eapply spec_pre; [apply spec_ret|]; done).
      eapply spec_seq; [apply spec_halt_true|]. eapply spec_pre; [apply spec_ret|]. done. }
    destruct r; try (eapply spec_conseq; [exact Hset|done|intros v s _ Hv Hvok; by specialize (Hv Hvok)|done]).
    eapply (spec_seq i _ _ _ (walking g (h + 1) tip)).
    + apply spec_modify. intros s Hi [[[_ Hv] Hw] ->]. apply note_walking; try done; [lia|auto].
    + eapply (spec_seq i _ _ _ (walking g (h + 1) tip)).
      * destruct ((h - lo + 1) mod MARKER_WRITE_STEP =? 0); [apply spec_persist_carry, walking_kept|].
        apply (spec_ret i tt (fun _ => walking g (h + 1) tip)).
      * eapply spec_conseq; [apply IH; lia|done| |done]. intros v s _ Hv Hvok.
        replace (h + Z.of_nat (S n)) with (h + 1 + Z.of_nat n) by lia. auto.
Qed.

Lemma walking_le g h h' tip s : INV cfg s -> h' <= h -> walking g h tip s -> walking g h' tip s.
Proof.
  intros Hi Hle [Hs Hn]. split; [|done]. eapply since_mono; [|exact Hi|exact Hs]. intros _ [[? Hu] ?].
  split; [split; [lia|]|done]. intros k Hk. apply Hu. lia.
Qed.

Lemma spec_rangeLoop i n lo tip g : 1 <= batch cfg -> 
  spec i (walking g lo tip) (rangeLoop cfg i n lo tip g) (fun _ _ => True) never.
Proof.
  intros Hb. revert lo. induction n as [|n IH]; intros lo; cbn [rangeLoop]; [apply spec_ret_true|].
  destruct (tip <? lo) eqn:El; [apply spec_ret_true|]. js_simpl.
  set (hi := Z.min (lo + batch cfg - 1) tip).
  eapply spec_bind; [apply (spec_windowLoop i (Z.to_nat (hi - lo + 1)) lo lo tip g); lia|]. intros v.
  destruct v; [|apply spec_ret_true..].
  assert (spec i (walking g (hi + 1) tip) (rangeLoop cfg i n (lo + batch cfg) tip g) (fun _ _ => True) never) as Hrest.
  { destruct (decide (hi < tip)) as [Hlt|Hge].
    - replace (lo + batch cfg) with (hi + 1) by lia. apply IH.
    - destruct n; cbn [rangeLoop]; [apply spec_ret_true|]. rewrite (proj2 (Z.ltb_lt _ _)) by lia. apply spec_ret_true. }
  eapply (spec_pre i (walking g (hi + 1) tip)).
  - destruct (hi <? tip); [|exact Hrest]. eapply spec_bind; [apply (spec_get i (walking g (hi + 1) tip))|]. intros s0.
    destruct (stopping s0); [apply spec_ret_true|].
    eapply (spec_seq i _ _ _ (walking g (hi + 1) tip)); [|exact Hrest].
    eapply spec_pre; [apply spec_yield, kept_stable, walking_kept|tauto].
  - intros s Hi Hs. specialize (Hs eq_refl). by replace (lo + Z.of_nat (Z.to_nat (hi - lo + 1))) with (hi + 1) in Hs by lia.
Qed.

Lemma top_stored (m : gmap Z block) t : top m = Some t -> is_Some (m !! t).
Proof.
  unfold top. revert t. apply (map_fold_weak_ind (fun acc m => forall t, acc = Some t -> is_Some (m !! t))); [done|].
  intros k b m' acc _ IH t Ht. rewrite lookup_insert_is_Some. destruct (decide (k = t)) as [->|Hne]; [by left|]. right.
  split; [done|]. destruct acc as [a|]; [|congruence]. injection Ht as Ht. apply IH. f_equal. lia.
Qed.

Lemma spec_load_kept i P : kept P ->
  spec i P loadVerifiedTip (fun _ => P) (fun _ => P).
Proof.
  intros HP. unfold loadVerifiedTip. eapply spec_bind.
  - apply (spec_dbRead i marker P (fun _ _ => True)); [by apply kept_steady| |done].
    intros _. by apply kept_steady, kept_and.
  - intros [raw|].
    + apply spec_modify. intros s Hi [Hs _]. destruct (load_ok i raw s Hi) as (? & [HK ?] & ?). split_and!; try done.
      by eapply HP.
    + eapply spec_pre; [apply spec_throw|]. tauto.
Qed.

Lemma seed_ok i g tip start s : INV cfg s -> since g (below tip) s -> start <= tip ->
  let s' := set_verifiedTip (At (start - 1)) (set_trusted (Z.max (trusted s) (start - 1))
    (flag_odd (fun s => rowsChangedSince g s || negb (bool_decide (verifiedTip s = Absent))) s)) in
  INV cfg s' /\ guarantee i s s' /\ (since g (below tip) s' /\ numbered s').
Proof.
  intros Hi Hb Hle s'.
  assert (odd s' = false -> odd s = false /\ rowsChangedSince g s = false /\ verifiedTip s = Absent) as Hflag.
  { subst s'. cbn. intros Hf. js_simpl. done. }
  assert (keeps s s') as HK.
  { apply keeps_marker; try done; [cbn; lia|cbn; by intros ->|cbn; eauto]. }
  assert (INV cfg s') as Hi'.
  { intros Ho. destruct (Hflag Ho) as (Ho' & Hu & Ha). destruct (Hi Ho') as [A B C D F K L M N].
    assert (forall n, upto cfg s n -> upto cfg s' n) as Hm by (intros n; apply upto_mono; try done; cbn; lia).
    destruct Hb as [_ Hb]. specialize (Hb Ho' Hu). unfold below in Hb. split; cbn; try done.
    - intros m [= <-] h Hh b _. left. cbn. lia.
    - intros d Hd. apply Hm, B, Hd.
    - intros m [= <-]. lia.
    - intros d m Hd _. rewrite (N Ha) in Hd. done. }
  split_and!; [done| | |].
  - apply guarantee_marker; try done.
    + intros Hp Ho. destruct (Hflag Ho) as (_ & [_ Hu]%unchanged_iff & _). lia.
    + intros _. split; [done|]. intros Ho m Hm. destruct (Hflag Ho) as (_ & _ & Ha). congruence.
  - eapply since_kept; [apply settled_below|exact HK|exact Hi'|exact Hb].
  - intros _. cbn. eauto.
Qed.

Lemma spec_seed i g tip E :
  spec i (since g (below tip)) (seedVerifiedTip tip g) (fun _ s => since g (below tip) s /\ numbered s) E.
Proof.
  unfold seedVerifiedTip. eapply spec_bind.
  - apply (spec_dbRead i legacy (since g (below tip)) (fun _ _ => True)); [apply kept_steady, since_kept, settled_below| |done].
    intros _. apply kept_steady, kept_and; [apply since_kept, settled_below|apply kept_True].
  - intros l. apply spec_modify. intros s Hi [Hs _].
    exact (seed_ok i g tip (match l with Some (Some l) => Z.min l tip | _ => tip end) s Hi Hs ltac:(destruct l as [[]|]; lia)).
Qed.

Lemma start_walking g tip s m : INV cfg s -> verifiedTip s = At m -> since g (below tip) s -> numbered s ->
  walk_start cfg m <= tip -> walking g (walk_start cfg m) tip s.
Proof.
  intros Hi Hm [Hg Hb] Hn Hle. split; [|done]. split; [done|]. intros Ho Hu. specialize (Hb Ho Hu). unfold below in Hb.
  split; [|done]. split; [lia|]. intros h Hh. destruct (Hi Ho) as [A B C D F K L M N].
  unfold walk_start in Hh. destruct (bootstrapBase cfg) as [b|] eqn:Eb; [|apply (A m Hm); lia].
  destruct (decide (h <= m)) as [?|?]; [by apply (A m Hm)|]. intros r Hr. rewrite (D b h eq_refl) in Hr by lia. done.
Qed.

Lemma spec_walk i : 1 <= batch cfg -> spec i (fun _ => True) (walkUnverifiedTail cfg i) (fun _ _ => True) never.
Proof.
  intros Hb. unfold walkUnverifiedTail. eapply spec_bind; [apply (spec_get i (fun _ => True))|]. intros s0. cbv zeta.
  destruct (rowsChangedSince (rowGen s0) s0); [apply spec_ret_true|]. set (g := rowGen s0).
  eapply spec_bind.
  { eapply spec_pre; [apply (spec_read_since i g (fun s => top (rows s)) (fun _ => True)
      (fun t s => match t with Some t => t < next s | None => True end))|].
    - apply settled_pure.
    - intros [t|]; [apply settled_below|apply settled_pure].
    - intros s Hs _. destruct (top (rows s)) as [t|] eqn:Et; [|done]. by apply (i_rows _ _ Hs), top_stored.
    - intros s _ [_ ->]. split; [subst g; lia|done]. }
  intros [[tip|]|]; try apply spec_ret_true.
  set (P := since g (below tip)). assert (kept P) as HP by apply since_kept, settled_below.
  eapply (spec_pre i P); [|intros s _ [_ Hv]; exact (Hv (Some tip) eq_refl)].
  eapply (spec_bind i _ _ _ (fun r s => r <> None -> P s /\ numbered s)).
  - eapply (spec_try i _ _ _ _ (fun _ _ => True)); [|intros e; eapply spec_pre; [apply spec_ret|]; by intros s _ _ []].
    eapply spec_bind; [apply (spec_get i P)|]. intros s1. eapply (spec_seq i _ _ _ P).
    { destruct (bool_decide (verifiedTip s1 = Unset)).
      - eapply spec_conseq; [by apply spec_load_kept|tauto|done|done].
      - eapply spec_pre; [apply (spec_ret i tt (fun _ => P))|tauto]. }
    eapply spec_bind; [apply (spec_get i P)|]. intros s2.
    assert (spec i (fun s => P s /\ s = s2) (bind (seedVerifiedTip tip g) (fun _ => ret (Some true)))
              (fun r s => r <> None -> P s /\ numbered s) (fun _ _ => True)) as Hseed.
    { eapply (spec_seq i _ _ _ (fun s => P s /\ numbered s)); [eapply spec_pre; [apply spec_seed|tauto]|].
      eapply spec_pre; [apply spec_ret|]. intros s _ Hs _. exact Hs. }
    destruct (verifiedTip s2) as [| |m] eqn:Em; [exact Hseed..|]. destruct (tip <? m); [exact Hseed|].
    eapply spec_pre; [apply spec_ret|]. intros s _ [Hs ->] _. split; [done|]. intros _. eauto.
  - intros [seeded|]; [|apply spec_ret_true]. eapply (spec_pre i (fun s => P s /\ numbered s)); [|intros s _ Hs; by apply Hs].
    eapply spec_bind; [apply (spec_get i (fun s => P s /\ numbered s))|]. intros s3. cbv zeta.
    set (m := match verifiedTip s3 with At m => m | _ => -1 end).
    destruct (tip <? walk_start cfg m) eqn:El; [apply spec_ret_true|]. js_simpl.
    eapply spec_bind.
    + eapply (spec_pre i (walking g (walk_start cfg m) tip)).
      * by apply (spec_rangeLoop i (Z.to_nat (tip - walk_start cfg m + 1) + 1)).
      * intros s Hi [[Hs Hn] ->]. destruct (verifiedTip s3) as [| |m'] eqn:Ev; [| |by apply start_walking].
        1,2: split; [|done]; destruct Hs as [Hg _]; split; [done|]; intros Ho; destruct (Hn Ho) as [? ?]; congruence.
    + intros v. destruct v; try apply spec_ret_true. eapply (spec_seq i _ _ _ (fun _ => True)); [|apply spec_ret_true].
      destruct seeded; [|apply spec_ret_true]. eapply (spec_seq i _ _ _ (fun _ => True)); [|apply spec_ret_true].
      apply (spec_softWrite i _ (fun _ => True)); [apply kept_steady, kept_True|]. intros s Hi _.
      assert (same_core s (set_legacy None s)) as Hc by done.
      split_and!; [by eapply same_core_inv|by apply same_core_guarantee|done].
Qed.

Lemma spec_core_true i f E : (forall s, same_core s (f s) /\ applyLock (f s) = applyLock s /\ markerWrites (f s) = markerWrites s) ->
  spec i (fun _ => True) (modify f) (fun _ _ => True) E.
Proof. intros Hf. by apply (spec_core i f (fun _ => True)). Qed.
Lemma spec_yield_true i E : spec i (fun _ => True) yield (fun _ _ => True) E.
Proof. apply spec_yield, kept_stable, kept_True. Qed.

Lemma spec_tail i : 1 <= batch cfg -> spec i (fun _ => True) (verifyUnverifiedTail cfg i) (fun _ _ => True) never.
Proof.
  intros Hb. unfold verifyUnverifiedTail. eapply spec_bind; [apply (spec_get i (fun _ => True))|]. intros s0.
  destruct (halted s0); [apply spec_ret_true|]. destruct (tailVerify s0).
  - cbv zeta. eapply (spec_seq i _ _ _ (fun _ => True)).
    + eapply spec_pre; [eapply spec_post_true, (spec_await i _ (fun _ => True)), kept_stable, kept_True|done].
    + eapply spec_bind; [apply (spec_get i (fun _ => True))|]. intros s1. apply spec_ret_true.
  - eapply (spec_seq i _ _ _ (fun _ => True)); [eapply spec_pre; [apply spec_core_true; intros s; repeat split|done]|].
    eapply spec_bind; [by apply spec_walk|]. intros v.
    eapply (spec_seq i _ _ _ (fun _ => True)); [apply spec_core_true; intros s; repeat split|].
    eapply spec_seq; [apply spec_yield_true|apply spec_ret_true].
Qed.

(** ** Landing blocks *)
Lemma commit_ok i n b s : INV cfg s -> has_lock i s ->
  INV cfg (commit cfg n b s) /\ guarantee i s (commit cfg n b s)
  /\ (odd (commit cfg n b s) = false -> n < next (commit cfg n b s)) /\ has_lock i (commit cfg n b s).
Proof.
  intros Hi Hh.
  assert (odd (commit cfg n b s) = false -> odd s = false /\ next s = n /\ forall b0, bootstrapBase cfg = Some b0 -> b0 <= n) as Hflag.
  { cbn. intros Hf. js_simpl. split_and!; [done..|]. intros b0 Hb. rewrite Hb in *. js_simpl. lia. }
  assert (forall h, h <> n -> rows (commit cfg n b s) !! h = rows s !! h) as Hrow by (intros h Hne; cbn; by rewrite lookup_insert_ne).
  split_and!.
  - intros Ho. destruct (Hflag Ho) as (Ho' & Hn & Hb). destruct (Hi Ho') as [A B C D F K L M N].
    assert (forall k, k < n -> upto cfg s k -> upto cfg (commit cfg n b s) k) as Hu.
    { intros k Hk Hu h Hle x Hx. rewrite Hrow in Hx by lia. unfold pred_hash. rewrite Hrow by lia. by apply Hu. }
    split; try done.
    + intros m Hm. apply Hu; [|auto]. specialize (F m Hm). lia.
    + intros d Hd. apply Hu; [|auto]. specialize (K d Hd). lia.
    + intros h Hs. change (h < n + 1). destruct (decide (h = n)) as [->|Hne]; [lia|]. rewrite Hrow in Hs by done.
      specialize (C h Hs). lia.
    + intros b0 h Hb0 Hlt. rewrite Hrow; [by eapply D|]. specialize (Hb b0 Hb0). lia.
    + intros m Hm. change (m < n + 1). specialize (F m Hm). lia.
    + intros d Hd. change (d < n + 1). specialize (K d Hd). lia.
  - apply guarantee_own; [|done|by right]. split; try done; cbn [rowGen commit set_rows set_next flag_odd set_odd]; try lia.
    + cbn. by intros ->.
    + intros _ _ Ho. destruct (Hflag Ho) as (_ & Hn & _). split_and!; [cbn; lia|cbn; lia|]. intros h Hlt. apply Hrow. lia.
  - intros _. cbn. lia.
  - done.
Qed.

Lemma commit_range_ok i bs n s : INV cfg s -> has_lock i s ->
  INV cfg (commit_range cfg n bs s) /\ guarantee i s (commit_range cfg n bs s) /\ has_lock i (commit_range cfg n bs s).
Proof.
  revert n s. induction bs as [|b bs IH]; intros n s Hi Hh; cbn [commit_range]; [split_and!; [done|apply guarantee_refl|done]|].
  destruct (commit_ok i n b s Hi Hh) as (Hi' & Hg & _ & Hh'). destruct (IH (n + 1) _ Hi' Hh') as (? & ? & ?).
  split_and!; [done| |done]. by eapply guarantee_trans.
Qed.

Lemma spec_applyBlock i g n b :
  spec i (fun s => since g (fun _ => True) s /\ has_lock i s) (applyBlock cfg n b)
    (fun _ s => since g (below n) s /\ has_lock i s) (fun _ s => True /\ has_lock i s).
Proof.
  set (P := fun s => since g (fun _ => True) s /\ has_lock i s).
  assert (steady i P) as HP by (apply steady_and; [apply kept_steady, since_kept, settled_pure|apply has_lock_steady]).
  unfold applyBlock. eapply spec_bind.
  - apply (spec_dbRead i (fun s => rows s !! n) P (fun r => since g (fun s => match r with Some _ => n < next s | None => True end))); [done| |].
    + intros a. apply steady_and; [done|]. apply kept_steady, since_kept. destruct a; [apply settled_below|apply settled_pure].
    + intros s Hi [[Hg _] _]. split; [done|]. intros Ho _. destruct (rows s !! n) as [x|] eqn:E; [|done].
      apply (i_rows _ _ (Hi Ho)). eauto.
  - assert (forall e (P' : client -> Prop), (forall s, P' s -> P s) ->
      spec i P' (throw e) (fun (_ : unit) s => since g (below n) s /\ has_lock i s) (fun _ s => True /\ has_lock i s)) as Hth.
    { intros e P' HP'. eapply spec_pre; [apply (spec_throw i e _ (fun _ s => True /\ has_lock i s))|]. intros s _ Hs. by destruct (HP' s Hs). }
    intros [[x|]|]; [| |apply Hth; tauto].
    + eapply spec_pre; [apply (spec_ret i tt (fun _ s => since g (below n) s /\ has_lock i s))|].
      intros s _ [[_ ?] Hv]. split; [exact (Hv (Some x) eq_refl)|done].
    + eapply (spec_pre i P); [|tauto]. eapply spec_seq; [apply spec_yield, HP|].
      eapply spec_bind; [by apply spec_pop|]. intros r.
      assert (spec i P (bind yield (fun _ => throw "block apply failed")) (fun (_ : unit) s => since g (below n) s /\ has_lock i s)
        (fun _ s => True /\ has_lock i s)) as Hfail by (eapply spec_seq; [apply spec_yield, HP|by apply Hth]).
      destruct r; [|exact Hfail..].
      eapply (spec_seq i _ _ _ (fun s => since g (below n) s /\ has_lock i s)).
      * apply spec_modify. intros s Hi [[Hg _] Hh]. destruct (commit_ok i n b s Hi Hh) as (? & ? & Hlt & ?).
        split; [done|]. split; [done|]. split; [|done]. split; [exact Hg|]. intros Ho _. by apply Hlt.
      * apply spec_yield. apply steady_and; [apply kept_steady, since_kept, settled_below|apply has_lock_steady].
Qed.

Lemma spec_lock_apply i g n b :
  spec i (since g (fun _ => True)) (withApplyLock i (applyBlock cfg n b)) (fun _ => since g (below n)) (fun _ _ => True).
Proof.
  apply spec_lock; [apply since_kept, settled_pure|intros _; apply since_kept, settled_below|intros _; apply kept_True|].
  apply spec_applyBlock.
Qed.

Lemma spec_liveCheck i F : kept F -> spec i F liveCheck (fun _ => F) (fun _ => F).
Proof.
  intros HF. pose proof (kept_steady i F HF) as HS. unfold liveCheck.
  eapply spec_seq; [apply spec_yield, HS|]. eapply spec_bind; [by apply spec_pop|]. intros [].
  - eapply spec_seq; [apply spec_yield, HS|]. apply (spec_ret i false (fun _ => F)).
  - eapply spec_seq; [apply spec_yield, HS|]. apply (spec_throw i _ _ (fun _ => F)).
  - eapply (spec_seq i _ _ _ F); [|apply (spec_ret i true (fun _ => F))].
    unfold haltOnDivergence. eapply spec_bind; [apply spec_get|]. intros s0.
    eapply (spec_pre i F); [|by intros ? ? [? _]]. case_match; [apply (spec_ret i tt (fun _ => F))|].
    eapply (spec_seq i _ _ _ F); [|apply spec_yield, HS]. apply spec_modify. intros s Hi Hs. assert (same_core s (set_halted true s)) as Hc by done.
    assert (INV cfg (set_halted true s)) as Hi' by (by eapply same_core_inv).
    split_and!; [done|by apply same_core_guarantee|]. eapply HF; [by apply same_core_keeps|done|done].
Qed.

(** A live event that starts on the verified tip. *)
Definition live_ready (g n : Z) (d : digest) (s : client) : Prop :=
  (since g (fun s => n - 1 < next s /\ upto cfg s (n - 1)) s /\ numbered s) /\ (n, d) ∈ announced s.
Lemma live_ready_kept g n d : kept (live_ready g n d).
Proof.
  apply kept_and; [apply kept_and; [apply since_kept, settled_upto|apply numbered_kept]|].
  intros s s' HK _. apply (k_ann _ _ HK).
Qed.

Lemma announce_ok i n d s : INV cfg s ->
  let s' := set_announced ((n, d) :: announced s) (flag_odd (fun s => negb (bool_decide (verifiedTip s = At (n - 1)))) s) in
  INV cfg s' /\ guarantee i s s' /\ live_ready (rowGen s) n d s'.
Proof.
  intros Hi s'. assert (odd s' = false -> odd s = false /\ verifiedTip s = At (n - 1)) as Hflag.
  { subst s'. cbn. intros Hf. js_simpl. done. }
  assert (forall k, upto cfg s k -> upto cfg s' k) as Hu.
  { intros k Hk h Hle b Hb. destruct (Hk h Hle b Hb) as [?|[?|[?|?]]]; auto. right. right. right. by apply elem_of_cons; right. }
  assert (INV cfg s') as Hi'.
  { intros Ho. destruct (Hflag Ho) as [Ho' _]. destruct (Hi Ho') as [A B C D F K L M N]. split; try done; auto. }
  split_and!; [done| |].
  - split.
    + split; cbn; [lia|by intros ->|intros x Hx; by apply elem_of_cons; right|done|intros _ _ _; split_and!; auto; lia|done].
    + intros j _. split; intros Hh; cbn; split_and!; eauto with lia.
  - split; [|cbn; left]. split; [|intros Ho; destruct (Hflag Ho); cbn; eauto]. split; [cbn; lia|]. intros Ho _.
    destruct (Hflag Ho) as [Ho' Hv]. pose proof (Hi Ho') as Hs. split; [apply (i_memlt _ _ Hs), Hv|]. apply Hu, (i_mem _ _ Hs), Hv.
Qed.

Lemma spec_any {A} i P (m : async client A) Q E : spec i P m Q E -> spec i P m (fun _ _ => True) (fun _ _ => True).
Proof. intros Hm. by eapply spec_conseq. Qed.

(** The verification of a landed live block, up to the advance of the marker. *)
Lemma spec_live_verified i g n d :
  spec i (fun s => since g (below n) s /\ live_ready g n d s)
    (if bool_decide (bootstrapBase cfg = Some n) then ret (Some true)
     else bind (computeHash n) (fun x => ret (match x with None => None | Some x => Some (bool_decide (x = d)) end)))
    (fun r s => live_ready g n d s /\ (r = Some true -> since g (fun s => n < next s /\ vouched cfg s n) s))
    (fun _ _ => True).
Proof.
  destruct (bool_decide (bootstrapBase cfg = Some n)) eqn:Eb; js_simpl.
  - eapply spec_pre; [apply spec_ret|]. cbn. intros s Hi [Hs Hl]. split; [done|]. intros _.
    eapply since_mono; [|exact Hi|exact Hs]. intros _ Hlt. split; [done|]. intros b _. auto.
  - eapply spec_bind; [apply (spec_carry i (live_ready g n d)); [apply live_ready_kept|apply spec_computeHash]|]. cbn. intros x.
    eapply spec_pre; [apply spec_ret|]. cbn. intros s Hi [[_ Hx] Hl]. split; [done|].
    destruct x as [x|]; [|done]. intros [= He]. js_simpl. subst x. specialize (Hx d eq_refl).
    destruct Hl as [_ Ha]. destruct Hx as [Hg Hx]. split; [done|]. intros Ho Hu. destruct (Hx Ho Hu) as [Hlt Hr].
    split; [done|]. intros b Hb. rewrite Hb in Hr. right. right. right. by rewrite <- Hr.
Qed.

Lemma spec_live i ev : 1 <= batch cfg -> spec i (fun _ => True) (applyAndVerifyBlock cfg i ev) (fun _ _ => True) never.
Proof.
  intros Hb. unfold applyAndVerifyBlock. eapply spec_bind; [apply (spec_get i (fun _ => True))|]. intros s0.
  destruct (halted s0); [apply spec_ret_true|]. eapply (spec_seq i _ _ _ (fun _ => True)); [eapply spec_pre; [apply spec_yield_true|done]|].
  eapply (spec_bind i _ _ _ (fun _ _ => True)).
  { unfold liveBlockBlockedByUnverifiedTail. eapply spec_bind; [apply (spec_get i (fun _ => True))|]. intros s1.
    destruct (verifiedThroughLastApplied s1); [apply spec_ret_true|].
    eapply (spec_bind i _ _ _ (fun _ _ => True)); [eapply spec_pre; [by apply spec_tail|done]|]. intros v. apply spec_ret_true. }
  intros []; [apply spec_ret_true|].
  set (n := ev_block ev). set (d := ev_hash ev).
  eapply spec_bind; [apply (spec_gets i rowGen (fun _ => True))|]. intros g.
  eapply (spec_seq i _ _ _ (live_ready g n d)).
  { apply spec_modify. intros s Hi [_ <-]. by apply announce_ok. }
  eapply (spec_try i _ _ _ _ (fun _ _ => True)); [|intros e; apply spec_ret_true].
  eapply (spec_seq i _ _ _ (fun s => since g (below n) s /\ live_ready g n d s)).
  { eapply spec_conseq; [apply (spec_frame i (live_ready g n d) (since g (fun _ => True)) _ (fun _ => since g (below n)) (fun _ _ => True));
      [apply live_ready_kept|apply spec_lock_apply]| |done|done].
    intros s Hi Hl. split; [|done]. eapply since_mono; [|exact Hi|exact (proj1 (proj1 Hl))]. done. }
  eapply spec_bind; [apply spec_live_verified|]. intros [[]|]; cbn.
  - set (F := fun s => live_ready g n d s /\ since g (fun s => n < next s /\ vouched cfg s n) s).
    assert (kept F) as HF by (apply kept_and; [apply live_ready_kept|apply since_kept, settled_vouched]).
    eapply (spec_pre i F); [|intros s _ [? Hv]; split; auto].
    eapply spec_bind; [eapply spec_conseq; [by apply (spec_liveCheck i F)|done|intros a s _ Hs; exact Hs|done]|]. intros [].
    { apply spec_ret_true. }
    eapply spec_bind; [eapply spec_conseq; [by apply (spec_liveCheck i F)|done|intros a s _ Hs; exact Hs|done]|]. intros [].
    { apply spec_ret_true. }
    eapply (spec_seq i _ _ _ F).
    + apply spec_modify. intros s Hi Hs. assert (same_core s (set_lastApplied (Some n) s)) as Hc by done.
      assert (INV cfg (set_lastApplied (Some n) s)) as Hi' by (by eapply same_core_inv).
      split_and!; [done|by apply same_core_guarantee|..]; apply (HF s); try done; by apply same_core_keeps.
    + eapply spec_never. eapply spec_pre; [apply spec_advance|].
      intros s Hi [[[[Hg Hu] Hn] _] [_ Hv]]. split; [|done]. split; [done|]. intros Ho Hun.
      destruct (Hu Ho Hun) as [_ Hup], (Hv Ho Hun) as [Hlt Hvn]. split; [done|]. intros h Hh.
      destruct (decide (h = n)) as [->|]; [done|]. apply Hup. lia.
  - eapply spec_pre; [apply spec_halt_true|done].
  - eapply spec_pre; [apply (spec_throw i _ _ (fun _ _ => True))|done].
Qed.

Lemma start_below_ok i since_block s : INV cfg s ->
  let s' := set_verifiedTip (At (since_block - 1))
    (flag_odd (fun s => negb (bool_decide (rows s = ∅)) || negb (next s =? since_block) || (0 <? removals s)) s) in
  INV cfg s' /\ guarantee i s s'.
Proof.
  intros Hi s'. assert (odd s' = false -> odd s = false /\ rows s = ∅ /\ next s = since_block /\ removals s <= 0) as Hflag.
  { subst s'. cbn. intros Hf. js_simpl. done. }
  split.
  - intros Ho. destruct (Hflag Ho) as (Ho' & Hr & Hn & Hm). destruct (Hi Ho') as [A B C D F K L M N].
    assert (forall k, upto cfg s' k) as Hu by (intros k h _ b Hb; cbn in Hb; by rewrite Hr in Hb).
    split; try done; cbn; try (intros; apply Hu).
    + intros m [= <-]. lia.
    + intros d m Hd [= <-]. specialize (K d Hd). lia.
  - apply guarantee_marker; try done.
    + apply keeps_marker; try done; [cbn; by intros ->|cbn; eauto].
    + intros Hp Ho. destruct (Hflag Ho) as (_ & _ & _ & ?). lia.
    + intros _. split; [done|]. intros Ho m Hm. destruct (Hflag Ho) as (Ho' & _ & Hn & _).
      exists (since_block - 1). split; [done|]. pose proof (i_memlt _ _ (Hi Ho') m Hm). lia.
Qed.

Lemma spec_catchup i download : 1 <= batch cfg ->
  spec i (fun _ => True) (runIncrementalCatchUp cfg i download) (fun _ _ => True) never.
Proof.
  intros Hb. unfold runIncrementalCatchUp. eapply (spec_bind i _ _ _ (fun _ _ => True)).
  { eapply spec_post_true. apply (spec_dbRead i (fun s => top (rows s)) (fun _ => True) (fun _ _ => True)); try done;
      intros; apply kept_steady; repeat apply kept_and; apply kept_True. }
  intros [dbTip|]; [|apply spec_ret_true]. cbv zeta. set (sinceBlock := default 0 dbTip + 1).
  eapply (spec_bind i _ _ _ (fun _ _ => True)).
  { destruct dbTip; [by apply spec_tail|]. eapply (spec_seq i _ _ _ (fun _ => True)); [|apply spec_ret_true].
    apply spec_modify. intros s Hi _. by destruct (start_below_ok i sinceBlock s Hi). }
  intros []; try apply spec_ret_true. eapply spec_seq; [apply spec_yield_true|].
  eapply (spec_try i _ _ _ _ (fun _ _ => True)); [|intros e; apply spec_ret_true].
  eapply (spec_seq i _ _ _ (fun _ => True)).
  - apply (spec_lock i (fun _ => True) _ (fun _ _ => True) (fun _ _ => True)); [apply kept_True|intros; apply kept_True..|].
    eapply (spec_conseq i (has_lock i) _ _ (fun _ => has_lock i) _ (fun _ => has_lock i)); [|by intros ? ? [_ ?]|done|done].
    eapply spec_seq; [apply spec_yield, has_lock_steady|]. eapply spec_bind; [apply spec_pop, has_lock_steady|]. intros r.
    assert (spec i (has_lock i) (bind yield (fun _ => throw "snapshot apply failed")) (fun _ : unit => has_lock i) (fun _ => has_lock i)) as Hf.
    { eapply spec_seq; [apply spec_yield, has_lock_steady|]. apply (spec_throw i _ _ (fun _ => has_lock i)). }
    destruct r; [|exact Hf..]. eapply (spec_seq i _ _ _ (has_lock i)); [|apply spec_yield, has_lock_steady].
    apply spec_modify. intros s Hi Hh. by apply commit_range_ok.
  - eapply (spec_seq i _ _ _ (fun _ => True)); [apply spec_core_true; intros s; repeat split|].
    eapply (spec_bind i _ _ _ (fun _ _ => True)); [apply spec_never; by apply spec_tail|]. intros _. apply spec_ret_true.
Qed.

(** ** All runs *)
Lemma spec_method i e : 1 <= batch cfg -> spec i (fun _ => True) (method_of cfg i e) (fun _ _ => True) (fun _ _ => True).
Proof.
  intros Hb. eapply spec_any. destruct e as [|ev|n partial|download]; cbn [method_of].
  - eapply (spec_bind i _ _ _ (fun _ _ => True)); [by apply spec_tail|]. intros _. apply spec_ret_true.
  - by apply spec_live.
  - apply spec_reorg.
  - by apply spec_catchup.
Qed.

Lemma restart_inv halt cursor rs s : INV cfg s -> INV cfg (restart halt cursor rs s).
Proof. intros Hi Ho. destruct (Hi Ho) as [A B C D F K L M N]. split; done. Qed.

Lemma run_epoch_inv e s : 1 <= batch cfg -> INV cfg s -> INV cfg (run_epoch cfg e s).
Proof.
  intros Hb Hi. unfold run_epoch. apply (run_invariant (INV cfg) rely guarantee);
    [apply rely_refl|apply rely_trans|intros i j s1 s2; apply guarantee_rely|].
  split; [by apply restart_inv|]. cbn. intros i o Ho. rewrite list_lookup_imap in Ho.
  destruct (ep_events e !! i) as [ev|]; [|done]. injection Ho as <-. apply spawn_safe. by apply spec_method.
Qed.

Lemma run_epochs_inv es s : 1 <= batch cfg -> INV cfg s -> INV cfg (run_epochs cfg es s).
Proof.
  intros Hb. unfold run_epochs. revert s. induction es as [|e es IH]; intros s Hi; cbn; [done|].
  apply IH. by apply run_epoch_inv.
Qed.

End Sound.

(** ** Example stores and runs

    A store whose hash is a polynomial of the payloads. *)
Module Example.
#[local] Instance toy : BlockStore := {| block := Z * Z; digest := Z; digest_eq_dec := _; committed b := Some b.2;
  recompute p b := match b with None => -1 | Some b => default 0 (default None p) * 31 + b.1 end |}.
Definition cfg0 : config := Config 2 None true.
Definition link (prev x : Z) : Z := prev * 31 + x.
Definition h1 : Z := link 0 5.
Definition h2 : Z := link h1 6.
Definition h3 : Z := link h2 7.
Definition h4 : Z := link h3 8.
Definition h3' : Z := link h2 9.
(** An empty replica without a marker. *)
Definition empty_replica : client := Client Unset Unset 0 0 false false None ∅ None None [] [] false [] [] [] (-1) 1 false.
(** [n] rounds over [k] methods. *)
Definition rounds (n k : nat) : list nat := concat (replicate n (seq 0 k)).

(** A catch-up of three blocks; a live block beside a walk; a walk overtaken by a
    reorg; the replacement block. *)
Definition history : list epoch :=
  [Epoch false None [] [CatchUp (fun _ => [(5, h1); (6, h2); (7, h3)])] (rounds 200 1);
   Epoch false (Some 3) [] [Live (LiveEvent 4 (8, h4) h4); Walk] (rounds 100 2);
   Epoch false (Some 4) [] [Walk; Reorg 3 []; Walk] (replicate 60 0%nat ++ rounds 60 3);
   Epoch false (Some 2) [] [Live (LiveEvent 3 (9, h3') h3')] (rounds 100 1)].

Lemma empty_sound : sound cfg0 empty_replica.
Proof. split; try done; try lia. by intros h [x Hx]. Qed.


(** A catch-up onto an empty replica marks its start in memory only.  Run to the
    end, the walk halts on the bad second block; stopped after the rows landed, the
    next start finds no marker, seeds it below the tip and verifies the tip alone. *)
Definition bad_range : event := CatchUp (fun _ => [(5, h1); (60, h2); (7, h3)]).
Lemma crash_skips_unmarked_range :
  (let s := run_epochs cfg0 [Epoch false None [] [bad_range] (rounds 200 1)] empty_replica in
   (halted s, marker s)) = (true, Some 1)
  /\ (let s := run_epochs cfg0 [Epoch false None [] [bad_range] (replicate 8 0%nat);
                                Epoch false (Some 3) [] [Walk] (rounds 100 1)] empty_replica in
      (halted s, verifiedTip s, marker s, odd s)) = (false, At 3, Some 3, false).
Proof. vm_compute. split; reflexivity. Qed.

(** The load of a walk that began before a rollback finishes after the rollback
    lowered the marker: the marker in memory is back above the rows. *)
Lemma stale_load_overwrites_lowering :
  (let s := run_epochs cfg0 (take 2 history ++
              [Epoch false (Some 4) [] [Walk; Reorg 3 []] (replicate 4 0%nat ++ replicate 60 1%nat ++ replicate 60 0%nat)])
            empty_replica in
   (verifiedTip s, marker s, top (rows s), odd s)) = (At 4, Some 2, Some 2, true).
Proof. vm_compute. reflexivity. Qed.

(** A marker write whose query fails is reported as written: the marker in memory is
    recorded as durable while the database has none, and a later write of it is
    skipped. *)
Lemma failed_write_recorded_as_persisted :
  (let s := run_epochs cfg0 [Epoch false None (replicate 7 Good ++ [Fault])
                               [CatchUp (fun _ => [(5, h1)]); Walk] (rounds 100 1 ++ rounds 100 2)] empty_replica in
   (verifiedTip s, persistedTip s, marker s)) = (At 1, At 1, None).
Proof. vm_compute. reflexivity. Qed.
End Example.
