(* ===== verification/VerifiedTipProgress.v ===== *)
(** * VerifiedTipProgress: what a walk finds when nothing disturbs it

    The functional behaviour of [verifyUnverifiedTail] (client/verified_tip.js) run
    alone with a database that answers: the walk ends, it stops at the first block
    that does not reproduce its committed hash, and both markers are left at the
    block before it. *)

From S2P Require Import Prelude Async VerifiedTip.

Section Progress.
Context `{BlockStore}.
Variable cfg : config.

(** The quiet state of a walk over the rows [m0] at generation [g] with the marker
    in memory at [v]: no fault pending, no removal, no other marker write. *)
Record quiet (m0 : gmap Z block) (g v : Z) (hf : bool) (s : client) : Prop := {
  q_replies : replies s = [];
  q_writes : markerWrites s = [];
  q_removals : removals s = 0;
  q_gen : rowGen s = g;
  q_stop : stopping s = false;
  q_halted : halted s = hf;
  q_rows : rows s = m0;
  q_tip : verifiedTip s = At v;
  q_marker : forall p, persistedTip s = At p -> marker s = Some p;
}.

Lemma quiet_unchanged m0 g v hf s : quiet m0 g v hf s -> rowsChangedSince g s = false.
Proof. intros [_ _ Hr Hg _ _ _ _ _]. unfold rowsChangedSince. by rewrite Hr, Hg, Z.eqb_refl. Qed.

(** ** Running alone *)
Lemma alone_bind {A B} (m : async client A) (k : A -> async client B) s s1 a :
  alone m s = (s1, Value a) -> alone (bind m k) s = alone (k a) s1.
Proof.
  intros E. unfold alone, bind in *. destruct (m s) as [s0 o]. by rewrite (finish_continue o k throw s0), E.
Qed.
Lemma alone_try {A} (m : async client A) h s s1 a :
  alone m s = (s1, Value a) -> alone (try_catch m h) s = (s1, Value a).
Proof.
  intros E. unfold alone, try_catch in *. destruct (m s) as [s0 o]. by rewrite (finish_continue o ret h s0), E.
Qed.
Lemma alone_get {B} (k : client -> async client B) s : alone (bind get k) s = alone (k s) s.
Proof. by apply alone_bind. Qed.
Lemma alone_modify {B} f (k : unit -> async client B) s : alone (bind (modify f) k) s = alone (k tt) (f s).
Proof. by apply alone_bind. Qed.
Lemma alone_yield {B} (k : unit -> async client B) s : alone (bind yield k) s = alone (k tt) s.
Proof. by apply alone_bind. Qed.
Lemma alone_pop s : replies s = [] -> alone pop s = (s, Value Good).
Proof. intros E. unfold alone, pop. by rewrite E. Qed.
Lemma alone_dbRead {A} (f : client -> A) s : replies s = [] -> alone (dbRead f) s = (s, Value (Some (f s))).
Proof. intros E. unfold dbRead. rewrite alone_yield. by rewrite (alone_bind _ _ _ _ _ (alone_pop s E)). Qed.
Lemma alone_dbWrite f s : replies s = [] -> alone (dbWrite f) s = (f s, Value true).
Proof. intros E. unfold dbWrite. rewrite alone_yield. by rewrite (alone_bind _ _ _ _ _ (alone_pop s E)). Qed.

(** The marker write of a quiet walk lands. *)
Lemma alone_persist m0 i g v hf s : quiet m0 g v hf s ->
  exists s', alone (persistVerifiedTip i g) s = (s', Value tt) /\ quiet m0 g v hf s' /\ marker s' = Some v.
Proof.
  intros Hq. pose proof (quiet_unchanged _ _ _ _ _ Hq) as Hu. destruct Hq as [E1 E2 E3 E4 E5 E6 E7 E8 E9].
  unfold persistVerifiedTip, queueMarkerWrite. rewrite alone_modify, E2.
  set (s0 := set_markerWrites ([] ++ [i]) s).
  assert (alone (await_until (fun s => bool_decide (head (markerWrites s) = Some i))) s0 = (s0, Value tt)) as Ha.
  { unfold alone, await_until. cbn. by rewrite bool_decide_eq_true_2. }
  rewrite (alone_bind _ _ _ _ _ Ha). unfold alone, finally, bind, get, writeVerifiedTip, setMarker.
  cbn [continue]. change (rowsChangedSince g s0) with (rowsChangedSince g s). rewrite Hu.
  change (verifiedTip s0) with (verifiedTip s). change (persistedTip s0) with (persistedTip s). rewrite E8.
  destruct (bool_decide (persistedTip s = At v)) eqn:Ep; cbn.
  - apply bool_decide_eq_true in Ep. eexists. split; [reflexivity|]. split; [by split|by apply E9].
  - unfold bind, yield, await_until, pop, modify, ret. cbn. rewrite E1. cbn.
    eexists. split; [reflexivity|]. split; [|done]. split; try done. cbn. by intros p [= <-].
Qed.

(** ** The verdict a stored block deserves *)
Definition judge (m0 : gmap Z block) (h : Z) : block_result :=
  match committed <$> m0 !! h with
  | Some (Some e) =>
      if bool_decide (bootstrapBase cfg = Some h) || bool_decide (recompute (pred_hash m0 h) (m0 !! h) = e)
      then BOk else BHalt "local-recompute-divergence"
  | _ => BUnresolved
  end.

(** The first of [n] blocks from [h] that does not pass. *)
Fixpoint first_bad (m0 : gmap Z block) (n : nat) (h : Z) : option (Z * block_result) :=
  match n with
  | O => None
  | S n' => match judge m0 h with BOk => first_bad m0 n' (h + 1) | r => Some (h, r) end
  end.
Definition outcome_of (bad : option (Z * block_result)) : verdict :=
  match bad with None => VOk | Some (_, BHalt _) => VHalted | Some _ => VHeld end.

Lemma first_bad_app m0 a b h :
  first_bad m0 (a + b) h = match first_bad m0 a h with None => first_bad m0 b (h + Z.of_nat a) | r => r end.
Proof.
  revert h; induction a as [|a IH]; intros h; cbn [Nat.add first_bad]; [by rewrite Z.add_0_r|].
  destruct (judge m0 h); try done. rewrite IH. by replace (h + 1 + Z.of_nat a) with (h + Z.of_nat (S a)) by lia.
Qed.
Lemma first_bad_ge m0 n h b r : first_bad m0 n h = Some (b, r) -> h <= b.
Proof.
  revert h; induction n as [|n IH]; intros h; cbn [first_bad]; [done|].
  destruct (judge m0 h); try (intros [= <- _]; lia). intros E. apply IH in E. lia.
Qed.

Lemma alone_evaluate m0 h t s : rows s = m0 -> replies s = [] ->
  alone (evaluateCommittedBlock cfg h t) s = (s, Value (judge m0 h)).
Proof.
  intros Er Ep. unfold evaluateCommittedBlock, judge.
  assert (forall A (m : async client (option A)) a, alone m s = (s, Value (Some a)) -> alone (retry3 m) s = (s, Value (Some a))) as Hr.
  { intros A m a E. unfold retry3. by rewrite (alone_bind _ _ _ _ _ E). }
  rewrite (alone_bind _ _ _ _ _ (Hr _ _ _ (alone_dbRead _ _ Ep))), Er.
  destruct (committed <$> m0 !! h) as [[e|]|] eqn:E; try done.
  assert (alone (verifyRecompute cfg h e) s = (s, Value (Some (bool_decide (bootstrapBase cfg = Some h) || bool_decide (recompute (pred_hash m0 h) (m0 !! h) = e))))) as Hv.
  { unfold verifyRecompute. destruct (bool_decide (bootstrapBase cfg = Some h)); [done|].
    assert (alone (computeHash h) s = (s, Value (Some (recompute (pred_hash m0 h) (m0 !! h))))) as Hc.
    { unfold computeHash. rewrite (alone_bind _ _ _ _ _ (alone_dbRead _ _ Ep)), Er.
      rewrite (alone_bind _ _ _ _ _ (alone_dbRead _ _ Ep)), Er. done. }
    by rewrite (alone_bind _ _ _ _ _ (Hr _ _ _ Hc)). }
  rewrite (alone_bind _ _ _ _ _ Hv).
  destruct (bool_decide (bootstrapBase cfg = Some h) || bool_decide (recompute (pred_hash m0 h) (m0 !! h) = e)); [|done].
  destruct t; [|done]. unfold evaluateStoredStateHash. destruct (verifyStateHash cfg); cbn [negb]; [|done].
  by rewrite alone_yield, (alone_bind _ _ _ _ _ (alone_pop s Ep)).
Qed.

(** ** The walk *)

(** Where the marker stands when the blocks from [h] below [b] passed. *)
Definition reached (v h b : Z) : Z := if b =? h then v else b - 1.
Definition stop_of (bad : option (Z * block_result)) (end_ : Z) : Z := match bad with Some (b, _) => b | None => end_ end.
Definition halts (bad : option (Z * block_result)) : bool := match bad with Some (_, BHalt _) => true | _ => false end.

(** What a stretch of the walk over [n] blocks from [h] leaves. *)
Definition walked m0 g v hf (n : nat) h (res : client * ending verdict) : Prop :=
  let bad := first_bad m0 n h in
  let v' := reached v h (stop_of bad (h + Z.of_nat n)) in
  exists s', res = (s', Value (outcome_of bad)) /\ quiet m0 g v' (hf || halts bad) s' /\ marker s' = Some v'.

Lemma quiet_note m0 g v hf h s : v < h -> quiet m0 g v hf s -> quiet m0 g h hf (noteVerifiedBlock h s).
Proof.
  intros Hv [E1 E2 E3 E4 E5 E6 E7 E8 E9]. unfold noteVerifiedBlock. rewrite E8.
  rewrite (proj2 (Z.ltb_lt v h) Hv). by split.
Qed.

Lemma judge_held m0 h : judge m0 h <> BHeld.
Proof. unfold judge. destruct (committed <$> m0 !! h) as [[e|]|]; try done. by case_match. Qed.

Lemma alone_halt m0 g v hf s : quiet m0 g v hf s ->
  exists s', alone haltOnDivergence s = (s', Value tt) /\ quiet m0 g v true s' /\ marker s' = marker s.
Proof.
  intros Hq. pose proof (q_halted _ _ _ _ _ Hq) as Eh. unfold haltOnDivergence. rewrite alone_get. destruct (halted s).
  - subst hf. by exists s.
  - exists (set_halted true s). split; [reflexivity|]. split; [|done]. destruct Hq. by split.
Qed.

Lemma walk_window m0 i g hf lo tip n : forall v h s, v < h -> quiet m0 g v hf s ->
  walked m0 g v hf n h (alone (windowLoop cfg i n h lo tip g) s).
Proof.
  induction n as [|n IH]; intros v h s Hv Hq; unfold walked; cbn [windowLoop first_bad].
  - cbn [stop_of halts outcome_of]. unfold reached. rewrite Z.add_0_r, Z.eqb_refl, orb_false_r.
    destruct (alone_persist _ i _ _ _ _ Hq) as (s' & E & Hq' & Hm).
    rewrite (alone_bind _ _ _ _ _ E), alone_get, (quiet_unchanged _ _ _ _ _ Hq'). by exists s'.
  - rewrite alone_get, (quiet_unchanged _ _ _ _ _ Hq).
    rewrite (alone_bind _ _ _ _ _ (alone_evaluate m0 h (h =? tip) s (q_rows _ _ _ _ _ Hq) (q_replies _ _ _ _ _ Hq))).
    rewrite alone_get, (quiet_unchanged _ _ _ _ _ Hq).
    assert (forall r, r <> BOk -> r <> BHeld -> exists s',
      alone (bind (persistVerifiedTip i g) (fun _ => settleUnverifiedBlock r)) s = (s', Value (outcome_of (Some (h, r))))
      /\ quiet m0 g v (hf || halts (Some (h, r))) s' /\ marker s' = Some v) as Hbad.
    { intros r Hr1 Hr2. destruct (alone_persist _ i _ _ _ _ Hq) as (s' & E & Hq' & Hm).
      rewrite (alone_bind _ _ _ _ _ E). destruct r; try done.
      - exists s'. cbn [halts]. rewrite orb_false_r. done.
      - cbn [settleUnverifiedBlock]. destruct (alone_halt _ _ _ _ _ Hq') as (s1 & E1 & Hq1 & Hm1).
        rewrite (alone_bind _ _ _ _ _ E1). exists s1. split; [reflexivity|]. rewrite orb_true_r. split; [done|congruence]. }
    pose proof (judge_held m0 h) as Hh.
    destruct (judge m0 h) as [| | |why] eqn:Ej; try done;
      try (cbn [stop_of]; unfold reached; rewrite Z.eqb_refl; by apply Hbad).
    rewrite alone_modify. pose proof (quiet_note _ _ _ _ h _ Hv Hq) as Hq1.
    assert (exists s2, alone (if (h - lo + 1) mod MARKER_WRITE_STEP =? 0 then persistVerifiedTip i g else ret tt)
      (noteVerifiedBlock h s) = (s2, Value tt) /\ quiet m0 g h hf s2) as (s2 & E2 & Hq2).
    { case_match; [|by eexists]. destruct (alone_persist _ i _ _ _ _ Hq1) as (s' & E & Hq' & Hm). by exists s'. }
    rewrite (alone_bind _ _ _ _ _ E2). specialize (IH h (h + 1) s2 ltac:(lia) Hq2). unfold walked in IH.
    replace (h + Z.of_nat (S n)) with (h + 1 + Z.of_nat n) by lia.
    assert (reached v h (stop_of (first_bad m0 n (h + 1)) (h + 1 + Z.of_nat n))
            = reached h (h + 1) (stop_of (first_bad m0 n (h + 1)) (h + 1 + Z.of_nat n))) as ->; [|exact IH].
    assert (h + 1 <= stop_of (first_bad m0 n (h + 1)) (h + 1 + Z.of_nat n)) as Hge.
    { destruct (first_bad m0 n (h + 1)) as [[b r]|] eqn:Eb; cbn; [by eapply first_bad_ge|lia]. }
    revert Hge. generalize (stop_of (first_bad m0 n (h + 1)) (h + 1 + Z.of_nat n)). intros x Hge. unfold reached.
    destruct (Z.eqb_spec x h), (Z.eqb_spec x (h + 1)); lia.
Qed.

Lemma reached_trans v h a b : v < h -> h < a -> a <= b -> reached (a - 1) a b = reached v h b.
Proof. intros ???. unfold reached. destruct (Z.eqb_spec b a), (Z.eqb_spec b h); lia. Qed.

Lemma walk_range m0 i g stop n : 1 <= batch cfg -> forall v lo s, v < lo -> lo <= stop -> stop - lo + 1 < Z.of_nat n ->
  quiet m0 g v false s -> walked m0 g v false (Z.to_nat (stop - lo + 1)) lo (alone (rangeLoop cfg i n lo stop g) s).
Proof.
  intros Hb. induction n as [|n IH]; intros v lo s Hv Hlo Hn Hq; [lia|]. cbn [rangeLoop].
  rewrite (proj2 (Z.ltb_ge stop lo) Hlo). unfold verifyCommittedWindow.
  set (hi := Z.min (lo + batch cfg - 1) stop).
  pose proof (walk_window m0 i g false lo stop (Z.to_nat (hi - lo + 1)) v lo s Hv Hq) as Hw. unfold walked in *.
  assert (Z.to_nat (stop - lo + 1) = (Z.to_nat (hi - lo + 1) + Z.to_nat (stop - hi))%nat) as En by lia.
  rewrite En, first_bad_app. destruct Hw as (s' & Ew & Hq' & Hm). rewrite (alone_bind _ _ _ _ _ Ew).
  destruct (first_bad m0 (Z.to_nat (hi - lo + 1)) lo) as [[b r]|] eqn:Ef.
  { exists s'. split; [|done]. by destruct r. }
  cbn [stop_of outcome_of halts] in Hq', Hm |- *. rewrite orb_false_r in Hq'.
  assert (reached v lo (lo + Z.of_nat (Z.to_nat (hi - lo + 1))) = hi) as Er.
  { unfold reached. destruct (Z.eqb_spec (lo + Z.of_nat (Z.to_nat (hi - lo + 1))) lo); lia. }
  rewrite Er in *. replace (lo + Z.of_nat (Z.to_nat (hi - lo + 1))) with (hi + 1) by lia.
  replace (lo + Z.of_nat (Z.to_nat (hi - lo + 1) + Z.to_nat (stop - hi))) with (stop + 1) by lia.
  destruct (Z.ltb_spec hi stop) as [Hlt|Hge].
  - rewrite alone_get, (q_stop _ _ _ _ _ Hq'), alone_yield. replace (lo + batch cfg) with (hi + 1) by lia.
    specialize (IH hi (hi + 1) s' ltac:(lia) ltac:(lia) ltac:(lia) Hq').
    replace (stop - (hi + 1) + 1) with (stop - hi) in IH by lia.
    replace (hi + 1 + Z.of_nat (Z.to_nat (stop - hi))) with (stop + 1) in IH by lia.
    replace (reached v lo (stop_of (first_bad m0 (Z.to_nat (stop - hi)) (hi + 1)) (stop + 1)))
      with (reached hi (hi + 1) (stop_of (first_bad m0 (Z.to_nat (stop - hi)) (hi + 1)) (stop + 1))); [exact IH|].
    replace (reached hi) with (reached (hi + 1 - 1)) by (f_equal; lia). apply reached_trans; [lia..|].
    destruct (first_bad m0 (Z.to_nat (stop - hi)) (hi + 1)) as [[b r]|] eqn:Eb; cbn; [by eapply first_bad_ge|lia].
  - assert (hi = stop) as Eh by lia. replace (stop - hi) with 0 by lia. change (Z.to_nat 0) with O. cbn [first_bad stop_of halts outcome_of orb].
    exists s'. split.
    + destruct n as [|n]; cbn [rangeLoop]; [done|]. by rewrite (proj2 (Z.ltb_lt stop (lo + batch cfg)) ltac:(lia)).
    + assert (reached v lo (stop + 1) = hi) as -> by (unfold reached; destruct (Z.eqb_spec (stop + 1) lo); lia). done.
Qed.

(** The marker the walk starts from: the one in memory, else the durable one. *)
Definition start_marker (s : client) : option Z :=
  match verifiedTip s with At m => Some m | Unset => marker s | Absent => None end.

(** A client at rest over a database that answers, with a marker at or below the
    stored tip. *)
Record at_rest (m tip : Z) (s : client) : Prop := {
  a_replies : replies s = [];
  a_writes : markerWrites s = [];
  a_removals : removals s = 0;
  a_stop : stopping s = false;
  a_halted : halted s = false;
  a_top : top (rows s) = Some tip;
  a_start : start_marker s = Some m;
  a_le : m <= tip;
  a_marker : forall p, persistedTip s = At p -> marker s = Some p;
}.

(** Reading the marker (or using the one in memory) makes the client quiet. *)
Definition loaded (m : Z) (s : client) : client :=
  match verifiedTip s with
  | Unset => set_persistedTip (At m) (set_verifiedTip (At m) (flag_odd (fun s => negb (bool_decide (verifiedTip s = Unset)) || negb (bool_decide (marker s = Some m))) s))
  | _ => s
  end.
Lemma alone_load m tip s : at_rest m tip s ->
  alone (if bool_decide (verifiedTip s = Unset) then loadVerifiedTip else ret tt) s = (loaded m s, Value tt).
Proof.
  intros Ha. unfold loaded. pose proof (a_start _ _ _ Ha) as Es. unfold start_marker in Es.
  destruct (verifiedTip s) eqn:Ev.
  - rewrite bool_decide_eq_true_2 by done. unfold loadVerifiedTip.
    by rewrite (alone_bind _ _ _ _ _ (alone_dbRead _ _ (a_replies _ _ _ Ha))), Es.
  - by rewrite bool_decide_eq_false_2.
  - by rewrite bool_decide_eq_false_2.
Qed.
Lemma loaded_quiet m tip s : at_rest m tip s -> quiet (rows s) (rowGen s) m false (loaded m s) /\ marker (loaded m s) = marker s.
Proof.
  intros Ha. pose proof (a_start _ _ _ Ha) as Es. destruct Ha. unfold start_marker, loaded in *.
  destruct (verifiedTip s) eqn:Ev; [|done|injection Es as ->; by split].
  split; [|done]. split; try done. cbn. by intros p [= <-].
Qed.

(** The number of blocks a walk from [start] to [tip] looks at. *)
Definition blocks_to_walk (start tip : Z) : nat := Z.to_nat (tip - start + 1).

(** C30.  A walk over the unverified tail ends, and it ends where it should: run
    without interference from a client at rest whose database answers,
    [verifyUnverifiedTail] returns; it looks at the stored blocks from the one after
    the marker (or the join base) to the tip; when every one of them is committed and
    reproduces its committed hash it returns ok with the marker at the tip, in memory
    and in the database; otherwise both are left just below the first block that does
    not, and the verdict is a halt (with the client halted) when that block diverges
    and a hold (with no halt) when its committed hash is unresolved.  The rows are
    never changed. *)
Theorem walk_progress i m tip s :
  1 <= batch cfg -> tailVerify s = false -> at_rest m tip s ->
  let start := walk_start cfg m in
  let bad := first_bad (rows s) (blocks_to_walk start tip) start in
  exists s', alone (verifyUnverifiedTail cfg i) s = (s', Value (outcome_of bad))
    /\ rows s' = rows s /\ tailVerify s' = false /\ halted s' = halts bad
    /\ verifiedTip s' = At (reached m start (stop_of bad (Z.max start (tip + 1))))
    /\ (start <= tip -> marker s' = Some (reached m start (stop_of bad (tip + 1)))).
Proof.
  intros Hb Hw Ha start bad. unfold verifyUnverifiedTail. rewrite alone_get, (a_halted _ _ _ Ha), Hw, alone_modify.
  set (s0 := set_tailVerify true s).
  assert (exists s1, alone (walkUnverifiedTail cfg i) s0 = (s1, Value (outcome_of bad))
    /\ quiet (rows s) (rowGen s) (reached m start (stop_of bad (Z.max start (tip + 1)))) (halts bad) s1
    /\ (start <= tip -> marker s1 = Some (reached m start (stop_of bad (tip + 1))))) as (s1 & E & Hq & Hm).
  2:{ rewrite (alone_bind _ _ _ _ _ E), alone_modify, alone_yield. eexists. split; [reflexivity|].
      destruct Hq. repeat (split; [done|]). done. }
  assert (at_rest m tip s0) as Ha0 by (destruct Ha; by split).
  unfold walkUnverifiedTail. rewrite alone_get. unfold rowsChangedSince at 1.
  change (removals s0) with (removals s). change (rowGen s0) with (rowGen s).
  rewrite Z.eqb_refl, (a_removals _ _ _ Ha). cbn [negb orb Z.ltb Z.compare].
  unfold getLastBlock. rewrite (alone_bind _ _ _ _ _ (alone_dbRead _ s0 (a_replies _ _ _ Ha))).
  change (rows s0) with (rows s). rewrite (a_top _ _ _ Ha).
  destruct (loaded_quiet _ _ _ Ha0) as [Hq Hmk]. change (rows s0) with (rows s) in Hq. change (rowGen s0) with (rowGen s) in Hq.
  erewrite alone_bind.
  2:{ apply alone_try. rewrite alone_get, (alone_bind _ _ _ _ _ (alone_load _ _ _ Ha0)), alone_get, (q_tip _ _ _ _ _ Hq).
      by rewrite (proj2 (Z.ltb_ge tip m) (a_le _ _ _ Ha)). }
  cbn beta iota. rewrite alone_get, (q_tip _ _ _ _ _ Hq). fold start.
  destruct (Z.ltb_spec tip start) as [Hlt|Hge].
  - assert (bad = None) as -> by (unfold bad, blocks_to_walk; by replace (Z.to_nat (tip - start + 1)) with O by lia).
    eexists. split; [reflexivity|]. split; [|lia]. cbn [stop_of halts]. unfold reached. rewrite Z.max_l by lia. by rewrite Z.eqb_refl.
  - pose proof (walk_range (rows s) i (rowGen s) tip (Z.to_nat (tip - start + 1) + 1) Hb m start _
      ltac:(unfold start, walk_start; case_match; lia) Hge ltac:(lia) Hq) as Hr.
    unfold walked in Hr. change (first_bad (rows s) (Z.to_nat (tip - start + 1)) start) with bad in Hr.
    replace (start + Z.of_nat (Z.to_nat (tip - start + 1))) with (tip + 1) in Hr by lia. rewrite Z.max_r by lia.
    destruct Hr as (s1 & E & Hq1 & Hm1). unfold verifyCommittedRange. rewrite (alone_bind _ _ _ _ _ E).
    exists s1. split; [|done]. destruct (outcome_of bad); reflexivity.
Qed.
End Progress.

(** Four stored blocks, the last of which does not reproduce its hash, and a marker
    at the first. *)
Module Stale.
#[local] Instance sums : BlockStore := {| block := Z * Z; digest := Z; digest_eq_dec := _; committed b := Some b.2;
  recompute p b := match b with None => -1 | Some b => default 0 (default None p) * 31 + b.1 end |}.
Definition cfg2 : config := Config 2 None true.
Definition stored : gmap Z block := list_to_map [(1, (5, 5)); (2, (6, 161)); (3, (7, 4998)); (4, (8, 0))].
Definition resting : client := Client Unset Unset 0 0 false false None stored (Some 1) None [] [] false [] [] [] (-1) 5 false.
Lemma resting_at_rest : at_rest 1 4 resting.
Proof. split; done. Qed.
Lemma walk_progress_witness : exists s', alone (verifyUnverifiedTail cfg2 0) resting = (s', Value VHalted)
  /\ halted s' = true /\ verifiedTip s' = At 3 /\ marker s' = Some 3.
Proof.
  destruct (walk_progress cfg2 0 1 4 resting ltac:(cbn; lia) ltac:(reflexivity) resting_at_rest) as (s' & E & _ & _ & Eh & Ev & Em).
  exists s'. split; [exact E|]. split; [exact Eh|]. split; [exact Ev|]. apply Em. cbn. lia.
Defined.
End Stale.
