(* ===== verification/Subtrees.v ===== *)
(** * Subtrees: the contract-state root and the locked-escrow leaves

    Models [src/src/contract_state_subtree.js] and
    [src/src/escrow_leaf_subtree.js] over the tables they read.  A table is the
    list of its rows in id order; a strict query throws while the connection is
    failing and otherwise answers from the list; an amount column holds its
    text.  Rows of the journals carry the address, tick and key text their index
    tables resolve to.

    The theorem group: threading the prior block's root through the keys a block
    touched commits exactly the live leaf set, the same root as a full build, with
    a deleted key's tombstone removing its leaf on both paths. *)

From S2P Require Import Prelude Sha256 JsText JsMap Primitives SparseMerkle NodeStore PersistentSMT.

(** ** Tables *)
Record cs_row := CsRow {
  cs_contract_index : N; cs_state_key : string; cs_state_value : option string; cs_block_index : Z }.
Record journal_row := JournalRow {
  j_address : string; j_tick : string; j_locked_amount : option string; j_block_index : Z }.
(** A row of [credits] or [debits]; the amount in units of 10^-18
    ([CAST(amount AS DECIMAL(60,18))]). *)
Record ledger_entry := LedgerEntry { le_address : string; le_tick : string; le_units : Z }.
Record roots_row := RootsRow {
  rr_chain : string; rr_network : string; rr_block_index : Z;
  rr_balances_root : string; rr_stakes_root : string; rr_state_root : string; rr_block_merkle_root : string;
  rr_contract_state_root : option string; rr_contract_state_root_shadow : option string;
  rr_balances_root_escrow_shadow : option string }.

Record tables := Tables {
  contract_state : list cs_row;
  escrow_leaf_journal : list journal_row;
  t_credits : list ledger_entry;
  t_debits : list ledger_entry;
  state_tree_roots : list roots_row;
  t_fault : option string }.

Definition strict {A} (db : tables) (answer : A) : result A :=
  match t_fault db with
  | Some e => Throw e
  | None => Ok answer
  end.

(** The rows with the greatest id of each key ([MAX(id) ... GROUP BY key]). *)
Fixpoint winners {R K} `{EqDecision K} (key : R -> K) (rows : list R) : list R :=
  match rows with
  | [] => []
  | r :: rest => if decide (key r ∈ map key rest) then winners key rest else r :: winners key rest
  end.

(** The row of the prior block and one of its columns; an empty text is falsy. *)
Definition prior_row (db : tables) (chain network : string) (blockIndex : Z) : option roots_row :=
  List.find (fun r => bool_decide (rr_chain r = chain) && bool_decide (rr_network r = network)
                      && (rr_block_index r =? blockIndex)) (state_tree_roots db).
Definition truthy (o : option string) : option string :=
  match o with Some s => if bool_decide (s = "") then None else Some s | None => None end.

Section Subtrees.
Context `{HashFn} {St : Type} `{NodeStore St}.

(** [for(const a of l) root = await smt.update(root, key(a), leaf(a))]; a [None]
    step is a [continue]. *)
Definition update_all {A} (step : A -> result (option (bytes * option string))) (st : St * string) (l : list A)
  : result (St * string) :=
  rfold (fun st a =>
           let! kl := step a in
           match kl with
           | None => Ok st
           | Some (k, leaf) => update st.2 k leaf st.1
           end) st l.

(** ** contract_state_subtree.js *)
Definition contractStateLeaf (stateValue : option string) : option string :=
  (fun v => toHex (Buf (leafHash (utf8 v)))) <$> stateValue.

Definition cs_pair (r : cs_row) : N * string := (cs_contract_index r, cs_state_key r).

Definition touchedContractStateKeys (db : tables) (blockIndex : Z) : result (list (N * string)) :=
  strict db (remove_dups (map cs_pair (List.filter (fun r => cs_block_index r =? blockIndex) (contract_state db)))).

Definition latestStateValue (db : tables) (p : N * string) : result (option string) :=
  strict db (last (List.filter (fun r => bool_decide (cs_pair r = p)) (contract_state db)) ≫= cs_state_value).

Definition cs_key (chain network : string) (p : N * string) : result bytes :=
  contractStateKey (JStr chain) (JStr network) (JInt (Z.of_N p.1)) (JStr p.2).

Definition buildFullContractStateRoot (db : tables) (chain network : string) (s : St) : result (St * string) :=
  let! rows := strict db (winners cs_pair (contract_state db)) in
  update_all (fun r =>
    match contractStateLeaf (cs_state_value r) with
    | None => Ok None
    | Some leaf => let! k := cs_key chain network (cs_pair r) in Ok (Some (k, Some leaf))
    end) (s, EMPTY_ROOT_HEX) rows.

Definition resolveContractStateRoot (db : tables) (chain network : string) (blockIndex : Z) (shadow : bool) (s : St)
  : result (St * string) :=
  let! prior := strict db (prior_row db chain network (blockIndex - 1)) in
  let column := if shadow then rr_contract_state_root_shadow else rr_contract_state_root in
  match truthy (prior ≫= column) with
  | None => buildFullContractStateRoot db chain network s
  | Some priorRoot =>
      let! touched := touchedContractStateKeys db blockIndex in
      update_all (fun p =>
        let! v := latestStateValue db p in
        let! k := cs_key chain network p in
        Ok (Some (k, contractStateLeaf v))) (s, priorRoot) touched
  end.

(** ** escrow_leaf_subtree.js *)
Definition ZERO_CANON : string := "0.000000000000000000".

Definition escrowLeaf (lockedAmount : option string) : result (option string) :=
  match lockedAmount with
  | None => Ok None
  | Some s =>
      if bool_decide (s = "") then Ok None
      else
        let! canon := canonicalAmount (JStr s) in
        if bool_decide (canon = ZERO_CANON) then Ok None
        else Ok (Some (toHex (Buf (leafHash (utf8 canon)))))
  end.

Definition j_pair (r : journal_row) : string * string := (j_address r, j_tick r).

Definition touchedEscrowKeys (db : tables) (blockIndex : Z) : result (list (string * string)) :=
  strict db (remove_dups (map j_pair (List.filter (fun r => j_block_index r =? blockIndex) (escrow_leaf_journal db)))).

Definition latestLockedAmount (db : tables) (p : string * string) (asOfBlock : option Z) : result (option string) :=
  let bounded (r : journal_row) := match asOfBlock with Some b => j_block_index r <=? b | None => true end in
  strict db (last (List.filter (fun r => bool_decide (j_pair r = p) && bounded r) (escrow_leaf_journal db))
             ≫= j_locked_amount).

Fixpoint escrow_rows (rows : list journal_row) : result (list (string * string * string)) :=
  match rows with
  | [] => Ok []
  | r :: rest =>
      let! leaf := escrowLeaf (j_locked_amount r) in
      let! out := escrow_rows rest in
      Ok (match leaf with None => out | Some l => (j_address r, j_tick r, l) :: out end)
  end.
Definition liveEscrowLeaves (db : tables) : result (list (string * string * string)) :=
  let! rows := strict db (winners j_pair (escrow_leaf_journal db)) in
  escrow_rows rows.

Definition esc_key (chain network : string) (p : string * string) : result bytes :=
  escrowKey (JStr chain) (JStr network) (JStr p.1) (JStr p.2).

Definition applyEscrowLeaves (db : tables) (rootHex chain network : string) (blockIndex : Z) (s : St)
  : result (St * string) :=
  let! touched := touchedEscrowKeys db blockIndex in
  update_all (fun p =>
    let! amount := latestLockedAmount db p None in
    let! leaf := escrowLeaf amount in
    let! k := esc_key chain network p in
    Ok (Some (k, leaf))) (s, rootHex) touched.

(** [balanceUpdates] is [None] when the committed path did a full recompute;
    [fullBuild] is the caller's rebuild with the escrow leaves forced on. *)
Definition resolveShadowBalancesRoot (db : tables) (chain network : string) (blockIndex : Z)
    (balanceUpdates : option (list (bytes * option string))) (fullBuild : St -> result (St * string)) (s : St)
  : result (St * string) :=
  let! prior := strict db (prior_row db chain network (blockIndex - 1)) in
  match truthy (prior ≫= rr_balances_root_escrow_shadow), balanceUpdates with
  | Some priorRoot, Some updates =>
      let! st := update_all (fun kl => Ok (Some kl)) (s, priorRoot) updates in
      applyEscrowLeaves db st.2 chain network blockIndex st.1
  | _, _ => fullBuild s
  end.
End Subtrees.

#[local] Strategy opaque [SMT_DEPTH].

(** ** Committed leaf sets

    A leaf source: a finite list of identities (pairs), the key each one hashes
    to, and the leaf each one has now ([None]: absent).  [commits] says that a
    leaf set is exactly that of the source. *)
Section Source.
Context `{HashFn} {K : Type} `{EqDecision K}.
Variable kf : K -> bytes.

Definition source_leaf (pairs : list K) (live : K -> option bytes) (k : bytes) : option bytes :=
  List.find (fun p => bool_decide (kf p = k)) pairs ≫= live.

Definition commits (t : leaves) (pairs : list K) (live : K -> option bytes) : Prop :=
  leaves_ok t /\ forall k, smt_get k t = source_leaf pairs live k.

(** Distinct identities have distinct keys. *)
Definition keys_distinct (pairs : list K) : Prop :=
  forall p q, p ∈ pairs -> q ∈ pairs -> kf p = kf q -> p = q.

Lemma source_leaf_key pairs live p : keys_distinct pairs -> p ∈ pairs -> source_leaf pairs live (kf p) = live p.
Proof.
  intros Hd Hp. unfold source_leaf. destruct (List.find _ pairs) as [q|] eqn:E.
  - apply List.find_some in E as [Hq Hk]. js_simpl. apply list_elem_of_In in Hq.
    cbn. f_equal. symmetry. by apply Hd.
  - apply list_elem_of_In in Hp. apply (List.find_none _ _ E) in Hp. js_simpl. done.
Qed.

Lemma source_leaf_None pairs live k : (forall p, p ∈ pairs -> kf p <> k) -> source_leaf pairs live k = None.
Proof.
  intros Hn. unfold source_leaf. destruct (List.find _ pairs) as [q|] eqn:E; [|done].
  apply List.find_some in E as [Hq Hk]. js_simpl. apply list_elem_of_In in Hq. by apply Hn in Hq.
Qed.

Lemma key_dec (pairs : list K) k : (exists p, p ∈ pairs /\ kf p = k) \/ (forall p, p ∈ pairs -> kf p <> k).
Proof.
  destruct (decide (k ∈ map kf pairs)) as [Hin|Hnin].
  - left. apply list_elem_of_fmap in Hin as (p & -> & Hp). eauto.
  - right. intros p Hp <-. apply Hnin, list_elem_of_fmap. eauto.
Qed.

(** Two leaf sets of one source have the same root. *)
Lemma commits_root t t' pairs live : commits t pairs live -> commits t' pairs live ->
  smt_rootHex t = smt_rootHex t'.
Proof.
  intros [Hok Hg] [Hok' Hg']. unfold smt_rootHex, smt_root. do 2 f_equal.
  apply smtNode_ext; auto using smt_entries_ok. intros k. rewrite !entry_get_entries by done. congruence.
Qed.

Lemma set_all_ok D t kvs : updates_ok D t kvs -> leaves_ok t -> leaves_ok (set_all t kvs).
Proof.
  revert t; induction kvs as [|[k l] kvs IH]; intros t Hu Hok; [done|].
  destruct Hu as [(Hk & Hl & _) Hu]. cbn. apply IH; [done|].
  apply leaves_ok_set; [done| |done]. destruct l; [apply Hl|done].
Qed.

(** Setting keys to the values of one function. *)
Lemma set_all_get D new t kvs k : updates_ok D t kvs -> leaves_ok t ->
  (forall k l, (k, l) ∈ kvs -> l = new k) ->
  smt_get k (set_all t kvs) = if decide (k ∈ map fst kvs) then new k else smt_get k t.
Proof.
  revert t; induction kvs as [|[k0 l] kvs IH]; intros t Hu Hok Hnew.
  - cbn. by rewrite decide_False by apply not_elem_of_nil.
  - destruct Hu as [(Hk & Hl & _) Hu]. cbn [set_all fold_left map fst].
    assert (leaves_ok (smt_set (Buf k0) (Buf <$> l) t)) as Hok'
      by (apply leaves_ok_set; [done| |done]; destruct l; [apply Hl|done]).
    unfold set_all in IH. cbn [fst snd]. rewrite IH; [|done|done|intros; apply Hnew; by right].
    destruct (decide (k ∈ map fst kvs)) as [Hin|Hnin]; [by rewrite decide_True by (by right)|].
    rewrite smt_get_set by done. destruct (decide (k = k0)) as [->|Hne].
    + rewrite decide_True by (by left). apply Hnew. by left.
    + rewrite decide_False; [done|]. by intros [?|?]%elem_of_cons.
Qed.

(** Threading the touched identities from the prior leaf set gives the current
    one: every identity whose leaf changed was touched. *)
Lemma commits_thread D t pairs0 live0 pairs live touched :
  commits t pairs0 live0 -> keys_distinct pairs -> incl pairs0 pairs -> incl touched pairs ->
  (forall p, p ∈ pairs -> p ∉ touched -> live p = if decide (p ∈ pairs0) then live0 p else None) ->
  updates_ok D t (map (fun p => (kf p, live p)) touched) ->
  commits (set_all t (map (fun p => (kf p, live p)) touched)) pairs live.
Proof.
  intros [Hok Hg] Hd H0 Ht Hun Hu. split; [by eapply set_all_ok|]. intros k.
  assert (keys_distinct pairs0) as Hd0.
  { intros p q Hp%list_elem_of_In%H0 Hq%list_elem_of_In%H0. apply list_elem_of_In in Hp, Hq. by apply Hd. }
  rewrite (set_all_get D (source_leaf pairs live)); [|done..|].
  - destruct (decide _) as [|Hnin]; [done|]. rewrite Hg.
    assert (forall p, p ∈ touched -> kf p <> k) as Hnt.
    { intros p Hp <-. apply Hnin. rewrite map_map. apply list_elem_of_fmap. eauto. }
    destruct (key_dec pairs k) as [(p & Hp & <-)|Hnone].
    + rewrite (source_leaf_key pairs), (Hun p) by (done || by intros Hpt; apply (Hnt p)).
      destruct (decide (p ∈ pairs0)) as [Hp0|Hp0]; [by apply source_leaf_key|].
      apply source_leaf_None. intros q Hq He. apply Hp0. replace p with q; [done|].
      apply Hd; [|done|done]. apply list_elem_of_In, H0. by apply list_elem_of_In.
    + rewrite !source_leaf_None; [done|done|]. intros p Hp%list_elem_of_In%H0. apply Hnone. by apply list_elem_of_In.
  - intros k' l (p & [= -> ->] & Hp)%list_elem_of_fmap. symmetry. apply source_leaf_key; [done|].
    apply list_elem_of_In, Ht. by apply list_elem_of_In.
Qed.

(** Building from nothing the identities that have a leaf. *)
Lemma commits_full D pairs live listed : keys_distinct pairs -> incl listed pairs ->
  (forall p, p ∈ pairs -> p ∉ listed -> live p = None) ->
  updates_ok D smt_new (map (fun p => (kf p, live p)) listed) ->
  commits (set_all smt_new (map (fun p => (kf p, live p)) listed)) pairs live.
Proof.
  intros Hd Hl Hun Hu. split; [eapply set_all_ok; [exact Hu|apply leaves_ok_new]|]. intros k.
  rewrite (set_all_get D (source_leaf pairs live)); [|done|apply leaves_ok_new|].
  - destruct (decide _) as [|Hnin]; [done|]. change (smt_get k smt_new) with (@None bytes). symmetry.
    destruct (key_dec pairs k) as [(p & Hp & <-)|Hnone]; [|by apply source_leaf_None].
    rewrite source_leaf_key by done. apply Hun; [done|]. intros Hpl. apply Hnin.
    rewrite map_map. apply list_elem_of_fmap. eauto.
  - intros k' l (p & [= -> ->] & Hp)%list_elem_of_fmap. symmetry. apply source_leaf_key; [done|].
    apply list_elem_of_In, Hl. by apply list_elem_of_In.
Qed.

(** Identities without a leaf may be added to or dropped from a source. *)
Lemma source_leaf_extra pairs extra live k : keys_distinct (pairs ++ extra) ->
  (forall p, p ∈ extra -> p ∉ pairs -> live p = None) ->
  source_leaf (pairs ++ extra) live k = source_leaf pairs live k.
Proof.
  intros Hd Hx. assert (keys_distinct pairs) as Hd0.
  { intros p q Hp Hq. apply Hd; apply elem_of_app; by left. }
  destruct (key_dec (pairs ++ extra) k) as [(p & Hp & <-)|Hnone].
  - rewrite source_leaf_key by done. destruct (decide (p ∈ pairs)) as [Hin|Hnin]; [by rewrite source_leaf_key|].
    apply elem_of_app in Hp as [Hp|Hp]; [done|]. rewrite Hx by done. symmetry. apply source_leaf_None.
    intros q Hq He. apply Hnin. replace p with q; [done|].
    apply Hd; [apply elem_of_app; by left|apply elem_of_app; by right|done].
  - rewrite !source_leaf_None; [done| |done]. intros p Hp. apply Hnone. apply elem_of_app. by left.
Qed.
End Source.

(** ** Update loops as update sequences *)
Section Loops.
Context `{HashFn} {St : Type} `{NodeStoreLaws St}.

Lemma update_all_run {A} (step : A -> result (option (bytes * option string))) l kvs (st : St * string) :
  (exists kls, rmap step l = Ok kls /\ omap id kls = map (fun kv => (kv.1, hex_encode <$> kv.2)) kvs) ->
  update_all step st l = rfold update_step st (hex_updates kvs).
Proof.
  unfold update_all. intros (kls & Hk & Hkvs). revert st kls kvs Hk Hkvs.
  induction l as [|a l IH]; intros st kls kvs; cbn.
  - intros [= <-]. cbn. intros Hkvs. by destruct kvs.
  - rewrite rbind_Ok. intros (kl & -> & Hrest). rewrite rbind_Ok in Hrest.
    destruct Hrest as (kls' & Hkls & [= <-]). cbn [rbind]. destruct kl as [[k lf]|]; cbn.
    + destruct kvs as [|[k' lf'] kvs]; [done|]. intros [= -> -> Hkvs].
      unfold hex_updates. cbn [map rfold]. unfold update_step at 1. cbn [fst snd toBuf]. rewrite hex_decode_encode.
      destruct (update st.2 k' (hex_encode <$> lf') st.1); cbn [rbind]; [|done]. by eapply IH.
    + intros Hkvs. by eapply IH.
Qed.

(** A sequence of updates from a represented root, in a store that may fail. *)
Lemma run_commits (D : bytes -> Prop) (Hcf : collision_free D) (He : empties_in D) (s : St) root t kvs :
  addressed D (ns_rows s) -> repr s root t -> updates_ok D t kvs ->
  match rfold update_step (s, root) (hex_updates kvs) with
  | Ok (s', root') => repr s' root' (set_all t kvs) /\ addressed D (ns_rows s') /\ ns_rows s ⊆ ns_rows s'
  | Throw _ => ns_up s = false
  end.
Proof.
  intros Ha Hr Hu. destruct (rfold _ _ _) as [[s' root']|m] eqn:Eu.
  - by apply (updates_sound D Hcf He _ _ _ t) in Eu.
  - destruct (ns_up s) eqn:Hup; [|done].
    destruct (updates_up (hex_updates kvs) s root Hup) as (s' & r & Hok' & _). congruence.
Qed.

Lemma rmap_const {A B} (f : A -> result B) (g : A -> B) l :
  (forall a, a ∈ l -> f a = Ok (g a)) -> rmap f l = Ok (map g l).
Proof.
  induction l as [|a l IH]; intros Hf; cbn; [done|]. rewrite Hf by (by left). cbn.
  rewrite IH; [done|]. intros; apply Hf; by right.
Qed.

Lemma omap_id_Some {A B} (g : A -> B) l : omap id (map (fun a => Some (g a)) l) = map g l.
Proof. induction l as [|a l IH]; cbn; [done|]. by rewrite IH. Qed.
End Loops.

(** ** Journals: the latest row of each key *)
Section Journal.
Context {R K : Type} `{EqDecision K}.
Variable key : R -> K.

Definition last_of (rows : list R) (p : K) : option R :=
  last (List.filter (fun r => bool_decide (key r = p)) rows).

Lemma last_app_eq {A} (l l' : list A) : last (l ++ l') = match last l' with Some x => Some x | None => last l end.
Proof.
  rewrite last_app. destruct (last l') eqn:E; [done|]. done.
Qed.

Lemma filter_key_nil rows p : p ∉ map key rows -> List.filter (fun r => bool_decide (key r = p)) rows = [].
Proof.
  intros Hn. induction rows as [|r rows IH]; cbn; [done|]. cbn in Hn. rewrite not_elem_of_cons in Hn.
  rewrite bool_decide_eq_false_2 by naive_solver. apply IH. naive_solver.
Qed.

(** Only the keys of the appended rows have a new latest row. *)
Lemma last_of_app_old old new p : p ∉ map key new -> last_of (old ++ new) p = last_of old p.
Proof. intros Hn. unfold last_of. rewrite List.filter_app, (filter_key_nil new p), app_nil_r by done. done. Qed.

Lemma last_of_winner rows r : r ∈ winners key rows -> r ∈ rows /\ last_of rows (key r) = Some r.
Proof.
  induction rows as [|r0 rows IH]; cbn [winners]; [by intros ?%not_elem_of_nil|].
  destruct (decide (key r0 ∈ map key rows)) as [Hin|Hnin].
  - intros Hr. destruct (IH Hr) as [Hin' Hl]. split; [by right|]. unfold last_of in *. cbn.
    case_bool_decide; [|done]. rewrite last_cons, Hl. done.
  - intros [->|Hr]%elem_of_cons.
    + split; [by left|]. unfold last_of. cbn. rewrite bool_decide_eq_true_2 by done.
      by rewrite filter_key_nil.
    + destruct (IH Hr) as [Hin' Hl]. split; [by right|]. unfold last_of in *. cbn.
      case_bool_decide; [|done]. rewrite last_cons, Hl. done.
Qed.

Lemma winners_cover rows p : p ∈ map key rows -> exists r, r ∈ winners key rows /\ key r = p.
Proof.
  induction rows as [|r0 rows IH]; cbn [map winners]; [by intros ?%not_elem_of_nil|].
  intros [->|Hp]%elem_of_cons.
  - destruct (decide _) as [Hin|Hnin]; [by apply IH|]. exists r0. split; [by left|done].
  - destruct (IH Hp) as (r & Hr & <-). exists r. split; [|done]. case_decide; [done|by right].
Qed.

Lemma last_of_None rows p : p ∉ map key rows -> last_of rows p = None.
Proof. intros Hn. unfold last_of. by rewrite filter_key_nil. Qed.
End Journal.

(** ** The contract-state root *)
Section ContractState.
Context `{HashFn} {St : Type} `{NodeStoreLaws St}.
Variables (chain network : string).

Definition cs_leaf (v : option string) : option bytes := (fun v => leafHash (utf8 v)) <$> v.
(** The live leaf of a contract key: its latest row's value, absent under a
    tombstone. *)
Definition cs_live (rows : list cs_row) (p : N * string) : option bytes :=
  cs_leaf (last_of cs_pair rows p ≫= cs_state_value).
Definition cs_pairs (rows : list cs_row) : list (N * string) := map cs_pair rows.
Definition cs_kf (p : N * string) : bytes := match cs_key chain network p with Ok k => k | Throw _ => [] end.

(** The identities a full build writes. *)
Definition cs_listed (rows : list cs_row) : list (N * string) :=
  map cs_pair (List.filter (fun r => bool_decide (is_Some (cs_state_value r))) (winners cs_pair rows)).
Definition cs_touched (rows : list cs_row) (b : Z) : list (N * string) :=
  remove_dups (map cs_pair (List.filter (fun r => cs_block_index r =? b) rows)).

(** The key preimage of every identity exists (no NUL byte) and is in [D]. *)
Definition cs_keys_in (D : bytes -> Prop) (rows : list cs_row) : Prop :=
  forall p, p ∈ cs_pairs rows -> exists b,
    joinFields [JStr "XCHAIN_CST"; JStr chain; JStr network; JStr (js_String (JInt (Z.of_N p.1))); JStr p.2] = Ok b /\ D b.

Lemma cs_key_kf D rows p : cs_keys_in D rows -> p ∈ cs_pairs rows -> cs_key chain network p = Ok (cs_kf p).
Proof.
  intros Hk Hp. destruct (Hk p Hp) as (b & Hb & _). unfold cs_kf, cs_key, contractStateKey, smtKey. by rewrite Hb.
Qed.

Lemma cs_keys_distinct D rows : collision_free D -> cs_keys_in D rows -> keys_distinct cs_kf (cs_pairs rows).
Proof.
  intros Hcf Hk p q Hp Hq He. destruct (Hk p Hp) as (b & Hb & HD), (Hk q Hq) as (b' & Hb' & HD').
  unfold cs_kf, cs_key, contractStateKey, smtKey in He. rewrite Hb, Hb' in He. cbn in He.
  apply Hcf in He; [subst b'|done..].
  assert (map js_String [JStr "XCHAIN_CST"; JStr chain; JStr network; JStr (js_String (JInt (Z.of_N p.1))); JStr p.2]
        = map js_String [JStr "XCHAIN_CST"; JStr chain; JStr network; JStr (js_String (JInt (Z.of_N q.1))); JStr q.2])
    as Hm by (eapply joinFields_inj; eauto; done).
  injection Hm as Hi Hs. destruct p as [i k], q as [i' k']. cbn in *. subst k'. f_equal.
  unfold string_of_int, dec_of in Hi. rewrite !(proj2 (Z.ltb_ge _ _)) in Hi by lia.
  apply (f_equal utf8) in Hi. rewrite !utf8_of_utf8 in Hi. apply dec_of_nonneg_inj in Hi; lia.
Qed.

Lemma cs_live_winner rows r : r ∈ winners cs_pair rows -> cs_live rows (cs_pair r) = cs_leaf (cs_state_value r).
Proof. intros Hr. unfold cs_live. destruct (last_of_winner cs_pair rows r Hr) as [_ ->]. done. Qed.

(** The full build is the update sequence of the listed identities. *)
Lemma buildFull_run D db (s : St) : t_fault db = None -> cs_keys_in D (contract_state db) ->
  buildFullContractStateRoot db chain network s
  = rfold update_step (s, EMPTY_ROOT_HEX)
      (hex_updates (map (fun p => (cs_kf p, cs_live (contract_state db) p)) (cs_listed (contract_state db)))).
Proof.
  intros Hf Hk. unfold buildFullContractStateRoot, strict. rewrite Hf. cbn [rbind]. apply update_all_run.
  set (rows := contract_state db) in *.
  assert (forall r, r ∈ winners cs_pair rows -> cs_pair r ∈ cs_pairs rows) as Hin.
  { intros r [Hr _]%last_of_winner. apply list_elem_of_fmap. eauto. }
  exists (map (fun r => (fun l => (cs_kf (cs_pair r), Some (hex_encode l))) <$> cs_leaf (cs_state_value r)) (winners cs_pair rows)).
  split.
  - apply rmap_const. intros r Hr. unfold contractStateLeaf, cs_leaf. destruct (cs_state_value r); cbn; [|done].
    by rewrite (cs_key_kf D rows) by auto.
  - unfold cs_listed. rewrite !map_map.
    assert (forall r, r ∈ winners cs_pair rows -> cs_live rows (cs_pair r) = cs_leaf (cs_state_value r)) as Hlive
      by (intros; by apply cs_live_winner).
    revert Hlive. generalize (winners cs_pair rows). induction l as [|r l IH]; intros Hlive; cbn; [done|].
    destruct (cs_state_value r) as [v|] eqn:Ev; cbn.
    + rewrite (Hlive r), Ev by (by left). cbn. f_equal. apply IH. intros; apply Hlive; by right.
    + apply IH. intros; apply Hlive; by right.
Qed.

(** The incremental thread is the update sequence of the touched identities. *)
Lemma thread_run D db b (s : St) root : t_fault db = None -> cs_keys_in D (contract_state db) ->
  update_all (fun p =>
    let! v := latestStateValue db p in
    let! k := cs_key chain network p in
    Ok (Some (k, contractStateLeaf v))) (s, root) (cs_touched (contract_state db) b)
  = rfold update_step (s, root)
      (hex_updates (map (fun p => (cs_kf p, cs_live (contract_state db) p)) (cs_touched (contract_state db) b))).
Proof.
  intros Hf Hk. apply update_all_run. set (rows := contract_state db) in *.
  exists (map (fun p => Some (cs_kf p, hex_encode <$> cs_live rows p)) (cs_touched rows b)). split.
  - apply rmap_const. intros p Hp. unfold latestStateValue, strict. rewrite Hf. cbn [rbind].
    assert (p ∈ cs_pairs rows) as Hp'.
    { unfold cs_touched in Hp. rewrite elem_of_remove_dups in Hp.
      apply list_elem_of_fmap in Hp as (r & -> & [Hr _]%elem_of_lfilter). apply list_elem_of_fmap. eauto. }
    rewrite (cs_key_kf D rows) by done. cbn [rbind]. do 3 f_equal.
    unfold contractStateLeaf, cs_live, cs_leaf, last_of. by destruct (_ ≫= cs_state_value).
  - rewrite omap_id_Some, map_map. done.
Qed.
(** Threading the touched keys commits the live rows. *)
Lemma cs_thread_commits D t old new b : keys_distinct (cs_kf) (cs_pairs (old ++ new)) ->
  Forall (fun r => cs_block_index r = b) new ->
  commits (cs_kf) t (cs_pairs old) (cs_live old) ->
  updates_ok D t (map (fun p => (cs_kf p, cs_live (old ++ new) p)) (cs_touched (old ++ new) b)) ->
  commits (cs_kf)
    (set_all t (map (fun p => (cs_kf p, cs_live (old ++ new) p)) (cs_touched (old ++ new) b)))
    (cs_pairs (old ++ new)) (cs_live (old ++ new)).
Proof.
  intros Hd Hnew Hc Hu.
  apply (commits_thread _ D _ (cs_pairs old) (cs_live old)); [done|done| | | |done].
  + intros p Hp. unfold cs_pairs in *. rewrite map_app. apply in_or_app. by left.
  + intros p Hp%list_elem_of_In. unfold cs_touched in Hp. rewrite elem_of_remove_dups in Hp.
    apply list_elem_of_fmap in Hp as (r & -> & [Hr' _]%elem_of_lfilter).
    apply list_elem_of_In, list_elem_of_fmap. eauto.
  + intros p Hp Hnt.
    assert (p ∉ map cs_pair new) as Hpn.
    { intros (r & -> & Hr')%list_elem_of_fmap. apply Hnt. unfold cs_touched. apply elem_of_remove_dups.
      apply list_elem_of_fmap. exists r. split; [done|]. apply elem_of_lfilter.
      split; [apply elem_of_app; by right|]. rewrite Forall_forall in Hnew. apply Z.eqb_eq. by apply Hnew. }
    rewrite decide_True; [unfold cs_live; by rewrite last_of_app_old|].
    unfold cs_pairs in *. rewrite map_app in Hp. apply elem_of_app in Hp as [?|?]; done.
Qed.

(** Building the listed keys commits the live rows. *)
Lemma cs_full_commits D rows : keys_distinct (cs_kf) (cs_pairs rows) ->
  updates_ok D smt_new (map (fun p => (cs_kf p, cs_live rows p)) (cs_listed rows)) ->
  commits (cs_kf)
    (set_all smt_new (map (fun p => (cs_kf p, cs_live rows p)) (cs_listed rows)))
    (cs_pairs rows) (cs_live rows).
Proof.
  intros Hd Hu. apply (commits_full _ D); [done| | |done].
  + intros p Hp%list_elem_of_In. unfold cs_listed in Hp.
    apply list_elem_of_fmap in Hp as (r & -> & [[Hr' _]%last_of_winner _]%elem_of_lfilter).
    apply list_elem_of_In, list_elem_of_fmap. eauto.
  + intros p Hp Hnl. destruct (winners_cover cs_pair _ p Hp) as (r & Hr & <-). rewrite cs_live_winner by done.
    destruct (cs_state_value r) eqn:Ev; [|done]. exfalso. apply Hnl. unfold cs_listed.
    apply list_elem_of_fmap. exists r. split; [done|]. apply elem_of_lfilter. split; [done|].
    apply bool_decide_eq_true. rewrite Ev. eauto.
Qed.
End ContractState.

(** ** Properties *)
Section Properties.
Context `{HashFn} {St : Type} `{NodeStoreLaws St}.

(** The contract-state root commits live state on every path: when the
    block's rows are the newest rows of the table and a stored prior root commits
    the rows below the block, [resolveContractStateRoot] returns the root of the
    latest non-tombstone value of every key, whether it threads the touched keys
    or builds in full; it fails only when the database does. *)
Theorem resolveContractStateRoot_live (D : bytes -> Prop) db old new chain network b (shadow : bool) (s : St) t :
  collision_free D -> empties_in D -> addressed D (ns_rows s) ->
  contract_state db = old ++ new ->
  Forall (fun r => cs_block_index r = b) new ->
  cs_keys_in chain network D (old ++ new) ->
  match truthy (prior_row db chain network (b - 1) ≫=
                 (if shadow then rr_contract_state_root_shadow else rr_contract_state_root)) with
  | Some prior => repr s prior t /\ commits (cs_kf chain network) t (cs_pairs old) (cs_live old)
      /\ updates_ok D t (map (fun p => (cs_kf chain network p, cs_live (old ++ new) p)) (cs_touched (old ++ new) b))
  | None => updates_ok D smt_new (map (fun p => (cs_kf chain network p, cs_live (old ++ new) p)) (cs_listed (old ++ new)))
  end ->
  match resolveContractStateRoot db chain network b shadow s with
  | Ok (s', root) => exists t', repr s' root t'
      /\ commits (cs_kf chain network) t' (cs_pairs (old ++ new)) (cs_live (old ++ new))
  | Throw _ => t_fault db <> None \/ ns_up s = false
  end.
Proof.
  intros Hcf He Ha Hrows Hnew Hk Hbranch. pose proof (cs_keys_distinct chain network D _ Hcf Hk) as Hd.
  destruct (t_fault db) eqn:Hf.
  { unfold resolveContractStateRoot, strict. rewrite Hf. cbn. left. done. }
  assert (forall root kvs t0, repr s root t0 -> updates_ok D t0 kvs ->
    commits (cs_kf chain network) (set_all t0 kvs) (cs_pairs (old ++ new)) (cs_live (old ++ new)) ->
    match rfold update_step (s, root) (hex_updates kvs) with
    | Ok (s', root') => exists t', repr s' root' t'
        /\ commits (cs_kf chain network) t' (cs_pairs (old ++ new)) (cs_live (old ++ new))
    | Throw _ => (None : option string) <> None \/ ns_up s = false
    end) as Hrun.
  { intros root kvs t0 Hr Hu Hc. pose proof (run_commits D Hcf He s root t0 kvs Ha Hr Hu) as Hres.
    destruct (rfold _ _ _) as [[s' root']|m]; [|by right]. destruct Hres as (Hr' & _). eauto. }
  unfold resolveContractStateRoot, strict. rewrite Hf. cbn [rbind].
  destruct (truthy _) as [prior|].
  - destruct Hbranch as (Hr & Hc & Hu). unfold touchedContractStateKeys, strict. rewrite Hf. cbn [rbind].
    rewrite <- Hrows in Hk, Hu.
    change (remove_dups (map cs_pair (List.filter (fun r => cs_block_index r =? b) (contract_state db))))
      with (cs_touched (contract_state db) b).
    rewrite (thread_run chain network D) by done. apply (Hrun _ _ t); [done..|]. rewrite Hrows in *.
    by eapply cs_thread_commits.
  - rewrite <- Hrows in Hk, Hbranch. rewrite (buildFull_run chain network D) by done.
    apply (Hrun _ _ smt_new); [apply repr_empty|done|]. rewrite Hrows in *. by eapply cs_full_commits.
Qed.
End Properties.

Example ZERO_CANON_eq : canonicalAmount (JStr "0") = Ok ZERO_CANON.
Proof. vm_compute. reflexivity. Qed.

Lemma truthy_root `{HashFn} t : leaves_ok t -> truthy (Some (smt_rootHex t)) = Some (smt_rootHex t).
Proof.
  intros Hok. unfold truthy. rewrite bool_decide_eq_false_2; [done|]. intros He.
  apply (f_equal hex_decode) in He. unfold smt_rootHex in He. cbn [toHex] in He.
  rewrite hex_decode_encode in He. apply (f_equal length) in He.
  unfold smt_root in He. rewrite smtNode_length in He by (by apply smt_entries_ok). done.
Qed.

(** ** A store that holds one key

    The smallest concrete instance of the hypotheses above: one key preimage, two
    leaves, and the table after the first leaf was written. *)
Section OneKey.
Context `{HashFn}.
Variables (pre l1 l2 : bytes).

Definition one_key : bytes := sha256 pre.
Definition one_preimages : list bytes := pre :: one_key_preimages one_key [l1; l2].
Definition one_D (x : bytes) : Prop := x ∈ one_preimages.
Definition one_kvs : list (bytes * option bytes) := [(one_key, Some l1)].
Definition one_built : node_table * string :=
  match rfold update_step (NodeTable [] None, EMPTY_ROOT_HEX) (hex_updates one_kvs) with
  | Ok p => p
  | Throw _ => (NodeTable [] None, EMPTY_ROOT_HEX)
  end.

Lemma one_empties : empties_in one_D.
Proof. intros h Hh. right. by apply one_key_empties. Qed.

Lemma one_update t l : leaves_ok t -> (forall k', k' <> one_key -> smt_get k' t = None) ->
  leaf_ok (Some l) -> l ∈ [l1; l2] ->
  length one_key = 32%nat /\ leaf_ok (Some l) /\ Forall one_D (update_preimages t one_key (Some l)).
Proof.
  intros Hok Hone Hl Hin. assert (length one_key = 32%nat) as Hk by apply sha256_length.
  split_and!; [done..|]. eapply Forall_impl; [by apply (one_key_update _ [l1; l2])|]. intros x Hx. by right.
Qed.

Hypothesis Hfree : collision_free_list one_preimages = true.
Hypothesis Hl1 : leaf_ok (Some l1).

Lemma one_free : collision_free one_D.
Proof. by apply collision_free_list_sound. Qed.

Lemma one_kvs_ok : updates_ok one_D smt_new one_kvs.
Proof. split; [|done]. apply one_update; [apply leaves_ok_new|done|done|by left]. Qed.

Lemma one_built_ok :
  repr one_built.1 one_built.2 (set_all smt_new one_kvs) /\ addressed one_D (ns_rows one_built.1).
Proof.
  destruct (updates_up (hex_updates one_kvs) (NodeTable [] None) EMPTY_ROOT_HEX) as (s' & r & Hu & _); [reflexivity|].
  unfold one_built. rewrite Hu.
  apply (updates_sound one_D one_free one_empties _ _ _ smt_new) in Hu as (Hr & Ha & _);
    [by split|by intros x row Hx|apply repr_empty|apply one_kvs_ok].
Qed.

Lemma one_tree_others k' : k' <> one_key -> smt_get k' (set_all smt_new one_kvs) = None.
Proof.
  intros Hne. cbn [set_all one_kvs fold_left fst snd].
  rewrite (smt_get_set one_key (Some l1)) by apply leaves_ok_new. by rewrite decide_False.
Qed.
End OneKey.

(** ** Witness: one contract key written at block 1 and again at block 2 *)
Section Witness.
#[local] Instance ex_cs_hash : HashFn := poly_hash.

Definition ex_old : list cs_row := [CsRow 7 "owner" (Some "alice") 1].
Definition ex_new : list cs_row := [CsRow 7 "owner" (Some "bob") 2].
Definition ex_cs_pre : bytes :=
  match joinFields [JStr "XCHAIN_CST"; JStr "BTC"; JStr "regtest"; JStr "7"; JStr "owner"] with Ok b => b | Throw _ => [] end.
Definition ex_alice : bytes := leafHash (utf8 "alice").
Definition ex_bob : bytes := leafHash (utf8 "bob").
Definition ex_cs_D : bytes -> Prop := one_D ex_cs_pre ex_alice ex_bob.
Definition ex_cs_built : node_table * string := one_built ex_cs_pre ex_alice.

Lemma ex_cs_check : collision_free_list (one_preimages ex_cs_pre ex_alice ex_bob) = true.
Proof. vm_compute. reflexivity. Qed.
Lemma ex_leaves : leaf_ok (Some ex_alice) /\ leaf_ok (Some ex_bob).
Proof. split; (split; [apply leafHash_length|vm_compute; discriminate]). Qed.

Definition ex_tables : tables :=
  Tables (ex_old ++ ex_new) [] [] [] [RootsRow "BTC" "regtest" 1 "" "" "" "" (Some ex_cs_built.2) None None] None.

Lemma ex_pair p : p ∈ cs_pairs ex_old -> p = (7%N, "owner").
Proof. by intros ->%list_elem_of_singleton. Qed.

Lemma ex_keys_in : cs_keys_in "BTC" "regtest" ex_cs_D (ex_old ++ ex_new).
Proof.
  intros p Hp. assert (p = (7%N, "owner")) as -> by (vm_compute in Hp; set_solver).
  exists ex_cs_pre. split; [reflexivity|]. left.
Qed.

Lemma resolveContractStateRoot_live_witness :
  match resolveContractStateRoot ex_tables "BTC" "regtest" 2 false ex_cs_built.1 with
  | Ok (s', root) => exists t', repr s' root t'
      /\ commits (cs_kf "BTC" "regtest") t' (cs_pairs (ex_old ++ ex_new)) (cs_live (ex_old ++ ex_new))
  | Throw _ => t_fault ex_tables <> None \/ ns_up ex_cs_built.1 = false
  end.
Proof.
  destruct (one_built_ok ex_cs_pre ex_alice ex_bob ex_cs_check (proj1 ex_leaves)) as [Hr Ha].
  apply (resolveContractStateRoot_live ex_cs_D ex_tables ex_old ex_new "BTC" "regtest" 2 false ex_cs_built.1
    (set_all smt_new (one_kvs ex_cs_pre ex_alice)) (one_free _ _ _ ex_cs_check) (one_empties _ _ _) Ha eq_refl).
  - repeat constructor.
  - apply ex_keys_in.
  - assert (commits (cs_kf "BTC" "regtest") (set_all smt_new (one_kvs ex_cs_pre ex_alice)) (cs_pairs ex_old) (cs_live ex_old)) as Hc.
    { apply (cs_full_commits "BTC" "regtest" ex_cs_D ex_old);
        [|exact (one_kvs_ok ex_cs_pre ex_alice ex_bob (proj1 ex_leaves))].
      intros p q Hp Hq _. by rewrite (ex_pair p Hp), (ex_pair q Hq). }
    change (prior_row ex_tables "BTC" "regtest" (2 - 1)) with
      (Some (RootsRow "BTC" "regtest" 1 "" "" "" "" (Some ex_cs_built.2) None None)).
    cbn [mbind option_bind rr_contract_state_root].
    pose proof Hr as (Hroot & _). unfold ex_cs_built at 1. rewrite Hroot, truthy_root by apply Hc.
    rewrite <- Hroot. split; [exact Hr|]. split; [exact Hc|]. split; [|done].
    apply (one_update ex_cs_pre ex_alice ex_bob); [apply Hc|apply one_tree_others|apply ex_leaves|right; by left].
Defined.
End Witness.
