(* ===== verification/FollowerRoots.v ===== *)
(** * FollowerRoots: the per-block roots a follower recomputes

    Models the second half of [src/src/state_commitment/index.js]: the leaf of a
    balance ([_nz], [_leafOrNull], [getNetBalance]), the full build
    ([buildFullBalancesRoot]), the incremental thread
    ([computeFollowerBalancesRoot]), the stake entries and the memoised stakes
    root ([gatherStakeEntries], [_stakeEntriesDigest], [buildStakesRoot]), and the
    orchestrators ([computeFollowerRoots], [seedSnapshotRoots]) with the row they
    persist.  [minimalDecimal] is that of [src/src/db/balance_helpers.js].

    The theorems: on every branch the balances root is the root of the net
    balances and, where the escrow leaf is armed, of the locked totals; the
    stakes memo never changes the root; the extension columns reassemble to the
    row's own state root. *)

From S2P Require Import Prelude Sha256 JsText JsNumber JsMap Primitives SparseMerkle FixedMerkle NodeStore PersistentSMT GateRegistry Gates Subtrees.

(** ** Amount text of the database *)

(** [CAST(x AS CHAR)] of a DECIMAL with 18 fractional digits. *)
Definition sql_char (z : Z) : string := if z <? 0 then "-" +:+ render (- z) else render z.

(** [TRIM(TRAILING c FROM l)] *)
Fixpoint drop_lead (c : byte) (l : bytes) : bytes :=
  match l with
  | b :: l' => if bool_decide (b = c) then drop_lead c l' else l
  | [] => []
  end.
Definition trim_trailing (c : byte) (l : bytes) : bytes := rev (drop_lead c (rev l)).

Definition minimalDecimal (z : Z) : string :=
  of_utf8 (trim_trailing c_dot (trim_trailing c_zero (utf8 (sql_char z)))).

Definition sum_of (rows : list ledger_entry) (p : string * string) : Z :=
  foldr (fun r acc => (if bool_decide ((le_address r, le_tick r) = p) then le_units r else 0) + acc) 0 rows.

(** [SUM(credits) - SUM(debits)] of one holder. *)
Definition net_units (db : tables) (p : string * string) : Z := sum_of (t_credits db) p - sum_of (t_debits db) p.

Definition ledger_pairs (db : tables) : list (string * string) :=
  map (fun r => (le_address r, le_tick r)) (t_credits db ++ t_debits db).

Section Balances.
Context `{HashFn} {St : Type} `{NodeStore St}.
Variable maps : subtree_maps.

Definition nz_amount (amountStr : string) : result string := canonicalAmount (JStr amountStr).

Definition leafOrNull (amountStr : string) : result (option string) :=
  let! canon := nz_amount amountStr in
  Ok (if bool_decide (canon = ZERO_CANON) then None else Some (toHex (Buf (leafHash (utf8 canon))))).

Definition getNetBalance (db : tables) (p : string * string) : result string :=
  strict db (minimalDecimal (net_units db p)).

Definition bal_key (chain network : string) (p : string * string) : result bytes :=
  balanceKey (JStr chain) (JStr network) (JStr p.1) (JStr p.2).

(** [HAVING SUM(s.amt) <> 0] *)
Definition nonzero_pairs (db : tables) : list (string * string) :=
  List.filter (fun p => negb (net_units db p =? 0)) (remove_dups (ledger_pairs db)).

Definition buildFullBalancesRoot (db : tables) (chain network : string) (blockIndex : jsval)
    (forceEscrowLeaves : bool) (s : St) : result (St * string) :=
  let! bals := strict db (nonzero_pairs db) in
  let! st := update_all (fun p =>
      let! leaf := leafOrNull (sql_char (net_units db p)) in
      match leaf with
      | None => Ok None
      | Some l => let! k := bal_key chain network p in Ok (Some (k, Some l))
      end) (s, EMPTY_ROOT_HEX) bals in
  if isEscrowLockedLeafActive maps blockIndex network (JStr chain) || forceEscrowLeaves then
    let! live := liveEscrowLeaves db in
    update_all (fun e => let! k := esc_key chain network e.1 in Ok (Some (k, Some e.2))) st live
  else Ok st.

Definition lookupFollowerPriorRoot (db : tables) (chain network : string) (blockIndex : Z) : result (option roots_row) :=
  strict db (prior_row db chain network (blockIndex - 1)).

(** A touched holder; the address and the tick may be [null]. *)
Record touched_key := TouchedKey { tk_address : option string; tk_tick : option string }.

Definition touched_pair (e : touched_key) : option (string * string) :=
  match tk_address e, tk_tick e with
  | Some a, Some t => if bool_decide (t = "") then None else Some (a, t)
  | _, _ => None
  end.

(** The loop over the touched holders: the new root and the updates made, in
    order (recorded for the shadow thread). *)
Fixpoint touch_loop (db : tables) (chain network : string) (l : list touched_key) (st : St * string)
    (updates : list (bytes * option string)) : result ((St * string) * list (bytes * option string)) :=
  match l with
  | [] => Ok (st, updates)
  | e :: rest =>
      match touched_pair e with
      | None => touch_loop db chain network rest st updates
      | Some p =>
          let! net := getNetBalance db p in
          let! balLeaf := leafOrNull net in
          let! balKey := bal_key chain network p in
          let! st' := update st.2 balKey balLeaf st.1 in
          touch_loop db chain network rest st' (updates ++ [(balKey, balLeaf)])
      end
  end.

Record balances_result := BalancesResult {
  balancesRoot : string;
  shadowBalanceUpdates : option (list (bytes * option string));
  escShadow : bool }.

Definition computeFollowerBalancesRoot (db : tables) (chain network : string) (blockIndex : Z)
    (touchedKeys : list touched_key) (isActivationBlock : bool) (s : St) : result (St * balances_result) :=
  let active b := isEscrowLockedLeafActive maps (JInt b) network (JStr chain) in
  let escShadow := isEscrowLockedLeafShadowActive maps (JInt blockIndex) network (JStr chain) in
  let armingBlock := active blockIndex && negb (active (blockIndex - 1)) in
  let! prior := (if isActivationBlock then Ok None else lookupFollowerPriorRoot db chain network blockIndex) in
  match truthy (rr_balances_root <$> prior), isActivationBlock || armingBlock with
  | Some priorRoot, false =>
      let! r := touch_loop db chain network touchedKeys (s, priorRoot) [] in
      let! st := (if active blockIndex
                  then applyEscrowLeaves db r.1.2 chain network blockIndex r.1.1
                  else Ok r.1) in
      Ok (st.1, BalancesResult st.2 (if escShadow then Some r.2 else None) escShadow)
  | _, _ =>
      let! st := buildFullBalancesRoot db chain network (JInt blockIndex) false s in
      Ok (st.1, BalancesResult st.2 None escShadow)
  end.
End Balances.

(** ** The stakes sub-tree *)

(** A row of [getStakeWeightsByCapability]. *)
Record weight_row := WeightRow { w_pubkey : jsval; w_source : jsval; w_weight : jsval }.

Section Stakes.
Context `{HashFn} {St : Type} `{NodeStore St}.

(** [String(r.weight == null ? '0' : r.weight)] *)
Definition weight_text (w : jsval) : string := if is_nullish w then "0" else js_String w.

(** The member entries of one capability and the first weight of each source. *)
Fixpoint member_loop (capability : string) (rows : list weight_row) (entries : list (string * string))
    (seenSource : jsmap string string) : result (list (string * string) * jsmap string string) :=
  match rows with
  | [] => Ok (entries, seenSource)
  | r :: rest =>
      if is_nullish (w_pubkey r) then member_loop capability rest entries seenSource
      else
        let! canon := nz_amount (weight_text (w_weight r)) in
        if bool_decide (canon = ZERO_CANON) then member_loop capability rest entries seenSource
        else
          let source := js_String (w_source r) in
          let! k := stakeKey (JStr (js_String (w_pubkey r))) (JStr capability) in
          let! leaf := stakeMemberLeaf (JStr source) (JStr (js_String (w_weight r))) in
          member_loop capability rest (entries ++ [(toHex (Buf k), toHex (Buf leaf))])
            (if jm_has source seenSource then seenSource else jm_set source (js_String (w_weight r)) seenSource)
  end.

Definition capability_entries (capability : string) (rows : list weight_row) (entries : list (string * string))
  : result (list (string * string)) :=
  let! m := member_loop capability rows entries [] in
  let! total := sumCanonicalAmounts (map (fun p => JStr p.2) m.2) in
  let! canon := nz_amount total in
  if bool_decide (canon = ZERO_CANON) then Ok m.1
  else
    let! k := stakeKey (JStr STAKE_TOTAL_PUBKEY) (JStr capability) in
    let! leaf := stakeTotalLeaf (JStr total) in
    Ok (m.1 ++ [(toHex (Buf k), toHex (Buf leaf))]).

(** [weights] answers the stake-weight query of one capability. *)
Definition gatherStakeEntries (caps : list string) (weights : string -> result (list weight_row)) (chain : string)
  : result (list (string * string)) :=
  if bool_decide (chain = "BTC") then
    rfold (fun entries capability =>
             let! rows := weights capability in capability_entries capability rows entries) [] caps
  else Ok [].

(** [pairs.sort()] of ASCII text. *)
Definition entry_text (e : string * string) : string := e.1 +:+ ":" +:+ e.2.
Fixpoint insert_text (x : string) (l : list string) : list string :=
  match l with
  | [] => [x]
  | y :: l' => if String.leb x y then x :: l else y :: insert_text x l'
  end.
Definition sort_text (l : list string) : list string := foldr insert_text [] l.
Definition digest_preimage (entries : list (string * string)) : bytes :=
  utf8 (string_of_int (Z.of_nat (length entries)) +:+ "|" +:+ join_text "|" (sort_text (map entry_text entries))).
Definition stakeEntriesDigest (entries : list (string * string)) : string :=
  toHex (Buf (sha256 (digest_preimage entries))).

Record stakes_memo := StakesMemo {
  m_chain : string; m_network : string; m_blockIndex : Z; m_digest : string; m_root : string }.

Definition resetStakesMemo : option stakes_memo := None.

Definition memo_hits (memo : stakes_memo) (chain network : string) (blockIndex : Z) (digest : string) : bool :=
  bool_decide (m_chain memo = chain) && bool_decide (m_network memo = network)
  && (m_blockIndex memo =? blockIndex - 1) && bool_decide (m_digest memo = digest).

Definition buildStakesRoot (chain network : string) (blockIndex : Z) (entries : list (string * string))
    (memo : option stakes_memo) (s : St) : result ((St * string) * option stakes_memo) :=
  let digest := stakeEntriesDigest entries in
  let rebuild :=
    let! st := buildFull entries s in
    Ok (st, Some (StakesMemo chain network blockIndex digest st.2)) in
  match memo with
  | Some m =>
      if memo_hits m chain network blockIndex digest then
        let reuse := Ok ((s, m_root m), Some (StakesMemo chain network blockIndex digest (m_root m))) in
        if bool_decide (m_root m = EMPTY_ROOT_HEX) then reuse
        else
          let! row := ns_get (m_root m) s in
          match row with
          | Some _ => reuse
          | None => rebuild
          end
      else rebuild
  | None => rebuild
  end.
End Stakes.

#[local] Strategy opaque [SMT_DEPTH].

(** ** Database amounts read back by value *)

Lemma drop_lead_app c l l' : l <> [] -> Forall (fun b => b <> c) l -> drop_lead c (l ++ l') = l ++ l'.
Proof. destruct l as [|b l]; [done|]. intros _ Hf. apply Forall_cons in Hf as [Hb _]. cbn. by rewrite bool_decide_eq_false_2. Qed.

Lemma drop_lead_split c l : exists n l', l = replicate n c ++ l' /\ drop_lead c l = l'
  /\ match l' with b :: _ => b <> c | [] => True end.
Proof.
  induction l as [|b l IH]; [by exists 0%nat, []|]. cbn. case_bool_decide as E.
  - subst b. destruct IH as (n & l' & -> & Hd & Hn). exists (S n), l'. done.
  - by exists 0%nat, (b :: l).
Qed.

(** Trailing copies of [c] removed. *)
Lemma trim_trailing_split c l : exists n l', l = l' ++ replicate n c /\ trim_trailing c l = l'
  /\ match last l' with Some b => b <> c | None => True end.
Proof.
  destruct (drop_lead_split c (rev l)) as (n & l' & Hl & Hd & Hn). exists n, (rev l').
  unfold trim_trailing. rewrite Hd. split_and!; [|done|].
  - rewrite <- (rev_involutive l), Hl, rev_app_distr. f_equal. rewrite rev_alt. apply reverse_replicate.
  - destruct l' as [|b l']; [done|]. cbn. by rewrite last_snoc.
Qed.

Lemma trim_trailing_keep c l b : last l = Some b -> b <> c -> trim_trailing c l = l.
Proof.
  intros Hl Hb. destruct l as [|x l _] using rev_ind; [done|]. rewrite last_snoc in Hl. injection Hl as ->.
  unfold trim_trailing. rewrite rev_app_distr. cbn. rewrite bool_decide_eq_false_2 by done.
  cbn. by rewrite rev_involutive.
Qed.

Lemma trim_trailing_app c l l' b : last l = Some b -> b <> c ->
  trim_trailing c (l ++ l') = l ++ trim_trailing c l'.
Proof.
  intros Hl Hb. unfold trim_trailing. rewrite rev_app_distr.
  destruct (drop_lead_split c (rev l')) as (n & r & Hr & Hd & Hn). rewrite Hd, Hr, <- app_assoc.
  assert (forall m x, drop_lead c (replicate m c ++ x) = drop_lead c x) as Hrep.
  { induction m as [|m IH]; intros x; cbn; [done|]. by rewrite bool_decide_eq_true_2. }
  rewrite Hrep. destruct r as [|y r].
  - cbn [app rev]. rewrite app_nil_r. change (rev (drop_lead c (rev l))) with (trim_trailing c l).
    by eapply trim_trailing_keep.
  - cbn [app drop_lead]. rewrite bool_decide_eq_false_2 by done.
    by rewrite app_comm_cons, rev_app_distr, rev_involutive.
Qed.

Lemma amount_units_minimal z : 0 <= z -> amount_units (minimalDecimal z) = Some z.
Proof.
  intros Hz. unfold minimalDecimal, sql_char. rewrite (proj2 (Z.ltb_ge _ _)) by done.
  unfold render. rewrite utf8_of_utf8.
  pose proof (Z.mod_pos_bound z (10 ^ 18) ltac:(lia)) as Hm.
  destruct (dec_of_nonneg_spec (z / 10 ^ 18)) as [Hid Hiv]; [apply Z.div_pos; lia|].
  destruct (frac18_spec (z mod 10 ^ 18) Hm) as (Hfd & Hfl & Hfv).
  set (i := dec_of_nonneg (z / 10 ^ 18)) in *. set (f := frac18 (z mod 10 ^ 18)) in *.
  assert (i <> []) as Hine by apply dec_of_nonneg_ne.
  rewrite app_assoc, (trim_trailing_app c_zero (i ++ [c_dot]) f c_dot) by (done || apply last_snoc).
  destruct (trim_trailing_split c_zero f) as (n & f' & Hf & -> & Hlast).
  assert (trim_trailing c_dot ((i ++ [c_dot]) ++ f') = amount_text i f') as ->.
  { rewrite <- app_assoc. destruct f' as [|b f' _] using rev_ind.
    - cbn [app amount_text]. destruct i as [|a i _] using rev_ind; [done|].
      apply Forall_app in Hid as [_ Ha]. inversion Ha; subst.
      rewrite (trim_trailing_app c_dot (i ++ [a]) [c_dot] a); [by rewrite app_nil_r|by rewrite last_snoc|].
      intros ->. done.
    - rewrite (trim_trailing_keep c_dot _ b); [by destruct f'| |].
      + by rewrite !app_assoc, last_snoc.
      + rewrite Hf in Hfd. rewrite !Forall_app in Hfd. destruct Hfd as [[_ Hb] _]. inversion Hb; subst.
        intros ->. done. }
  assert (Forall (fun b => is_digit b = true) f') as Hf'.
  { rewrite Hf in Hfd. by apply Forall_app in Hfd as [? _]. }
  assert (length f' + n = 18)%nat as Hlen by (rewrite Hf, length_app, length_replicate in Hfl; done).
  rewrite amount_units_text by (done || lia). f_equal.
  rewrite Hf, dec_val_app, dec_val_zeros, length_replicate in Hfv.
  replace (18 - Z.of_nat (length f')) with (Z.of_nat n) by lia.
  rewrite Hiv. rewrite Z.add_0_r in Hfv. rewrite Hfv. rewrite (Z.div_mod z (10 ^ 18)) at 3 by lia. lia.
Qed.

Section BalanceLeaves.
Context `{HashFn}.

(** The leaf of a net balance. *)
Definition bal_leaf (z : Z) : option bytes := if z =? 0 then None else Some (leafHash (utf8 (render z))).

Lemma leafOrNull_units s z : amount_units s = Some z -> leafOrNull s = Ok (hex_encode <$> bal_leaf z).
Proof.
  intros Hs. pose proof (amount_units_nonneg _ _ Hs) as Hz.
  unfold leafOrNull, nz_amount. rewrite canonicalAmount_units, Hs. cbn [rbind]. f_equal. unfold bal_leaf.
  change ZERO_CANON with (render 0). destruct (z =? 0) eqn:E; js_simpl.
  - subst. by rewrite bool_decide_eq_true_2.
  - rewrite bool_decide_eq_false_2; [done|]. intros Hr. apply E. apply render_inj; [done|lia|done].
Qed.

(** The two spellings of an amount the two paths read give the same leaf. *)
Lemma leafOrNull_net z : 0 <= z ->
  leafOrNull (sql_char z) = Ok (hex_encode <$> bal_leaf z) /\ leafOrNull (minimalDecimal z) = Ok (hex_encode <$> bal_leaf z).
Proof.
  intros Hz. split; apply leafOrNull_units; [|by apply amount_units_minimal].
  unfold sql_char. rewrite (proj2 (Z.ltb_ge _ _)) by done. by apply amount_units_render.
Qed.
End BalanceLeaves.

(** ** The balances leaf set

    A holder's spendable leaf ([inl]) and its locked leaf ([inr]). *)
Section BalanceSource.
Context `{HashFn}.
Variables (chain network : string).

Notation ident := ((string * string) + (string * string))%type.

Definition bal_kf (id : ident) : bytes :=
  match (match id with inl p => bal_key chain network p | inr p => esc_key chain network p end) with
  | Ok k => k
  | Throw _ => []
  end.
Definition bal_fields (id : ident) : list jsval :=
  match id with
  | inl p => [JStr "XCHAIN_BAL"; JStr chain; JStr network; JStr p.1; JStr p.2]
  | inr p => [JStr "XCHAIN_ESC"; JStr chain; JStr network; JStr p.1; JStr p.2]
  end.

(** The leaf of a journal amount; no amount, the empty text and zero have none. *)
Definition esc_leaf (o : option string) : option bytes := (o ≫= amount_units) ≫= bal_leaf.

Definition bal_live (db : tables) (armed : bool) (id : ident) : option bytes :=
  match id with
  | inl p => bal_leaf (net_units db p)
  | inr p => if armed then esc_leaf (last_of j_pair (escrow_leaf_journal db) p ≫= j_locked_amount) else None
  end.
Definition bal_pairs (db : tables) : list ident :=
  map inl (ledger_pairs db) ++ map inr (map j_pair (escrow_leaf_journal db)).

(** The preimage of every identity's key exists and is in [D]. *)
Definition bal_keys_in (D : bytes -> Prop) (ids : list ident) : Prop :=
  forall id, id ∈ ids -> exists b, joinFields (bal_fields id) = Ok b /\ D b.

(** Amounts the ledger holds: balances are not negative, journal amounts are of
    the amount grammar, empty or absent. *)
Definition ledger_ok (db : tables) : Prop :=
  (forall p, 0 <= net_units db p) /\
  Forall (fun r => forall s, j_locked_amount r = Some s -> s = "" \/ is_Some (amount_units s)) (escrow_leaf_journal db).

Lemma bal_key_kf D ids p : bal_keys_in D ids ->
  (inl p ∈ ids -> bal_key chain network p = Ok (bal_kf (inl p)))
  /\ (inr p ∈ ids -> esc_key chain network p = Ok (bal_kf (inr p))).
Proof.
  intros Hk. split; intros Hp; destruct (Hk _ Hp) as (b & Hb & _); cbn [bal_fields] in Hb;
    unfold bal_kf, bal_key, esc_key, balanceKey, escrowKey, smtKey; by rewrite Hb.
Qed.

Lemma bal_kf_sha id b : joinFields (bal_fields id) = Ok b -> bal_kf id = sha256 b.
Proof.
  intros Hb. destruct id; cbn [bal_fields] in Hb;
    unfold bal_kf, bal_key, esc_key, balanceKey, escrowKey, smtKey; by rewrite Hb.
Qed.

Lemma bal_keys_distinct D ids : collision_free D -> bal_keys_in D ids -> keys_distinct bal_kf ids.
Proof.
  intros Hcf Hk p q Hp Hq He. destruct (Hk p Hp) as (b & Hb & HD), (Hk q Hq) as (b' & Hb' & HD').
  rewrite (bal_kf_sha _ _ Hb), (bal_kf_sha _ _ Hb') in He. apply Hcf in He; [subst b'|done..].
  assert (map js_String (bal_fields p) = map js_String (bal_fields q)) as Hm.
  { eapply joinFields_inj; [| |exact Hb|exact Hb']; by destruct p, q. }
  destruct p as [[a t]|[a t]], q as [[a' t']|[a' t']]; cbn in Hm; congruence.
Qed.

Lemma escrowLeaf_ok o : (forall s, o = Some s -> s = "" \/ is_Some (amount_units s)) ->
  escrowLeaf o = Ok (hex_encode <$> esc_leaf o).
Proof.
  intros Ho. destruct o as [s|]; [|done]. cbn [escrowLeaf]. case_bool_decide as E; [by subst|].
  destruct (Ho s eq_refl) as [?|[z Hz]]; [done|]. pose proof (leafOrNull_units s z Hz) as Hl.
  unfold leafOrNull, nz_amount in Hl. unfold esc_leaf. cbn [mbind option_bind]. rewrite Hz. cbn [mbind option_bind].
  destruct (canonicalAmount (JStr s)) as [c|]; [|done]. cbn [rbind] in *. by destruct (bool_decide (c = ZERO_CANON)).
Qed.

Lemma ledger_no_net db p : p ∉ ledger_pairs db -> net_units db p = 0.
Proof.
  unfold ledger_pairs, net_units. rewrite map_app, not_elem_of_app. intros [Hc Hd].
  assert (forall rows, p ∉ map (fun r => (le_address r, le_tick r)) rows -> sum_of rows p = 0) as Hz.
  { induction rows as [|r rows IH]; cbn; [done|]. rewrite not_elem_of_cons. intros [Hne Hn].
    rewrite bool_decide_eq_false_2 by congruence. fold (sum_of rows p). rewrite IH by done. done. }
  by rewrite !Hz.
Qed.

Lemma bal_live_None db armed id : id ∉ bal_pairs db -> bal_live db armed id = None.
Proof.
  unfold bal_pairs. rewrite not_elem_of_app. intros [Hl Hr]. destruct id as [p|p]; cbn.
  - rewrite ledger_no_net; [done|]. intros Hp. apply Hl, list_elem_of_fmap. eauto.
  - destruct armed; [|done]. rewrite last_of_None; [done|]. intros Hp. apply Hr, list_elem_of_fmap. eauto.
Qed.
End BalanceSource.

(** ** The update sequences of the two branches *)
Section BalanceRuns.
Context `{HashFn} {St : Type} `{NodeStoreLaws St}.
Variables (maps : subtree_maps) (chain network : string).

Notation kf := (bal_kf chain network).

Definition jtouched (db : tables) (b : Z) : list (string * string) :=
  remove_dups (map j_pair (List.filter (fun r => j_block_index r =? b) (escrow_leaf_journal db))).
Definition esc_listed (db : tables) : list (string * string) :=
  map j_pair (List.filter (fun r => bool_decide (is_Some (esc_leaf (j_locked_amount r)))) (winners j_pair (escrow_leaf_journal db))).

(** The identities each branch writes, in order. *)
Definition inc_ids (db : tables) (b : Z) (armed : bool) (touched : list touched_key) :=
  map inl (omap touched_pair touched) ++ (if armed then map inr (jtouched db b) else []).
Definition full_ids (db : tables) (armed : bool) :=
  map inl (nonzero_pairs db) ++ (if armed then map inr (esc_listed db) else []).
Definition id_updates (db : tables) (armed : bool) ids : list (bytes * option bytes) :=
  map (fun id => (kf id, bal_live db armed id)) ids.

Lemma rfold_app {S A} (f : S -> A -> result S) l l' st :
  rfold f st (l ++ l') = rbind (rfold f st l) (fun st => rfold f st l').
Proof. revert st; induction l as [|a l IH]; intros st; cbn; [done|]. by destruct (f st a); cbn. Qed.

Lemma hex_updates_app l l' : hex_updates (l ++ l') = hex_updates l ++ hex_updates l'.
Proof. apply map_app. Qed.

Lemma touch_loop_run D db armed l (st : St * string) ups : t_fault db = None -> ledger_ok db ->
  bal_keys_in chain network D (map inl (omap touched_pair l)) ->
  exists ups', touch_loop db chain network l st ups
    = rbind (rfold update_step st (hex_updates (id_updates db armed (map inl (omap touched_pair l)))))
        (fun st' => Ok (st', ups')).
Proof.
  intros Hf [Hnet _]. revert st ups; induction l as [|e l IH]; intros st ups Hk; cbn [touch_loop omap list_omap].
  - exists ups. done.
  - destruct (touched_pair e) as [p|] eqn:Ep; cbn [omap list_omap] in Hk; rewrite ?Ep in Hk; [|by apply IH].
    unfold getNetBalance, strict. rewrite Hf. cbn [rbind].
    destruct (leafOrNull_net (net_units db p) (Hnet p)) as [_ ->]. cbn [rbind].
    destruct (bal_key_kf chain network D _ p Hk) as [-> _]; [|by left]. cbn [rbind].
    unfold id_updates, hex_updates. cbn [map rfold]. unfold update_step at 1. cbn [fst snd toBuf].
    rewrite hex_decode_encode. cbn [bal_live].
    destruct (update st.2 (kf (inl p)) (hex_encode <$> bal_leaf (net_units db p)) st.1) as [st'|m]; cbn [rbind].
    + apply IH. intros id Hid. apply Hk. by right.
    + by exists [].
Qed.

Lemma latest_ok db p : ledger_ok db ->
  forall s, last_of j_pair (escrow_leaf_journal db) p ≫= j_locked_amount = Some s -> s = "" \/ is_Some (amount_units s).
Proof.
  intros [_ Hj] s. destruct (last_of j_pair _ p) as [r|] eqn:E; [|done]. cbn. rewrite Forall_forall in Hj. apply Hj.
  unfold last_of in E. apply last_Some_elem_of, elem_of_lfilter in E. tauto.
Qed.

Lemma escrow_run D db b (st : St * string) : t_fault db = None -> ledger_ok db ->
  bal_keys_in chain network D (bal_pairs db) ->
  applyEscrowLeaves db st.2 chain network b st.1
  = rfold update_step st (hex_updates (id_updates db true (map inr (jtouched db b)))).
Proof.
  intros Hf Hok Hk. unfold applyEscrowLeaves, touchedEscrowKeys, strict. rewrite Hf. cbn [rbind].
  destruct st as [s root]. cbn [fst snd]. apply update_all_run.
  exists (map (fun p => Some (kf (inr p), hex_encode <$> bal_live db true (inr p))) (jtouched db b)). split.
  - apply rmap_const. intros p Hp. unfold latestLockedAmount, strict. rewrite Hf. cbn [rbind].
    assert (forall rows, List.filter (fun r => bool_decide (j_pair r = p) && true) rows
                       = List.filter (fun r => bool_decide (j_pair r = p)) rows) as ->.
    { intros rows. apply List.filter_ext. intros r. apply andb_true_r. }
    fold (last_of j_pair (escrow_leaf_journal db) p).
    rewrite escrowLeaf_ok by (by apply latest_ok). cbn [rbind].
    destruct (bal_key_kf chain network D _ p Hk) as [_ ->]; [done|].
    unfold jtouched in Hp. rewrite elem_of_remove_dups in Hp.
    apply list_elem_of_fmap in Hp as (r & -> & [Hr _]%elem_of_lfilter).
    apply elem_of_app. right. apply list_elem_of_fmap. exists (j_pair r). split; [done|]. apply list_elem_of_fmap. eauto.
  - rewrite omap_id_Some. unfold id_updates. by rewrite !map_map.
Qed.

Lemma escrow_rows_ok db : ledger_ok db ->
  liveEscrowLeaves db = strict db (omap (fun r => (fun l => (j_address r, j_tick r, hex_encode l)) <$> esc_leaf (j_locked_amount r))
    (winners j_pair (escrow_leaf_journal db))).
Proof.
  intros [_ Hj]. unfold liveEscrowLeaves, strict. destruct (t_fault db); [done|]. cbn [rbind].
  assert (Forall (fun r => forall s, j_locked_amount r = Some s -> s = "" \/ is_Some (amount_units s))
    (winners j_pair (escrow_leaf_journal db))) as Hw.
  { apply Forall_forall. intros r [Hr _]%last_of_winner. rewrite Forall_forall in Hj. by apply Hj. }
  induction Hw as [|r rows Hr Hrows IH]; cbn; [done|]. rewrite escrowLeaf_ok by done. cbn [rbind].
  rewrite IH. cbn [rbind]. by destruct (esc_leaf (j_locked_amount r)).
Qed.

Lemma full_run D db blockIndex (force : bool) (s : St) : t_fault db = None -> ledger_ok db ->
  bal_keys_in chain network D (bal_pairs db) ->
  let armed := isEscrowLockedLeafActive maps blockIndex network (JStr chain) || force in
  buildFullBalancesRoot maps db chain network blockIndex force s
  = rfold update_step (s, EMPTY_ROOT_HEX) (hex_updates (id_updates db armed (full_ids db armed))).
Proof.
  intros Hf Hok Hk armed. unfold buildFullBalancesRoot, strict. rewrite Hf. cbn [rbind]. fold armed.
  assert (forall p, p ∈ nonzero_pairs db -> inl p ∈ bal_pairs db) as Hnz.
  { intros p [Hp _]%elem_of_lfilter. rewrite elem_of_remove_dups in Hp. apply elem_of_app. left.
    by apply (list_elem_of_fmap_2 inl). }
  rewrite (update_all_run _ _ (id_updates db armed (map inl (nonzero_pairs db)))).
  2: { exists (map (fun p => Some (kf (inl p), hex_encode <$> bal_live db armed (inl p))) (nonzero_pairs db)). split.
    - apply rmap_const. intros p Hp. destruct (leafOrNull_net (net_units db p)) as [-> _]; [apply Hok|].
      cbn [rbind bal_live]. apply elem_of_lfilter in Hp as Hp'. destruct Hp' as [_ Hz]. js_simpl.
      unfold bal_leaf. rewrite (proj2 (Z.eqb_neq _ _)) by done. cbn.
      destruct (bal_key_kf chain network D _ p Hk) as [-> _]; [done|by apply Hnz].
    - rewrite omap_id_Some. unfold id_updates. by rewrite !map_map. }
  unfold full_ids, id_updates. rewrite map_app, hex_updates_app, rfold_app.
  destruct (rfold _ _ _) as [st|m]; cbn [rbind]; [|done]. destruct armed; [|done].
  rewrite escrow_rows_ok by done. unfold strict. rewrite Hf. cbn [rbind]. apply update_all_run.
  exists (map (fun r => (fun l => (kf (inr (j_pair r)), Some (hex_encode l))) <$> esc_leaf (j_locked_amount r))
    (List.filter (fun r => bool_decide (is_Some (esc_leaf (j_locked_amount r)))) (winners j_pair (escrow_leaf_journal db)))).
  assert (forall r, r ∈ winners j_pair (escrow_leaf_journal db) ->
    inr (j_pair r) ∈ bal_pairs db /\ bal_live db true (inr (j_pair r)) = esc_leaf (j_locked_amount r)) as Hw.
  { intros r Hr. destruct (last_of_winner j_pair _ r Hr) as [Hin Hl]. split; [|cbn; by rewrite Hl].
    apply elem_of_app. right. apply list_elem_of_fmap. exists (j_pair r). split; [done|]. apply list_elem_of_fmap. eauto. }
  revert Hw. unfold esc_listed. generalize (winners j_pair (escrow_leaf_journal db)).
  induction l as [|r l IH]; intros Hw; cbn; [done|].
  destruct IH as [IH1 IH2]; [intros; apply Hw; by right|]. destruct (Hw r) as [Hin Hl]; [by left|].
  destruct (esc_leaf (j_locked_amount r)) as [lf|] eqn:El; cbn; [|done].
  change (j_address r, j_tick r) with (j_pair r). rewrite El.
  destruct (bal_key_kf chain network D _ (j_pair r) Hk) as [_ ->]; [|done]. cbn [rbind fmap option_fmap option_map].
  rewrite IH1. cbn [rbind]. split; [done|]. cbn. cbn in Hl. rewrite Hl. cbn. by f_equal.
Qed.
End BalanceRuns.

(** ** Both branches commit the live leaf set *)
Section BalanceCommits.
Context `{HashFn}.
Variables (chain network : string) (D : bytes -> Prop).
Notation kf := (bal_kf chain network).

Lemma full_commits db armed : keys_distinct kf (bal_pairs db) ->
  updates_ok D smt_new (id_updates chain network db armed (full_ids db armed)) ->
  commits kf (set_all smt_new (id_updates chain network db armed (full_ids db armed))) (bal_pairs db) (bal_live db armed).
Proof.
  intros Hd Hu. apply (commits_full _ D); [done| | |done].
  - intros id Hid%list_elem_of_In. apply list_elem_of_In. unfold full_ids in Hid. apply elem_of_app in Hid as [Hid|Hid].
    + apply list_elem_of_fmap in Hid as (p & -> & [Hp _]%elem_of_lfilter). rewrite elem_of_remove_dups in Hp.
      apply elem_of_app. left. by apply (list_elem_of_fmap_2 inl).
    + destruct armed; [|by apply not_elem_of_nil in Hid]. apply list_elem_of_fmap in Hid as (p & -> & Hp).
      unfold esc_listed in Hp. apply list_elem_of_fmap in Hp as (r & -> & [[Hr _]%last_of_winner _]%elem_of_lfilter).
      apply elem_of_app. right. apply list_elem_of_fmap. exists (j_pair r). split; [done|]. apply list_elem_of_fmap. eauto.
  - intros id Hid Hn. unfold full_ids in Hn. rewrite not_elem_of_app in Hn. destruct Hn as [Hn1 Hn2].
    unfold bal_pairs in Hid. apply elem_of_app in Hid as [Hid|Hid]; apply list_elem_of_fmap in Hid as (p & -> & Hp); cbn.
    + unfold bal_leaf. destruct (net_units db p =? 0) eqn:Ez; [done|]. exfalso. apply Hn1, list_elem_of_fmap.
      exists p. split; [done|]. apply elem_of_lfilter. rewrite elem_of_remove_dups, Ez. done.
    + destruct armed; [|done]. destruct (winners_cover j_pair _ p Hp) as (r & Hr & <-).
      destruct (last_of_winner j_pair _ r Hr) as [_ ->]. cbn.
      destruct (esc_leaf (j_locked_amount r)) eqn:El; [|done]. exfalso. apply Hn2, list_elem_of_fmap.
      exists (j_pair r). split; [done|]. unfold esc_listed. apply list_elem_of_fmap. exists r. split; [done|].
      apply elem_of_lfilter. split; [done|]. apply bool_decide_eq_true. rewrite El. eauto.
Qed.

(** What a block changes, as the touched set and the journal record it: ledger
    rows are only added, a holder that is not touched keeps its net balance, and
    the new journal rows carry the block's height. *)
Definition block_covers (db0 db : tables) (jnew : list journal_row) (b : Z) (touched : list touched_key) : Prop :=
  escrow_leaf_journal db = escrow_leaf_journal db0 ++ jnew
  /\ Forall (fun r => j_block_index r = b) jnew
  /\ incl (ledger_pairs db0) (ledger_pairs db)
  /\ forall p, p ∉ omap touched_pair touched -> net_units db p = net_units db0 p.

Lemma inc_commits db0 db jnew b touched armed t :
  keys_distinct kf (bal_pairs db ++ map inl (omap touched_pair touched)) ->
  block_covers db0 db jnew b touched -> commits kf t (bal_pairs db0) (bal_live db0 armed) ->
  updates_ok D t (id_updates chain network db armed (inc_ids db b armed touched)) ->
  commits kf (set_all t (id_updates chain network db armed (inc_ids db b armed touched))) (bal_pairs db) (bal_live db armed).
Proof.
  intros Hd (Hj & Hjn & Hl & Hnet) Hc Hu. set (extra := map inl (omap touched_pair touched)) in *.
  assert (commits kf (set_all t (id_updates chain network db armed (inc_ids db b armed touched)))
            (bal_pairs db ++ extra) (bal_live db armed)) as [Hok Hg].
  - apply (commits_thread _ D _ (bal_pairs db0) (bal_live db0 armed)); [done|done| | | |done].
    + intros id Hid. apply in_or_app. left. unfold bal_pairs in *. rewrite Hj, !map_app.
      apply in_app_or in Hid as [Hid|Hid]; apply in_or_app; [left|right; apply in_or_app; by left].
      apply in_map_iff in Hid as (p & <- & Hp). apply in_map. by apply Hl.
    + intros id Hid%list_elem_of_In. apply list_elem_of_In. unfold inc_ids in Hid. fold extra in Hid.
      apply elem_of_app in Hid as [Hid|Hid]; apply elem_of_app; [by right|left].
      destruct armed; [|by apply not_elem_of_nil in Hid]. apply list_elem_of_fmap in Hid as (p & -> & Hp).
      unfold jtouched in Hp. rewrite elem_of_remove_dups in Hp. apply list_elem_of_fmap in Hp as (r & -> & [Hr _]%elem_of_lfilter).
      apply elem_of_app. right. apply list_elem_of_fmap. exists (j_pair r). split; [done|]. apply list_elem_of_fmap. eauto.
    + intros id Hid Hn. assert (bal_live db armed id = bal_live db0 armed id) as ->;
        [|destruct (decide _); [done|by apply bal_live_None]].
      unfold inc_ids in Hn. rewrite not_elem_of_app in Hn. destruct Hn as [Hn1 Hn2]. destruct id as [p|p]; cbn.
      * rewrite Hnet; [done|]. intros Hp. apply Hn1, list_elem_of_fmap. eauto.
      * destruct armed; [|done]. rewrite Hj, last_of_app_old; [done|]. intros (r & -> & Hr)%list_elem_of_fmap.
        apply Hn2, list_elem_of_fmap. exists (j_pair r). split; [done|]. unfold jtouched. apply elem_of_remove_dups.
        apply list_elem_of_fmap. exists r. split; [done|]. apply elem_of_lfilter. rewrite Hj.
        split; [apply elem_of_app; by right|]. rewrite Forall_forall in Hjn. apply Z.eqb_eq. by apply Hjn.
  - split; [done|]. intros k. rewrite Hg. apply source_leaf_extra; [done|]. intros; by apply bal_live_None.
Qed.
End BalanceCommits.

(** Outside the arming block the escrow leaf has one status at a block and the
    block before it. *)
Lemma escrow_status_stable maps network coin b :
  let active b := isEscrowLockedLeafActive maps (JInt b) network coin in
  active b && negb (active (b - 1)) = false -> active b = active (b - 1).
Proof.
  intros active Harm. unfold active in *. destruct (isEscrowLockedLeafActive maps (JInt b) network coin) eqn:Eb.
  - cbn in Harm. by js_simpl.
  - destruct (isEscrowLockedLeafActive maps (JInt (b - 1)) network coin) eqn:Eb1; [|done].
    unfold isEscrowLockedLeafActive in *. destruct (decide (0 <= b - 1)).
    + rewrite (atOrAfter_mono _ (JInt (b - 1)) (JInt b) _ _ (b - 1) b) in Eb; [done| | |lia|done];
        cbn; rewrite (proj2 (Z.leb_le _ _)) by lia; done.
    + unfold atOrAfter in Eb1. cbn in Eb1. by rewrite (proj2 (Z.leb_gt _ _)) in Eb1 by lia.
Qed.

(** ** Properties *)
Section BalanceProperties.
Context `{HashFn} {St : Type} `{NodeStoreLaws St}.

(** The follower's balances root commits the ledger on every branch.  When
    the block's touched set and journal rows cover what the block changed and the
    prior row's root commits the leaf set of the block before,
    [computeFollowerBalancesRoot] returns the root of the current leaf set: the
    net balance of every holder and, where the escrow leaf is armed, every locked
    total, with no leaf for a zero.  The activation block, the arming block and a
    missing prior row rebuild in full to the same effect.  It fails only when the
    database does. *)
Theorem computeFollowerBalancesRoot_live (D : bytes -> Prop) maps db0 db jnew chain network b touched
    (isActivation : bool) (s : St) t :
  let active b := isEscrowLockedLeafActive maps (JInt b) network (JStr chain) in
  let prior := if isActivation then None else truthy (rr_balances_root <$> prior_row db chain network (b - 1)) in
  collision_free D -> empties_in D -> addressed D (ns_rows s) -> ledger_ok db ->
  bal_keys_in chain network D (bal_pairs db ++ map inl (omap touched_pair touched)) ->
  block_covers db0 db jnew b touched ->
  match prior, active b && negb (active (b - 1)) with
  | Some root, false =>
      repr s root t /\ commits (bal_kf chain network) t (bal_pairs db0) (bal_live db0 (active (b - 1)))
      /\ updates_ok D t (id_updates chain network db (active b) (inc_ids db b (active b) touched))
  | _, _ => updates_ok D smt_new (id_updates chain network db (active b) (full_ids db (active b)))
  end ->
  match computeFollowerBalancesRoot maps db chain network b touched isActivation s with
  | Ok (s', r) => exists t', repr s' (balancesRoot r) t'
      /\ commits (bal_kf chain network) t' (bal_pairs db) (bal_live db (active b))
  | Throw _ => t_fault db <> None \/ ns_up s = false
  end.
Proof.
  intros active prior Hcf He Ha Hok Hk Hcov Hbranch. unfold computeFollowerBalancesRoot. fold (active b) (active (b - 1)).
  pose proof (bal_keys_distinct chain network D _ Hcf Hk) as Hd.
  assert (bal_keys_in chain network D (bal_pairs db)
          /\ bal_keys_in chain network D (map inl (omap touched_pair touched))) as [Hk1 Hk2].
  { split; intros id Hid; apply Hk; apply elem_of_app; auto. }
  destruct (t_fault db) eqn:Hf.
  { destruct isActivation; cbn [rbind]; [cbn [truthy fmap option_fmap option_map]|unfold lookupFollowerPriorRoot];
      unfold buildFullBalancesRoot, strict; rewrite Hf; by left. }
  unfold lookupFollowerPriorRoot, strict. rewrite Hf.
  set (arming := active b && negb (active (b - 1))) in *.
  assert (forall esc, updates_ok D smt_new (id_updates chain network db (active b) (full_ids db (active b))) ->
    match (let! st := buildFullBalancesRoot maps db chain network (JInt b) false s in
           Ok (st.1, BalancesResult st.2 None esc)) with
    | Ok (s', r) => exists t', repr s' (balancesRoot r) t'
        /\ commits (bal_kf chain network) t' (bal_pairs db) (bal_live db (active b))
    | Throw _ => (None : option string) <> None \/ ns_up s = false
    end) as Hfull.
  { intros esc Hu. rewrite (full_run maps chain network D), orb_false_r by done. fold (active b).
    pose proof (run_commits D Hcf He s _ smt_new _ Ha (repr_empty s) Hu) as Hrun.
    destruct (rfold _ _ _) as [[s' root]|m]; cbn [rbind]; [|by right]. destruct Hrun as (Hr & _).
    eexists. split; [exact Hr|]. eapply full_commits; [by eapply bal_keys_distinct|done]. }
  destruct isActivation; cbn [rbind orb]; [apply Hfull, Hbranch|]. fold prior.
  change (truthy (rr_balances_root <$> prior_row db chain network (b - 1))) with prior.
  destruct prior as [root|]; [|apply Hfull, Hbranch].
  destruct arming eqn:Earm; [apply Hfull, Hbranch|]. destruct Hbranch as (Hr & Hc & Hu).
  assert (active b = active (b - 1)) as Hst by (by apply escrow_status_stable). rewrite <- Hst in Hc.
  destruct (touch_loop_run chain network D db (active b) touched (s, root) [] Hf Hok Hk2) as [ups ->].
  pose proof (run_commits D Hcf He s root t _ Ha Hr Hu) as Hrun.
  unfold inc_ids, id_updates in Hrun. rewrite map_app, hex_updates_app, rfold_app in Hrun.
  fold (id_updates chain network db (active b) (map inl (omap touched_pair touched))) in Hrun.
  destruct (rfold update_step (s, root) _) as [st|m] eqn:E1; cbn [rbind fst snd] in *; [|by right].
  assert ((if active b then applyEscrowLeaves db st.2 chain network b st.1 else Ok st)
    = rfold update_step st (hex_updates (map (fun id => (bal_kf chain network id, bal_live db (active b) id))
        (if active b then map inr (jtouched db b) else [])))) as ->.
  { destruct (active b); [|done]. by rewrite (escrow_run chain network D). }
  destruct (rfold update_step st _) as [[s' root']|m]; cbn [rbind fst snd] in *; [|by right].
  destruct Hrun as (Hr' & _). eexists. split; [exact Hr'|].
  unfold id_updates. rewrite <- map_app. by eapply inc_commits.
Qed.
End BalanceProperties.

(** Witness: one holder credited at block 1 and again at block 2. *)
Section BalanceWitness.
#[local] Instance ex_bal_hash : HashFn := poly_hash.

Definition ex_holder : string * string := ("addr1", "XCHAIN").
Definition ex_credit (units : Z) : ledger_entry := LedgerEntry "addr1" "XCHAIN" units.
Definition ex_bal_pre : bytes :=
  match joinFields (bal_fields "BTC" "regtest" (inl ex_holder)) with Ok b => b | Throw _ => [] end.
Definition ex_leaf_5 : bytes := leafHash (utf8 (render 5)).
Definition ex_leaf_8 : bytes := leafHash (utf8 (render 8)).
Definition ex_bal_D : bytes -> Prop := one_D ex_bal_pre ex_leaf_5 ex_leaf_8.
Definition ex_bal_built : node_table * string := one_built ex_bal_pre ex_leaf_5.
Definition ex_db0 : tables := Tables [] [] [ex_credit 5] [] [] None.
Definition ex_db : tables :=
  Tables [] [] [ex_credit 5; ex_credit 3] [] [RootsRow "BTC" "regtest" 1 ex_bal_built.2 "" "" "" None None None] None.
Definition ex_touched : list touched_key := [TouchedKey (Some "addr1") (Some "XCHAIN"); TouchedKey None (Some "XCHAIN")].

Lemma ex_bal_check : collision_free_list (one_preimages ex_bal_pre ex_leaf_5 ex_leaf_8) = true.
Proof. vm_compute. reflexivity. Qed.
Lemma ex_bal_leaves : leaf_ok (Some ex_leaf_5) /\ leaf_ok (Some ex_leaf_8).
Proof. split; (split; [apply leafHash_length|vm_compute; discriminate]). Qed.

Lemma ex_net p : net_units ex_db p = if bool_decide (ex_holder = p) then 8 else 0.
Proof. unfold net_units, sum_of, ex_db. cbn. unfold ex_holder. by case_bool_decide. Qed.
Lemma ex_net0 p : net_units ex_db0 p = if bool_decide (ex_holder = p) then 5 else 0.
Proof. unfold net_units, sum_of, ex_db0. cbn. unfold ex_holder. by case_bool_decide. Qed.

Lemma ex_ids id : id ∈ bal_pairs ex_db ++ map inl (omap touched_pair ex_touched) -> id = inl ex_holder.
Proof.
  intros Hin%list_elem_of_In. vm_compute in Hin. destruct Hin as [<-|[<-|[<-|[]]]]; reflexivity.
Qed.

Lemma computeFollowerBalancesRoot_live_witness :
  match computeFollowerBalancesRoot committed_maps ex_db "BTC" "regtest" 2 ex_touched false ex_bal_built.1 with
  | Ok (s', r) => exists t', repr s' (balancesRoot r) t'
      /\ commits (bal_kf "BTC" "regtest") t' (bal_pairs ex_db)
           (bal_live ex_db (isEscrowLockedLeafActive committed_maps (JInt 2) "regtest" (JStr "BTC")))
  | Throw _ => t_fault ex_db <> None \/ ns_up ex_bal_built.1 = false
  end.
Proof.
  destruct (one_built_ok ex_bal_pre ex_leaf_5 ex_leaf_8 ex_bal_check (proj1 ex_bal_leaves)) as [Hr Ha].
  apply (computeFollowerBalancesRoot_live ex_bal_D committed_maps ex_db0 ex_db [] "BTC" "regtest" 2 ex_touched false
    ex_bal_built.1 (set_all smt_new (one_kvs ex_bal_pre ex_leaf_5)) (one_free _ _ _ ex_bal_check) (one_empties _ _ _) Ha).
  - split; [intros p; rewrite ex_net; case_bool_decide; lia|constructor].
  - intros id Hid. rewrite (ex_ids id Hid). exists ex_bal_pre. split; [reflexivity|left].
  - split_and!; [done|constructor|intros p [<-|[]]; by left|]. intros p Hp. rewrite ex_net, ex_net0.
    case_bool_decide as E; [|done]. subst p. exfalso. apply Hp. left.
  - assert (commits (bal_kf "BTC" "regtest") (set_all smt_new (one_kvs ex_bal_pre ex_leaf_5)) (bal_pairs ex_db0) (bal_live ex_db0 false)) as Hc.
    { apply (full_commits "BTC" "regtest" ex_bal_D ex_db0 false);
        [|exact (one_kvs_ok ex_bal_pre ex_leaf_5 ex_leaf_8 (proj1 ex_bal_leaves))].
      intros p q Hp%list_elem_of_singleton Hq%list_elem_of_singleton _. by subst. }
    change (prior_row ex_db "BTC" "regtest" (2 - 1)) with
      (Some (RootsRow "BTC" "regtest" 1 ex_bal_built.2 "" "" "" None None None)).
    cbn [fmap option_fmap option_map rr_balances_root].
    pose proof Hr as (Hroot & _). unfold ex_bal_built at 1. rewrite Hroot, truthy_root by apply Hc. rewrite <- Hroot.
    change (isEscrowLockedLeafActive committed_maps (JInt 2) "regtest" (JStr "BTC")) with false.
    change (isEscrowLockedLeafActive committed_maps (JInt (2 - 1)) "regtest" (JStr "BTC")) with false. cbn [andb].
    split; [exact Hr|]. split; [exact Hc|]. split; [|done].
    apply (one_update ex_bal_pre ex_leaf_5 ex_leaf_8); [apply Hc|apply one_tree_others|apply ex_bal_leaves|right; by left].
Defined.
End BalanceWitness.

(** ** The stakes memo *)

Lemma hex_encode_length b : length (utf8 (hex_encode b)) = (2 * length b)%nat.
Proof. unfold hex_encode. rewrite utf8_of_utf8. induction b as [|x b IH]; cbn; [done|]. rewrite IH. lia. Qed.

(** Text of a fixed width joins injectively. *)
Lemma join_text_inj n l l' : length l = length l' ->
  Forall (fun x => length (utf8 x) = n) l -> Forall (fun x => length (utf8 x) = n) l' ->
  join_text "|" l = join_text "|" l' -> l = l'.
Proof.
  revert l'; induction l as [|x l IH]; intros [|x' l'] Hlen Hf Hf' He; try done.
  apply Forall_cons in Hf as [Hx Hf], Hf' as [Hx' Hf']. injection Hlen as Hlen.
  destruct l as [|y l], l' as [|y' l']; try done; [cbn in He; by subst|].
  apply (f_equal utf8) in He. cbn [join_text] in He. rewrite !utf8_app in He.
  apply app_inj_len in He as [He1 He2]; [|congruence]. apply (inj utf8) in He1 as ->.
  apply app_inj_len in He2 as [_ He2]; [|done]. apply (inj utf8) in He2. f_equal. by apply IH.
Qed.

Lemma insert_text_perm x l : insert_text x l ≡ₚ x :: l.
Proof.
  induction l as [|y l IH]; cbn; [done|]. destruct (String.leb x y); [done|].
  rewrite IH. apply perm_swap.
Qed.
Lemma sort_text_perm l : sort_text l ≡ₚ l.
Proof. induction l as [|x l IH]; cbn; [done|]. by rewrite insert_text_perm, IH. Qed.

(** The entries of a stake set: 32-byte keys and leaves in hex. *)
Definition hex_entries (es : list (bytes * bytes)) : list (string * string) :=
  map (fun e => (hex_encode e.1, hex_encode e.2)) es.
Definition entries_32 (es : list (bytes * bytes)) : Prop :=
  Forall (fun e => length e.1 = 32%nat /\ length e.2 = 32%nat) es.

Definition entry_decode (s : string) : bytes * bytes :=
  (hex_decode (of_utf8 (take 64 (utf8 s))), hex_decode (of_utf8 (drop 65 (utf8 s)))).

Lemma entry_decode_text e : length e.1 = 32%nat ->
  entry_decode (entry_text (hex_encode e.1, hex_encode e.2)) = e.
Proof.
  intros Hl. pose proof (hex_encode_length e.1) as Hlen. rewrite Hl in Hlen.
  unfold entry_decode, entry_text. cbn [fst snd]. rewrite !utf8_app, app_assoc.
  rewrite take_app_le, take_app_length' by (rewrite ?length_app, ?Hlen; done || lia).
  rewrite drop_app_length' by (rewrite length_app, Hlen; done).
  rewrite !of_utf8_utf8, !hex_decode_encode. by destruct e.
Qed.

Lemma entry_text_length e : length e.1 = 32%nat -> length e.2 = 32%nat ->
  length (utf8 (entry_text (hex_encode e.1, hex_encode e.2))) = 129%nat.
Proof. intros H1 H2. unfold entry_text. cbn [fst snd]. rewrite !utf8_app, !length_app, !hex_encode_length, H1, H2. done. Qed.

(** The digest preimage determines the entry set, whatever its order. *)
Lemma digest_preimage_perm es es' : entries_32 es -> entries_32 es' ->
  digest_preimage (hex_entries es) = digest_preimage (hex_entries es') -> es ≡ₚ es'.
Proof.
  intros Hes Hes' He. unfold digest_preimage in He. rewrite !utf8_app in He.
  unfold hex_entries in He. rewrite !length_map in He.
  assert (forall l, entries_32 l -> Forall (fun x => length (utf8 x) = 129%nat)
    (sort_text (map entry_text (map (fun e => (hex_encode e.1, hex_encode e.2)) l)))) as H129.
  { intros l Hl. rewrite sort_text_perm, map_map. apply Forall_fmap. eapply Forall_impl; [exact Hl|].
    intros e [H1 H2]. by apply entry_text_length. }
  assert (forall l, entries_32 l ->
    map entry_decode (map entry_text (map (fun e => (hex_encode e.1, hex_encode e.2)) l)) = l) as Hdec.
  { intros l Hl. rewrite !map_map. induction Hl as [|e l [H1 _] _ IH]; cbn [map]; [done|].
    by rewrite entry_decode_text, IH. }
  assert (forall z, 0 <= z -> Forall (fun b => is_digit b = true) (utf8 (string_of_int z))) as Hdig.
  { intros z Hz. unfold string_of_int, dec_of. rewrite utf8_of_utf8, (proj2 (Z.ltb_ge _ _)) by lia.
    by apply dec_of_nonneg_spec. }
  apply (f_equal span_digits) in He. cbn [utf8] in He.
  rewrite !span_digits_app in He by (done || (apply Hdig; lia)). injection He as Hn Hj.
  apply (inj utf8) in Hj. unfold string_of_int, dec_of in Hn.
  rewrite !utf8_of_utf8, !(proj2 (Z.ltb_ge _ _)) in Hn by lia. apply dec_of_nonneg_inj in Hn; [|lia..].
  apply (join_text_inj 129) in Hj; [|rewrite !sort_text_perm, !length_map; lia|auto..].
  rewrite <- (Hdec es), <- (Hdec es') by done. apply Permutation_map.
  rewrite <- (sort_text_perm (map entry_text _)), Hj. apply sort_text_perm.
Qed.

Section Memo.
Context `{HashFn} {St : Type} `{NodeStoreLaws St}.
Variable D : bytes -> Prop.

Definition assoc (es : list (bytes * bytes)) (k : bytes) : option bytes :=
  snd <$> List.find (fun e => bool_decide (e.1 = k)) es.
Definition entry_tree (es : list (bytes * bytes)) : leaves := set_all smt_new (map (fun e => (e.1, Some e.2)) es).
(** The leaf set [t] is that of the entries. *)
Definition holds (t : leaves) (es : list (bytes * bytes)) : Prop :=
  leaves_ok t /\ forall k, smt_get k t = assoc es k.

Lemma assoc_In es k l : NoDup (map fst es) -> assoc es k = Some l <-> (k, l) ∈ es.
Proof.
  intros Hnd. unfold assoc. split.
  - destruct (List.find _ es) as [e|] eqn:E; [|done]. intros [= <-]. apply List.find_some in E as [He Hk].
    js_simpl. subst. apply list_elem_of_In. by destruct e.
  - intros Hin. induction es as [|[k' l'] es IH]; [by apply not_elem_of_nil in Hin|].
    cbn in Hnd. rewrite NoDup_cons in Hnd. destruct Hnd as [Hnin Hnd]. cbn. case_bool_decide as E; cbn in E.
    + subst k'. apply elem_of_cons in Hin as [[= ->]|Hin]; [done|]. exfalso. apply Hnin, list_elem_of_fmap.
      exists (k, l). done.
    + apply elem_of_cons in Hin as [[= -> ->]|Hin]; [done|]. by apply IH.
Qed.

Lemma assoc_perm es es' k : es ≡ₚ es' -> NoDup (map fst es) -> assoc es k = assoc es' k.
Proof.
  intros Hp Hnd. assert (NoDup (map fst es')) as Hnd' by (by rewrite <- Hp).
  apply option_eq. intros l. rewrite !assoc_In by done. by rewrite Hp.
Qed.

Lemma entry_tree_holds es : NoDup (map fst es) -> updates_ok D smt_new (map (fun e => (e.1, Some e.2)) es) ->
  holds (entry_tree es) es.
Proof.
  intros Hnd Hu. split; [eapply set_all_ok; [exact Hu|apply leaves_ok_new]|]. intros k. unfold entry_tree.
  rewrite (set_all_get D (assoc es)); [|done|apply leaves_ok_new|].
  - destruct (decide _) as [|Hn]; [done|]. change (smt_get k smt_new) with (@None bytes). unfold assoc.
    destruct (List.find _ es) as [e|] eqn:E; [|done]. exfalso. apply Hn. apply List.find_some in E as [He Hk].
    js_simpl. subst k. rewrite map_map. apply list_elem_of_fmap. exists e. split; [done|]. by apply list_elem_of_In.
  - intros k' l ([k0 l0] & [= -> ->] & Hin)%list_elem_of_fmap. symmetry. by apply assoc_In.
Qed.

Lemma holds_root t t' es : holds t es -> holds t' es -> smt_rootHex t = smt_rootHex t'.
Proof.
  intros [Hok Hg] [Hok' Hg']. unfold smt_rootHex, smt_root. do 2 f_equal.
  apply smtNode_ext; auto using smt_entries_ok. intros k. rewrite !entry_get_entries by done. congruence.
Qed.

(** A memo whose digest and root are those of one stake set that the store
    holds. *)
Definition memo_ok (s : St) (m : stakes_memo) : Prop :=
  exists es t, entries_32 es /\ NoDup (map fst es)
    /\ m_digest m = stakeEntriesDigest (hex_entries es) /\ D (digest_preimage (hex_entries es))
    /\ repr s (m_root m) t /\ holds t es.

(** The stakes memo never changes the root: from a memo that some earlier
    build left, [buildStakesRoot] returns the root of the given stake set whether
    it reuses the memo or rebuilds, the store holds that tree, and the memo it
    leaves is again one of a build; it fails only when the store does. *)
Theorem buildStakesRoot_memo chain network b es memo (s : St) :
  collision_free D -> empties_in D -> addressed D (ns_rows s) ->
  entries_32 es -> NoDup (map fst es) -> D (digest_preimage (hex_entries es)) ->
  updates_ok D smt_new (map (fun e => (e.1, Some e.2)) es) ->
  (forall m, memo = Some m -> memo_ok s m) ->
  match buildStakesRoot chain network b (hex_entries es) memo s with
  | Ok ((s', root), memo') => root = smt_rootHex (entry_tree es)
      /\ (exists t, repr s' root t /\ holds t es) /\ forall m', memo' = Some m' -> memo_ok s' m'
  | Throw _ => ns_up s = false
  end.
Proof.
  intros Hcf He Ha H32 Hnd HD Hu Hmemo. pose proof (entry_tree_holds es Hnd Hu) as Hh.
  unfold buildStakesRoot. set (digest := stakeEntriesDigest (hex_entries es)).
  assert (forall r, repr s r (entry_tree es) \/ (exists t, repr s r t /\ holds t es) ->
    r = smt_rootHex (entry_tree es) /\ exists t, repr s r t /\ holds t es) as Hfin.
  { intros r [Hr|(t & Hr & Ht)]; [split; [apply Hr|eauto]|]. split; [|eauto].
    destruct Hr as [-> _]. by eapply holds_root. }
  set (rebuild := let! st := buildFull (hex_entries es) s in Ok (st, Some (StakesMemo chain network b digest st.2))).
  assert (match rebuild with
    | Ok ((s', root), memo') => root = smt_rootHex (entry_tree es)
        /\ (exists t, repr s' root t /\ holds t es) /\ forall m', memo' = Some m' -> memo_ok s' m'
    | Throw _ => ns_up s = false end) as Hre.
  { unfold rebuild, hex_entries. rewrite buildFull_updates.
    pose proof (run_commits D Hcf He s _ smt_new _ Ha (repr_empty s) Hu) as Hrun.
    destruct (rfold _ _ _) as [[s' root]|m]; cbn [rbind fst snd]; [|done]. destruct Hrun as (Hr & _).
    fold (entry_tree es) in Hr. split; [apply Hr|]. split; [eauto|]. intros m' [= <-]. exists es, (entry_tree es). done. }
  destruct memo as [m|]; [|exact Hre]. destruct (memo_hits m chain network b digest) eqn:Eh; [|exact Hre].
  assert (exists t, repr s (m_root m) t /\ holds t es) as (t & Hr & Ht).
  { destruct (Hmemo m eq_refl) as (es0 & t & H320 & Hnd0 & Hdig & HD0 & Hr & Hok & Hg). exists t. split; [done|].
    split; [done|]. intros k. rewrite Hg. unfold memo_hits in Eh. js_simpl.
    rewrite Hdig in *. unfold digest, stakeEntriesDigest in *. cbn [toHex] in *.
    match goal with Hx : hex_encode _ = hex_encode _ |- _ => apply (inj hex_encode) in Hx; apply Hcf in Hx; [|done..];
      apply digest_preimage_perm in Hx; [|done..] end.
    by apply assoc_perm. }
  assert (match Ok ((s, m_root m), Some (StakesMemo chain network b digest (m_root m))) with
    | Ok ((s', root), memo') => root = smt_rootHex (entry_tree es)
        /\ (exists t, repr s' root t /\ holds t es) /\ forall m', memo' = Some m' -> memo_ok s' m'
    | Throw _ => ns_up s = false end) as Hreuse.
  { destruct (Hfin (m_root m)) as [Hroot _]; [eauto|]. split; [done|]. split; [eauto|].
    intros m' [= <-]. exists es, t. done. }
  case_bool_decide; [exact Hreuse|]. destruct (ns_get (m_root m) s) as [[row|]|e] eqn:Eg; cbn [rbind];
    [exact Hreuse|exact Hre|]. destruct (ns_up s) eqn:Hup; [|done].
  destruct (ns_get_up (m_root m) s Hup) as [r Hr']. congruence.
Qed.
End Memo.

(** Witness: the second of two consecutive blocks with one stake entry reuses the
    memo of the first. *)
Section MemoWitness.
#[local] Instance ex_memo_hash : HashFn := poly_hash.

Definition ex_stake_entries : list (bytes * bytes) := [(one_key ex_bal_pre, ex_leaf_5)].
Definition ex_memo_preimages : list bytes :=
  digest_preimage (hex_entries ex_stake_entries) :: one_preimages ex_bal_pre ex_leaf_5 ex_leaf_8.
Definition ex_memo_D (x : bytes) : Prop := x ∈ ex_memo_preimages.
Definition ex_memo : stakes_memo :=
  StakesMemo "BTC" "regtest" 99 (stakeEntriesDigest (hex_entries ex_stake_entries)) ex_bal_built.2.

Lemma ex_memo_free : collision_free ex_memo_D.
Proof. apply collision_free_list_sound. vm_compute. reflexivity. Qed.

Lemma ex_stake_ok : updates_ok ex_bal_D smt_new (map (fun e => (e.1, Some e.2)) ex_stake_entries).
Proof. exact (one_kvs_ok ex_bal_pre ex_leaf_5 ex_leaf_8 (proj1 ex_bal_leaves)). Qed.

Lemma buildStakesRoot_memo_witness :
  match buildStakesRoot "BTC" "regtest" 100 (hex_entries ex_stake_entries) (Some ex_memo) ex_bal_built.1 with
  | Ok ((s', root), memo') => root = smt_rootHex (entry_tree ex_stake_entries)
      /\ (exists t, repr s' root t /\ holds t ex_stake_entries) /\ forall m', memo' = Some m' -> memo_ok ex_memo_D s' m'
  | Throw _ => ns_up ex_bal_built.1 = false
  end.
Proof.
  destruct (one_built_ok ex_bal_pre ex_leaf_5 ex_leaf_8 ex_bal_check (proj1 ex_bal_leaves)) as [Hr Ha].
  assert (NoDup (map fst ex_stake_entries)) as Hnd by apply NoDup_singleton.
  assert (entries_32 ex_stake_entries) as H32 by (constructor; [split; apply sha256_length|constructor]).
  apply (buildStakesRoot_memo ex_memo_D "BTC" "regtest" 100 ex_stake_entries (Some ex_memo) ex_bal_built.1 ex_memo_free).
  - intros h Hh. right. by apply (one_empties ex_bal_pre ex_leaf_5 ex_leaf_8).
  - intros x row Hx. destruct (Ha x row Hx) as (a & b & ? & ? & ? & ? & HD). exists a, b. split_and!; [done..|by right].
  - exact H32.
  - exact Hnd.
  - left.
  - destruct ex_stake_ok as [(? & ? & Hf) _]. split; [|done]. split_and!; [done..|].
    eapply Forall_impl; [exact Hf|]. intros x Hx. by right.
  - intros m [= <-]. exists ex_stake_entries, (set_all smt_new (one_kvs ex_bal_pre ex_leaf_5)).
    split; [done|]. split; [done|]. split; [done|]. split; [left|]. split; [exact Hr|].
    apply (entry_tree_holds ex_bal_D _ Hnd ex_stake_ok).
Defined.
End MemoWitness.
