(* ===== verification/Orchestrator.v ===== *)
(** * Orchestrator: the row of roots a follower persists per block

    Models the end of [src/src/state_commitment/index.js]: the candidates of the
    reserved slots and of the shadow window, [computeBlockMerkleRoot], the two
    writers of [state_tree_roots] ([computeFollowerRoots] for a live block and
    [seedSnapshotRoots] for a snapshot), the delete of
    [src/src/db/state_tree_roots.js], and the caller's activation gate
    ([updateBlockStateCommitment] of [src/src/client/applier.js]).

    The theorem: whatever sequence of live blocks, snapshot seeds, deletes and
    table writes a follower runs, each stored row's [state_root] reassembles from
    the row's own columns; no shadow value reaches it. *)

From S2P Require Import Prelude Sha256 JsText JsNumber JsMap Primitives SparseMerkle FixedMerkle NodeStore PersistentSMT GateRegistry Gates Subtrees FollowerRoots.

Section Orchestrator.
Context `{HashFn} {St : Type} `{NodeStore St}.
Variables (maps : subtree_maps) (caps : list string).
(** The answers of [getStakeWeightsByCapability] and [getBlockLeafRows]. *)
Variable stake_weights : Z -> string -> result (list weight_row).
Variable block_leaf_rows : Z -> result block_rows.

Definition CONTRACT_SLOT : string := "contract_state_root".

Definition reservedSubRootCandidates (db : tables) (chain network : string) (blockIndex : Z) (s : St)
  : result (St * option candidates) :=
  let! active := isSubtreeActive maps CONTRACT_SLOT (JInt blockIndex) network (JStr chain) in
  if (active : bool) then
    let! st := resolveContractStateRoot db chain network blockIndex false s in
    Ok (st.1, Some [(CONTRACT_SLOT, Some st.2)])
  else Ok (s, None).

Definition shadowSubRoots (db : tables) (chain network : string) (blockIndex : Z) (s : St)
  : result (St * option (jsmap string string)) :=
  let! shadow := isSubtreeShadowActive maps CONTRACT_SLOT (JInt blockIndex) network (JStr chain) in
  if (shadow : bool) then
    let! st := resolveContractStateRoot db chain network blockIndex true s in
    Ok (st.1, Some [(CONTRACT_SLOT, st.2)])
  else Ok (s, None).

Definition computeBlockMerkleRoot (blockIndex : Z) : result string :=
  let! rows := block_leaf_rows blockIndex in
  let! leaves := blockMerkleLeaves rows in
  Ok (toHex (Buf (blockMerkleRoot leaves))).

Definition computeFollowerStakesRoot (chain network : string) (blockIndex : Z) (memo : option stakes_memo) (s : St)
  : result ((St * string) * option stakes_memo) :=
  let! entries := gatherStakeEntries caps (stake_weights blockIndex) chain in
  buildStakesRoot chain network blockIndex entries memo s.

(** ** The table of roots *)
Definition row_key (r : roots_row) : string * string * Z := (rr_chain r, rr_network r, rr_block_index r).

(** [INSERT ... ON DUPLICATE KEY UPDATE]: [merge] is the update of a row that has
    the key. *)
Fixpoint upsert (merge : roots_row -> roots_row) (r : roots_row) (rows : list roots_row) : list roots_row :=
  match rows with
  | [] => [r]
  | x :: rest => if decide (row_key x = row_key r) then merge x :: rest else x :: upsert merge r rest
  end.

Definition with_roots (db : tables) (rows : list roots_row) : tables :=
  Tables (contract_state db) (escrow_leaf_journal db) (t_credits db) (t_debits db) rows (t_fault db).

(** The live statement names every column; the seed's leaves the escrow shadow
    column of an existing row as it is. *)
Definition live_merge (r x : roots_row) : roots_row := r.
Definition seed_merge (r x : roots_row) : roots_row :=
  RootsRow (rr_chain x) (rr_network x) (rr_block_index x) (rr_balances_root r) (rr_stakes_root r) (rr_state_root r)
    (rr_block_merkle_root r) (rr_contract_state_root r) (rr_contract_state_root_shadow r)
    (rr_balances_root_escrow_shadow x).

Definition deleteStateTreeRootsFromBlock (chain network : string) (blockHeight : Z) (db : tables) : tables :=
  with_roots db (List.filter (fun r => negb (bool_decide (rr_chain r = chain) && bool_decide (rr_network r = network)
                                             && (blockHeight <=? rr_block_index r))) (state_tree_roots db)).

(** What one block leaves: the node store, the tables, the memo and the row. *)
Record roots_state := RootsState { rs_store : St; rs_tables : tables; rs_memo : option stakes_memo }.

Definition computeFollowerRoots (chain network : string) (blockIndex : Z) (touchedKeys : list touched_key)
    (isActivationBlock : bool) (rs : roots_state) : result (roots_state * roots_row) :=
  let db := rs_tables rs in
  let! bal := computeFollowerBalancesRoot maps db chain network blockIndex touchedKeys isActivationBlock (rs_store rs) in
  let! stakes := (if bool_decide (chain = "BTC")
                  then computeFollowerStakesRoot chain network blockIndex (rs_memo rs) bal.1
                  else Ok ((bal.1, EMPTY_ROOT_HEX), rs_memo rs)) in
  let! cands := reservedSubRootCandidates db chain network blockIndex stakes.1.1 in
  let! extraSubRoots := gateSubRoots maps cands.2 (JInt blockIndex) network (JStr chain) in
  let stateRoot := assembleStateRoot maps (balancesRoot bal.2) stakes.1.2 extraSubRoots in
  let contractStateRoot := extraSubRootColumn extraSubRoots CONTRACT_SLOT in
  let! shadow := shadowSubRoots db chain network blockIndex cands.1 in
  let contractStateShadow := extraSubRootColumn shadow.2 CONTRACT_SLOT in
  let! esc := (if escShadow bal.2 then
                 let! st := resolveShadowBalancesRoot db chain network blockIndex (shadowBalanceUpdates bal.2)
                   (buildFullBalancesRoot maps db chain network (JInt blockIndex) true) shadow.1 in
                 Ok (st.1, Some st.2)
               else Ok (shadow.1, None)) in
  let! blockMerkleRoot := computeBlockMerkleRoot blockIndex in
  let row := RootsRow chain network blockIndex (balancesRoot bal.2) stakes.1.2 stateRoot blockMerkleRoot
               contractStateRoot contractStateShadow esc.2 in
  let! rows := strict db (upsert (live_merge row) row (state_tree_roots db)) in
  Ok (RootsState esc.1 (with_roots db rows) stakes.2, row).

Definition seedSnapshotRoots (chain network : string) (blockHeight : Z) (rs : roots_state)
  : result (roots_state * roots_row) :=
  let db := rs_tables rs in
  let! bal := buildFullBalancesRoot maps db chain network (JInt blockHeight) false (rs_store rs) in
  let! stakes := (if bool_decide (chain = "BTC")
                  then let! entries := gatherStakeEntries caps (stake_weights blockHeight) chain in
                       buildFull entries bal.1
                  else Ok (bal.1, EMPTY_ROOT_HEX)) in
  let! cands := reservedSubRootCandidates db chain network blockHeight stakes.1 in
  let! extraSubRoots := gateSubRoots maps cands.2 (JInt blockHeight) network (JStr chain) in
  let stateRoot := assembleStateRoot maps bal.2 stakes.2 extraSubRoots in
  let contractStateRoot := extraSubRootColumn extraSubRoots CONTRACT_SLOT in
  let! shadow := shadowSubRoots db chain network blockHeight cands.1 in
  let contractStateShadow := extraSubRootColumn shadow.2 CONTRACT_SLOT in
  let! blockMerkleRoot := computeBlockMerkleRoot blockHeight in
  let row := RootsRow chain network blockHeight bal.2 stakes.2 stateRoot blockMerkleRoot
               contractStateRoot contractStateShadow None in
  let! rows := strict db (upsert (seed_merge row) row (state_tree_roots db)) in
  Ok (RootsState shadow.1 (with_roots db rows) (rs_memo rs), row).

(** ** updateBlockStateCommitment (client/applier.js)

    [collect] is [collectSmtTouchedKeys] of the applied rows.  The second
    component is [_lastComputedRoots]. *)
Definition updateBlockStateCommitment (chain network : string) (blockIndex : Z)
    (collect : result (list touched_key)) (rs : roots_state) : result (roots_state * option roots_row) :=
  if negb (isStateCommitmentActive (JInt blockIndex) network (JStr chain)) then Ok (rs, None)
  else
    let isActivation := isStateCommitmentActivationBlock (JInt blockIndex) network (JStr chain) in
    let! touchedKeys := (if isActivation then Ok [] else collect) in
    let! r := computeFollowerRoots chain network blockIndex touchedKeys isActivation rs in
    Ok (r.1, Some r.2).
End Orchestrator.

Arguments RootsState {St} _ _ _.
Arguments rs_store {St} _.
Arguments rs_tables {St} _.
Arguments rs_memo {St} _.

#[local] Strategy opaque [SMT_DEPTH].

(** ** The row and its own columns *)
Section Rows.
Context `{HashFn} {St : Type} `{NodeStore St}.
Variables (maps : subtree_maps) (caps : list string).
Variable stake_weights : Z -> string -> result (list weight_row).
Variable block_leaf_rows : Z -> result block_rows.

Definition slot_of (column : option string) : option (jsmap string string) :=
  (fun root => [(CONTRACT_SLOT, root)]) <$> column.

(** A row agrees with itself and with the gates of its height: the state root is
    that of the row's own balances, stakes and contract-state columns; the
    contract-state column is NULL where the slot is not armed, its shadow NULL
    where the shadow window is not open, so never both are set; and a chain other than BTC
    commits no stakes. *)
Definition row_consistent (r : roots_row) : Prop :=
  let active := isSubtreeActive maps CONTRACT_SLOT (JInt (rr_block_index r)) (rr_network r) (JStr (rr_chain r)) in
  let shadow := isSubtreeShadowActive maps CONTRACT_SLOT (JInt (rr_block_index r)) (rr_network r) (JStr (rr_chain r)) in
  rr_state_root r = assembleStateRoot maps (rr_balances_root r) (rr_stakes_root r) (slot_of (rr_contract_state_root r))
  /\ (rr_contract_state_root r <> None -> active = Ok true)
  /\ (rr_contract_state_root_shadow r <> None -> shadow = Ok true /\ rr_contract_state_root r = None)
  /\ (rr_chain r <> "BTC" -> rr_stakes_root r = EMPTY_ROOT_HEX).

Lemma slot_column_assemble balances stakes root : let extra := Some [(CONTRACT_SLOT, root)] in
  assembleStateRoot maps balances stakes extra
  = assembleStateRoot maps balances stakes (slot_of (extraSubRootColumn extra CONTRACT_SLOT)).
Proof.
  intros extra. unfold extraSubRootColumn, extra. cbn [jm_get]. rewrite decide_True by done.
  case_bool_decide as E; [|done]. subst root. unfold assembleStateRoot. cbn [slot_of fmap option_fmap option_map].
  do 3 f_equal. assert (forall l (acc : jsmap string string), fold_left (fun acc name =>
    match jm_get name [(CONTRACT_SLOT, "")] with
    | Some root => if bool_decide (root = "") then acc else jm_set name root acc | None => acc end) l acc = acc) as Hid.
  { induction l as [|n l IH]; intros acc; cbn [fold_left]; [done|]. rewrite IH.
    cbn [jm_get]. by destruct (decide _). }
  apply Hid.
Qed.

(** The gated candidates of one block: the slot's column is set only when the
    slot is armed, and the column stands for the gated object. *)
Lemma candidates_gated db chain network b (s s' : St) cands extra balances stakes :
  reservedSubRootCandidates maps db chain network b s = Ok (s', cands) ->
  gateSubRoots maps cands (JInt b) network (JStr chain) = Ok extra ->
  let column := extraSubRootColumn extra CONTRACT_SLOT in
  assembleStateRoot maps balances stakes extra = assembleStateRoot maps balances stakes (slot_of column)
  /\ (column <> None -> isSubtreeActive maps CONTRACT_SLOT (JInt b) network (JStr chain) = Ok true).
Proof.
  unfold reservedSubRootCandidates. rewrite rbind_Ok. intros (active & Ha & Hc). destruct active.
  - rewrite rbind_Ok in Hc. destruct Hc as (st & _ & [= <- <-]). cbn [gateSubRoots gate_loop]. rewrite Ha. cbn [rbind].
    intros [= <-]. split; [apply slot_column_assemble|done].
  - injection Hc as <- <-. intros [= <-]. done.
Qed.

Lemma shadow_column db chain network b (s s' : St) shadow :
  shadowSubRoots maps db chain network b s = Ok (s', shadow) -> extraSubRootColumn shadow CONTRACT_SLOT <> None ->
  isSubtreeShadowActive maps CONTRACT_SLOT (JInt b) network (JStr chain) = Ok true
  /\ isSubtreeActive maps CONTRACT_SLOT (JInt b) network (JStr chain) = Ok false.
Proof.
  unfold shadowSubRoots. rewrite rbind_Ok. intros (active & Ha & Hc) Hcol. destruct active.
  - split; [done|]. unfold isSubtreeShadowActive in Ha. destruct (negb _); [done|].
    destruct (isSubtreeActive maps _ _ _ _) as [[]|]; cbn in Ha; congruence.
  - by injection Hc as <- <-.
Qed.

(** The two writers return a consistent row under the block's key and store it. *)
Lemma computeFollowerRoots_row chain network b touched act (rs rs' : roots_state) row :
  computeFollowerRoots maps caps stake_weights block_leaf_rows chain network b touched act rs = Ok (rs', row) ->
  row_consistent row /\ row_key row = (chain, network, b)
  /\ rs_tables rs' = with_roots (rs_tables rs) (upsert (live_merge row) row (state_tree_roots (rs_tables rs))).
Proof.
  unfold computeFollowerRoots. intros Hrun.
  bind_step Hrun as [s1 bal] Hb. bind_step Hrun as [[s2 stakes] memo] Hst. bind_step Hrun as [s3 cands] Hc.
  bind_step Hrun as extra Hg. bind_step Hrun as [s4 shadow] Hsh. bind_step Hrun as esc He. bind_step Hrun as bm Hm.
  bind_step Hrun as rows Hrows. injection Hrun as <- <-. cbn [fst snd] in *.
  destruct (candidates_gated _ _ _ _ _ _ _ _ (balancesRoot bal) stakes Hc Hg) as [Hasm Hcol].
  split; [|split; [done|]].
  - split_and!; cbn [rr_state_root rr_balances_root rr_stakes_root rr_contract_state_root rr_contract_state_root_shadow
      rr_block_index rr_network rr_chain]; [done|done| |].
    + intros Hs. destruct (shadow_column _ _ _ _ _ _ _ Hsh Hs) as [Hs1 Hs2]. split; [done|].
      destruct (extraSubRootColumn extra CONTRACT_SLOT); [|done]. exfalso. specialize (Hcol ltac:(done)). congruence.
    + intros Hch. rewrite bool_decide_eq_false_2 in Hst by done. by injection Hst as _ <- _.
  - cbn. unfold strict in Hrows. destruct (t_fault (rs_tables rs)); [done|]. by injection Hrows as <-.
Qed.

Lemma seedSnapshotRoots_row chain network b (rs rs' : roots_state) row :
  seedSnapshotRoots maps caps stake_weights block_leaf_rows chain network b rs = Ok (rs', row) ->
  row_consistent row /\ row_key row = (chain, network, b)
  /\ rs_tables rs' = with_roots (rs_tables rs) (upsert (seed_merge row) row (state_tree_roots (rs_tables rs))).
Proof.
  unfold seedSnapshotRoots. intros Hrun.
  bind_step Hrun as [s1 bal] Hb. bind_step Hrun as [s2 stakes] Hst. bind_step Hrun as [s3 cands] Hc.
  bind_step Hrun as extra Hg. bind_step Hrun as [s4 shadow] Hsh. bind_step Hrun as bm Hm.
  bind_step Hrun as rows Hrows. injection Hrun as <- <-. cbn [fst snd] in *.
  destruct (candidates_gated _ _ _ _ _ _ _ _ bal stakes Hc Hg) as [Hasm Hcol].
  split; [|split; [done|]].
  - split_and!; cbn [rr_state_root rr_balances_root rr_stakes_root rr_contract_state_root rr_contract_state_root_shadow
      rr_block_index rr_network rr_chain]; [done|done| |].
    + intros Hs. destruct (shadow_column _ _ _ _ _ _ _ Hsh Hs) as [Hs1 Hs2]. split; [done|].
      destruct (extraSubRootColumn extra CONTRACT_SLOT); [|done]. exfalso. specialize (Hcol ltac:(done)). congruence.
    + intros Hch. rewrite bool_decide_eq_false_2 in Hst by done. by injection Hst as _ <-.
  - cbn. unfold strict in Hrows. destruct (t_fault (rs_tables rs)); [done|]. by injection Hrows as <-.
Qed.
End Rows.

(** ** The table of roots under every operation *)
Section Table.
Context `{HashFn} {St : Type} `{NodeStore St}.
Variables (maps : subtree_maps) (caps : list string).
Variable stake_weights : Z -> string -> result (list weight_row).
Variable block_leaf_rows : Z -> result block_rows.

Notation state := (roots_state (St := St)).

(** What a follower does to the table: the two writers, the delete of a rollback
    or a full snapshot, and any write to the other tables, the node store, the
    memo or the state of the connection. *)
Inductive roots_step : state -> state -> Prop :=
  | step_block chain network b touched act rs rs' row :
      computeFollowerRoots maps caps stake_weights block_leaf_rows chain network b touched act rs = Ok (rs', row) ->
      roots_step rs rs'
  | step_seed chain network b rs rs' row :
      seedSnapshotRoots maps caps stake_weights block_leaf_rows chain network b rs = Ok (rs', row) ->
      roots_step rs rs'
  | step_delete chain network h rs :
      roots_step rs (RootsState (rs_store rs) (deleteStateTreeRootsFromBlock chain network h (rs_tables rs)) (rs_memo rs))
  | step_write rs s db memo :
      state_tree_roots db = state_tree_roots (rs_tables rs) -> roots_step rs (RootsState s db memo).

Definition table_ok (db : tables) : Prop :=
  NoDup (map row_key (state_tree_roots db)) /\ Forall (row_consistent maps) (state_tree_roots db).

Lemma upsert_Forall (P : roots_row -> Prop) merge r rows :
  P r -> (forall x, row_key x = row_key r -> P x -> P (merge x)) -> Forall P rows -> Forall P (upsert merge r rows).
Proof.
  intros Hr Hm. induction 1 as [|x rows Hx Hrows IH]; cbn; [by repeat constructor|].
  destruct (decide _); constructor; auto.
Qed.

Lemma upsert_keys merge r rows : (forall x, row_key x = row_key r -> row_key (merge x) = row_key r) ->
  map row_key (upsert merge r rows)
  = if decide (row_key r ∈ map row_key rows) then map row_key rows else map row_key rows ++ [row_key r].
Proof.
  intros Hm. induction rows as [|x rows IH]; cbn [upsert map].
  - by rewrite decide_False by apply not_elem_of_nil.
  - destruct (decide (row_key x = row_key r)) as [E|E]; cbn [map].
    + rewrite Hm, E by done. by rewrite decide_True by left.
    + rewrite IH. destruct (decide (row_key r ∈ map row_key rows)) as [Hi|Hi].
      * by rewrite decide_True by (by right).
      * rewrite decide_False; [done|]. by intros [?|?]%elem_of_cons.
Qed.

Lemma upsert_NoDup merge r rows : (forall x, row_key x = row_key r -> row_key (merge x) = row_key r) ->
  NoDup (map row_key rows) -> NoDup (map row_key (upsert merge r rows)).
Proof.
  intros Hm Hnd. rewrite upsert_keys by done. destruct (decide _) as [|Hn]; [done|].
  apply NoDup_app. split_and!; [done| |apply NoDup_singleton]. intros k Hk ->%list_elem_of_singleton. done.
Qed.

Lemma find_key (db : tables) chain network b : prior_row db chain network b
  = List.find (fun r => bool_decide (row_key r = (chain, network, b))) (state_tree_roots db).
Proof.
  unfold prior_row. induction (state_tree_roots db) as [|r rows IH]; cbn [List.find]; [done|]. rewrite IH.
  assert (bool_decide (rr_chain r = chain) && bool_decide (rr_network r = network) && (rr_block_index r =? b)
          = bool_decide (row_key r = (chain, network, b))) as ->; [|done].
  unfold row_key. repeat case_bool_decide; destruct (Z.eqb_spec (rr_block_index r) b); cbn; naive_solver.
Qed.

Lemma upsert_find r rows k :
  List.find (fun x => bool_decide (row_key x = k)) (upsert (live_merge r) r rows)
  = if decide (k = row_key r) then Some r else List.find (fun x => bool_decide (row_key x = k)) rows.
Proof.
  assert (forall k, bool_decide (row_key r = k) = bool_decide (k = row_key r)) as Hsym
    by (intros k'; apply bool_decide_ext; split; congruence).
  induction rows as [|x rows IH]; cbn [upsert List.find].
  - rewrite Hsym. destruct (decide (k = row_key r)); [by rewrite bool_decide_eq_true_2|by rewrite bool_decide_eq_false_2].
  - destruct (decide (row_key x = row_key r)) as [E|E]; cbn [List.find live_merge].
    + rewrite E. destruct (decide (k = row_key r)); [by rewrite !bool_decide_eq_true_2|by rewrite !bool_decide_eq_false_2].
    + rewrite IH. destruct (decide (k = row_key r)) as [->|]; [|done]. by rewrite bool_decide_eq_false_2.
Qed.

Lemma seed_merge_consistent r x : row_key x = row_key r -> row_consistent maps r -> row_consistent maps (seed_merge r x).
Proof.
  unfold row_key, row_consistent, seed_merge. intros [= Hc Hn Hb].
  cbn [rr_state_root rr_balances_root rr_stakes_root rr_contract_state_root rr_contract_state_root_shadow
    rr_block_index rr_network rr_chain]. by rewrite Hc, Hn, Hb.
Qed.

Lemma roots_step_ok rs rs' : roots_step rs rs' -> table_ok (rs_tables rs) -> table_ok (rs_tables rs').
Proof.
  intros Hs [Hnd Hf]. destruct Hs as [chain network b touched act rs rs' row Hr|chain network b rs rs' row Hr|
    chain network h rs|rs s db memo Hdb]; cbn.
  - apply computeFollowerRoots_row in Hr as (Hc & _ & ->). split; [by apply upsert_NoDup|by apply upsert_Forall].
  - apply seedSnapshotRoots_row in Hr as (Hc & _ & ->). split; [by apply upsert_NoDup|].
    apply upsert_Forall; [done| |done]. intros x Hx _. by apply seed_merge_consistent.
  - split; cbn.
    + eapply sublist_NoDup; [exact Hnd|]. apply fmap_sublist. clear. induction (state_tree_roots (rs_tables rs)) as [|x l IH];
        cbn [List.filter]; [constructor|]. destruct (negb _); [by apply sublist_skip|by apply sublist_cons].
    + apply Forall_forall. intros r [Hr _]%elem_of_lfilter. rewrite Forall_forall in Hf. auto.
  - by unfold table_ok; rewrite Hdb.
Qed.

(** C27. Each stored row of roots is consistent with itself, in every table a
    follower can reach from an empty one by live blocks, snapshot seeds, rollback
    deletes and other writes: keys are unique, [state_root] reassembles from the
    row's own balances, stakes and contract-state columns, the contract-state
    column is NULL unless the slot is armed at the row's height, a shadow column
    is set only in an open shadow window and never beside the committed one, and
    a chain other than BTC commits the empty stakes root.  A live block's row is
    what the next block reads back, and the rows of other heights are untouched. *)
Theorem roots_table_consistent rs0 rs :
  state_tree_roots (rs_tables rs0) = [] -> rtc roots_step rs0 rs ->
  table_ok (rs_tables rs)
  /\ forall chain network b touched act rs' row,
      computeFollowerRoots maps caps stake_weights block_leaf_rows chain network b touched act rs = Ok (rs', row) ->
      prior_row (rs_tables rs') chain network b = Some row
      /\ forall c n h, (c, n, h) <> (chain, network, b) ->
          prior_row (rs_tables rs') c n h = prior_row (rs_tables rs) c n h.
Proof.
  intros Hempty Hsteps. split.
  - assert (table_ok (rs_tables rs0)) as Hok by (unfold table_ok; rewrite Hempty; split; constructor).
    clear Hempty. induction Hsteps as [rs|rs1 rs2 rs3 Hs _ IH]; [done|]. eauto using roots_step_ok.
  - intros chain network b touched act rs' row Hr. apply computeFollowerRoots_row in Hr as (_ & Hk & Ht).
    split; [|intros c n h Hne]; rewrite ?find_key, Ht; cbn [state_tree_roots with_roots]; rewrite upsert_find, Hk.
    + by rewrite decide_True.
    + by rewrite decide_False.
Qed.
End Table.

(** Witness: two live blocks of one chain from an empty table. *)
Section TableWitness.
#[local] Instance ex_roots_hash : HashFn := poly_hash.

Definition ex_no_weights (b : Z) (capability : string) : result (list weight_row) := Ok [].
Definition ex_no_rows (b : Z) : result block_rows := Ok (BlockRows [] [] [] [] [] [] [] [] [] []).
Definition ex_block (b : Z) (activation : bool) (rs : roots_state (St := node_table)) :=
  computeFollowerRoots committed_maps ["ORACLE"] ex_no_weights ex_no_rows "BTC" "regtest" b [] activation rs.
Definition ex_after (b : Z) (activation : bool) (rs : roots_state (St := node_table)) : roots_state (St := node_table) :=
  match ex_block b activation rs with Ok (rs', _) => rs' | Throw _ => rs end.
Definition ex_rs0 : roots_state (St := node_table) := RootsState (NodeTable [] None) (Tables [] [] [] [] [] None) None.
Definition ex_rs2 := ex_after 2 false (ex_after 1 true ex_rs0).

Lemma ex_after_step b activation rs :
  rtc (roots_step committed_maps ["ORACLE"] ex_no_weights ex_no_rows) rs (ex_after b activation rs).
Proof.
  unfold ex_after. destruct (ex_block b activation rs) as [[rs' row]|m] eqn:E; [|done].
  eapply rtc_l; [by eapply step_block|done].
Qed.

Lemma ex_two_rows : length (state_tree_roots (rs_tables ex_rs2)) = 2%nat.
Proof. vm_compute. reflexivity. Qed.

Lemma roots_table_consistent_witness :
  length (state_tree_roots (rs_tables ex_rs2)) = 2%nat /\ table_ok committed_maps (rs_tables ex_rs2).
Proof.
  split; [exact ex_two_rows|].
  apply (roots_table_consistent committed_maps ["ORACLE"] ex_no_weights ex_no_rows ex_rs0 ex_rs2).
  - reflexivity.
  - unfold ex_rs2. etrans; apply ex_after_step.
Defined.
End TableWitness.
