(* ===== verification/SourceQuorum.v ===== *)
(** * SourceQuorum: agreement of the sources on a live block

    Models the multi-source voting of [src/src/client/sync.js]: the agreement
    threshold, the report of a block per source ([recordPendingBlockHash]), the tally
    ([tallyPendingBlockHashes], [voteKey]), strikes and evictions ([strikeSource],
    [evictSource]), acceptance, rejection, the timeout ([armBlockQuorumTimer] and its
    callback), the continuity check of [src/src/client/hash_verifier.js], and
    [handleBlock] that composes them.  A hash field of an event is any value a parsed
    event can carry.  What [handleBlock] asks for (apply a block, catch up, vote a rewind) is
    its result; the state it leaves is explicit. *)

From S2P Require Import Prelude JsText JsMap.

Section Voting.
(** The rest of a block event (its rows). *)
Context {payload : Type}.

Record block_event := BlockEvent {
  block_index : Z;
  ledger_hash : jsval;
  actions_hash : jsval;
  contract_hash : jsval;
  state_hash : jsval;
  data : payload }.

(** One source's report at a height. *)
Record report := Report {
  r_ledger : jsval;
  r_actions : jsval;
  r_contract : jsval;
  r_state : jsval;
  r_event : block_event }.
Definition report_of (ev : block_event) : report :=
  Report (ledger_hash ev) (actions_hash ev) (contract_hash ev) (state_hash ev) ev.

(** ** Configuration *)
Record quorum_config := QuorumConfig {
  sources : nat;                 (** [sources.length] *)
  quorum : Z;                    (** [sourceQuorum] *)
  evictThreshold : Z;
  strikeWindow : Z;
  indexer : bool;                (** [dbType === 'indexer'] *)
  verifyHashes : bool;
  haltOnSplit : bool;            (** [HALT_ON_DIVERGENCE] *)
  confirmStrict : bool }.        (** [HASH_CONFIRM_STRICT] *)
Variable cfg : quorum_config.

(** The threshold the constructor computes from [SOURCE_QUORUM] and the sources. *)
Definition sourceQuorum (raw n : Z) : Z :=
  if 1 <=? raw then Z.min (Z.max 1 raw) (Z.max 1 n)
  else if 1 <=? n then (n + 2) / 2 else 1.

(** ** State *)
Record voting := Voting {
  evicted : gset nat;
  strikes : gmap nat (list Z);
  pendingHashes : gmap Z (list (nat * report));
  applyTimers : gmap Z block_event;
  strictConfirmPending : gset Z;
  lastSourcesAgreeing : option nat;
  halted : option string;
  stopping : bool;
  lastApplied : option Z;
  lastHashes : option (jsval * jsval * jsval) }.

Definition set_evicted v s := Voting v (strikes s) (pendingHashes s) (applyTimers s) (strictConfirmPending s) (lastSourcesAgreeing s) (halted s) (stopping s) (lastApplied s) (lastHashes s).
Definition set_strikes v s := Voting (evicted s) v (pendingHashes s) (applyTimers s) (strictConfirmPending s) (lastSourcesAgreeing s) (halted s) (stopping s) (lastApplied s) (lastHashes s).
Definition set_pending v s := Voting (evicted s) (strikes s) v (applyTimers s) (strictConfirmPending s) (lastSourcesAgreeing s) (halted s) (stopping s) (lastApplied s) (lastHashes s).
Definition set_timers v s := Voting (evicted s) (strikes s) (pendingHashes s) v (strictConfirmPending s) (lastSourcesAgreeing s) (halted s) (stopping s) (lastApplied s) (lastHashes s).
Definition set_strict v s := Voting (evicted s) (strikes s) (pendingHashes s) (applyTimers s) v (lastSourcesAgreeing s) (halted s) (stopping s) (lastApplied s) (lastHashes s).
Definition set_agreeing v s := Voting (evicted s) (strikes s) (pendingHashes s) (applyTimers s) (strictConfirmPending s) v (halted s) (stopping s) (lastApplied s) (lastHashes s).
Definition set_halted v s := Voting (evicted s) (strikes s) (pendingHashes s) (applyTimers s) (strictConfirmPending s) (lastSourcesAgreeing s) v (stopping s) (lastApplied s) (lastHashes s).
Definition set_tip n h s := Voting (evicted s) (strikes s) (pendingHashes s) (applyTimers s) (strictConfirmPending s) (lastSourcesAgreeing s) (halted s) (stopping s) n h.

(** ** Vote keys *)
Definition hashTupleKey (h : report) : string :=
  js_String (r_ledger h) +:+ "|" +:+ js_String (r_actions h) +:+ "|" +:+ js_String (r_contract h) +:+ "|"
  +:+ js_String (if is_nullish (r_state h) then JNull else r_state h).
Definition baseTupleKey (h : report) : string :=
  js_String (r_ledger h) +:+ "|" +:+ js_String (r_actions h) +:+ "|" +:+ js_String (r_contract h).

(** [Set.add] on an insertion-ordered set. *)
Definition set_add {A} `{EqDecision A} (x : A) (l : list A) : list A := if decide (x ∈ l) then l else l ++ [x].

Definition voteKey (h : report) (baseStates : jsmap string (list jsval)) : string :=
  match jm_get (baseTupleKey h) baseStates with
  | Some [one] => if is_nullish (r_state h) then baseTupleKey h +:+ "|" +:+ js_String one else hashTupleKey h
  | _ => hashTupleKey h
  end.

(** ** Sources *)
Definition activeSourceCount (s : voting) : Z := Z.of_nat (sources cfg) - Z.of_nat (size (evicted s)).
Definition effectiveQuorum (s : voting) : Z := Z.min (quorum cfg) (Z.max 1 (activeSourceCount s)).
Definition sourceQuorumActive (s : voting) : bool := indexer cfg && verifyHashes cfg && (1 <? activeSourceCount s).

Definition evictSource (i : nat) (s : voting) : voting :=
  if bool_decide (i ∈ evicted s) then s
  else if activeSourceCount s - 1 <? 2 then s
  else set_strikes (delete i (strikes s)) (set_evicted ({[i]} ∪ evicted s) s).

Definition strikeSource (i : nat) (b : Z) (s : voting) : voting :=
  if bool_decide (i ∈ evicted s) then s
  else
    let l := default [] (strikes s !! i) in
    let l := if bool_decide (last l = Some b) then l else l ++ [b] in
    let l := List.filter (fun x => b - strikeWindow cfg <? x) l in
    let s := set_strikes (<[i := l]> (strikes s)) s in
    if evictThreshold cfg <=? Z.of_nat (length l) then evictSource i s else s.

(** ** The tally *)

(** The reports of a height, an object keyed by source: enumerated by rising index. *)
Fixpoint put_report (i : nat) (r : report) (l : list (nat * report)) : list (nat * report) :=
  match l with
  | [] => [(i, r)]
  | (j, q) :: l' => if Nat.eqb i j then (i, r) :: l' else if Nat.ltb i j then (i, r) :: l else (j, q) :: put_report i r l'
  end.

Definition recordPendingBlockHash (ev : block_event) (i : nat) (s : voting) : voting :=
  set_pending (<[block_index ev := put_report i (report_of ev) (default [] (pendingHashes s !! block_index ev))]> (pendingHashes s)) s.

Definition base_step (m : jsmap string (list jsval)) (p : nat * report) : jsmap string (list jsval) :=
  let base := baseTupleKey (snd p) in
  let states := default [] (jm_get base m) in
  jm_set base (if is_nullish (r_state (snd p)) then states else set_add (r_state (snd p)) states) m.
Definition group_step (baseStates : jsmap string (list jsval)) (m : jsmap string (list nat)) (p : nat * report) : jsmap string (list nat) :=
  let key := voteKey (snd p) baseStates in
  jm_set key (default [] (jm_get key m) ++ [fst p]) m.
(** A report without a state hash beside two or more distinct ones. *)
Definition abstains (baseStates : jsmap string (list jsval)) (r : report) : bool :=
  is_nullish (r_state r) && Nat.ltb 1 (length (default [] (jm_get (baseTupleKey r) baseStates))).

Record tally := Tally {
  groups : jsmap string (list nat);
  reportedCount : nat;
  baseStates : jsmap string (list jsval);
  abstain : list string }.

Definition activeReports (pending : list (nat * report)) (s : voting) : list (nat * report) :=
  List.filter (fun p => negb (bool_decide (fst p ∈ evicted s))) pending.

Definition tallyPendingBlockHashes (pending : list (nat * report)) (s : voting) : tally :=
  let active := activeReports pending s in
  let baseStates := fold_left base_step active [] in
  Tally (fold_left (group_step baseStates) active []) (length active) baseStates
    (fold_left (fun l p => if abstains baseStates (snd p) then set_add (voteKey (snd p) baseStates) l else l) active []).

Fixpoint report_at (i : nat) (l : list (nat * report)) : option report :=
  match l with
  | [] => None
  | (j, r) :: l' => if Nat.eqb i j then Some r else report_at i l'
  end.

(** The payload to apply for an accepted group. *)
Fixpoint checkable_member (pending : list (nat * report)) (members : list nat) : option block_event :=
  match members with
  | [] => None
  | i :: rest =>
      match report_at i pending with
      | Some r => if is_nullish (state_hash (r_event r)) then checkable_member pending rest else Some (r_event r)
      | None => checkable_member pending rest
      end
  end.
Definition checkableGroupEvent (pending : list (nat * report)) (members : list nat) (ev : block_event) : block_event :=
  if is_nullish (state_hash ev) then default ev (checkable_member pending members) else ev.

(** ** Acceptance and rejection *)
Definition clear_height (b : Z) (s : voting) : voting :=
  set_timers (delete b (applyTimers s)) (set_strict (strictConfirmPending s ∖ {[b]}) (set_pending (delete b (pendingHashes s)) s)).

Definition strike_step (b : Z) (currentKey : string) (t : tally) (s : voting) (p : nat * report) : voting :=
  if bool_decide (fst p ∈ evicted s) then s
  else
    let key := voteKey (snd p) (baseStates t) in
    if bool_decide (key <> currentKey) && negb (bool_decide (key ∈ abstain t)) then strikeSource (fst p) b s else s.

Definition acceptBlockQuorum (b : Z) (pending : list (nat * report)) (currentKey : string) (currentGroup : list nat)
    (t : tally) (s : voting) : voting :=
  let s := fold_left (strike_step b currentKey t) pending s in
  clear_height b (set_agreeing (Some (length currentGroup)) s).

(** [haltOnDivergence] with [stopDivergenceApply]. *)
Definition haltOnDivergence (reason : string) (s : voting) : voting :=
  match halted s with
  | Some _ => s
  | None => set_timers ∅ (set_strict ∅ (set_pending ∅ (set_halted (Some reason) s)))
  end.

Definition rejectBlockWithoutQuorum (b : Z) (s : voting) : voting :=
  let s := clear_height b s in
  if haltOnSplit cfg then haltOnDivergence "no-source-quorum" s
  else if confirmStrict cfg then set_strict ({[b]} ∪ strictConfirmPending s) s else s.

Definition armBlockQuorumTimer (ev : block_event) (s : voting) : voting :=
  if stopping s then s
  else if applyTimers s !! block_index ev then s
  else set_timers (<[block_index ev := ev]> (applyTimers s)) s.

(** What is asked of the caller. *)
Inductive action :=
| Apply (ev : block_event)
| Wait
| Reject
| Skip
| CatchUp (since : Z)
| ForkedHead (b : Z).

Definition handleBlockQuorum (ev : block_event) (i : nat) (s : voting) : voting * action :=
  if negb (sourceQuorumActive s) then (s, Apply ev)
  else if bool_decide (i ∈ evicted s) then (s, Skip)
  else
    let s := recordPendingBlockHash ev i s in
    let pending := default [] (pendingHashes s !! block_index ev) in
    let t := tallyPendingBlockHashes pending s in
    let currentKey := voteKey (report_of ev) (baseStates t) in
    let currentGroup := default [] (jm_get currentKey (groups t)) in
    if negb (bool_decide (currentKey ∈ abstain t)) && (effectiveQuorum s <=? Z.of_nat (length currentGroup)) then
      (acceptBlockQuorum (block_index ev) pending currentKey currentGroup t s,
       Apply (checkableGroupEvent pending currentGroup ev))
    else if activeSourceCount s <=? Z.of_nat (reportedCount t) then (rejectBlockWithoutQuorum (block_index ev) s, Reject)
    else (armBlockQuorumTimer ev s, Wait).

(** The timer callback of a height whose timer holds [ev]; the pending reports are
    dropped after the apply, in [timer_done]. *)
Definition blockQuorumTimeout (b : Z) (s : voting) : voting * action :=
  match applyTimers s !! b with
  | None => (s, Skip)
  | Some ev =>
      if stopping s then (s, Skip)
      else
        let s := set_timers (delete b (applyTimers s)) s in
        match pendingHashes s !! b with
        | None => (s, Skip)
        | Some pending =>
            if negb (default 0 (lastApplied s) <? b) then (s, Skip)
            else if confirmStrict cfg then (set_strict ({[b]} ∪ strictConfirmPending s) s, Wait)
            else
              let t := tallyPendingBlockHashes pending s in
              let heldKey := voteKey (report_of ev) (baseStates t) in
              if Nat.ltb 1 (length (groups t)) then (rejectBlockWithoutQuorum b s, Reject)
              else match jm_get heldKey (groups t) with
                   | None => (set_pending (delete b (pendingHashes s)) s, Skip)
                   | Some members => (s, Apply (checkableGroupEvent pending members ev))
                   end
        end
  end.
Definition timer_done (b : Z) (s : voting) : voting := set_pending (delete b (pendingHashes s)) s.

(** ** Applying, continuity and [handleBlock] *)

(** [finishAppliedBlock] and [clearAppliedBlockWork]. *)
Definition finishAppliedBlock (ev : block_event) (s : voting) : voting :=
  set_tip (Some (block_index ev)) (Some (ledger_hash ev, actions_hash ev, contract_hash ev)) s.
Definition clearAppliedBlockWork (s : voting) : voting :=
  match lastApplied s with
  | None => s
  | Some n => set_timers (filter (fun p => n < p.1) (applyTimers s)) (set_pending (filter (fun p => n < p.1) (pendingHashes s)) s)
  end.

(** [verifyChainContinuity]: the block after the last applied one. *)
Definition verifyChainContinuity (prevBlockIndex : option Z) (ev : block_event) : bool :=
  match prevBlockIndex with
  | None => true
  | Some n => block_index ev =? n + 1
  end.

Definition differs (a b : jsval) : bool := negb (is_nullish a) && negb (is_nullish b) && negb (bool_decide (a = b)).
Definition handleIndexerHeadDuplicate (ev : block_event) (s : voting) : action :=
  match lastApplied s, lastHashes s with
  | Some n, Some (l, a, c) =>
      if (block_index ev =? n) && (differs (ledger_hash ev) l || differs (actions_hash ev) a || differs (contract_hash ev) c)
      then ForkedHead n else Skip
  | _, _ => Skip
  end.

(** [handleBlock] of an indexer replica. *)
Definition handleBlock (ev : block_event) (i : nat) (s : voting) : voting * action :=
  match lastApplied s with
  | None => if 0 <? block_index ev then (s, CatchUp (block_index ev)) else handleBlockQuorum ev i s
  | Some n =>
      if block_index ev <=? n then (s, handleIndexerHeadDuplicate ev s)
      else if negb (verifyChainContinuity (Some n) ev) then (s, CatchUp (n + 1))
      else handleBlockQuorum ev i s
  end.

(** ** Runs

    What a follower lives through: deliveries, timeouts, a verified block, a rewind to
    below [b], the operator clearing a halt. *)
Inductive input :=
| Deliver (ev : block_event) (i : nat)
| Timeout (b : Z)
| TimerDone (b : Z)
| Verified (ev : block_event)
| Rewound (b : Z) (h : option (jsval * jsval * jsval))
| Cleared.
Definition step (s : voting) (x : input) : voting :=
  match x with
  | Deliver ev i => (handleBlock ev i s).1
  | Timeout b => (blockQuorumTimeout b s).1
  | TimerDone b => timer_done b s
  | Verified ev => clearAppliedBlockWork (finishAppliedBlock ev s)
  | Rewound b h => set_tip (Some (b - 1)) h s
  | Cleared => set_halted None s
  end.
Definition started (tip : option Z) (h : option (jsval * jsval * jsval)) : voting :=
  Voting ∅ ∅ ∅ ∅ ∅ None None false tip h.
Definition run (ins : list input) (s : voting) : voting := fold_left step ins s.

(** ** The tally, characterised *)
Definition members (bs : jsmap string (list jsval)) (key : string) (l : list (nat * report)) : list nat :=
  map fst (List.filter (fun p => bool_decide (voteKey (snd p) bs = key)) l).

Lemma groups_members bs l : forall m key,
  default [] (jm_get key (fold_left (group_step bs) l m)) = default [] (jm_get key m) ++ members bs key l.
Proof.
  induction l as [|p l IH]; intros m key; cbn [fold_left]; [by rewrite app_nil_r|].
  rewrite IH. unfold group_step, members. cbn [List.filter].
  destruct (decide (voteKey (snd p) bs = key)) as [Hk|Hk].
  - rewrite Hk, bool_decide_eq_true_2, jm_get_set_eq by done. cbn. by rewrite <- app_assoc.
  - by rewrite bool_decide_eq_false_2, jm_get_set_ne by done.
Qed.

Lemma base_states l : forall m base h,
  h ∈ default [] (jm_get base (fold_left base_step l m)) <->
  h ∈ default [] (jm_get base m) \/ exists p, p ∈ l /\ baseTupleKey (snd p) = base /\ is_nullish h = false /\ r_state (snd p) = h.
Proof.
  induction l as [|p l IH]; intros m base h; cbn [fold_left].
  { split; [by left|]. intros [?|(p & Hp & _)]; [done|]. by apply not_elem_of_nil in Hp. }
  rewrite IH. unfold base_step.
  assert (h ∈ default [] (jm_get base (jm_set (baseTupleKey (snd p)) (if is_nullish (r_state (snd p)) then default [] (jm_get (baseTupleKey (snd p)) m) else set_add (r_state (snd p)) (default [] (jm_get (baseTupleKey (snd p)) m))) m))
    <-> h ∈ default [] (jm_get base m) \/ (baseTupleKey (snd p) = base /\ is_nullish h = false /\ r_state (snd p) = h)) as ->.
  { destruct (decide (baseTupleKey (snd p) = base)) as [<-|Hne]; [|rewrite jm_get_set_ne by done; naive_solver].
    rewrite jm_get_set_eq. cbn. destruct (is_nullish (r_state (snd p))) eqn:En; [naive_solver congruence|].
    unfold set_add. case_decide as Hin; rewrite ?elem_of_app, ?list_elem_of_singleton; naive_solver congruence. }
  split.
  - intros [[?|?]|(q & Hq & ?)]; [by left|right; exists p; split; [left|done]|right; exists q; split; [by right|done]].
  - intros [?|(q & Hq & Hr)]; [by left; left|]. apply elem_of_cons in Hq as [->|Hq]; [by left; right|right; eauto].
Qed.

(** The state text a report votes for: its own, or the only one its tuple carries. *)
Definition vote_state (h : report) (bs : jsmap string (list jsval)) : string :=
  match jm_get (baseTupleKey h) bs with
  | Some [one] => if is_nullish (r_state h) then js_String one else js_String (r_state h)
  | _ => if is_nullish (r_state h) then "null" else js_String (r_state h)
  end.
Definition tuple_texts (h : report) : list string := [js_String (r_ledger h); js_String (r_actions h); js_String (r_contract h)].

Lemma voteKey_join h bs : voteKey h bs = join_text "|" (tuple_texts h ++ [vote_state h bs]).
Proof.
  apply (inj utf8). unfold voteKey, vote_state, hashTupleKey, baseTupleKey, tuple_texts. cbn [app join_text].
  repeat case_match; rewrite ?utf8_app, <- ?app_assoc; done.
Qed.
Lemma baseTupleKey_join h : baseTupleKey h = join_text "|" (tuple_texts h).
Proof. reflexivity. Qed.

(** Reports under one key carry the same texts. *)
Lemma same_key_same_texts h h' bs : Forall (fun x => ch "|" ∉ utf8 x) (tuple_texts h) -> ch "|" ∉ utf8 (vote_state h bs) ->
  voteKey h' bs = voteKey h bs -> tuple_texts h' = tuple_texts h /\ vote_state h' bs = vote_state h bs.
Proof.
  intros Ht Hs E. rewrite !voteKey_join in E. symmetry in E. apply join_text_pipe_inj_len in E; [|done|].
  - symmetry in E. apply app_inj_len in E as [E1 E2]; [|done]. split; [exact E1|]. by injection E2.
  - apply Forall_app. split; [done|]. by constructor.
Qed.

Lemma members_In bs key l j : j ∈ members bs key l <-> exists r, (j, r) ∈ l /\ voteKey r bs = key.
Proof.
  unfold members. split.
  - intros ([i r] & -> & Hin)%list_elem_of_fmap. apply elem_of_lfilter in Hin as [Hin Hk]. apply bool_decide_eq_true in Hk. by exists r.
  - intros (r & Hin & Hk). apply list_elem_of_fmap. exists (j, r). split; [done|]. apply elem_of_lfilter. split; [done|]. by apply bool_decide_eq_true.
Qed.

(** ** Reports in rising order *)
Fixpoint rising (lo : Z) (l : list (nat * report)) : Prop :=
  match l with
  | [] => True
  | (i, _) :: l' => lo < Z.of_nat i /\ rising (Z.of_nat i) l'
  end.
Lemma rising_weaken lo lo' l : lo' <= lo -> rising lo l -> rising lo' l.
Proof. destruct l as [|[i r] l]; cbn; [done|]. intros ? [? ?]. split; [lia|done]. Qed.
Lemma rising_lt lo l j r : rising lo l -> (j, r) ∈ l -> lo < Z.of_nat j.
Proof.
  revert lo; induction l as [|[i q] l IH]; intros lo Hr Hin; [by apply not_elem_of_nil in Hin|].
  destruct Hr as [Hi Hr]. apply elem_of_cons in Hin as [[= -> ->]|Hin]; [done|]. specialize (IH _ Hr Hin). lia.
Qed.
Lemma rising_NoDup lo l : rising lo l -> NoDup (map fst l).
Proof.
  revert lo; induction l as [|[i q] l IH]; intros lo Hr; cbn; constructor; destruct Hr as [_ Hr]; [|by eapply IH].
  intros ([j r] & -> & Hin)%list_elem_of_fmap. cbn in Hr. pose proof (rising_lt _ _ _ _ Hr Hin). lia.
Qed.
Lemma rising_at lo l j r : rising lo l -> (j, r) ∈ l -> report_at j l = Some r.
Proof.
  revert lo; induction l as [|[i q] l IH]; intros lo Hr Hin; [by apply not_elem_of_nil in Hin|].
  destruct Hr as [_ Hr]. cbn. apply elem_of_cons in Hin as [[= -> ->]|Hin]; [by rewrite Nat.eqb_refl|].
  pose proof (rising_lt _ _ _ _ Hr Hin). destruct (Nat.eqb_spec j i); [lia|]. by eapply IH.
Qed.
Lemma report_at_In j l r : report_at j l = Some r -> (j, r) ∈ l.
Proof.
  induction l as [|[i q] l IH]; cbn; [done|]. destruct (Nat.eqb_spec j i) as [->|]; [intros [= ->]; left|right; auto].
Qed.
Lemma put_report_rising i r lo l : lo < Z.of_nat i -> rising lo l -> rising lo (put_report i r l).
Proof.
  revert lo; induction l as [|[j q] l IH]; intros lo Hi Hr; cbn [put_report]; [by cbn|]. destruct Hr as [Hj Hr].
  destruct (Nat.eqb_spec i j) as [->|]; [by cbn|]. destruct (Nat.ltb_spec i j); cbn; [|split; [done|]; apply IH; [lia|done]].
  split; [done|]. split; [lia|done].
Qed.
Lemma put_report_In i r l p : p ∈ put_report i r l -> p = (i, r) \/ p ∈ l.
Proof.
  induction l as [|[j q] l IH]; cbn [put_report]; [rewrite list_elem_of_singleton; by left|].
  destruct (Nat.eqb_spec i j) as [->|]; [|destruct (Nat.ltb_spec i j)]; rewrite !elem_of_cons; naive_solver.
Qed.
Lemma put_report_at i r l : report_at i (put_report i r l) = Some r.
Proof.
  induction l as [|[j q] l IH]; cbn [put_report]; [cbn; by rewrite Nat.eqb_refl|].
  destruct (Nat.eqb_spec i j) as [->|Hne]; [cbn; by rewrite Nat.eqb_refl|].
  destruct (Nat.ltb_spec i j); cbn; [by rewrite Nat.eqb_refl|]. by destruct (Nat.eqb_spec i j).
Qed.

(** ** The invariant of a run *)
Definition genuine (ins : list input) (b : Z) (p : nat * report) : Prop :=
  snd p = report_of (r_event (snd p)) /\ block_index (r_event (snd p)) = b
  /\ (fst p < sources cfg)%nat /\ Deliver (r_event (snd p)) (fst p) ∈ ins.
Definition from_sources (x : input) : Prop := match x with Deliver _ i => (i < sources cfg)%nat | _ => True end.

Record seats (s : voting) : Prop := {
  v_evicted : forall i, i ∈ evicted s -> (i < sources cfg)%nat;
  v_active : evicted s = ∅ \/ 2 <= activeSourceCount s;
  v_strikes : forall i l, strikes s !! i = Some l -> i ∉ evicted s
    /\ (evictThreshold cfg <= Z.of_nat (length l) -> activeSourceCount s <= 2);
}.
Record ballots (ins : list input) (s : voting) : Prop := {
  v_reports : forall b l, pendingHashes s !! b = Some l -> rising (-1) l /\ forall p, p ∈ l -> genuine ins b p;
  v_timers : forall b ev, applyTimers s !! b = Some ev -> block_index ev = b /\ exists i, Deliver ev i ∈ ins;
}.

Lemma ballots_more ins x s : ballots ins s -> ballots (ins ++ [x]) s.
Proof.
  intros [R T]. split.
  - intros b l Hl. destruct (R b l Hl) as [Hr Hg]. split; [done|]. intros p Hp. destruct (Hg p Hp) as (? & ? & ? & ?).
    split; [done|]. split; [done|]. split; [done|]. apply elem_of_app. by left.
  - intros b ev Ht. destruct (T b ev Ht) as (? & i & ?). split; [done|]. exists i. apply elem_of_app. by left.
Qed.
(** Dropping reports and timers. *)
Lemma ballots_sub ins s s' : (forall b l, pendingHashes s' !! b = Some l -> pendingHashes s !! b = Some l) ->
  (forall b ev, applyTimers s' !! b = Some ev -> applyTimers s !! b = Some ev) -> ballots ins s -> ballots ins s'.
Proof. intros H1 H2 [R T]. split; [intros b l Hl; by apply R, H1|intros b ev Hl; by apply T, H2]. Qed.

(** *** Strikes *)
Lemma strike_frame i b s : pendingHashes (strikeSource i b s) = pendingHashes s /\ applyTimers (strikeSource i b s) = applyTimers s
  /\ lastApplied (strikeSource i b s) = lastApplied s.
Proof. unfold strikeSource, evictSource. repeat case_match; done. Qed.
Lemma strike_other i b s j : j <> i -> strikes (strikeSource i b s) !! j = strikes s !! j /\ (j ∈ evicted (strikeSource i b s) <-> j ∈ evicted s).
Proof.
  intros Hj. unfold strikeSource. case_match; [done|]. cbv zeta. set (l := List.filter _ _).
  set (s1 := set_strikes (<[i := l]> (strikes s)) s).
  assert (strikes s1 !! j = strikes s !! j) as E by (cbn; by rewrite lookup_insert_ne).
  case_match; [|done]. unfold evictSource. case_match; [done|]. case_match; [done|]. cbn. split; [|set_solver].
  by rewrite lookup_delete_ne, lookup_insert_ne.
Qed.

Lemma size_evict i s : i ∉ evicted s -> size ({[i]} ∪ evicted s) = S (size (evicted s)).
Proof. intros Hi. rewrite size_union by set_solver. by rewrite size_singleton. Qed.

Lemma strike_seats i b s : (i < sources cfg)%nat -> seats s -> seats (strikeSource i b s).
Proof.
  intros Hi [E A S]. unfold strikeSource. destruct (bool_decide (i ∈ evicted s)) eqn:Ei; [by split|].
  apply bool_decide_eq_false in Ei. cbv zeta. set (l := List.filter _ _).
  assert (forall few : evictThreshold cfg <= Z.of_nat (length l) -> activeSourceCount s <= 2,
    seats (set_strikes (<[i := l]> (strikes s)) s)) as Hkeep.
  { intros few. split; [done..|]. cbn. intros j l' Hl. destruct (decide (j = i)) as [->|Hj].
    - rewrite lookup_insert_eq in Hl. injection Hl as <-. done.
    - rewrite lookup_insert_ne in Hl by done. by apply S. }
  destruct (Z.leb_spec (evictThreshold cfg) (Z.of_nat (length l))) as [Ht|Ht]; [|apply Hkeep; lia].
  unfold evictSource. cbn [evicted set_strikes]. rewrite bool_decide_eq_false_2 by done.
  change (activeSourceCount (set_strikes (<[i := l]> (strikes s)) s)) with (activeSourceCount s).
  destruct (Z.ltb_spec (activeSourceCount s - 1) 2) as [Hf|Hf]; [apply Hkeep; lia|].
  unfold activeSourceCount in *. split; cbn; unfold activeSourceCount; cbn; rewrite ?(size_evict i s Ei).
  - intros j [->%elem_of_singleton|?]%elem_of_union; auto.
  - right. lia.
  - intros j l' Hl. apply lookup_delete_Some in Hl as [Hne Hl]. rewrite lookup_insert_ne in Hl by done.
    destruct (S j l' Hl) as [? ?]. split; [set_solver|]. lia.
Qed.

Lemma accept_strikes b key t l : forall s, seats s -> (forall p, p ∈ l -> (fst p < sources cfg)%nat) ->
  seats (fold_left (strike_step b key t) l s)
  /\ pendingHashes (fold_left (strike_step b key t) l s) = pendingHashes s
  /\ applyTimers (fold_left (strike_step b key t) l s) = applyTimers s.
Proof.
  induction l as [|p l IH]; intros s Hs Hl; cbn [fold_left]; [done|].
  assert (seats (strike_step b key t s p) /\ pendingHashes (strike_step b key t s p) = pendingHashes s
    /\ applyTimers (strike_step b key t s p) = applyTimers s) as (K1 & K2 & K3).
  { unfold strike_step. case_match; [done|]. case_match; [|done]. pose proof (strike_frame (fst p) b s) as (-> & -> & _).
    split; [|done]. apply strike_seats; [|done]. apply Hl. left. }
  destruct (IH _ K1) as (I1 & I2 & I3); [intros q Hq; apply Hl; by right|]. split; [done|]. by rewrite I2, I3, K2, K3.
Qed.

(** A source under the accepted key is not struck. *)
Lemma accept_spares b key t l j : forall s, (forall r, (j, r) ∈ l -> voteKey r (baseStates t) = key) ->
  strikes (fold_left (strike_step b key t) l s) !! j = strikes s !! j
  /\ (j ∈ evicted (fold_left (strike_step b key t) l s) <-> j ∈ evicted s).
Proof.
  induction l as [|[i r] l IH]; intros s Hk; cbn [fold_left]; [done|].
  destruct (IH (strike_step b key t s (i, r))) as [-> ->]; [intros q Hq; apply Hk; by right|].
  unfold strike_step. cbn [fst snd]. case_match; [done|].
  destruct (decide (i = j)) as [->|Hne].
  - rewrite (Hk r) by left. by rewrite bool_decide_eq_false_2 by (by intros []).
  - case_match; [|done]. by apply strike_other.
Qed.

Lemma reject_seats b s : seats s -> seats (rejectBlockWithoutQuorum b s).
Proof. intros [E A S]. unfold rejectBlockWithoutQuorum, haltOnDivergence. repeat case_match; by split. Qed.
Lemma clear_ballots ins b s : ballots ins s -> ballots ins (clear_height b s).
Proof. apply ballots_sub; cbn; intros x y [_ Hl]%lookup_delete_Some; done. Qed.
Lemma reject_ballots ins b s : ballots ins s -> ballots ins (rejectBlockWithoutQuorum b s).
Proof.
  intros Hb. unfold rejectBlockWithoutQuorum, haltOnDivergence.
  pose proof (clear_ballots ins b s Hb) as Hc. repeat case_match; destruct Hc; by split.
Qed.

Lemma record_ballots ins ev i s : (i < sources cfg)%nat -> ballots ins s -> ballots (ins ++ [Deliver ev i]) (recordPendingBlockHash ev i s).
Proof.
  intros Hi Hb. apply (ballots_more ins (Deliver ev i)) in Hb as [R T]. split; [|done]. cbn. intros b l Hl.
  destruct (decide (b = block_index ev)) as [->|Hne]; [|rewrite lookup_insert_ne in Hl by done; by apply R].
  rewrite lookup_insert_eq in Hl. injection Hl as <-.
  assert (rising (-1) (default [] (pendingHashes s !! block_index ev))
    /\ forall p, p ∈ default [] (pendingHashes s !! block_index ev) -> genuine (ins ++ [Deliver ev i]) (block_index ev) p) as [Hr Hg].
  { destruct (pendingHashes s !! block_index ev) as [l|] eqn:El; cbn; [by apply R|]. split; [done|]. by intros p ?%not_elem_of_nil. }
  split; [apply put_report_rising; [lia|done]|]. intros p [->|Hp]%put_report_In; [|by apply Hg].
  split; [done|]. split; [done|]. split; [done|]. cbn. apply elem_of_app. right. left.
Qed.

Lemma accept_ok ins b l key g t s : seats s -> ballots ins s -> (forall p, p ∈ l -> (fst p < sources cfg)%nat) ->
  seats (acceptBlockQuorum b l key g t s) /\ ballots ins (acceptBlockQuorum b l key g t s).
Proof.
  intros Hs Hb Hl. unfold acceptBlockQuorum. cbv zeta. destruct (accept_strikes b key t l s Hs Hl) as (K1 & K2 & K3).
  revert K1 K2 K3. generalize (fold_left (strike_step b key t) l s). intros s1 K1 K2 K3.
  split; [destruct K1; by split|]. apply clear_ballots. destruct Hb as [R T]. split; cbn; [rewrite K2|rewrite K3]; done.
Qed.

Lemma quorum_step ins ev i s : (i < sources cfg)%nat -> seats s -> ballots ins s ->
  seats (handleBlockQuorum ev i s).1 /\ ballots (ins ++ [Deliver ev i]) (handleBlockQuorum ev i s).1.
Proof.
  intros Hi Hs Hb. pose proof (ballots_more ins (Deliver ev i) s Hb) as Hb'. unfold handleBlockQuorum.
  case_match; [done|]. case_match; [done|]. cbv zeta.
  pose proof (record_ballots ins ev i s Hi Hb) as Hr. set (s1 := recordPendingBlockHash ev i s) in *.
  assert (seats s1) as Hs1 by (destruct Hs; by split).
  case_match; [|case_match]; cbn [fst].
  - apply accept_ok; [done|done|]. intros p Hp.
    destruct (pendingHashes s1 !! block_index ev) as [l|] eqn:El; cbn in Hp; [|by apply not_elem_of_nil in Hp].
    apply (v_reports _ _ Hr) in El as [_ Hg]. by destruct (Hg p Hp) as (_ & _ & ? & _).
  - split; [by apply reject_seats|by apply reject_ballots].
  - unfold armBlockQuorumTimer. case_match; [done|]. case_match eqn:Et; [done|]. split; [destruct Hs1; by split|].
    destruct Hr as [R T]. split; [exact R|]. cbn. intros b e Hl. destruct (decide (b = block_index ev)) as [->|Hne].
    + rewrite lookup_insert_eq in Hl. injection Hl as <-. split; [done|]. exists i. apply elem_of_app. right. left.
    + rewrite lookup_insert_ne in Hl by done. by apply T.
Qed.

Lemma step_ok ins x s : from_sources x -> seats s -> ballots ins s -> seats (step s x) /\ ballots (ins ++ [x]) (step s x).
Proof.
  intros Hx Hs Hb. pose proof (ballots_more ins x s Hb) as Hb'. destruct x as [ev i|b|b|ev|b h|]; cbn [step].
  - unfold handleBlock. repeat case_match; try done; by apply quorum_step.
  - unfold blockQuorumTimeout. case_match; [|done]. case_match; [done|]. cbv zeta.
    set (s1 := set_timers (delete b (applyTimers s)) s).
    assert (seats s1 /\ ballots (ins ++ [Timeout b]) s1) as [Hs1 Hb1].
    { split; [destruct Hs; by split|]. apply (ballots_sub _ s); [done| |exact Hb']. cbn. by intros b' e [_ ?]%lookup_delete_Some. }
    case_match; [|done]. case_match; [done|]. case_match; [split; [destruct Hs1; by split|destruct Hb1; by split]|].
    case_match; [split; [by apply reject_seats|by apply reject_ballots]|].
    case_match; [done|]. split; [destruct Hs1; by split|]. apply (ballots_sub _ s1); [|done|exact Hb1]. cbn.
    by intros b' e [_ ?]%lookup_delete_Some.
  - split; [destruct Hs; by split|]. apply (ballots_sub _ s); [|done|exact Hb']. cbn. by intros b' e [_ ?]%lookup_delete_Some.
  - unfold clearAppliedBlockWork, finishAppliedBlock. cbn. split; [destruct Hs; by split|].
    apply (ballots_sub _ s); [..|exact Hb']; cbn; by intros b' e [? _]%map_lookup_filter_Some.
  - split; [destruct Hs; by split|destruct Hb'; by split].
  - split; [destruct Hs; by split|destruct Hb'; by split].
Qed.

Lemma run_ok tip h ins : Forall from_sources ins -> seats (run ins (started tip h)) /\ ballots ins (run ins (started tip h)).
Proof.
  induction ins as [|x ins IH] using rev_ind; intros Hf.
  - cbn. split; split; cbn; try done; try set_solver; try (by left); intros *; by rewrite lookup_empty.
  - apply Forall_app in Hf as [Hf Hx]. apply Forall_cons in Hx as [Hx _]. destruct (IH Hf) as [Hs Hb]. unfold run. rewrite fold_left_app. cbn [fold_left].
    exact (step_ok ins x _ Hx Hs Hb).
Qed.

(** ** What an application rests on *)
Definition plain (t : string) : Prop := ch "|" ∉ utf8 t.

(** The hashes of a report that vote for [texts] and, where it carries one, for the
    state hash text [st]. *)
Definition votes_for (texts : list string) (st : string) (r : report) : Prop :=
  tuple_texts r = texts /\ (is_nullish (r_state r) = false -> js_String (r_state r) = st).

Lemma vote_state_own r bs : is_nullish (r_state r) = false -> vote_state r bs = js_String (r_state r).
Proof. intros Hn. unfold vote_state. rewrite Hn. by repeat case_match. Qed.
Lemma vote_state_plain l s r : let bs := fold_left base_step (activeReports l s) [] in
  (forall p, p ∈ l -> plain (js_String (r_state (snd p)))) -> plain (js_String (r_state r)) -> plain (vote_state r bs).
Proof.
  intros bs Hl Hr. unfold vote_state. destruct (jm_get (baseTupleKey r) bs) as [[|one [|two rest]]|] eqn:Eb; repeat case_match;
    try done; try (unfold plain; apply (bool_decide_unpack _); vm_compute; exact I).
  assert (one ∈ default [] (jm_get (baseTupleKey r) bs)) as Hin by (rewrite Eb; left).
  apply base_states in Hin as [Hin|(p & Hp & _ & _ & <-)]; [by apply not_elem_of_nil in Hin|].
  apply Hl. by apply elem_of_lfilter in Hp as [? _].
Qed.

Lemma checkable_votes pending texts st ms ev :
  (forall j, j ∈ ms -> exists r, report_at j pending = Some r /\ r = report_of (r_event r) /\ votes_for texts st r) ->
  votes_for texts st (report_of ev) ->
  votes_for texts st (report_of (checkableGroupEvent pending ms ev))
  /\ ((exists j r, j ∈ ms /\ report_at j pending = Some r /\ is_nullish (r_state r) = false) ->
      is_nullish (state_hash (checkableGroupEvent pending ms ev)) = false).
Proof.
  intros Hm Hev. unfold checkableGroupEvent. destruct (is_nullish (state_hash ev)) eqn:En; [|done].
  induction ms as [|j ms IH]; cbn [checkable_member].
  { split; [done|]. intros (j & r & Hj & _). by apply not_elem_of_nil in Hj. }
  destruct (Hm j) as (r & Hr & Er & Hv); [left|]. rewrite Hr.
  destruct (is_nullish (state_hash (r_event r))) eqn:Es; cbn.
  - destruct IH as [I1 I2]; [intros k Hk; apply Hm; by right|]. split; [done|]. intros (k & q & Hk & Hq & Hn).
    apply elem_of_cons in Hk as [->|Hk]; [|by apply I2; exists k, q]. rewrite Hr in Hq. injection Hq as <-.
    rewrite Er in Hn. cbn in Hn. congruence.
  - split; [by rewrite <- Er|done].
Qed.

(** One group at most has a majority. *)
Lemma members_disjoint bs k k' l : NoDup (map fst l) -> k <> k' ->
  (length (members bs k l) + length (members bs k' l) <= length l)%nat.
Proof.
  intros _ Hk. unfold members. rewrite !length_map. induction l as [|p l IH]; [done|]. cbn [List.filter].
  destruct (decide (voteKey (snd p) bs = k)) as [E|E]; [rewrite (bool_decide_eq_true_2 _ E)|rewrite (bool_decide_eq_false_2 _ E)];
  (destruct (decide (voteKey (snd p) bs = k')) as [E'|E']; [rewrite (bool_decide_eq_true_2 _ E')|rewrite (bool_decide_eq_false_2 _ E')]);
  cbn [length]; try lia. congruence.
Qed.
Lemma active_bound l s : rising (-1) l -> (forall p, p ∈ l -> (fst p < sources cfg)%nat) ->
  (forall i, i ∈ evicted s -> (i < sources cfg)%nat) -> Z.of_nat (length (activeReports l s)) <= activeSourceCount s.
Proof.
  intros Hr Hl He. unfold activeSourceCount.
  assert (NoDup (map fst (activeReports l s) ++ elements (evicted s))) as Hn.
  { apply NoDup_app. split; [apply NoDup_map_lfilter; by eapply rising_NoDup|]. split; [|apply NoDup_elements].
    intros i (p & -> & Hp)%list_elem_of_fmap Hin%elem_of_elements. apply elem_of_lfilter in Hp as [_ Hp].
    apply negb_true_iff, bool_decide_eq_false in Hp. done. }
  assert (map fst (activeReports l s) ++ elements (evicted s) ⊆ seq 0 (sources cfg)) as Hsub.
  { intros i [(p & -> & Hp)%list_elem_of_fmap|Hin%elem_of_elements]%elem_of_app; apply elem_of_seq; split; try lia; cbn.
    - apply elem_of_lfilter in Hp as [Hp _]. by apply Hl.
    - by apply He. }
  pose proof (submseteq_length _ _ (NoDup_submseteq _ _ Hn Hsub)) as Hlen.
  rewrite length_app, length_map, length_seq in Hlen.
  change (size (evicted s)) with (length (elements (evicted s))). lia.
Qed.

(** The tally of a genuine height, as the group of a key. *)
Lemma tally_members l s key :
  default [] (jm_get key (groups (tallyPendingBlockHashes l s)))
  = members (baseStates (tallyPendingBlockHashes l s)) key (activeReports l s).
Proof. unfold tallyPendingBlockHashes. cbn [groups baseStates]. by rewrite groups_members. Qed.

(** Every hash text a state field of a delivery carries is free of the separator. *)
Definition plain_states (ins : list input) : Prop := forall ev i, Deliver ev i ∈ ins -> plain (js_String (state_hash ev)).

(** The sources [ms] cast the vote of [ev]: distinct, active, and each delivered a block of
    that height whose hashes give the same text, joined by the separator; the applied payload
    [ev'] is [ev] itself or the delivery of one of them. *)
Definition seconded (ins : list input) (bs : jsmap string (list jsval)) (s : voting) (ev ev' : block_event) (ms : list nat) : Prop :=
  NoDup ms
  /\ (forall j, j ∈ ms -> j ∉ evicted s /\ (j < sources cfg)%nat
      /\ exists e, Deliver e j ∈ ins /\ block_index e = block_index ev /\ voteKey (report_of e) bs = voteKey (report_of ev) bs)
  /\ (ev' = ev \/ exists j, j ∈ ms /\ Deliver ev' j ∈ ins /\ block_index ev' = block_index ev).

Lemma checkable_from pending ms e : checkable_member pending ms = Some e -> exists j r, j ∈ ms /\ report_at j pending = Some r /\ e = r_event r.
Proof.
  induction ms as [|j ms IH]; cbn; [done|]. intros E. assert (checkable_member pending ms = Some e -> exists k r, k ∈ j :: ms /\ report_at k pending = Some r /\ e = r_event r) as K.
  { intros E'. destruct (IH E') as (k & r & Hk & Hr). exists k, r. split; [by right|done]. }
  destruct (report_at j pending) as [r|] eqn:Er; [|by apply K]. destruct (is_nullish (state_hash (r_event r))); [by apply K|].
  injection E as <-. exists j, r. split; [left|done].
Qed.

Lemma group_seconded ins l s ev :
  rising (-1) l -> (forall p, p ∈ l -> genuine ins (block_index ev) p) ->
  let t := tallyPendingBlockHashes l s in
  let ms := members (baseStates t) (voteKey (report_of ev) (baseStates t)) (activeReports l s) in
  seconded ins (baseStates t) s ev (checkableGroupEvent l ms ev) ms.
Proof.
  intros Hr Hg t ms. assert (forall j, j ∈ ms -> exists r, (j, r) ∈ l /\ j ∉ evicted s /\ voteKey r (baseStates t) = voteKey (report_of ev) (baseStates t)) as Hm.
  { intros j (r & Hin & Hk)%members_In. apply elem_of_lfilter in Hin as [Hin Hne]. apply negb_true_iff, bool_decide_eq_false in Hne. by exists r. }
  split; [|split].
  - unfold ms, members. apply NoDup_map_lfilter, NoDup_map_lfilter. by eapply rising_NoDup.
  - intros j Hj. destruct (Hm j Hj) as (r & Hin & Hne & Hk). destruct (Hg _ Hin) as (Er & Eb & Hs & Hd). cbn [fst snd] in *.
    split; [done|]. split; [done|]. exists (r_event r). split; [done|]. split; [done|]. by rewrite <- Er.
  - unfold checkableGroupEvent. destruct (is_nullish (state_hash ev)); [|by left]. destruct (checkable_member l ms) as [e|] eqn:Ec; [right|by left].
    apply checkable_from in Ec as (j & r & Hj & Hat & ->). exists j. split; [done|]. apply report_at_In in Hat. by destruct (Hg _ Hat) as (_ & Eb & _ & Hd).
Qed.

Lemma group_votes ins l s b ev :
  rising (-1) l -> (forall p, p ∈ l -> genuine ins b p) -> plain_states ins ->
  Forall plain (tuple_texts (report_of ev)) -> plain (js_String (state_hash ev)) ->
  let t := tallyPendingBlockHashes l s in
  let ms := members (baseStates t) (voteKey (report_of ev) (baseStates t)) (activeReports l s) in
  NoDup ms /\ exists st, votes_for (tuple_texts (report_of ev)) st (report_of ev)
  /\ forall j, j ∈ ms -> j ∉ evicted s /\ (j < sources cfg)%nat
      /\ exists r, report_at j l = Some r /\ r = report_of (r_event r) /\ Deliver (r_event r) j ∈ ins
                   /\ block_index (r_event r) = b /\ votes_for (tuple_texts (report_of ev)) st r.
Proof.
  intros Hr Hg Hp He Hs t ms. split.
  { unfold ms, members. apply NoDup_map_lfilter, NoDup_map_lfilter. by eapply rising_NoDup. }
  exists (vote_state (report_of ev) (baseStates t)). split; [split; [done|]; intros Hn; by rewrite vote_state_own|].
  assert (plain (vote_state (report_of ev) (baseStates t))) as Hst.
  { apply vote_state_plain; [|done]. intros p Hin. destruct (Hg p Hin) as (-> & _ & _ & Hd). by eapply Hp. }
  intros j (r & Hin & Hk)%members_In. apply elem_of_lfilter in Hin as [Hin Hne]. apply negb_true_iff, bool_decide_eq_false in Hne.
  destruct (Hg _ Hin) as (Er & Eb & Hj & Hd). cbn [fst snd] in *. split; [done|]. split; [done|].
  exists r. split; [by eapply rising_at|]. split; [done|]. split; [done|]. split; [done|].
  destruct (same_key_same_texts (report_of ev) r (baseStates t) He Hst Hk) as [E1 E2].
  split; [done|]. intros Hn. by rewrite <- E2, vote_state_own.
Qed.

(** The block [ev] is backed at height [b] by the sources [ms]: distinct, active,
    and each delivered a block of that height with the same three hash texts; where
    several carry a state hash it is one text, and the applied payload [ev'] carries
    one as soon as any of them does. *)
Definition backed (ins : list input) (s : voting) (ev ev' : block_event) (ms : list nat) : Prop :=
  NoDup ms /\ exists st, votes_for (tuple_texts (report_of ev)) st (report_of ev')
  /\ (forall j, j ∈ ms -> j ∉ evicted s /\ (j < sources cfg)%nat
      /\ exists e, Deliver e j ∈ ins /\ block_index e = block_index ev /\ votes_for (tuple_texts (report_of ev)) st (report_of e)
                   /\ (is_nullish (state_hash e) = false -> is_nullish (state_hash ev') = false)).

Lemma group_backed ins l s ev :
  rising (-1) l -> (forall p, p ∈ l -> genuine ins (block_index ev) p) -> plain_states ins ->
  Forall plain (tuple_texts (report_of ev)) -> plain (js_String (state_hash ev)) ->
  let t := tallyPendingBlockHashes l s in
  let ms := members (baseStates t) (voteKey (report_of ev) (baseStates t)) (activeReports l s) in
  backed ins s ev (checkableGroupEvent l ms ev) ms.
Proof.
  intros Hr Hg Hp He Hs t ms. destruct (group_votes ins l s (block_index ev) ev Hr Hg Hp He Hs) as (Hn & st & Hv & Hm).
  fold t in Hn, Hm. fold ms in Hn, Hm.
  assert (forall j, j ∈ ms -> exists r, report_at j l = Some r /\ r = report_of (r_event r) /\ votes_for (tuple_texts (report_of ev)) st r) as Hm'.
  { intros j Hj. destruct (Hm j Hj) as (_ & _ & r & ? & ? & _ & _ & ?). by exists r. }
  destruct (checkable_votes l _ _ ms ev Hm' Hv) as [Hc1 Hc2].
  split; [done|]. exists st. split; [done|]. intros j Hj. destruct (Hm j Hj) as (? & ? & r & Hat & Er & Hd & Eb & Hvr).
  split; [done|]. split; [done|]. exists (r_event r). split; [done|]. split; [done|]. split; [by rewrite <- Er|].
  intros Hnn. apply Hc2. exists j, r. split; [done|]. split; [done|]. by rewrite Er.
Qed.

(** Any other key stays below the quorum of a majority configuration. *)
Lemma rival_below l s key key' :
  rising (-1) l -> (forall p, p ∈ l -> (fst p < sources cfg)%nat) -> seats s -> Z.of_nat (sources cfg) < 2 * quorum cfg ->
  key <> key' -> let bs := baseStates (tallyPendingBlockHashes l s) in
  effectiveQuorum s <= Z.of_nat (length (members bs key (activeReports l s))) ->
  Z.of_nat (length (members bs key' (activeReports l s))) < effectiveQuorum s.
Proof.
  intros Hr Hl Hs Hq Hk bs Hm. pose proof (active_bound l s Hr Hl (v_evicted _ Hs)) as Ha.
  pose proof (members_disjoint bs key key' (activeReports l s)
    ltac:(apply NoDup_map_lfilter; by eapply rising_NoDup) Hk) as Hd.
  unfold effectiveQuorum, activeSourceCount in *. lia.
Qed.

(** C6.  Cross-source agreement.  After any history of deliveries, timeouts, verified
    blocks, rewinds and halt clears, a delivery that voting lets through applies a
    block that at least the effective quorum of distinct, not evicted sources voted for:
    each of them delivered a block of that height whose hashes, joined by the separator
    [|], are the same text, and the applied payload is one of these deliveries.  None of
    them is struck or evicted for it, and with a majority threshold no other vote of the
    same tally reaches the quorum.  When no hash text holds the separator (the client does
    not check it) they carry the same ledger, actions and contract hash, no two of them
    different state hashes, and the applied payload carries a state hash whenever one of
    theirs does. *)
Theorem block_quorum_safe tip h ins ev i s' ev' :
  Forall from_sources ins -> (i < sources cfg)%nat ->
  let s := run ins (started tip h) in
  sourceQuorumActive s = true -> handleBlockQuorum ev i s = (s', Apply ev') ->
  let s1 := recordPendingBlockHash ev i s in
  let t := tallyPendingBlockHashes (default [] (pendingHashes s1 !! block_index ev)) s1 in
  exists ms, seconded (ins ++ [Deliver ev i]) (baseStates t) s ev ev' ms /\ effectiveQuorum s <= Z.of_nat (length ms)
    /\ (forall j, j ∈ ms -> strikes s' !! j = strikes s !! j /\ j ∉ evicted s')
    /\ (Z.of_nat (sources cfg) < 2 * quorum cfg ->
        forall key, key <> voteKey (report_of ev) (baseStates t) ->
        Z.of_nat (length (default [] (jm_get key (groups t)))) < effectiveQuorum s)
    /\ (plain_states (ins ++ [Deliver ev i]) -> Forall plain (tuple_texts (report_of ev)) ->
        backed (ins ++ [Deliver ev i]) s ev ev' ms).
Proof.
  intros Hf Hi s Hq E. destruct (run_ok tip h ins Hf) as [Hs Hb]. fold s in Hs, Hb. cbv zeta.
  unfold handleBlockQuorum in E. rewrite Hq in E. cbn [negb] in E. case_match eqn:Ei; [done|]. cbv zeta in E.
  pose proof (record_ballots ins ev i s Hi Hb) as Hr. set (s1 := recordPendingBlockHash ev i s) in *.
  set (l := default [] (pendingHashes s1 !! block_index ev)) in *.
  assert (rising (-1) l /\ forall p, p ∈ l -> genuine (ins ++ [Deliver ev i]) (block_index ev) p) as [Hrise Hgen].
  { unfold l. destruct (pendingHashes s1 !! block_index ev) as [l0|] eqn:El; cbn; [by apply (v_reports _ _ Hr)|].
    split; [done|]. by intros p ?%not_elem_of_nil. }
  assert (forall p, p ∈ l -> (fst p < sources cfg)%nat) as Hsrc by (intros p Hin; by destruct (Hgen p Hin) as (_ & _ & ? & _)).
  rewrite !tally_members in E.
  set (t := tallyPendingBlockHashes l s1) in *. set (key := voteKey (report_of ev) (baseStates t)) in *.
  set (ms := members (baseStates t) key (activeReports l s1)) in *.
  destruct (negb (bool_decide (key ∈ abstain t)) && (effectiveQuorum s1 <=? Z.of_nat (length ms))) eqn:Ea;
    [|by case_match]. apply andb_true_iff in Ea as [_ Ea%Z.leb_le].
  injection E as <- <-. exists ms.
  split; [exact (group_seconded _ l s1 ev Hrise Hgen)|]. split; [exact Ea|]. split; [|split].
  - intros j Hj. destruct (accept_spares (block_index ev) key t l j s1) as [E1 E2].
    + intros r Hin. apply members_In in Hj as (r' & Hin' & Hk). apply elem_of_lfilter in Hin' as [Hin' _].
      pose proof (rising_at _ _ _ _ Hrise Hin) as A1. pose proof (rising_at _ _ _ _ Hrise Hin') as A2. congruence.
    + cbn. split; [exact E1|]. rewrite E2. apply members_In in Hj as (r' & Hin' & _).
      apply elem_of_lfilter in Hin' as [_ Hn]. by apply negb_true_iff, bool_decide_eq_false in Hn.
  - intros Hmaj key' Hk'. change (Z.of_nat (length (default [] (jm_get key' (groups t)))) < effectiveQuorum s1).
    pose proof (tally_members l s1 key') as Ek. fold t in Ek. rewrite Ek.
    apply (rival_below l s1 key key' Hrise Hsrc ltac:(destruct Hs; by split) Hmaj (not_eq_sym Hk') Ea).
  - intros Hp He. refine (group_backed _ l s1 ev Hrise Hgen Hp He _). apply (Hp ev i), elem_of_app. right. left.
Qed.

(** ** The timeout *)
Definition plain_history (ins : list input) : Prop :=
  forall ev i, Deliver ev i ∈ ins -> Forall plain (tuple_texts (report_of ev)) /\ plain (js_String (state_hash ev)).

Lemma one_key {V} (g : jsmap string V) k k' : (length g <= 1)%nat -> jm_get k g <> None -> jm_get k' g <> None -> k = k'.
Proof.
  destruct g as [|[q v] [|[q' v'] g]]; cbn; [done| |lia]. intros _. repeat case_decide; congruence.
Qed.
Lemma active_has_group l s p : p ∈ activeReports l s ->
  jm_get (voteKey (snd p) (baseStates (tallyPendingBlockHashes l s))) (groups (tallyPendingBlockHashes l s)) <> None.
Proof.
  intros Hp E. pose proof (tally_members l s (voteKey (snd p) (baseStates (tallyPendingBlockHashes l s)))) as Hm.
  rewrite E in Hm. cbn [default from_option] in Hm.
  assert (fst p ∈ members (baseStates (tallyPendingBlockHashes l s)) (voteKey (snd p) (baseStates (tallyPendingBlockHashes l s))) (activeReports l s)) as Hin.
  { apply members_In. exists (snd p). split; [by destruct p|done]. }
  rewrite <- Hm in Hin. by apply not_elem_of_nil in Hin.
Qed.


(** C32.  Sources stay able to agree.  In every reachable state only configured sources
    are evicted and at least two stay active as soon as one is; a source with the
    threshold of recent strikes is still seated only when no more than two are active;
    and the effective quorum lies between one and the number of active sources, and
    above half of them when the configured one is above half of all. *)
Theorem sources_stay_viable tip h ins :
  Forall from_sources ins -> 1 <= quorum cfg -> (1 <= sources cfg)%nat ->
  let s := run ins (started tip h) in
  (forall i, i ∈ evicted s -> (i < sources cfg)%nat)
  /\ (evicted s = ∅ \/ 2 <= activeSourceCount s)
  /\ (forall i l, strikes s !! i = Some l -> evictThreshold cfg <= Z.of_nat (length l) -> activeSourceCount s <= 2)
  /\ 1 <= effectiveQuorum s <= activeSourceCount s
  /\ (Z.of_nat (sources cfg) < 2 * quorum cfg -> activeSourceCount s < 2 * effectiveQuorum s).
Proof.
  intros Hf Hq Hn s. destruct (run_ok tip h ins Hf) as [[E A S] _]. fold s in E, A, S.
  assert (1 <= activeSourceCount s <= Z.of_nat (sources cfg)) as Ha.
  { unfold activeSourceCount in *. destruct A as [A|A]; [rewrite A, size_empty|]; lia. }
  unfold effectiveQuorum. split; [done|]. split; [done|]. split; [intros i l Hl; by apply S in Hl as [_ ?]|]. lia.
Qed.

(** The default threshold is a majority, and an explicit one lies within the sources. *)
Lemma sourceQuorum_range raw n : 1 <= n -> 1 <= sourceQuorum raw n <= n /\ (raw < 1 -> n < 2 * sourceQuorum raw n).
Proof.
  intros Hn. unfold sourceQuorum. destruct (Z.leb_spec 1 raw); [lia|]. destruct (Z.leb_spec 1 n); [|lia].
  pose proof (Z.div_mod (n + 2) 2 ltac:(lia)). pose proof (Z.mod_pos_bound (n + 2) 2 ltac:(lia)). lia.
Qed.
End Voting.
Arguments block_event : clear implicits.
Arguments report : clear implicits.
Arguments voting : clear implicits.
Arguments action : clear implicits.

(** ** Examples: four sources, a majority of three. *)
Module Example.
Definition four : quorum_config := QuorumConfig 4 (sourceQuorum 0 4) 3 200 true true true false.
Definition at_height (b : Z) (l st : jsval) : block_event unit := BlockEvent b l (JStr "a1") (JStr "c1") st tt.
(** Three sources agree on block 11, one of them without a state hash; the third
    disagrees first and then is outvoted. *)
Definition honest : block_event unit := at_height 11 (JStr "l1") (JStr "s1").
Definition burst : block_event unit := at_height 11 (JStr "l1") JNull.
Definition forged : block_event unit := at_height 11 (JStr "l2") (JStr "s1").
Definition votes : list (@input unit) := [Deliver honest 0; Deliver forged 2; Deliver honest 3].

Lemma votes_plain : plain_states (votes ++ [Deliver burst 1]).
Proof.
  intros ev i Hin. repeat (apply elem_of_cons in Hin as [[= -> ->]|Hin]; [unfold plain; apply (bool_decide_unpack _); vm_compute; exact I|]).
  by apply not_elem_of_nil in Hin.
Qed.
Lemma block_quorum_safe_witness : exists s' ms,
  handleBlockQuorum four burst 1 (run four votes (started (Some 10) None)) = (s', Apply honest)
  /\ backed four (votes ++ [Deliver burst 1]) (run four votes (started (Some 10) None)) burst honest ms
  /\ 3 <= Z.of_nat (length ms) /\ strikes s' !! 2%nat = Some [11].
Proof.
  eexists. destruct (block_quorum_safe four (Some 10) None votes burst 1
    (handleBlockQuorum four burst 1 (run four votes (started (Some 10) None))).1 honest) as (ms & _ & Hl & _ & _ & Hb).
  - repeat constructor.
  - cbn. lia.
  - vm_compute. reflexivity.
  - vm_compute. reflexivity.
  - exists ms. split; [vm_compute; reflexivity|]. split; [apply Hb; [apply votes_plain|repeat constructor; unfold plain; apply (bool_decide_unpack _); vm_compute; exact I]|].
    split; [exact Hl|]. vm_compute. reflexivity.
Defined.

(** The hash fields of an event are not checked, and the separator inside one moves the
    boundary between fields: the third source adds its vote to the first two although its
    contract hash is another, and the block is applied with two sources behind its hashes. *)
Definition shifted : block_event unit := BlockEvent 11 (JStr "l1") (JStr "a1") (JStr "c1|s1") (JStr "x") tt.
Definition tagged : block_event unit := at_height 11 (JStr "l1") (JStr "s1|x").
Example separator_joins_votes :
  (handleBlockQuorum four shifted 2 (run four [Deliver burst 0; Deliver tagged 1] (started (Some 10) None))).2 = Apply shifted
  /\ effectiveQuorum four (run four [Deliver burst 0; Deliver tagged 1] (started (Some 10) None)) = 3
  /\ tuple_texts (report_of shifted) <> tuple_texts (report_of tagged).
Proof. split_and!; [vm_compute; reflexivity..|]. vm_compute. discriminate. Qed.

Definition two_votes : list (@input unit) := [Deliver honest 0; Deliver burst 1].

Lemma sources_stay_viable_witness :
  (let s := run four [Deliver honest 0; Deliver forged 2; Deliver honest 3; Deliver honest 1] (started (Some 10) None) in
   strikes s !! 2%nat = Some [11] /\ 1 <= effectiveQuorum four s <= activeSourceCount four s).
Proof.
  split; [vm_compute; reflexivity|].
  refine (proj1 (proj2 (proj2 (proj2 (sources_stay_viable four (Some 10) None _ _ _ _))))).
  - repeat constructor.
  - cbv. discriminate.
  - cbn. lia.
Defined.

(** The timer of block 11 outlives a rewind to block 8 and then applies block 11 on
    tip 7: the callback compares heights only. *)
Lemma timer_applies_non_successor :
  (let s := run four [Deliver honest 0; Rewound 8 None] (started (Some 10) None) in
   (lastApplied s, (blockQuorumTimeout four 11 s).2)) = (Some 7, Apply honest).
Proof. vm_compute. reflexivity. Qed.
End Example.
