(* ===== verification/ReorgVote.v ===== *)
(** * ReorgVote: how far a replica lets its sources rewind it

    Models [src/src/client/rollback_guard.js] (the cumulative depth of a streak of
    rewinds), [src/src/client/retroactive_admission.js] (the exception for a deep
    rewind several sources announce) and the reorg handling of
    [src/src/client/sync.js]: the votes of the sources ([handleSourceReorg],
    [recordReorgVote], the timeout), the depth check and its halt ([handleReorg]), the
    rollback with the durable guard row ([applyReorgRollback],
    [persistRollbackGuardState]), the restart that reads it back
    ([loadRollbackGuardState]) and the operator's clear ([clearHalt]).  The voting
    state of SourceQuorum carries the evictions, the halt and the tip.

    The rollback is one database transaction: it lands or throws.  [fate] says where an
    attempted rollback fails, if it does. *)

From S2P Require Import Prelude JsText JsMap SourceQuorum.

(** ** The guard *)
Record guard := Guard { peak : option Z; low : option Z }.
Definition no_streak : guard := Guard None None.

Definition expire (maxDepth tip : Z) (g : guard) : guard :=
  match peak g with
  | None => g
  | Some p => if (p <=? tip) || (maxDepth <=? tip - default 0 (low g)) then no_streak else g
  end.
(** [depthFor]: the guard it leaves and the depth. *)
Definition depthFor (maxDepth tip target : Z) (g : guard) : guard * Z :=
  let g := expire maxDepth tip g in (g, default tip (peak g) - target + 1).
Definition record (maxDepth tip target : Z) (g : guard) : guard :=
  let g := expire maxDepth tip g in
  Guard (Some (default tip (peak g))) (Some (match low g with None => target | Some l => Z.min l target end)).

(** ** Retroactive rewinds *)

(** [event.retroactive]: missing, [null], or an object. *)
Inductive retroactive := RNone | RNull | RObj (target rules_to : jsval).

(** The seconds a block of the coin takes. *)
Definition RETROACTIVE_BLOCK_SECONDS (coin : string) : option Z :=
  if bool_decide (coin = "BTC") then Some 600
  else if bool_decide (coin = "LTC") then Some 150
  else if bool_decide (coin = "DOGE") then Some 60 else None.
Definition retroactiveCapBlocks (coin : string) (hours : Z) : result Z :=
  match RETROACTIVE_BLOCK_SECONDS coin with
  | None => Throw ("Unknown coin: " +:+ coin)
  | Some seconds => if hours <=? 0 then Throw "hours must be a finite positive number" else Ok (hours * 3600 / seconds)
  end.

Inductive admission := Admit | NotRetroactive | OverCap | NoQuorum.

(** One source's report of a rewind: its target and the rules it is announced for. *)
Record reorg_report := ReorgReport { rp_source : nat; rp_target : jsval; rp_rules : jsval }.
Definition reporting_sources (target rules : jsval) (reports : list reorg_report) : gset nat :=
  list_to_set (map rp_source (List.filter (fun r => bool_decide (rp_target r = target) && bool_decide (rp_rules r = rules)) reports)).

Definition admitRetroactiveRewind (depth capBlocks : Z) (retro : option (jsval * jsval)) (reports : list reorg_report) (quorum : Z) : admission :=
  match retro with
  | None => NotRetroactive
  | Some (target, rules) =>
      if capBlocks <? depth then OverCap
      else if Z.of_nat (size (reporting_sources target rules reports)) <? quorum then NoQuorum else Admit
  end.

(** ** State *)
Record reorg_event := ReorgEvent { re_block : Z; re_retro : retroactive }.

(** A height's held reports ([_pendingReorgs]). *)
Record reorg_entry := ReorgEntry {
  votes : gset nat;
  timer : bool;
  held : reorg_event;
  rewind : bool;
  reports : jsmap nat (jsval * jsval) }.

(** The saved guard row: none, a streak, or a text that is not one. *)
Inductive saved_row := NoRow | Row (p l : Z) | Garbage.

(** Where an attempted rollback fails, if it does: lowering the verified marker, saving
    the guard, or the rollback itself. *)
Inductive fate := Lands | MarkerFails | SaveFails | RollbackFails.

Section Reorg.
Context {payload : Type}.

Record follower := Follower {
  vs : voting payload;
  grd : guard;
  saved : saved_row;
  pendingReorgs : gmap Z reorg_entry;
  strictReorgPending : gset Z }.

Variable cfg : quorum_config.
Variable maxRollbackDepth : Z.
Variable coin : string.
Variable capHours : Z.

Definition set_vs v s := Follower v (grd s) (saved s) (pendingReorgs s) (strictReorgPending s).
Definition set_grd v s := Follower (vs s) v (saved s) (pendingReorgs s) (strictReorgPending s).
Definition set_saved v s := Follower (vs s) (grd s) v (pendingReorgs s) (strictReorgPending s).
Definition set_reorgs v s := Follower (vs s) (grd s) (saved s) v (strictReorgPending s).
Definition set_strict_reorg v s := Follower (vs s) (grd s) (saved s) (pendingReorgs s) v.

Definition tip (s : follower) : option Z := lastApplied (vs s).
Definition is_halted (s : follower) : bool := match halted (vs s) with Some _ => true | None => false end.

(** [haltOnDivergence] also drops every held report. *)
Definition haltFollower (reason : string) (s : follower) : follower :=
  if is_halted s then s
  else set_strict_reorg ∅ (set_reorgs ∅ (set_vs (haltOnDivergence reason (vs s)) s)).

(** ** Votes *)
Definition clearPendingReorg (h : Z) (s : follower) : follower :=
  set_strict_reorg (strictReorgPending s ∖ {[h]}) (set_reorgs (delete h (pendingReorgs s)) s).
Definition prunePendingReorgs (s : follower) : follower :=
  match tip s with
  | None => s
  | Some n =>
      set_strict_reorg (strictReorgPending s ∖ dom (filter (fun p => n < p.1) (pendingReorgs s)))
        (set_reorgs (filter (fun p => ~ n < p.1) (pendingReorgs s)) s)
  end.

(** What a report says of the rewind: nothing, [null], or a target and its rules. *)
Definition reported (r : retroactive) : jsval * jsval :=
  match r with RNone => (JUndef, JUndef) | RNull => (JNull, JNull) | RObj t u => (t, u) end.
Definition recordReorgReport (e : reorg_entry) (ev : reorg_event) (i : nat) : reorg_entry :=
  ReorgEntry (votes e) (timer e) (held e) (rewind e) (jm_set i (reported (re_retro ev)) (reports e)).
Definition recordReorgVote (ev : reorg_event) (i : nat) (rw : bool) (s : follower) : follower * reorg_entry :=
  let e := default (ReorgEntry ∅ false ev false []) (pendingReorgs s !! re_block ev) in
  let e := recordReorgReport (ReorgEntry ({[i]} ∪ votes e) (timer e) (held e) (rewind e) (reports e)) ev i in
  let e := if rw then ReorgEntry (votes e) (timer e) (held e) true (reports e) else e in
  (set_reorgs (<[re_block ev := e]> (pendingReorgs s)) s, e).

Definition activeRetroactiveReports (e : reorg_entry) (s : follower) : list reorg_report :=
  map (fun p => ReorgReport (fst p) (fst (snd p)) (snd (snd p)))
    (List.filter (fun p => negb (bool_decide (fst p ∈ evicted (vs s)))) (reports e)).
Definition entryHasRetroactiveReport (e : reorg_entry) (s : follower) : bool :=
  existsb (fun r => negb (bool_decide (rp_target r = JUndef)) || negb (bool_decide (rp_rules r = JUndef))) (activeRetroactiveReports e s).
Definition activeReorgVotes (e : reorg_entry) (s : follower) : Z := Z.of_nat (size (votes e ∖ evicted (vs s))).

Definition retroactiveReorgAdmission (ev : reorg_event) (depth : Z) (rs : list reorg_report) (s : follower) : result admission :=
  let retro := match re_retro ev with RObj t u => if bool_decide (t = JInt (re_block ev)) then Some (t, u) else None | _ => None end in
  let! capBlocks := retroactiveCapBlocks coin (if capHours =? 0 then 72 else capHours) in
  Ok (admitRetroactiveRewind depth capBlocks retro rs (effectiveQuorum cfg (vs s))).

Definition sourceReorgQuorumActive (s : follower) : bool :=
  if activeSourceCount cfg (vs s) <=? 1 then false else negb (indexer cfg) || sourceQuorumActive cfg (vs s).

(** ** The rollback *)
Definition set_last (n : option Z) (s : follower) : follower := set_vs (set_tip n None (vs s)) s.

(** [applyReorgRollback] at a tip [n]; [None] when it throws. *)
Definition applyReorgRollback (n : Z) (ev : reorg_event) (f : fate) (s : follower) : follower * bool :=
  match f with
  | MarkerFails => (s, false)
  | _ =>
      let g := record maxRollbackDepth n (re_block ev) (grd s) in
      let s := set_grd g s in
      match f with
      | SaveFails => (s, false)
      | _ =>
          let s := set_saved (match g with Guard (Some p) (Some l) => Row p l | _ => NoRow end) s in
          match f with
          | RollbackFails => (s, false)
          | _ => (set_last (Some (re_block ev - 1)) s, true)
          end
      end
  end.

(** [rs] is [None] for a rewind no source reported. *)
Definition handleReorg (ev : reorg_event) (rs : option (list reorg_report)) (f : fate) (s : follower) : follower :=
  if is_halted s then s
  else match tip s with
  | None => s
  | Some n =>
      if n <? re_block ev then s
      else
        let '(g, depth) := depthFor maxRollbackDepth n (re_block ev) (grd s) in
        let s := set_grd g s in
        let roll := let '(s', ok) := applyReorgRollback n ev f s in
                    prunePendingReorgs (if ok : bool then s' else haltFollower "reorg-rollback-failed" s') in
        if maxRollbackDepth <? depth then
          match retroactiveReorgAdmission ev depth (default [] rs) s with
          | Throw _ => s
          | Ok Admit => roll
          | Ok NoQuorum => if rs then s else haltFollower "max-rollback-depth-exceeded" s
          | Ok _ => haltFollower "max-rollback-depth-exceeded" s
          end
        else roll
  end.

Definition applyAgreedReorg (e : reorg_entry) (f : fate) (s : follower) : follower :=
  handleReorg (held e) (Some (activeRetroactiveReports e s)) f s.

Definition armReorgQuorumTimer (h : Z) (s : follower) : follower :=
  if stopping (vs s) then s
  else match pendingReorgs s !! h with
       | None => s
       | Some e => set_reorgs (<[h := ReorgEntry (votes e) true (held e) (rewind e) (reports e)]> (pendingReorgs s)) s
       end.

Definition truthy_retro (r : retroactive) : bool := match r with RObj _ _ => true | _ => false end.

Definition handleSourceReorg (ev : reorg_event) (i : nat) (rw : bool) (f : fate) (s : follower) : follower :=
  if is_halted s then s
  else if bool_decide (i ∈ evicted (vs s)) then s
  else match tip s with
  | None => s
  | Some n =>
      if n <? re_block ev then s
      else
        let '(g, depth) := depthFor maxRollbackDepth n (re_block ev) (grd s) in
        let s := set_grd g s in
        let retroactiveQuorumRequired := (maxRollbackDepth <? depth) && truthy_retro (re_retro ev) && (1 <? activeSourceCount cfg (vs s)) in
        if negb (sourceReorgQuorumActive s) && negb retroactiveQuorumRequired then
          applyAgreedReorg (recordReorgReport (ReorgEntry ∅ false ev rw []) ev i) f s
        else
          let '(s, e) := recordReorgVote ev i rw s in
          if effectiveQuorum cfg (vs s) <=? activeReorgVotes e s then
            if maxRollbackDepth <? depth then
              match retroactiveReorgAdmission ev depth (activeRetroactiveReports e s) s with
              | Throw _ => s
              | Ok NoQuorum =>
                  set_reorgs (<[re_block ev := ReorgEntry (votes e) false (held e) (rewind e) (reports e)]> (pendingReorgs s)) s
              | Ok _ => applyAgreedReorg (ReorgEntry (votes e) (timer e) ev (rewind e) (reports e)) f (clearPendingReorg (re_block ev) s)
              end
            else applyAgreedReorg e f (clearPendingReorg (re_block ev) s)
          else if (depth <=? maxRollbackDepth) || negb (entryHasRetroactiveReport e s) then armReorgQuorumTimer (re_block ev) s
          else s
  end.

(** The timer callback of a height. *)
Definition reorgQuorumTimeout (h : Z) (f : fate) (s : follower) : follower :=
  match pendingReorgs s !! h with
  | Some e =>
      if negb (timer e) || stopping (vs s) then s
      else
        let s := set_reorgs (<[h := ReorgEntry (votes e) false (held e) (rewind e) (reports e)]> (pendingReorgs s)) s in
        if confirmStrict cfg then set_strict_reorg ({[h]} ∪ strictReorgPending s) s
        else
          let s := set_reorgs (delete h (pendingReorgs s)) s in
          if activeReorgVotes e s =? 0 then s else applyAgreedReorg e f s
  | None => s
  end.

(** ** Restarts and clears *)

(** [loadRollbackGuardState] over [getSyncState]: a read that fails is reported as no
    row.  A malformed row holds the client. *)
Definition loadRollbackGuardState (readable : bool) (s : follower) : follower :=
  match (if readable then saved s else NoRow) with
  | NoRow => s
  | Row p l => if (0 <=? l) && (l <=? p) then set_grd (Guard (Some p) (Some l)) s
               else haltFollower "rollback-guard-state-invalid" s
  | Garbage => haltFollower "rollback-guard-state-invalid" s
  end.

(** A start of the process over the stored tip, with the durable halt restored. *)
Definition restart (readable : bool) (s : follower) : follower :=
  loadRollbackGuardState readable
    (Follower (Voting ∅ ∅ ∅ ∅ ∅ None (halted (vs s)) false (tip s) None) no_streak (saved s) ∅ ∅).

Definition resetRollbackGuardState (s : follower) : follower := set_saved NoRow (set_grd no_streak s).

(** The operator's clear of a durable halt. *)
Definition clearHalt (s : follower) : follower :=
  let was := halted (vs s) in
  let s := if bool_decide (was = Some "max-rollback-depth-exceeded") || bool_decide (was = Some "rollback-guard-state-invalid")
           then resetRollbackGuardState s else s in
  set_vs (set_halted None (vs s)) s.

(** ** Runs *)
Inductive event :=
| Advance (k : nat)                                     (** live blocks or a catch-up *)
| SourceReorg (ev : reorg_event) (i : nat) (rw : bool) (f : fate)
| ForkedHead (b : Z) (f : fate)                         (** found by the replica itself *)
| ReorgTimeout (h : Z) (f : fate)
| Evict (i : nat)
| Restart (readable : bool)
| Clear.
Definition step (s : follower) (x : event) : follower :=
  match x with
  | Advance k => match tip s with
                 | Some n => if is_halted s then s else set_last (Some (n + Z.of_nat k)) s
                 | None => s
                 end
  | SourceReorg ev i rw f => handleSourceReorg ev i rw f s
  | ForkedHead b f => handleReorg (ReorgEvent b RNone) None f s
  | ReorgTimeout h f => reorgQuorumTimeout h f s
  | Evict i => set_vs (evictSource cfg i (vs s)) s
  | Restart readable => restart readable s
  | Clear => clearHalt s
  end.
Definition begin (n : Z) : follower := Follower (started (Some n) None) no_streak NoRow ∅ ∅.
Definition run_from (xs : list event) (s : follower) : follower := fold_left step xs s.

(** ** The depth bound *)

(** A run with the highest block held so far, counted from the start or from the last
    clear that resets the guard. *)
Definition resets (s : follower) (x : event) : bool :=
  match x with
  | Clear => bool_decide (halted (vs s) = Some "max-rollback-depth-exceeded") || bool_decide (halted (vs s) = Some "rollback-guard-state-invalid")
  | _ => false
  end.
Definition tip_or (d : Z) (s : follower) : Z := default d (tip s).
Definition step_high (p : follower * Z) (x : event) : follower * Z :=
  let s' := step (fst p) x in (s', if resets (fst p) x then tip_or (snd p) s' else Z.max (snd p) (tip_or (snd p) s')).
Definition run_high (xs : list event) (p : follower * Z) : follower * Z := fold_left step_high xs p.

Definition not_retroactive (r : retroactive) : Prop := match r with RObj _ _ => False | _ => True end.
Definition plain_reorg (ev : reorg_event) : Prop := 0 <= re_block ev /\ not_retroactive (re_retro ev).
Definition ordinary (x : event) : Prop :=
  match x with
  | SourceReorg ev _ _ _ => plain_reorg ev
  | ForkedHead b _ => 0 <= b
  | Restart readable => readable = true
  | _ => True
  end.

(** The streak the guard remembers, for a tip [n] and a highest block [h]. *)
Definition remembers (h n : Z) (g : guard) : Prop :=
  match peak g, low g with
  | Some p, Some l => h = Z.max p n /\ p - maxRollbackDepth + 1 <= l /\ l - 1 <= n /\ 0 <= l <= p
  | None, None => n = h
  | _, _ => False
  end.
Definition row_guard (r : saved_row) : guard := match r with Row p l => Guard (Some p) (Some l) | _ => no_streak end.

Record bounded (h : Z) (s : follower) : Prop := {
  b_tip : exists n, tip s = Some n /\ n <= h <= n + maxRollbackDepth /\ remembers h n (grd s) /\ remembers h n (row_guard (saved s));
  b_row : saved s <> Garbage;
  b_held : forall k e, pendingReorgs s !! k = Some e -> plain_reorg (held e);
}.

Lemma expire_remembers h n g : remembers h n g -> remembers h n (expire maxRollbackDepth n g).
Proof.
  intros Hr. unfold expire. destruct (peak g) as [p|] eqn:Ep; [|done]. destruct (low g) as [l|] eqn:El;
    unfold remembers in Hr; rewrite Ep, El in Hr; [|done]. cbn [default from_option].
  destruct (Z.leb_spec p n); cbn; [unfold remembers; cbn; lia|].
  destruct (Z.leb_spec maxRollbackDepth (n - l)); cbn; [unfold remembers; cbn; lia|].
  unfold remembers. by rewrite Ep, El.
Qed.
Lemma expire_idem n g : expire maxRollbackDepth n (expire maxRollbackDepth n g) = expire maxRollbackDepth n g.
Proof.
  destruct g as [[p|] lo]; [|done]. unfold expire. cbn.
  destruct ((p <=? n) || (maxRollbackDepth <=? n - default 0 lo)) eqn:E; cbn; [done|]. by rewrite E.
Qed.

(** An accepted rewind from [n] to [target - 1] and from the guard it was checked with. *)
Lemma record_remembers h n target g : 0 <= target <= n -> remembers h n g ->
  snd (depthFor maxRollbackDepth n target g) <= maxRollbackDepth ->
  let g' := record maxRollbackDepth n target (fst (depthFor maxRollbackDepth n target g)) in
  remembers h n g' /\ remembers h (target - 1) g' /\ h <= target - 1 + maxRollbackDepth
  /\ exists p l, g' = Guard (Some p) (Some l).
Proof.
  intros Ht Hr Hd. unfold record. cbn [depthFor fst snd] in *. rewrite expire_idem. cbv zeta.
  pose proof (expire_remembers h n g Hr) as He. revert Hd He.
  assert (forall p, peak (expire maxRollbackDepth n g) = Some p -> n < p) as Hlt.
  { intros p. unfold expire. destruct (peak g) as [p'|] eqn:Ep; [|congruence].
    destruct (Z.leb_spec p' n); cbn; [done|]. case_match; [done|]. rewrite Ep. intros [= <-]. done. }
  revert Hlt. generalize (expire maxRollbackDepth n g). intros [[p|] [l|]] Hlt Hd He; unfold remembers in *; cbn in *; try done.
  - specialize (Hlt p eq_refl). split; [lia|]. split; [lia|]. split; [lia|]. eauto.
  - split; [lia|]. split; [lia|]. split; [lia|]. eauto.
Qed.

Lemma bounded_grd h s n : tip s = Some n -> bounded h s -> bounded h (set_grd (expire maxRollbackDepth n (grd s)) s).
Proof.
  intros Hn [(n' & Hn' & Hb & Hg & Hs) Hr He]. rewrite Hn in Hn'. injection Hn' as <-.
  split; [|done|done]. exists n. split; [done|]. split; [done|]. split; [by apply expire_remembers|done].
Qed.

Lemma tip_halt reason s : tip (haltFollower reason s) = tip s.
Proof. unfold tip, haltFollower, haltOnDivergence, is_halted. destruct (halted (vs s)) eqn:E; [done|]. cbn. by rewrite ?E. Qed.
Lemma bounded_halt h reason s : bounded h s -> bounded h (haltFollower reason s).
Proof.
  intros [(n & Hn & Hb) Hr He]. split.
  - exists n. rewrite tip_halt. unfold haltFollower. case_match; done.
  - unfold haltFollower. by case_match.
  - unfold haltFollower. case_match; [done|]. cbn. intros k e Hk. by rewrite lookup_empty in Hk.
Qed.
Lemma tip_prune s : tip (prunePendingReorgs s) = tip s.
Proof. unfold prunePendingReorgs. by case_match. Qed.
Lemma bounded_reorgs h s s' : tip s' = tip s -> grd s' = grd s -> saved s' = saved s ->
  (forall k e, pendingReorgs s' !! k = Some e -> plain_reorg (held e)) -> bounded h s -> bounded h s'.
Proof.
  intros E1 E2 E3 Hp [(n & Hn & Hb & Hg & Hs) Hr He]. split; [|congruence|done].
  exists n. rewrite E1, E2, E3. done.
Qed.
Lemma bounded_prune h s : bounded h s -> bounded h (prunePendingReorgs s).
Proof.
  intros Hb. apply (bounded_reorgs h s); [apply tip_prune|unfold prunePendingReorgs; by case_match..| |done].
  unfold prunePendingReorgs. case_match; [|apply Hb]. cbn. intros k e [Hk _]%map_lookup_filter_Some. by apply (b_held _ _ Hb k).
Qed.

Lemma bounded_rollback h s n ev f : tip s = Some n -> 0 <= re_block ev <= n -> bounded h s ->
  snd (depthFor maxRollbackDepth n (re_block ev) (grd s)) <= maxRollbackDepth ->
  bounded h (applyReorgRollback n ev f (set_grd (fst (depthFor maxRollbackDepth n (re_block ev) (grd s))) s)).1.
Proof.
  intros Hn Ht Hb Hd. pose proof (bounded_grd h s n Hn Hb) as Hb1.
  destruct Hb as [(n' & Hn' & Hh & Hg & Hs) Hr He]. rewrite Hn in Hn'. injection Hn' as <-.
  destruct (record_remembers h n (re_block ev) (grd s) Ht Hg Hd) as (K1 & K2 & K3 & p & l & E).
  unfold applyReorgRollback. cbn [depthFor fst snd grd set_grd] in *.
  destruct f; cbn [fst]; [|exact Hb1| |]; rewrite E in *.
  - split; [|done|done]. exists (re_block ev - 1). split; [done|]. split; [lia|]. done.
  - split; [|done|done]. exists n. split; [done|]. split; [lia|]. done.
  - split; [|done|done]. exists n. split; [done|]. split; [lia|]. done.
Qed.

Lemma admission_plain ev depth rs s : plain_reorg ev ->
  match retroactiveReorgAdmission ev depth rs s with Ok a => a = NotRetroactive | Throw _ => True end.
Proof.
  intros [_ Hr]. unfold retroactiveReorgAdmission. destruct (retroactiveCapBlocks coin _); cbn; [|done].
  by destruct (re_retro ev).
Qed.

Lemma bounded_handleReorg h ev rs f s : plain_reorg ev -> bounded h s ->
  bounded h (handleReorg ev rs f s).
Proof.
  intros Hp Hb. unfold handleReorg. case_match; [done|]. destruct (tip s) as [n|] eqn:Hn; [|done].
  destruct (Z.ltb_spec n (re_block ev)) as [|Hle]; [done|].
  destruct (depthFor maxRollbackDepth n (re_block ev) (grd s)) as [g depth] eqn:Ed.
  assert (g = expire maxRollbackDepth n (grd s)) as -> by (unfold depthFor in Ed; congruence).
  pose proof (bounded_grd h s n Hn Hb) as Hb1. cbv zeta.
  destruct (Z.ltb_spec maxRollbackDepth depth) as [Hdeep|Hok].
  - pose proof (admission_plain ev depth (default [] rs) (set_grd (expire maxRollbackDepth n (grd s)) s) Hp) as Ha.
    destruct (retroactiveReorgAdmission _ _ _ _) as [a|]; [subst a; by apply bounded_halt|done].
  - pose proof (bounded_rollback h s n ev f Hn (conj (proj1 Hp) Hle) Hb ltac:(by rewrite Ed)) as Hroll.
    rewrite Ed in Hroll. cbn [fst] in Hroll.
    destruct (applyReorgRollback n ev f _) as [s' ok]. cbn [fst] in Hroll.
    apply bounded_prune. destruct ok; [done|by apply bounded_halt].
Qed.

Lemma bounded_source h ev i rw f s : plain_reorg ev -> bounded h s ->
  bounded h (handleSourceReorg ev i rw f s).
Proof.
  intros Hp Hb. unfold handleSourceReorg. case_match; [done|]. case_match; [done|]. destruct (tip s) as [n|] eqn:Hn; [|done].
  case_match; [done|]. destruct (depthFor maxRollbackDepth n (re_block ev) (grd s)) as [g depth] eqn:Ed.
  assert (g = expire maxRollbackDepth n (grd s)) as -> by (unfold depthFor in Ed; congruence).
  pose proof (bounded_grd h s n Hn Hb) as Hb1. cbv zeta. set (s1 := set_grd _ s) in *.
  case_match; [apply bounded_handleReorg; [exact Hp|exact Hb1]|].
  destruct (recordReorgVote ev i rw s1) as [s2 e] eqn:Ev.
  assert (bounded h s2 /\ plain_reorg (held e)) as [Hb2 Hhe].
  { unfold recordReorgVote in Ev. injection Ev as <- <-.
    assert (plain_reorg (held (default (ReorgEntry ∅ false ev false []) (pendingReorgs s1 !! re_block ev)))) as Hh.
    { destruct (pendingReorgs s1 !! re_block ev) as [e0|] eqn:E0; cbn; [by apply (b_held _ _ Hb1 (re_block ev))|exact Hp]. }
    split; [|by destruct rw]. apply (bounded_reorgs h s1); try done. cbn. intros k e1 Hk.
    destruct (decide (k = re_block ev)) as [->|Hne].
    - rewrite lookup_insert_eq in Hk. injection Hk as <-. by destruct rw.
    - rewrite lookup_insert_ne in Hk by done. by apply (b_held _ _ Hb1 k). }
  assert (bounded h (clearPendingReorg (re_block ev) s2)) as Hb3.
  { apply (bounded_reorgs h s2); try done. cbn. intros k e1 [_ Hk]%lookup_delete_Some. by apply (b_held _ _ Hb2 k). }
  assert (forall t, bounded h (set_reorgs (<[re_block ev := ReorgEntry (votes e) t (held e) (rewind e) (reports e)]> (pendingReorgs s2)) s2)) as Hins.
  { intros t. apply (bounded_reorgs h s2); try done. cbn. intros k e1 Hk. destruct (decide (k = re_block ev)) as [->|Hne].
    - rewrite lookup_insert_eq in Hk. by injection Hk as <-.
    - rewrite lookup_insert_ne in Hk by done. by apply (b_held _ _ Hb2 k). }
  case_match.
  - case_match; [|by apply bounded_handleReorg].
    destruct (retroactiveReorgAdmission _ _ _ _) as [a|]; [|done]. destruct a; try apply Hins; by apply bounded_handleReorg.
  - case_match; [|done]. unfold armReorgQuorumTimer. case_match; [done|]. case_match eqn:E0; [|done].
    apply (bounded_reorgs h s2); try done. cbn. intros k e1 Hk. destruct (decide (k = re_block ev)) as [->|Hne].
    + rewrite lookup_insert_eq in Hk. injection Hk as <-. cbn. by apply (b_held _ _ Hb2 (re_block ev)).
    + rewrite lookup_insert_ne in Hk by done. by apply (b_held _ _ Hb2 k).
Qed.

Lemma bounded_timeout h k f s : bounded h s -> bounded h (reorgQuorumTimeout k f s).
Proof.
  intros Hb. unfold reorgQuorumTimeout. destruct (pendingReorgs s !! k) as [e|] eqn:Ek; [|done]. case_match; [done|]. cbv zeta.
  pose proof (b_held _ _ Hb k e Ek) as Hhe.
  set (s1 := set_reorgs (<[k := ReorgEntry (votes e) false (held e) (rewind e) (reports e)]> (pendingReorgs s)) s).
  assert (bounded h s1) as Hb1.
  { apply (bounded_reorgs h s); try done. cbn. intros k' e1 Hk. destruct (decide (k' = k)) as [->|Hne].
    - rewrite lookup_insert_eq in Hk. by injection Hk as <-.
    - rewrite lookup_insert_ne in Hk by done. by apply (b_held _ _ Hb k'). }
  case_match; [apply (bounded_reorgs h s1); try done; apply Hb1|].
  assert (bounded h (set_reorgs (delete k (pendingReorgs s1)) s1)) as Hb2.
  { apply (bounded_reorgs h s1); try done. cbn [pendingReorgs set_reorgs]. intros k' e1 [_ Hk]%lookup_delete_Some. by apply (b_held _ _ Hb1 k'). }
  case_match; [done|by apply bounded_handleReorg].
Qed.

Lemma bounded_restart h s : bounded h s -> bounded h (restart true s).
Proof.
  intros [(n & Hn & Hb & Hg & Hs) Hr He]. unfold restart, loadRollbackGuardState. cbn [saved].
  destruct (saved s) as [|p l|] eqn:Es; [..|done].
  - split; cbn; [|done|by intros k e ?%lookup_empty_Some]. exists n. done.
  - pose proof Hs as Hs'. unfold remembers in Hs'. cbn in Hs'.
    rewrite (proj2 (Z.leb_le 0 l)), (proj2 (Z.leb_le l p)) by lia. cbn [andb].
    split; cbn; [|done|by intros k e ?%lookup_empty_Some]. exists n. done.
Qed.

Lemma remembers_up h n k g : remembers h n g -> remembers (Z.max h (n + Z.of_nat k)) (n + Z.of_nat k) g.
Proof. unfold remembers. destruct (peak g), (low g); try done; lia. Qed.

Lemma bounded_step h s x : ordinary x -> bounded h s -> bounded (snd (step_high (s, h) x)) (fst (step_high (s, h) x)).
Proof.
  intros Hx Hb. unfold step_high. cbn [fst snd].
  assert (resets s x = false -> (forall k, x <> Advance k) -> bounded h (step s x)) as Hstay.
  { intros Hres Hna. destruct x as [k|ev i rw f|b f|k f|i|r|]; cbn [step].
    - by destruct (Hna k).
    - by apply bounded_source.
    - by apply bounded_handleReorg.
    - by apply bounded_timeout.
    - apply (bounded_reorgs h s); try done; [|apply Hb]. unfold tip. cbn. unfold evictSource. by repeat case_match.
    - cbn in Hx. subst r. by apply bounded_restart.
    - unfold clearHalt. cbn [resets] in Hres. rewrite Hres. apply (bounded_reorgs h s); try done. apply Hb. }
  assert (resets s x = false -> (forall k, x <> Advance k) -> bounded (Z.max h (tip_or h (step s x))) (step s x)) as Hstay'.
  { intros Hres Hna. specialize (Hstay Hres Hna). pose proof Hstay as [(n & Hn & Hh & _) _ _]. unfold tip_or. rewrite Hn. cbn.
    by rewrite Z.max_l by lia. }
  destruct x as [k|ev i rw f|b f|k f|i|r|]; try (by apply Hstay').
  - cbn [resets step]. destruct Hb as [(n & Hn & Hh & Hg & Hs) Hr He]. rewrite Hn. unfold tip_or. case_match.
    + rewrite Hn. cbn. rewrite Z.max_l by lia. split; [|done|done]. by exists n.
    + cbn [tip set_last vs set_vs set_tip lastApplied default from_option]. unfold tip. cbn.
      split; [|done|done]. exists (n + Z.of_nat k). split; [done|]. split; [lia|].
      split; [exact (remembers_up h n k _ Hg)|exact (remembers_up h n k _ Hs)].
  - destruct (resets s Clear) eqn:Ec; [|by apply Hstay']. cbn [step]. cbn [resets] in Ec. unfold clearHalt. rewrite Ec.
    destruct Hb as [(n & Hn & Hh & _) Hr He]. unfold tip_or. unfold tip in *. cbn. rewrite Hn. cbn. split; [|done|exact He].
    exists n. split; [exact Hn|]. split; [lia|]. done.
Qed.

(** C12.  The rewind limit is cumulative.  Whatever the sources report and in whatever
    order rewinds are accepted, refused, timed out or fail half way, across restarts
    that read the saved guard and operator clears, ordinary rewinds (none announced as
    retroactive) never take the replica more than the configured depth below the highest
    block it held since it started or since a clear last reset the guard: splitting a
    deep rewind into shallow ones does not get past the limit. *)
Theorem rollback_depth_bounded n xs :
  0 <= maxRollbackDepth -> Forall ordinary xs ->
  let '(s, h) := run_high xs (begin n, n) in
  exists t, tip s = Some t /\ t <= h <= t + maxRollbackDepth.
Proof.
  intros Hm Hx. destruct (run_high xs (begin n, n)) as [s h] eqn:E.
  assert (forall xs s0 h0, Forall ordinary xs -> bounded h0 s0 -> bounded (snd (run_high xs (s0, h0))) (fst (run_high xs (s0, h0)))) as Hrun.
  { clear. induction xs as [|x xs IH]; intros s0 h0 Hx Hb; [done|]. apply Forall_cons in Hx as [Hx Hxs].
    cbn [run_high fold_left]. pose proof (bounded_step h0 s0 x Hx Hb) as Hb'.
    destruct (step_high (s0, h0) x) as [s1 h1]. by apply IH. }
  specialize (Hrun xs (begin n) n Hx). rewrite E in Hrun.
  destruct Hrun as [(t & Ht & Hh & _) _ _].
  { split; [|done|intros k e Hk; cbn in Hk; by rewrite lookup_empty in Hk]. exists n. split; [done|]. split; [lia|]. done. }
  by exists t.
Qed.

(** ** What a rewind rests on *)

(** Source [j] reported a rewind to block [k], in the terms [(t, u)]. *)
Definition told (xs : list event) (k : Z) (j : nat) (what : jsval * jsval) : Prop :=
  exists ev rw f, SourceReorg ev j rw f ∈ xs /\ re_block ev = k /\ reported (re_retro ev) = what.
Definition entry_ok (xs : list event) (k : Z) (e : reorg_entry) : Prop :=
  re_block (held e) = k /\ (forall j, j ∈ votes e -> exists w, told xs k j w)
  /\ (forall j w, (j, w) ∈ reports e -> told xs k j w).
Definition reports_told (xs : list event) (s : follower) : Prop :=
  forall k e, pendingReorgs s !! k = Some e -> entry_ok xs k e.

Lemma told_more xs x k j w : told xs k j w -> told (xs ++ [x]) k j w.
Proof. intros (ev & rw & f & ? & ?). exists ev, rw, f. split; [apply elem_of_app; by left|done]. Qed.
Lemma entry_more xs x k e : entry_ok xs k e -> entry_ok (xs ++ [x]) k e.
Proof.
  intros (E & Hv & Hr). split; [done|]. split; [intros j Hj; destruct (Hv j Hj) as [w Hw]; exists w|intros j w Hj]; apply told_more; auto.
Qed.

(** The depth the guard assigns to a rewind to [b] from a tip [n]. *)
Definition depth_at (s : follower) (n b : Z) : Z := snd (depthFor maxRollbackDepth n b (grd s)).
Definition admitted (s : follower) (n b : Z) (ok : jsval -> gset nat -> Prop) : Prop :=
  depth_at s n b <= maxRollbackDepth
  \/ exists cap u (S : gset nat), retroactiveCapBlocks coin (if capHours =? 0 then 72 else capHours) = Ok cap
      /\ depth_at s n b <= cap /\ effectiveQuorum cfg (vs s) <= Z.of_nat (size S) /\ ok u S.

Lemma depth_expired s n b : snd (depthFor maxRollbackDepth n b (expire maxRollbackDepth n (grd s))) = depth_at s n b.
Proof. unfold depth_at, depthFor. by rewrite expire_idem. Qed.

(** [handleReorg] moves the tip only to just below its target, within the depth or by
    a quorum of matching reports within the cap. *)
Lemma handleReorg_moves ev rs f s n : tip s = Some n ->
  let s' := handleReorg ev rs f s in
  tip s' = Some n \/ (tip s' = Some (re_block ev - 1) /\ re_block ev <= n
    /\ admitted s n (re_block ev) (fun u S => re_retro ev = RObj (JInt (re_block ev)) u
                                     /\ S = reporting_sources (JInt (re_block ev)) u (default [] rs))).
Proof.
  intros Hn. cbv zeta. unfold handleReorg. case_match; [by left|]. rewrite Hn.
  destruct (Z.ltb_spec n (re_block ev)) as [|Hle]; [by left|].
  destruct (depthFor maxRollbackDepth n (re_block ev) (grd s)) as [g depth] eqn:Ed.
  assert (depth = depth_at s n (re_block ev)) as -> by (unfold depth_at; by rewrite Ed).
  assert (forall s1, vs s1 = vs s ->
    tip (let '(s', ok) := applyReorgRollback n ev f s1 in prunePendingReorgs (if ok : bool then s' else haltFollower "reorg-rollback-failed" s')) = Some n
    \/ tip (let '(s', ok) := applyReorgRollback n ev f s1 in prunePendingReorgs (if ok : bool then s' else haltFollower "reorg-rollback-failed" s'))
       = Some (re_block ev - 1)) as Hroll.
  { intros s1 E1. assert (tip s1 = Some n) as Hn1 by (unfold tip; by rewrite E1).
    unfold applyReorgRollback. destruct f; cbn beta iota zeta; rewrite tip_prune, ?tip_halt; [by right|by left..]. }
  cbv zeta. destruct (Z.ltb_spec maxRollbackDepth (depth_at s n (re_block ev))) as [Hdeep|Hok].
  - unfold retroactiveReorgAdmission. destruct (retroactiveCapBlocks coin _) as [cap|] eqn:Ecap; cbn [rbind]; [|by left].
    set (retro := match re_retro ev with RObj t u => _ | _ => _ end).
    destruct (admitRetroactiveRewind (depth_at s n (re_block ev)) cap retro (default [] rs) (effectiveQuorum cfg (vs (set_grd g s)))) eqn:Ea;
      [|left; by rewrite tip_halt..|left; destruct rs; [done|by rewrite tip_halt]].
    destruct (Hroll (set_grd g s) eq_refl) as [?|Ht]; [by left|]. right. split; [exact Ht|]. split; [done|]. right.
    unfold admitRetroactiveRewind in Ea. unfold retro in Ea. destruct (re_retro ev) as [| |t u]; try done.
    destruct (bool_decide (t = JInt (re_block ev))) eqn:Et; [|done]. apply bool_decide_eq_true in Et as ->.
    destruct (Z.ltb_spec cap (depth_at s n (re_block ev))); [done|].
    destruct (Z.ltb_spec (Z.of_nat (size (reporting_sources (JInt (re_block ev)) u (default [] rs)))) (effectiveQuorum cfg (vs (set_grd g s)))); [done|].
    exists cap, u, (reporting_sources (JInt (re_block ev)) u (default [] rs)). done.
  - destruct (Hroll (set_grd g s) eq_refl) as [?|?]; [by left|]. right. split; [done|]. split; [done|]. by left.
Qed.

(** A quorum of active sources announced the rewind to [b] under the rules [u]. *)
Definition announced (xs : list event) (s : follower) (b : Z) (u : jsval) (S : gset nat) : Prop :=
  forall j, j ∈ S -> j ∉ evicted (vs s) /\ told xs b j (JInt b, u).

Lemma reporting_told xs k e s t u j : entry_ok xs k e ->
  j ∈ reporting_sources t u (activeRetroactiveReports e s) -> j ∉ evicted (vs s) /\ told xs k j (t, u).
Proof.
  intros (_ & _ & Hr) Hj. unfold reporting_sources in Hj. apply elem_of_list_to_set in Hj.
  apply list_elem_of_fmap in Hj as (r & -> & Hin). apply elem_of_lfilter in Hin as [Hin Hm].
  apply andb_true_iff in Hm as [E1%bool_decide_eq_true E2%bool_decide_eq_true].
  apply list_elem_of_fmap in Hin as ([j [t' u']] & -> & Hin). apply elem_of_lfilter in Hin as [Hin Hne]. cbn in *. subst.
  apply negb_true_iff, bool_decide_eq_false in Hne. split; [done|]. by apply Hr.
Qed.

Lemma agreed_moves xs e f s n : tip s = Some n -> entry_ok xs (re_block (held e)) e ->
  tip (applyAgreedReorg e f s) = Some n
  \/ (tip (applyAgreedReorg e f s) = Some (re_block (held e) - 1) /\ re_block (held e) <= n
      /\ admitted s n (re_block (held e)) (announced xs s (re_block (held e)))).
Proof.
  intros Hn He. unfold applyAgreedReorg. destruct (handleReorg_moves (held e) (Some (activeRetroactiveReports e s)) f s n Hn) as [?|(Ht & Hle & Ha)]; [by left|].
  right. split; [done|]. split; [done|]. destruct Ha as [?|(cap & u & S & Hc & Hd & Hq & Hr & ->)]; [by left|].
  right. exists cap, u, (reporting_sources (JInt (re_block (held e))) u (activeRetroactiveReports e s)).
  split; [done|]. split; [done|]. split; [done|]. intros j Hj. by apply (reporting_told xs (re_block (held e)) e s).
Qed.

Lemma handleReorg_reports xs ev rs f s : reports_told xs s -> reports_told xs (handleReorg ev rs f s).
Proof.
  intros Hr. assert (forall reason s1, reports_told xs s1 -> reports_told xs (haltFollower reason s1)) as Hh.
  { intros reason s1 H1. unfold haltFollower. case_match; [done|]. intros k e Hk. cbn in Hk. by rewrite lookup_empty in Hk. }
  unfold handleReorg. case_match; [done|]. case_match; [|done]. case_match; [done|].
  destruct (depthFor _ _ _ _) as [g depth]. cbv zeta.
  assert (reports_told xs (let '(s', ok) := applyReorgRollback z ev f (set_grd g s) in
    prunePendingReorgs (if ok : bool then s' else haltFollower "reorg-rollback-failed" s'))) as Hroll.
  { assert (forall s1, reports_told xs s1 -> reports_told xs (prunePendingReorgs s1)) as Hp.
    { intros s1 Hs1. unfold prunePendingReorgs. case_match; [|done]. intros k e Hk. cbn in Hk.
      apply map_lookup_filter_Some in Hk as [Hk _]. by apply Hs1. }
    unfold applyReorgRollback. destruct f; cbn beta iota zeta; apply Hp; try apply Hh; exact Hr. }
  destruct (maxRollbackDepth <? depth); [|exact Hroll].
  destruct (retroactiveReorgAdmission _ _ _ _) as [[]|]; try exact Hroll; try (by apply Hh); [|exact Hr]. destruct rs; [exact Hr|by apply Hh].
Qed.

Lemma vote_entry xs ev i rw f s : reports_told xs s -> let x := SourceReorg ev i rw f in
  entry_ok (xs ++ [x]) (re_block ev) (snd (recordReorgVote ev i rw s)) /\ reports_told (xs ++ [x]) (fst (recordReorgVote ev i rw s)).
Proof.
  intros Hr x. unfold recordReorgVote. cbv zeta. cbn [fst snd].
  set (e0 := default (ReorgEntry ∅ false ev false []) (pendingReorgs s !! re_block ev)).
  assert (entry_ok (xs ++ [x]) (re_block ev) e0) as (E0 & V0 & R0).
  { unfold e0. destruct (pendingReorgs s !! re_block ev) as [e|] eqn:Ee; cbn; [by apply entry_more, Hr|].
    split; [done|]. split; [intros j Hj; set_solver|]. intros j w Hj. by apply not_elem_of_nil in Hj. }
  assert (told (xs ++ [x]) (re_block ev) i (reported (re_retro ev))) as Hi.
  { exists ev, rw, f. split; [apply elem_of_app; right; left|done]. }
  assert (forall b, entry_ok (xs ++ [x]) (re_block ev)
    (ReorgEntry ({[i]} ∪ votes e0) (timer e0) (held e0) b (jm_set i (reported (re_retro ev)) (reports e0)))) as Hok.
  { intros b. split; [done|]. split; cbn.
    - intros j [->%elem_of_singleton|Hj]%elem_of_union; [by eexists|by apply V0].
    - intros j w [[= -> ->]|Hj]%jm_In_set_inv; [done|by apply R0]. }
  pose proof (Hok true) as Ht. pose proof (Hok (rewind e0)) as Hf.
  assert (entry_ok (xs ++ [x]) (re_block ev) (snd (recordReorgVote ev i rw s))) as Hfin
    by (unfold recordReorgVote; cbv zeta; cbn [snd]; fold e0; destruct rw; [exact Ht|exact Hf]).
  split; [exact Hfin|]. intros k e Hk. cbn in Hk. destruct (decide (k = re_block ev)) as [->|Hne].
  - rewrite lookup_insert_eq in Hk. injection Hk as <-. exact Hfin.
  - rewrite lookup_insert_ne in Hk by done. by apply entry_more, Hr.
Qed.

Lemma reports_sub xs s s' : (forall k e, pendingReorgs s' !! k = Some e -> exists e', pendingReorgs s !! k = Some e'
    /\ held e' = held e /\ votes e' = votes e /\ reports e' = reports e) -> reports_told xs s -> reports_told xs s'.
Proof.
  intros Hsub Hr k e Hk. destruct (Hsub k e Hk) as (e' & He & E1 & E2 & E3). unfold entry_ok. rewrite <- E1, <- E2, <- E3. by apply Hr.
Qed.
Lemma reports_more xs x s : reports_told xs s -> reports_told (xs ++ [x]) s.
Proof. intros Hr k e Hk. by apply entry_more, Hr. Qed.
Lemma admitted_expired s s' n b ok : vs s' = vs s -> grd s' = expire maxRollbackDepth n (grd s) ->
  admitted s' n b ok -> admitted s n b ok.
Proof. unfold admitted, depth_at. intros -> ->. by rewrite depth_expired. Qed.

(** What one report of a source does: the held reports stay genuine, and the tip moves
    only on an admitted rewind, behind a quorum of votes when one is required. *)
Definition voted (xs : list event) (s : follower) (b : Z) : Prop :=
  exists S : gset nat, effectiveQuorum cfg (vs s) <= Z.of_nat (size S)
    /\ forall j, j ∈ S -> j ∉ evicted (vs s) /\ exists w, told xs b j w.
Lemma source_moves xs ev i rw f s n : reports_told xs s -> tip s = Some n ->
  let x := SourceReorg ev i rw f in let s' := handleSourceReorg ev i rw f s in
  reports_told (xs ++ [x]) s'
  /\ (tip s' = Some n \/ (tip s' = Some (re_block ev - 1) /\ re_block ev <= n
       /\ admitted s n (re_block ev) (announced (xs ++ [x]) s (re_block ev))
       /\ (sourceReorgQuorumActive s = true -> voted (xs ++ [x]) s (re_block ev)))).
Proof.
  intros Hr Hn x. cbv zeta. pose proof (reports_more xs x s Hr) as Hrx. unfold handleSourceReorg.
  case_match; [by split; [|left]|]. case_match; [by split; [|left]|]. rewrite Hn. case_match; [by split; [|left]|].
  destruct (depthFor maxRollbackDepth n (re_block ev) (grd s)) as [g depth] eqn:Ed.
  assert (g = expire maxRollbackDepth n (grd s)) as Eg by (unfold depthFor in Ed; congruence). cbv zeta.
  set (s1 := set_grd g s).
  destruct (negb (sourceReorgQuorumActive s1) && _) eqn:Eq.
  { apply andb_true_iff in Eq as [Eq _]. split; [by apply handleReorg_reports|].
    set (e := recordReorgReport (ReorgEntry ∅ false ev rw []) ev i).
    assert (entry_ok (xs ++ [x]) (re_block (held e)) e) as He.
    { split; [done|]. split; [intros j Hj; cbn in Hj; set_solver|]. intros j w Hj. cbn in Hj.
      apply list_elem_of_singleton in Hj as [= -> ->]. exists ev, rw, f. split; [apply elem_of_app; right; left|done]. }
    destruct (agreed_moves (xs ++ [x]) e f s1 n Hn He) as [?|(Ht & Hle & Ha)]; [by left|]. right.
    split; [done|]. split; [done|]. split; [by apply (admitted_expired s s1)|].
    intros Hact. change (sourceReorgQuorumActive s1) with (sourceReorgQuorumActive s) in Eq. by rewrite Hact in Eq. }
  destruct (vote_entry xs ev i rw f s1 Hr) as [He Hr2]. fold x in He, Hr2.
  destruct (recordReorgVote ev i rw s1) as [s2 e] eqn:Ev. cbn [fst snd] in He, Hr2.
  assert (vs s2 = vs s /\ grd s2 = g) as [Evs Egr] by (unfold recordReorgVote in Ev; by injection Ev as <- _).
  assert (tip s2 = Some n) as Hn2 by (unfold tip; by rewrite Evs).
  assert (reports_told (xs ++ [x]) (clearPendingReorg (re_block ev) s2)) as Hr3.
  { apply (reports_sub _ s2); [|done]. cbn. intros k e1 [_ Hk]%lookup_delete_Some. by exists e1. }
  assert (forall t, reports_told (xs ++ [x]) (set_reorgs (<[re_block ev := ReorgEntry (votes e) t (held e) (rewind e) (reports e)]> (pendingReorgs s2)) s2)) as Hins.
  { intros t k e1 Hk. cbn in Hk. destruct (decide (k = re_block ev)) as [->|Hne].
    - rewrite lookup_insert_eq in Hk. by injection Hk as <-.
    - rewrite lookup_insert_ne in Hk by done. by apply Hr2. }
  destruct (Z.leb_spec (effectiveQuorum cfg (vs s2)) (activeReorgVotes e s2)) as [Hq|Hq].
  - assert (voted (xs ++ [x]) s (re_block ev)) as Hv.
    { exists (votes e ∖ evicted (vs s)). unfold activeReorgVotes in Hq. rewrite Evs in Hq. split; [done|].
      intros j [Hj ?]%elem_of_difference. split; [done|]. by apply He. }
    assert (forall e', held e' = held e \/ held e' = ev -> votes e' = votes e -> reports e' = reports e ->
      reports_told (xs ++ [x]) (applyAgreedReorg e' f (clearPendingReorg (re_block ev) s2))
      /\ (tip (applyAgreedReorg e' f (clearPendingReorg (re_block ev) s2)) = Some n
          \/ (tip (applyAgreedReorg e' f (clearPendingReorg (re_block ev) s2)) = Some (re_block ev - 1) /\ re_block ev <= n
              /\ admitted s n (re_block ev) (announced (xs ++ [x]) s (re_block ev))
              /\ (sourceReorgQuorumActive s = true -> voted (xs ++ [x]) s (re_block ev))))) as Hgo.
    { intros e' Eh E2 E3. split; [by apply handleReorg_reports|]. destruct He as (E1 & HV & HR).
      assert (re_block (held e') = re_block ev) as Eb by (destruct Eh as [->| ->]; congruence).
      assert (entry_ok (xs ++ [x]) (re_block (held e')) e') as He' by (rewrite Eb; split; [done|]; by rewrite E2, E3).
      destruct (agreed_moves (xs ++ [x]) e' f (clearPendingReorg (re_block ev) s2) n Hn2 He') as [?|(Ht & Hle & Ha)]; [by left|].
      right. rewrite Eb in *. split; [done|]. split; [done|]. split; [|done].
      apply (admitted_expired s (clearPendingReorg (re_block ev) s2)) in Ha; [|done|cbn; congruence].
      destruct Ha as [?|(cap & u & S & ? & ? & ? & Hann)]; [by left|]. right. exists cap, u, S.
      split; [done|]. split; [done|]. split; [done|]. intros j Hj. destruct (Hann j Hj) as [Hne ?]. split; [|done].
      cbn in Hne. by rewrite Evs in Hne. }
    case_match; [|by apply Hgo; [left|..]].
    destruct (retroactiveReorgAdmission _ _ _ _) as [[]|]; try (by apply Hgo; [right|..]); [split; [apply Hins|by left]|by split; [|left]].
  - case_match; [|by split; [|left]]. split; [|left; unfold armReorgQuorumTimer; by repeat case_match].
    unfold armReorgQuorumTimer. case_match; [done|]. case_match eqn:E0; [|done].
    apply (reports_sub _ s2); [|done]. cbn. intros k e1 Hk. destruct (decide (k = re_block ev)) as [->|Hne].
    + rewrite lookup_insert_eq in Hk. injection Hk as <-. by eexists.
    + rewrite lookup_insert_ne in Hk by done. by exists e1.
Qed.

Lemma timeout_moves xs k f s n : reports_told xs s -> tip s = Some n ->
  reports_told xs (reorgQuorumTimeout k f s)
  /\ (tip (reorgQuorumTimeout k f s) = Some n
      \/ (tip (reorgQuorumTimeout k f s) = Some (k - 1) /\ k <= n /\ confirmStrict cfg = false
          /\ admitted s n k (announced xs s k))).
Proof.
  intros Hr Hn. unfold reorgQuorumTimeout. destruct (pendingReorgs s !! k) as [e|] eqn:Ek; [|by split; [|left]].
  case_match; [by split; [|left]|]. cbv zeta.
  set (s1 := set_reorgs (<[k := ReorgEntry (votes e) false (held e) (rewind e) (reports e)]> (pendingReorgs s)) s).
  assert (reports_told xs s1) as Hr1.
  { intros k' e1 Hk. cbn in Hk. destruct (decide (k' = k)) as [->|Hne].
    - rewrite lookup_insert_eq in Hk. injection Hk as <-. by apply Hr in Ek.
    - rewrite lookup_insert_ne in Hk by done. by apply Hr. }
  destruct (confirmStrict cfg); [by split; [|left]|].
  assert (reports_told xs (set_reorgs (delete k (pendingReorgs s1)) s1)) as Hr2.
  { apply (reports_sub _ s1); [|done]. cbn [pendingReorgs set_reorgs]. intros k' e1 [_ Hk]%lookup_delete_Some. by exists e1. }
  case_match; [by split; [|left]|]. split; [by apply handleReorg_reports|].
  pose proof (Hr k e Ek) as He. pose proof (proj1 He) as Eb.
  destruct (agreed_moves xs e f (set_reorgs (delete k (pendingReorgs s1)) s1) n Hn ltac:(by rewrite Eb)) as [?|(Ht & Hle & Ha)]; [by left|].
  rewrite Eb in *. right. split; [done|]. split; [done|]. split; [done|]. exact Ha.
Qed.

Definition forked_head (x : event) : bool := match x with ForkedHead _ _ => true | _ => false end.

Lemma step_moves xs x s n : reports_told xs s -> tip s = Some n ->
  reports_told (xs ++ [x]) (step s x)
  /\ (exists k, tip (step s x) = Some (n + Z.of_nat k))
  \/ reports_told (xs ++ [x]) (step s x) /\ exists b, tip (step s x) = Some (b - 1) /\ b <= n
      /\ admitted s n b (announced (xs ++ [x]) s b)
      /\ (confirmStrict cfg = true -> sourceReorgQuorumActive s = true -> forked_head x = false -> voted (xs ++ [x]) s b).
Proof.
  intros Hr Hn. pose proof (reports_more xs x s Hr) as Hrx.
  assert (forall s', tip s' = Some n -> exists k, tip s' = Some (n + Z.of_nat k)) as Hsame.
  { intros s' E. exists O. by rewrite Z.add_0_r. }
  destruct x as [k|ev i rw f|b f|k f|i|r|]; cbn [step].
  - left. rewrite Hn. case_match; [split; [done|by apply Hsame]|]. split; [done|]. by exists k.
  - destruct (source_moves xs ev i rw f s n Hr Hn) as [H1 [Ht|(Ht & Hle & Ha & Hv)]]; [left; split; [done|by apply Hsame]|].
    right. split; [done|]. exists (re_block ev). split; [done|]. split; [done|]. split; [done|]. intros _ Hact _. by apply Hv.
  - assert (reports_told (xs ++ [ForkedHead b f]) (handleReorg (ReorgEvent b RNone) None f s)) as H1 by (by apply handleReorg_reports).
    destruct (handleReorg_moves (ReorgEvent b RNone) None f s n Hn) as [Ht|(Ht & Hle & Ha)]; [left; split; [done|by apply Hsame]|].
    right. split; [done|]. exists b. split; [done|]. split; [done|]. split; [|done].
    destruct Ha as [?|(cap & u & S & _ & _ & _ & [=] & _)]; by left.
  - destruct (timeout_moves (xs ++ [ReorgTimeout k f]) k f s n Hrx Hn) as [H1 [Ht|(Ht & Hle & Hst & Ha)]]; [left; split; [done|by apply Hsame]|].
    right. split; [done|]. exists k. split; [done|]. split; [done|]. split; [done|]. by rewrite Hst.
  - left. split; [done|]. apply Hsame. unfold tip. cbn. unfold evictSource. repeat case_match; exact Hn.
  - left. assert (tip (restart r s) = Some n /\ pendingReorgs (restart r s) = ∅) as [Ht Hp].
    { assert (forall reason s0, tip s0 = Some n -> pendingReorgs s0 = ∅ ->
        tip (haltFollower reason s0) = Some n /\ pendingReorgs (haltFollower reason s0) = ∅) as Hh.
      { intros reason s0 E1 E2. rewrite tip_halt. split; [done|]. unfold haltFollower. by case_match. }
      unfold restart, loadRollbackGuardState. cbn [saved].
      destruct (if r then saved s else NoRow) as [|p l|]; [done| |by apply Hh].
      destruct ((0 <=? l) && (l <=? p)); [done|by apply Hh]. }
    split; [|by apply Hsame]. intros k e Hk. rewrite Hp in Hk. by rewrite lookup_empty in Hk.
  - left. unfold clearHalt. split; [case_match; done|]. apply Hsame. unfold tip. cbn. by case_match.
Qed.

Lemma run_reports n xs : (exists t, tip (run_from xs (begin n)) = Some t) /\ reports_told xs (run_from xs (begin n)).
Proof.
  induction xs as [|x xs [[t Ht] Hr]] using rev_ind.
  - split; [by exists n|]. intros k e Hk. cbn in Hk. by rewrite lookup_empty in Hk.
  - unfold run_from in *. rewrite fold_left_app. cbn [fold_left].
    destruct (step_moves xs x _ t Hr Ht) as [[H1 [k E]]|[H1 (b & E & _)]]; split; eauto.
Qed.

End Reorg.

(** ** Examples: three sources, limit 10. *)
Module Example.
Definition trio : quorum_config := QuorumConfig 3 (sourceQuorum 0 3) 3 200 true true true true.
Definition to (b : Z) : reorg_event := ReorgEvent b RNone.
Notation next x s := (step (payload := unit) trio 10 "BTC" 72 s x).
Notation history xs := (run_from (payload := unit) trio 10 "BTC" 72 xs (begin 100)).

(** Two agreed rewinds of six and four blocks use the limit up; a third is refused with
    a halt. *)
Definition split_rewind : list (event) :=
  [SourceReorg (to 95) 0 false Lands; SourceReorg (to 95) 1 false Lands; Restart true;
   SourceReorg (to 91) 0 false Lands; SourceReorg (to 91) 2 false Lands;
   SourceReorg (to 90) 1 false Lands; SourceReorg (to 90) 2 false Lands].
Lemma rollback_depth_bounded_witness :
  tip (history split_rewind) = Some 90 /\ halted (vs (history split_rewind)) = Some "max-rollback-depth-exceeded"
  /\ exists t, tip (fst (run_high (payload := unit) trio 10 "BTC" 72 split_rewind (begin 100, 100))) = Some t
             /\ t <= snd (run_high (payload := unit) trio 10 "BTC" 72 split_rewind (begin 100, 100)) <= t + 10.
Proof.
  split; [vm_compute; reflexivity|]. split; [vm_compute; reflexivity|].
  pose proof (rollback_depth_bounded (payload := unit) trio 10 "BTC" 72 100 split_rewind ltac:(lia)
    ltac:(repeat constructor; cbn; lia)) as Hb.
  destruct (run_high _ _ _ _ _ _) as [s h]. exact Hb.
Defined.


(** The guard row is read fail-soft: a read that fails at a start looks like no row, and
    the depth already spent is forgotten. *)
Lemma unreadable_guard_forgets_streak :
  (let s := history (take 5 split_rewind ++ [Restart true; SourceReorg (to 85) 0 false Lands; SourceReorg (to 85) 1 false Lands]) in
   (tip s, halted (vs s))) = (Some 90, Some "max-rollback-depth-exceeded")
  /\ (let s := history (take 5 split_rewind ++ [Restart false; SourceReorg (to 85) 0 false Lands; SourceReorg (to 85) 1 false Lands]) in
      (tip s, halted (vs s))) = (Some 84, None).
Proof. vm_compute. split; reflexivity. Qed.

(** A rewind announced as retroactive by two of the three sources may go deeper. *)
Lemma retroactive_goes_deeper :
  tip (history [SourceReorg (ReorgEvent 50 (RObj (JInt 50) (JStr "v2"))) 0 false Lands;
                SourceReorg (ReorgEvent 50 (RObj (JInt 50) (JStr "v2"))) 1 false Lands]) = Some 49.
Proof. vm_compute. reflexivity. Qed.

(** An indexer with several sources that does not verify hashes has no reorg voting: under
    strict confirmation too, one report rewinds it. *)
Definition unverified : quorum_config := QuorumConfig 3 (sourceQuorum 0 3) 3 200 true false true true.
Example one_report_rewinds :
  confirmStrict unverified = true
  /\ tip (run_from (payload := unit) unverified 10 "BTC" 72 [SourceReorg (to 95) 0 false Lands] (begin 100)) = Some 94.
Proof. vm_compute. auto. Qed.
End Example.
