(* ===== verification/TransparencyLog.v ===== *)
(** * TransparencyLog: the server's append-only log and its inclusion proofs

    Models [src/src/server/merkle_tree.js] (the binary tree in which an odd last node is
    paired with itself), [src/src/server/transparency_log.js] (recording a block,
    committing an epoch's root, pruning at a reorg and by retention, serving a proof)
    and the queries of [src/src/db/sync_meta.js] and [src/src/db/merkle_epochs.js] it
    uses.  The three tables are the state; every query may fail, and outside a
    transaction a failed read is no rows and a failed write does nothing ([faults] says
    which queries fail).  [prunedTo] is bookkeeping for the statements: the height
    through which retention removed the leaves. *)

From S2P Require Import Prelude Sha256.

(** ** The tree *)
Section Tree.
Context `{HashFn}.

Definition sha_hex (s : string) : string := hex_encode (sha256 (utf8 s)).
Definition computeLeaf (ledgerHash actionsHash contractHash : option string) : string :=
  sha_hex (default "" ledgerHash +:+ default "" actionsHash +:+ default "" contractHash).
Definition hashPair (l r : string) : string := sha_hex (l +:+ r).

Fixpoint nextLayer (l : list string) : list string :=
  match l with
  | a :: b :: rest => hashPair a b :: nextLayer rest
  | [a] => [hashPair a a]
  | [] => []
  end.
(** The layers above [layer]; each is half as long, so as many rounds as leaves are
    enough. *)
Fixpoint layers_from (fuel : nat) (layer : list string) : list (list string) :=
  match fuel with
  | O => [layer]
  | S n => match layer with
           | _ :: _ :: _ => layer :: layers_from n (nextLayer layer)
           | _ => [layer]
           end
  end.
Definition buildTree (leaves : list string) : option string * list (list string) :=
  match leaves with
  | [] => (None, [])
  | _ => let layers := layers_from (length leaves) leaves in
         (match last layers with Some (root :: _) => Some root | _ => None end, layers)
  end.

Inductive position := Left | Right.
Fixpoint proof_steps (layers : list (list string)) (index : nat) : list (string * position) :=
  match layers with
  | [] => []
  | layer :: upper =>
      match upper with
      | [] => []
      | _ =>
          let isRight := Nat.odd index in
          let siblingIndex := if isRight then (index - 1)%nat else S index in
          match layer !! siblingIndex with
          | Some h => (h, if isRight then Left else Right)
          | None => (default "" (layer !! index), Right)
          end :: proof_steps upper (Nat.div2 index)
      end
  end.
Definition generateProof (layers : list (list string)) (leafIndex : nat) : option (list (string * position)) :=
  match layers with
  | [] => None
  | leaves :: _ => if Nat.ltb leafIndex (length leaves) then Some (proof_steps layers leafIndex) else None
  end.

Definition fold_step (current : string) (step : string * position) : string :=
  match snd step with Left => hashPair (fst step) current | Right => hashPair current (fst step) end.
Definition verifyProof (leaf : string) (proof : option (list (string * position))) (expectedRoot : option string) : bool :=
  match proof, expectedRoot with
  | Some p, Some root =>
      if bool_decide (leaf = "") || bool_decide (root = "") then false
      else bool_decide (fold_left fold_step p leaf = root)
  | _, _ => false
  end.

(** *** Proofs verify *)
Lemma nextLayer_length l : length (nextLayer l) = Nat.div2 (S (length l)).
Proof.
  enough (forall n l, (length l <= n)%nat -> length (nextLayer l) = Nat.div2 (S (length l))) as He by (by apply (He (length l))).
  induction n as [|n IH]; intros [|a [|b m]] Hl; cbn in *; try lia; try done. f_equal. apply IH. lia.
Qed.
Lemma nextLayer_lookup l : forall i a, l !! i = Some a ->
  nextLayer l !! (Nat.div2 i) = Some (if Nat.odd i then hashPair (default "" (l !! (i - 1)%nat)) a
                                      else hashPair a (default a (l !! S i))).
Proof.
  enough (forall n l, (length l <= n)%nat -> forall i a, l !! i = Some a ->
    nextLayer l !! (Nat.div2 i) = Some (if Nat.odd i then hashPair (default "" (l !! (i - 1)%nat)) a
                                        else hashPair a (default a (l !! S i)))) as He by (by apply (He (length l))).
  induction n as [|n IH]; intros [|x [|y m]] Hl i a Hi; cbn in Hl; try lia; try done.
  - destruct i as [|[|i]]; cbn in Hi; try done. by injection Hi as ->.
  - destruct i as [|[|i]]; cbn in Hi; [by injection Hi as ->..|].
    specialize (IH m ltac:(lia) i a Hi). change (nextLayer (x :: y :: m) !! Nat.div2 (S (S i))) with (nextLayer m !! Nat.div2 i).
    rewrite IH. change (Nat.odd (S (S i))) with (Nat.odd i). destruct (Nat.odd i) eqn:Eo; [|done].
    destruct i as [|i]; [done|]. by replace (S (S (S i)) - 1)%nat with (S (S (S i - 1))) by lia.
Qed.

Lemma half_fits n k : (n <= S (S k))%nat -> (Nat.div2 (S n) <= S k)%nat.
Proof. intros Hn. rewrite Nat.div2_div. pose proof (Nat.div_mod_eq (S n) 2). pose proof (Nat.mod_upper_bound (S n) 2). lia. Qed.

(** The path of a leaf climbs to the last layer. *)
Lemma proof_climbs fuel : forall l i a, (length l <= S fuel)%nat -> l !! i = Some a ->
  exists root, last (layers_from fuel l) = Some [root] /\ fold_left fold_step (proof_steps (layers_from fuel l) i) a = root.
Proof.
  induction fuel as [|fuel IH]; intros l i a Hl Hi.
  { destruct l as [|x [|y l]]; [done| |cbn in Hl; lia]. destruct i; [|done]. injection Hi as ->. by exists a. }
  destruct l as [|x [|y l]]; [done|destruct i; [|done]; injection Hi as ->; by exists a|].
  cbn [layers_from]. set (m := x :: y :: l) in *. pose proof (nextLayer_lookup m i a Hi) as Hn.
  destruct (IH (nextLayer m) (Nat.div2 i) _ ltac:(rewrite nextLayer_length; by apply half_fits) Hn) as (root & Hr & Hf).
  exists root. destruct (layers_from fuel (nextLayer m)) as [|l1 ls] eqn:El; [done|]. split; [by rewrite last_cons_cons|].
  cbn [proof_steps]. cbn [fold_left]. rewrite <- Hf. f_equal.
  destruct (Nat.odd i) eqn:Eo.
  - assert (is_Some (m !! (i - 1)%nat)) as [b Hb] by (apply lookup_lt_is_Some; apply lookup_lt_Some in Hi; lia). by rewrite Hb.
  - destruct (m !! S i) as [b|] eqn:Hb; [done|]. by rewrite Hi.
Qed.

Lemma sha_hex_nonempty x : sha_hex x <> "".
Proof.
  unfold sha_hex, hex_encode. intros E. apply (f_equal utf8) in E. rewrite utf8_of_utf8 in E.
  pose proof (sha256_length (utf8 x)) as Hl. destruct (sha256 (utf8 x)) as [|b l]; [done|]. done.
Qed.
Lemma fold_nonempty p a : a <> "" -> fold_left fold_step p a <> "".
Proof.
  revert a; induction p as [|[h []] p IH]; intros a Ha; cbn; [done|..]; apply IH; apply sha_hex_nonempty.
Qed.

(** Every leaf of a tree has a proof that verifies against the root. *)
Lemma buildTree_proves leaves i a : leaves !! i = Some a -> a <> "" ->
  exists root, (buildTree leaves).1 = Some root
    /\ verifyProof a (generateProof (buildTree leaves).2 i) (Some root) = true.
Proof.
  intros Hi Ha. destruct leaves as [|x l]; [done|]. cbn [buildTree]. set (m := x :: l) in *.
  destruct (proof_climbs (length m) m i a ltac:(lia) Hi) as (root & Hr & Hf). cbn [fst snd]. rewrite Hr. exists root. split; [done|].
  destruct (layers_from (length m) m) as [|l0 ls] eqn:El; [done|].
  assert (l0 = m) as -> by (unfold m in El; cbn in El; destruct l; by injection El as <- _).
  cbn [generateProof]. apply lookup_lt_Some in Hi. rewrite (proj2 (Nat.ltb_lt _ _) Hi). cbn [verifyProof].
  rewrite (bool_decide_eq_false_2 _ Ha). rewrite bool_decide_eq_false_2 by (subst root; by apply fold_nonempty).
  by apply bool_decide_eq_true.
Qed.
End Tree.

(** ** The tables *)
Definition block_hashes : Type := option string * option string * option string.
Record epoch_row := EpochRow { start_block : Z; end_block : Z; merkle_root : option string; leaf_count : nat }.
Record reorg_marker := ReorgMarker { rm_epoch : Z; rm_start : Z; rm_old : option string; rm_new : option string }.

Record log := Log {
  meta : list (Z * block_hashes);      (** sync_meta, by rising block *)
  epochs : gmap Z epoch_row;           (** merkle_epochs *)
  markers : list reorg_marker;         (** merkle_reorgs *)
  faults : list bool;                  (** which of the next queries fail *)
  prunedTo : Z }.

Definition set_meta v s := Log v (epochs s) (markers s) (faults s) (prunedTo s).
Definition set_epochs v s := Log (meta s) v (markers s) (faults s) (prunedTo s).
Definition set_markers v s := Log (meta s) (epochs s) v (faults s) (prunedTo s).
Definition set_faults v s := Log (meta s) (epochs s) (markers s) v (prunedTo s).
Definition set_prunedTo v s := Log (meta s) (epochs s) (markers s) (faults s) v.

(** [doQuery] outside a transaction: a failed read is no rows, a failed write nothing. *)
Definition softRead {A} (none : A) (f : log -> A) (s : log) : A * log :=
  match faults s with
  | [] => (f s, s)
  | bad :: rest => (if bad : bool then none else f s, set_faults rest s)
  end.
Definition softUpdate (f : log -> log) (s : log) : log :=
  match faults s with
  | [] => f s
  | bad :: rest => if bad : bool then set_faults rest s else f (set_faults rest s)
  end.

Fixpoint meta_insert (b : Z) (h : block_hashes) (l : list (Z * block_hashes)) : list (Z * block_hashes) :=
  match l with
  | [] => [(b, h)]
  | (b', h') :: l' => if b <? b' then (b, h) :: l else if b =? b' then l else (b', h') :: meta_insert b h l'
  end.
Definition recordSyncMetaHashes (b : Z) (h : block_hashes) : log -> log := softUpdate (fun s => set_meta (meta_insert b h (meta s)) s).
Definition between (lo hi : Z) (l : list (Z * block_hashes)) : list (Z * block_hashes) :=
  List.filter (fun p => (lo <=? fst p) && (fst p <=? hi)) l.
Definition findSyncMetaLeaves (lo hi : Z) : log -> list (Z * block_hashes) * log := softRead [] (fun s => between lo hi (meta s)).
Definition findMerkleEpochId (k : Z) : log -> bool * log := softRead false (fun s => bool_decide (is_Some (epochs s !! k))).
Definition insertMerkleEpoch (k : Z) (e : epoch_row) : log -> log := softUpdate (fun s => set_epochs (<[k := e]> (epochs s)) s).
Definition pending (k : Z) (m : reorg_marker) : bool := (rm_epoch m =? k) && match rm_new m with None => true | Some _ => false end.
Definition backfillReorgMarkerRoot (root : option string) (k : Z) : log -> log :=
  softUpdate (fun s => set_markers (map (fun m => if pending k m then ReorgMarker (rm_epoch m) (rm_start m) (rm_old m) root else m) (markers s)) s).
Definition min_start (l : list reorg_marker) : option Z :=
  fold_right (fun m acc => Some (match acc with None => rm_start m | Some z => Z.min (rm_start m) z end)) None l.
Definition findPendingReorgMarkerStart (k : Z) : log -> option Z * log :=
  softRead None (fun s => min_start (List.filter (pending k) (markers s))).
Definition findPendingReorgMarker (k : Z) : log -> bool * log := softRead false (fun s => existsb (pending k) (markers s)).
Definition insertReorgMarker (k : Z) (e : epoch_row) : log -> log :=
  softUpdate (fun s => set_markers (markers s ++ [ReorgMarker k (start_block e) (merkle_root e) None]) s).
Definition findEpochsEndingAtOrAfter (b : Z) : log -> list (Z * epoch_row) * log :=
  softRead [] (fun s => List.filter (fun p => b <=? end_block (snd p)) (map_to_list (epochs s))).
Definition deleteEpochsEndingAtOrAfter (b : Z) : log -> log :=
  softUpdate (fun s => set_epochs (filter (fun p => end_block p.2 < b) (epochs s)) s).
Definition deleteSyncMetaFrom (b : Z) : log -> log := softUpdate (fun s => set_meta (List.filter (fun p => fst p <? b) (meta s)) s).
Definition deleteSyncMetaThrough (b : Z) : log -> log :=
  softUpdate (fun s => set_prunedTo (Z.max (prunedTo s) b) (set_meta (List.filter (fun p => b <? fst p) (meta s)) s)).
Definition deleteMerkleEpoch (k : Z) : log -> log := softUpdate (fun s => set_epochs (delete k (epochs s)) s).
Definition getMerkleEpoch (k : Z) : log -> option epoch_row * log := softRead None (fun s => epochs s !! k).
Definition getSyncMetaTip : log -> option Z * log := softRead None (fun s => fst <$> last (meta s)).
(** [SELECT MAX(end_block) ... WHERE end_block <= cutoff] *)
Definition highest_end (cutoff : Z) (m : gmap Z epoch_row) : option Z :=
  map_fold (fun _ e acc => if end_block e <=? cutoff then Some (match acc with None => end_block e | Some z => Z.max z (end_block e) end) else acc) None m.
Definition getHighestEpochEndAtOrBelow (cutoff : Z) : log -> option Z * log := softRead None (fun s => highest_end cutoff (epochs s)).
Definition countEpochsStraddling (b : Z) : log -> nat * log :=
  softRead O (fun s => length (List.filter (fun p => (start_block (snd p) <=? b) && (b <? end_block (snd p))) (map_to_list (epochs s)))).

(** ** transparency_log.js *)
Section Log.
Context `{HashFn}.
Variable epochSize : Z.
Variable readOnly : bool.
Variable retentionBlocks retentionFloor : Z.

Definition leaf_of (p : Z * block_hashes) : string := let '(l, a, c) := snd p in computeLeaf l a c.

Definition reorgedLeavesTruncated (k firstLeaf : Z) (s : log) : bool * log :=
  let '(start, s) := findPendingReorgMarkerStart k s in
  (match start with None => false | Some z => negb (firstLeaf <=? z) end, s).

Definition commitEpoch (k : Z) (s : log) : log :=
  if readOnly then s
  else
    let startBlock := (k - 1) * epochSize + 1 in
    let endBlock := k * epochSize in
    let '(existing, s) := findMerkleEpochId k s in
    if existing : bool then s
    else
      let '(rows, s) := findSyncMetaLeaves startBlock endBlock s in
      match rows, last rows with
      | first :: _, Some final =>
          let '(truncated, s) := reorgedLeavesTruncated k (fst first) s in
          if truncated : bool then s
          else
            let leaves := map leaf_of rows in
            match (buildTree leaves).1 with
            | None => s
            | Some root =>
                backfillReorgMarkerRoot (Some root) k
                  (insertMerkleEpoch k (EpochRow (fst first) (fst final) (Some root) (length leaves)) s)
            end
      | _, _ => s
      end.

Definition flooredWindow (keep : Z) : Z := Z.max keep retentionFloor.
Definition pruneSyncMeta (s : log) : log :=
  if retentionBlocks <=? 0 then s
  else if readOnly then s
  else
    let keep := flooredWindow retentionBlocks in
    let '(tip, s) := getSyncMetaTip s in
    match tip with
    | None => s
    | Some tip =>
        let cutoff := tip - keep in
        if cutoff <? 1 then s
        else
          let '(boundary, s) := getHighestEpochEndAtOrBelow cutoff s in
          match boundary with
          | None => s
          | Some boundary =>
              if boundary <? 1 then s
              else
                let '(straddling, s) := countEpochsStraddling boundary s in
                if Nat.ltb 0 straddling then s else deleteSyncMetaThrough boundary s
          end
    end.

Definition recordBlock (b : Z) (h : block_hashes) (s : log) : log :=
  if readOnly then s
  else
    let s := recordSyncMetaHashes b h s in
    if (0 <? b) && (b mod epochSize =? 0) then
      let s := commitEpoch (b / epochSize) s in
      if 0 <? retentionBlocks then pruneSyncMeta s else s
    else s.

Definition mark_step (s : log) (p : Z * epoch_row) : log :=
  let '(already, s) := findPendingReorgMarker (fst p) s in
  if already : bool then s else insertReorgMarker (fst p) (snd p) s.
(** The heights at or above [b] are to be recorded again. *)
Definition pruneFrom (b : Z) (s : log) : log :=
  if readOnly then s
  else
    let '(invalidated, s) := findEpochsEndingAtOrAfter b s in
    let s := fold_left mark_step invalidated s in
    let s := deleteSyncMetaFrom b (deleteEpochsEndingAtOrAfter b s) in
    set_prunedTo (Z.min (prunedTo s) (b - 1)) s.

Definition recommitEpoch (k : Z) (highWaterMark : option Z) (s : log) : log :=
  if readOnly then s
  else if match highWaterMark with Some hw => hw <? k * epochSize | None => false end then s
  else commitEpoch k (deleteMerkleEpoch k s).

(** The answer to a proof request. *)
Inductive answer :=
| NotAvailable
| Refused (why : string)
| Proof (epoch : Z) (leaf : string) (merkleRoot : option string) (proof : option (list (string * position))) (verified : bool).

Fixpoint leaf_index (b : Z) (l : list (Z * block_hashes)) : option nat :=
  match l with
  | [] => None
  | p :: l' => if fst p =? b then Some O else option_map S (leaf_index b l')
  end.

Definition getProof (b : Z) (s : log) : answer :=
  if b <? 1 then NotAvailable
  else
    let k := (b + epochSize - 1) / epochSize in
    let '(e, s) := getMerkleEpoch k s in
    match e with
    | None => Refused "epoch not yet committed"
    | Some e =>
        let '(rows, s) := findSyncMetaLeaves (start_block e) (end_block e) s in
        match rows with
        | [] => NotAvailable
        | _ =>
            if negb (Nat.eqb (length rows) (leaf_count e)) then Refused "epoch leaves incomplete"
            else match leaf_index b rows with
                 | None => Refused "block not found in epoch"
                 | Some i =>
                     let leaves := map leaf_of rows in
                     let tree := buildTree leaves in
                     let leaf := default "" (leaves !! i) in
                     let proof := generateProof tree.2 i in
                     Proof k leaf (merkle_root e) proof (verifyProof leaf proof (merkle_root e))
                 end
        end
    end.

(** ** Runs *)
Inductive log_event :=
| Record (b : Z) (h : block_hashes)
| PruneFrom (b : Z)
| Recommit (k : Z) (highWaterMark : option Z).
Definition log_step (s : log) (x : log_event) : log :=
  match x with
  | Record b h => recordBlock b h s
  | PruneFrom b => pruneFrom b s
  | Recommit k hw => recommitEpoch k hw s
  end.
Definition empty_log (fs : list bool) : log := Log [] ∅ [] fs (-1).
Definition run_log (xs : list log_event) (s : log) : log := fold_left log_step xs s.

(** No block whose leaf retention removed is recorded again. *)
Fixpoint not_rerecorded (xs : list log_event) (s : log) : Prop :=
  match xs with
  | [] => True
  | x :: rest => match x with Record b _ => prunedTo s < b | _ => True end /\ not_rerecorded rest (log_step s x)
  end.

(** ** The invariant *)
Fixpoint ascending (lo : Z) (l : list (Z * block_hashes)) : Prop :=
  match l with
  | [] => True
  | p :: l' => lo < fst p /\ ascending (fst p) l'
  end.
Lemma ascending_weaken lo lo' l : lo' <= lo -> ascending lo l -> ascending lo' l.
Proof. destruct l as [|p l]; cbn; [done|]. intros ? [? ?]. split; [lia|done]. Qed.
Lemma ascending_lt lo l p : ascending lo l -> p ∈ l -> lo < fst p.
Proof.
  revert lo; induction l as [|q l IH]; intros lo Hr Hin; [by apply not_elem_of_nil in Hin|].
  destruct Hr as [Hi Hr]. apply elem_of_cons in Hin as [->|Hin]; [done|]. specialize (IH _ Hr Hin). lia.
Qed.
Lemma ascending_filter lo f l : ascending lo l -> ascending lo (List.filter f l).
Proof.
  revert lo; induction l as [|p l IH]; intros lo Hr; cbn; [done|]. destruct Hr as [Hp Hr].
  case_match; [split; [done|by apply IH]|]. apply IH. eapply ascending_weaken; [|done]. lia.
Qed.
Lemma insert_ascending lo b h l : lo < b -> ascending lo l -> ascending lo (meta_insert b h l).
Proof.
  revert lo; induction l as [|[b' h'] l IH]; intros lo Hb Hr; cbn [meta_insert]; [by cbn|]. destruct Hr as [Hp Hr]. cbn in Hp, Hr.
  destruct (Z.ltb_spec b b'); [cbn; by split|]. destruct (Z.eqb_spec b b'); [by cbn|]. cbn. split; [done|]. apply IH; [lia|done].
Qed.
Lemma insert_sublist b h l : sublist l (meta_insert b h l).
Proof.
  induction l as [|[b' h'] l IH]; cbn [meta_insert]; [apply sublist_nil_l|].
  repeat case_match; [by apply sublist_cons|done|by apply sublist_skip].
Qed.
Lemma lfilter_lfilter {A} (f g : A -> bool) (l : list A) : (forall x, f x = true -> g x = true) -> List.filter f (List.filter g l) = List.filter f l.
Proof.
  intros Hfg. induction l as [|x l IH]; cbn; [done|]. destruct (g x) eqn:Eg; cbn; [by rewrite IH|].
  rewrite IH. destruct (f x) eqn:Ef; [|done]. by rewrite (Hfg x Ef) in Eg.
Qed.

(** The rows an epoch was committed over are still there, or retention removed all. *)
Definition epoch_ok (s : log) (e : epoch_row) : Prop :=
  end_block e <= prunedTo s
  \/ exists L, sublist L (between (start_block e) (end_block e) (meta s))
       /\ leaf_count e = length L /\ merkle_root e = (buildTree (map leaf_of L)).1.
Record intact (s : log) : Prop := {
  l_faults : faults s = [];
  l_rising : exists lo, ascending lo (meta s);
  l_pruned : forall p, p ∈ meta s -> prunedTo s < fst p;
  l_epochs : forall k e, epochs s !! k = Some e -> epoch_ok s e;
}.

Lemma intact_markers m s : intact s -> intact (set_markers m s).
Proof. intros [A B C D]. by split. Qed.
Lemma read_ok {A} (none : A) f s : faults s = [] -> softRead none f s = (f s, s).
Proof. intros E. unfold softRead. by rewrite E. Qed.
Lemma update_ok f s : faults s = [] -> softUpdate f s = f s.
Proof. intros E. unfold softUpdate. by rewrite E. Qed.

Lemma between_in lo hi l p : p ∈ between lo hi l <-> p ∈ l /\ lo <= fst p <= hi.
Proof. unfold between. rewrite elem_of_lfilter. rewrite andb_true_iff, !Z.leb_le. done. Qed.

(** The rows of a committed range, all within the first and the last. *)
Lemma rows_between lo l first rest final : ascending lo l -> (exists a b, first :: rest = between a b l) -> last (first :: rest) = Some final ->
  sublist (first :: rest) (between (fst first) (fst final) l) /\ first :: rest = between (fst first) (fst final) (first :: rest).
Proof.
  intros Hr (a & b & E) Hf. assert (ascending lo (first :: rest)) as Hr' by (rewrite E; by apply ascending_filter).
  assert (forall p, p ∈ first :: rest -> fst first <= fst p <= fst final) as Hb.
  { clear E. cbn in Hr'. destruct Hr' as [_ Hr']. intros p Hp. split.
    - apply elem_of_cons in Hp as [->|Hp]; [lia|]. pose proof (ascending_lt _ _ _ Hr' Hp). lia.
    - revert first p Hr' Hf Hp. induction rest as [|q rest IH]; intros first p Hr' Hf Hp.
      + apply list_elem_of_singleton in Hp as ->. injection Hf as ->. lia.
      + destruct Hr' as [Hq Hr']. rewrite last_cons_cons in Hf. apply elem_of_cons in Hp as [->|Hp].
        * specialize (IH q q Hr' Hf ltac:(left)). lia.
        * by apply (IH q). }
  assert (between (fst first) (fst final) (first :: rest) = first :: rest) as Eb.
  { apply lfilter_all. intros p Hp. specialize (Hb p Hp). by rewrite andb_true_iff, !Z.leb_le. }
  split; [|done]. rewrite <- Eb at 1. apply sublist_lfilter. rewrite E. apply sublist_lfilter_self.
Qed.

Lemma commit_intact k s : intact s -> intact (commitEpoch k s)
  /\ meta (commitEpoch k s) = meta s /\ prunedTo (commitEpoch k s) = prunedTo s.
Proof.
  intros Hi. pose proof Hi as [Hf [lo Hr] Hp He]. unfold commitEpoch. destruct readOnly; [done|].
  unfold findMerkleEpochId. rewrite read_ok by done. case_match; [done|]. unfold findSyncMetaLeaves. rewrite read_ok by done.
  destruct (between _ _ (meta s)) as [|first rest] eqn:Eb; [done|]. destruct (last (first :: rest)) as [final|] eqn:El; [|done].
  unfold reorgedLeavesTruncated, findPendingReorgMarkerStart. rewrite read_ok by done. case_match; [done|].
  destruct (buildTree (map leaf_of (first :: rest))).1 as [root|] eqn:Et; [|done].
  unfold backfillReorgMarkerRoot, insertMerkleEpoch. rewrite (update_ok _ s) by done. rewrite update_ok by done.
  split; [|done]. apply intact_markers. split; [done|by exists lo|done|]. cbn. intros k' e Hk.
  destruct (decide (k' = k)) as [->|Hne]; [|rewrite lookup_insert_ne in Hk by done; by apply (He k')].
  rewrite lookup_insert_eq in Hk. injection Hk as <-. right. exists (first :: rest). cbn [start_block end_block leaf_count merkle_root meta set_epochs].
  destruct (rows_between lo (meta s) first rest final Hr ltac:(by eexists _, _) El) as [Hs _].
  split; [done|]. split; [by rewrite length_map|done].
Qed.

Lemma epoch_ok_same s s' e : prunedTo s' = prunedTo s -> meta s' = meta s -> epoch_ok s e -> epoch_ok s' e.
Proof. unfold epoch_ok. by intros -> ->. Qed.

Lemma record_intact b h s : prunedTo s < b -> intact s -> intact (recordSyncMetaHashes b h s).
Proof.
  intros Hb [Hf [lo Hr] Hp He]. unfold recordSyncMetaHashes. rewrite update_ok by done. split; cbn; [done| | |].
  - exists (Z.min lo (b - 1)). apply insert_ascending; [lia|]. eapply ascending_weaken; [|done]. lia.
  - intros p Hin. assert (p ∈ meta s \/ p = (b, h)) as [?| ->]; [|by apply Hp|done].
    revert Hin. clear. induction (meta s) as [|[b' h'] l IH]; cbn [meta_insert]; [rewrite list_elem_of_singleton; by right|].
    repeat case_match; rewrite ?elem_of_cons; naive_solver.
  - intros k e Hk. destruct (He k e Hk) as [?|(L & HL & Hc & Hm)]; [by left|]. right. exists L. split; [|done].
    etransitivity; [exact HL|]. apply sublist_lfilter, insert_sublist.
Qed.

Lemma highest_end_spec cutoff m b : highest_end cutoff m = Some b -> b <= cutoff.
Proof.
  unfold highest_end. revert b. apply (map_fold_weak_ind (fun acc _ => forall b, acc = Some b -> b <= cutoff)); [done|].
  intros k e m' acc _ IH b. destruct (Z.leb_spec (end_block e) cutoff); [|apply IH]. intros [= <-].
  destruct acc as [z|]; [|done]. specialize (IH z eq_refl). lia.
Qed.

Lemma prune_meta_intact s : intact s -> intact (pruneSyncMeta s).
Proof.
  intros Hi. pose proof Hi as [Hf [lo Hr] Hp He]. unfold pruneSyncMeta. case_match; [done|]. destruct readOnly; [done|]. cbv zeta.
  unfold getSyncMetaTip. rewrite read_ok by done. case_match; [|done]. case_match; [done|].
  unfold getHighestEpochEndAtOrBelow. rewrite read_ok by done. destruct (highest_end _ (epochs s)) as [bd|]; [|done]. case_match; [done|].
  unfold countEpochsStraddling. rewrite read_ok by done. destruct (Nat.ltb_spec 0 (length (List.filter (fun p => (start_block (snd p) <=? bd) && (bd <? end_block (snd p))) (map_to_list (epochs s))))) as [|Hz]; [done|].
  unfold deleteSyncMetaThrough. rewrite update_ok by done. split; cbn; [done|exists lo; by apply ascending_filter| |].
  - intros p [Hin Hlt%Z.ltb_lt]%elem_of_lfilter. specialize (Hp p Hin). lia.
  - intros k e Hk. destruct (Z.le_gt_cases (end_block e) bd) as [Hle|Hgt]; [left; cbn; lia|].
    assert (bd < start_block e) as Hst.
    { destruct (Z.le_gt_cases (start_block e) bd) as [Hs|]; [|lia]. exfalso.
      assert ((k, e) ∈ List.filter (fun p => (start_block (snd p) <=? bd) && (bd <? end_block (snd p))) (map_to_list (epochs s))) as Hin.
      { apply elem_of_lfilter. split; [by apply elem_of_map_to_list|]. cbn. by rewrite andb_true_iff, Z.leb_le, Z.ltb_lt. }
      destruct (List.filter _ _); [by apply not_elem_of_nil in Hin|]. cbn in Hz. lia. }
    destruct (He k e Hk) as [?|(L & HL & Hc & Hm)]; [left; cbn; lia|]. right. exists L. split; [|done]. cbn [meta set_prunedTo set_meta].
    unfold between. rewrite lfilter_lfilter; [done|]. intros x [?%Z.leb_le _]%andb_true_iff. apply Z.ltb_lt. lia.
Qed.

Lemma prune_from_intact b s : intact s -> intact (pruneFrom b s).
Proof.
  intros Hi. unfold pruneFrom. destruct readOnly; [done|]. unfold findEpochsEndingAtOrAfter. rewrite read_ok by apply Hi.
  assert (forall l s0, intact s0 -> intact (fold_left mark_step l s0)) as Hmark.
  { clear. induction l as [|p l IH]; intros s0 Hi; cbn [fold_left]; [done|]. apply IH. unfold mark_step, findPendingReorgMarker.
    rewrite read_ok by apply Hi. case_match; [done|]. unfold insertReorgMarker. rewrite update_ok by apply Hi. by apply intact_markers. }
  cbv zeta. apply (Hmark (List.filter (fun p => b <=? end_block (snd p)) (map_to_list (epochs s)))) in Hi. revert Hi.
  generalize (fold_left mark_step (List.filter (fun p => b <=? end_block (snd p)) (map_to_list (epochs s))) s). clear s. intros s Hi.
  destruct Hi as [Hf [lo Hr] Hp He]. unfold deleteEpochsEndingAtOrAfter. rewrite (update_ok _ s) by done.
  unfold deleteSyncMetaFrom. rewrite update_ok by done. split; cbn; [done|exists lo; by apply ascending_filter| |].
  - intros p [Hin _]%elem_of_lfilter. specialize (Hp p Hin). lia.
  - intros k e [Hk Hlt]%map_lookup_filter_Some. cbn in Hlt. destruct (He k e Hk) as [?|(L & HL & Hc & Hm)]; [left; cbn; lia|].
    right. exists L. split; [|done]. cbn [meta set_prunedTo set_meta set_epochs].
    unfold between. rewrite lfilter_lfilter; [done|]. intros x [_ ?%Z.leb_le]%andb_true_iff. apply Z.ltb_lt. lia.
Qed.

Lemma step_intact x s : match x with Record b _ => prunedTo s < b | _ => True end -> intact s -> intact (log_step s x).
Proof.
  intros Hx Hi. destruct x as [b h|b|k hw]; cbn [log_step].
  - unfold recordBlock. case_match; [done|]. pose proof (record_intact b h s Hx Hi) as J1. case_match; [|done].
    destruct (commit_intact (b / epochSize) _ J1) as [J2 _]. case_match; [by apply prune_meta_intact|done].
  - by apply prune_from_intact.
  - unfold recommitEpoch. case_match; [done|]. case_match; [done|]. apply commit_intact.
    unfold deleteMerkleEpoch. rewrite update_ok by apply Hi. destruct Hi as [Hf Hr Hp He]. split; [done..|].
    cbn. intros k' e [_ Hk]%lookup_delete_Some. by apply (He k').
Qed.
Lemma run_intact xs : forall s, not_rerecorded xs s -> intact s -> intact (run_log xs s).
Proof.
  induction xs as [|x xs IH]; intros s Hx Hi; [done|]. destruct Hx as [Hx Hxs]. apply IH; [done|]. by apply step_intact.
Qed.
Lemma empty_intact : intact (empty_log []).
Proof. split; cbn; [done|by exists 0| |]; [by intros p ?%not_elem_of_nil|]. intros k e Hk. by rewrite lookup_empty in Hk. Qed.

(** ** Proofs *)
Lemma leaf_index_spec b l i : leaf_index b l = Some i -> exists h, l !! i = Some (b, h).
Proof.
  revert i; induction l as [|[b' h] l IH]; intros i; cbn [leaf_index fst]; [done|].
  destruct (Z.eqb_spec b' b) as [->|]; [intros [= <-]; by exists h|].
  destruct (leaf_index b l) as [j|]; [|done]. intros [= <-]. by apply IH.
Qed.
Lemma leaf_of_nonempty p : leaf_of p <> "".
Proof. destruct p as [b [[l a] c]]. apply sha_hex_nonempty. Qed.

(** A proof over the rows the root was committed from verifies. *)
Lemma rows_prove rows i p root : rows !! i = Some p -> root = (buildTree (map leaf_of rows)).1 ->
  verifyProof (default "" (map leaf_of rows !! i)) (generateProof (buildTree (map leaf_of rows)).2 i) root = true.
Proof.
  intros Hi ->. assert (map leaf_of rows !! i = Some (leaf_of p)) as Hl by (by rewrite list_lookup_fmap, Hi).
  destruct (buildTree_proves (map leaf_of rows) i (leaf_of p) Hl (leaf_of_nonempty p)) as (root & -> & Hv). by rewrite Hl.
Qed.

(** A fail-soft read answers, or gives its default; the tables stay. *)
Lemma read_soft {A} (none : A) f s : exists s', meta s' = meta s /\ epochs s' = epochs s
  /\ (softRead none f s = (f s, s') \/ softRead none f s = (none, s')).
Proof. unfold softRead. destruct (faults s) as [|[] fs]; eexists; split_and!; try by (left + right). all: done. Qed.

(** What an answer is made of, whatever reads fail. *)
Lemma proof_shape b s : match getProof b s with
  | Proof k leaf root proof verified => exists e rows i h, k = (b + epochSize - 1) / epochSize /\ epochs s !! k = Some e /\ root = merkle_root e
      /\ rows = between (start_block e) (end_block e) (meta s) /\ length rows = leaf_count e /\ rows !! i = Some (b, h)
      /\ leaf = leaf_of (b, h) /\ proof = generateProof (buildTree (map leaf_of rows)).2 i /\ verified = verifyProof leaf proof root
  | _ => True
  end.
Proof.
  unfold getProof. destruct (b <? 1); [done|]. cbv zeta. unfold getMerkleEpoch.
  destruct (read_soft None (fun s => epochs s !! ((b + epochSize - 1) / epochSize)) s) as (s1 & Hm1 & _ & [-> | ->]); [|done].
  destruct (epochs s !! ((b + epochSize - 1) / epochSize)) as [e|] eqn:Ee; [|done]. unfold findSyncMetaLeaves.
  destruct (read_soft [] (fun s => between (start_block e) (end_block e) (meta s)) s1) as (s2 & _ & _ & [-> | ->]); [|done]. rewrite Hm1.
  destruct (between _ _ (meta s)) as [|p rows] eqn:Eb; [done|].
  destruct (Nat.eqb_spec (length (p :: rows)) (leaf_count e)) as [Hl|]; [cbn [negb]|done].
  destruct (leaf_index b (p :: rows)) as [i|] eqn:Ei; [|done]. apply leaf_index_spec in Ei as [h Hh].
  exists e, (p :: rows), i, h. rewrite list_lookup_fmap, Hh. by rewrite Eb.
Qed.

(** C34.  What the log serves.  After any history of recorded blocks, reorg prunes, epoch
    re-commits and retention sweeps, with any queries failing softly, a request for a block
    is refused or answered with the leaf of the hashes recorded for that very block, the
    committed root of its epoch, a path, and the truth of whether the path verifies.  The
    path does verify when no query failed before the request and no block is recorded again
    at a height whose leaf retention removed. *)
Theorem transparency_proofs_verify fs xs b :
  let s := run_log xs (empty_log fs) in
  match getProof b s with
  | Proof k leaf root proof verified =>
      verified = verifyProof leaf proof root
      /\ (exists h, (b, h) ∈ meta s /\ leaf = leaf_of (b, h))
      /\ (exists e, epochs s !! k = Some e /\ merkle_root e = root /\ k = (b + epochSize - 1) / epochSize)
      /\ (fs = [] -> not_rerecorded xs (empty_log []) -> verified = true)
  | _ => True
  end.
Proof.
  cbv zeta. pose proof (proof_shape b (run_log xs (empty_log fs))) as Hp. destruct (getProof b _) as [| |k leaf root proof verified]; [done..|].
  destruct Hp as (e & rows & i & h & Hk & He & Hroot & Hrows & Hlen & Hi & Hleaf & Hproof & Hv).
  assert ((b, h) ∈ between (start_block e) (end_block e) (meta (run_log xs (empty_log fs)))) as [Hin _]%between_in.
  { rewrite <- Hrows. by eapply list_elem_of_lookup_2. }
  split; [done|]. split; [by exists h|]. split; [by exists e|]. intros -> Hx.
  assert (intact (run_log xs (empty_log []))) as [_ _ Hpr Hep] by (apply run_intact; [done|apply empty_intact]).
  assert (merkle_root e = (buildTree (map leaf_of rows)).1) as Hm.
  { destruct (Hep _ e He) as [Hpruned|(L & HL & Hc & Hm)].
    - apply list_elem_of_lookup_2 in Hi. rewrite Hrows in Hi. apply between_in in Hi as [Hi ?]. specialize (Hpr _ Hi). lia.
    - rewrite <- Hrows in HL. by rewrite (sublist_same_length L rows HL) in Hm by congruence. }
  pose proof (rows_prove rows i (b, h) (merkle_root e) Hi Hm) as Hvp. rewrite list_lookup_fmap, Hi in Hvp. by subst.
Qed.

Lemma not_rerecorded_app xs x : forall s, not_rerecorded (xs ++ [x]) s ->
  not_rerecorded xs s /\ not_rerecorded [x] (run_log xs s).
Proof. induction xs as [|y xs IH]; intros s; cbn [app not_rerecorded]; [done|]. intros [Hy Hr]. apply IH in Hr as [? ?]. done. Qed.
Lemma leaf_index_none b h l : leaf_index b l = None -> (b, h) ∈ l -> False.
Proof.
  induction l as [|[b' h'] l IH]; cbn [leaf_index fst]; [by intros _ ?%not_elem_of_nil|].
  destruct (Z.eqb_spec b' b); [done|]. destruct (leaf_index b l); [done|]. intros _ [[= -> ->]|?]%elem_of_cons; [done|by apply IH].
Qed.
Lemma ascending_unique lo l b h h' : ascending lo l -> (b, h) ∈ l -> (b, h') ∈ l -> h = h'.
Proof.
  revert lo; induction l as [|p l IH]; intros lo Hr H1 H2; [by apply not_elem_of_nil in H1|]. destruct Hr as [_ Hr].
  apply elem_of_cons in H1 as [<-|H1], H2 as [E|H2]; [congruence| | |by eapply IH].
  - pose proof (ascending_lt _ _ _ Hr H2). cbn in *. lia.
  - subst p. pose proof (ascending_lt _ _ _ Hr H1). cbn in *. lia.
Qed.

(** Committing an epoch that can be committed. *)
Lemma commit_closed k s p : intact s -> readOnly = false -> epochs s !! k = None -> List.filter (pending k) (markers s) = [] ->
  p ∈ between ((k - 1) * epochSize + 1) (k * epochSize) (meta s) ->
  exists e root, epochs (commitEpoch k s) !! k = Some e /\ merkle_root e = Some root
    /\ leaf_count e = length (between (start_block e) (end_block e) (meta s)) /\ p ∈ between (start_block e) (end_block e) (meta s).
Proof.
  intros Hi Hro Hn Hm Hp. pose proof Hi as [Hf [lo Hr] _ _]. unfold commitEpoch. rewrite Hro.
  unfold findMerkleEpochId. rewrite read_ok by done. rewrite bool_decide_eq_false_2 by (rewrite Hn; by intros [? ?]).
  unfold findSyncMetaLeaves. rewrite read_ok by done.
  destruct (between _ _ (meta s)) as [|first rest] eqn:Eb; [by apply not_elem_of_nil in Hp|].
  destruct (last (first :: rest)) as [final|] eqn:El; [|by apply last_None in El].
  unfold reorgedLeavesTruncated, findPendingReorgMarkerStart. rewrite read_ok by done. rewrite Hm. cbn [min_start fold_right].
  destruct (buildTree_proves (map leaf_of (first :: rest)) 0 (leaf_of first) eq_refl (leaf_of_nonempty first)) as (root & -> & _).
  unfold backfillReorgMarkerRoot, insertMerkleEpoch. rewrite (update_ok _ s) by done. rewrite update_ok by done.
  exists (EpochRow (fst first) (fst final) (Some root) (length (map leaf_of (first :: rest)))), root.
  split; [cbn; by rewrite lookup_insert_eq|]. split; [done|]. cbn [leaf_count start_block end_block]. rewrite length_map.
  destruct (rows_between lo (meta s) first rest final Hr ltac:(by eexists _, _) El) as [Hs He].
  assert (first :: rest = between (fst first) (fst final) (meta s)) as Hall.
  { rewrite <- Eb in *. rewrite He at 1. unfold between. rewrite lfilter_lfilter; [done|].
    intros x [?%Z.leb_le ?%Z.leb_le]%andb_true_iff. rewrite andb_true_iff, !Z.leb_le.
    assert (first ∈ between ((k - 1) * epochSize + 1) (k * epochSize) (meta s)) as [_ ?]%between_in by (rewrite Eb; left).
    assert (final ∈ between ((k - 1) * epochSize + 1) (k * epochSize) (meta s)) as [_ ?]%between_in by (by apply last_Some_elem_of).
    lia. }
  rewrite <- Hall. done.
Qed.

(**  A closed epoch is provable.  When the last block of an epoch that is not yet
    committed is recorded (with no reorg marker pending for it, and retention off),
    every block recorded in the epoch is answered with a proof that verifies. *)
Theorem closed_epoch_provable xs k h b hb :
  0 < epochSize -> 0 < k -> readOnly = false -> retentionBlocks <= 0 ->
  not_rerecorded (xs ++ [Record (k * epochSize) h]) (empty_log []) ->
  let s := run_log xs (empty_log []) in
  epochs s !! k = None -> List.filter (pending k) (markers s) = [] ->
  let s' := log_step s (Record (k * epochSize) h) in
  (b, hb) ∈ meta s' -> (k - 1) * epochSize < b <= k * epochSize ->
  exists root proof, getProof b s' = Proof k (leaf_of (b, hb)) (Some root) proof true.
Proof.
  intros Hs Hk Hro Hret Hx s Hn Hm s' Hin Hb.
  assert (not_rerecorded xs (empty_log []) /\ prunedTo s < k * epochSize) as [Hx1 Hfresh] by (by apply not_rerecorded_app in Hx as [? [? _]]).
  assert (intact s) as Hi by (apply run_intact; [done|apply empty_intact]).
  set (s1 := recordSyncMetaHashes (k * epochSize) h s).
  assert (intact s1) as Hi1 by (by apply record_intact).
  assert (epochs s1 = epochs s /\ markers s1 = markers s) as [E1 E2] by (unfold s1, recordSyncMetaHashes; by rewrite update_ok by apply Hi).
  assert (s' = commitEpoch k s1) as Es.
  { unfold s'. cbn [log_step]. unfold recordBlock. rewrite Hro. fold s1. rewrite Z_mod_mult. cbn [Z.eqb].
    rewrite (proj2 (Z.ltb_lt 0 (k * epochSize))), Z.div_mul by lia. cbn [andb]. by rewrite (proj2 (Z.ltb_ge 0 retentionBlocks)) by lia. }
  destruct (commit_intact k s1 Hi1) as (Hi' & Em & _). rewrite <- Es in Hi', Em.
  assert ((b, hb) ∈ between ((k - 1) * epochSize + 1) (k * epochSize) (meta s1)) as Hrow.
  { apply between_in. rewrite <- Em. split; [done|]. cbn. lia. }
  destruct (commit_closed k s1 (b, hb) Hi1 Hro ltac:(by rewrite E1) ltac:(by rewrite E2) Hrow) as (e & root & Ee & Er & Ec & Hbe).
  rewrite <- Es in Ee. exists root.
  unfold getProof. rewrite (proj2 (Z.ltb_ge b 1)) by nia. cbv zeta. unfold getMerkleEpoch. rewrite read_ok by apply Hi'.
  replace ((b + epochSize - 1) / epochSize) with k by (apply (Z.div_unique_pos _ _ _ (b + epochSize - 1 - epochSize * k)); nia).
  rewrite Ee. unfold findSyncMetaLeaves. rewrite read_ok by apply Hi'. rewrite Em.
  destruct (between (start_block e) (end_block e) (meta s1)) as [|p rows] eqn:Eb; [by apply not_elem_of_nil in Hbe|].
  rewrite Ec, Nat.eqb_refl. cbn [negb].
  pose proof (l_epochs _ Hi' k e Ee) as Hok.
  destruct (leaf_index b (p :: rows)) as [i|] eqn:Ei; [|by destruct (leaf_index_none b hb (p :: rows))].
  apply leaf_index_spec in Ei as [h' Hh].
  assert (h' = hb) as -> by (destruct (l_rising _ Hi1) as [lo Hr]; eapply (ascending_unique lo (meta s1) b); [done|..];
    eapply between_in; rewrite Eb; [by eapply list_elem_of_lookup_2|done]).
  eexists. rewrite Er. f_equal; [by rewrite list_lookup_fmap, Hh|].
  destruct Hok as [Hpr|(L & HL & Hc & Hmr)].
  - exfalso. assert ((b, hb) ∈ between (start_block e) (end_block e) (meta s1)) as [Hin1 ?]%between_in by (by rewrite Eb).
    rewrite <- Em in Hin1. pose proof (l_pruned _ Hi' _ Hin1). cbn in *. lia.
  - rewrite Em, Eb in HL. apply sublist_same_length in HL; [|congruence]. subst L. rewrite Er in Hmr.
    exact (rows_prove (p :: rows) i (b, hb) (Some root) Hh Hmr).
Qed.
End Log.

(** ** Examples: epochs of four blocks, over a toy digest. *)
Module Example.
Definition toy_digest (b : bytes) : bytes :=
  let n := fold_left (fun acc x => (acc * 31 + b2z x) mod 2 ^ 16) b 7 in [z2b n; z2b (n / 256)] ++ replicate 30 Byte.x00.
Lemma toy_digest_length b : length (toy_digest b) = 32%nat.
Proof. reflexivity. Qed.
#[local] Instance toy : HashFn := {| sha256 := toy_digest; sha256_length := toy_digest_length |}.

Definition hashes (l : string) : block_hashes := (Some l, Some "a", None).
(** Five blocks, a reorg at block 3, and the replacement blocks. *)
Definition history : list log_event :=
  [Record 1 (hashes "l1"); Record 2 (hashes "l2"); Record 3 (hashes "l3"); Record 4 (hashes "l4"); Record 5 (hashes "l5");
   PruneFrom 3; Record 3 (hashes "m3")].
Definition closing : log_event := Record 4 (hashes "m4").
Definition at_four (xs : list log_event) : log := run_log 4 false 0 0 xs (empty_log []).

Lemma history_fresh : not_rerecorded 4 false 0 0 (history ++ [closing]) (empty_log []).
Proof. repeat (split; [first [exact I | vm_compute; reflexivity]|]). exact I. Qed.

Definition answer_three : answer := Eval vm_compute in getProof 4 3 (at_four (history ++ [closing])).
Lemma answered : getProof 4 3 (at_four (history ++ [closing])) = answer_three.
Proof. vm_compute. reflexivity. Qed.
Lemma transparency_proofs_verify_witness :
  match answer_three with
  | Proof k leaf root proof verified => verified = true /\ verifyProof leaf proof root = true
  | _ => False
  end.
Proof.
  pose proof (transparency_proofs_verify 4 false 0 0 [] (history ++ [closing]) 3) as Hv. cbv zeta in Hv.
  change (run_log 4 false 0 0 (history ++ [closing]) (empty_log [])) with (at_four (history ++ [closing])) in Hv.
  rewrite answered in Hv. destruct Hv as (H1 & _ & _ & H2). specialize (H2 eq_refl history_fresh). split; [exact H2|]. rewrite <- H1. exact H2.
Defined.

(** Retention removes the leaves of epoch 1 and a reorg the ones above; the heights of the
    epoch are recorded again with other hashes, its root stays, and the answer says that the
    path does not verify. *)
Example rerecorded_answer_unverified :
  let s := run_log 4 false 2 0 (map (fun z => Record z (hashes "l")) [1; 2; 3; 4; 5; 6; 7; 8] ++ PruneFrom 5 :: map (fun z => Record z (hashes "m")) [1; 2; 3; 4]) (empty_log []) in
  match getProof 4 3 s with Proof _ _ _ _ verified => verified = false | _ => False end.
Proof. vm_compute. reflexivity. Qed.

Lemma closed_epoch_provable_witness : exists root proof,
  getProof 4 2 (log_step 4 false 0 0 (at_four (take 3 history)) (Record 4 (hashes "l4"))) = Proof 1 (leaf_of (2, hashes "l2")) (Some root) proof true.
Proof.
  apply (closed_epoch_provable 4 false 0 0 (take 3 history) 1 (hashes "l4") 2 (hashes "l2")).
  - lia.
  - lia.
  - reflexivity.
  - lia.
  - repeat (split; [first [exact I | vm_compute; reflexivity]|]). exact I.
  - vm_compute. reflexivity.
  - vm_compute. reflexivity.
  - apply list_elem_of_In. vm_compute. right. left. reflexivity.
  - lia.
Defined.

(** The delete of the invalidated epochs fails: the old root survives the reorg, the
    replacement blocks are recorded, and a proof that does not verify is served. *)
Lemma failed_prune_serves_bad_proof :
  match getProof 4 3 (run_log 4 false 0 0 [PruneFrom 3; Record 3 (hashes "m3"); Record 4 (hashes "m4")]
                        (set_faults [false; false; false; true] (at_four (take 4 history)))) with
  | Proof _ _ _ _ verified => verified = false
  | _ => False
  end.
Proof. vm_compute. reflexivity. Qed.

(** An odd last leaf and the same leaf written twice give one root. *)
Lemma odd_leaf_doubles a b c : (buildTree [a; b; c]).1 = (buildTree [a; b; c; c]).1.
Proof. reflexivity. Qed.
End Example.
