(* ===== verification/Poller.v ===== *)
(** * Poller: following a source database and announcing its blocks

    Models [src/src/server/poller.js] with its helpers [poller/reorg_window_seed.js]
    and [poller/retroactive_rewind.js]: the cursor over the source's blocks, the
    window of recently broadcast identities, the three ways a reorg of the source is
    noticed (REORG rows of the [events] table, a changed hash at the cursor, a
    falling tip), the walk back to the fork point, the forward stream under a read
    snapshot and the seeding of the window at a restart.  The repair of holes in the
    transparency log at a start ([backfillGaps]) is not modelled.

    The source is another process: between any two queries of the poller it may
    append blocks, roll back and write events ([moves], an arbitrary list).  A query
    may fail ([replies]): [Fault] is an error of the query itself, which a plain
    [doQuery] swallows as no rows and a strict one throws, [Down] is a connection
    that could not be taken, which always throws.  What subscribers receive is the
    list [sent] of messages; [view] is the chain a subscriber that applies them
    holds.  The rows a payload carries besides its hashes are not part of the model:
    [buildBlockPayload] is the header of the payload and one query that may fail. *)

From S2P Require Import Prelude Sha256 JsText JsNumber JsDouble Checkpoint TransparencyLog.

Inductive dbtype := Indexer | Decoder.
#[global] Instance dbtype_eq_dec : EqDecision dbtype.
Proof. solve_decision. Defined.

Inductive query_reply := Good | Fault | Down.

(** ** The source *)

(** A row of [getBlockHashRow]; the decoder's rows carry [block_hash]. *)
Record hash_row := HashRow {
  ledger_hash : option string;
  actions_hash : option string;
  contract_hash : option string;
  block_hash : option string }.

(** The [data] of an event: a plain value (the text itself when it is not JSON) or an
    object. *)
Inductive event_data := EvPlain (v : jsval) | EvObject (members : list (string * jsval)).
Record event_row := EventRow { code : string; data : event_data }.

(** The rows of [blocks] by height from [first]; the events by id from 1. *)
Record source := Source { blocks : list hash_row; events : list event_row }.

Inductive move :=
| Append (r : hash_row)
| Rollback (f : Z) (evs : list event_row)
| Event (e : event_row).

(** ** Messages to the subscribers *)
Record retro := Retro { target : Z; rules_to : string }.
Inductive message :=
| BlockMsg (block_index : Z) (identity : option string)
| ReorgMsg (block_index : Z) (retroactive : option retro).

(** The chain a subscriber holds after the messages, the last message first. *)
Fixpoint view (l : list message) : gmap Z (option string) :=
  match l with
  | [] => ∅
  | BlockMsg h i :: rest => <[h := i]> (view rest)
  | ReorgMsg f _ :: rest => filter (fun p => p.1 < f) (view rest)
  end.

Record poller := Poller {
  lastPolledBlock : option Z;
  lastPolledBlockHash : option string;
  lastEventId : option Z;
  reorgMarkerCursorInitialized : bool;
  recentBroadcastHashes : gmap Z (option string);
  transparencyLog : option log;
  sent : list message;
  src : source;
  moves : list (list move);
  replies : list query_reply }.

Definition set_cursor v s := Poller v (lastPolledBlockHash s) (lastEventId s) (reorgMarkerCursorInitialized s) (recentBroadcastHashes s) (transparencyLog s) (sent s) (src s) (moves s) (replies s).
Definition set_hash v s := Poller (lastPolledBlock s) v (lastEventId s) (reorgMarkerCursorInitialized s) (recentBroadcastHashes s) (transparencyLog s) (sent s) (src s) (moves s) (replies s).
Definition set_event v s := Poller (lastPolledBlock s) (lastPolledBlockHash s) v (reorgMarkerCursorInitialized s) (recentBroadcastHashes s) (transparencyLog s) (sent s) (src s) (moves s) (replies s).
Definition set_initialized v s := Poller (lastPolledBlock s) (lastPolledBlockHash s) (lastEventId s) v (recentBroadcastHashes s) (transparencyLog s) (sent s) (src s) (moves s) (replies s).
Definition set_recent v s := Poller (lastPolledBlock s) (lastPolledBlockHash s) (lastEventId s) (reorgMarkerCursorInitialized s) v (transparencyLog s) (sent s) (src s) (moves s) (replies s).
Definition set_log v s := Poller (lastPolledBlock s) (lastPolledBlockHash s) (lastEventId s) (reorgMarkerCursorInitialized s) (recentBroadcastHashes s) v (sent s) (src s) (moves s) (replies s).
Definition set_sent v s := Poller (lastPolledBlock s) (lastPolledBlockHash s) (lastEventId s) (reorgMarkerCursorInitialized s) (recentBroadcastHashes s) (transparencyLog s) v (src s) (moves s) (replies s).
Definition set_env c m r s := Poller (lastPolledBlock s) (lastPolledBlockHash s) (lastEventId s) (reorgMarkerCursorInitialized s) (recentBroadcastHashes s) (transparencyLog s) (sent s) c m r.

(** ** Statements over the state, with exceptions *)
Definition io (A : Type) : Type := poller -> poller * result A.
Definition ret {A} (a : A) : io A := fun s => (s, Ok a).
Definition fail {A} (e : string) : io A := fun s => (s, Throw e).
Definition gets {A} (f : poller -> A) : io A := fun s => (s, Ok (f s)).
Definition modify (f : poller -> poller) : io unit := fun s => (f s, Ok tt).
Definition bind {A B} (m : io A) (k : A -> io B) : io B :=
  fun s => match m s with (s', Ok a) => k a s' | (s', Throw e) => (s', Throw e) end.
Definition lift {A} (r : result A) : io A := fun s => (s, r).
(** [try { m } finally { await f }]: an exception of [f] replaces the outcome of [m]. *)
Definition finally {A} (m : io A) (f : io unit) : io A :=
  fun s => match m s with (s', r) => match f s' with (s'', Ok _) => (s'', r) | (s'', Throw e) => (s'', Throw e) end end.

Declare Scope io_scope.
Delimit Scope io_scope with io.
#[local] Notation "'let*' x := m 'in' k" := (bind m (fun x => k))
  (at level 200, x pattern, m at level 200, k at level 200) : io_scope.
#[local] Notation "m ;;; k" := (bind m (fun _ => k)) (at level 100, right associativity) : io_scope.
#[local] Open Scope io_scope.

Section Poller.
Context `{HashFn}.
(** The lowest height of the source, the database followed, the size of the window of
    recent identities, and the parameters of the transparency log. *)
Variable first : Z.
Variable dbType : dbtype.
Variable recentHashCap : Z.
Variable epochSize : Z.
Variable readOnly : bool.
Variables retentionBlocks retentionFloor : Z.

(** ** Reading the source *)
Definition row_at (c : source) (h : Z) : option hash_row := if h <? first then None else blocks c !! Z.to_nat (h - first).
Definition tip_of (c : source) : option Z :=
  match blocks c with [] => None | l => Some (first + Z.of_nat (length l) - 1) end.

Definition apply_move (c : source) (m : move) : source :=
  match m with
  | Append r => Source (blocks c ++ [r]) (events c)
  | Rollback f evs => Source (take (Z.to_nat (f - first)) (blocks c)) (events c ++ evs)
  | Event e => Source (blocks c) (events c ++ [e])
  end.

(** One query: the source moves on, then the reply arrives. *)
Definition query : io query_reply := fun s =>
  let c := fold_left apply_move (match moves s with [] => [] | l :: _ => l end) (src s) in
  (set_env c (tail (moves s)) (tail (replies s)) s, Ok (match replies s with [] => Good | r :: _ => r end)).
Definition softRead {A} (none : A) (f : source -> A) : io A :=
  let* r := query in
  match r with Good => gets (fun s => f (src s)) | Fault => ret none | Down => fail "no connection" end.
Definition strictRead {A} (f : source -> A) : io A :=
  let* r := query in
  match r with Good => gets (fun s => f (src s)) | Fault => fail "query failed" | Down => fail "no connection" end.

(** A method of the transparency log, which has its own faults. *)
Definition logCall (f : log -> log) : io unit :=
  let* l := gets transparencyLog in
  match l with
  | None => ret tt
  | Some _ =>
      let* r := query in
      match r with
      | Down => fail "no connection"
      | _ => modify (fun s => set_log (f <$> transparencyLog s) s)
      end
  end.
Definition logRead {A} (f : log -> A * log) (none : A) : io A :=
  let* r := query in
  match r with
  | Down => fail "no connection"
  | _ =>
      let* l := gets transparencyLog in
      match l with
      | None => ret none
      | Some l => modify (set_log (Some (f l).2)) ;;; ret (f l).1
      end
  end.

(** [TransparencyLog.blockIdentity] *)
Definition part (v : option string) : string := default "" v.
Definition blockIdentity (r : hash_row) : option string :=
  match ledger_hash r with
  | None => None
  | Some l => Some (l +:+ "|" +:+ part (actions_hash r) +:+ "|" +:+ part (contract_hash r))
  end.
Definition identity (r : hash_row) : option string :=
  match dbType with Decoder => block_hash r | Indexer => blockIdentity r end.
Definition source_id (c : source) (h : Z) : option string := row_at c h ≫= identity.

Definition getLastBlock_soft : io (option Z) := softRead None tip_of.
Definition getLastBlock_strict : io (option Z) := strictRead tip_of.
Definition sourceBlockHash (h : Z) : io (option string) := softRead None (fun c => source_id c h).

(** The reads behind [updateStatus]; the status itself is not part of the state. *)
Definition updateStatus (sourceBlockHeight : option Z) : io unit :=
  let* l := gets lastPolledBlock in
  (match l with Some n => if n =? 0 then ret tt else softRead tt (fun _ => tt) | None => ret tt end) ;;;
  (match sourceBlockHeight with Some _ => ret tt | None => softRead tt (fun _ => tt) end).

(** ** Events *)
Definition member (k : string) (l : list (string * jsval)) : jsval :=
  match List.find (fun p => bool_decide (p.1 = k)) l with Some p => p.2 | None => JUndef end.

Definition reorgMarkerBlock (e : event_row) : result Z :=
  let v := match data e with EvObject l => member "block_index" l | EvPlain v => v end in
  match safe_integer (js_number v) with
  | Some z => if z <? 1 then Throw "ServerPoller: invalid REORG marker" else Ok z
  | None => Throw "ServerPoller: invalid REORG marker"
  end.

(** [MAX(id)] of [events]. *)
Definition max_event_id (c : source) : option Z := match events c with [] => None | l => Some (Z.of_nat (length l)) end.
Definition readLatestEventId : io (option Z) :=
  match dbType with
  | Decoder => ret None
  | Indexer =>
      let* id := strictRead max_event_id in
      match id with
      | None => ret None
      | Some z => if (MAX_SAFE <? z) || (z <? 1) then fail "ServerPoller: invalid events cursor" else ret (Some z)
      end
  end.

(** [id > fromId AND id <= toId] *)
Definition id_window (fromId toId : Z) (c : source) : list event_row :=
  take (Z.to_nat (toId - fromId)) (drop (Z.to_nat fromId) (events c)).
Definition is_reorg (e : event_row) : bool := bool_decide (code e = "REORG").

Definition readNewReorgMarkers : io (list event_row * option Z) :=
  let* init := gets reorgMarkerCursorInitialized in
  let* seen := gets lastEventId in
  if negb init || bool_decide (dbType = Decoder) then ret ([], seen)
  else
    let* newest := readLatestEventId in
    match newest with
    | None => ret ([], None)
    | Some n =>
        if bool_decide (seen = Some n) then ret ([], Some n)
        else if match seen with Some z => n <? z | None => false end then fail "ServerPoller: events cursor moved backwards"
        else
          let* rows := strictRead (id_window (default 0 seen) n) in
          ret (List.filter is_reorg rows, Some n)
    end.

(** The lowest height the markers name. *)
Fixpoint lowest_marker (acc : option Z) (l : list event_row) : result (option Z) :=
  match l with
  | [] => Ok acc
  | e :: rest =>
      let! b := reorgMarkerBlock e in
      lowest_marker (Some (match acc with None => b | Some a => Z.min a b end)) rest
  end.

(** ** Reorgs *)
Definition broadcastReorg (forkBlock : Z) (retroactive : option retro) (s : poller) : poller :=
  set_sent (ReorgMsg forkBlock retroactive :: sent s) s.

(** The cursor's recorded identity, or the source's where the window has none. *)
Definition rearmGuard (h : Z) : io unit :=
  let* recent := gets recentBroadcastHashes in
  match recent !! h with
  | Some i => modify (set_hash i)
  | None => let* i := sourceBlockHash h in modify (set_hash i)
  end.

Definition handleReorgMarkers : io bool :=
  let* m := readNewReorgMarkers in
  let '(markers, newest) := m in
  let* fork := lift (lowest_marker None markers) in
  match fork with
  | None => modify (set_event newest) ;;; ret false
  | Some forkBlock =>
      let* cursor := gets lastPolledBlock in
      if default 0 cursor <? forkBlock then modify (set_event newest) ;;; ret false
      else
        logCall (pruneFrom readOnly forkBlock) ;;;
        modify (fun s => set_event newest (set_cursor (Some (forkBlock - 1)) (broadcastReorg forkBlock None s))) ;;;
        rearmGuard (forkBlock - 1) ;;;
        updateStatus None ;;;
        ret true
  end.

(** The walk down the recorded identities; the heights are positive, so the starting
    height bounds the number of steps. *)
Fixpoint walk_back (fuel : nat) (forkBlock : Z) : io Z :=
  match fuel with
  | O => ret forkBlock
  | S fuel' =>
      let* recent := gets recentBroadcastHashes in
      if 1 <=? forkBlock - 1 then
        match recent !! (forkBlock - 1) with
        | None => ret forkBlock
        | Some recorded =>
            let* belowSrc := sourceBlockHash (forkBlock - 1) in
            if bool_decide (belowSrc <> None /\ belowSrc <> recorded) then walk_back fuel' (forkBlock - 1)
            else ret forkBlock
        end
      else ret forkBlock
  end.
Definition resolveForkPoint (forkBlock : Z) : io Z := walk_back (Z.to_nat forkBlock) forkBlock.

Definition handleNetForwardReorg : io bool :=
  let* cursor := gets (fun s => default 0 (lastPolledBlock s)) in
  let* srcHash := sourceBlockHash cursor in
  let* guard := gets lastPolledBlockHash in
  if bool_decide (srcHash = None \/ srcHash = guard) then ret false
  else
    let* forkBlock := resolveForkPoint cursor in
    logCall (pruneFrom readOnly forkBlock) ;;;
    modify (fun s =>
      let s := set_cursor (Some (forkBlock - 1)) (broadcastReorg forkBlock None s) in
      set_hash (if 0 <=? forkBlock - 1 then default None (recentBroadcastHashes s !! (forkBlock - 1)) else None) s) ;;;
    updateStatus None ;;;
    ret true.

(** ** Replays of the source under new rules *)
Record replay_marker := ReplayMarker { rp_target : Z; rp_state : string; rp_rules_to : string }.

Definition is_lower_hex (b : byte) : bool := is_hex b && bool_decide (lower_byte b = b).
Definition digest_text (v : jsval) : option string :=
  match v with
  | JStr s => if hex_text 64 s && forallb is_lower_hex (utf8 s) then Some s else None
  | _ => None
  end.
Definition canonicalReplayMarker (d : event_data) : result replay_marker :=
  match d with
  | EvPlain _ => Throw "replay marker must be an object"
  | EvObject l =>
      match member "target" l with
      | JInt t =>
          if (MAX_SAFE <? t) || (t <? 0) then Throw "target must be a non-negative safe integer"
          else match member "replay_to" l with
          | JInt r =>
              if r <? t then Throw "replay_to must be an integer at or above target"
              else match digest_text (member "rules_from" l), digest_text (member "rules_to" l) with
              | None, _ => Throw "rules_from must be a 64-character lowercase hex digest"
              | _, None => Throw "rules_to must be a 64-character lowercase hex digest"
              | Some _, Some digest =>
                  match member "state" l with
                  | JStr st => if bool_decide (st ∈ ["pending"; "replaying"; "replayed"]) then Ok (ReplayMarker t st digest)
                               else Throw "state is not a replay state"
                  | _ => Throw "state is not a replay state"
                  end
              end
          | _ => Throw "replay_to must be an integer at or above target"
          end
      | _ => Throw "target must be a non-negative safe integer"
      end
  end.
Definition last_replay (c : source) : option event_row :=
  last (List.filter (fun e => bool_decide (code e = "CONSENSUS_RETRO_REPLAY")) (events c)).
Definition getSourceReplayMarker : io (option replay_marker) :=
  let* e := strictRead last_replay in
  match e with
  | None => ret None
  | Some e => let* m := lift (canonicalReplayMarker (data e)) in ret (Some m)
  end.

(** [retroactiveFromRules(rulesFromMarker(marker))] *)
Definition retroactiveFromRules (marker : option replay_marker) : option retro :=
  match marker with
  | Some m => if bool_decide (rp_state m = "pending" \/ rp_state m = "replaying")
              then Some (Retro (rp_target m) (to_lower (rp_rules_to m))) else None
  | None => None
  end.
Definition retroactiveForkPoint (r : option retro) (walkBackForkPoint : Z) : Z :=
  match r with None => walkBackForkPoint | Some r => target r end.

Definition handleHeightDropReorg (currentBlock : Z) : io unit :=
  let* walkBackForkBlock := resolveForkPoint (currentBlock + 1) in
  let* marker := getSourceReplayMarker in
  let retroactive := retroactiveFromRules marker in
  let forkBlock := retroactiveForkPoint retroactive walkBackForkBlock in
  logCall (pruneFrom readOnly forkBlock) ;;;
  modify (fun s => set_cursor (Some (forkBlock - 1)) (broadcastReorg forkBlock retroactive s)) ;;;
  rearmGuard (forkBlock - 1) ;;;
  updateStatus None.

(** ** The forward stream *)

(** The snapshot pins the source as it is when the transaction starts. *)
Definition beginReadSnapshot : io source := strictRead (fun c => c).
Definition commitReadSnapshot : io unit := strictRead (fun _ => tt).
Definition snapRead {A} (snap : source) (f : source -> A) : io A := strictRead (fun _ => f snap).

(** The header of the payload of a block, and the reads of its rows. *)
Definition buildBlockPayload (h : Z) (snap : source) : io (option hash_row) :=
  let* row := snapRead snap (fun c => row_at c h) in
  match row with
  | None => ret None
  | Some r => snapRead snap (fun _ => tt) ;;; ret (Some r)
  end.

Definition publishBlockPayload (r : hash_row) (nextBlock : Z) (s : poller) : poller :=
  let s := set_hash (identity r) (set_sent (BlockMsg nextBlock (identity r) :: sent s) s) in
  let s := set_recent (<[nextBlock := identity r]> (recentBroadcastHashes s)) s in
  if recentHashCap <? nextBlock then set_recent (delete (nextBlock - recentHashCap - 1) (recentBroadcastHashes s)) s else s.

Definition hashes_of (r : hash_row) : block_hashes := (ledger_hash r, actions_hash r, contract_hash r).

(** At most [n] more blocks of the batch. *)
Fixpoint stream_loop (n : nat) (snap : source) (streamTo : Z) (blocksProcessed : Z) : io Z :=
  match n with
  | O => ret blocksProcessed
  | S n' =>
      let* cursor := gets (fun s => default 0 (lastPolledBlock s)) in
      if cursor <? streamTo then
        let nextBlock := cursor + 1 in
        let* payload := buildBlockPayload nextBlock snap in
        (match payload with
         | Some r =>
             logCall (recordBlock epochSize readOnly retentionBlocks retentionFloor nextBlock (hashes_of r)) ;;;
             modify (publishBlockPayload r nextBlock)
         | None => modify (set_hash None)
         end) ;;;
        modify (set_cursor (Some nextBlock)) ;;;
        stream_loop n' snap streamTo (blocksProcessed + 1)
      else ret blocksProcessed
  end.

Definition streamNewBlocks (currentBlock : Z) : io (Z * Z) :=
  let* snap := beginReadSnapshot in
  finally (
    let* snapTip := snapRead snap tip_of in
    let streamTo := default currentBlock snapTip in
    let* n := stream_loop 100 snap streamTo 0 in
    ret (n, streamTo)) commitReadSnapshot.

Definition initializePollCursor (currentBlock : Z) : io unit :=
  modify (set_cursor (Some currentBlock)) ;;;
  let* i := sourceBlockHash currentBlock in
  modify (set_hash i) ;;;
  updateStatus None.

(** The rest of a pass once no marker moved the cursor. *)
Definition followSource (currentBlock : Z) : io (option Z) :=
  let* guard := gets lastPolledBlockHash in
  let* forward := (match guard with None => ret false | Some _ => handleNetForwardReorg end) in
  if forward : bool then ret None
  else
    let* cursor := gets (fun s => default 0 (lastPolledBlock s)) in
    if currentBlock <? cursor then handleHeightDropReorg currentBlock ;;; ret None
    else
      let* r := (if cursor <? currentBlock then streamNewBlocks currentBlock else ret (0, currentBlock)) in
      updateStatus (Some r.2) ;;;
      ret (Some r.1).

(** [poll()]: the number of blocks processed, none when the pass did something else. *)
Definition poll : io (option Z) :=
  let* current := getLastBlock_strict in
  match current with
  | None => ret None
  | Some currentBlock =>
      let* cursor := gets lastPolledBlock in
      match cursor with
      | None => initializePollCursor currentBlock ;;; ret None
      | Some _ =>
          let* marked := handleReorgMarkers in
          if marked : bool then ret None else followSource currentBlock
      end
  end.

(** ** Starting *)
Definition initializeReorgMarkerCursor : io unit :=
  match dbType with
  | Decoder => ret tt
  | Indexer =>
      let* id := readLatestEventId in
      modify (fun s => set_initialized true (set_event id s))
  end.

Definition resumeCursor : io (option Z) :=
  let* l := gets transparencyLog in
  match l with
  | Some _ => logRead getSyncMetaTip None
  | None => getLastBlock_soft
  end.

Definition row_of_hashes (p : Z * block_hashes) : Z * option string :=
  let '(l, a, c) := p.2 in (p.1, blockIdentity (HashRow l a c None)).

(** The recorded identities of a range of heights, read in one snapshot. *)
Definition readReorgWindow (floor cursor : Z) : io (list (Z * option string)) :=
  let* l := gets transparencyLog in
  match l with
  | Some l => strictRead (fun _ => map row_of_hashes (between floor cursor (meta l)))
  | None => strictRead (fun c => map (fun h => (h, source_id c h))
              (List.filter (fun h => bool_decide (is_Some (row_at c h)))
                 (map (fun i => floor + Z.of_nat i) (seq 0 (Z.to_nat (cursor - floor + 1))))))
  end.

Definition getRecordedHash (h : Z) : io (option string) :=
  logRead (fun l => TransparencyLog.softRead None
    (fun l => match List.find (fun p => fst p =? h) (meta l) with Some p => (row_of_hashes p).2 | None => None end) l) None.
Definition seedReorgGuardHash (h : Z) : io (option string) :=
  let* l := gets transparencyLog in
  let* recorded := (match l with Some _ => getRecordedHash h | None => ret None end) in
  match recorded with Some i => ret (Some i) | None => sourceBlockHash h end.

(** The run of heights with a recorded identity from the cursor down. *)
Fixpoint suffix_from (n : nat) (h : Z) (hashes : list (Z * option string)) : list (Z * string) :=
  match n with
  | O => []
  | S n' =>
      match last (List.filter (fun p => fst p =? h) hashes) with
      | Some (_, Some i) => (h, i) :: suffix_from n' (h - 1) hashes
      | _ => []
      end
  end.

Definition seedReorgWindow : io (option string) :=
  let* cursor := gets lastPolledBlock in
  match cursor with
  | None => ret None
  | Some cursor =>
      let floor := Z.max 1 (cursor - recentHashCap + 1) in
      let* rows := readReorgWindow floor cursor in
      let suffix := suffix_from (Z.to_nat (cursor - floor + 1)) cursor rows in
      modify (fun s => set_recent (foldr (fun p m => <[fst p := Some (snd p)]> m) (recentBroadcastHashes s) suffix) s) ;;;
      match suffix with
      | (_, i) :: _ => ret (Some i)
      | [] => seedReorgGuardHash cursor
      end
  end.

(** The part of [start] before the loop that [poll] runs in. *)
Definition startCursor : io unit :=
  initializeReorgMarkerCursor ;;;
  let* cursor := resumeCursor in
  modify (set_cursor cursor) ;;;
  let* guard := seedReorgWindow in
  modify (set_hash guard).

(** ** What the source may do between two queries *)
Definition names (h : Z) (e : event_row) : Prop := is_reorg e = true /\ exists b, reorgMarkerBlock e = Ok b /\ b <= h.

(** A rollback of an indexed source writes a REORG row at or below the first height it
    removes, in the same transaction. *)
Definition move_ok (m : move) : Prop :=
  match m with Rollback f evs => exists e, e ∈ evs /\ names f e | _ => True end.
Definition moves_ok (s : poller) : Prop := Forall (Forall move_ok) (moves s).

(** What a later state of the source keeps: the events, and every block that no later
    REORG row names. *)
Definition evolves (c c' : source) : Prop :=
  exists ext, events c' = events c ++ ext
    /\ forall h r, row_at c h = Some r -> row_at c' h = Some r \/ exists e, e ∈ ext /\ names h e.

Lemma names_mono h h' e : h <= h' -> names h e -> names h' e.
Proof. intros Hle (Hr & b & Hb & Hl). split; [done|]. exists b. split; [done|lia]. Qed.

Lemma evolves_refl c : evolves c c.
Proof. exists []. rewrite app_nil_r. auto. Qed.
Lemma evolves_trans a b c : evolves a b -> evolves b c -> evolves a c.
Proof.
  intros (e1 & E1 & H1) (e2 & E2 & H2). exists (e1 ++ e2). split; [by rewrite E2, E1, app_assoc|].
  intros h r Hr. destruct (H1 h r Hr) as [Hb|(e & He & Hn)].
  - destruct (H2 h r Hb) as [?|(e & He & Hn)]; [by left|]. right. exists e. set_solver.
  - right. exists e. set_solver.
Qed.
#[local] Hint Resolve evolves_refl : core.

Lemma row_at_lt c h r : row_at c h = Some r -> first <= h < first + Z.of_nat (length (blocks c)).
Proof. unfold row_at. case_match eqn:E; [done|]. apply Z.ltb_ge in E. intros Hr%lookup_lt_Some. lia. Qed.

Lemma row_below_tip c T h r : tip_of c = Some T -> row_at c h = Some r -> h <= T.
Proof.
  intros Ht Hr%row_at_lt. unfold tip_of in Ht. destruct (blocks c) as [|x bs] eqn:E; [done|]. injection Ht as Ht. cbn [length] in *. lia.
Qed.

Lemma apply_move_evolves c m : move_ok m -> evolves c (apply_move c m).
Proof.
  destruct m as [r|f evs|e]; cbn.
  - intros _. exists []. rewrite app_nil_r. split; [done|]. intros h x Hx. left.
    unfold row_at in *. cbn. case_match; [done|]. by apply lookup_app_l_Some.
  - intros (e & He & Hn). exists evs. split; [done|]. intros h x Hx.
    destruct (decide (h < f)) as [Hlt|Hge].
    + left. pose proof (row_at_lt c h x Hx). unfold row_at in *. cbn. case_match eqn:Ef; [done|].
      rewrite lookup_take. case_decide; [done|lia].
    + right. exists e. split; [done|]. apply (names_mono f); [lia|done].
  - intros _. exists [e]. auto.
Qed.
Lemma moves_evolve ms c : Forall move_ok ms -> evolves c (fold_left apply_move ms c).
Proof.
  revert c; induction ms as [|m ms IH]; intros c Hms; cbn; [done|]. inversion Hms as [|? ? Hm Hrest]; subst.
  eapply evolves_trans; [by apply apply_move_evolves|]. by apply IH.
Qed.

(** ** Reads

    A read leaves the poller's own fields alone while the source evolves. *)
Record stable (s s' : poller) : Prop := {
  st_cursor : lastPolledBlock s' = lastPolledBlock s;
  st_hash : lastPolledBlockHash s' = lastPolledBlockHash s;
  st_event : lastEventId s' = lastEventId s;
  st_init : reorgMarkerCursorInitialized s' = reorgMarkerCursorInitialized s;
  st_recent : recentBroadcastHashes s' = recentBroadcastHashes s;
  st_sent : sent s' = sent s;
  st_src : moves_ok s -> moves_ok s' /\ evolves (src s) (src s') }.

Lemma stable_refl s : stable s s.
Proof. by split. Qed.
Lemma stable_trans a b c : stable a b -> stable b c -> stable a c.
Proof.
  intros H1 H2. split; try (etrans; [apply H2|apply H1]). intros Hm.
  destruct (st_src _ _ H1 Hm) as [Hb Ho1]. destruct (st_src _ _ H2 Hb) as [Hc Ho2].
  split; [done|]. by eapply evolves_trans.
Qed.
#[local] Hint Resolve stable_refl : core.

Lemma query_stable s : stable s (query s).1.
Proof.
  split; try done. unfold moves_ok. cbn. intros Hm. destruct (moves s) as [|l rest]; cbn; [done|].
  inversion Hm as [|? ? Hl Hrest]; subst. split; [done|]. by apply moves_evolve.
Qed.

(** [reads m]: whatever [m] returns or throws, it was a sequence of reads. *)
Definition reads {A} (m : io A) : Prop := forall s, stable s (m s).1.
Lemma reads_bind {A B} (m : io A) (k : A -> io B) : reads m -> (forall a, reads (k a)) -> reads (bind m k).
Proof.
  intros Hm Hk s. unfold bind. specialize (Hm s). destruct (m s) as [s' [a|e]]; [|done].
  eapply stable_trans; [done|]. apply Hk.
Qed.
Lemma reads_ret {A} (a : A) : reads (ret a). Proof. intros s. apply stable_refl. Qed.
Lemma reads_fail {A} e : reads (fail (A:=A) e). Proof. intros s. apply stable_refl. Qed.
Lemma reads_gets {A} (f : poller -> A) : reads (gets f). Proof. intros s. apply stable_refl. Qed.
Lemma reads_lift {A} (r : result A) : reads (lift r). Proof. intros s. apply stable_refl. Qed.
Lemma reads_query : reads query. Proof. intros s. apply query_stable. Qed.
#[local] Hint Resolve reads_bind reads_ret reads_fail reads_gets reads_lift reads_query : reads.
Ltac reading := repeat first
  [ apply reads_bind; [|intros] | apply reads_ret | apply reads_fail | apply reads_gets | apply reads_lift | apply reads_query | case_match ].

Lemma reads_soft {A} (none : A) f : reads (softRead none f). Proof. unfold softRead. reading. Qed.
Lemma reads_strict {A} (f : source -> A) : reads (strictRead f). Proof. unfold strictRead. reading. Qed.
Lemma reads_walk n f : reads (walk_back n f).
Proof.
  revert f; induction n as [|n IH]; intros f; cbn [walk_back]; [apply reads_ret|].
  unfold sourceBlockHash. reading; first [apply reads_soft | apply IH].
Qed.
Lemma reads_status h : reads (updateStatus h).
Proof. unfold updateStatus. reading; apply reads_soft. Qed.
Lemma reads_markers : reads readNewReorgMarkers.
Proof. unfold readNewReorgMarkers, readLatestEventId. reading; apply reads_strict. Qed.
Lemma reads_replay : reads getSourceReplayMarker.
Proof. unfold getSourceReplayMarker. reading; apply reads_strict. Qed.
Lemma reads_payload h snap : reads (buildBlockPayload h snap).
Proof. unfold buildBlockPayload, snapRead. reading; apply reads_strict. Qed.
(** The log is not one of the fields: its calls are reads of everything else. *)
Lemma reads_log f : reads (logCall f).
Proof. unfold logCall. reading; intros s; by split. Qed.
#[local] Hint Resolve reads_soft reads_strict reads_walk reads_status reads_markers reads_replay reads_payload reads_log : reads.

(** ** The announced chain tracks the source *)

(** A REORG row the poller has not read yet names a height at or below [h]. *)
Definition unseen (s : poller) : list event_row := drop (Z.to_nat (default 0 (lastEventId s))) (events (src s)).
Definition covered (s : poller) (h : Z) : Prop := exists e, e ∈ unseen s /\ names h e.

Record tracks (s : poller) : Prop := {
  tr_init : reorgMarkerCursorInitialized s = true;
  tr_moves : moves_ok s;
  tr_seen : 0 <= default 0 (lastEventId s) <= Z.of_nat (length (events (src s)));
  tr_below : forall h i, view (sent s) !! h = Some i -> exists c, lastPolledBlock s = Some c /\ h <= c;
  tr_view : forall h i, view (sent s) !! h = Some i ->
    (exists r, row_at (src s) h = Some r /\ identity r = i) \/ covered s h;
  tr_recent : forall h i, recentBroadcastHashes s !! h = Some i -> first <= h }.

Lemma covered_evolves s s' h : stable s s' -> tracks s -> covered s h -> covered s' h.
Proof.
  intros Hst Ht (e & He & Hn). exists e. split; [|done]. unfold unseen in *.
  destruct (st_src _ _ Hst (tr_moves _ Ht)) as [_ (ext & -> & _)]. rewrite (st_event _ _ Hst).
  rewrite drop_app_le by (pose proof (tr_seen _ Ht); lia). set_solver.
Qed.
(** A row of an earlier state is still there or has been named since. *)
Lemma row_evolves s s' h r : stable s s' -> tracks s -> row_at (src s) h = Some r ->
  row_at (src s') h = Some r \/ covered s' h.
Proof.
  intros Hst Ht Hr. destruct (st_src _ _ Hst (tr_moves _ Ht)) as [_ (ext & Ee & Hrow)].
  destruct (Hrow h r Hr) as [?|(e & He & Hn)]; [by left|right]. exists e. split; [|done].
  unfold unseen. rewrite Ee, (st_event _ _ Hst), drop_app_le by (pose proof (tr_seen _ Ht); lia). set_solver.
Qed.
Lemma tracks_stable s s' : stable s s' -> tracks s -> tracks s'.
Proof.
  intros Hst Ht. destruct (st_src _ _ Hst (tr_moves _ Ht)) as [Hm (ext & Ee & _)]. split.
  - rewrite (st_init _ _ Hst). apply Ht.
  - done.
  - rewrite (st_event _ _ Hst), Ee, length_app. pose proof (tr_seen _ Ht). lia.
  - rewrite (st_sent _ _ Hst), (st_cursor _ _ Hst). apply Ht.
  - rewrite (st_sent _ _ Hst). intros h i Hv. destruct (tr_view _ Ht h i Hv) as [(r & Hr & Hi)|Hc].
    + destruct (row_evolves s s' h r Hst Ht Hr) as [?|?]; eauto.
    + right. by apply (covered_evolves s).
  - rewrite (st_recent _ _ Hst). apply Ht.
Qed.

(** Running a read in front of the rest of a method. *)
Lemma after_read {A B} (m : io A) (k : A -> io B) (P : poller -> Prop) s :
  reads m -> (forall s', stable s s' -> P s') -> (forall s' a, stable s s' -> m s = (s', Ok a) -> P (k a s').1) ->
  P (bind m k s).1.
Proof.
  intros Hm Hthrow Hk. unfold bind. specialize (Hm s). destruct (m s) as [s' [a|e]] eqn:E; cbn in Hm.
  - by apply Hk.
  - by apply Hthrow.
Qed.
Lemma reads_track {A} (m : io A) s : reads m -> tracks s -> tracks (m s).1.
Proof. intros Hm. apply tracks_stable, Hm. Qed.

Lemma view_reorg f r l h : view (ReorgMsg f r :: l) !! h = if decide (h < f) then view l !! h else None.
Proof.
  cbn. case_decide as E.
  - destruct (view l !! h) as [i|] eqn:Ev; [by apply map_lookup_filter_Some_2|].
    apply map_lookup_filter_None_2. by left.
  - apply map_lookup_filter_None_2. right. cbn. auto.
Qed.

(** Announcing a reorg and moving the cursor below it. *)
Lemma tracks_drop f r s : tracks s -> tracks (set_cursor (Some (f - 1)) (broadcastReorg f r s)).
Proof.
  intros Ht. split; try apply Ht; cbn [sent set_cursor broadcastReorg set_sent].
  - intros h i. rewrite view_reorg. case_decide; [|done]. intros _. exists (f - 1). split; [done|lia].
  - intros h i. rewrite view_reorg. case_decide; [|done]. intros Hv. exact (tr_view _ Ht h i Hv).
Qed.
Lemma tracks_hash v s : tracks s -> tracks (set_hash v s).
Proof. intros []. by split. Qed.

(** The markers read are exactly the REORG rows between the two event cursors. *)
Lemma readNewReorgMarkers_window s s' markers newest :
  dbType = Indexer -> tracks s -> readNewReorgMarkers s = (s', Ok (markers, newest)) ->
  let z := default 0 (lastEventId s) in let n := default 0 newest in
  z <= n <= Z.of_nat (length (events (src s')))
  /\ markers = List.filter is_reorg (take (Z.to_nat (n - z)) (drop (Z.to_nat z) (events (src s')))).
Proof.
  intros Hdb Ht. cbv zeta. unfold readNewReorgMarkers, bind at 1, gets at 1, bind at 1, gets at 1.
  rewrite (tr_init _ Ht). cbn [negb orb]. rewrite bool_decide_eq_false_2 by (by rewrite Hdb).
  unfold readLatestEventId. rewrite Hdb. unfold strictRead, bind, gets.
  pose proof (tr_seen _ Ht) as Hseen. pose proof (query_stable s) as Hq. destruct (query s) as [s1 [[]|e]] eqn:Eq; cbn in Hq; try done.
  destruct (st_src _ _ Hq (tr_moves _ Ht)) as [Hm1 (ext1 & E1 & _)].
  assert (0 <= default 0 (lastEventId s) <= Z.of_nat (length (events (src s1)))) as Hs1 by (rewrite E1, length_app; lia).
  unfold max_event_id. destruct (events (src s1)) as [|e0 l0] eqn:Ev.
  { unfold ret. intros [= <- <- <-]. cbn [default] in *. rewrite Ev. cbn in *. split; [lia|]. by rewrite drop_nil, take_nil. }
  rewrite <- Ev in *. clear Ev. destruct (_ || _); [done|]. unfold ret at 1. case_bool_decide as Es.
  { intros [= <- <- <-]. rewrite Es in *. cbn [default] in *. split; [lia|]. by rewrite Z.sub_diag. }
  case_match; [done|]. pose proof (query_stable s1) as Hq2. destruct (query s1) as [s2 [[]|e]] eqn:Eq2; cbn in Hq2; try done.
  intros [= <- <- <-]. destruct (st_src _ _ Hq2 Hm1) as [_ (ext2 & E2 & _)].
  change (default 0 (Some (Z.of_nat (length (events (src s1)))))) with (Z.of_nat (length (events (src s1)))). split; [rewrite E2, length_app; lia|]. done.
Qed.

Lemma lowest_marker_spec l acc fork : lowest_marker acc l = Ok fork ->
  (forall a, acc = Some a -> exists f, fork = Some f /\ f <= a)
  /\ (forall e, e ∈ l -> exists b f, reorgMarkerBlock e = Ok b /\ fork = Some f /\ f <= b).
Proof.
  revert acc; induction l as [|e l IH]; intros acc; cbn.
  { intros [= <-]. split; [intros a ->; exists a; split; [done|lia]|]. intros e He. by apply not_elem_of_nil in He. }
  destruct (reorgMarkerBlock e) as [b|] eqn:Eb; cbn; [|done]. intros Hl. destruct (IH _ Hl) as [Hacc Hin].
  destruct (Hacc _ eq_refl) as (f & Ef & Hf). split.
  - intros a ->. exists f. split; [done|]. lia.
  - intros e' [->|He]%elem_of_cons; [|by apply Hin]. exists b, f. split; [done|]. split; [done|]. destruct acc; lia.
Qed.

Lemma covered_after s markers newest h :
  let z := default 0 (lastEventId s) in let n := default 0 newest in
  z <= n -> 0 <= z ->
  markers = List.filter is_reorg (take (Z.to_nat (n - z)) (drop (Z.to_nat z) (events (src s)))) ->
  covered s h -> covered (set_event newest s) h \/ exists e, e ∈ markers /\ names h e.
Proof.
  cbv zeta. intros Hle Hz -> (e & He & Hn). unfold unseen in He.
  rewrite <- (take_drop (Z.to_nat (default 0 newest - default 0 (lastEventId s))) (drop _ _)) in He.
  apply elem_of_app in He as [He|He].
  - right. exists e. split; [|done]. apply list_elem_of_In, filter_In. split; [by apply list_elem_of_In|apply Hn].
  - left. exists e. split; [|done]. unfold unseen. cbn. rewrite drop_drop in He. by replace (Z.to_nat (default 0 newest))
      with (Nat.add (Z.to_nat (default 0 (lastEventId s))) (Z.to_nat (default 0 newest - default 0 (lastEventId s)))) by lia.
Qed.

(** Reading past markers that name no announced height. *)
Lemma tracks_seen s newest markers fork :
  let z := default 0 (lastEventId s) in let n := default 0 newest in
  tracks s -> z <= n <= Z.of_nat (length (events (src s))) ->
  markers = List.filter is_reorg (take (Z.to_nat (n - z)) (drop (Z.to_nat z) (events (src s)))) ->
  lowest_marker None markers = Ok fork ->
  (forall h i f, view (sent s) !! h = Some i -> fork = Some f -> h < f) ->
  tracks (set_event newest s).
Proof.
  cbv zeta. intros Ht Hle Hm Hl Hsafe. pose proof (tr_seen _ Ht). split; try apply Ht; cbn [lastEventId set_event src].
  - lia.
  - intros h i Hv. destruct (tr_view _ Ht h i Hv) as [Hr|Hc]; [by left|]. right.
    destruct (covered_after s markers newest h ltac:(lia) ltac:(lia) Hm Hc) as [?|(e & He & _ & b & Hb & Hbh)]; [done|].
    destruct (proj2 (lowest_marker_spec markers None fork Hl) e He) as (b' & f & Hb' & -> & Hf).
    rewrite Hb in Hb'. injection Hb' as <-. specialize (Hsafe h i f Hv eq_refl). lia.
Qed.

Lemma rearm_tracks h s : tracks s -> tracks (rearmGuard h s).1.
Proof.
  intros Ht. unfold rearmGuard, bind at 1, gets. case_match; [by apply tracks_hash|].
  apply after_read; [apply reads_soft|intros s' Hs; by apply (tracks_stable s)|].
  intros s' a Hs _. apply tracks_hash. by apply (tracks_stable s).
Qed.

(** Rest of a method after a step that keeps the invariant. *)
Lemma then_tracks {A B} (m : io A) (k : A -> io B) s :
  tracks (m s).1 -> (forall a s', tracks s' -> tracks (k a s').1) -> tracks (bind m k s).1.
Proof. intros Hm Hk. unfold bind. destruct (m s) as [s' [a|e]]; [by apply Hk|done]. Qed.

Lemma handleReorgMarkers_tracks s : dbType = Indexer -> tracks s -> tracks (handleReorgMarkers s).1.
Proof.
  intros Hdb Ht. unfold handleReorgMarkers.
  apply after_read; [apply reads_markers|intros s' Hs; by apply (tracks_stable s)|].
  intros s1 [markers newest] Hs1 Hread. pose proof (tracks_stable _ _ Hs1 Ht) as Ht1.
  destruct (readNewReorgMarkers_window s s1 markers newest Hdb Ht Hread) as [Hle Hmk]. rewrite <- (st_event _ _ Hs1) in Hle, Hmk.
  unfold bind at 1, lift. destruct (lowest_marker None markers) as [fork|e] eqn:El; [|done].
  assert (forall h i f, view (sent s1) !! h = Some i -> default 0 (lastPolledBlock s1) < f -> h < f) as Habove.
  { intros h i f Hv Hf. destruct (tr_below _ Ht1 h i Hv) as (c & Hc & Hh). rewrite Hc in Hf. cbn in Hf. lia. }
  destruct fork as [f|]; [|apply (tracks_seen s1 newest markers None); by try done].
  unfold bind at 1, gets at 1. case_match eqn:Ef.
  { apply Z.ltb_lt in Ef. apply (tracks_seen s1 newest markers (Some f)); try done. intros h i f' Hv [= <-]. by apply (Habove h i). }
  apply after_read; [apply reads_log|intros s' Hs; by apply (tracks_stable s1)|]. intros s2 _ Hs2 _.
  destruct (st_src _ _ Hs2 (tr_moves _ Ht1)) as [_ (ext & Ee & _)].
  apply then_tracks.
  - cbn [modify fst].
    apply (tracks_seen (set_cursor (Some (f - 1)) (broadcastReorg f None s2)) newest markers (Some f)); try done.
    + apply tracks_drop. by apply (tracks_stable s1).
    + cbn [lastEventId set_cursor broadcastReorg set_sent src]. rewrite (st_event _ _ Hs2), Ee, length_app. lia.
    + cbn [lastEventId set_cursor broadcastReorg set_sent src]. rewrite (st_event _ _ Hs2), Ee, Hmk.
      pose proof (tr_seen _ Ht1). rewrite drop_app_le by lia. rewrite take_app_le; [done|]. rewrite length_drop. lia.
    + intros h i f'. cbn [sent set_cursor broadcastReorg set_sent]. rewrite view_reorg. case_decide; [|done]. by intros _ [= <-].
  - intros _ s3 Ht3. apply then_tracks; [by apply rearm_tracks|]. intros _ s4 Ht4.
    apply then_tracks; [apply reads_track; [apply reads_status|done]|]. by intros.
Qed.

Lemma handleNetForwardReorg_tracks s : tracks s -> tracks (handleNetForwardReorg s).1.
Proof.
  intros Ht. unfold handleNetForwardReorg, bind at 1, gets at 1.
  apply after_read; [apply reads_soft|intros s' Hs; by apply (tracks_stable s)|]. intros s1 srcHash Hs1 _.
  pose proof (tracks_stable _ _ Hs1 Ht) as Ht1. unfold bind at 1, gets at 1. case_bool_decide; [done|].
  apply after_read; [apply reads_walk|intros s' Hs; by apply (tracks_stable s1)|]. intros s2 f Hs2 _.
  pose proof (tracks_stable _ _ Hs2 Ht1) as Ht2.
  apply after_read; [apply reads_log|intros s' Hs; by apply (tracks_stable s2)|]. intros s3 _ Hs3 _.
  apply then_tracks; [|intros _ s4 Ht4; apply then_tracks; [by apply reads_track; [apply reads_status|]|by intros]].
  cbn [modify fst]. apply tracks_hash, tracks_drop. by apply (tracks_stable s2).
Qed.

Lemma handleHeightDropReorg_tracks n s : tracks s -> tracks (handleHeightDropReorg n s).1.
Proof.
  intros Ht. unfold handleHeightDropReorg.
  apply after_read; [apply reads_walk|intros s' Hs; by apply (tracks_stable s)|]. intros s1 w Hs1 _.
  pose proof (tracks_stable _ _ Hs1 Ht) as Ht1.
  apply after_read; [apply reads_replay|intros s' Hs; by apply (tracks_stable s1)|]. intros s2 m Hs2 _.
  pose proof (tracks_stable _ _ Hs2 Ht1) as Ht2. cbv zeta.
  apply after_read; [apply reads_log|intros s' Hs; by apply (tracks_stable s2)|]. intros s3 _ Hs3 _.
  apply then_tracks; [|intros _ s4 Ht4; apply then_tracks; [by apply rearm_tracks|intros _ s5 Ht5; by apply reads_track; [apply reads_status|]]].
  cbn [modify fst]. apply tracks_drop. by apply (tracks_stable s2).
Qed.

(** The snapshot is behind the source only where a REORG row says so. *)
Definition behind (snap : source) (s : poller) : Prop :=
  forall h r, row_at snap h = Some r -> row_at (src s) h = Some r \/ covered s h.
Lemma behind_stable snap s s' : stable s s' -> tracks s -> behind snap s -> behind snap s'.
Proof.
  intros Hst Ht Hb h r Hr. destruct (Hb h r Hr) as [Hr'|Hc].
  - by apply (row_evolves s).
  - right. by apply (covered_evolves s).
Qed.

Lemma publish_fields r n s : let s' := publishBlockPayload r n s in
  lastPolledBlock s' = lastPolledBlock s /\ lastEventId s' = lastEventId s /\ src s' = src s /\ moves s' = moves s
  /\ reorgMarkerCursorInitialized s' = reorgMarkerCursorInitialized s /\ replies s' = replies s
  /\ sent s' = BlockMsg n (identity r) :: sent s /\ lastPolledBlockHash s' = identity r /\ transparencyLog s' = transparencyLog s.
Proof. unfold publishBlockPayload. cbv zeta. case_match; repeat split; done. Qed.

Lemma publish_recent r n s h i : recentBroadcastHashes (publishBlockPayload r n s) !! h = Some i ->
  h = n \/ exists j, recentBroadcastHashes s !! h = Some j.
Proof.
  unfold publishBlockPayload. cbv zeta. case_match; cbn; [rewrite lookup_delete_Some; intros [_ Hi]; revert Hi|];
    rewrite lookup_insert_Some; intros [[<- _]|[_ Hi]]; eauto.
Qed.

Lemma tracks_cursor c s : default 0 (lastPolledBlock s) <= c -> tracks s -> tracks (set_cursor (Some c) s).
Proof.
  intros Hc Ht. split; try apply Ht. cbn [sent set_cursor lastPolledBlock]. intros h i Hv.
  destruct (tr_below _ Ht h i Hv) as (c' & Hc' & Hh). rewrite Hc' in Hc. cbn in Hc. exists c. split; [done|lia].
Qed.
Lemma publish_tracks snap r s : let n := default 0 (lastPolledBlock s) + 1 in
  tracks s -> behind snap s -> row_at snap n = Some r -> tracks (set_cursor (Some n) (publishBlockPayload r n s)).
Proof.
  cbv zeta. set (n := default 0 (lastPolledBlock s) + 1). intros Ht Hb Hr.
  destruct (publish_fields r n s) as (E1 & E2 & E3 & E4 & E5 & _ & E6 & _).
  split; cbn [reorgMarkerCursorInitialized set_cursor lastEventId src sent lastPolledBlock].
  - rewrite E5. apply Ht.
  - unfold moves_ok. cbn [moves set_cursor]. rewrite E4. apply Ht.
  - rewrite E2, E3. apply Ht.
  - rewrite E6. cbn. intros h i. rewrite lookup_insert. case_decide as E.
    + intros _. exists n. split; [done|lia].
    + intros Hv. destruct (tr_below _ Ht h i Hv) as (c & Hc & Hh). exists n. split; [done|]. unfold n. rewrite Hc. cbn. lia.
  - assert (forall h, covered s h -> covered (set_cursor (Some n) (publishBlockPayload r n s)) h) as Hcov.
    { intros h (e & He & Hn). exists e. split; [|done]. unfold unseen in *. cbn [lastEventId set_cursor src]. by rewrite E2, E3. }
    rewrite E6, E3. cbn. intros h i. rewrite lookup_insert. case_decide as E.
    + subst h. intros [= <-]. destruct (Hb n r Hr) as [?|?]; eauto.
    + intros Hv. destruct (tr_view _ Ht h i Hv) as [?|?]; eauto.
  - intros h i Hi. apply publish_recent in Hi as [->|[j Hj]]; [|by apply (tr_recent _ Ht h j)].
    apply (row_at_lt snap n r Hr).
Qed.

Lemma payload_row n snap s s' r : buildBlockPayload n snap s = (s', Ok (Some r)) -> row_at snap n = Some r.
Proof.
  unfold buildBlockPayload, snapRead, strictRead, bind, gets, ret. destruct (query s) as [s1 [[]|e]]; try done.
  destruct (row_at snap n) as [r'|]; [|done]. destruct (query s1) as [s2 [[]|e]]; try done. congruence.
Qed.

Lemma stream_tracks n snap to done_ s : tracks s -> behind snap s -> tracks (stream_loop n snap to done_ s).1.
Proof.
  revert done_ s; induction n as [|n IH]; intros done_ s Ht Hb; cbn [stream_loop]; [done|].
  unfold bind at 1, gets at 1. case_match; [|done]. cbv zeta.
  apply after_read; [apply reads_payload|intros s' Hs; by apply (tracks_stable s)|]. intros s1 payload Hs1 Hp.
  pose proof (tracks_stable _ _ Hs1 Ht) as Ht1. pose proof (behind_stable snap _ _ Hs1 Ht Hb) as Hb1.
  assert (lastPolledBlock s1 = lastPolledBlock s) as Ec by apply Hs1. rewrite <- Ec in *.
  destruct payload as [r|].
  - unfold bind at 1. pose proof (reads_log (recordBlock epochSize readOnly retentionBlocks retentionFloor (default 0 (lastPolledBlock s1) + 1) (hashes_of r)) s1) as Hs2.
    unfold bind at 1. destruct (logCall _ s1) as [s2 [?|e]]; cbn [fst] in Hs2; [|by apply (tracks_stable s1)].
    pose proof (tracks_stable _ _ Hs2 Ht1) as Ht2. pose proof (behind_stable snap _ _ Hs2 Ht1 Hb1) as Hb2.
    cbn [modify]. unfold bind at 1. cbn [modify].
    assert (lastPolledBlock s2 = lastPolledBlock s1) as Ec2 by apply Hs2. rewrite <- Ec2.
    pose proof (publish_tracks snap r s2 Ht2 Hb2) as Hpub. cbv zeta in Hpub.
    apply IH; [apply Hpub; rewrite Ec2; by apply (payload_row _ _ s s1)|].
    intros h x Hx. destruct (publish_fields r (default 0 (lastPolledBlock s2) + 1) s2) as (_ & E2 & E3 & _).
    destruct (Hb2 h x Hx) as [Hr|(e & He & Hn)]; [left|right].
    + cbn [src set_cursor]. by rewrite E3.
    + exists e. split; [|done]. unfold unseen in *. cbn [lastEventId set_cursor src]. by rewrite E2, E3.
  - cbn [modify]. unfold bind at 1. cbn [modify]. unfold bind at 1. cbn [modify].
    apply IH; [|exact Hb1]. apply tracks_cursor; [cbn; lia|]. by apply tracks_hash.
Qed.

Lemma streamNewBlocks_tracks n s : tracks s -> tracks (streamNewBlocks n s).1.
Proof.
  intros Ht. unfold streamNewBlocks, beginReadSnapshot, strictRead. unfold bind at 1. unfold bind at 1.
  pose proof (query_stable s) as Hq. destruct (query s) as [s1 [[]|e]] eqn:Eq; cbn [fst] in Hq;
    try (by apply (tracks_stable s)). cbn [gets].
  pose proof (tracks_stable _ _ Hq Ht) as Ht1. unfold finally.
  assert (tracks ((let* snapTip := snapRead (src s1) tip_of in let streamTo := default n snapTip in
    let* m := stream_loop 100 (src s1) streamTo 0 in ret (m, streamTo)) s1).1) as Hbody.
  { apply after_read; [apply reads_strict|intros s' Hs; by apply (tracks_stable s1)|]. intros s2 t Hs2 _. cbv zeta.
    apply then_tracks; [|by intros]. apply stream_tracks; [by apply (tracks_stable s1)|].
    apply (behind_stable _ s1); [done..|]. intros h r Hr. by left. }
  destruct ((let* snapTip := _ in _) s1) as [s3 r]. cbn [fst] in Hbody.
  pose proof (reads_strict (fun _ : source => tt) s3) as Hc. unfold commitReadSnapshot.
  destruct (strictRead _ s3) as [s4 [?|?]]; cbn [fst] in *; by apply (tracks_stable s3).
Qed.

Lemma poll_tracks s : dbType = Indexer -> tracks s -> tracks (poll s).1.
Proof.
  intros Hdb Ht. unfold poll.
  apply after_read; [apply reads_strict|intros s' Hs; by apply (tracks_stable s)|]. intros s1 [cur|] Hs1 _;
    pose proof (tracks_stable _ _ Hs1 Ht) as Ht1; [|done].
  unfold bind at 1, gets at 1. destruct (lastPolledBlock s1) as [c|] eqn:Ec.
  - apply then_tracks; [by apply handleReorgMarkers_tracks|]. intros [] s2 Ht2; [done|].
    unfold followSource, bind at 1, gets at 1. apply then_tracks; [case_match; [by apply handleNetForwardReorg_tracks|done]|].
    intros [] s3 Ht3; [done|]. unfold bind at 1, gets at 1. case_match.
    + apply then_tracks; [by apply handleHeightDropReorg_tracks|]. by intros.
    + apply then_tracks; [case_match; [by apply streamNewBlocks_tracks|done]|]. intros r s4 Ht4.
      apply then_tracks; [by apply reads_track; [apply reads_status|]|]. by intros.
  - apply then_tracks; [|by intros]. unfold initializePollCursor. apply then_tracks.
    + cbn [modify fst]. split; try apply Ht1. cbn [sent set_cursor]. intros h i Hv.
      destruct (tr_below _ Ht1 h i Hv) as (c & Hc & _). congruence.
    + intros _ s2 Ht2. apply then_tracks; [by apply reads_track; [apply reads_soft|]|]. intros i s3 Ht3.
      apply then_tracks; [by apply tracks_hash|]. intros _ s4 Ht4. by apply reads_track; [apply reads_status|].
Qed.

(** The loop of [start]: a failed pass is logged and the next one runs. *)
Definition polls (n : nat) (s : poller) : poller := Nat.iter n (fun s => (poll s).1) s.

Lemma polls_tracks n s : dbType = Indexer -> tracks s -> tracks (polls n s).
Proof. intros Hdb Ht. induction n as [|n IH]; [done|]. cbn. by apply poll_tracks. Qed.

(** ** A quiet source

    Nothing moves and every query is answered. *)
Definition quiet (s : poller) : Prop := moves s = [] /\ replies s = [].

Lemma query_quiet s : quiet s -> query s = (s, Ok Good).
Proof. intros [Hm Hr]. unfold query. rewrite Hm, Hr. cbn. f_equal. destruct s; cbn in *. by subst. Qed.
Lemma soft_quiet {A} (none : A) f s : quiet s -> softRead none f s = (s, Ok (f (src s))).
Proof. intros Hq. unfold softRead, bind. by rewrite query_quiet. Qed.
Lemma strict_quiet {A} (f : source -> A) s : quiet s -> strictRead f s = (s, Ok (f (src s))).
Proof. intros Hq. unfold strictRead, bind. by rewrite query_quiet. Qed.
Lemma log_quiet f s : quiet s -> logCall f s = (set_log (f <$> transparencyLog s) s, Ok tt).
Proof.
  intros Hq. unfold logCall, bind, gets. destruct (transparencyLog s) as [l|] eqn:E.
  - rewrite query_quiet by done. unfold modify. by rewrite E.
  - unfold ret. cbn. f_equal. destruct s; cbn in *. by subst.
Qed.
Lemma status_quiet h s : quiet s -> updateStatus h s = (s, Ok tt).
Proof.
  intros Hq. unfold updateStatus, bind, gets, ret. destruct (lastPolledBlock s) as [n|]; [destruct (n =? 0)|]; destruct h;
    rewrite ?soft_quiet by done; try done; by rewrite ?soft_quiet by done.
Qed.

(** The walk back stops at a height that is unrecorded, missing or unchanged. *)
Definition confirmed (s : poller) (l : Z) : Prop :=
  l < 1 \/ recentBroadcastHashes s !! l = None \/ source_id (src s) l = None
  \/ recentBroadcastHashes s !! l = Some (source_id (src s) l).
Lemma walk_quiet n f s : quiet s -> f <= Z.of_nat n ->
  exists f', walk_back n f s = (s, Ok f') /\ f' <= f /\ (1 <= f -> 1 <= f') /\ confirmed s (f' - 1)
    /\ (forall h, f' <= h < f -> exists r, recentBroadcastHashes s !! h = Some r /\ source_id (src s) h <> None /\ source_id (src s) h <> r).
Proof.
  intros Hq. revert f; induction n as [|n IH]; intros f Hn; cbn [walk_back].
  { exists f. split; [done|]. split; [lia|]. split; [done|]. split; [left; lia|]. lia. }
  unfold bind at 1, gets at 1. destruct (1 <=? f - 1) eqn:E1; [apply Z.leb_le in E1|apply Z.leb_gt in E1].
  2: { exists f. split; [done|]. split; [lia|]. split; [done|]. split; [left; lia|]. lia. }
  destruct (recentBroadcastHashes s !! (f - 1)) as [i|] eqn:Er.
  2: { exists f. split; [done|]. split; [lia|]. split; [done|]. split; [by right; left|]. lia. }
  unfold bind, sourceBlockHash. rewrite soft_quiet by done. case_bool_decide as Hd.
  - destruct (IH (f - 1) ltac:(lia)) as (f' & Hw & Hle & H1 & Hc & Hall). exists f'. split; [done|]. split; [lia|].
    split; [intros; apply H1; lia|]. split; [done|]. intros h Hh. destruct (decide (h = f - 1)) as [->|]; [exists i; tauto|].
    apply Hall. lia.
  - exists f. split; [done|]. split; [lia|]. split; [done|]. split; [|lia].
    right. right. destruct (source_id (src s) (f - 1)) as [x|] eqn:Ex; [|by left]. right. rewrite Er. f_equal.
    destruct (decide (i = Some x)) as [->|]; [done|]. exfalso. apply Hd. naive_solver.
Qed.
Lemma resolve_quiet f s : quiet s -> exists f', resolveForkPoint f s = (s, Ok f') /\ f' <= f /\ (1 <= f -> 1 <= f')
  /\ confirmed s (f' - 1)
  /\ (forall h, f' <= h < f -> exists r, recentBroadcastHashes s !! h = Some r /\ source_id (src s) h <> None /\ source_id (src s) h <> r).
Proof. intros Hq. apply walk_quiet; [done|]. lia. Qed.

Lemma rearm_quiet h s : quiet s ->
  rearmGuard h s = (set_hash (match recentBroadcastHashes s !! h with Some i => i | None => source_id (src s) h end) s, Ok tt).
Proof.
  intros Hq. unfold rearmGuard, bind, gets. destruct (recentBroadcastHashes s !! h); [done|].
  unfold sourceBlockHash. by rewrite soft_quiet.
Qed.

(** The last known state of a source whose markers can be read: the REORG rows are well
    formed, and a replay under way starts at or below the height above the tip. *)
Record healthy (C : source) (T : Z) : Prop := {
  he_tip : tip_of C = Some T;
  he_events : Z.of_nat (length (events C)) <= MAX_SAFE;
  he_markers : forall e, e ∈ events C -> is_reorg e = true -> exists b, reorgMarkerBlock e = Ok b;
  he_replay : forall e, last_replay C = Some e -> exists m, canonicalReplayMarker (data e) = Ok m
    /\ forall r, retroactiveFromRules (Some m) = Some r -> target r <= T + 1 }.

(** The window records heights of blocks only. *)
Definition positive (s : poller) : Prop := forall h i, recentBroadcastHashes s !! h = Some i -> 1 <= h.

Record calm (C : source) (s : poller) : Prop := {
  ca_quiet : quiet s;
  ca_src : src s = C;
  ca_tracks : tracks s;
  ca_recent : positive s }.

Definition seen_all (s : poller) : Prop := lastEventId s = max_event_id (src s).
Definition guarded (s : poller) : Prop :=
  let i := source_id (src s) (default 0 (lastPolledBlock s)) in
  lastPolledBlockHash s = None \/ i = None \/ i = lastPolledBlockHash s.

Lemma marker_positive e b : reorgMarkerBlock e = Ok b -> 1 <= b.
Proof.
  unfold reorgMarkerBlock. destruct (safe_integer _) as [z|]; [|done]. destruct (z <? 1) eqn:E; [done|].
  intros [= <-]. by apply Z.ltb_ge.
Qed.
Lemma lowest_marker_total l acc : (forall e, e ∈ l -> exists b, reorgMarkerBlock e = Ok b) -> (forall a, acc = Some a -> 1 <= a) ->
  exists fork, lowest_marker acc l = Ok fork /\ forall f, fork = Some f -> 1 <= f.
Proof.
  revert acc; induction l as [|e l IH]; intros acc Hl Ha; cbn; [by exists acc|].
  destruct (Hl e ltac:(set_solver)) as [b Hb]. rewrite Hb. cbn. apply IH; [set_solver|].
  intros a [= <-]. pose proof (marker_positive e b Hb). destruct acc as [a|]; [|done]. specialize (Ha a eq_refl). lia.
Qed.

Lemma max_id_len C : default 0 (max_event_id C) = Z.of_nat (length (events C)).
Proof. unfold max_event_id. by destruct (events C). Qed.

Lemma max_id_positive C n : max_event_id C = Some n -> 1 <= n.
Proof. unfold max_event_id. destruct (events C); [done|]. intros [= <-]. cbn. lia. Qed.

(** With every query answered, the markers are those of the rows not yet read. *)
Lemma markers_quiet C T s : dbType = Indexer -> healthy C T -> quiet s -> src s = C -> reorgMarkerCursorInitialized s = true ->
  0 <= default 0 (lastEventId s) <= Z.of_nat (length (events (src s))) ->
  exists markers, readNewReorgMarkers s = (s, Ok (markers, max_event_id C))
    /\ (forall e, e ∈ markers -> e ∈ events C /\ is_reorg e = true) /\ (seen_all s -> markers = []).
Proof.
  intros Hdb Hh Hq Hs Hinit Hseen. unfold readNewReorgMarkers, bind at 1, gets at 1, bind at 1, gets at 1.
  rewrite Hinit. cbn [negb orb]. rewrite bool_decide_eq_false_2 by (by rewrite Hdb).
  unfold readLatestEventId. rewrite Hdb. unfold bind at 1. unfold bind at 1. rewrite strict_quiet by done. rewrite Hs.
  unfold seen_all. rewrite Hs.
  rewrite Hs in Hseen. pose proof (he_events _ _ Hh). pose proof (max_id_len C) as Hm.
  pose proof (max_id_positive C) as Hp.
  destruct (max_event_id C) as [n|]; cbn in Hm; [|by exists []; split; [done|]; split; [set_solver|]].
  specialize (Hp n eq_refl). rewrite (proj2 (Z.ltb_ge MAX_SAFE n)), (proj2 (Z.ltb_ge n 1)) by lia. cbn [orb].
  unfold ret at 1. case_bool_decide as Es; [by exists []; split; [done|]; split; [set_solver|]|].
  replace (match lastEventId s with Some z => n <? z | None => false end) with false.
  2: { destruct (lastEventId s) as [z|]; [|done]. cbn in Hseen. symmetry. apply Z.ltb_ge. lia. }
  unfold bind at 1. rewrite strict_quiet by done. eexists. split; [done|]. split; [|done].
  intros e He. apply list_elem_of_In, filter_In in He as [He Hr]. split; [|done].
  rewrite Hs in He. unfold id_window in He. apply list_elem_of_In in He. 
  apply elem_of_take in He as (i & He & _). rewrite lookup_drop in He. by eapply list_elem_of_lookup_2.
Qed.

Lemma publish_positive r n s : 1 <= n -> positive s -> positive (publishBlockPayload r n s).
Proof. intros Hn Hp h i [->|[j Hj]]%publish_recent; [done|by eapply Hp]. Qed.
Lemma quiet_ext s s' : moves s' = moves s -> replies s' = replies s -> quiet s -> quiet s'.
Proof. unfold quiet. by intros -> ->. Qed.

(** What the subscribers hold after a pass: up to [c] what they held, above it the
    source's blocks up to the cursor. *)
Definition announced (C : source) (h : Z) : option (option string) := identity <$> row_at C h.
Definition extends (C : source) (c : Z) (s s' : poller) : Prop :=
  forall h, view (sent s') !! h =
    if decide (h <= c) then view (sent s) !! h
    else if decide (h <= default 0 (lastPolledBlock s')) then announced C h else None.

Lemma extends_drop C f s s' r : lastPolledBlock s' = Some (f - 1) -> sent s' = ReorgMsg f r :: sent s -> extends C (f - 1) s s'.
Proof.
  intros Hc Hs h. rewrite Hs, Hc, view_reorg. cbn. repeat case_decide; try done; lia.
Qed.
Lemma extends_stay C s s' : tracks s -> sent s' = sent s -> lastPolledBlock s' = lastPolledBlock s ->
  is_Some (lastPolledBlock s) -> extends C (default 0 (lastPolledBlock s)) s s'.
Proof.
  intros Ht Hs Hc [c Ec] h. rewrite Hs, Hc. rewrite Ec. cbn. case_decide; [done|].
  destruct (view (sent s) !! h) as [i|] eqn:Ev; [|done]. destruct (tr_below _ Ht h i Ev) as (c' & Ec' & ?).
  rewrite Ec in Ec'. injection Ec' as <-. lia.
Qed.
Lemma extends_trans C c1 c2 s1 s2 s3 : c2 <= default 0 (lastPolledBlock s2) -> c2 <= default 0 (lastPolledBlock s3) ->
  extends C c1 s1 s2 -> extends C c2 s2 s3 -> extends C (Z.min c1 c2) s1 s3.
Proof.
  intros Hc Hc' H1 H2 h. rewrite H2. case_decide.
  - rewrite H1. repeat case_decide; try done; lia.
  - repeat case_decide; try done; lia.
Qed.

(** The forward stream over a source that stands still. *)
Lemma stream_quiet C n T k s : 1 <= first -> quiet s -> src s = C -> tracks s -> positive s -> is_Some (lastPolledBlock s) ->
  let L := default 0 (lastPolledBlock s) in
  L <= T ->
  exists s' k', stream_loop n C T k s = (s', Ok k') /\ quiet s' /\ src s' = C
    /\ lastPolledBlock s' = Some (Z.min T (L + Z.of_nat n)) /\ lastEventId s' = lastEventId s
    /\ extends C L s s' /\ positive s'
    /\ lastPolledBlockHash s' = (if L <? Z.min T (L + Z.of_nat n) then source_id C (Z.min T (L + Z.of_nat n)) else lastPolledBlockHash s).
Proof.
  intros Hfirst. revert k s; induction n as [|n IH]; intros k s Hq Hs Ht Hpos Hsome; cbv zeta; set (L := default 0 (lastPolledBlock s)); intros HL.
  { exists s, k. assert (lastPolledBlock s = Some L) as Ec by (unfold L; by destruct Hsome as [c ->]).
    rewrite Z.min_r by lia. rewrite Z.add_0_r. split; [done|]. split; [done|]. split; [done|]. split; [done|]. split; [done|].
    split; [by apply extends_stay|]. split; [done|]. by rewrite (proj2 (Z.ltb_ge L L)) by lia. }
  cbn [stream_loop]. unfold bind at 1, gets at 1. fold L. destruct (L <? T) eqn:E; [apply Z.ltb_lt in E|apply Z.ltb_ge in E].
  2: { exists s, k. assert (lastPolledBlock s = Some L) as Ec by (unfold L; by destruct Hsome as [c ->]).
    assert (Z.min T (L + Z.of_nat (S n)) = L) as -> by lia. split; [done|]. split; [done|]. split; [done|]. split; [done|]. split; [done|].
    split; [by apply extends_stay|]. split; [done|]. by rewrite (proj2 (Z.ltb_ge L L)) by lia. }
  cbv zeta. assert (exists s1, (let* payload := buildBlockPayload (L + 1) C in
      (match payload with
       | Some r => logCall (recordBlock epochSize readOnly retentionBlocks retentionFloor (L + 1) (hashes_of r)) ;;; modify (publishBlockPayload r (L + 1))
       | None => modify (set_hash None) end) ;;; modify (set_cursor (Some (L + 1))) ;;; stream_loop n C T (k + 1)) s
      = stream_loop n C T (k + 1) s1 /\ quiet s1 /\ src s1 = C /\ tracks s1 /\ lastPolledBlock s1 = Some (L + 1)
      /\ lastEventId s1 = lastEventId s /\ extends C L s s1 /\ positive s1 /\ lastPolledBlockHash s1 = source_id C (L + 1)) as (s1 & -> & Hq1 & Hs1 & Ht1 & Hc1 & He1 & Hx1 & Hp1 & Hh1).
  { unfold bind at 1. unfold buildBlockPayload, snapRead. unfold bind at 1. rewrite strict_quiet by done.
    unfold source_id. destruct (row_at C (L + 1)) as [r|] eqn:Er.
    - unfold bind at 1. rewrite strict_quiet by done. unfold ret. unfold bind at 1. unfold bind at 1. rewrite log_quiet by done.
      cbn [modify]. unfold bind. cbn [modify]. eexists. split; [done|].
      set (s0 := set_log _ s).
      assert (tracks s0) as Ht0. { apply (tracks_stable s); [|done]. split; done. }
      destruct (publish_fields r (L + 1) s0) as (E1 & E2 & E3 & E4 & E5 & E6 & E7 & E8 & E9).
      split; [apply (quiet_ext s0); [done..|]; by apply (quiet_ext s)|]. cbn [src set_cursor lastEventId lastPolledBlock lastPolledBlockHash].
      rewrite E2, E3, E8. split; [done|]. split.
      { apply (publish_tracks C r s0); [done| |done]. intros h x Hx. left. by change (src s0) with (src s); rewrite Hs. }
      split; [done|]. split; [done|]. split; [|split; [|done]].
      2: { apply (publish_positive r (L + 1) s0); [|done]. pose proof (row_at_lt C (L + 1) r Er). lia. }
      intros h. cbn [sent set_cursor lastPolledBlock default]. rewrite E7. cbn. rewrite lookup_insert.
      unfold announced. destruct (decide (L + 1 = h)) as [<-|Hne].
      + rewrite decide_False by lia. rewrite decide_True by lia. by rewrite Er.
      + change (sent s0) with (sent s). destruct (view (sent s) !! h) as [i|] eqn:Ev.
        * destruct (tr_below _ Ht h i Ev) as (c & Ec & Hh). unfold L in *. rewrite Ec in *. cbn in *. by rewrite decide_True by lia.
        * repeat case_decide; try done. lia.
    - unfold ret. unfold bind. cbn [modify]. eexists. split; [done|]. split; [by apply (quiet_ext s)|]. split; [done|].
      split; [apply tracks_cursor; [cbn; lia|]; by apply tracks_hash|]. split; [done|]. split; [done|]. split; [|done].
      intros h. cbn [sent set_cursor set_hash lastPolledBlock]. cbn.
      destruct (view (sent s) !! h) as [i|] eqn:Ev.
      + destruct (tr_below _ Ht h i Ev) as (c & Ec & Hh). unfold L in *. rewrite Ec in *. cbn in *. by rewrite decide_True by lia.
      + repeat case_decide; try done. assert (h = L + 1) as -> by lia. unfold announced. by rewrite Er. }
  destruct (IH (k + 1) s1 Hq1 Hs1 Ht1 Hp1 ltac:(by rewrite Hc1)) as (s' & k' & Hrun & Hq' & Hs' & Hc' & He' & Hx' & Hp' & Hh').
  { rewrite Hc1. cbn. lia. }
  rewrite Hc1 in Hc', Hx', Hh'. cbn [default] in Hc', Hx', Hh'. cbn in Hc', Hh'.
  exists s', k'. split; [done|]. split; [done|]. split; [done|].
  replace (Z.min T (L + Z.of_nat (S n))) with (Z.min T (L + 1 + Z.of_nat n)) by lia.
  split; [done|]. split; [congruence|]. split; [|split; [done|]].
  - rewrite <- (Z.min_l L (L + 1)) by lia. apply (extends_trans C L (L + 1) s s1 s'); [rewrite Hc1; cbn; lia|rewrite Hc'; cbn; lia|done..].
  - rewrite (proj2 (Z.ltb_lt L _)) by lia. rewrite Hh'. case_match eqn:El; [done|]. apply Z.ltb_ge in El.
    rewrite Hh1. f_equal. lia.
Qed.

(** One pass over a source that stands still, by what it does. *)
Inductive pass (C : source) (T : Z) (s s' : poller) : Prop :=
| PassMarkers c : ~ seen_all s -> lastPolledBlock s' = Some c -> c < default 0 (lastPolledBlock s) -> extends C c s s' -> pass C T s s'
| PassForward c : ~ guarded s -> lastPolledBlock s' = Some c -> c < default 0 (lastPolledBlock s) -> guarded s' -> extends C c s s' -> pass C T s s'
| PassDrop c : guarded s -> T < default 0 (lastPolledBlock s) -> lastPolledBlock s' = Some c -> c <= T -> extends C c s s' -> pass C T s s'
| PassStream : guarded s -> default 0 (lastPolledBlock s) <= T ->
    lastPolledBlock s' = Some (Z.min T (default 0 (lastPolledBlock s) + 100)) -> guarded s' ->
    extends C (default 0 (lastPolledBlock s)) s s' -> pass C T s s'.

Lemma pass_event C T s s' e : ~ seen_all s \/ set_event e s = s -> pass C T (set_event e s) s' -> pass C T s s'.
Proof. intros [Hn|<-]; [|done]. destruct 1; [by eapply PassMarkers|by eapply PassForward|by eapply PassDrop|by eapply PassStream]. Qed.

Lemma forward_quiet C T s : calm C s -> is_Some (lastPolledBlock s) -> is_Some (lastPolledBlockHash s) ->
  (guarded s /\ handleNetForwardReorg s = (s, Ok false))
  \/ exists s', handleNetForwardReorg s = (s', Ok true) /\ quiet s' /\ src s' = C /\ lastEventId s' = lastEventId s /\ positive s' /\ pass C T s s'.
Proof.
  intros [Hq Hs Ht Hpos] [L Ec] [g Eg].
  set (i := source_id (src s) (default 0 (lastPolledBlock s))).
  assert (handleNetForwardReorg s = (if bool_decide (i = None \/ i = lastPolledBlockHash s) then ret false else
    let* forkBlock := resolveForkPoint (default 0 (lastPolledBlock s)) in
    logCall (pruneFrom readOnly forkBlock) ;;;
    modify (fun s =>
      let s := set_cursor (Some (forkBlock - 1)) (broadcastReorg forkBlock None s) in
      set_hash (if 0 <=? forkBlock - 1 then default None (recentBroadcastHashes s !! (forkBlock - 1)) else None) s) ;;;
    updateStatus None ;;;
    ret true) s) as ->.
  { unfold handleNetForwardReorg, bind at 1, gets at 1. unfold bind at 1, sourceBlockHash. by rewrite soft_quiet by done. }
  case_bool_decide as Hg; [left; split; [|done]; unfold guarded; fold i; naive_solver|]. right.
  assert (~ guarded s) as Hng. { unfold guarded. fold i. rewrite Eg in *. naive_solver. }
  destruct (resolve_quiet (default 0 (lastPolledBlock s)) s Hq) as (f & Hf & Hle & _ & Hconf & _).
  unfold bind at 1. rewrite Hf. unfold bind at 1. rewrite log_quiet by done. unfold bind at 1. cbn [modify].
  set (s0 := set_log _ s). set (s2 := set_hash _ _). assert (quiet s2) as Hq2 by (by apply (quiet_ext s)).
  unfold bind. rewrite status_quiet by done. exists s2. split; [done|]. split; [done|]. split; [done|]. split; [done|]. split; [exact Hpos|].
  apply (PassForward _ _ _ _ (f - 1)); [done|done|cbn; rewrite Ec in *; cbn in *; lia| |by apply (extends_drop C f s s2 None)].
  unfold guarded. cbn. destruct (0 <=? f - 1); [|by left]. unfold confirmed in Hconf.
  destruct (recentBroadcastHashes s !! (f - 1)) as [x|] eqn:Er; cbn; [|by left].
  right. destruct Hconf as [Hlt|[?|[?|[= ->]]]]; [|done|by left|by right].
  specialize (Hpos _ _ Er). lia.
Qed.

Lemma drop_quiet C T s : healthy C T -> calm C s -> guarded s -> T < default 0 (lastPolledBlock s) ->
  exists s', handleHeightDropReorg T s = (s', Ok tt) /\ quiet s' /\ src s' = C /\ lastEventId s' = lastEventId s
    /\ positive s' /\ pass C T s s'.
Proof.
  intros Hh [Hq Hs Ht Hpos] Hg HT. unfold handleHeightDropReorg.
  destruct (resolve_quiet (T + 1) s Hq) as (w & Hw & Hle & _). unfold bind at 1. rewrite Hw.
  assert (exists m, getSourceReplayMarker s = (s, Ok m) /\ forall r, retroactiveFromRules m = Some r -> target r <= T + 1) as (m & Hm & Hr).
  { unfold getSourceReplayMarker, bind. rewrite strict_quiet by done. rewrite Hs. destruct (last_replay C) as [e|] eqn:El.
    - destruct (he_replay _ _ Hh e El) as (m & Hm & Hr). unfold lift. rewrite Hm. exists (Some m). done.
    - exists None. done. }
  unfold bind at 1. rewrite Hm. cbv zeta. set (f := retroactiveForkPoint (retroactiveFromRules m) w).
  assert (f <= T + 1) as Hf. { unfold f. destruct (retroactiveFromRules m) as [r|] eqn:Er; cbn; [by apply Hr|done]. }
  unfold bind at 1. rewrite log_quiet by done. unfold bind at 1. cbn [modify]. set (s1 := set_cursor _ _).
  assert (quiet s1) as Hq1 by (by apply (quiet_ext s)). unfold bind at 1. rewrite rearm_quiet by done.
  set (s2 := set_hash _ s1). rewrite status_quiet by (by apply (quiet_ext s1)). exists s2.
  split; [done|]. split; [by apply (quiet_ext s1)|]. split; [done|]. split; [done|]. split; [exact Hpos|].
  apply (PassDrop _ _ _ _ (f - 1)); [done..|lia|]. by apply (extends_drop C f s s2 (retroactiveFromRules m)).
Qed.

Lemma streaming_quiet C T s : 1 <= first -> healthy C T -> calm C s -> is_Some (lastPolledBlock s) -> guarded s ->
  default 0 (lastPolledBlock s) <= T ->
  exists s' r, (if default 0 (lastPolledBlock s) <? T then streamNewBlocks T else ret (0, T)) s = (s', Ok r)
    /\ quiet s' /\ src s' = C /\ lastEventId s' = lastEventId s /\ positive s' /\ pass C T s s'.
Proof.
  intros Hfirst Hh [Hq Hs Ht Hpos] Hsome Hg HL. set (L := default 0 (lastPolledBlock s)) in *.
  assert (lastPolledBlock s = Some L) as Ec by (unfold L; by destruct Hsome as [c ->]).
  destruct (L <? T) eqn:E; [apply Z.ltb_lt in E|apply Z.ltb_ge in E].
  - unfold streamNewBlocks, beginReadSnapshot. unfold bind at 1. rewrite strict_quiet by done.
    unfold finally. unfold bind at 1, snapRead. rewrite strict_quiet by done. rewrite Hs, (he_tip _ _ Hh). cbv zeta. cbn [default].
    destruct (stream_quiet C 100 T 0 s Hfirst Hq Hs Ht Hpos Hsome HL) as (s' & k & Hrun & Hq' & Hs' & Hc' & He' & Hx' & Hp' & Hh').
    fold L in Hc', Hx', Hh'. unfold bind. change (id T) with T. rewrite Hrun. unfold ret, commitReadSnapshot. rewrite strict_quiet by done.
    exists s', (k, T). split; [done|]. split; [done|]. split; [done|]. split; [done|]. split; [done|].
    apply PassStream; fold L; try done. unfold guarded. rewrite Hs', Hc'. cbn [default]. rewrite Hh', (proj2 (Z.ltb_lt L _)) by lia.
    by right; right.
  - exists s, (0, T). split; [done|]. split; [done|]. split; [done|]. split; [done|]. split; [done|].
    apply PassStream; fold L; try done; [rewrite Ec; f_equal; lia|]. unfold L. by apply extends_stay.
Qed.

(** The rest of a pass, and the pass itself. *)
Lemma followSource_quiet C T s : 1 <= first -> healthy C T -> calm C s -> is_Some (lastPolledBlock s) ->
  let s' := (followSource T s).1 in quiet s' /\ src s' = C /\ lastEventId s' = lastEventId s /\ positive s' /\ pass C T s s'.
Proof.
  intros Hfirst Hh Hc Hsome. cbv zeta.
  assert ((guarded s /\ (match lastPolledBlockHash s with None => ret false | Some _ => handleNetForwardReorg end) s = (s, Ok false))
    \/ exists s', (match lastPolledBlockHash s with None => ret false | Some _ => handleNetForwardReorg end) s = (s', Ok true)
       /\ quiet s' /\ src s' = C /\ lastEventId s' = lastEventId s /\ positive s' /\ pass C T s s') as [[Hg Eg]|(s' & Eg & Hs')].
  { destruct (lastPolledBlockHash s) as [g|] eqn:Eh; [|left; split; [by left|done]].
    apply (forward_quiet C T s Hc Hsome). by rewrite Eh. }
  - destruct (T <? default 0 (lastPolledBlock s)) eqn:ET; [apply Z.ltb_lt in ET as HT|apply Z.ltb_ge in ET as HT].
    + destruct (drop_quiet C T s Hh Hc Hg HT) as (s' & E & Hs').
      enough (followSource T s = (s', Ok None)) as -> by done.
      unfold followSource, bind, gets. rewrite Eg, ET. by rewrite E.
    + destruct (streaming_quiet C T s Hfirst Hh Hc Hsome Hg HT) as (s' & r & E & Hs').
      enough (followSource T s = (s', Ok (Some r.1))) as -> by done.
      unfold followSource, bind, gets. rewrite Eg, ET, E. by rewrite status_quiet by apply Hs'.
  - enough (followSource T s = (s', Ok None)) as -> by done. unfold followSource, bind, gets. by rewrite Eg.
Qed.

Lemma poll_quiet C T s : dbType = Indexer -> 1 <= first -> healthy C T -> calm C s -> is_Some (lastPolledBlock s) ->
  let s' := (poll s).1 in calm C s' /\ seen_all s' /\ is_Some (lastPolledBlock s') /\ pass C T s s'.
Proof.
  intros Hdb Hfirst Hh Hcalm [L Ec]. cbv zeta.
  enough (exists s' r, poll s = (s', r) /\ quiet s' /\ src s' = C /\ lastEventId s' = max_event_id C /\ positive s' /\ pass C T s s')
    as (s' & r & E & Hq' & Hs' & He' & Hp' & Hpass).
  { pose proof (poll_tracks s Hdb (ca_tracks _ _ Hcalm)) as Ht'. rewrite E in *. cbn [fst] in *. split; [by split|].
    split; [unfold seen_all; congruence|]. split; [destruct Hpass; eauto|done]. }
  pose proof (handleReorgMarkers_tracks s Hdb (ca_tracks _ _ Hcalm)) as Htm.
  destruct (markers_quiet C T s Hdb Hh (ca_quiet _ _ Hcalm) (ca_src _ _ Hcalm) (tr_init _ (ca_tracks _ _ Hcalm)) (tr_seen _ (ca_tracks _ _ Hcalm))) as (markers & Hread & Hin & Hnone).
  destruct (lowest_marker_total markers None) as (fork & Hl & Hpos1); [intros e He; destruct (Hin e He); by eapply he_markers|done|].
  assert (~ seen_all s \/ set_event (max_event_id C) s = s) as Hev.
  { destruct (decide (lastEventId s = max_event_id C)) as [Ee|Hne]; [|left; unfold seen_all; by rewrite (ca_src _ _ Hcalm)].
    right. rewrite <- Ee. by destruct s. }
  pose proof Hcalm as [Hq Hs Ht Hpos].
  assert (exists s1 b, handleReorgMarkers s = (s1, Ok b) /\ quiet s1 /\ src s1 = C /\ lastEventId s1 = max_event_id C /\ positive s1
    /\ (if b : bool then pass C T s s1 else s1 = set_event (max_event_id C) s)) as (s1 & b & Eh & Hq1 & Hs1 & He1 & Hp1 & Hb).
  { unfold handleReorgMarkers. unfold bind at 1. rewrite Hread. unfold bind at 1, lift. rewrite Hl.
    destruct fork as [f|]; [|by exists (set_event (max_event_id C) s), false].
    unfold bind at 1, gets at 1. rewrite Ec. cbn [default]. change (id L) with L. destruct (L <? f) eqn:Ef; [by exists (set_event (max_event_id C) s), false|].
    apply Z.ltb_ge in Ef. unfold bind at 1. rewrite log_quiet by done. unfold bind at 1. cbn [modify]. set (s1 := set_event _ _).
    assert (quiet s1) as Hq1 by (by apply (quiet_ext s)). unfold bind at 1. rewrite rearm_quiet by done. set (s2 := set_hash _ s1).
    assert (quiet s2) by (by apply (quiet_ext s)). unfold bind. rewrite status_quiet by done.
    exists s2, true. split; [done|]. split; [done|]. split; [done|]. split; [done|]. split; [exact Hpos|].
    apply (PassMarkers _ _ _ _ (f - 1)); [|done|rewrite Ec; cbn; lia|by apply (extends_drop C f s s2 None)].
    intros Hall. rewrite (Hnone Hall) in Hl. done. }
  assert (poll s = (if b then ret None else followSource T) s1) as ->.
  { unfold poll, getLastBlock_strict. unfold bind at 1. rewrite strict_quiet by done. rewrite Hs, (he_tip _ _ Hh).
    unfold bind at 1, gets at 1. rewrite Ec. unfold bind at 1. by rewrite Eh. }
  destruct b; [by exists s1, (Ok None)|]. rewrite Eh in Htm. cbn [fst] in Htm.
  assert (calm C s1) as Hc1 by (by split).
  destruct (followSource_quiet C T s1 Hfirst Hh Hc1) as (Hq' & Hs' & He' & Hp' & Hpass); [by subst s1; cbn; rewrite Ec|].
  exists (followSource T s1).1, (followSource T s1).2. split; [apply surjective_pairing|]. split; [done|]. split; [done|]. split; [congruence|].
  split; [done|]. subst s1. by apply (pass_event _ _ _ _ (max_event_id C)).
Qed.

(** ** Convergence *)
Definition settled (T : Z) (s : poller) : Prop := guarded s /\ default 0 (lastPolledBlock s) <= T.

Section Converge.
Variables (C : source) (T : Z).
Context (is_indexer : dbType = Indexer) (first_pos : 1 <= first) (sound : healthy C T).

Definition at_rest (s : poller) : Prop := calm C s /\ seen_all s /\ is_Some (lastPolledBlock s).
Lemma poll_at_rest s : at_rest s -> at_rest (poll s).1 /\ pass C T s (poll s).1.
Proof.
  intros (Hc & Hs & Hsome). destruct (poll_quiet C T s is_indexer first_pos sound Hc Hsome) as (? & ? & ? & ?). done.
Qed.

Lemma pass_settled s : at_rest s -> settled T s -> settled T (poll s).1
  /\ lastPolledBlock (poll s).1 = Some (Z.min T (default 0 (lastPolledBlock s) + 100)) /\ extends C (default 0 (lastPolledBlock s)) s (poll s).1.
Proof.
  intros Hr [Hg HL]. destruct (poll_at_rest s Hr) as [_ [c Hn|c Hn|c Hg' HT|Hg' HT Hc Hgs Hx]]; [by destruct Hn; apply Hr|done|lia|].
  split; [|done]. split; [done|]. rewrite Hc. cbn. lia.
Qed.
(** Three more passes settle the cursor. *)
Lemma pass_low s : at_rest s -> default 0 (lastPolledBlock s) <= T -> settled T (poll s).1.
Proof.
  intros Hr HL. destruct (poll_at_rest s Hr) as [_ [c Hn|c Hn Hc Hlt Hg|c Hg' HT|Hg' HT Hc Hgs Hx]]; [by destruct Hn; apply Hr| |lia|];
    (split; [done|]); rewrite Hc; cbn; lia.
Qed.
Lemma pass_guarded s : at_rest s -> guarded s -> default 0 (lastPolledBlock (poll s).1) <= T.
Proof.
  intros Hr HL. destruct (poll_at_rest s Hr) as [_ [c Hn|c Hn|c Hg' HT Hc Hle|Hg' HT Hc Hgs Hx]]; [by destruct Hn; apply Hr|done|..];
    rewrite Hc; cbn; lia.
Qed.
Lemma pass_any s : at_rest s -> guarded (poll s).1 \/ default 0 (lastPolledBlock (poll s).1) <= T.
Proof.
  intros Hr. destruct (poll_at_rest s Hr) as [_ [c Hn|c Hn Hc Hlt Hg|c Hg' HT Hc Hle|Hg' HT Hc Hgs Hx]]; [by destruct Hn; apply Hr|by left| |by left].
  right. rewrite Hc. cbn. lia.
Qed.
Lemma pass_extends s s' : is_Some (lastPolledBlock s) -> pass C T s s' ->
  exists c, c <= default 0 (lastPolledBlock s) /\ c <= default 0 (lastPolledBlock s') /\ extends C c s s'.
Proof.
  intros Hsome [c _ Hc Hlt Hx|c _ Hc Hlt _ Hx|c _ HT Hc Hle Hx|_ HT Hc _ Hx].
  1-3: exists c; split; [lia|]; split; [rewrite Hc; cbn; lia|done].
  exists (default 0 (lastPolledBlock s)). split; [lia|]. split; [rewrite Hc; cbn; lia|done].
Qed.

Lemma settles s : calm C s -> is_Some (lastPolledBlock s) -> at_rest (polls 4 s) /\ settled T (polls 4 s)
  /\ exists c, c <= default 0 (lastPolledBlock s) /\ c <= default 0 (lastPolledBlock (polls 4 s)) /\ extends C c s (polls 4 s).
Proof.
  intros Hc Hsome. pose proof (poll_quiet C T s is_indexer first_pos sound Hc Hsome) as (Hc1 & Hs1 & Hsome1 & Hp1). cbv zeta in *.
  cbn [polls Nat.iter]. set (s1 := (poll s).1) in *. assert (at_rest s1) as Hr1 by done.
  destruct (poll_at_rest s1 Hr1) as [Hr2 Hp2]. pose proof (pass_any s1 Hr1) as H2. set (s2 := (poll s1).1) in *.
  destruct (poll_at_rest s2 Hr2) as [Hr3 Hp3]. assert (default 0 (lastPolledBlock (poll s2).1) <= T) as H3.
  { destruct H2 as [H2|H2]; [by apply pass_guarded|]. by apply pass_low. }
  set (s3 := (poll s2).1) in *. destruct (poll_at_rest s3 Hr3) as [Hr4 Hp4]. pose proof (pass_low s3 Hr3 H3) as H4.
  split; [done|]. split; [done|].
  destruct (pass_extends s s1 Hsome Hp1) as (c1 & ? & ? & X1). destruct (pass_extends s1 s2 Hsome1 Hp2) as (c2 & ? & ? & X2).
  destruct (pass_extends s2 s3 ltac:(apply Hr2) Hp3) as (c3 & ? & ? & X3). destruct (pass_extends s3 _ ltac:(apply Hr3) Hp4) as (c4 & ? & ? & X4).
  change (polls 4 s) with (poll s3).1. assert (extends C (Z.min (Z.min c1 c2) (Z.min c3 c4)) s (poll s3).1) as X; [|exists (Z.min (Z.min c1 c2) (Z.min c3 c4)); split; [lia|]; split; [lia|done]].
  apply (extends_trans C _ _ s s2 _); [lia|lia|by apply (extends_trans C c1 c2 s s1 s2)|by apply (extends_trans C c3 c4 s2 s3)].
Qed.

Lemma streams n s : at_rest s -> settled T s -> let L := default 0 (lastPolledBlock s) in
  at_rest (polls n s) /\ lastPolledBlock (polls n s) = Some (Z.min T (L + 100 * Z.of_nat n)) /\ extends C L s (polls n s).
Proof.
  intros Hr Hset. cbv zeta. set (L := default 0 (lastPolledBlock s)).
  assert (lastPolledBlock s = Some L) as Ec by (unfold L; destruct Hr as (_ & _ & [c ->]); done).
  enough (at_rest (polls n s) /\ settled T (polls n s) /\ lastPolledBlock (polls n s) = Some (Z.min T (L + 100 * Z.of_nat n)) /\ extends C L s (polls n s))
    as (? & ? & ? & ?) by done.
  assert (L <= T) by apply Hset.
  induction n as [|n (IHr & IHs & IHc & IHx)].
  - change (polls 0 s) with s. split; [done|]. split; [done|]. split; [rewrite Ec; f_equal; lia|]. unfold L. apply extends_stay; try done; apply Hr.
  - change (polls (S n) s) with (poll (polls n s)).1. destruct (poll_at_rest _ IHr) as [Hr' _]. destruct (pass_settled _ IHr IHs) as (Hs' & Hc' & Hx').
    rewrite IHc in Hc', Hx'. cbn [default] in Hc', Hx'. cbn in Hx'. split; [done|]. split; [done|]. split; [rewrite Hc'; cbn; f_equal; lia|].
    replace L with (Z.min L (Z.min T (L + 100 * Z.of_nat n))) by lia.
    apply (extends_trans C _ _ s (polls n s)); [rewrite IHc; cbn; lia|rewrite Hc'; cbn; lia|done|exact Hx'].
Qed.

(** What the subscribers hold is the source's. *)
Lemma at_rest_agree s h i : at_rest s -> view (sent s) !! h = Some i -> announced C h = Some i.
Proof.
  intros ([Hq Hs Ht _] & Hall & _) Hv. unfold announced. destruct (tr_view _ Ht h i Hv) as [(r & Hr & <-)|(e & He & _)].
  - rewrite <- Hs. by rewrite Hr.
  - exfalso. unfold unseen in He. rewrite Hall, max_id_len, Nat2Z.id, drop_all in He. by apply not_elem_of_nil in He.
Qed.
End Converge.

(** ** Theorems *)

(** A started poller: nothing announced yet, the event cursor set, and every rollback
    the source will make writes its REORG row. *)
Record started (s : poller) : Prop := {
  s_sent : sent s = [];
  s_init : reorgMarkerCursorInitialized s = true;
  s_seen : 0 <= default 0 (lastEventId s) <= Z.of_nat (length (events (src s)));
  s_moves : moves_ok s;
  s_recent : forall h i, recentBroadcastHashes s !! h = Some i -> first <= h }.
Lemma started_tracks s : started s -> tracks s.
Proof. intros []. split; try done; rewrite s_sent0; cbn; intros h i; by rewrite lookup_empty. Qed.

(** C4. Whatever an indexed source does between the queries of the poller and whichever
    queries fail, after any number of passes every block the subscribers hold is the
    source's block at that height, or a REORG row that the poller has not read yet
    names its height or a lower one. *)
Theorem announced_tracks_source s n h i :
  dbType = Indexer -> started s -> view (sent (polls n s)) !! h = Some i ->
  (exists r, row_at (src (polls n s)) h = Some r /\ identity r = i)
  \/ exists e, e ∈ unseen (polls n s) /\ names h e.
Proof. intros Hdb Hs Hv. apply (tr_view _ (polls_tracks n s Hdb (started_tracks s Hs)) h i Hv). Qed.

(** C23. Once the source stands still and answers, the passes reach its tip: from some
    pass on the cursor is the tip, the subscribers hold what they held up to some
    height [c] and the source's blocks above it, and all they hold is the source's. *)
Theorem poller_converges s0 k L T :
  dbType = Indexer -> 1 <= first -> started s0 ->
  let s := polls k s0 in let C := src s in
  quiet s -> healthy C T -> lastPolledBlock s = Some L ->
  exists c N, c <= L /\ c <= T /\ forall n, (N <= n)%nat ->
    lastPolledBlock (polls n s) = Some T
    /\ (forall h, view (sent (polls n s)) !! h =
         if decide (h <= c) then view (sent s) !! h else if decide (h <= T) then announced C h else None)
    /\ (forall h i, view (sent (polls n s)) !! h = Some i -> announced C h = Some i).
Proof.
  intros Hdb Hfirst Hst. cbv zeta. set (s := polls k s0). intros Hq Hh Hc.
  pose proof (polls_tracks k s0 Hdb (started_tracks s0 Hst)) as Ht. fold s in Ht.
  assert (calm (src s) s) as Hcalm. { split; [done..|]. intros h i Hi. pose proof (tr_recent _ Ht h i Hi). lia. }
  destruct (settles (src s) T Hdb Hfirst Hh s Hcalm ltac:(by rewrite Hc)) as (Hr & Hset & c & Hc1 & Hc2 & Hx).
  set (s4 := polls 4 s) in *. exists c, (Nat.add 4 (Z.to_nat (T - default 0 (lastPolledBlock s4)))).
  rewrite Hc in Hc1. cbn in Hc1. split; [done|]. split; [pose proof (proj2 Hset); lia|].
  intros n Hn. replace n with ((n - 4) + 4)%nat by lia.
  assert (polls ((n - 4) + 4) s = polls (n - 4) s4) as -> by (unfold s4, polls; by rewrite Nat.iter_add).
  destruct (streams (src s) T Hdb Hfirst Hh (n - 4) s4 Hr Hset) as (Hr' & Hc' & Hx').
  assert (lastPolledBlock (polls (n - 4) s4) = Some T) as HT. { rewrite Hc'. f_equal. pose proof (proj2 Hset). lia. }
  split; [done|]. split; [|intros h i; by apply at_rest_agree].
  assert (extends (src s) c s (polls (n - 4) s4)) as Hall.
  { replace c with (Z.min c (default 0 (lastPolledBlock s4))) by lia.
    apply (extends_trans _ _ _ s s4); [lia| |done|done]. rewrite HT. cbn. apply Hset. }
  intros h. by rewrite (Hall h), HT.
Qed.

(** ** A restart after a reorg

    The identity the log recorded for a height. *)
Definition recorded (l : log) (h : Z) (i : string) : Prop := exists hs, (h, hs) ∈ meta l /\ (row_of_hashes (h, hs)).2 = Some i.

Lemma only_row lo l h hs : ascending lo l -> (h, hs) ∈ l -> List.filter (fun p => fst p =? h) l = [(h, hs)].
Proof.
  revert lo; induction l as [|[h' hs'] l IH]; intros lo Ha Hin; [by apply not_elem_of_nil in Hin|]. destruct Ha as [Hlo Ha]. cbn in *.
  apply elem_of_cons in Hin as [[= -> ->]|Hin].
  - rewrite Z.eqb_refl. f_equal. clear IH. induction l as [|p l IH]; cbn; [done|].
    pose proof (ascending_lt _ _ p Ha ltac:(left)). rewrite (proj2 (Z.eqb_neq _ _)) by lia.
    apply IH. destruct Ha as [? Ha]. eapply ascending_weaken; [|done]. lia.
  - pose proof (ascending_lt _ _ _ Ha Hin) as Hlt. cbn in Hlt. rewrite (proj2 (Z.eqb_neq _ _)) by lia. by eapply IH.
Qed.
Lemma window_row lo l floor cursor h i : ascending lo (meta l) -> floor <= h <= cursor -> recorded l h i ->
  last (List.filter (fun p => fst p =? h) (map row_of_hashes (between floor cursor (meta l)))) = Some (h, Some i).
Proof.
  intros Ha Hb (hs & Hin & Hi).
  assert (forall k, List.filter (fun p : Z * option string => fst p =? h) (map row_of_hashes k) = map row_of_hashes (List.filter (fun p => fst p =? h) k)) as Em.
  { induction k as [|[h' [[a b] c]] k IH]; cbn; [done|]. case_match; cbn; by rewrite IH. }
  rewrite Em, (only_row lo (between floor cursor (meta l)) h hs); [|by apply ascending_filter|by apply between_in].
  cbn. destruct hs as [[a b] c]. cbn in *. by rewrite Hi.
Qed.

(** The seeded window holds the recorded identities down to [a]. *)
Lemma suffix_seeds rows n h a (m : gmap Z (option string)) (ident : Z -> string) :
  (forall x, a <= x <= h -> last (List.filter (fun p => fst p =? x) rows) = Some (x, Some (ident x))) ->
  h - a < Z.of_nat n ->
  forall x, a <= x <= h ->
    foldr (fun p m => <[fst p := Some (snd p)]> m) m (suffix_from n h rows) !! x = Some (Some (ident x)).
Proof.
  revert h; induction n as [|n IH]; intros h Hrow Hn x Hx; [lia|]. cbn [suffix_from]. rewrite Hrow by lia. cbn [foldr fst snd].
  destruct (decide (x = h)) as [->|Hne]; [by rewrite lookup_insert_eq|]. rewrite lookup_insert_ne by lia.
  apply IH; [intros y Hy; apply Hrow; lia|lia|lia].
Qed.

Lemma max_id_range C : 0 <= default 0 (max_event_id C) <= Z.of_nat (length (events C)).
Proof. rewrite max_id_len. lia. Qed.

Lemma handle_quiet_none C T s : dbType = Indexer -> healthy C T -> quiet s -> src s = C -> reorgMarkerCursorInitialized s = true ->
  lastEventId s = max_event_id C -> handleReorgMarkers s = (s, Ok false).
Proof.
  intros Hdb Hh Hq Hs Hi He. unfold handleReorgMarkers, bind at 1.
  destruct (markers_quiet C T s Hdb Hh Hq Hs Hi) as (mk & -> & _ & Hnone); [rewrite He, Hs; apply max_id_range|].
  rewrite Hnone by (unfold seen_all; by rewrite Hs). unfold bind, lift. cbn. rewrite <- He. by destruct s.
Qed.

Section Restart.
Variables (s : poller) (l : log) (lo L a T : Z) (ident : Z -> string).
Context (is_indexer : dbType = Indexer) (first_pos : 1 <= first) (still : quiet s) (sound : healthy (src s) T)
  (has_log : transparencyLog s = Some l) (no_fault : faults l = []) (rising : ascending lo (meta l))
  (log_tip : fst <$> last (meta l) = Some L)
  (in_window : L - recentHashCap < a <= L) (positive_height : 1 <= a)
  (was_recorded : forall h, a <= h <= L -> recorded l h (ident h)).

(** The state [start] polls from. *)
Definition restarted : poller :=
  let floor := Z.max 1 (L - recentHashCap + 1) in
  let rows := map row_of_hashes (between floor L (meta l)) in
  set_hash (Some (ident L))
    (set_recent (foldr (fun p m => <[fst p := Some (snd p)]> m) (recentBroadcastHashes s) (suffix_from (Z.to_nat (L - floor + 1)) L rows))
      (set_cursor (Some L) (set_initialized true (set_event (max_event_id (src s)) s)))).

Lemma startCursor_quiet : startCursor s = (restarted, Ok tt).
Proof.
  unfold startCursor, initializeReorgMarkerCursor, readLatestEventId. rewrite is_indexer.
  unfold bind at 1. unfold bind at 1. unfold bind at 1. rewrite strict_quiet by done.
  pose proof (he_events _ _ sound). pose proof (max_id_len (src s)) as Hm. pose proof (max_id_positive (src s)) as Hp.
  assert (exists id, id = max_event_id (src s) /\ (match max_event_id (src s) with
     | Some z => if (MAX_SAFE <? z) || (z <? 1) then fail "ServerPoller: invalid events cursor" else ret (Some z) | None => ret None end) s = (s, Ok id))
    as (id & Eid & ->).
  { destruct (max_event_id (src s)) as [n|]; [|by exists None]. specialize (Hp n eq_refl). cbn in Hm.
    rewrite (proj2 (Z.ltb_ge MAX_SAFE n)), (proj2 (Z.ltb_ge n 1)) by lia. by exists (Some n). }
  cbn [modify]. set (s1 := set_initialized true _). assert (quiet s1) as Hq1 by (by apply (quiet_ext s)).
  unfold bind at 1, resumeCursor. unfold bind at 1, gets at 1. change (transparencyLog s1) with (transparencyLog s). rewrite has_log.
  unfold logRead, bind at 1. rewrite query_quiet by done. unfold bind at 1, gets at 1. change (transparencyLog s1) with (transparencyLog s). rewrite has_log.
  unfold getSyncMetaTip. rewrite !read_ok by done. unfold bind at 1. cbn [modify fst snd]. unfold ret at 1. rewrite log_tip.
  assert (set_log (Some l) s1 = s1) as -> by (subst s1; destruct s; cbn in *; by subst).
  unfold bind at 1. cbn [modify]. unfold bind at 1, seedReorgWindow. unfold bind at 1, gets at 1. cbn [lastPolledBlock set_cursor]. cbv zeta.
  set (floor := Z.max 1 (L - recentHashCap + 1)). set (s2 := set_cursor (Some L) s1). assert (quiet s2) as Hq2 by (by apply (quiet_ext s)).
  unfold bind at 1, readReorgWindow. unfold bind at 1, gets at 1. change (transparencyLog s2) with (transparencyLog s). rewrite has_log.
  rewrite strict_quiet by done. set (rows := map row_of_hashes (between floor L (meta l))).
  unfold bind at 1. cbn [modify].
  assert (exists rest, suffix_from (Z.to_nat (L - floor + 1)) L rows = (L, ident L) :: rest) as (rest & Esuf).
  { destruct (Z.to_nat (L - floor + 1)) as [|k] eqn:Ek; [lia|]. cbn [suffix_from].
    unfold rows. rewrite (window_row lo l floor L L (ident L)); [|done|lia|apply was_recorded; lia]. eauto. }
  rewrite Esuf. unfold ret. cbn [modify]. unfold restarted. fold floor rows. rewrite Esuf. by subst s2 s1 id.
Qed.

Lemma restarted_recent h : a <= h <= L -> recentBroadcastHashes restarted !! h = Some (Some (ident h)).
Proof.
  intros Hh. unfold restarted. cbn [recentBroadcastHashes set_hash set_recent].
  set (floor := Z.max 1 (L - recentHashCap + 1)).
  apply (suffix_seeds _ _ L a); [|lia|done]. intros x Hx. apply (window_row lo); [done|lia|]. by apply was_recorded.
Qed.

Context (agrees : source_id (src s) a = Some (ident a)) (forked : a < L)
  (differs : forall h, a < h <= L -> h <= T -> source_id (src s) h <> None /\ source_id (src s) h <> Some (ident h))
  (no_replay : forall e m, last_replay (src s) = Some e -> canonicalReplayMarker (data e) = Ok m -> retroactiveFromRules (Some m) = None).

Lemma quiet_restarted : quiet restarted.
Proof. by apply (quiet_ext s). Qed.
Lemma agreed_low : a <= T.
Proof.
  unfold source_id in agrees. destruct (row_at (src s) a) as [r|] eqn:E; [|done].
  by apply (row_below_tip (src s) T a r); [apply sound|].
Qed.
Lemma above_tip h : T < h -> source_id (src s) h = None.
Proof.
  intros Hh. unfold source_id. destruct (row_at (src s) h) as [r|] eqn:E; [|done].
  pose proof (row_below_tip (src s) T h r (he_tip _ _ sound) E). lia.
Qed.

(** The walk back from any changed height ends just above the fork. *)
Lemma walk_to_fork f : a < f <= L -> f <= T + 1 -> resolveForkPoint f restarted = (restarted, Ok (a + 1)).
Proof.
  intros Hf HT. destruct (resolve_quiet f restarted quiet_restarted) as (f' & Hw & Hle & H1 & Hconf & Hall).
  change (src restarted) with (src s) in *.
  assert (f' = a + 1) as ->; [|done]. destruct (Z.lt_trichotomy f' (a + 1)) as [Hlt|[?|Hgt]]; [|done|]; exfalso.
  - destruct (Hall a ltac:(lia)) as (r & Hr & _ & Hne). rewrite restarted_recent in Hr by lia. injection Hr as <-. by rewrite agrees in Hne.
  - destruct (differs (f' - 1) ltac:(lia) ltac:(lia)) as [Hn Hd].
    destruct Hconf as [?|[Hr|[?|Hr]]]; [lia| |done|]; rewrite restarted_recent in Hr by lia; [done|]. injection Hr as Hr. congruence.
Qed.

Lemma followSource_fork : let s' := (followSource T restarted).1 in
  sent s' = ReorgMsg (a + 1) None :: sent s /\ lastPolledBlock s' = Some a /\ lastPolledBlockHash s' = Some (ident a)
  /\ transparencyLog s' = Some (pruneFrom readOnly (a + 1) l).
Proof.
  pose proof quiet_restarted as Hq. pose proof agreed_low. cbv zeta.
  enough (exists s' r, followSource T restarted = (s', r) /\ sent s' = ReorgMsg (a + 1) None :: sent s /\ lastPolledBlock s' = Some a
    /\ lastPolledBlockHash s' = Some (ident a) /\ transparencyLog s' = Some (pruneFrom readOnly (a + 1) l)) as (s' & r & -> & Hs') by done.
  unfold followSource. unfold bind at 1, gets at 1. cbn [lastPolledBlockHash restarted set_hash].
  unfold handleNetForwardReorg at 1. unfold bind at 1. unfold bind at 1, gets at 1. cbn [lastPolledBlock restarted set_hash set_recent set_cursor default].
  change (id L) with L. unfold bind at 1, sourceBlockHash. rewrite soft_quiet by done. change (src restarted) with (src s).
  unfold bind at 1, gets at 1. cbn [lastPolledBlockHash restarted set_hash].
  destruct (Z.le_gt_cases L T) as [HL|HL].
  - destruct (differs L ltac:(lia) HL) as [Hn Hd]. rewrite bool_decide_eq_false_2 by naive_solver.
    unfold bind at 1. rewrite walk_to_fork by lia. unfold bind at 1. rewrite log_quiet by done. unfold bind at 1. cbn [modify].
    set (s1 := set_hash _ _). assert (quiet s1) by (by apply (quiet_ext restarted)). unfold bind at 1. rewrite status_quiet by done.
    exists s1, (Ok None). split; [done|]. split; [done|]. split; [cbn; f_equal; lia|]. split; [|cbn; by rewrite has_log].
    cbn [s1 lastPolledBlockHash set_hash]. replace (a + 1 - 1) with a by lia. rewrite (proj2 (Z.leb_le 0 a)) by lia.
    change (recentBroadcastHashes _) with (recentBroadcastHashes restarted). by rewrite restarted_recent by lia.
  - rewrite bool_decide_eq_true_2 by (left; apply above_tip; lia). unfold ret at 1. unfold bind at 1, gets at 1.
    cbn [lastPolledBlock restarted set_hash set_recent set_cursor default]. change (id L) with L. rewrite (proj2 (Z.ltb_lt T L)) by lia.
    unfold bind at 1, handleHeightDropReorg. unfold bind at 1. rewrite walk_to_fork by lia.
    assert (exists m, getSourceReplayMarker restarted = (restarted, Ok m) /\ retroactiveFromRules m = None) as (m & Hm & Hr).
    { unfold getSourceReplayMarker, bind. rewrite strict_quiet by done. change (src restarted) with (src s).
      destruct (last_replay (src s)) as [e|] eqn:El; [|by exists None]. destruct (he_replay _ _ sound e El) as (m & Hm & _).
      unfold lift. rewrite Hm. exists (Some m). split; [done|]. by apply (no_replay e m). }
    unfold bind at 1. rewrite Hm, Hr. cbv zeta. cbn [retroactiveForkPoint]. unfold bind at 1. rewrite log_quiet by done.
    unfold bind at 1. cbn [modify]. set (s1 := set_cursor _ _). assert (quiet s1) by (by apply (quiet_ext restarted)).
    unfold bind at 1. rewrite rearm_quiet by done. set (s2 := set_hash _ s1). rewrite status_quiet by (by apply (quiet_ext s1)).
    exists s2, (Ok None). split; [done|]. split; [done|]. split; [cbn; f_equal; lia|]. split; [|cbn; by rewrite has_log].
    cbn [s2 lastPolledBlockHash set_hash]. replace (a + 1 - 1) with a by lia.
    change (recentBroadcastHashes s1) with (recentBroadcastHashes restarted). by rewrite restarted_recent by lia.
Qed.
End Restart.

(** C33. A reorg that ran while the server was down is announced at its fork point: when
    an indexer source answers and does not move, no retroactive replay is pending, and the
    log's last recorded heights, down to [a] within the walk-back window, differ from the
    source's current blocks and agree with it at [a], the first pass after a restart announces one reorg at the height above [a], prunes the log from there and
    leaves the cursor, with its recorded identity, at [a]. *)
Theorem downtime_reorg_announced s l lo L a T (ident : Z -> string) :
  dbType = Indexer -> 1 <= first -> quiet s -> healthy (src s) T ->
  transparencyLog s = Some l -> faults l = [] -> ascending lo (meta l) -> fst <$> last (meta l) = Some L ->
  L - recentHashCap < a < L -> 1 <= a ->
  (forall h, a <= h <= L -> recorded l h (ident h)) ->
  source_id (src s) a = Some (ident a) ->
  (forall h, a < h <= L -> h <= T -> source_id (src s) h <> None /\ source_id (src s) h <> Some (ident h)) ->
  (forall e m, last_replay (src s) = Some e -> canonicalReplayMarker (data e) = Ok m -> retroactiveFromRules (Some m) = None) ->
  let s' := (poll (startCursor s).1).1 in
  sent s' = ReorgMsg (a + 1) None :: sent s /\ lastPolledBlock s' = Some a /\ lastPolledBlockHash s' = Some (ident a)
  /\ transparencyLog s' = Some (pruneFrom readOnly (a + 1) l).
Proof.
  intros Hdb Hfirst Hq Hh Hl Hnf Hasc Htip [Ha HaL] Hpos Hrec Hag Hdiff Hnr. cbv zeta.
  rewrite (startCursor_quiet s l lo L a T ident) by (done || lia). cbn [fst]. set (r := restarted s l L ident).
  assert (quiet r) as Hqr by (by apply (quiet_ext s)).
  assert (poll r = followSource T r) as ->.
  { unfold poll, getLastBlock_strict. unfold bind at 1. rewrite strict_quiet by done. change (src r) with (src s). rewrite (he_tip _ _ Hh).
    unfold bind at 1, gets at 1. change (lastPolledBlock r) with (Some L). unfold bind at 1.
    by rewrite (handle_quiet_none (src s) T). }
  apply (followSource_fork s l lo L a T ident); (done || lia).
Qed.

End Poller.

(** ** Examples: a source that starts at height 1, a window of 256 heights. *)
Module Example.
#[local] Existing Instance TransparencyLog.Example.toy.

Definition row (x : string) : hash_row := HashRow (Some x) (Some "t") None (Some x).
Definition reorg_row (h : Z) : event_row := EventRow "REORG" (EvObject [("block_index", JInt h)]).
#[local] Notation run db n s := (polls 1 db 256 4 false 0 0 n s).
Definition chain (l : list string) : source := Source (map row l) [].

(** A follower at height 2; while it streams, the source replaces block 2 and grows. *)
Definition before : poller :=
  Poller (Some 1) (Some "a1|t|") None true ∅ None [] (chain ["a1"; "a2"; "a3"])
    [[]; []; []; []; []; []; []; [Rollback 2 [reorg_row 2]; Append (row "b2"); Append (row "b3"); Append (row "b4")]] [].

Lemma before_started : started 1 before.
Proof.
  split; try done.
  - repeat constructor. exists (reorg_row 2). split; [left|]. split; [done|]. exists 2. split; [done|lia].
Qed.
Lemma announced_tracks_source_witness :
  view (sent (run Indexer 1 before)) !! 2 = Some (Some "a2|t|")
  /\ ((exists r, row_at 1 (src (run Indexer 1 before)) 2 = Some r /\ identity Indexer r = Some "a2|t|")
      \/ exists e, e ∈ unseen (run Indexer 1 before) /\ names 2 e).
Proof.
  assert (view (sent (run Indexer 1 before)) !! 2 = Some (Some "a2|t|")) as E by (vm_compute; reflexivity).
  split; [exact E|].
  exact (announced_tracks_source 1 Indexer 256 4 false 0 0 before 1 2 (Some "a2|t|") eq_refl before_started E).
Defined.

(** The pass after the rollback reads the REORG row; the source then stands still. *)
Lemma quiet_source : healthy 1 (src (run Indexer 1 before)) 4.
Proof.
  split; [vm_compute; reflexivity|vm_compute; congruence| |].
  - intros e He _. exists 2. assert (e = reorg_row 2) as ->; [|vm_compute; reflexivity].
    apply list_elem_of_singleton. exact He.
  - intros e He. vm_compute in He. discriminate He.
Qed.
Lemma poller_converges_witness :
  exists c N, c <= 3 /\ c <= 4 /\ forall n, (N <= n)%nat ->
    lastPolledBlock (run Indexer n (run Indexer 1 before)) = Some 4
    /\ (forall h, view (sent (run Indexer n (run Indexer 1 before))) !! h =
         if decide (h <= c) then view (sent (run Indexer 1 before)) !! h
         else if decide (h <= 4) then announced 1 Indexer (src (run Indexer 1 before)) h else None)
    /\ (forall h i, view (sent (run Indexer n (run Indexer 1 before))) !! h = Some i ->
         announced 1 Indexer (src (run Indexer 1 before)) h = Some i).
Proof.
  apply (poller_converges 1 Indexer 256 4 false 0 0 before 1 3 4).
  - reflexivity.
  - lia.
  - exact before_started.
  - split; vm_compute; reflexivity.
  - exact quiet_source.
  - vm_compute. reflexivity.
Defined.

(** A restart: the log recorded blocks 1 to 3, and blocks 2 and 3 were replaced. *)
Definition recorded_log : log :=
  Log [(1, hashes_of (row "a1")); (2, hashes_of (row "a2")); (3, hashes_of (row "a3"))] ∅ [] [] (-1).
Definition down : poller := Poller None None None false ∅ (Some recorded_log) [] (chain ["a1"; "b2"; "b3"; "b4"]) [] [].
Definition recorded_ident (h : Z) : string := if h =? 1 then "a1|t|" else if h =? 2 then "a2|t|" else "a3|t|".
#[local] Notation start s := (startCursor 1 Indexer 256 s).1.

Lemma three_heights (P : Z -> Prop) h : 1 <= h <= 3 -> P 1 -> P 2 -> P 3 -> P h.
Proof. intros Hh H1 H2 H3. assert (h = 1 \/ h = 2 \/ h = 3) as [->|[->| ->]] by lia; assumption. Qed.
Lemma downtime_reorg_announced_witness :
  let s' := (poll 1 Indexer 256 4 false 0 0 (start down)).1 in
  sent s' = [ReorgMsg 2 None] /\ lastPolledBlock s' = Some 1 /\ lastPolledBlockHash s' = Some "a1|t|"
  /\ transparencyLog s' = Some (pruneFrom false 2 recorded_log).
Proof.
  refine (downtime_reorg_announced 1 Indexer 256 4 false 0 0 down recorded_log 0 3 1 4 recorded_ident
    eq_refl _ _ _ eq_refl eq_refl _ eq_refl _ _ _ eq_refl _ _).
  - lia.
  - split; reflexivity.
  - split; [reflexivity|vm_compute; congruence|..]; intros e He; [by apply not_elem_of_nil in He|discriminate He].
  - cbn. lia.
  - lia.
  - lia.
  - intros h Hh. apply (three_heights (fun h => recorded recorded_log h (recorded_ident h))); [lia|..].
    + exists (hashes_of (row "a1")). split; [left|reflexivity].
    + exists (hashes_of (row "a2")). split; [right; left|reflexivity].
    + exists (hashes_of (row "a3")). split; [right; right; left|reflexivity].
  - intros h Hh _. assert (h = 2 \/ h = 3) as [->| ->] by lia; split; vm_compute; congruence.
  - intros e m He. discriminate He.
Defined.

(** The same restart with one swallowed failure of the read behind the guard: block 4 is
    announced on top of the replaced blocks and no later pass notices the reorg. *)
Definition down_faulty : poller :=
  Poller None None None false ∅ (Some recorded_log) [] (chain ["a1"; "b2"; "b3"; "b4"]) [] [Good; Good; Good; Good; Good; Fault].
Lemma guard_read_fails_open :
  sent (run Indexer 8 (start down_faulty)) = [BlockMsg 4 (Some "b4|t|")]
  /\ (fst <$> meta (default (empty_log []) (transparencyLog (run Indexer 8 (start down_faulty))))) = [1; 2; 3; 4].
Proof. vm_compute. split; reflexivity. Qed.

(** A decoder source has no REORG rows: a rollback between the guard's read and the
    snapshot is never noticed. *)
Definition racing : poller :=
  Poller (Some 2) (Some "a2") None false (<[2 := Some "a2"]> ∅) None [BlockMsg 2 (Some "a2")] (chain ["a1"; "a2"; "a3"])
    [[]; []; [Rollback 2 []; Append (row "b2"); Append (row "b3")]] [].
Lemma decoder_race_unnoticed :
  view (sent (run Decoder 8 racing)) !! 2 = Some (Some "a2") /\ source_id 1 Decoder (src (run Decoder 8 racing)) 2 = Some "b2"
  /\ view (sent (run Decoder 8 racing)) !! 3 = Some (Some "b3").
Proof. vm_compute. repeat split. Qed.
End Example.
