(* ===== verification/HaltPersistence.v ===== *)
(** * HaltPersistence: a halt and its durable record

    Models [src/src/client/halt_persistence.js] with [src/src/db/sync_halt.js], the
    installation of a halt and the operator's clear ([client/sync.js]) and the part of
    [start] that reads the record back.

    A halt is in force as the in-memory object [_halted]; its row in [sync_halt] is what
    a restart reads.  A write that fails leaves a copy in [sync_state] and a timer that
    tries again.  The methods are asynchronous: a [task] is a method suspended at one of
    its queries, and a step of the client is a call, the reply to the query of one task,
    or the timer.  Any task may be the next to get its reply, so every interleaving of
    halts, retries and clears is a run.

    A query that fails ([Fault]) is thrown by a strict caller and swallowed by a plain
    one; without a connection ([Down]) every query throws.  [_halted === halt] compares
    objects: a halt carries the number it was allocated under. *)

From S2P Require Import Prelude JsText Json.

Inductive query_reply := Good | Fault | Down.

Definition FIRST_RETRY_MS : Z := 5000.
Definition MAX_RETRY_MS : Z := 60000.

Record halt := Halt {
  h_id : nat;
  blockIndex : Z;
  reason : string;
  mismatches : json;
  sources : json;
  at_ : option string }.

(** A row of [sync_halt] of this [db_type], in the order of the ids. *)
Record halt_row := HaltRow {
  block_index : Z;
  row_reason : string;
  row_mismatches : string;
  row_sources : string;
  detected_at : string;
  cleared : bool }.

Inductive writer := First | Retry (delayMs : Z).
Inductive dropper := AfterWrite | AfterClear.
(** Methods in flight, by the query they wait for. *)
Inductive task :=
| WriteCheck (w : writer) (h : halt)      (** recordHalt: the check for an active row *)
| WriteInsert (w : writer) (h : halt)     (** recordHalt: the INSERT *)
| WriteRead (w : writer) (h : halt)       (** recordHalt: the read of the new row *)
| CopyWrite (h : halt)                    (** writePendingHaltCopy *)
| DropDelete (k : dropper)                (** dropPendingHaltCopy: the DELETE *)
| DropOverwrite (k : dropper)             (** dropPendingHaltCopy: the empty value *)
| ClearUpdate (wasDurable : bool)         (** clearHalt: the UPDATE *)
| ClearReset.                             (** clearHalt: resetRollbackGuardState *)

Record client := Client {
  halted : option halt;
  haltDurable : bool;
  pendingHaltCopy : bool;
  haltPersistTimer : option (halt * Z);
  stopping : bool;
  rows : list halt_row;
  copy : option string;
  tasks : list task;
  nextId : nat }.

Definition set_halted v s := Client v (haltDurable s) (pendingHaltCopy s) (haltPersistTimer s) (stopping s) (rows s) (copy s) (tasks s) (nextId s).
Definition set_durable v s := Client (halted s) v (pendingHaltCopy s) (haltPersistTimer s) (stopping s) (rows s) (copy s) (tasks s) (nextId s).
Definition set_pendingCopy v s := Client (halted s) (haltDurable s) v (haltPersistTimer s) (stopping s) (rows s) (copy s) (tasks s) (nextId s).
Definition set_timer v s := Client (halted s) (haltDurable s) (pendingHaltCopy s) v (stopping s) (rows s) (copy s) (tasks s) (nextId s).
Definition set_stopping v s := Client (halted s) (haltDurable s) (pendingHaltCopy s) (haltPersistTimer s) v (rows s) (copy s) (tasks s) (nextId s).
Definition set_rows v s := Client (halted s) (haltDurable s) (pendingHaltCopy s) (haltPersistTimer s) (stopping s) v (copy s) (tasks s) (nextId s).
Definition set_copy v s := Client (halted s) (haltDurable s) (pendingHaltCopy s) (haltPersistTimer s) (stopping s) (rows s) v (tasks s) (nextId s).
Definition set_tasks v s := Client (halted s) (haltDurable s) (pendingHaltCopy s) (haltPersistTimer s) (stopping s) (rows s) (copy s) v (nextId s).
Definition set_nextId v s := Client (halted s) (haltDurable s) (pendingHaltCopy s) (haltPersistTimer s) (stopping s) (rows s) (copy s) (tasks s) v.
Definition await (t : task) (s : client) : client := set_tasks (tasks s ++ [t]) s.

(** [this._halted === halt] *)
Definition in_force (h : halt) (s : client) : bool :=
  match halted s with Some h' => Nat.eqb (h_id h') (h_id h) | None => false end.

(** ** The text of the copy *)
Definition copy_text (h : halt) : string :=
  of_utf8 (print_json (PObj [("blockIndex", PNum (blockIndex h)); ("reason", PStr (reason h));
    ("mismatches", mismatches h); ("sources", sources h);
    ("at", match at_ h with Some t => PStr t | None => PNull end)])).

Definition field (k : string) (l : list (string * json)) : option json :=
  snd <$> List.find (fun m => bool_decide (m.1 = k)) l.
(** [v || fallback] *)
Definition or_else (v : option json) (fallback : json) : json :=
  match v with
  | None | Some PNull | Some (PBool false) | Some (PNum 0) | Some (PStr "") => fallback
  | Some j => j
  end.
(** [Number(v)] of an integer field; other values are not written by this module. *)
Definition number_field (v : option json) : Z := match v with Some (PNum z) => z | _ => 0 end.
Definition text_field (v : option json) : option string := match v with Some (PStr "") => None | Some (PStr s) => Some s | _ => None end.

(** ** sync_halt *)
Definition active (r : halt_row) : bool := negb (cleared r).
(** [ORDER BY id DESC LIMIT 1] of the uncleared rows. *)
Definition getActiveHalt (l : list halt_row) : option halt_row := last (List.filter active l).
Definition insert_row (now : string) (h : halt) : halt_row :=
  HaltRow (blockIndex h) (String.substring 0 64 (if bool_decide (reason h = "") then "divergence" else reason h))
    (of_utf8 (print_json (mismatches h))) (of_utf8 (print_json (sources h))) now false.
Definition clear_rows (l : list halt_row) : list halt_row :=
  map (fun r => HaltRow (block_index r) (row_reason r) (row_mismatches r) (row_sources r) (detected_at r) true) l.

(** ** The timer *)
Definition cancelHaltPersistRetry (s : client) : client := set_timer None s.
Definition scheduleHaltPersistRetry (h : halt) (delayMs : Z) (s : client) : client :=
  let s := cancelHaltPersistRetry s in
  if stopping s then s else set_timer (Some (h, delayMs)) s.

(** ** Writing a halt *)

(** After the row is there: [persistHalt] and [retryHaltPersist] from [_haltDurable = true] on. *)
Definition clearPendingHaltCopy (s : client) : client :=
  if pendingHaltCopy s then await (DropDelete AfterWrite) (set_pendingCopy false s) else s.
Definition recorded (w : writer) (h : halt) (s : client) : client :=
  match w with
  | First => clearPendingHaltCopy (set_durable true s)
  | Retry _ => if in_force h s then clearPendingHaltCopy (set_durable true s) else s
  end.
(** After the INSERT failed. *)
Definition writeFailed (w : writer) (h : halt) (s : client) : client :=
  match w with
  | First => await (CopyWrite h) (set_pendingCopy true (set_durable false s))
  | Retry d => scheduleHaltPersistRetry h (Z.min (d * 2) MAX_RETRY_MS) s
  end.
Definition persistHalt (h : halt) (s : client) : client := await (WriteCheck First h) s.

(** Install a halt and write it: [haltOnDivergence], [haltOnSchemaFailure],
    [haltOnUpsertDuplicateKey], [haltOnSnapshotTooLarge], [haltOnCatchUpTooLarge]. *)
Definition haltOn (b : Z) (why : string) (mm srcs : json) (now : string) (s : client) : client :=
  match halted s with
  | Some _ => s
  | None =>
      let h := Halt (nextId s) b why mm srcs (Some now) in
      persistHalt h (set_nextId (S (nextId s)) (set_halted (Some h) s))
  end.

Definition retryHaltPersist (h : halt) (delayMs : Z) (s : client) : client :=
  if in_force h s then await (WriteCheck (Retry delayMs) h) s else s.

(** The timer's callback. *)
Definition fireTimer (s : client) : client :=
  match haltPersistTimer s with
  | None => s
  | Some (h, d) => retryHaltPersist h d (set_timer None s)
  end.

Definition isHaltDurable (s : client) : bool :=
  match halted s with None => true | Some _ => haltDurable s end.

(** ** The operator's clear

    [api.js], the one caller, answers for a client that is not halted without calling it. *)
Definition clearHalt (s : client) : client :=
  match halted s with
  | None => s
  | Some h =>
      let wasDurable := haltDurable s in
      let s := set_durable true (cancelHaltPersistRetry s) in
      if bool_decide (reason h = "halt-state-check-failed") then set_halted None s
      else if bool_decide (reason h = "rollback-guard-state-invalid") then await ClearReset s
      else await (ClearUpdate wasDurable) s
  end.
(** After the rows are cleared and the copy is dropped. *)
Definition finishClear (s : client) : client :=
  match halted s with
  | Some h => if bool_decide (reason h = "max-rollback-depth-exceeded") then await ClearReset s else set_halted None s
  | None => s
  end.
Definition dropped (k : dropper) (s : client) : client :=
  match k with AfterWrite => s | AfterClear => finishClear s end.

Section Client.
(** [CURRENT_TIMESTAMP] of the row with a given id. *)
Variable clock : nat -> string.

(** ** The reply to the query of a task *)
Definition resume (t : task) (r : query_reply) (s : client) : client :=
  match t with
  | WriteCheck w h =>
      match (match r with Good => getActiveHalt (rows s) | _ => None end) with
      | Some existing => if block_index existing =? blockIndex h then recorded w h s else await (WriteInsert w h) s
      | None => await (WriteInsert w h) s
      end
  | WriteInsert w h =>
      match r with
      | Good => await (WriteRead w h) (set_rows (rows s ++ [insert_row (clock (length (rows s))) h]) s)
      | _ => writeFailed w h s
      end
  | WriteRead w h => recorded w h s
  | CopyWrite h =>
      scheduleHaltPersistRetry h FIRST_RETRY_MS (match r with Good => set_copy (Some (copy_text h)) s | _ => s end)
  | DropDelete k =>
      match r with
      | Good => dropped k (set_copy None s)
      | Fault => dropped k s
      | Down => await (DropOverwrite k) s
      end
  | DropOverwrite k => dropped k (match r with Good => set_copy (Some "") s | _ => s end)
  | ClearUpdate wasDurable =>
      match r with
      | Good => await (DropDelete AfterClear) (set_pendingCopy false (set_rows (clear_rows (rows s)) s))
      | _ =>
          let s := set_durable wasDurable s in
          match wasDurable, halted s with
          | false, Some h => scheduleHaltPersistRetry h 5000 s
          | _, _ => s
          end
      end
  | ClearReset => set_halted None s
  end.

(** ** Runs *)
Inductive event :=
| HaltOn (b : Z) (why : string) (mm srcs : json) (now : string)
| Reply (i : nat) (r : query_reply)
| Timer
| Clear
| Stop.

Definition step (s : client) (e : event) : client :=
  match e with
  | HaltOn b why mm srcs now => haltOn b why mm srcs now s
  | Reply i r =>
      match tasks s !! i with
      | None => s
      | Some t => resume t r (set_tasks (take i (tasks s) ++ drop (S i) (tasks s)) s)
      end
  | Timer => fireTimer s
  | Clear => clearHalt s
  | Stop => cancelHaltPersistRetry (set_stopping true s)
  end.
Definition run (es : list event) (s : client) : client := fold_left step es s.

(** ** Startup *)
Inductive verdict := Held | Proceed.

Definition safeParse (s : string) : json := match JSON_parse s with Some j => j | None => PStr s end.
Definition installStartupHalt (prior : halt_row) (s : client) : client :=
  set_nextId (S (nextId s)) (set_halted (Some (Halt (nextId s) (block_index prior) (row_reason prior)
    (safeParse (row_mismatches prior)) (safeParse (row_sources prior)) (Some (detected_at prior)))) s).
Definition holdSynthetic (why : string) (s : client) : client :=
  set_nextId (S (nextId s)) (set_halted (Some (Halt (nextId s) (-1) why (PArr []) (PArr []) None)) s).

(** [resolveStartupHalt] with [retryStartupHaltRead] and the restart of [start]: the reads
    of [sync_halt] get the replies in turn, and fail when there are no more.  The first read
    of a start lets it go on; a failed one holds the client, and when a retry answers and
    shows no halt, [start] begins again with a read of its own.  The result says whether
    startup goes on. *)
Fixpoint read_halt_state (retrying : bool) (replies : list query_reply) (s : client) : client * bool :=
  match replies with
  | [] => (holdSynthetic "halt-state-check-failed" s, false)
  | Good :: rest =>
      match getActiveHalt (rows s) with
      | Some prior => (installStartupHalt prior s, false)
      | None => if retrying then read_halt_state false rest s else (s, true)
      end
  | _ :: rest => read_halt_state true rest s
  end.
Definition resolveStartupHalt (replies : list query_reply) (s : client) : client * bool := read_halt_state false replies s.

Definition restorePendingHalt (r : query_reply) (s : client) : client * verdict :=
  match r with
  | Good =>
      match copy s with
      | None | Some "" => (s, Proceed)
      | Some raw =>
          match JSON_parse raw with
          | Some (PObj saved) =>
              match field "reason" saved with
              | Some (PStr why) =>
                  let h := Halt (nextId s) (number_field (field "blockIndex" saved)) why
                             (or_else (field "mismatches" saved) (PArr [])) (or_else (field "sources" saved) (PArr []))
                             (text_field (field "at" saved)) in
                  (persistHalt h (set_nextId (S (nextId s)) (set_halted (Some h) (set_pendingCopy true s))), Held)
              | _ => (set_pendingCopy true (holdSynthetic "halt-copy-unreadable" s), Held)
              end
          | _ => (set_pendingCopy true (holdSynthetic "halt-copy-unreadable" s), Held)
          end
      end
  | _ => (holdSynthetic "halt-state-check-failed" s, Held)
  end.

(** What a new process knows: the tables. *)
Definition fresh (l : list halt_row) (c : option string) : client := Client None true false None false l c [] 0.
Definition startup (replies : list query_reply) (r : query_reply) (l : list halt_row) (c : option string) : client * verdict :=
  match resolveStartupHalt replies (fresh l c) with
  | (s, true) => restorePendingHalt r s
  | (s, false) => (s, Held)
  end.

(** ** The invariant *)
Definition is_first (t : task) : bool :=
  match t with WriteCheck First _ | WriteInsert First _ | WriteRead First _ | CopyWrite _ => true | _ => false end.
Definition past_update (t : task) : bool :=
  match t with DropDelete AfterClear | DropOverwrite AfterClear | ClearReset => true | _ => false end.
Definition is_clear (t : task) : bool := match t with ClearUpdate _ => true | _ => past_update t end.
Lemma past_clear t : past_update t = true -> is_clear t = true.
Proof. by destruct t. Qed.
Definition task_halt (t : task) : option halt :=
  match t with WriteCheck _ h | WriteInsert _ h | WriteRead _ h | CopyWrite h => Some h | _ => None end.

(** A clear begins when no first write of a halt and no other clear is in flight. *)
Definition allowed (e : event) (s : client) : Prop :=
  match e with Clear => forall t, t ∈ tasks s -> is_first t = false /\ is_clear t = false | _ => True end.
Fixpoint orderly (es : list event) (s : client) : Prop :=
  match es with [] => True | e :: rest => allowed e s /\ orderly rest (step s e) end.

(** The halts startup makes up because it could not read its tables are not recorded. *)
Definition synthetic : list string :=
  ["halt-state-check-failed"; "halt-copy-unreadable"; "rollback-guard-state-invalid"; "rollback-guard-state-unreadable"].
Definition real (h : halt) : Prop := reason h ∉ synthetic.

Definition has_active (l : list halt_row) : Prop := exists r, r ∈ l /\ active r = true.
Lemma getActiveHalt_some l : has_active l <-> exists r, getActiveHalt l = Some r.
Proof.
  unfold getActiveHalt. split.
  - intros (r & Hr & Ha). destruct (last (List.filter active l)) as [x|] eqn:E; [eauto|]. apply last_None in E.
    exfalso. assert (r ∈ List.filter active l) as Hin by (apply list_elem_of_In, filter_In; split; [by apply list_elem_of_In|done]).
    rewrite E in Hin. by apply not_elem_of_nil in Hin.
  - intros (r & Hr). apply last_Some_elem_of in Hr. apply list_elem_of_In, filter_In in Hr as [Hin Ha].
    exists r. split; [by apply list_elem_of_In|done].
Qed.
Lemma has_active_app l r : has_active l -> has_active (l ++ r).
Proof. intros (x & Hx & Ha). exists x. split; [set_solver|done]. Qed.

Definition is_retry (h : halt) (t : task) : Prop :=
  match t with WriteCheck (Retry _) h' | WriteInsert (Retry _) h' | WriteRead (Retry _) h' => h' = h | _ => False end.
Definition count (f : task -> bool) (l : list task) : nat := length (List.filter f l).

Record kept (s : client) : Prop := {
  k_one_clear : (count is_clear (tasks s) <= 1)%nat;
  k_one_first : (count is_first (tasks s) <= 1)%nat;
  k_apart : forall t t', t ∈ tasks s -> t' ∈ tasks s -> is_clear t = true -> is_first t' = false;
  k_halted : forall t, t ∈ tasks s -> is_clear t = true \/ is_first t = true -> halted s <> None;
  k_ids : (forall t h, t ∈ tasks s -> task_halt t = Some h -> (h_id h < nextId s)%nat)
    /\ (forall h d, haltPersistTimer s = Some (h, d) -> (h_id h < nextId s)%nat)
    /\ (forall h, halted s = Some h -> (h_id h < nextId s)%nat);
  k_first : forall h, WriteRead First h ∈ tasks s -> has_active (rows s);
  k_copy : forall h, CopyWrite h ∈ tasks s -> haltDurable s = false;
  k_fresh : forall t, t ∈ tasks s -> is_first t = true ->
    (forall t' h, t' ∈ tasks s -> is_retry h t' -> in_force h s = false)
    /\ (forall h d, haltPersistTimer s = Some (h, d) -> in_force h s = false);
  k_retry : forall d h, WriteRead (Retry d) h ∈ tasks s -> in_force h s = true ->
    has_active (rows s) \/ exists t, t ∈ tasks s /\ past_update t = true;
  k_update : ClearUpdate true ∈ tasks s -> forall h, halted s = Some h -> real h -> has_active (rows s);
  k_durable : forall h, halted s = Some h -> real h -> haltDurable s = true ->
    has_active (rows s) \/ exists t, t ∈ tasks s /\ (is_first t = true \/ is_clear t = true) }.

Lemma count_perm f l l' : l ≡ₚ l' -> count f l = count f l'.
Proof. unfold count. induction 1; cbn; [done|case_match; cbn; congruence|repeat case_match; done|congruence]. Qed.
Lemma count_app f l l' : count f (l ++ l') = (count f l + count f l')%nat.
Proof. unfold count. by rewrite List.filter_app, length_app. Qed.
Lemma count_zero f l t : count f l = 0%nat -> t ∈ l -> f t = false.
Proof.
  unfold count. intros Hz Hin. destruct (f t) eqn:E; [|done]. apply length_zero_iff_nil in Hz.
  assert (t ∈ List.filter f l) as Ht by (apply list_elem_of_In, filter_In; split; [by apply list_elem_of_In|done]).
  rewrite Hz in Ht. by apply not_elem_of_nil in Ht.
Qed.
Lemma count_none f l : (forall t, t ∈ l -> f t = false) -> count f l = 0%nat.
Proof.
  unfold count. induction l as [|t l IH]; cbn; [done|]. intros Hf. rewrite (Hf t) by left. apply IH. intros t' Ht. apply Hf. by right.
Qed.
Lemma count_cons f t l : count f (t :: l) = ((if f t then 1 else 0) + count f l)%nat.
Proof. unfold count. cbn. by destruct (f t). Qed.

Lemma kept_perm l s : l ≡ₚ tasks s -> kept s -> kept (set_tasks l s).
Proof.
  intros Hp [A B C D E F G H I J K].
  split; cbn [tasks set_tasks halted haltDurable rows haltPersistTimer nextId]; try (rewrite (count_perm _ _ _ Hp); assumption);
    unfold in_force in *; cbn [halted set_tasks]; setoid_rewrite Hp; assumption.
Qed.

(** [kept] reads six of the fields. *)
Lemma kept_ext s s' : halted s' = halted s -> haltDurable s' = haltDurable s -> haltPersistTimer s' = haltPersistTimer s ->
  rows s' = rows s -> tasks s' = tasks s -> nextId s' = nextId s -> kept s -> kept s'.
Proof. intros E1 E2 E3 E4 E5 E6 []. split; unfold in_force in *; rewrite ?E1, ?E2, ?E3, ?E4, ?E5, ?E6; assumption. Qed.

Lemma elem_snoc (x t : task) l : x ∈ l ++ [t] <-> x ∈ l \/ x = t.
Proof. by rewrite elem_of_app, list_elem_of_singleton. Qed.

(** A method goes on to its next query and stays the same kind of task. *)
Lemma kept_swap t t' rest s :
  is_first t' = is_first t -> is_clear t' = is_clear t -> past_update t' = past_update t -> task_halt t' = task_halt t ->
  (forall h, is_retry h t' -> is_retry h t) -> (match t' with WriteRead _ _ | ClearUpdate _ | CopyWrite _ => False | _ => True end) ->
  kept (set_tasks (t :: rest) s) -> kept (set_tasks (rest ++ [t']) s).
Proof.
  intros E1 E2 E3 E4 E5 E6 [A B C D [E [E' E'']] F G H I J K].
  split; unfold in_force in *; cbn [tasks set_tasks halted haltDurable rows haltPersistTimer nextId] in *.
  - rewrite count_app, count_cons in *. cbn. rewrite E2. lia.
  - rewrite count_app, count_cons in *. cbn. rewrite E1. lia.
  - intros x y [Hx| ->]%elem_snoc [Hy| ->]%elem_snoc; rewrite ?E1, ?E2; apply C; by (left || right).
  - intros x [Hx| ->]%elem_snoc; rewrite ?E1, ?E2; apply D; by (left || right).
  - split; [|done]. intros x h [Hx| ->]%elem_snoc; rewrite ?E4; apply E; by (left || right).
  - intros h [Hx|Hx]%elem_snoc; [apply (F h); by right|by subst t'].
  - intros h [Hx|Hx]%elem_snoc; [apply (G h); by right|by subst t'].
  - intros x Hx Hf. assert (exists y, y ∈ t :: rest /\ is_first y = true) as (y & Hy & Hfy).
    { apply elem_snoc in Hx as [Hx| ->]; [exists x|exists t; rewrite <- E1]; split; [by right|done|by left|done]. }
    destruct (H y Hy Hfy) as [H1 H2]. split; [|done].
    intros x' h [Hx'| ->]%elem_snoc Hr; [by apply (H1 x'); [right|]|]. apply (H1 t); [left|]. by apply E5.
  - intros d h [Hx|Hx]%elem_snoc Hi; [|by subst t'].
    destruct (I d h ltac:(by right) Hi) as [?|(y & [->|Hy]%elem_of_cons & Hp)]; [by left|right..]; [exists t'; rewrite E3|exists y]; by rewrite elem_snoc; auto.
  - intros [Hx|Hx]%elem_snoc; [apply J; by right|by subst t'].
  - intros h Hh Hr Hd. destruct (K h Hh Hr Hd) as [?|(y & [->|Hy]%elem_of_cons & Hp)]; [by left|right..]; [exists t'; rewrite E1, E2|exists y];
      by rewrite elem_snoc; auto.
Qed.

(** A method ends that is neither a first write nor a clear. *)
Lemma kept_end t rest s : is_first t = false -> is_clear t = false -> kept (set_tasks (t :: rest) s) -> kept (set_tasks rest s).
Proof.
  intros E1 E2 [A B C D [E [E' E'']] F G H I J K].
  assert (past_update t = false) as E3 by (destruct t as [| | | | | |[]|]; done).
  split; unfold in_force in *; cbn [tasks set_tasks halted haltDurable rows haltPersistTimer nextId] in *.
  - rewrite count_cons in A. lia.
  - rewrite count_cons in B. lia.
  - intros x y Hx Hy. apply C; by right.
  - intros x Hx. apply D. by right.
  - split; [|done]. intros x h Hx. apply E. by right.
  - intros h Hx. apply (F h). by right.
  - intros h Hx. apply (G h). by right.
  - intros x Hx Hf. destruct (H x ltac:(by right) Hf) as [H1 H2]. split; [|done]. intros x' h Hx'. apply H1. by right.
  - intros d h Hx Hi. destruct (I d h ltac:(by right) Hi) as [?|(y & Hy & Hp)]; [by left|right]. exists y. split; [|done]. apply elem_of_cons in Hy as [->|Hy]; [congruence|done].
  - intros Hx. apply J. by right.
  - intros h Hh Hr Hd. destruct (K h Hh Hr Hd) as [?|(y & Hy & Hp)]; [by left|right]. exists y. split; [|done]. apply elem_of_cons in Hy as [->|Hy]; [destruct Hp; congruence|done].
Qed.

(** A harmless task begins. *)
Lemma kept_await t s : is_first t = false -> is_clear t = false -> task_halt t = None -> kept s -> kept (await t s).
Proof.
  intros E1 E2 E4 [A B C D [E [E' E'']] F G H I J K]. unfold await.
  assert (forall h, ~ is_retry h t) as E5 by (intros h Hr; destruct t as [[]|[]|[]| | | | |]; done).
  split; unfold in_force in *; cbn [tasks set_tasks halted haltDurable rows haltPersistTimer nextId] in *.
  - rewrite count_app, count_cons, E2. cbn. lia.
  - rewrite count_app, count_cons, E1. cbn. lia.
  - intros x y [Hx| ->]%elem_snoc [Hy| ->]%elem_snoc; [by apply C|done|congruence..].
  - intros x [Hx| ->]%elem_snoc; [by apply D|]. intros [?|?]; congruence.
  - split; [|done]. intros x h [Hx| ->]%elem_snoc; [by apply E|congruence].
  - intros h [Hx| <-]%elem_snoc; [by apply (F h)|done].
  - intros h [Hx| <-]%elem_snoc; [by apply (G h)|done].
  - intros x [Hx| ->]%elem_snoc Hf; [|congruence]. destruct (H x Hx Hf) as [H1 H2]. split; [|done].
    intros x' h [Hx'| ->]%elem_snoc; [by apply H1|]. intros Hr. by destruct (E5 h).
  - intros d h [Hx| <-]%elem_snoc Hi; [|done]. destruct (I d h Hx Hi) as [?|(y & Hy & Hp)]; [by left|right]. exists y. rewrite elem_snoc. auto.
  - intros [Hx| <-]%elem_snoc; [by apply J|done].
  - intros h Hh Hr Hd. destruct (K h Hh Hr Hd) as [?|(y & Hy & Hp)]; [by left|right]. exists y. rewrite elem_snoc. auto.
Qed.

Ltac kept_intro := split; unfold in_force in *;
  cbn [tasks set_tasks halted haltDurable rows haltPersistTimer nextId set_durable set_rows set_halted set_timer set_pendingCopy set_copy await] in *.

(** The row is there and the client says so. *)
Lemma kept_durable s : (forall h, CopyWrite h ∈ tasks s -> False) ->
  has_active (rows s) \/ (exists t, t ∈ tasks s /\ is_clear t = true) -> kept s -> kept (set_durable true s).
Proof.
  intros Hc Ha [A B C D E F G H I J K]. kept_intro; try assumption.
  - intros h Hh. by destruct (Hc h Hh).
  - intros h _ _ _. destruct Ha as [?|(x & Hx & Hp)]; [by left|]. right. exists x. auto.
Qed.
Lemma no_first_left t rest : is_first t = true -> (count is_first (t :: rest) <= 1)%nat -> forall x, x ∈ rest -> is_first x = false.
Proof. intros Hf. rewrite count_cons, Hf. intros Hc x Hx. apply (count_zero is_first rest); [lia|done]. Qed.
Lemma no_clear_left t rest : is_clear t = true -> (count is_clear (t :: rest) <= 1)%nat -> forall x, x ∈ rest -> is_clear x = false.
Proof. intros Hf. rewrite count_cons, Hf. intros Hc x Hx. apply (count_zero is_clear rest); [lia|done]. Qed.

(** A first write ends, with the row there or the halt marked as not durable. *)
Lemma kept_end_first t rest s : is_first t = true ->
  has_active (rows s) \/ haltDurable s = false -> kept (set_tasks (t :: rest) s) -> kept (set_tasks rest s).
Proof.
  intros Hf Ha [A B C D [E [E' E'']] F G H I J K]. kept_intro.
  - rewrite count_cons in A. lia.
  - rewrite count_cons in B. lia.
  - intros x y Hx Hy. apply C; by right.
  - intros x Hx. apply D. by right.
  - split; [|done]. intros x h Hx. apply E. by right.
  - intros h Hx. apply (F h). by right.
  - intros h Hx. apply (G h). by right.
  - intros x Hx Hfx. pose proof (no_first_left t rest Hf B x Hx). congruence.
  - intros d h Hx Hi. destruct (H t ltac:(left) Hf) as [H1 _]. rewrite (H1 (WriteRead (Retry d) h) h) in Hi; [done|by right|done].
  - intros Hx. apply J. by right.
  - intros h Hh Hr Hd. destruct Ha as [?|?]; [by left|congruence].
Qed.

Lemma recorded_kept w h t rest s : t = WriteCheck w h \/ t = WriteRead w h -> kept (set_tasks (t :: rest) s) ->
  (w = First -> has_active (rows s)) ->
  (in_force h s = true -> has_active (rows s) \/ exists x, x ∈ rest /\ past_update x = true) ->
  kept (recorded w h (set_tasks rest s)).
Proof.
  intros Ht Hk Hfirst Hretry.
  assert (forall s0, kept s0 -> kept (clearPendingHaltCopy s0)) as Hdrop.
  { intros s0 Hk0. unfold clearPendingHaltCopy. case_match; [|done]. apply kept_await; [done..|]. by apply (kept_ext s0). }
  destruct w as [|d]; cbn [recorded].
  - apply Hdrop. assert (is_first t = true) as Hf by (destruct Ht as [-> | ->]; done).
    apply kept_durable; [|left; by apply Hfirst|].
    + intros h' Hin. pose proof (no_first_left t rest Hf (k_one_first _ Hk) _ Hin). done.
    + apply (kept_end_first t); [done|left; by apply Hfirst|done].
  - assert (is_first t = false /\ is_clear t = false) as [Hf Hc] by (destruct Ht as [-> | ->]; done).
    pose proof (kept_end t rest s Hf Hc Hk) as Hk'. destruct (in_force h (set_tasks rest s)) eqn:Ei; [|done].
    apply Hdrop, kept_durable; [| |done].
    + intros h' Hin. destruct (k_fresh _ Hk (CopyWrite h')) as [H1 _]; [by right|done|].
      assert (in_force h (set_tasks (t :: rest) s) = false) as Hne by (apply (H1 t); [left|destruct Ht as [-> | ->]; done]).
      unfold in_force in *. cbn in *. congruence.
    + destruct (Hretry Ei) as [?|(x & Hx & Hp)]; [by left|]. right. exists x. split; [done|]. by apply past_clear.
Qed.

(** The INSERT landed. *)
Lemma inserted_kept w h rest s r : active r = true -> kept (set_tasks (WriteInsert w h :: rest) s) ->
  kept (await (WriteRead w h) (set_rows (rows s ++ [r]) (set_tasks rest s))).
Proof.
  intros Hr [A B C D [E [E' E'']] F G H I J K]. assert (has_active (rows s ++ [r])) as Ha by (exists r; set_solver).
  assert (forall x, x ∈ rest ++ [WriteRead w h] -> exists y, y ∈ WriteInsert w h :: rest /\ is_first y = is_first x /\ is_clear y = is_clear x
    /\ task_halt y = task_halt x /\ forall h', is_retry h' x -> is_retry h' y) as Hmap.
  { intros x [Hx| ->]%elem_snoc; [exists x; split; [by right|done]|]. exists (WriteInsert w h). split; [by left|]. by destruct w. }
  kept_intro.
  - rewrite count_app, count_cons in *. cbn in *. lia.
  - rewrite count_app, count_cons in *. destruct w; cbn in *; lia.
  - intros x y (x' & Hx & _ & Ec & _)%Hmap (y' & Hy & Ef & _)%Hmap. rewrite <- Ec, <- Ef. by apply C.
  - intros x (x' & Hx & Ef & Ec & _)%Hmap. rewrite <- Ec, <- Ef. by apply D.
  - split; [|done]. intros x h' (x' & Hx & _ & _ & Eh & _)%Hmap. rewrite <- Eh. by apply E.
  - done.
  - intros h' [Hx|Hx]%elem_snoc; [apply (G h'); by right|done].
  - intros x (x' & Hx & Ef & _)%Hmap. rewrite <- Ef. intros Hf. destruct (H x' Hx Hf) as [H1 H2]. split; [|done].
    intros y h' (y' & Hy & _ & _ & _ & Er)%Hmap Hret. apply (H1 y'); [done|]. by apply Er.
  - by left.
  - done.
  - by left.
Qed.

Lemma schedule_kept h d s : (h_id h < nextId s)%nat -> (forall t, t ∈ tasks s -> is_first t = true -> in_force h s = false) ->
  kept s -> kept (scheduleHaltPersistRetry h d s).
Proof.
  intros Hid Hf [A B C D [E [E' E'']] F G H I J K]. unfold scheduleHaltPersistRetry, cancelHaltPersistRetry. cbn [stopping set_timer].
  destruct (stopping s); kept_intro; try assumption.
  - split; [done|]. split; [done|done].
  - intros x Hx Hfx. destruct (H x Hx Hfx). done.
  - split; [done|]. split; [|done]. by intros h' d' [= <- <-].
  - intros x Hx Hfx. destruct (H x Hx Hfx) as [H1 _]. split; [done|]. intros h' d' [= <- <-]. by apply (Hf x).
Qed.

(** The halt is no longer in force. *)
Lemma cleared_kept t rest s : (forall x, x ∈ rest -> is_first x = false /\ is_clear x = false) ->
  kept (set_tasks (t :: rest) s) -> kept (set_halted None (set_tasks rest s)).
Proof.
  intros Hno [A B C D [E [E' E'']] F G H I J K]. kept_intro.
  - rewrite count_none; [lia|]. intros x Hx. by apply Hno.
  - rewrite count_none; [lia|]. intros x Hx. by apply Hno.
  - intros x y Hx Hy _. by apply Hno.
  - intros x Hx. destruct (Hno x Hx). intros [?|?]; congruence.
  - split; [|by split]. intros x h Hx. apply E. by right.
  - intros h Hx. apply (F h). by right.
  - intros h Hx. apply (G h). by right.
  - intros x Hx Hf. destruct (Hno x Hx). congruence.
  - done.
  - done.
  - done.
Qed.
Lemma only_clear t rest s : is_clear t = true -> kept (set_tasks (t :: rest) s) -> forall x, x ∈ rest -> is_first x = false /\ is_clear x = false.
Proof.
  intros Hc Hk x Hx. split; [apply (k_apart _ Hk t x); [left|by right|done]|].
  by apply (no_clear_left t rest Hc (k_one_clear _ Hk)).
Qed.

Lemma finishClear_kept t rest s : past_update t = true -> kept (set_tasks (t :: rest) s) -> kept (finishClear (set_tasks rest s)).
Proof.
  intros Hp Hk. pose proof (past_clear t Hp) as Hc.
  unfold finishClear. cbn [halted set_tasks]. destruct (halted s) as [h|] eqn:Eh.
  - case_bool_decide; [|by apply (cleared_kept t); [by apply (only_clear t rest s)|]].
    apply (kept_swap t ClearReset); [destruct t as [| | | |[]|[]| |]; done|done|done|by destruct t|done|done|done].
  - destruct (k_halted _ Hk t) as []; [by left|by left|exact Eh].
Qed.

Lemma updateDone_kept w rest s : kept (set_tasks (ClearUpdate w :: rest) s) ->
  kept (await (DropDelete AfterClear) (set_pendingCopy false (set_rows (clear_rows (rows s)) (set_tasks rest s)))).
Proof.
  intros Hk. pose proof (only_clear (ClearUpdate w) rest s eq_refl Hk) as Hno. destruct Hk as [A B C D [E [E' E'']] F G H I J K]. kept_intro.
  - rewrite count_app, count_cons in *. cbn in *. lia.
  - rewrite count_app, count_cons in *. cbn in *. lia.
  - intros x y [Hx| ->]%elem_snoc [Hy| ->]%elem_snoc _; try done; by apply Hno.
  - intros _ _ _. apply (D (ClearUpdate w)); [left|by left].
  - split; [|by split]. intros x h [Hx| ->]%elem_snoc; [apply E; by right|done].
  - intros h [Hx|Hx]%elem_snoc; [|done]. by destruct (Hno _ Hx).
  - intros h [Hx|Hx]%elem_snoc; [|done]. by destruct (Hno _ Hx).
  - intros x [Hx| ->]%elem_snoc Hf; [destruct (Hno x Hx); congruence|done].
  - intros d h _ _. right. exists (DropDelete AfterClear). rewrite elem_snoc. auto.
  - intros [Hx|Hx]%elem_snoc; [by destruct (Hno _ Hx)|done].
  - intros h _ _ _. right. exists (DropDelete AfterClear). rewrite elem_snoc. auto.
Qed.
Lemma updateFailed_kept w rest s : kept (set_tasks (ClearUpdate w :: rest) s) -> kept (set_durable w (set_tasks rest s)).
Proof.
  intros Hk. pose proof (only_clear (ClearUpdate w) rest s eq_refl Hk) as Hno. destruct Hk as [A B C D [E [E' E'']] F G H I J K]. kept_intro.
  - rewrite count_none; [lia|]. intros x Hx. by apply Hno.
  - rewrite count_none; [lia|]. intros x Hx. by apply Hno.
  - intros x y Hx Hy _. by apply Hno.
  - intros x Hx. destruct (Hno x Hx). intros [?|?]; congruence.
  - split; [|by split]. intros x h Hx. apply E. by right.
  - intros h Hx. by destruct (Hno _ Hx).
  - intros h Hx. by destruct (Hno _ Hx).
  - intros x Hx Hf. destruct (Hno x Hx). congruence.
  - intros d h Hx Hi. destruct (I d h ltac:(by right) Hi) as [?|(y & [->|Hy]%elem_of_cons & Hp)]; [by left|done|].
    destruct (Hno y Hy) as [_ Hc]. rewrite (past_clear y Hp) in Hc. done.
  - intros Hx. by destruct (Hno _ Hx).
  - intros h Hh Hr ->. left. apply (J ltac:(left) h Hh Hr).
Qed.

Lemma kept_swap_copy h rest s : kept (set_tasks (WriteInsert First h :: rest) s) -> kept (set_durable false (set_tasks (rest ++ [CopyWrite h]) s)).
Proof.
  intros [A B C D [E [E' E'']] F G H I J K]. kept_intro.
  - rewrite count_app, count_cons in *. cbn in *. lia.
  - rewrite count_app, count_cons in *. cbn in *. lia.
  - intros x y [Hx| ->]%elem_snoc [Hy| ->]%elem_snoc Hc; [apply (C x y); [by right|by right|done]| |done|done].
    by pose proof (C x (WriteInsert First h) ltac:(by right) ltac:(left) Hc).
  - intros x [Hx| ->]%elem_snoc; [apply D; by right|]. intros _. apply (D (WriteInsert First h)); [left|by right].
  - split; [|done]. intros x h' [Hx| ->]%elem_snoc; [apply E; by right|]. apply (E (WriteInsert First h)). left.
  - intros h' [Hx|Hx]%elem_snoc; [apply (F h'); by right|done].
  - done.
  - intros x _ _. destruct (H (WriteInsert First h) ltac:(left) eq_refl) as [H1 H2]. split; [|done].
    intros x' h' [Hx'| ->]%elem_snoc; [apply (H1 x'); by right|done].
  - intros d h' [Hx|Hx]%elem_snoc Hi; [|done]. destruct (I d h' ltac:(by right) Hi) as [?|(y & [->|Hy]%elem_of_cons & Hp)]; [by left|done|].
    right. exists y. rewrite elem_snoc. auto.
  - intros [Hx|Hx]%elem_snoc; [apply J; by right|done].
  - done.
Qed.
(** A first write failed: the halt is marked and its copy is written. *)
Lemma failedFirst_kept h rest s : kept (set_tasks (WriteInsert First h :: rest) s) ->
  kept (await (CopyWrite h) (set_pendingCopy true (set_durable false (set_tasks rest s)))).
Proof.
  intros Hk. apply (kept_swap_copy h rest s) in Hk. by apply (kept_ext (set_durable false (set_tasks (rest ++ [CopyWrite h]) s))).
Qed.

Lemma resume_kept t r rest s : kept (set_tasks (t :: rest) s) -> kept (resume t r (set_tasks rest s)).
Proof.
  intros Hk. destruct t as [w h|w h|w h|h|k|k|w|]; cbn [resume].
  - cbn [rows set_tasks]. destruct (match r with Good => getActiveHalt (rows s) | _ => None end) as [x|] eqn:Ex;
      [|by apply (kept_swap (WriteCheck w h)); destruct w].
    assert (has_active (rows s)) as Ha by (apply getActiveHalt_some; destruct r; by eauto).
    destruct (block_index x =? blockIndex h); [|by apply (kept_swap (WriteCheck w h)); destruct w].
    apply (recorded_kept w h (WriteCheck w h)); auto.
  - assert (kept (writeFailed w h (set_tasks rest s))) as Hfail.
    { destruct w as [|d]; cbn [writeFailed]; [by apply failedFirst_kept|].
      apply schedule_kept; [|intros x Hx Hf|by apply (kept_end (WriteInsert (Retry d) h))].
      - apply (proj1 (k_ids _ Hk) (WriteInsert (Retry d) h)); [left|done].
      - destruct (k_fresh _ Hk x ltac:(by right) Hf) as [H1 _]. apply (H1 (WriteInsert (Retry d) h)); [left|done]. }
    destruct r; [by apply (inserted_kept w h rest s)|done|done].
  - apply (recorded_kept w h (WriteRead w h)); [by right|done|intros ->; apply (k_first _ Hk h); left|].
    intros Hi. destruct w as [|d]; [left; apply (k_first _ Hk h); left|].
    destruct (k_retry _ Hk d h ltac:(left) Hi) as [?|(x & [->|Hx]%elem_of_cons & Hp)]; [by left|done|]. right. eauto.
  - assert (kept (set_tasks rest s)) as Hk'.
    { apply (kept_end_first (CopyWrite h)); [done| |done]. right. apply (k_copy _ Hk h). left. }
    apply schedule_kept; [|intros x Hx Hf|destruct r; [by apply (kept_ext (set_tasks rest s))|done|done]].
    + replace (nextId _) with (nextId s) by (by destruct r). apply (proj1 (k_ids _ Hk) (CopyWrite h)); [left|done].
    + replace (tasks _) with rest in Hx by (by destruct r).
      pose proof (no_first_left (CopyWrite h) rest eq_refl (k_one_first _ Hk) x Hx). congruence.
  - assert (forall s0, halted s0 = halted s -> haltDurable s0 = haltDurable s -> haltPersistTimer s0 = haltPersistTimer s -> rows s0 = rows s ->
      nextId s0 = nextId s -> kept (dropped k (set_tasks rest s0))) as Hdone.
    { intros s0 E1 E2 E3 E4 E5. assert (kept (set_tasks (DropDelete k :: rest) s0)) as Hk0 by (by apply (kept_ext (set_tasks (DropDelete k :: rest) s))).
      destruct k; cbn [dropped]; [by apply (kept_end (DropDelete AfterWrite))|by apply (finishClear_kept (DropDelete AfterClear))]. }
    destruct r; [apply (Hdone (set_copy None s)); done|by apply Hdone|by apply (kept_swap (DropDelete k)); destruct k].
  - assert (forall s0, halted s0 = halted s -> haltDurable s0 = haltDurable s -> haltPersistTimer s0 = haltPersistTimer s -> rows s0 = rows s ->
      nextId s0 = nextId s -> kept (dropped k (set_tasks rest s0))) as Hdone.
    { intros s0 E1 E2 E3 E4 E5. assert (kept (set_tasks (DropOverwrite k :: rest) s0)) as Hk0 by (by apply (kept_ext (set_tasks (DropOverwrite k :: rest) s))).
      destruct k; cbn [dropped]; [by apply (kept_end (DropOverwrite AfterWrite))|by apply (finishClear_kept (DropOverwrite AfterClear))]. }
    destruct r; [apply (Hdone (set_copy (Some "") s)); done|by apply Hdone|by apply Hdone].
  - assert (forall x, x ∈ rest -> is_first x = false) as Hno by (intros x Hx; by apply (only_clear (ClearUpdate w) rest s)).
    assert (kept (set_durable w (set_tasks rest s))) as Hfail by (by apply updateFailed_kept).
    assert (kept (match w, halted (set_durable w (set_tasks rest s)) with
      | false, Some h => scheduleHaltPersistRetry h 5000 (set_durable w (set_tasks rest s)) | _, _ => set_durable w (set_tasks rest s) end)) as Hf2.
    { destruct w; [done|]. destruct (halted _) as [h|] eqn:Eh; [|done]. apply schedule_kept; [by apply (k_ids _ Hfail)| |done].
      intros x Hx Hf. rewrite (Hno x Hx) in Hf. done. }
    destruct r; [by apply (updateDone_kept w rest s)|exact Hf2|exact Hf2].
  - apply (cleared_kept ClearReset); [by apply (only_clear ClearReset rest s)|done].
Qed.

(** A halt is installed: its number is new, so no task and no timer is for it. *)
Lemma haltOn_kept b why mm srcs now s : kept s -> kept (haltOn b why mm srcs now s).
Proof.
  intros Hk. unfold haltOn. destruct (halted s) as [|] eqn:Eh; [done|]. cbv zeta. unfold persistHalt.
  assert (forall t, t ∈ tasks s -> is_first t = false /\ is_clear t = false) as Hno.
  { intros t Ht. pose proof (k_halted _ Hk t Ht) as Hn. rewrite Eh in Hn. destruct (is_first t), (is_clear t); naive_solver. }
  destruct Hk as [A B C D [E [E' E'']] F G H I J K]. set (h := Halt _ _ _ _ _ _).
  split; unfold in_force in *; cbn [tasks await set_tasks halted haltDurable rows haltPersistTimer nextId set_nextId set_halted] in *.
  - rewrite count_app, count_cons. cbn. lia.
  - rewrite count_app, count_none; [cbn; lia|]. intros x Hx. by apply Hno.
  - intros x y [Hx| ->]%elem_snoc _ Hc; [destruct (Hno x Hx); congruence|done].
  - done.
  - split; [|split].
    + intros x h' [Hx| ->]%elem_snoc; [intros Hh; specialize (E x h' Hx Hh); lia|]. intros [= <-]. cbn. lia.
    + intros h' d Ht. specialize (E' h' d Ht). lia.
    + intros h' [= <-]. cbn. lia.
  - intros h' [Hx|Hx]%elem_snoc; [by apply (F h')|done].
  - intros h' [Hx|Hx]%elem_snoc; [by apply (G h')|done].
  - intros _ _ _. split.
    + intros x h' [Hx| ->]%elem_snoc Hr; [|done]. apply Nat.eqb_neq. cbn.
      assert (task_halt x = Some h') as Hh by (destruct x as [[]|[]|[]| | | | |]; cbn in *; by subst). specialize (E x h' Hx Hh). lia.
    + intros h' d Ht. apply Nat.eqb_neq. cbn. specialize (E' h' d Ht). lia.
  - intros d h' [Hx|Hx]%elem_snoc Hi; [|done]. apply Nat.eqb_eq in Hi. cbn in Hi. specialize (E _ h' Hx eq_refl). lia.
  - intros [Hx|Hx]%elem_snoc; [|done]. by destruct (Hno _ Hx).
  - intros _ _ _ _. right. exists (WriteCheck First h). rewrite elem_snoc. auto.
Qed.

Lemma fireTimer_kept s : kept s -> kept (fireTimer s).
Proof.
  intros Hk. unfold fireTimer. destruct (haltPersistTimer s) as [[h d]|] eqn:Et; [|done].
  assert (kept (set_timer None s)) as Hk0.
  { destruct Hk as [A B C D [E [E' E'']] F G H I J K]. kept_intro; try assumption; [by split|]. intros x Hx Hf. by destruct (H x Hx Hf). }
  unfold retryHaltPersist. change (in_force h (set_timer None s)) with (in_force h s). destruct (in_force h s) eqn:Ei; [|done].
  assert (forall t, t ∈ tasks s -> is_first t = false) as Hno.
  { intros t Ht. destruct (is_first t) eqn:Ef; [|done]. destruct (k_fresh _ Hk t Ht Ef) as [_ H2]. rewrite (H2 h d Et) in Ei. done. }
  pose proof (proj1 (proj2 (k_ids _ Hk)) h d Et) as Hid. clear Et Hk.
  destruct Hk0 as [A B C D [E [E' E'']] F G H I J K]. kept_intro.
  - rewrite count_app, count_cons. cbn. lia.
  - rewrite count_app, count_cons. cbn. lia.
  - intros x y [Hx| ->]%elem_snoc [Hy| ->]%elem_snoc Hc; [by apply (C x y)|done|by apply Hno|done].
  - intros x [Hx| ->]%elem_snoc; [by apply D|]. intros [?|?]; done.
  - split; [|by split]. intros x h' [Hx| ->]%elem_snoc; [by apply E|]. by intros [= <-].
  - intros h' [Hx|Hx]%elem_snoc; [by apply (F h')|done].
  - intros h' [Hx|Hx]%elem_snoc; [by apply (G h')|done].
  - intros x [Hx| ->]%elem_snoc Hf; [rewrite (Hno x Hx) in Hf|]; done.
  - intros d' h' [Hx|Hx]%elem_snoc Hi; [|done]. destruct (I d' h' Hx Hi) as [?|(y & Hy & Hp)]; [by left|]. right. exists y. rewrite elem_snoc. auto.
  - intros [Hx|Hx]%elem_snoc; [by apply J|done].
  - intros h' Hh Hr Hd. destruct (K h' Hh Hr Hd) as [?|(y & Hy & Hp)]; [by left|]. right. exists y. rewrite elem_snoc. auto.
Qed.

Lemma clearHalt_kept s : (forall t, t ∈ tasks s -> is_first t = false /\ is_clear t = false) -> kept s -> kept (clearHalt s).
Proof.
  intros Hno Hk. unfold clearHalt. destruct (halted s) as [h|] eqn:Eh; [|done]. cbv zeta.
  assert (forall t s0, is_clear t = true -> (t = ClearUpdate true -> real h -> has_active (rows s)) -> is_first t = false ->
    s0 = set_durable true (cancelHaltPersistRetry s) -> kept (await t s0)) as Hbegin.
  { intros t s0 Hc Hu Hf ->. destruct Hk as [A B C D [E [E' E'']] F G H I J K]. unfold cancelHaltPersistRetry. kept_intro.
    - rewrite count_app, count_none, count_cons, Hc; [cbn; lia|]. intros x Hx. by apply Hno.
    - rewrite count_app, count_none, count_cons, Hf; [cbn; lia|]. intros x Hx. by apply Hno.
    - intros x y _ [Hy| ->]%elem_snoc _; [by apply Hno|done].
    - intros _ _ _. by rewrite Eh.
    - split; [|by split]. intros x h' [Hx| ->]%elem_snoc; [by apply E|]. by destruct t.
    - intros h' [Hx|Hx]%elem_snoc; [by apply (F h')|]. by subst t.
    - intros h' [Hx|Hx]%elem_snoc; [|by subst t]. by destruct (Hno _ Hx).
    - intros x [Hx| ->]%elem_snoc Hfx; [destruct (Hno x Hx); congruence|congruence].
    - intros d h' [Hx|Hx]%elem_snoc Hi; [|by subst t]. destruct (I d h' Hx Hi) as [?|(y & Hy & Hp)]; [by left|]. right. exists y. rewrite elem_snoc. auto.
    - intros [Hx|Hx]%elem_snoc h' Hh Hr; [by destruct (Hno _ Hx)|]. apply Hu; [done|]. congruence.
    - intros _ _ _ _. right. exists t. rewrite elem_snoc. auto. }
  repeat case_bool_decide.
  - apply (kept_ext (set_halted None (set_tasks (tasks s) (set_durable true (cancelHaltPersistRetry s))))); try done.
    apply (cleared_kept (DropDelete AfterWrite)); [done|].
    apply (kept_perm _ (await (DropDelete AfterWrite) (set_durable true (cancelHaltPersistRetry s)))).
    { cbn. rewrite Permutation_app_comm. done. }
    apply kept_await; [done..|]. destruct Hk as [A B C D [E [E' E'']] F G H' I J K]. unfold cancelHaltPersistRetry. kept_intro; try assumption.
    + by split.
    + intros h' Hh. by destruct (Hno _ Hh).
    + intros x Hx Hf. by destruct (H' x Hx Hf).
    + intros h' Hh Hr _. exfalso. apply Hr. rewrite Eh in Hh. injection Hh as <-. rewrite H. unfold synthetic. set_solver.
  - by apply Hbegin.
  - apply Hbegin; [done| |done|done]. intros [= Hd] Hr.
    destruct (k_durable _ Hk h Eh Hr Hd) as [?|(t & Ht & Hor)]; [done|]. destruct (Hno t Ht). destruct Hor; congruence.
Qed.

Lemma step_kept e s : allowed e s -> kept s -> kept (step s e).
Proof.
  destruct e as [b why mm srcs now|i r| | |]; cbn [allowed step]; intros Ha Hk.
  - by apply haltOn_kept.
  - destruct (tasks s !! i) as [t|] eqn:Et; [|done]. apply resume_kept.
    apply (kept_perm _ s); [|done]. symmetry. rewrite <- (take_drop_middle _ _ _ Et) at 1. by rewrite Permutation_middle.
  - by apply fireTimer_kept.
  - by apply clearHalt_kept.
  - unfold cancelHaltPersistRetry. destruct Hk as [A B C D [E [E' E'']] F G H I J K]. split; unfold in_force in *; cbn in *; try assumption; [by split|].
    intros x Hx Hf. by destruct (H x Hx Hf).
Qed.
Lemma run_kept es s : orderly es s -> kept s -> kept (run es s).
Proof.
  revert s; induction es as [|e es IH]; intros s Ho Hk; cbn; [done|]. destruct Ho as [Ha Ho]. apply IH; [done|]. by apply step_kept.
Qed.

(** ** Startup *)
Lemma kept_quiet s : tasks s = [] -> haltPersistTimer s = None -> (forall h, halted s = Some h -> (h_id h < nextId s)%nat) ->
  (forall h, halted s = Some h -> real h -> has_active (rows s)) -> kept s.
Proof.
  intros Et Etm Hid Ha.
  split; rewrite ?Et, ?Etm; cbn; try lia; try (intros; exfalso; eapply not_elem_of_nil; eassumption).
  - split; [|by split]. intros t h Ht. by apply not_elem_of_nil in Ht.
  - intros h Hh Hr _. left. by apply (Ha h).
Qed.
Lemma synthetic_kept why s : why ∈ synthetic -> tasks s = [] -> haltPersistTimer s = None -> kept (holdSynthetic why s).
Proof.
  intros Hw Et Etm. apply kept_quiet; [done|done|..]; cbn; intros h [= <-]; cbn; [lia|]. intros Hr. by destruct Hr.
Qed.

(** The first read is answered, or two reads in a row are: the retry that recovers and the
    one of the restart. *)
Definition confirmed (rs : list query_reply) : Prop := (exists b, rs = Good :: b) \/ (exists a b, rs = a ++ Good :: Good :: b).

Lemma read_confirmed rs : forall retrying s, getActiveHalt (rows s) = None ->
  (retrying = false /\ (exists b, rs = Good :: b)) \/ (exists a b, rs = a ++ Good :: Good :: b) -> read_halt_state retrying rs s = (s, true).
Proof.
  induction rs as [|x rs IH]; intros retrying s Hn Hc; [by destruct Hc as [(_ & ? & ?)|([|??] & ? & ?)]|].
  cbn [read_halt_state]. destruct Hc as [(-> & b & [= -> ->])|([|y a] & b & [= -> ->])]; rewrite ?Hn.
  - done.
  - destruct retrying; [|done]. cbn [read_halt_state]. by rewrite Hn.
  - assert (forall t, read_halt_state t (a ++ Good :: Good :: b) s = (s, true)) as K by (intros t; apply IH; eauto). by destruct y, retrying.
Qed.
Lemma read_cases rs : forall retrying s,
  (read_halt_state retrying rs s = (s, true) /\ ((retrying = false /\ (exists b, rs = Good :: b)) \/ (exists a b, rs = a ++ Good :: Good :: b))
     /\ getActiveHalt (rows s) = None)
  \/ (exists prior, getActiveHalt (rows s) = Some prior /\ read_halt_state retrying rs s = (installStartupHalt prior s, false))
  \/ read_halt_state retrying rs s = (holdSynthetic "halt-state-check-failed" s, false).
Proof.
  induction rs as [|x rs IH]; intros retrying s; cbn [read_halt_state]; [by right; right|].
  assert (forall y t, (exists a b, rs = a ++ Good :: Good :: b) -> (retrying = t /\ (exists b, y :: rs = Good :: b)) \/ (exists a b, y :: rs = a ++ Good :: Good :: b)) as Hlater.
  { intros y t (a & b & ->). right. by exists (y :: a), b. }
  destruct x; [|destruct (IH true s) as [(-> & [[? _]|Hc] & Hn)|[(p & Hp & ->)| ->]]; eauto 6..]; [|done..].
  destruct (getActiveHalt (rows s)) as [prior|] eqn:E; [right; left; eauto|]. destruct retrying; [|left; eauto 6].
  destruct (IH false s) as [(-> & Hc & Hn)|[(p & Hp & ->)| ->]]; [|congruence|by right; right].
  left. split; [done|]. split; [|done]. destruct Hc as [(_ & b & ->)|Hc]; [|by apply Hlater]. right. by exists [], b.
Qed.
Lemma resolve_cases rs s :
  (resolveStartupHalt rs s = (s, true) /\ confirmed rs /\ getActiveHalt (rows s) = None)
  \/ (exists prior, getActiveHalt (rows s) = Some prior /\ resolveStartupHalt rs s = (installStartupHalt prior s, false))
  \/ resolveStartupHalt rs s = (holdSynthetic "halt-state-check-failed" s, false).
Proof. destruct (read_cases rs false s) as [(H1 & [[_ Hc]|Hc] & H3)|[?|?]]; unfold confirmed; auto. Qed.

Lemma startup_kept rs r l c : kept (startup rs r l c).1.
Proof.
  unfold startup. destruct (resolve_cases rs (fresh l c)) as [(-> & _ & _)|[(prior & Ha & ->)| ->]].
  - assert (kept (fresh l c)) as Hf by (by apply kept_quiet).
    assert (kept (set_pendingCopy true (holdSynthetic "halt-copy-unreadable" (fresh l c)))) as Hu.
    { apply (kept_ext (holdSynthetic "halt-copy-unreadable" (fresh l c))); try done. apply synthetic_kept; [unfold synthetic; set_solver|done|done]. }
    unfold restorePendingHalt. destruct r; [|by apply synthetic_kept; [unfold synthetic; set_solver|..]..]. cbn [copy fresh].
    destruct c as [[|ch raw]|]; [done| |done]. destruct (JSON_parse _) as [[]|]; try done. destruct (field "reason" _) as [[]|]; try done.
    cbn [fst]. set (h := Halt _ _ _ _ _ _).
    pose proof (haltOn_kept 0 "" PNull PNull "" (fresh l (Some (String ch raw))) Hf) as Hk.
    apply (kept_ext (set_tasks [WriteCheck First h] (set_nextId 1 (set_halted (Some h) (fresh l (Some (String ch raw))))))); try done.
    clear Hk. split; cbn; try lia; try done.
    + intros x y Hx Hy. apply list_elem_of_singleton in Hx as ->. done.
    + split; [|by split; [done|intros h' [= <-]; cbn; lia]]. intros x h' Hx. apply list_elem_of_singleton in Hx as ->. intros [= <-]. cbn. lia.
    + intros h' Hx. by apply list_elem_of_singleton in Hx.
    + intros h' Hx. by apply list_elem_of_singleton in Hx.
    + intros x Hx _. split; [|done]. intros y h' Hy. by apply list_elem_of_singleton in Hy as ->.
    + intros d h' Hx. by apply list_elem_of_singleton in Hx.
    + intros Hx. by apply list_elem_of_singleton in Hx.
    + intros _ _ _ _. right. exists (WriteCheck First h). split; [by apply list_elem_of_singleton|by left].
  - apply kept_quiet; [done|done|..]; cbn; intros h [= <-]; cbn; [lia|]. intros _. apply getActiveHalt_some. eauto.
  - apply synthetic_kept; [unfold synthetic; set_solver|done|done].
Qed.

Lemma startup_held rs r l c : has_active l -> (startup rs r l c).2 = Held /\ halted (startup rs r l c).1 <> None.
Proof.
  intros [row Hrow]%getActiveHalt_some. unfold startup.
  destruct (resolve_cases rs (fresh l c)) as [(_ & _ & Hn)|[(p & _ & ->)| ->]]; [|done|done]. cbn [rows fresh] in Hn. congruence.
Qed.

(** C8. A halt the client reports as durable survives the process: after any run of halts,
    replies, retries and clears over a database whose queries fail at will, in which no
    clear begins while another clear or the first write of a halt is in flight, if the
    client is halted (not by a halt a startup made up), reports the halt as durable and
    neither of these is in flight, then a new process is held before it applies anything, whatever its own reads do. *)
Theorem durable_halt_survives rs r l c es h rs' r' :
  let start := (startup rs r l c).1 in
  let s := run es start in
  orderly es start -> halted s = Some h -> real h -> isHaltDurable s = true ->
  (forall t, t ∈ tasks s -> is_first t = false /\ is_clear t = false) ->
  let next := startup rs' r' (rows s) (copy s) in
  next.2 = Held /\ halted next.1 <> None.
Proof.
  cbv zeta. intros Ho Hh Hr Hd Hrest. pose proof (run_kept es _ Ho (startup_kept rs r l c)) as Hk.
  unfold isHaltDurable in Hd. rewrite Hh in Hd. destruct (k_durable _ Hk h Hh Hr Hd) as [Ha|(t & Ht & Hor)].
  2: { destruct (Hrest t Ht). destruct Hor; congruence. }
  by apply startup_held.
Qed.

(** C24. Startup goes on only when it has read that there is nothing to hold it: the first
    read of [sync_halt] was answered, or a later one and the one after it, and shows no
    uncleared row, and the read of the copy was answered and shows none or an empty one;
    then nothing is installed.  In every other case the client is halted, and a halt whose
    only record is the copy comes back with its block, reason and details and its write in
    flight. *)
Theorem startup_fails_closed rs r l c :
  ((startup rs r l c).2 = Proceed <->
     confirmed rs /\ r = Good /\ getActiveHalt l = None /\ (c = None \/ c = Some ""))
  /\ ((startup rs r l c).2 = Proceed -> (startup rs r l c).1 = fresh l c)
  /\ ((startup rs r l c).2 = Held -> halted (startup rs r l c).1 <> None)
  /\ (forall h mm srcs, confirmed rs -> r = Good -> getActiveHalt l = None -> c = Some (copy_text h) ->
       mismatches h = PArr mm -> sources h = PArr srcs -> at_ h <> Some "" ->
       exists h', halted (startup rs r l c).1 = Some h' /\ blockIndex h' = blockIndex h /\ reason h' = reason h
         /\ mismatches h' = mismatches h /\ sources h' = sources h /\ at_ h' = at_ h
         /\ tasks (startup rs r l c).1 = [WriteCheck First h']).
Proof.
  assert (forall rs', confirmed rs' -> getActiveHalt l = None -> resolveStartupHalt rs' (fresh l c) = (fresh l c, true)) as Hread.
  { intros rs' Hin Hn. apply read_confirmed; [done|]. destruct Hin; auto. }
  split; [|split; [|split]].
  - unfold startup. split.
    + destruct (resolve_cases rs (fresh l c)) as [(-> & Hin & Hn)|[(p & _ & ->)| ->]]; [|done|done].
      unfold restorePendingHalt. destruct r; [|done|done]. cbn [copy fresh]. intros Hp. split; [done|]. split; [done|]. split; [done|].
      destruct c as [[|ch raw]|]; [by right| |by left]. destruct (JSON_parse _) as [[]|]; try done. by destruct (field "reason" _) as [[]|].
    + intros (Hin & -> & Hn & Hc). rewrite Hread by done. unfold restorePendingHalt. cbn [copy fresh]. by destruct Hc as [-> | ->].
  - unfold startup. destruct (resolve_cases rs (fresh l c)) as [(-> & Hin & Hn)|[(p & _ & ->)| ->]]; [|done|done].
    unfold restorePendingHalt. destruct r; [|done|done]. cbn [copy fresh].
    destruct c as [[|ch raw]|]; [done| |done]. destruct (JSON_parse _) as [[]|]; try done. by destruct (field "reason" _) as [[]|].
  - unfold startup. destruct (resolve_cases rs (fresh l c)) as [(-> & Hin & Hn)|[(p & _ & ->)| ->]]; [|done|done].
    unfold restorePendingHalt. destruct r; [|done|done]. cbn [copy fresh].
    destruct c as [[|ch raw]|]; [done| |done]. destruct (JSON_parse _) as [[]|]; try done. by destruct (field "reason" _) as [[]|].
  - intros h mm srcs Hin -> Hn Hc Hmm Hsrc Hat. unfold startup. rewrite Hread by done. unfold restorePendingHalt. cbn [copy fresh]. rewrite Hc.
    assert (copy_text h <> "") as Hne by (unfold copy_text; intros E; apply (f_equal utf8) in E; rewrite utf8_of_utf8 in E; done).
    destruct (copy_text h) as [|ch raw] eqn:Et; [done|]. rewrite <- Et. unfold copy_text. rewrite parse_print. rewrite Hmm, Hsrc.
    cbn [field List.find fst snd]. eexists. split; [reflexivity|]. cbn. split; [done|]. split; [done|]. split; [done|]. split; [done|].
    split; [|done]. destruct (at_ h) as [[|]|]; done.
Qed.

End Client.

(** ** Examples *)
Module Example.
Definition noon (n : nat) : string := "2026-01-01 12:00:00".
Definition diverge (b : Z) : event := HaltOn b "local-recompute-divergence" (PArr [PStr "ledger_hash"]) (PArr []) "2026-01-01T12:00:00.000Z".
Definition clean : client := (startup [Good] Good [] None).1.
#[local] Notation after es := (run noon es clean).

(** The write fails, its copy lands, and the second try lands. *)
Definition recovered : list event :=
  [diverge 7; Reply 0 Good; Reply 0 Fault; Reply 0 Good; Timer; Reply 0 Good; Reply 0 Good; Reply 0 Down; Reply 0 Good].
Lemma durable_halt_survives_witness :
  let next := startup [Fault; Down] Fault (rows (after recovered)) (copy (after recovered)) in
  next.2 = Held /\ halted next.1 <> None.
Proof.
  refine (durable_halt_survives noon [Good] Good [] None recovered
    (Halt 0 7 "local-recompute-divergence" (PArr [PStr "ledger_hash"]) (PArr []) (Some "2026-01-01T12:00:00.000Z")) [Fault; Down] Fault _ _ _ _ _).
  - repeat (split; [exact I|]). exact I.
  - vm_compute. reflexivity.
  - unfold real, synthetic. cbn [reason]. rewrite !not_elem_of_cons. repeat split; try discriminate. apply not_elem_of_nil.
  - vm_compute. reflexivity.
  - intros t Ht. vm_compute in Ht. by apply not_elem_of_nil in Ht.
Defined.

(** A halt is cleared while its retry is in flight; the next halt cannot be written and
    sets its own timer; the failure of the old retry replaces that timer by one for the
    cleared halt, which does nothing.  No write of the halt in force is in flight or
    scheduled, and it has no row. *)
Definition stale_retry : list event :=
  [diverge 7; Reply 0 Good; Reply 0 Fault; Reply 0 Good; Timer; Reply 0 Good; Clear; Reply 1 Good; Reply 1 Good;
   diverge 9; Reply 1 Good; Reply 1 Fault; Reply 1 Good; Reply 0 Fault; Timer].
Lemma stale_retry_stops_retries :
  let s := after stale_retry in
  orderly noon stale_retry clean /\ option_map blockIndex (halted s) = Some 9 /\ tasks s = [] /\ haltPersistTimer s = None
  /\ stopping s = false /\ getActiveHalt (rows s) = None.
Proof.
  cbv zeta. split; [|vm_compute; auto].
  repeat match goal with
  | |- orderly _ [] _ => exact I
  | |- orderly _ _ _ => split; [cbn [allowed]; first [exact I | idtac]|]
  end.
  intros t Ht. vm_compute in Ht. apply list_elem_of_singleton in Ht as ->. done.
Qed.

(** While the first write is in flight the halt is reported as durable. *)
Lemma unwritten_reported_durable : isHaltDurable (after [diverge 7]) = true /\ rows (after [diverge 7]) = [].
Proof. vm_compute. auto. Qed.

(** The DELETE of the copy fails: the clear goes through and the next start halts again. *)
Definition kept_copy : list event :=
  [diverge 7; Reply 0 Good; Reply 0 Fault; Reply 0 Good; Clear; Reply 0 Good; Reply 0 Fault].
Lemma cleared_halt_returns :
  halted (after kept_copy) = None
  /\ option_map blockIndex (halted (startup [Good] Good (rows (after kept_copy)) (copy (after kept_copy))).1) = Some 7.
Proof. vm_compute. auto. Qed.
End Example.
