(* ===== verification/WireCodec.v ===== *)
(** * WireCodec: rows on the wire

    Models [src/src/util/wire_codec.js]: the sentinel object that carries a binary
    column through JSON ([encodeRow], [encodeTables], [decodeValue]), the replacer that
    writes a bigint as its decimal text, and the cast that reads a BIGINT cell
    ([bigIntTypeCast]).  A row is the list of its columns in order; a cell is a
    [Buffer] or a plain value.  [base64] is [Buffer.toString('base64')] and
    [from_base64] is [Buffer.from(s, 'base64')], which accepts either alphabet, skips
    other characters and stops at the padding. *)

From S2P Require Import Prelude JsText JsNumber JsDouble Json.

(** ** Base 64 *)
Definition sextet_char (z : Z) : byte :=
  if z <? 26 then z2b (65 + z) else if z <? 52 then z2b (71 + z) else if z <? 62 then z2b (z - 4)
  else if z =? 62 then ch "+" else ch "/".
Definition char_sextet (b : byte) : option Z :=
  let z := b2z b in
  if (65 <=? z) && (z <=? 90) then Some (z - 65)
  else if (97 <=? z) && (z <=? 122) then Some (z - 71)
  else if (48 <=? z) && (z <=? 57) then Some (z + 4)
  else if (z =? 43) || (z =? 45) then Some 62
  else if (z =? 47) || (z =? 95) then Some 63
  else None.
Definition c_pad : byte := ch "=".

Fixpoint base64 (l : bytes) : bytes :=
  match l with
  | [] => []
  | [a] => [sextet_char (b2z a / 4); sextet_char (b2z a mod 4 * 16); c_pad; c_pad]
  | [a; b] => [sextet_char (b2z a / 4); sextet_char (b2z a mod 4 * 16 + b2z b / 16); sextet_char (b2z b mod 16 * 4); c_pad]
  | a :: b :: c :: rest =>
      sextet_char (b2z a / 4) :: sextet_char (b2z a mod 4 * 16 + b2z b / 16)
      :: sextet_char (b2z b mod 16 * 4 + b2z c / 64) :: sextet_char (b2z c mod 64) :: base64 rest
  end.

(** The sextets before the padding. *)
Fixpoint sextets (l : bytes) : list Z :=
  match l with
  | [] => []
  | b :: rest =>
      if bool_decide (b = c_pad) then []
      else match char_sextet b with Some z => z :: sextets rest | None => sextets rest end
  end.
Fixpoint join_sextets (l : list Z) : bytes :=
  match l with
  | w :: x :: y :: z :: rest => z2b (w * 4 + x / 16) :: z2b (x mod 16 * 16 + y / 4) :: z2b (y mod 4 * 64 + z) :: join_sextets rest
  | [w; x; y] => [z2b (w * 4 + x / 16); z2b (x mod 16 * 16 + y / 4)]
  | [w; x] => [z2b (w * 4 + x / 16)]
  | _ => []
  end.
Definition from_base64 (s : string) : bytes := join_sextets (sextets (utf8 s)).

(** ** Rows *)
Definition BINARY_TAG : string := "__xbin__".

Inductive cell := Buf (b : bytes) | Val (v : jv).
Definition row : Type := list (string * cell).

Definition encodeCell (c : cell) : jv :=
  match c with Buf b => VObj [(BINARY_TAG, VStr (of_utf8 (base64 b)))] | Val v => v end.
(** The row as an object; a row without buffers is returned as it is. *)
Definition encodeRow (r : row) : list (string * jv) := map (fun p => (p.1, encodeCell p.2)) r.
Definition encodeTables (ts : list (string * list row)) : list (string * list (list (string * jv))) :=
  map (fun t => (t.1, map encodeRow t.2)) ts.

(** What the client applies. *)
Inductive applied := ABuf (b : bytes) | AVal (j : json).
Definition decodeValue (j : json) : applied :=
  match j with
  | PObj [(k, PStr s)] => if bool_decide (k = BINARY_TAG) then ABuf (from_base64 s) else AVal j
  | _ => AVal j
  end.

(** [JSON.stringify(row, bigIntReplacer)] and the client's reading of it, column by
    column. *)
Definition row_text (r : row) : option bytes := jsonStringify (VObj (encodeRow r)).
Definition received (text : bytes) : option (list (string * applied)) :=
  match JSON_parse (of_utf8 text) with
  | Some (PObj l) => Some (map (fun m => (m.1, decodeValue m.2)) l)
  | _ => None
  end.

(** ** BIGINT cells *)
Definition bigIntTypeCast (column_type : string) (text : option string) (next : jsval) : jsval :=
  if negb (bool_decide (column_type = "BIGINT")) then next
  else match text with
       | None => JNull
       | Some s => match safe_integer (js_number (JStr s)) with Some z => JInt z | None => JStr s end
       end.

(** ** The round trip of base 64 *)
Lemma sextet_char_back z : 0 <= z < 64 -> char_sextet (sextet_char z) = Some z /\ sextet_char z <> c_pad.
Proof.
  intros Hz. assert (forallb (fun n => bool_decide (char_sextet (sextet_char (Z.of_nat n)) = Some (Z.of_nat n) /\ sextet_char (Z.of_nat n) <> c_pad)) (seq 0 64) = true) as Hall
    by (vm_compute; reflexivity).
  rewrite forallb_forall in Hall. specialize (Hall (Z.to_nat z)). rewrite Z2Nat.id in Hall by lia.
  apply bool_decide_eq_true in Hall; [done|]. apply in_seq. lia.
Qed.
Lemma sextets_cons z l : 0 <= z < 64 -> sextets (sextet_char z :: l) = z :: sextets l.
Proof. intros Hz. destruct (sextet_char_back z Hz) as [Hc Hp]. cbn [sextets]. by rewrite bool_decide_eq_false_2, Hc. Qed.
Lemma sextets_pad l : sextets (c_pad :: l) = [].
Proof. cbn [sextets]. by rewrite bool_decide_eq_true_2. Qed.

Lemma back_byte (a : byte) e : e = b2z a -> z2b e = a.
Proof. intros ->. apply z2b_b2z. Qed.

Lemma base64_roundtrip l : join_sextets (sextets (base64 l)) = l.
Proof.
  remember (length l) as n eqn:En. revert l En. induction n as [n IH] using lt_wf_ind. intros l ->.
  destruct l as [|a [|b [|c rest]]]; [done|..]; cbn [base64];
    pose proof (b2z_range a) as Ha; try pose proof (b2z_range b) as Hb; try pose proof (b2z_range c) as Hc;
    repeat rewrite sextets_cons by (Z.to_euclidean_division_equations; lia); rewrite ?sextets_pad; cbn [join_sextets].
  - f_equal. apply back_byte. Z.to_euclidean_division_equations; lia.
  - f_equal; [|f_equal]; apply back_byte; Z.to_euclidean_division_equations; lia.
  - f_equal; [|f_equal; [|f_equal]]; [apply back_byte; Z.to_euclidean_division_equations; lia..|].
    apply (IH (length rest)); [cbn; lia|done].
Qed.

(** ** Rows over the wire *)

(** A plain value that is not itself of the sentinel's shape; column values are
    scalars, so none is. *)
Definition plain (c : cell) : Prop :=
  match c with Buf _ => True | Val v => forall s, serialize v <> Some (PObj [(BINARY_TAG, PStr s)]) end.
(** What a column should arrive as. *)
Definition delivered (p : string * cell) : list (string * applied) :=
  match p.2 with
  | Buf b => [(p.1, ABuf b)]
  | Val v => match serialize v with Some j => [(p.1, AVal j)] | None => [] end
  end.

Lemma decode_encode p : plain p.2 ->
  map (fun m => (m.1, decodeValue m.2)) (match serialize (encodeCell p.2) with Some j => [(p.1, j)] | None => [] end) = delivered p.
Proof.
  destruct p as [k [b|v]]; cbn [fst snd plain]; unfold delivered; cbn [fst snd encodeCell].
  - intros _. cbn. rewrite bool_decide_eq_true_2 by done. unfold from_base64. by rewrite utf8_of_utf8, base64_roundtrip.
  - intros Hp. destruct (serialize v) as [j|]; [|done]. cbn. do 2 f_equal. destruct j as [| | | | |[|[k' []] []]]; try done.
    cbn. case_bool_decide; [|done]. subst. by destruct (Hp s).
Qed.

(** A row arrives as it was read: the text of any row whose plain values are not of
    the sentinel's shape is read back with every binary column as the same bytes, every
    other column as its JSON value (a bigint as its exact decimal text), and a column
    without a value left out. *)
Theorem row_wire_roundtrip r :
  Forall (fun p => plain p.2) r ->
  received (default [] (row_text r)) = Some (List.flat_map delivered r).
Proof.
  intros Hr. unfold row_text, jsonStringify, received. cbn [serialize fmap option_fmap option_map default].
  change (id (print_json ?x)) with (print_json x). rewrite parse_print. f_equal. unfold encodeRow.
  induction Hr as [|p r Hp Hr IH]; [done|]. cbn [map List.flat_map]. rewrite map_app. rewrite <- (decode_encode p Hp). f_equal. exact IH.
Qed.

Lemma row_wire_roundtrip_witness :
  received (default [] (row_text [("id", Val (VBig 18446744073709551615)); ("memo", Val VNull); ("data", Buf [Byte.x00; Byte.xff; Byte.x10; Byte.x80])]))
  = Some [("id", AVal (PStr "18446744073709551615")); ("memo", AVal PNull); ("data", ABuf [Byte.x00; Byte.xff; Byte.x10; Byte.x80])].
Proof.
  rewrite row_wire_roundtrip; [vm_compute; reflexivity|].
  repeat constructor; cbn; discriminate.
Defined.

(** ** BIGINT cells *)
Lemma log2_bounds n : 0 < n -> 2 ^ Z.log2 n <= n < 2 ^ (Z.log2 n + 1).
Proof. intros Hn. pose proof (Z.log2_spec n Hn). by rewrite Z.add_1_r. Qed.

Lemma half_even_ge n d : n / d <= half_even n d.
Proof. unfold half_even. repeat case_match; lia. Qed.
Lemma half_even_1 n : half_even n 1 = n.
Proof. unfold half_even. by rewrite Z.div_1_r, Z.mod_1_r. Qed.

(** An integer is rounded to a double: exactly up to 2^53, to a larger one above. *)
Lemma round_integer n : 0 < n -> safe_integer (round_ratio n 1) = if n <=? MAX_SAFE then Some n else None.
Proof.
  intros Hn. unfold round_ratio. rewrite (proj2 (Z.eqb_neq n 0)) by lia. change (Z.log2 1) with 0. rewrite Z.sub_0_r.
  set (k := Z.log2 n). pose proof (log2_bounds n Hn) as Hk. fold k in Hk. pose proof (Z.log2_nonneg n) as Hk0. fold k in Hk0.
  cbv zeta.
  assert ((let '(a, b) := scaled n 1 (k - 53) in if 2 ^ 53 <=? a / b then k - 53 + 1 else k - 53) = k - 52) as ->.
  { unfold scaled. destruct (Z.ltb_spec (k - 53) 0).
    - rewrite Z.div_1_r. rewrite (proj2 (Z.leb_le _ _)); [lia|]. replace 53 with (k + (53 - k)) by lia. rewrite Z.pow_add_r by lia.
      replace (- (k - (k + (53 - k)))) with (53 - k) by lia. nia.
    - rewrite Z.mul_1_l. rewrite (proj2 (Z.leb_le _ _)); [lia|]. apply Z.div_le_lower_bound; [lia|].
      rewrite <- Z.pow_add_r by lia. replace (k - 53 + 53) with k by lia. lia. }
  rewrite Z.max_l by lia. unfold scaled. destruct (Z.ltb_spec (k - 52) 0) as [Hlt|Hge].
  - rewrite half_even_1, (proj2 (Z.ltb_ge 971 (k - 52))), (proj2 (Z.eqb_neq (k - 52) 971)) by lia. cbn [orb andb].
    unfold safe_integer, num_integer. rewrite (proj2 (Z.leb_gt 0 (k - 52))) by lia.
    rewrite Z.mod_mul by lia. rewrite Z.eqb_refl, Z.div_mul by lia. by rewrite Z.abs_eq by lia.
  - rewrite Z.mul_1_l. destruct (decide (k = 52)) as [->|Hne].
    + change (2 ^ (52 - 52)) with 1. rewrite half_even_1. change ((971 <? 52 - 52) || ((52 - 52 =? 971) && (2 ^ 53 <=? n))) with false.
      unfold safe_integer. rewrite num_integer_Fin. by rewrite Z.abs_eq by lia.
    + assert (2 ^ 53 <= n) by (apply Z.le_trans with (2 ^ k); [apply Z.pow_le_mono_r|]; lia).
      rewrite (proj2 (Z.leb_gt n MAX_SAFE)) by (unfold MAX_SAFE; lia).
      destruct (_ || _); [done|]. unfold safe_integer, num_integer. rewrite (proj2 (Z.leb_le 0 (k - 52))) by lia.
      assert (2 ^ 1 <= 2 ^ (k - 52)) by (apply Z.pow_le_mono_r; lia).
      assert (2 ^ 52 <= n / 2 ^ (k - 52)).
      { apply Z.div_le_lower_bound; [lia|]. rewrite <- Z.pow_add_r by lia. replace (k - 52 + 52) with k by lia. lia. }
      pose proof (half_even_ge n (2 ^ (k - 52))). rewrite (proj2 (Z.leb_gt _ _)); [done|]. unfold MAX_SAFE. nia.
Qed.

Lemma decimal_literal_digits l : l <> [] -> Forall (fun b => is_digit b = true) l -> decimal_literal l = round_ratio (dec_val l) 1.
Proof.
  intros Hne Hl. unfold decimal_literal. rewrite span_digits_all by (apply forallb_forall; intros x Hx%list_elem_of_In; by rewrite Forall_forall in Hl; apply Hl).
  rewrite bool_decide_eq_false_2 by done. cbn. by rewrite app_nil_r, Z.mul_1_r.
Qed.

Lemma trim_minus_digits l b : is_digit b = true -> trim (c_minus :: l ++ [b]) = c_minus :: l ++ [b].
Proof.
  intros Hb. unfold trim, trim_start. cbn [length strip_all]. change (strip_one js_white_space (c_minus :: ?x)) with (@None bytes).
  unfold trim_end. cbn [rev]. rewrite rev_app_distr. cbn [rev app]. rewrite strip_all_digit by done.
  cbn [rev]. by rewrite rev_app_distr, rev_involutive.
Qed.

Lemma number_literal_digits l : l <> [] -> Forall (fun b => is_digit b = true) l ->
  number_literal l = round_ratio (dec_val l) 1 /\ number_literal (c_minus :: l) = num_neg (round_ratio (dec_val l) 1).
Proof.
  intros Hne Hl. destruct l as [|a l]; [done|]. pose proof (decimal_literal_digits _ Hne Hl) as Hdec. inversion Hl as [|? ? Ha Hl']; subst. split.
  - unfold number_literal. destruct l as [|c l]; [done|]. inversion Hl' as [|? ? Hc _]; subst.
    assert (forall d, is_digit d = false -> bool_decide (c = d) = false) as Hx by (intros d Hd; apply bool_decide_eq_false_2; intros ->; congruence).
    rewrite !Hx by done. rewrite !andb_false_r. rewrite strip_sign_digit by done. rewrite bool_decide_eq_false_2; [done|]. intros [= -> _]. discriminate Ha.
  - unfold number_literal. change (bool_decide (c_minus = c_zero)) with false. cbn [andb]. change (strip_sign (c_minus :: a :: l)) with (-1, a :: l). cbv iota beta.
    rewrite bool_decide_eq_false_2 by (intros [= -> _]; discriminate Ha). by rewrite Hdec.
Qed.

Lemma split_last (A : Type) (l : list A) : l <> [] -> exists h t, l = h ++ [t].
Proof. induction l as [|x l _] using rev_ind; [done|]. by exists l, x. Qed.

(** [Number] of the text of an integer. *)
Lemma js_number_int z :
  js_number (JStr (string_of_int z)) = if z <? 0 then num_neg (round_ratio (- z) 1) else round_ratio z 1.
Proof.
  unfold js_number, string_of_int, dec_of. rewrite utf8_of_utf8.
  assert (forall n, 0 <= n -> let l := dec_of_nonneg n in
    trim l = l /\ trim (c_minus :: l) = c_minus :: l /\ number_literal l = round_ratio n 1 /\ number_literal (c_minus :: l) = num_neg (round_ratio n 1)) as Hl.
  { intros n Hn l. destruct (dec_of_nonneg_spec n Hn) as [Hd Hv]. fold l in Hd, Hv. pose proof (dec_of_nonneg_ne n : l <> []) as Hne.
    destruct (number_literal_digits l Hne Hd) as [-> ->]. rewrite Hv. destruct (split_last _ l Hne) as (h & t & El). rewrite El in Hd |- *.
    apply Forall_app in Hd as [Hh Ht]. apply Forall_inv in Ht. split; [|by rewrite trim_minus_digits].
    destruct h as [|a h]; [|apply Forall_inv in Hh; by apply (trim_digits a h t)].
    cbn [app]. unfold trim, trim_start. rewrite strip_all_digit by done. unfold trim_end. cbn [rev app]. by rewrite strip_all_digit. }
  destruct (Z.ltb_spec z 0).
  - destruct (Hl (- z) ltac:(lia)) as (_ & -> & _ & ->). done.
  - destruct (Hl z ltac:(lia)) as (-> & _ & -> & _). done.
Qed.

Lemma safe_integer_neg n : 0 < n -> safe_integer (num_neg (round_ratio n 1)) = Z.opp <$> safe_integer (round_ratio n 1).
Proof.
  intros Hn. unfold safe_integer, num_integer. destruct (round_ratio n 1) as [m e| |]; [|done..]. cbn [num_neg].
  destruct (Z.leb_spec 0 e).
  - rewrite Z.mul_opp_l, Z.abs_opp. by destruct (_ <=? _).
  - assert (0 < 2 ^ (- e)) as Hb by (apply Z.pow_pos_nonneg; lia). pose proof (Z.mod_pos_bound m _ Hb).
    destruct (Z.eqb_spec (m mod 2 ^ (- e)) 0) as [Hz|Hnz].
    + rewrite Z.mod_opp_l_z, Z.div_opp_l_z by lia. cbn. rewrite Z.abs_opp. by destruct (_ <=? _).
    + by rewrite Z.mod_opp_l_nz, (proj2 (Z.eqb_neq _ _)) by lia.
Qed.

(** Every BIGINT keeps its exact value: the cast of the decimal text of any integer is
    that integer as a number when it is a safe integer and the same text when it is
    not, never the neighbouring double the driver would round to; in both forms it
    prints as the text the database sent. *)
Theorem bigIntTypeCast_exact z next :
  let cell := bigIntTypeCast "BIGINT" (Some (string_of_int z)) next in
  cell = (if Z.abs z <=? MAX_SAFE then JInt z else JStr (string_of_int z))
  /\ js_String cell = string_of_int z.
Proof.
  cbv zeta. assert (bigIntTypeCast "BIGINT" (Some (string_of_int z)) next = if Z.abs z <=? MAX_SAFE then JInt z else JStr (string_of_int z)) as ->.
  { unfold bigIntTypeCast. rewrite bool_decide_eq_true_2 by done. cbn [negb]. rewrite js_number_int. destruct (Z.ltb_spec z 0) as [Hz|Hz].
    - rewrite safe_integer_neg, round_integer, Z.abs_neq by lia. destruct (_ <=? _); [|done]. cbn. f_equal. lia.
    - rewrite Z.abs_eq by lia. destruct (decide (z = 0)) as [->|Hne]; [done|]. rewrite round_integer by lia. by destruct (_ <=? _). }
  split; [done|]. by destruct (_ <=? _).
Qed.
