(* ===== verification/Sql.v ===== *)
(** * Sql: the statements the replica's rollback issues

    The rollback of [src/src/client/rollback.js] is a list of SQL statements on the
    replica's own tables.  This file gives the fragment they use an abstract syntax and
    a semantics: rows are finite maps from column names to values, a table is a list of
    rows with its columns, a condition is three-valued (an unknown comparison with NULL
    keeps no row), a multi-table DELETE or UPDATE acts on each target row that some
    choice of joined rows satisfies, and a statement that names a table or a column the
    replica does not have fails with errno 1146 or 1054.  INNER JOIN conditions are part
    of the WHERE condition.

    [CAST(text AS DECIMAL(60,18))] and the collation of text columns are the database's
    own: they are the operations of the class [Dialect].

    The second half is the session a rollback runs in: [doQuery] inside a transaction
    rethrows, any query may fail by the schedule [faults], and [catch_gap] is the
    try/catch that swallows schema gaps only. *)

From S2P Require Import Prelude JsText.

(** ** Values and tables *)

(** [Dec u] is [u * 10^-18]. *)
Inductive value := Null | Int (z : Z) | Text (s : string) | Dec (u : Z).
#[global] Instance value_eq_dec : EqDecision value.
Proof. solve_decision. Defined.

Notation row := (gmap string value).
Definition cell (r : row) (c : string) : value := default Null (r !! c).

Record table := Table { columns : list string; rows : list row }.
Notation database := (gmap string table).

Definition rows_of (db : database) (t : string) : list row := match db !! t with Some x => rows x | None => [] end.
Definition set_rows (db : database) (t : string) (l : list row) : database :=
  alter (fun x => Table (columns x) l) t db.

(** Every row has columns of its table only. *)
Definition well_formed (db : database) : Prop :=
  forall t x r c, db !! t = Some x -> r ∈ rows x -> is_Some (r !! c) -> c ∈ columns x.

(** ** Expressions and conditions *)
Class Dialect := { cast_decimal : string -> Z; collate : string -> string }.

Inductive cmp := Eq | Ne | Lt | Gt | Ge.

Definition from : Type := list (string * string).   (* table, alias *)

Inductive expr :=
| Col (alias c : string)
| Lit (v : value)
| Plus (a b : expr)
| Coalesce (a b : expr)
| Decimal (a : expr)                                   (* CAST(a AS DECIMAL(60,18)) *)
| Pick (f : from) (w : cond) (e : expr)                (* (SELECT e FROM f WHERE w LIMIT 1) *)
| MaxOf (f : from) (w : cond) (e : expr)               (* (SELECT MAX(e) FROM f WHERE w) *)
with cond :=
| Cmp (op : cmp) (a b : expr)
| IsNull (a : expr)
| And (p q : cond)
| Or (p q : cond)
| Not (p : cond)
| InQ (a : expr) (f : from) (w : cond) (e : expr)      (* a IN (SELECT e FROM f WHERE w) *)
| ExistsQ (f : from) (w : cond)
| EndsWith (a : expr) (s : string).                    (* a LIKE '%s' *)

Definition TRUE : cond := Cmp Eq (Lit (Int 0)) (Lit (Int 0)).
Definition IsNotNull (a : expr) : cond := Not (IsNull a).
Definition InL (a : expr) (l : list string) : cond :=
  match l with
  | [] => Not TRUE
  | s :: l' => fold_left (fun p x => Or p (Cmp Eq a (Lit (Text x)))) l' (Cmp Eq a (Lit (Text s)))
  end.

Definition and3 (p q : option bool) : option bool :=
  match p, q with
  | Some false, _ | _, Some false => Some false
  | Some true, Some true => Some true
  | _, _ => None
  end.
Definition or3 (p q : option bool) : option bool :=
  match p, q with
  | Some true, _ | _, Some true => Some true
  | Some false, Some false => Some false
  | _, _ => None
  end.
Definition not3 (p : option bool) : option bool := negb <$> p.

Definition environment : Type := list (string * row).
Fixpoint alias_row (env : environment) (a : string) : row :=
  match env with
  | [] => ∅
  | (x, r) :: env' => if bool_decide (x = a) then r else alias_row env' a
  end.

(** The joined rows, the first table varying slowest. *)
Fixpoint products (db : database) (f : from) : list environment :=
  match f with
  | [] => [[]]
  | (t, a) :: f' => flat_map (fun r => map (cons (a, r)) (products db f')) (rows_of db t)
  end.

Section Semantics.
Context `{Dialect}.

Definition units (v : value) : Z :=
  match v with Null => 0 | Int z => z * 10 ^ 18 | Text s => cast_decimal s | Dec u => u end.
Definition compare_values (a b : value) : option comparison :=
  match a, b with
  | Null, _ | _, Null => None
  | Int x, Int y => Some (x ?= y)%Z
  | Text x, Text y => Some (String.compare (collate x) (collate y))
  | _, _ => Some (units a ?= units b)%Z
  end.
Definition cmp3 (op : cmp) (a b : value) : option bool :=
  (fun c => match op, c with
            | Eq, Datatypes.Eq | Ne, Datatypes.Lt | Ne, Datatypes.Gt | Lt, Datatypes.Lt
            | Gt, Datatypes.Gt | Ge, Datatypes.Eq | Ge, Datatypes.Gt => true
            | _, _ => false
            end) <$> compare_values a b.

Definition plus_values (a b : value) : value :=
  match a, b with
  | Null, _ | _, Null => Null
  | Int x, Int y => Int (x + y)
  | _, _ => Dec (units a + units b)
  end.
Definition max_value (l : list value) : value :=
  fold_left (fun acc v => match acc, v with
                          | Null, _ => v
                          | _, Null => acc
                          | _, _ => if bool_decide (cmp3 Gt v acc = Some true) then v else acc
                          end) l Null.
Definition in3 (v : value) (l : list value) : option bool :=
  fold_right (fun x acc => or3 (cmp3 Eq v x) acc) (Some false) l.

Fixpoint eval (db : database) (env : environment) (e : expr) {struct e} : value :=
  match e with
  | Col a c => cell (alias_row env a) c
  | Lit v => v
  | Plus a b => plus_values (eval db env a) (eval db env b)
  | Coalesce a b => match eval db env a with Null => eval db env b | v => v end
  | Decimal a => match eval db env a with Null => Null | v => Dec (units v) end
  | Pick f w x =>
      match List.find (fun p => bool_decide (holds db (p ++ env) w = Some true)) (products db f) with
      | Some p => eval db (p ++ env) x
      | None => Null
      end
  | MaxOf f w x =>
      max_value (map (fun p => eval db (p ++ env) x)
        (List.filter (fun p => bool_decide (holds db (p ++ env) w = Some true)) (products db f)))
  end
with holds (db : database) (env : environment) (w : cond) {struct w} : option bool :=
  match w with
  | Cmp op a b => cmp3 op (eval db env a) (eval db env b)
  | IsNull a => Some (bool_decide (eval db env a = Null))
  | And p q => and3 (holds db env p) (holds db env q)
  | Or p q => or3 (holds db env p) (holds db env q)
  | Not p => not3 (holds db env p)
  | InQ a f w' x =>
      in3 (eval db env a) (map (fun p => eval db (p ++ env) x)
        (List.filter (fun p => bool_decide (holds db (p ++ env) w' = Some true)) (products db f)))
  | ExistsQ f w' => Some (existsb (fun p => bool_decide (holds db (p ++ env) w' = Some true)) (products db f))
  | EndsWith a s =>
      match eval db env a with
      | Text x => Some (bool_decide (collate (String.substring (String.length x - String.length s) (String.length s) x) = collate s))
      | _ => None
      end
  end.

Definition satisfied (db : database) (env : environment) (w : cond) : bool := bool_decide (holds db env w = Some true).

(** The joined rows that make the condition true for a target row. *)
Definition matches (db : database) (a : string) (joins : from) (w : cond) (r : row) : list environment :=
  List.filter (fun env => satisfied db env w) (map (cons (a, r)) (products db joins)).

(** ** Statements *)
Inductive stmt :=
| Delete (t a : string) (joins : from) (w : cond) (limit : option nat)
| Update (t a : string) (joins : from) (sets : list (string * expr)) (w : cond)
| InsertIgnore (t : string) (key : list string) (f : from) (w : cond) (cols : list (string * expr))
| Rebuild (t : string) (cols : list string) (reads : list (string * list string)) (f : database -> list row -> list row).

Definition target (s : stmt) : string := match s with Delete t _ _ _ _ | Update t _ _ _ _ | InsertIgnore t _ _ _ _ | Rebuild t _ _ _ => t end.

(** ** Schema gaps *)
Fixpoint expr_tables (e : expr) : list string :=
  match e with
  | Col _ _ | Lit _ => []
  | Plus a b | Coalesce a b => expr_tables a ++ expr_tables b
  | Decimal a => expr_tables a
  | Pick f w x | MaxOf f w x => map fst f ++ cond_tables w ++ expr_tables x
  end
with cond_tables (w : cond) : list string :=
  match w with
  | Cmp _ a b => expr_tables a ++ expr_tables b
  | IsNull a | EndsWith a _ => expr_tables a
  | And p q | Or p q => cond_tables p ++ cond_tables q
  | Not p => cond_tables p
  | InQ a f w' x => expr_tables a ++ map fst f ++ cond_tables w' ++ expr_tables x
  | ExistsQ f w' => map fst f ++ cond_tables w'
  end.

(** The columns named, with the table of the alias in scope. *)
Definition table_of (scope : from) (a : string) : string := default "" (fst <$> List.find (fun p => bool_decide (p.2 = a)) scope).
Fixpoint expr_columns (scope : from) (e : expr) : list (string * string) :=
  match e with
  | Col a c => [(table_of scope a, c)]
  | Lit _ => []
  | Plus a b | Coalesce a b => expr_columns scope a ++ expr_columns scope b
  | Decimal a => expr_columns scope a
  | Pick f w x | MaxOf f w x => cond_columns (f ++ scope) w ++ expr_columns (f ++ scope) x
  end
with cond_columns (scope : from) (w : cond) : list (string * string) :=
  match w with
  | Cmp _ a b => expr_columns scope a ++ expr_columns scope b
  | IsNull a | EndsWith a _ => expr_columns scope a
  | And p q | Or p q => cond_columns scope p ++ cond_columns scope q
  | Not p => cond_columns scope p
  | InQ a f w' x => expr_columns scope a ++ cond_columns (f ++ scope) w' ++ expr_columns (f ++ scope) x
  | ExistsQ f w' => cond_columns (f ++ scope) w'
  end.

Definition stmt_tables (s : stmt) : list string :=
  match s with
  | Delete t _ joins w _ => t :: map fst joins ++ cond_tables w
  | Update t _ joins sets w => t :: map fst joins ++ cond_tables w ++ flat_map (fun p => expr_tables p.2) sets
  | InsertIgnore t _ f w cols => t :: map fst f ++ cond_tables w ++ flat_map (fun p => expr_tables p.2) cols
  | Rebuild t _ reads _ => t :: map fst reads
  end.
Definition stmt_columns (s : stmt) : list (string * string) :=
  match s with
  | Delete t a joins w _ => cond_columns ((t, a) :: joins) w
  | Update t a joins sets w =>
      cond_columns ((t, a) :: joins) w ++ map (fun p => (t, p.1)) sets ++ flat_map (fun p => expr_columns ((t, a) :: joins) p.2) sets
  | InsertIgnore t _ f w cols => map (fun p => (t, p.1)) cols ++ cond_columns f w ++ flat_map (fun p => expr_columns f p.2) cols
  | Rebuild t cols reads _ => map (pair t) cols ++ flat_map (fun p => map (pair p.1) p.2) reads
  end.

Definition has_column (db : database) (p : string * string) : bool :=
  match db !! p.1 with Some x => bool_decide (p.2 ∈ columns x) | None => false end.
Definition NO_TABLE : Z := 1146.
Definition NO_COLUMN : Z := 1054.
Definition gap (db : database) (tables : list string) (cols : list (string * string)) : option Z :=
  if negb (forallb (fun t => bool_decide (is_Some (db !! t))) tables) then Some NO_TABLE
  else if negb (forallb (has_column db) cols) then Some NO_COLUMN else None.

(** ** Effects *)

(** Drops the rows [p] holds of, at most [k] of them. *)
Fixpoint drop_where (k : option nat) (p : row -> bool) (l : list row) : list row :=
  match l with
  | [] => []
  | r :: l' =>
      match k with
      | Some O => l
      | _ => if p r then drop_where (Nat.pred <$> k) p l' else r :: drop_where k p l'
      end
  end.

Definition assign (db : database) (env : environment) (sets : list (string * expr)) (r : row) : row :=
  fold_left (fun acc p => <[p.1 := eval db env p.2]> acc) sets r.

(** [INSERT IGNORE]: a row that agrees with another on the unique key is left out; NULLs
    never collide. *)
Definition same_key (key : list string) (r r' : row) : bool :=
  forallb (fun c => bool_decide (cmp3 Eq (cell r c) (cell r' c) = Some true)) key.
Definition insert_ignore (key : list string) (l : list row) (r : row) : list row :=
  if existsb (same_key key r) l then l else l ++ [r].

Definition new_rows (db : database) (s : stmt) : list row :=
  let l := rows_of db (target s) in
  match s with
  | Delete _ a joins w k => drop_where k (fun r => negb (bool_decide (matches db a joins w r = []))) l
  | Update _ a joins sets w =>
      map (fun r => match matches db a joins w r with env :: _ => assign db env sets r | [] => r end) l
  | InsertIgnore _ key f w cols =>
      fold_left (insert_ignore key)
        (map (fun env => assign db env cols ∅) (List.filter (fun env => satisfied db env w) (products db f))) l
  | Rebuild _ _ _ f => f db l
  end.

Definition affected (db : database) (s : stmt) : Z :=
  Z.abs (Z.of_nat (length (rows_of db (target s))) - Z.of_nat (length (new_rows db s))).

(** A read: the columns of the rows that satisfy the condition. *)
Record select := Select { s_from : from; s_where : cond; s_cols : list (string * expr) }.
Definition answer (db : database) (q : select) : list row :=
  map (fun env => assign db env (s_cols q) ∅) (List.filter (fun env => satisfied db env (s_where q)) (products db (s_from q))).
Definition select_gap (db : database) (q : select) : option Z :=
  gap db (map fst (s_from q) ++ cond_tables (s_where q) ++ flat_map (fun p => expr_tables p.2) (s_cols q))
         (cond_columns (s_from q) (s_where q) ++ flat_map (fun p => expr_columns (s_from q) p.2) (s_cols q)).

(** ** The session *)
Record dberror := DbError { errno : option Z; code : option string }.
Definition isSchemaGapError (e : dberror) : bool := bool_decide (errno e = Some NO_TABLE \/ errno e = Some NO_COLUMN).

Inductive outcome (A : Type) := Done (a : A) | Fail (e : dberror).
#[global] Arguments Done {A} a.
#[global] Arguments Fail {A} e.

(** The number of queries sent so far picks the next entry of the schedule. *)
Record session := Session { data : database; sent : nat }.
Definition schedule : Type := nat -> option dberror.

Definition txn (A : Type) : Type := schedule -> session -> session * outcome A.
Definition tret {A} (a : A) : txn A := fun _ s => (s, Done a).
Definition tbind {A B} (m : txn A) (k : A -> txn B) : txn B :=
  fun f s => match m f s with
             | (s', Done a) => k a f s'
             | (s', Fail e) => (s', Fail e)
             end.
Definition throw {A} (e : dberror) : txn A := fun _ s => (s, Fail e).
Definition catch {A} (m : txn A) (h : dberror -> txn A) : txn A :=
  fun f s => match m f s with
             | (s', Fail e) => h e f s'
             | r => r
             end.

Definition query {A} (work : database -> outcome (database * A)) : txn A :=
  fun f s =>
    match f (sent s) with
    | Some e => (Session (data s) (S (sent s)), Fail e)
    | None => match work (data s) with
              | Done (db, a) => (Session db (S (sent s)), Done a)
              | Fail e => (Session (data s) (S (sent s)), Fail e)
              end
    end.

(** [db.doQuery] of a statement, giving [affectedRows], and of a read. *)
Definition exec (st : stmt) : txn Z :=
  query (fun db => match gap db (stmt_tables st) (stmt_columns st) with
                   | Some n => Fail (DbError (Some n) None)
                   | None => Done (set_rows db (target st) (new_rows db st), affected db st)
                   end).
Definition ask (q : select) : txn (list row) :=
  query (fun db => match select_gap db q with
                   | Some n => Fail (DbError (Some n) None)
                   | None => Done (db, answer db q)
                   end).

(** [try { m } catch(e){ if(!isSchemaGapError(e)) throw e; }] and the narrower
    [if(e.errno !== 1146) throw e]. *)
Definition catch_gap (m : txn unit) : txn unit := catch m (fun e => if isSchemaGapError e then tret tt else throw e).
Definition catch_missing (m : txn unit) : txn unit :=
  catch m (fun e => if bool_decide (errno e = Some NO_TABLE) then tret tt else throw e).

Fixpoint each {A} (l : list A) (k : A -> txn unit) : txn unit :=
  match l with [] => tret tt | x :: l' => tbind (k x) (fun _ => each l' k) end.
Definition run_stmt (st : stmt) : txn unit := tbind (exec st) (fun _ => tret tt).
End Semantics.

Notation "'do!' x ':=' m 'in' k" := (tbind m (fun x => k)) (at level 200, x name, m at level 100, k at level 200).
Notation "m ';!' k" := (tbind m (fun _ => k)) (at level 199, right associativity).

(** ** Frames *)

Lemma rows_of_set_rows db t l : is_Some (db !! t) -> rows_of (set_rows db t l) t = l.
Proof. intros [x Hx]. unfold rows_of, set_rows. by rewrite lookup_alter_eq, Hx. Qed.
Lemma rows_of_set_rows_ne db t t' l : t <> t' -> rows_of (set_rows db t l) t' = rows_of db t'.
Proof. intros Ht. unfold rows_of, set_rows. by rewrite lookup_alter_ne by done. Qed.
Lemma set_rows_set_rows db t l l' : set_rows (set_rows db t l) t l' = set_rows db t l'.
Proof. unfold set_rows. apply map_eq. intros k. destruct (decide (k = t)) as [->|Hk]; [rewrite !lookup_alter_eq|by rewrite !lookup_alter_ne by done]. by destruct (db !! t). Qed.
Lemma columns_set_rows db t l t' : columns <$> (set_rows db t l !! t') = columns <$> (db !! t').
Proof. unfold set_rows. destruct (decide (t' = t)) as [->|Hk]; [rewrite lookup_alter_eq|by rewrite lookup_alter_ne by done]. by destruct (db !! t). Qed.

Lemma gap_columns db db' ts cs : (forall t, columns <$> (db !! t) = columns <$> (db' !! t)) -> gap db ts cs = gap db' ts cs.
Proof.
  intros Hc. unfold gap.
  assert (forall t, bool_decide (is_Some (db !! t)) = bool_decide (is_Some (db' !! t))) as Ht.
  { intros t. apply bool_decide_ext. specialize (Hc t). destruct (db !! t), (db' !! t); cbn in Hc; split; intros [? ?]; try done; eauto. }
  assert (forallb (fun t => bool_decide (is_Some (db !! t))) ts = forallb (fun t => bool_decide (is_Some (db' !! t))) ts) as ->.
  { clear -Ht. induction ts as [|t ts IH]; cbn; [done|]. by rewrite IH, Ht. }
  assert (forallb (has_column db) cs = forallb (has_column db') cs) as ->; [|done].
  clear -Hc. induction cs as [|[t c] cs IH]; cbn; [done|]. rewrite IH. f_equal. unfold has_column. cbn. specialize (Hc t).
  destruct (db !! t) as [x|], (db' !! t) as [y|]; cbn in Hc; try done. injection Hc as Hc. by rewrite Hc.
Qed.
Lemma gap_set_rows db t l ts cs : gap (set_rows db t l) ts cs = gap db ts cs.
Proof. apply gap_columns. apply columns_set_rows. Qed.

Lemma gap_tables db ts cs t : gap db ts cs = None -> t ∈ ts -> is_Some (db !! t).
Proof.
  unfold gap. intros Hg Ht. destruct (forallb _ ts) eqn:E; cbn in Hg; [|done].
  rewrite forallb_forall in E. specialize (E t). apply bool_decide_eq_true in E; [done|]. by apply list_elem_of_In.
Qed.

(** ** Deleting rows *)
Definition count_where (p : row -> bool) (l : list row) : nat := length (List.filter p l).

Lemma drop_where_None p l : drop_where None p l = List.filter (fun r => negb (p r)) l.
Proof. induction l as [|r l IH]; cbn; [done|]. destruct (p r); cbn; by rewrite IH. Qed.

Lemma drop_where_Some k p l :
  drop_where None p (drop_where (Some k) p l) = drop_where None p l
  /\ (length (drop_where (Some k) p l) + Nat.min k (count_where p l) = length l)%nat
  /\ (count_where p (drop_where (Some k) p l) + Nat.min k (count_where p l) = count_where p l)%nat.
Proof.
  revert k. induction l as [|r l IH]; intros k; [destruct k; cbn; repeat split; lia|].
  destruct k as [|k]; [cbn [drop_where]; split; [done|]; split; lia|].
  specialize (IH (if p r then k else S k)). unfold count_where in *. cbn [drop_where List.filter].
  destruct (p r) eqn:E; cbn [fmap option_fmap option_map Nat.pred].
  - destruct IH as (IH1 & IH2 & IH3). rewrite IH1. cbn [length]. repeat split; try done; lia.
  - destruct IH as (IH1 & IH2 & IH3). cbn [drop_where List.filter]. rewrite E. rewrite IH1. cbn [length]. repeat split; try done; lia.
Qed.

Lemma drop_where_enough k p l : (count_where p l < k)%nat -> drop_where (Some k) p l = drop_where None p l.
Proof.
  revert k. unfold count_where. induction l as [|r l IH]; intros k Hk; [done|]. cbn [List.filter] in Hk.
  destruct k as [|k]; [lia|]. cbn [drop_where]. destruct (p r); cbn [length] in Hk.
  - cbn. apply IH. lia.
  - f_equal. apply IH. lia.
Qed.

(** A statement on one table is a test of each of its rows. *)
Lemma matches_alone `{Dialect} db a w r : matches db a [] w r = if satisfied db [(a, r)] w then [[(a, r)]] else [].
Proof. done. Qed.
Lemma drop_where_ext k p q l : (forall r, p r = q r) -> drop_where k p l = drop_where k q l.
Proof. intros Hpq. revert k. induction l as [|r l IH]; intros k; cbn; [done|]. rewrite Hpq, !IH. done. Qed.
Lemma alone_match `{Dialect} db a w r : negb (bool_decide (matches db a [] w r = [])) = satisfied db [(a, r)] w.
Proof. rewrite matches_alone. by destruct (satisfied _ _ _). Qed.
Lemma gap_errno db ts cs z : gap db ts cs = Some z -> z = NO_TABLE \/ z = NO_COLUMN.
Proof. unfold gap. repeat case_match; intros [=]; auto. Qed.

(** ** Invariants of a session

    [preserves I m]: however [m] ends, a database with [I] still has it. *)
Definition preserves {A} (I : database -> Prop) (m : txn A) : Prop := forall f s, I (data s) -> I (data (m f s).1).

Create HintDb preserves discriminated.
#[export] Hint Constants Opaque : preserves.

Section Preserves.
Context {I : database -> Prop}.
Lemma preserves_ret {A} (a : A) : preserves I (tret a).
Proof. by intros f s. Qed.
Lemma preserves_throw {A} e : preserves I (throw (A := A) e).
Proof. by intros f s. Qed.
Lemma preserves_query {A} (w : database -> outcome (database * A)) :
  (forall db, I db -> match w db with Done (db', _) => I db' | Fail _ => True end) -> preserves I (query w).
Proof.
  intros Hw f s Hs. unfold query. destruct (f (sent s)); [done|]. specialize (Hw _ Hs). by destruct (w (data s)) as [[? ?]|?].
Qed.
Lemma preserves_bind {A B} (m : txn A) (k : A -> txn B) : preserves I m -> (forall a, preserves I (k a)) -> preserves I (tbind m k).
Proof.
  intros Hm Hk f s Hs. unfold tbind. specialize (Hm f s Hs). destruct (m f s) as [s' [a|e]]; cbn in *; [|done]. by apply Hk.
Qed.
Lemma preserves_catch {A} (m : txn A) (h : dberror -> txn A) : preserves I m -> (forall e, preserves I (h e)) -> preserves I (catch m h).
Proof.
  intros Hm Hh f s Hs. unfold catch. specialize (Hm f s Hs). destruct (m f s) as [s' [a|e]]; cbn in *; [done|]. by apply Hh.
Qed.
Lemma preserves_each {A} (l : list A) (k : A -> txn unit) : (forall x, x ∈ l -> preserves I (k x)) -> preserves I (each l k).
Proof.
  induction l as [|x l IH]; intros Hk; cbn; [apply preserves_ret|]. apply preserves_bind; [|intros _].
  - apply Hk. by left.
  - apply IH. intros y Hy. apply Hk. by right.
Qed.
Context `{Dialect}.
Lemma preserves_ask q : preserves I (ask q).
Proof. apply preserves_query. intros db Hdb. by destruct (select_gap db q). Qed.
Lemma preserves_exec st :
  (forall db, gap db (stmt_tables st) (stmt_columns st) = None -> I db -> I (set_rows db (target st) (new_rows db st))) -> preserves I (exec st).
Proof. intros Hst. apply preserves_query. intros db Hdb. destruct (gap db _ _) eqn:E; [done|]. by apply Hst. Qed.
Lemma preserves_run_stmt st :
  (forall db, gap db (stmt_tables st) (stmt_columns st) = None -> I db -> I (set_rows db (target st) (new_rows db st))) -> preserves I (run_stmt st).
Proof. intros Hst. apply preserves_bind; [by apply preserves_exec|]. intros. apply preserves_ret. Qed.
Lemma preserves_catch_gap m : preserves I m -> preserves I (catch_gap m).
Proof. intros Hm. apply preserves_catch; [done|]. intros e. destruct (isSchemaGapError e); [apply preserves_ret|apply preserves_throw]. Qed.
Lemma preserves_catch_missing m : preserves I m -> preserves I (catch_missing m).
Proof. intros Hm. apply preserves_catch; [done|]. intros e. case_bool_decide; [apply preserves_ret|apply preserves_throw]. Qed.
Lemma preserves_rescue {A} (m : txn A) (a : A) : preserves I m -> preserves I (catch m (fun e => if isSchemaGapError e then tret a else throw e)).
Proof. intros Hm. apply preserves_catch; [done|]. intros e. destruct (isSchemaGapError e); [apply preserves_ret|apply preserves_throw]. Qed.
End Preserves.
#[export] Hint Resolve preserves_ret preserves_throw preserves_ask : preserves.

(** Statements are left to the caller. *)
Ltac preserves_step :=
  match goal with
  | |- preserves _ (tbind _ _) => apply preserves_bind; [|intros ?]
  | |- preserves _ (catch_gap _) => apply preserves_catch_gap
  | |- preserves _ (catch_missing _) => apply preserves_catch_missing
  | |- preserves _ (catch _ _) => apply preserves_rescue
  | |- preserves _ (each _ _) => apply preserves_each; intros ? ?
  | |- preserves _ (match _ with _ => _ end) => case_match
  | |- preserves _ (let _ := _ in _) => cbv zeta
  | |- preserves _ _ => solve [eauto 2 with preserves]
  end.
Ltac preserves := intros; repeat preserves_step.

Lemma run_stmt_done `{Dialect} st f s s' : run_stmt st f s = (s', Done tt) ->
  gap (data s) (stmt_tables st) (stmt_columns st) = None /\ data s' = set_rows (data s) (target st) (new_rows (data s) st).
Proof.
  unfold run_stmt, tbind, exec, query. destruct (f (sent s)); [done|]. destruct (gap (data s) _ _); [done|]. by intros [= <-].
Qed.
