(* ===== verification/TableLifecycle.v ===== *)
(** * TableLifecycle: the table registry

    Models [src/src/table_lifecycle.js] and its two parts under [table_lifecycle/]: one
    entry per table with the way its rows reach a follower, the way a reorg unwinds it on
    the source and on a replica, and the hashes that cover it, and the lists derived from
    the entries (the rollback lists, the stream topology, the coverage buckets, the
    content-parity sets).  The notes of the entries are documentation and are not
    carried. *)

From S2P Require Import Prelude.

Record lifecycle := Lifecycle {
  l_table : string; owner : string; replication : string; blockKey_decl : option string;
  rollback_kind : option string; replicaRollback : string; replicaRepair : option string;
  alsoRecomputed : bool; classes : list string; anchorRecovery : option string }.

Definition E t o r b rr c : lifecycle := Lifecycle t o r None b rr None false c None.
Definition keyed k e := let '(Lifecycle t o r _ b rr rp a c ar) := e in Lifecycle t o r (Some k) b rr rp a c ar.
Definition repaired k e := let '(Lifecycle t o r bk b rr _ a c ar) := e in Lifecycle t o r bk b rr (Some k) a c ar.
Definition recomputed e := let '(Lifecycle t o r bk b rr rp _ c ar) := e in Lifecycle t o r bk b rr rp true c ar.
Definition recovery k e := let '(Lifecycle t o r bk b rr rp a c _) := e in Lifecycle t o r bk b rr rp a c (Some k).

Definition ACTION_TABLES : list lifecycle :=
  [ E "actions" "indexer" "stream:action" (Some "action") "mirror" ["actions"];
    E "addresses" "indexer" "stream:action" (Some "action") "mirror" [];
    E "airdrops" "indexer" "stream:action" (Some "action") "mirror" [];
    E "batches" "indexer" "stream:action" (Some "action") "mirror" [];
    E "broadcasts" "indexer" "stream:action" (Some "action") "mirror" [];
    E "callbacks" "indexer" "stream:action" (Some "action") "mirror" [];
    E "credits" "indexer" "stream:action" (Some "action") "mirror" ["ledger"; "state_hash"];
    E "debits" "indexer" "stream:action" (Some "action") "mirror" ["ledger"];
    E "coinpay_expires" "indexer" "stream:action" (Some "action") "mirror" [];
    E "coinpay_obligations" "indexer" "stream:action" (Some "action") "mirror" [];
    E "coinpay_statuses" "indexer" "stream:action" (Some "action") "mirror" [];
    E "coinpays" "indexer" "stream:action" (Some "action") "mirror" [];
    E "destroys" "indexer" "stream:action" (Some "action") "mirror" [];
    E "dispensers" "indexer" "stream:action" (Some "action") "mirror" [];
    E "dispenser_cancels" "indexer" "stream:action" (Some "action") "mirror" [];
    E "dispenser_closes" "indexer" "stream:action" (Some "action") "mirror" [];
    E "dispenser_edits" "indexer" "stream:action" (Some "action") "mirror" [];
    E "dispenser_expires" "indexer" "stream:action" (Some "action") "mirror" [];
    E "dispenser_statuses" "indexer" "stream:action" (Some "action") "mirror" [];
    E "dispenses" "indexer" "stream:action" (Some "action") "mirror" [];
    E "dividends" "indexer" "stream:action" (Some "action") "mirror" [];
    E "escrows" "indexer" "stream:action" (Some "action") "mirror" ["ledger"];
    E "fees" "indexer" "stream:action" (Some "action") "mirror" [];
    E "files" "indexer" "stream:action" (Some "action") "mirror" [];
    E "gated_files" "indexer" "stream:action" (Some "action") "mirror" [];
    E "issues" "indexer" "stream:action" (Some "action") "mirror" [];
    E "links" "indexer" "stream:action" (Some "action") "mirror" [];
    E "lists" "indexer" "stream:action" (Some "action") "mirror" [];
    E "list_edits" "indexer" "stream:action" (Some "action") "mirror" [];
    E "list_items" "indexer" "stream:action" (Some "action") "mirror" [];
    E "list_items_invalid" "indexer" "stream:action" (Some "action") "mirror" [];
    E "list_transfers" "indexer" "stream:action" (Some "action") "mirror" [];
    E "list_metas" "indexer" "stream:action" (Some "action") "mirror" [];
    repaired "replace" (E "mappings_actions" "indexer" "stream:action" (Some "action") "mirror" []);
    E "mappings_files" "indexer" "stream:action" (Some "action") "mirror" [];
    E "messages" "indexer" "stream:action" (Some "action") "mirror" [];
    E "mints" "indexer" "stream:action" (Some "action") "mirror" [];
    E "orders" "indexer" "stream:action" (Some "action") "mirror" [];
    E "order_cancels" "indexer" "stream:action" (Some "action") "mirror" [];
    E "order_edits" "indexer" "stream:action" (Some "action") "mirror" [];
    E "order_expires" "indexer" "stream:action" (Some "action") "mirror" [];
    E "order_matches" "indexer" "stream:action" (Some "action") "mirror" [];
    E "order_statuses" "indexer" "stream:action" (Some "action") "mirror" [];
    E "sends" "indexer" "stream:action" (Some "action") "mirror" [];
    E "xbridges" "indexer" "stream:action" (Some "action") "mirror" [];
    E "sleeps" "indexer" "stream:action" (Some "action") "mirror" [];
    E "swaps" "indexer" "stream:action" (Some "action") "mirror" [];
    E "swap_cancels" "indexer" "stream:action" (Some "action") "mirror" [];
    E "swap_edits" "indexer" "stream:action" (Some "action") "mirror" [];
    E "swap_expires" "indexer" "stream:action" (Some "action") "mirror" [];
    E "swap_matches" "indexer" "stream:action" (Some "action") "mirror" [];
    E "swap_statuses" "indexer" "stream:action" (Some "action") "mirror" [];
    E "cross_chain_settlements" "indexer" "stream:action" (Some "action") "mirror" [];
    E "bridge_settlements" "indexer" "stream:action" (Some "action") "mirror" [];
    E "list_share_mirrors" "indexer" "stream:action" (Some "action") "mirror" [];
    E "cross_chain_call_executions" "indexer" "stream:action" (Some "action") "mirror" [];
    E "cross_chain_call_callbacks" "indexer" "stream:action" (Some "action") "mirror" [];
    E "xcalls" "indexer" "stream:action" (Some "action") "mirror" ["state_hash"];
    E "sweeps" "indexer" "stream:action" (Some "action") "mirror" [];
    recomputed (E "tokens" "indexer" "stream:action" (Some "action") "mirror" ["state_hash"]);
    E "stakes" "indexer" "stream:action" (Some "action") "mirror" ["state_hash"; "state_commitment"];
    E "unstakes" "indexer" "stream:action" (Some "action") "mirror" ["state_hash"];
    E "delegations" "indexer" "stream:action" (Some "action") "mirror" ["state_hash"];
    E "stake_key_revocations" "indexer" "stream:action" (Some "action") "mirror" [];
    E "reward_claims" "indexer" "stream:action" (Some "action") "mirror" [];
    E "full_node_verifications" "indexer" "stream:action" (Some "action") "mirror" [];
    E "rollcall_signers" "indexer" "stream:action" (Some "action") "mirror" [];
    E "rollcall_actions" "indexer" "stream:action" (Some "action") "mirror" [];
    E "contracts" "indexer" "stream:action" (Some "action") "mirror" ["contracts"];
    E "contract_permissions" "indexer" "stream:action" (Some "action") "mirror" [];
    E "deploy_chunks" "indexer" "stream:action" (Some "action") "mirror" [];
    E "contract_stakes" "indexer" "stream:action" (Some "action") "mirror" ["state_hash"];
    E "contract_unstakes" "indexer" "stream:action" (Some "action") "mirror" ["state_hash"];
    E "contract_delegations" "indexer" "stream:action" (Some "action") "mirror" ["state_hash"];
    E "contract_executions" "indexer" "stream:action" (Some "action") "mirror" ["contracts"];
    E "deposits" "indexer" "stream:action" (Some "action") "mirror" ["contracts"];
    E "withdrawals" "indexer" "stream:action" (Some "action") "mirror" ["contracts"];
    E "anchor_actions" "indexer" "stream:action" (Some "action") "mirror" ["state_hash"];
    E "attests" "indexer" "stream:action" (Some "action") "mirror" ["state_hash"];
    E "prices" "indexer" "stream:action" (Some "action") "mirror" [];
    E "pending_hub_pushes" "indexer" "local" (Some "action") "local" [];
    E "token_controllers" "indexer" "stream:action" (Some "action") "mirror" [];
    E "address_controllers" "indexer" "stream:action" (Some "action") "mirror" [];
    E "polls" "indexer" "stream:action" (Some "action") "mirror" ["state_hash"];
    E "bet_feeds" "indexer" "stream:action" (Some "action") "mirror" ["state_hash"];
    E "bets" "indexer" "stream:action" (Some "action") "mirror" ["state_hash"];
    E "bet_feed_statuses" "indexer" "stream:action" (Some "action") "mirror" [];
    E "bet_statuses" "indexer" "stream:action" (Some "action") "mirror" [];
    E "bet_cancels" "indexer" "stream:action" (Some "action") "mirror" [];
    E "bet_resolves" "indexer" "stream:action" (Some "action") "mirror" [];
    E "bet_edits" "indexer" "stream:action" (Some "action") "mirror" [];
    E "votes" "indexer" "stream:action" (Some "action") "mirror" [];
    E "poll_results" "indexer" "stream:action" (Some "action") "mirror" [];
    E "vote_delegations" "indexer" "stream:action" (Some "action") "mirror" [] ].

Definition BLOCK_AND_SPECIAL_TABLES : list lifecycle :=
  [ E "blocks" "indexer" "stream:block" (Some "block") "mirror" [];
    E "transactions" "indexer" "stream:block" (Some "block") "mirror" [];
    E "validator_rewards" "indexer" "stream:block" (Some "block") "mirror" [];
    keyed "close_block" (E "rollcalls" "indexer" "stream:block" (Some "special") "special" []);
    keyed "close_block" (E "rollcall_gates" "indexer" "stream:block" (Some "special") "special" []);
    keyed "close_block" (E "rollcall_absences" "indexer" "stream:block" (Some "special") "special" []);
    E "contract_state" "indexer" "stream:block" (Some "block") "mirror" ["contracts"];
    E "escrow_leaf_journal" "indexer" "stream:block" (Some "block") "mirror" ["state_commitment"];
    E "slash_events" "indexer" "stream:block" (Some "block") "mirror" [];
    E "contract_slash_debits" "indexer" "stream:block" (Some "block") "mirror" [];
    E "contract_delegation_rotations" "indexer" "stream:block" (Some "block") "mirror" [];
    E "capability_slash_events" "indexer" "stream:block" (Some "block") "mirror" [];
    E "capability_slash_debits" "indexer" "stream:block" (Some "block") "mirror" [];
    E "anchor_reward_reconcile_log" "indexer" "stream:block" (Some "block") "mirror" [];
    E "state_tree_roots" "indexer" "follower-derived" (Some "block") "mirror" ["state_commitment"];
    E "index_addresses" "indexer" "stream:index" (Some "index") "mirror" ["index_map"];
    E "index_tickers" "indexer" "stream:index" (Some "index") "mirror" ["index_map"];
    E "balances" "indexer" "snapshot" (Some "recomputed") "recomputed" ["state_commitment"];
    E "markets" "indexer" "snapshot" (Some "recomputed") "special" [];
    E "attest_validator_stats" "indexer" "snapshot" (Some "recomputed") "special" [];
    E "contract_emissions" "indexer" "stream:action" (Some "special") "special" ["contracts"];
    E "icons" "indexer" "local" (Some "special") "special" [];
    E "pubkeys" "indexer" "snapshot" (Some "special") "special" [];
    recovery "archive" (E "price_snapshots" "indexer" "hub-mirror" (Some "special") "special" ["quorum"]);
    E "events" "indexer" "snapshot" (Some "exempt") "exempt" [];
    E "recovery_pending_rewards" "indexer" "local" (Some "exempt") "local" [];
    E "cross_chain_call_rejections" "indexer" "local" (Some "exempt") "local" [];
    E "push_generations" "indexer" "local" (Some "exempt") "local" [];
    recovery "archive" (E "cross_chain_matches" "indexer" "hub-mirror" (Some "exempt") "special" ["quorum"]);
    recovery "archive" (E "cross_chain_calls" "indexer" "hub-mirror" (Some "exempt") "special" ["quorum"]);
    recovery "archive" (E "bridge_transfers" "indexer" "hub-mirror" (Some "exempt") "special" ["quorum"]);
    recovery "none" (E "oracle_prices" "indexer" "hub-mirror" (Some "exempt") "special" []);
    recovery "archive" (E "capability_snapshots" "indexer" "hub-mirror" (Some "exempt") "exempt" ["quorum"]);
    recovery "archive" (E "state_checkpoints" "indexer" "hub-mirror" (Some "exempt") "exempt" ["quorum"]);
    recovery "archive" (E "policy_snapshots" "indexer" "hub-mirror" (Some "exempt") "exempt" ["quorum"]);
    recovery "archive" (E "list_snapshots" "indexer" "hub-mirror" (Some "exempt") "exempt" ["quorum"]);
    recovery "none" (E "remote_token_snapshots" "indexer" "hub-mirror" (Some "exempt") "exempt" ["quorum"]);
    recovery "none" (E "anchor_reward_attestations" "indexer" "hub-mirror" (Some "exempt") "exempt" []);
    recovery "none" (E "anchor_reward_attestation_copies" "indexer" "local" (Some "exempt") "exempt" []);
    recovery "none" (E "attestation_responses" "indexer" "hub-mirror" (Some "exempt") "exempt" []);
    E "state_tree_nodes" "indexer" "snapshot" (Some "exempt") "exempt" ["state_commitment"];
    E "index_actions" "indexer" "stream:index" (Some "lookup") "lookup" [];
    E "index_coins" "indexer" "stream:index" (Some "lookup") "lookup" [];
    E "index_fiats" "indexer" "stream:index" (Some "lookup") "lookup" [];
    E "index_memos" "indexer" "stream:index" (Some "lookup") "lookup" [];
    E "index_mime_types" "indexer" "stream:index" (Some "lookup") "lookup" [];
    E "index_pubkeys" "indexer" "stream:index" (Some "lookup") "lookup" [];
    E "index_statuses" "indexer" "stream:index" (Some "lookup") "lookup" [];
    E "index_transactions" "indexer" "stream:index" (Some "lookup") "lookup" [];
    E "sync_meta" "sync" "stream:special" None "special" [];
    E "merkle_epochs" "sync" "snapshot" None "special" [] ].

Definition TABLES : list lifecycle := ACTION_TABLES ++ BLOCK_AND_SPECIAL_TABLES.

(** ** Derived lists *)
Definition tablesWhere (p : lifecycle -> bool) : list string := map l_table (List.filter p TABLES).
Definition entry (t : string) : option lifecycle := List.find (fun e => bool_decide (l_table e = t)) TABLES.

Definition kind_is (k : string) (e : lifecycle) : bool := bool_decide (rollback_kind e = Some k).
Definition replica_is (k : string) (e : lifecycle) : bool := bool_decide (replicaRollback e = k).

Record rollback_lists := RollbackLists { dataTables : list string; blockTables : list string; indexTables : list string }.
(** The lists of the source indexer. *)
Definition rollbackTables : rollback_lists :=
  RollbackLists (tablesWhere (kind_is "action")) (tablesWhere (kind_is "block")) (tablesWhere (kind_is "index")).
(** The lists of a replica: the source's without the tables that exist on the indexer only. *)
Definition replicaRollbackTables : rollback_lists :=
  RollbackLists (tablesWhere (fun e => kind_is "action" e && replica_is "mirror" e))
                (tablesWhere (fun e => kind_is "block" e && replica_is "mirror" e))
                (tablesWhere (fun e => kind_is "index" e && replica_is "mirror" e)).

Record topology := Topology { blockScoped : list string; txScoped : list string; actionScoped : list string; index : list string; special : list string }.
Definition streamTopology : topology :=
  let scoped s := tablesWhere (fun e => bool_decide (replication e = ("stream:" +:+ s)%string)) in
  Topology (scoped "block") [] (scoped "action") (scoped "index") (scoped "special").

(** The column a block-scoped table is scoped by. *)
Definition blockKey (t : string) : string :=
  match entry t with
  | Some e => match blockKey_decl e with Some k => k | None => "block_index" end
  | None => "block_index"
  end.

(** ** The replicated tables *)

(** The decoder's topology is declared by hand in [schema/replicated_tables.js]. *)
Definition decoderTopology : topology :=
  Topology ["blocks"; "transactions"] ["transaction_outputs"] [] ["index_addresses"; "index_transactions"; "pubkeys"; "events"] ["dispensers"].
Definition getTopology (decoder : bool) : topology := if decoder then decoderTopology else streamTopology.
Definition unique (l : list string) : list string :=
  fold_left (fun acc x => if bool_decide (x ∈ acc) then acc else acc ++ [x]) l [].
Definition getReplicatedTables (decoder : bool) : list string :=
  let t := getTopology decoder in unique (blockScoped t ++ txScoped t ++ actionScoped t ++ index t ++ special t).

(** ** Coverage buckets *)
Record orphan_sweep := OrphanSweep { sw_table : string; sw_index : string; sw_replica : bool }.
Definition ORPHAN_SWEEPS : list orphan_sweep :=
  [OrphanSweep "icons" "tokens" true; OrphanSweep "balances" "index_addresses" false; OrphanSweep "balances" "index_tickers" false;
   OrphanSweep "markets" "index_tickers" true; OrphanSweep "pubkeys" "index_addresses" true].
Record buckets := Buckets { RECOMPUTED : list string; SPECIAL_CASE : list string; ROLLBACK_EXEMPT : list string; INDEXER_LOCAL : list string }.
Definition rollbackBuckets : buckets :=
  Buckets (tablesWhere (fun e => kind_is "recomputed" e || alsoRecomputed e))
          (unique (tablesWhere (kind_is "special") ++ unique (map sw_table ORPHAN_SWEEPS)))
          (tablesWhere (kind_is "exempt")) [].
Definition replicaRollbackBuckets : buckets :=
  Buckets (tablesWhere (replica_is "recomputed")) (tablesWhere (replica_is "special")) (tablesWhere (replica_is "exempt")) (tablesWhere (replica_is "local")).
Definition hashClassTables (cls : string) : list string := tablesWhere (fun e => bool_decide (cls ∈ classes e)).
Definition anchorRecoveryTables : list string := tablesWhere (fun e => bool_decide (anchorRecovery e = Some "archive")).
Definition contentParityMutableTables : list string := hashClassTables "state_hash".

(** Columns a later block edits in place. *)
Definition CONTENT_PARITY_IN_PLACE_COLUMNS : list (string * list string) :=
  [("anchor_actions", ["status_id"; "pre_archive_status_id"]);
   ("attests", ["request_status"; "resolved_block"; "callback_execute_action_index"; "status_id"]);
   ("bet_feeds", ["feed_status_id"; "closed_block"; "terminal_block"]);
   ("bets", ["bet_status_id"; "settled_block"]);
   ("contract_delegations", ["deactivation_block"]);
   ("contract_stakes", ["amount"; "deactivation_block"; "signing_pubkey_id"]);
   ("contract_unstakes", ["amount"; "status_id"; "signing_pubkey_id"]);
   ("credits", []);
   ("delegations", ["deactivation_block"]);
   ("order_matches", ["status_id"]);
   ("polls", ["poll_status"; "winning_option"; "total_weight"; "total_voters"; "quorum_met"; "min_voters_met"; "fail_reason"; "decided_early";
              "effective_close_block"; "finalized_action_index"; "resolved_block"; "deposit_resolved"; "callback_execute_action_index"; "callback_due_block"]);
   ("stakes", ["amount"; "deactivation_block"]);
   ("tokens", ["max_supply"; "max_mint"; "decimals"; "description"; "lock_max_supply"; "lock_mint"; "lock_mint_supply"; "lock_max_mint";
               "lock_description"; "lock_sleep"; "lock_callback"; "callback_block"; "callback_tick_id"; "callback_amount"; "allow_list"; "block_list";
               "mint_address_max"; "mint_start_block"; "mint_stop_block"; "bridge_chains"; "min_depth"; "lock_bridge"; "supply"; "owner_id";
               "last_action_index"; "escrow_action_index"; "bridged"]);
   ("unstakes", ["amount"; "status_id"]);
   ("xcalls", ["request_status"; "result_status"; "result_payload"; "resolved_block"; "callback_action_index"])].

(** Every table has one entry, the replica's lists are the source's without the local
    tables, and every table of the [state_hash] class lists its edited columns. *)
Lemma registry_coherent :
  NoDup (map l_table TABLES)
  /\ (forall t, t ∈ dataTables rollbackTables -> t ∈ dataTables replicaRollbackTables \/ t ∈ INDEXER_LOCAL replicaRollbackBuckets)
  /\ map fst CONTENT_PARITY_IN_PLACE_COLUMNS ≡ₚ contentParityMutableTables ++ ["order_matches"].
Proof.
  split_and!.
  - apply (bool_decide_eq_true_1 (NoDup _)). vm_compute. reflexivity.
  - apply Forall_forall. apply (bool_decide_eq_true_1 (Forall _ _)). vm_compute. reflexivity.
  - apply (bool_decide_eq_true_1 (_ ≡ₚ _)). vm_compute. reflexivity.
Qed.
