(* ===== verification/TokenRefold.v ===== *)
(** * TokenRefold: a token's row from its issues

    Models [src/src/db/token_refold.js]: the fold of a tick's valid issues into the
    columns of its [tokens] row ([rowValues], [foldRow], [normalize], [tokenColumns],
    [foldIssueRows]), the reads that collect the ticks a rollback touches and the rewrite
    of their rows ([collectRefoldTickIds], [refoldTokenRows]).

    The fold state is the map from wire field names to JavaScript values; a missing key
    is [undefined].  [mathjs] is a package: its decimal formatting and the comparison with
    the unsigned 64-bit boundary are the class [Mathjs]. *)

From S2P Require Import Prelude JsText JsNumber JsDouble Sql.
From stdpp Require Import sorting.
#[local] Open Scope Z_scope.

(** ** Values *)
Definition to_js (v : value) : jsval :=
  match v with Null => JNull | Int z => JInt z | Text s => JStr s | Dec u => JInt u end.
Definition of_js (v : jsval) : value :=
  match v with
  | JUndef | JNull => Null
  | JBool b => Int (if b then 1 else 0)
  | JInt z => Int z
  | JStr s => Text s
  end.

Definition isNull (v : jsval) : bool := bool_decide (v = JNull \/ v = JUndef \/ v = JStr "").
(** [parseFloat] of a text whose [Number] is finite is NaN only for blank text. *)
Definition isNumeric (v : jsval) : bool :=
  match v with
  | JInt _ => true
  | JStr s => isFinite (js_number v) && negb (bool_decide (trim (utf8 s) = []))
  | _ => false
  end.
(** [parseInt(v)], with NaN as the text that behaves as it does in every later step. *)
Definition parseIntValue (v : jsval) : jsval :=
  match parse_int (js_String v) with Some z => JInt z | None => JStr "NaN" end.
(** [v == 1], [a > b] and [v > 0]. *)
Definition is_one (v : jsval) : bool :=
  match v with
  | JUndef | JNull => false
  | _ => num_le (js_number v) (Fin 1 0) && num_le (Fin 1 0) (js_number v)
  end.
Definition js_gt (a b : jsval) : bool :=
  match a with
  | JUndef => false
  | _ => num_le (js_number b) (js_number a) && negb (num_le (js_number a) (js_number b))
  end.

(** ** Fields *)
Definition NUMBER_FIELDS : list string :=
  ["ALLOW_LIST"; "BLOCK_LIST"; "CALLBACK_AMOUNT"; "CALLBACK_BLOCK"; "DECIMALS"; "MAX_SUPPLY"; "MAX_MINT";
   "MINT_ADDRESS_MAX"; "MINT_START_BLOCK"; "MINT_STOP_BLOCK"].
Definition LIST_FIELDS : list string := ["ALLOW_LIST"; "BLOCK_LIST"].
Definition INTEGER_FIELDS : list string := ["ALLOW_LIST"; "BLOCK_LIST"; "CALLBACK_BLOCK"; "MINT_START_BLOCK"; "MINT_STOP_BLOCK"].
Definition U64_MAX : Z := 2 ^ 64 - 1.
Definition LOCK_FIELDS : list string :=
  ["LOCK_MAX_SUPPLY"; "LOCK_MINT"; "LOCK_MINT_SUPPLY"; "LOCK_MAX_MINT"; "LOCK_DESCRIPTION"; "LOCK_SLEEP"; "LOCK_CALLBACK"].
Definition MIN_TOKEN_DECIMALS : Z := 0.
Definition MAX_TOKEN_DECIMALS : Z := 18.
Definition FOLD_COLUMNS : list string :=
  ["max_supply"; "max_mint"; "decimals"; "description"; "lock_max_supply"; "lock_mint"; "lock_mint_supply"; "lock_max_mint";
   "lock_description"; "lock_sleep"; "lock_callback"; "callback_block"; "callback_tick_id"; "callback_amount"; "allow_list";
   "block_list"; "mint_address_max"; "mint_start_block"; "mint_stop_block"; "bridge_chains"; "min_depth"; "lock_bridge";
   "owner_id"; "last_action_index"].
Definition CHUNK : nat := 500.
Definition LEDGER_TICK_TABLES : list string := ["credits"; "debits"; "escrows"].
Definition CONTRACT_TICK_TABLES : list string := ["contract_stakes"; "contract_unstakes"; "contract_delegations"].
Definition TRANSACTION_TICK_TABLES : list string := ["airdrops"; "destroys"; "mints"; "sends"; "fees"; "issues"; "swaps"].

Class Mathjs := {
  formatFixed : string -> Z -> string;        (* format(bignumber(s), { notation: 'fixed', precision }) *)
  gteBoundary : string -> option bool }.      (* bignumber(s).gte(U64_MAX + 0.5), None when it throws *)

Section Fold.
Context `{Mathjs}.

Definition signed_digits (l : bytes) : option Z :=
  let '(sg, ds) := strip_sign l in if all_digits ds then Some (sg * dec_val ds) else None.
Definition exceedsU64 (v : jsval) : bool :=
  let raw := trim (utf8 (js_String v)) in
  match signed_digits raw with
  | Some n => (n <? 0) || (U64_MAX <? n)
  | None =>
      let approx := js_number (JStr (of_utf8 raw)) in
      if negb (isFinite approx) then false
      else match gteBoundary (of_utf8 raw) with
           | None => false
           | Some gte => negb (num_le (Fin 0 0) approx) || negb (num_le approx (Fin (2 ^ 64) 0)) || gte
           end
  end.
Definition bcformat (num : jsval) (decimals : Z) : string :=
  let str := of_utf8 (trim (utf8 (js_String num))) in
  formatFixed (if bool_decide (str ∈ ["NaN"; "Infinity"; "-Infinity"]) || negb (isNumeric num) then "0" else str) decimals.

(** ** The fold *)
Definition fields : Type := list (string * jsval).

(** The fields of an issues row; [row.x] of a column the row lacks is [undefined]. *)
Definition js_cell (r : row) (c : string) : jsval := match r !! c with Some v => to_js v | None => JUndef end.
Definition rowValues (r : row) : fields :=
  let g := js_cell r in
  [("ACTION_INDEX", g "action_index");
   ("TICK_ID", g "tick_id");
   ("OWNER_ID", if is_nullish (g "transfer_addr_id") then g "source_addr_id" else g "transfer_addr_id");
   ("MAX_SUPPLY", g "max_supply"); ("MAX_MINT", g "max_mint");
   ("DECIMALS", if isNull (g "decimals") then JInt 0 else parseIntValue (g "decimals"));
   ("DESCRIPTION", g "description");
   ("LOCK_MAX_SUPPLY", g "lock_max_supply"); ("LOCK_MINT_SUPPLY", g "lock_mint_supply");
   ("LOCK_MINT", g "lock_mint"); ("LOCK_MAX_MINT", g "lock_max_mint");
   ("LOCK_DESCRIPTION", g "lock_description"); ("LOCK_SLEEP", g "lock_sleep"); ("LOCK_CALLBACK", g "lock_callback");
   ("CALLBACK_TICK_ID", g "callback_tick_ref"); ("CALLBACK_BLOCK", g "callback_block"); ("CALLBACK_AMOUNT", g "callback_amount");
   ("ALLOW_LIST", g "allow_list"); ("BLOCK_LIST", g "block_list");
   ("BRIDGE_CHAINS", g "bridge_chains"); ("MIN_DEPTH", g "min_depth"); ("LOCK_BRIDGE", g "lock_bridge");
   ("MINT_ADDRESS_MAX", g "mint_address_max"); ("MINT_START_BLOCK", g "mint_start_block"); ("MINT_STOP_BLOCK", g "mint_stop_block")].

Definition data_map : Type := gmap string jsval.
Definition field (d : data_map) (k : string) : jsval := default JUndef (d !! k).
Definition is_lock (k : string) : bool := bool_decide (take 5 (utf8 k) = utf8 "LOCK_").

(** One key of one row. *)
Definition foldField (d : data_map) (p : string * jsval) : data_map :=
  let '(key, value) := p in
  let d := if bool_decide (key = "ACTION_INDEX") && isNull (field d key) then <[key := value]> d else d in
  if is_lock key && is_one (field d key) then d
  else if bool_decide (key = "DECIMALS") && js_gt (field d key) value then d
  else if bool_decide (key ∈ LIST_FIELDS) && bool_decide (js_String value = "0") then <[key := JNull]> d
  else if isNull value then d
  else <[key := value]> d.
Definition foldRow (d : data_map) (arr : fields) : data_map := fold_left foldField arr d.

(** ** The columns *)
Definition on_fields (l : list string) (f : jsval -> jsval) (d : data_map) : data_map :=
  fold_left (fun d k => <[k := f (field d k)]> d) l d.
(** [[0, 1].indexOf(v) === -1]: strict equality with a number. *)
Definition zero_or_one (v : jsval) : jsval := if bool_decide (v = JInt 0 \/ v = JInt 1) then v else JNull.
Definition normalize (input : data_map) : data_map :=
  let d := on_fields LIST_FIELDS (fun v => if negb (isNull v) && negb (isNumeric v) then JNull else v) input in
  let d := on_fields NUMBER_FIELDS (fun v => if isNull v || negb (isNumeric v) then JNull else v) d in
  let d := on_fields INTEGER_FIELDS (fun v => if negb (isNull v) && exceedsU64 v then JNull else v) d in
  let d := on_fields LOCK_FIELDS (fun v => zero_or_one (match v with
                                                        | JStr _ => if isNumeric v then parseIntValue v else v
                                                        | _ => v
                                                        end)) d in
  let dec := field d "DECIMALS" in
  if negb (isNull dec) && (js_gt (JInt MIN_TOKEN_DECIMALS) dec || js_gt dec (JInt MAX_TOKEN_DECIMALS)) then <["DECIMALS" := JNull]> d else d.

Definition num (v : jsval) : jsval := if negb (isNull v) && isNumeric v then v else JInt 0.
Definition numeric_or_null (v : jsval) : jsval := if negb (isNull v) && isNumeric v then parseIntValue v else JNull.
Definition lock_bit (v : jsval) : jsval := JInt (if is_one v then 1 else 0).
Definition amount_limit (decimals : jsval) (v : jsval) : jsval :=
  match decimals with
  | JInt d => if (MIN_TOKEN_DECIMALS <=? d) && (d <=? MAX_TOKEN_DECIMALS) then JStr (bcformat v d) else v
  | _ => v
  end.
Definition tokenColumns (folded : data_map) : list (string * jsval) :=
  let d := normalize folded in
  let g := field d in
  let decimals := if negb (isNull (g "DECIMALS")) && isNumeric (g "DECIMALS") then parseIntValue (g "DECIMALS") else JInt 0 in
  [("max_supply", amount_limit decimals (num (g "MAX_SUPPLY")));
   ("max_mint", amount_limit decimals (num (g "MAX_MINT")));
   ("decimals", decimals);
   ("description", match g "DESCRIPTION" with JUndef => JNull | v => v end);
   ("lock_max_supply", lock_bit (g "LOCK_MAX_SUPPLY")); ("lock_mint", lock_bit (g "LOCK_MINT"));
   ("lock_mint_supply", lock_bit (g "LOCK_MINT_SUPPLY")); ("lock_max_mint", lock_bit (g "LOCK_MAX_MINT"));
   ("lock_description", lock_bit (g "LOCK_DESCRIPTION")); ("lock_sleep", lock_bit (g "LOCK_SLEEP"));
   ("lock_callback", lock_bit (g "LOCK_CALLBACK"));
   ("callback_block", if js_gt (g "CALLBACK_BLOCK") (JInt 0) then g "CALLBACK_BLOCK" else JInt 0);
   ("callback_tick_id", if isNull (g "CALLBACK_TICK_ID") then JNull else g "CALLBACK_TICK_ID");
   ("callback_amount", num (g "CALLBACK_AMOUNT"));
   ("allow_list", numeric_or_null (g "ALLOW_LIST"));
   ("block_list", numeric_or_null (g "BLOCK_LIST"));
   ("mint_address_max", amount_limit decimals (num (g "MINT_ADDRESS_MAX")));
   ("mint_start_block", num (g "MINT_START_BLOCK"));
   ("mint_stop_block", num (g "MINT_STOP_BLOCK"));
   ("bridge_chains", if negb (isNull (g "BRIDGE_CHAINS")) && negb (bool_decide (js_String (g "BRIDGE_CHAINS") = "-"))
                     then JStr (js_String (g "BRIDGE_CHAINS")) else JNull);
   ("min_depth", numeric_or_null (g "MIN_DEPTH"));
   ("lock_bridge", lock_bit (g "LOCK_BRIDGE"));
   ("owner_id", if isNull (g "OWNER_ID") then JNull else g "OWNER_ID");
   ("last_action_index", g "ACTION_INDEX")].

(** One column set per tick, in the order the ticks first appear, with the first issue's
    action index. *)
Record folded := Folded { f_tick : string; f_first : jsval; f_data : data_map }.
Fixpoint foldInto (l : list folded) (key : string) (r : row) : list folded :=
  match l with
  | [] => [Folded key (js_cell r "action_index") (foldRow ∅ (rowValues r))]
  | x :: l' => if bool_decide (f_tick x = key) then Folded key (f_first x) (foldRow (f_data x) (rowValues r)) :: l'
               else x :: foldInto l' key r
  end.
Definition foldIssueRows (l : list row) : list folded :=
  fold_left (fun acc r => foldInto acc (js_String (js_cell r "tick_id")) r) l [].

(** ** Reads and writes *)
Context `{Dialect}.

Definition fold_columns_read : list string :=
  ["tick_id"; "action_index"; "max_supply"; "max_mint"; "decimals"; "description"; "lock_max_supply"; "lock_mint_supply";
   "lock_mint"; "lock_max_mint"; "lock_description"; "lock_sleep"; "lock_callback"; "callback_block"; "callback_amount";
   "mint_address_max"; "mint_start_block"; "mint_stop_block"; "allow_list"; "block_list"; "bridge_chains"; "min_depth";
   "lock_bridge"].
Definition eq_col (a c a' c' : string) : cond := Cmp Eq (Col a c) (Col a' c').
Fixpoint all_of (l : list cond) : cond := match l with [] => TRUE | [w] => w | w :: l' => And w (all_of l') end.
Definition in_ids (e : expr) (ids : list value) : cond :=
  match ids with
  | [] => Not TRUE
  | v :: l => fold_left (fun p x => Or p (Cmp Eq e (Lit x))) l (Cmp Eq e (Lit v))
  end.
(** The LEFT JOINs on the primary keys of the two lookups are their scalar subqueries. *)
Definition foldRowsSql (ids : list value) : select :=
  Select [("issues", "i"); ("actions", "a1"); ("transactions", "t1"); ("index_tickers", "t2"); ("index_addresses", "a2"); ("index_statuses", "s1")]
    (all_of [eq_col "a1" "action_index" "i" "action_index"; eq_col "t1" "tx_index" "a1" "tx_index"; eq_col "t2" "id" "i" "tick_id";
           eq_col "a2" "id" "a1" "source_id"; eq_col "s1" "id" "i" "status_id"; Cmp Eq (Col "s1" "status") (Lit (Text "valid"));
           in_ids (Col "i" "tick_id") ids])
    (map (fun c => (c, Col "i" c)) fold_columns_read
     ++ [("source_addr_id", Col "a2" "id");
         ("transfer_addr_id", Pick [("index_addresses", "a3")] (eq_col "a3" "id" "i" "transfer_id") (Col "a3" "id"));
         ("callback_tick_ref", Pick [("index_tickers", "t3")] (eq_col "t3" "id" "i" "callback_tick_id") (Col "t3" "id"))]).

Definition int_cell (r : row) (c : string) : Z := match cell r c with Int z => z | _ => 0 end.
(** [ORDER BY i.tick_id ASC, i.action_index ASC] *)
Definition issue_le (r r' : row) : Prop :=
  int_cell r "tick_id" < int_cell r' "tick_id"
  \/ int_cell r "tick_id" = int_cell r' "tick_id" /\ int_cell r "action_index" <= int_cell r' "action_index".
#[global] Instance issue_le_dec r r' : Decision (issue_le r r').
Proof. unfold issue_le. apply _. Defined.

Fixpoint chunks {A} (fuel : nat) (l : list A) : list (list A) :=
  match fuel, l with
  | _, [] | O, _ => []
  | S k, _ => take CHUNK l :: chunks k (drop CHUNK l)
  end.
(** [out.set(k, v)] for each entry of a chunk's fold. *)
Definition set_folded (out : list folded) (x : folded) : list folded :=
  if existsb (fun y => bool_decide (f_tick y = f_tick x)) out
  then map (fun y => if bool_decide (f_tick y = f_tick x) then x else y) out else out ++ [x].
Fixpoint foldChunks (parts : list (list value)) (out : list folded) : txn (list folded) :=
  match parts with
  | [] => tret out
  | part :: rest =>
      do! l := ask (foldRowsSql part) in
      foldChunks rest (fold_left set_folded (foldIssueRows (merge_sort issue_le l)) out)
  end.
Definition foldTicks (ids : list value) : txn (list folded) := foldChunks (chunks (length ids) ids) [].

(** The ticks named by the rows of a table from an action index on; [None] for a table
    without a tick. *)
Definition refoldTickQuery (t : string) (firstActionIndex : Z) : option select :=
  let tail := Cmp Ge (Col "m" "action_index") (Lit (Int firstActionIndex)) in
  if bool_decide (t ∈ LEDGER_TICK_TABLES) then
    Some (Select [(t, "m"); ("index_tickers", "t1"); ("index_addresses", "a1")]
            (all_of [eq_col "t1" "id" "m" "tick_id"; eq_col "a1" "id" "m" "address_id"; tail]) [("tick_id", Col "m" "tick_id")])
  else if bool_decide (t ∈ CONTRACT_TICK_TABLES) then
    Some (Select [(t, "m"); ("index_tickers", "t1"); ("index_addresses", "a1")]
            (all_of [eq_col "t1" "id" "m" "tick_id"; eq_col "a1" "id" "m" "source_id"; tail]) [("tick_id", Col "m" "tick_id")])
  else if negb (bool_decide (t ∈ TRANSACTION_TICK_TABLES)) then None
  else
    let tickColumn := if bool_decide (t = "swaps") then "give_tick_id" else "tick_id" in
    Some (Select [(t, "m"); ("actions", "a1"); ("transactions", "t1"); ("index_tickers", "t2"); ("index_addresses", "a2")]
            (all_of [eq_col "a1" "action_index" "m" "action_index"; eq_col "t1" "tx_index" "a1" "tx_index";
                   eq_col "t2" "id" "m" tickColumn; eq_col "a2" "id" "t1" "source_id"; tail]) [("tick_id", Col "m" tickColumn)]).

Definition found_ids (found : list value) (l : list row) : list value :=
  fold_left (fun acc r => match cell r "tick_id" with
                          | Null => acc
                          | v => if existsb (fun x => bool_decide (js_String (to_js x) = js_String (to_js v))) acc then acc else acc ++ [v]
                          end) l found.
Fixpoint collectTables (tables : list string) (firstActionIndex : Z) (found : list value) : txn (list value) :=
  match tables with
  | [] => tret found
  | t :: rest =>
      match refoldTickQuery t firstActionIndex with
      | None => collectTables rest firstActionIndex found
      | Some q =>
          do! found := catch (do! l := ask q in tret (found_ids found l))
                             (fun e => if isSchemaGapError e then tret found else throw e) in
          collectTables rest firstActionIndex found
      end
  end.
Definition tick_le (a b : value) : Prop := units a <= units b.
#[global] Instance tick_le_dec a b : Decision (tick_le a b).
Proof. unfold tick_le. apply _. Defined.
Definition collectRefoldTickIds (firstActionIndex : Z) (tables : list string) : txn (list value) :=
  do! found := collectTables tables firstActionIndex [] in tret (merge_sort tick_le found).

(** The surviving rows' first issuance, by tick. *)
Fixpoint anchorChunks (parts : list (list value)) (out : list (string * string)) : txn (list (string * string)) :=
  match parts with
  | [] => tret out
  | part :: rest =>
      do! l := ask (Select [("tokens", "k")] (in_ids (Col "k" "tick_id") part) [("tick_id", Col "k" "tick_id"); ("action_index", Col "k" "action_index")]) in
      anchorChunks rest (out ++ map (fun r => (js_String (js_cell r "tick_id"), js_String (js_cell r "action_index"))) l)
  end.
Definition tokenAnchors (ids : list value) : txn (list (string * string)) := anchorChunks (chunks (length ids) ids) [].
(** The last entry set for a key. *)
Definition anchor_of (anchors : list (string * string)) (tick : string) : option string :=
  snd <$> last (List.filter (fun p => bool_decide (p.1 = tick)) anchors).

Definition refoldStmt (x : folded) : stmt :=
  Update "tokens" "k" [] (map (fun p => (p.1, Lit (of_js p.2))) (tokenColumns (f_data x)))
    (Cmp Eq (Col "k" "tick_id") (Lit (Text (f_tick x)))).
Definition refoldOne (anchors : list (string * string)) (x : folded) : txn unit :=
  match anchor_of anchors (f_tick x) with
  | None => tret tt
  | Some a => if bool_decide (a = js_String (f_first x)) then run_stmt (refoldStmt x) else tret tt
  end.
Definition refoldTokenRows (ids : list value) : txn unit :=
  match ids with
  | [] => tret tt
  | _ => do! l := foldTicks ids in
         do! anchors := tokenAnchors (map (fun x => Text (f_tick x)) l) in
         each l (refoldOne anchors)
  end.
End Fold.

(** ** What a refolded row says

    A field of the fold depends on that field of the rows only. *)
Definition foldValue (key : string) (old value : jsval) : jsval :=
  let old := if bool_decide (key = "ACTION_INDEX") && isNull old then value else old in
  if is_lock key && is_one old then old
  else if bool_decide (key = "DECIMALS") && js_gt old value then old
  else if bool_decide (key ∈ LIST_FIELDS) && bool_decide (js_String value = "0") then JNull
  else if isNull value then old
  else value.

Lemma field_insert (d : gmap string jsval) k k' v : field (<[k := v]> d) k' = if bool_decide (k = k') then v else field d k'.
Proof.
  unfold field. case_bool_decide as Hk; [subst; by rewrite (lookup_insert_eq (M := gmap string) d)|by rewrite (lookup_insert_ne (M := gmap string) d)].
Qed.
Lemma field_foldField d key value k : field (foldField d (key, value)) k = if bool_decide (key = k) then foldValue key (field d key) value else field d k.
Proof.
  unfold foldField. set (d' := if _ && _ then _ else d).
  assert (field d' key = if bool_decide (key = "ACTION_INDEX") && isNull (field d key) then value else field d key) as Hold.
  { unfold d'. destruct (_ && _); [by rewrite field_insert, bool_decide_eq_true_2|done]. }
  assert (key <> k -> field d' k = field d k) as Hne.
  { intros Hk. unfold d'. destruct (_ && _); [by rewrite field_insert, bool_decide_eq_false_2|done]. }
  unfold foldValue. cbv zeta. rewrite <- Hold. clearbody d'. destruct (decide (key = k)) as [<-|Hk].
  - rewrite (bool_decide_eq_true_2 (key = key)) by done. clear Hold.
    repeat match goal with |- context [if ?b then _ else _] => destruct b end; by rewrite ?field_insert, ?bool_decide_eq_true_2.
  - rewrite (bool_decide_eq_false_2 (key = k)) by done. rewrite <- Hne by done. clear Hold.
    repeat match goal with |- context [if ?b then _ else _] => destruct b end; by rewrite ?field_insert, ?bool_decide_eq_false_2.
Qed.
Lemma field_foldRow_notin arr d k : k ∉ map fst arr -> field (foldRow d arr) k = field d k.
Proof.
  unfold foldRow. revert d. induction arr as [|[key v] arr IH]; intros d Hk; cbn [fold_left]; [done|]. cbn [map fst] in Hk.
  rewrite IH by set_solver. rewrite field_foldField, bool_decide_eq_false_2 by set_solver. done.
Qed.
Lemma field_foldRow arr d k v : NoDup (map fst arr) -> (k, v) ∈ arr -> field (foldRow d arr) k = foldValue k (field d k) v.
Proof.
  unfold foldRow. revert d. induction arr as [|[key w] arr IH]; intros d Hnd Hin; [by apply not_elem_of_nil in Hin|].
  cbn [fold_left]. cbn [map fst] in Hnd. apply NoDup_cons in Hnd as [Hn Hnd]. apply elem_of_cons in Hin as [[= -> ->]|Hin].
  - change (fold_left foldField arr ?d) with (foldRow d arr). rewrite field_foldRow_notin by done. by rewrite field_foldField, bool_decide_eq_true_2.
  - rewrite IH by done. rewrite field_foldField, bool_decide_eq_false_2; [done|]. intros ->. apply Hn.
    apply list_elem_of_In, in_map_iff. exists (k, v). split; [done|]. by apply list_elem_of_In.
Qed.

Definition history (l : list row) : data_map := fold_left (fun d r => foldRow d (rowValues r)) l ∅.
Lemma field_history l k (g : row -> jsval) : (forall r, (k, g r) ∈ rowValues r) -> field (history l) k = fold_left (foldValue k) (map g l) JUndef.
Proof.
  intros Hg. unfold history. change JUndef with (field ∅ k). generalize (∅ : data_map). induction l as [|r l IH]; intros d; cbn [fold_left map]; [done|].
  rewrite IH. f_equal. apply field_foldRow; [|done]. apply (bool_decide_eq_true_1 (NoDup _)). reflexivity.
Qed.

(** A lock is a latch, the precision never drops, the other fields keep the last value. *)
Lemma is_one_not_null v : is_one v = true -> isNull v = false.
Proof. destruct v as [| | | |s]; try done. unfold isNull. intros Hs. apply bool_decide_eq_false. intros [?|[?|[= ->]]]; [done|done|]. by vm_compute in Hs. Qed.
Lemma fold_lock k l old : is_lock k = true -> k <> "ACTION_INDEX" -> k <> "DECIMALS" -> k ∉ LIST_FIELDS ->
  is_one (fold_left (foldValue k) l old) = is_one old || existsb is_one l.
Proof.
  intros Hk H1 H2 H3. revert old. induction l as [|v l IH]; intros old; cbn [fold_left existsb]; [by rewrite orb_false_r|]. rewrite IH, orb_assoc. f_equal.
  unfold foldValue. rewrite Hk, !bool_decide_eq_false_2 by done. cbn [andb]. destruct (is_one old) eqn:E; [done|].
  destruct (isNull v) eqn:En; [|done]. rewrite E. destruct (is_one v) eqn:Ev; [|done]. by rewrite (is_one_not_null v Ev) in En.
Qed.
Lemma js_gt_int a b : js_gt (JInt a) (JInt b) = (b <? a).
Proof. unfold js_gt. cbn [js_number]. apply eq_true_iff_eq. rewrite andb_true_iff, negb_true_iff, !fin_le_int. lia. Qed.

Lemma fold_decimals l a : fold_left (foldValue "DECIMALS") (map JInt l) (JInt a) = JInt (fold_left Z.max l a).
Proof.
  revert a. induction l as [|z l IH]; intros a; cbn [fold_left map]; [done|]. rewrite <- IH. f_equal. unfold foldValue.
  change (bool_decide ("DECIMALS" = "ACTION_INDEX")) with false. change (is_lock "DECIMALS") with false.
  change (bool_decide ("DECIMALS" = "DECIMALS")) with true. change (bool_decide ("DECIMALS" ∈ LIST_FIELDS)) with false. cbn [andb].
  rewrite js_gt_int. change (isNull (JInt z)) with false. cbn iota. destruct (Z.ltb_spec z a); f_equal; lia.
Qed.
Lemma fold_last k l old v : is_lock k = false -> k <> "DECIMALS" -> k ∉ LIST_FIELDS -> isNull v = false ->
  fold_left (foldValue k) (l ++ [v]) old = v.
Proof.
  intros Hk H1 H2 Hv. rewrite fold_left_app. cbn [fold_left]. generalize (fold_left (foldValue k) l old). intros x. unfold foldValue.
  rewrite Hk, (bool_decide_eq_false_2 (k = "DECIMALS")), (bool_decide_eq_false_2 (k ∈ LIST_FIELDS)) by done. cbn [andb]. by rewrite Hv.
Qed.

Lemma field_on_fields l g d k : NoDup l -> field (on_fields l g d) k = if bool_decide (k ∈ l) then g (field d k) else field d k.
Proof.
  unfold on_fields. revert d. induction l as [|x l IH]; intros d Hnd; cbn [fold_left]; [done|]. apply NoDup_cons in Hnd as [Hx Hnd].
  rewrite IH by done. rewrite !field_insert. destruct (decide (x = k)) as [->|Hk].
  - rewrite (bool_decide_eq_false_2 (k ∈ l)), !bool_decide_eq_true_2 by (done || by left). done.
  - rewrite (bool_decide_eq_false_2 (x = k)) by done. apply (f_equal (fun b : bool => if b then _ else _)). apply bool_decide_ext. set_solver.
Qed.

Section Refolded.
Context `{Mathjs}.

(** An issue of a tick as the columns store it. *)
Definition optional_int (v : value) : Prop := v = Null \/ exists z, v = Int z.
Definition LOCK_COLUMNS : list (string * string) :=
  [("LOCK_MAX_SUPPLY", "lock_max_supply"); ("LOCK_MINT", "lock_mint"); ("LOCK_MINT_SUPPLY", "lock_mint_supply"); ("LOCK_MAX_MINT", "lock_max_mint");
   ("LOCK_DESCRIPTION", "lock_description"); ("LOCK_SLEEP", "lock_sleep"); ("LOCK_CALLBACK", "lock_callback"); ("LOCK_BRIDGE", "lock_bridge")].
Record issue_typed (tick : Z) (r : row) : Prop := {
  typed_tick : r !! "tick_id" = Some (Int tick);
  typed_index : exists z, r !! "action_index" = Some (Int z);
  typed_source : exists z, r !! "source_addr_id" = Some (Int z);
  typed_transfer : optional_int (cell r "transfer_addr_id");
  typed_decimals : cell r "decimals" = Null \/ exists z, cell r "decimals" = Int z /\ MIN_TOKEN_DECIMALS <= z <= MAX_TOKEN_DECIMALS;
  typed_locks : Forall (fun p => optional_int (cell r p.2)) LOCK_COLUMNS }.

Definition precision (r : row) : Z := int_cell r "decimals".
Definition owner (r : row) : jsval := if is_nullish (js_cell r "transfer_addr_id") then js_cell r "source_addr_id" else js_cell r "transfer_addr_id".
Definition column (cols : list (string * jsval)) (c : string) : jsval := default JUndef (snd <$> List.find (fun p => bool_decide (p.1 = c)) cols).

Lemma foldIssueRows_one t r l : Forall (issue_typed t) (r :: l) ->
  foldIssueRows (r :: l) = [Folded (js_String (JInt t)) (js_cell r "action_index") (history (r :: l))].
Proof.
  intros Hall. assert (forall x, issue_typed t x -> js_String (js_cell x "tick_id") = js_String (JInt t)) as Hkey.
  { intros x [Hx _ _ _ _ _]. unfold js_cell. by rewrite Hx. }
  apply Forall_cons in Hall as [Hr Hl]. unfold foldIssueRows, history. cbn [fold_left foldInto]. rewrite Hkey by done.
  generalize (foldRow ∅ (rowValues r)) (js_cell r "action_index"). revert Hl. induction l as [|x l IH]; intros Hl d a; [done|].
  apply Forall_cons in Hl as [Hx Hl]. cbn [fold_left foldInto f_tick]. rewrite Hkey by done. rewrite bool_decide_eq_true_2 by done. by apply IH.
Qed.

Lemma js_cell_int r c : optional_int (cell r c) -> js_cell r c = JUndef \/ js_cell r c = JNull \/ exists z, js_cell r c = JInt z /\ cell r c = Int z.
Proof.
  unfold js_cell, cell. destruct (r !! c) as [v|]; [|by left]. cbn. intros [->|[z ->]]; [right; by left|]. right. right. by exists z.
Qed.
Lemma is_one_cell r c : optional_int (cell r c) -> is_one (js_cell r c) = bool_decide (cell r c = Int 1).
Proof.
  unfold js_cell, cell. destruct (r !! c) as [v|]; [|by intros]. cbn. intros [->|[z ->]]; [done|]. cbn [to_js is_one js_number].
  rewrite !fin_le_int. apply eq_true_iff_eq. rewrite andb_true_iff, bool_decide_eq_true. split; [intros ?; f_equal; lia|intros [= ->]; lia].
Qed.

Lemma field_normalize_lock d k : k ∈ LOCK_FIELDS ->
  field (normalize d) k = zero_or_one (match field d k with JStr s => if isNumeric (JStr s) then parseIntValue (JStr s) else JStr s | v => v end).
Proof.
  intros Hk. assert (k <> "DECIMALS" /\ k ∉ LIST_FIELDS /\ k ∉ NUMBER_FIELDS /\ k ∉ INTEGER_FIELDS) as (H1 & H2 & H3 & H4).
  { revert k Hk. apply Forall_forall. apply (bool_decide_eq_true_1 (Forall _ _)). vm_compute. reflexivity. }
  unfold normalize. cbv zeta. destruct (_ && _); rewrite ?field_insert, ?(bool_decide_eq_false_2 ("DECIMALS" = k)) by congruence;
    rewrite !field_on_fields by (apply (bool_decide_eq_true_1 (NoDup _)); reflexivity);
    rewrite (bool_decide_eq_true_2 (k ∈ LOCK_FIELDS)), !bool_decide_eq_false_2 by done; by destruct (field d k).
Qed.
Lemma field_normalize_other d k : k ∉ "DECIMALS" :: LIST_FIELDS ++ NUMBER_FIELDS ++ INTEGER_FIELDS ++ LOCK_FIELDS -> field (normalize d) k = field d k.
Proof.
  intros Hk. unfold normalize. cbv zeta.
  assert (k <> "DECIMALS" /\ k ∉ LIST_FIELDS /\ k ∉ NUMBER_FIELDS /\ k ∉ INTEGER_FIELDS /\ k ∉ LOCK_FIELDS) as (H1 & H2 & H3 & H4 & H5) by set_solver.
  destruct (_ && _); rewrite ?field_insert, ?(bool_decide_eq_false_2 ("DECIMALS" = k)) by congruence;
    rewrite !field_on_fields by (apply (bool_decide_eq_true_1 (NoDup _)); reflexivity); by rewrite !bool_decide_eq_false_2.
Qed.
Lemma field_normalize_decimals d z : field d "DECIMALS" = JInt z -> MIN_TOKEN_DECIMALS <= z <= MAX_TOKEN_DECIMALS -> field (normalize d) "DECIMALS" = JInt z.
Proof.
  intros Hd Hz. unfold normalize. cbv zeta.
  assert (forall e, e = field (on_fields LOCK_FIELDS (fun v => zero_or_one (match v with JStr _ => if isNumeric v then parseIntValue v else v | _ => v end))
     (on_fields INTEGER_FIELDS (fun v => if negb (isNull v) && exceedsU64 v then JNull else v)
       (on_fields NUMBER_FIELDS (fun v => if isNull v || negb (isNumeric v) then JNull else v)
         (on_fields LIST_FIELDS (fun v => if negb (isNull v) && negb (isNumeric v) then JNull else v) d)))) "DECIMALS" -> e = JInt z) as He.
  { intros e ->. rewrite !field_on_fields by (apply (bool_decide_eq_true_1 (NoDup _)); reflexivity). cbn. rewrite Hd. reflexivity. }
  rewrite (He _ eq_refl). rewrite !js_gt_int. unfold MIN_TOKEN_DECIMALS, MAX_TOKEN_DECIMALS in *.
  destruct (Z.ltb_spec z 0); [lia|]. destruct (Z.ltb_spec 18 z); [lia|]. cbn [orb]. rewrite andb_false_r. exact (He _ eq_refl).
Qed.
Lemma last_split {A} (x : A) l : exists l' y, x :: l = l' ++ [y] /\ List.last (x :: l) x = y.
Proof. destruct (exists_last (l := x :: l) ltac:(done)) as (l' & y & E). exists l', y. split; [done|]. rewrite E. apply last_last. Qed.

Definition decimals_value (r : row) : jsval := if isNull (js_cell r "decimals") then JInt 0 else parseIntValue (js_cell r "decimals").
Lemma row_decimals t r : issue_typed t r -> decimals_value r = JInt (precision r) /\ MIN_TOKEN_DECIMALS <= precision r <= MAX_TOKEN_DECIMALS.
Proof.
  intros [_ _ _ _ Hd _]. unfold decimals_value, precision, int_cell, MIN_TOKEN_DECIMALS, MAX_TOKEN_DECIMALS in *.
  unfold js_cell, cell in *. destruct (r !! "decimals") as [v|]; cbn [default from_option] in *; unfold id in *; [|split; [reflexivity|lia]].
  destruct Hd as [->|(z & -> & Hz)]; cbn iota; [split; [reflexivity|lia]|]. split; [|done].
  change (isNull (to_js (Int z))) with false. cbn iota. unfold parseIntValue. cbn [to_js js_String]. rewrite parse_int_height; [done|lia].
Qed.

Lemma refolded_decimals t r l : Forall (issue_typed t) (r :: l) ->
  exists m, field (history (r :: l)) "DECIMALS" = JInt m /\ m = fold_left Z.max (map precision l) (precision r) /\ MIN_TOKEN_DECIMALS <= m <= MAX_TOKEN_DECIMALS.
Proof.
  intros Hall. rewrite (field_history _ _ decimals_value) by (intros x; unfold rowValues; cbv zeta; do 5 right; left).
  assert (forall l, Forall (issue_typed t) l -> map decimals_value l = map JInt (map precision l)) as Hm.
  { induction 1 as [|x l' Hx Hl IH]; cbn [map]; [done|]. rewrite IH. f_equal. apply (row_decimals t x Hx). }
  rewrite Hm by done. cbn [map fold_left]. change (foldValue "DECIMALS" JUndef (JInt (precision r))) with (JInt (precision r)). rewrite fold_decimals.
  eexists. split; [done|]. split; [done|]. apply Forall_cons in Hall as [Hr Hl]. destruct (row_decimals t r Hr) as [_ Hb]. revert Hb. generalize (precision r).
  induction Hl as [|x l' Hx Hl IH]; intros a Ha; cbn [map fold_left]; [done|]. apply IH. destruct (row_decimals t x Hx) as [_ Hb]. lia.
Qed.
Definition plain (v : jsval) : Prop := match v with JStr _ | JBool _ => False | _ => True end.
Lemma fold_plain k l old : Forall plain l -> plain old -> plain (fold_left (foldValue k) l old).
Proof.
  intros Hl. revert old. induction Hl as [|v l Hv Hl IH]; intros old Ho; cbn [fold_left]; [done|]. apply IH. unfold foldValue.
  repeat match goal with |- context [if ?b then _ else _] => destruct b end; done.
Qed.
Lemma js_cell_plain r c : optional_int (cell r c) -> plain (js_cell r c).
Proof. intros Hc. destruct (js_cell_int r c Hc) as [->|[->|(z & -> & _)]]; done. Qed.

Lemma refolded_lock K c l : (forall r, (K, js_cell r c) ∈ rowValues r) ->
  (K ∈ LOCK_FIELDS \/ K = "LOCK_BRIDGE") -> Forall (fun r => optional_int (cell r c)) l ->
  lock_bit (field (normalize (history l)) K) = JInt (if existsb (fun r => bool_decide (cell r c = Int 1)) l then 1 else 0).
Proof.
  intros Hrow HK Hl.
  assert (is_lock K = true /\ K <> "ACTION_INDEX" /\ K <> "DECIMALS" /\ K ∉ LIST_FIELDS) as (H1 & H2 & H3 & H4).
  { assert (K ∈ LOCK_FIELDS ++ ["LOCK_BRIDGE"]) as Hin by (apply elem_of_app; destruct HK as [?| ->]; [by left|right; left]). clear -Hin.
    revert K Hin. apply Forall_forall. apply (bool_decide_eq_true_1 (Forall _ _)). vm_compute. reflexivity. }
  assert (existsb is_one (map (fun r => js_cell r c) l) = existsb (fun r => bool_decide (cell r c = Int 1)) l) as Hex.
  { clear -Hl. induction Hl as [|r l Hr Hl IH]; cbn [map existsb]; [done|]. by rewrite IH, is_one_cell. }
  assert (is_one (field (history l) K) = existsb (fun r => bool_decide (cell r c = Int 1)) l) as Hone.
  { rewrite (field_history _ _ _ Hrow), fold_lock by done. exact Hex. }
  unfold lock_bit. rewrite <- Hone. apply (f_equal (fun b : bool => JInt (if b then 1 else 0))). destruct HK as [HK| ->].
  - rewrite field_normalize_lock by done. assert (plain (field (history l) K)) as Hp.
    { rewrite (field_history _ _ _ Hrow). apply fold_plain; [|done]. apply Forall_map. eapply Forall_impl; [exact Hl|]. intros r. apply js_cell_plain. }
    destruct (field (history l) K) as [| | |z|]; try done. unfold zero_or_one. case_bool_decide as Hz; [done|].
    cbn [is_one js_number]. rewrite !fin_le_int. symmetry. apply not_true_is_false. rewrite andb_true_iff. intros ?. apply Hz. right. f_equal. lia.
  - rewrite field_normalize_other; [done|]. by apply (bool_decide_eq_true_1 (_ ∉ _)).
Qed.

Lemma refolded_last K g r l : (forall x, (K, g x) ∈ rowValues x) -> K ∈ ["ACTION_INDEX"; "OWNER_ID"] -> Forall (fun x => isNull (g x) = false) (r :: l) ->
  field (normalize (history (r :: l))) K = g (List.last (r :: l) r) /\ isNull (g (List.last (r :: l) r)) = false.
Proof.
  intros Hrow HK Hg. destruct (last_split r l) as (l' & y & E & ->).
  assert (isNull (g y) = false) as Hy by (rewrite E in Hg; apply Forall_app in Hg as [_ Hg]; by inversion Hg). split; [|done].
  assert (is_lock K = false /\ K <> "DECIMALS" /\ K ∉ LIST_FIELDS /\ K ∉ "DECIMALS" :: LIST_FIELDS ++ NUMBER_FIELDS ++ INTEGER_FIELDS ++ LOCK_FIELDS) as (H1 & H2 & H3 & H4).
  { clear -HK. revert K HK. apply Forall_forall. apply (bool_decide_eq_true_1 (Forall _ _)). vm_compute. reflexivity. }
  rewrite field_normalize_other by done. rewrite (field_history _ _ _ Hrow), E, map_app. cbn [map]. by apply fold_last.
Qed.

Lemma lock_column d K c : (K, c) ∈ LOCK_COLUMNS -> column (tokenColumns d) c = lock_bit (field (normalize d) K).
Proof. unfold LOCK_COLUMNS. intros Hin. repeat (apply elem_of_cons in Hin as [[= -> ->]|Hin]; [reflexivity|]). by apply not_elem_of_nil in Hin. Qed.
Lemma lock_row K c x : (K, c) ∈ LOCK_COLUMNS -> (K, js_cell x c) ∈ rowValues x.
Proof.
  unfold LOCK_COLUMNS. intros Hin. unfold rowValues. cbv zeta.
  repeat (apply elem_of_cons in Hin as [[= -> ->]|Hin]; [repeat first [left | right]|]). by apply not_elem_of_nil in Hin.
Qed.
Lemma lock_name K c : (K, c) ∈ LOCK_COLUMNS -> K ∈ LOCK_FIELDS \/ K = "LOCK_BRIDGE".
Proof.
  intros Hin. assert (K ∈ map fst LOCK_COLUMNS) as HK by (apply list_elem_of_In, in_map_iff; exists (K, c); split; [done|by apply list_elem_of_In]).
  clear Hin. revert K HK. apply Forall_forall. apply (bool_decide_eq_true_1 (Forall _ _)). vm_compute. reflexivity.
Qed.
Lemma decimals_column d : column (tokenColumns d) "decimals"
  = if negb (isNull (field (normalize d) "DECIMALS")) && isNumeric (field (normalize d) "DECIMALS") then parseIntValue (field (normalize d) "DECIMALS") else JInt 0.
Proof. reflexivity. Qed.

(** The refold of a tick's valid issues writes what the source's own replay writes: a
    lock column is set exactly when some issue set it, never to be unset by a later one;
    the precision is the highest any issue gave and never drops; the owner and
    [last_action_index] are the last issue's; and the fold carries the first issue's
    action index, by which a row whose history is incomplete is told apart. *)
Theorem refold_columns t r l :
  Forall (issue_typed t) (r :: l) ->
  exists x, foldIssueRows (r :: l) = [x] /\ f_tick x = js_String (JInt t) /\ f_first x = js_cell r "action_index"
    /\ let col := column (tokenColumns (f_data x)) in
       Forall (fun p => col p.2 = JInt (if existsb (fun r => bool_decide (cell r p.2 = Int 1)) (r :: l) then 1 else 0)) LOCK_COLUMNS
       /\ col "decimals" = JInt (fold_left Z.max (map precision l) (precision r))
       /\ col "owner_id" = owner (List.last (r :: l) r)
       /\ col "last_action_index" = js_cell (List.last (r :: l) r) "action_index".
Proof.
  intros Hall. eexists. split; [by apply foldIssueRows_one|]. split; [done|]. split; [done|]. cbv zeta. cbn [f_data]. split_and!.
  - assert (forall c, c ∈ map snd LOCK_COLUMNS -> Forall (fun x => optional_int (cell x c)) (r :: l)) as Hc.
    { intros c Hin. eapply Forall_impl; [exact Hall|]. intros x [_ _ _ _ _ Hx]. rewrite Forall_forall in Hx.
      apply list_elem_of_In, in_map_iff in Hin as (p & <- & Hp%list_elem_of_In). by apply Hx. }
    apply Forall_forall. intros [K c] Hin. cbn [snd]. rewrite (lock_column _ K c Hin). apply refolded_lock.
    + intros x. by apply lock_row.
    + by apply (lock_name K c).
    + apply Hc. apply list_elem_of_In, in_map_iff. exists (K, c). split; [done|]. by apply list_elem_of_In.
  - destruct (refolded_decimals t r l Hall) as (m & Hm & -> & Hb). rewrite decimals_column.
    rewrite (field_normalize_decimals _ _ Hm Hb). unfold parseIntValue. cbn [js_String]. unfold MIN_TOKEN_DECIMALS, MAX_TOKEN_DECIMALS in Hb.
    rewrite parse_int_height by lia. reflexivity.
  - destruct (refolded_last "OWNER_ID" owner r l) as [Hf Hn]; [intros x; do 2 right; left|right; left| |].
    + eapply Forall_impl; [exact Hall|]. intros x [_ _ [z Hz] Ht _ _]. unfold owner. destruct (js_cell_int x _ Ht) as [->|[->|(z' & -> & _)]]; cbn [is_nullish].
      all: try done. all: unfold js_cell; by rewrite Hz.
    + change (column (tokenColumns (history (r :: l))) "owner_id") with
        (if isNull (field (normalize (history (r :: l))) "OWNER_ID") then JNull else field (normalize (history (r :: l))) "OWNER_ID").
      by rewrite Hf, Hn.
  - destruct (refolded_last "ACTION_INDEX" (fun x => js_cell x "action_index") r l) as [Hf _]; [intros x; left|left| |exact Hf].
    eapply Forall_impl; [exact Hall|]. intros x [_ [z Hz] _ _ _ _]. unfold js_cell. by rewrite Hz.
Qed.
End Refolded.

Module Example.
#[local] Instance mathjs : Mathjs := {| formatFixed := fun s _ => s; gteBoundary := fun _ => Some false |}.
Definition issue (index decimals lock : Z) (transfer : value) : row :=
  {["tick_id" := Int 7; "action_index" := Int index; "source_addr_id" := Int 5; "transfer_addr_id" := transfer;
    "decimals" := Int decimals; "lock_mint" := Int lock; "max_supply" := Text "1000"]}.
Definition issues : list row := [issue 10 2 0 Null; issue 12 8 1 Null; issue 15 0 0 (Int 6)].

Lemma issue_is_typed i d k t : MIN_TOKEN_DECIMALS <= d <= MAX_TOKEN_DECIMALS -> optional_int t -> issue_typed 7 (issue i d k t).
Proof.
  intros Hd Ht. split.
  - reflexivity.
  - by exists i.
  - by exists 5.
  - exact Ht.
  - right. by exists d.
  - apply Forall_forall. intros [K c] Hin. cbn [snd]. unfold LOCK_COLUMNS in Hin.
    repeat (apply elem_of_cons in Hin as [[= -> ->]|Hin]; [first [by left | by (right; exists k)]|]). by apply not_elem_of_nil in Hin.
Qed.
Lemma refold_columns_witness :
  exists x, foldIssueRows issues = [x] /\ f_tick x = "7" /\ f_first x = JInt 10
    /\ column (tokenColumns (f_data x)) "lock_mint" = JInt 1 /\ column (tokenColumns (f_data x)) "decimals" = JInt 8
    /\ column (tokenColumns (f_data x)) "owner_id" = JInt 6 /\ column (tokenColumns (f_data x)) "last_action_index" = JInt 15.
Proof.
  destruct (refold_columns 7 (issue 10 2 0 Null) [issue 12 8 1 Null; issue 15 0 0 (Int 6)]) as (x & H1 & H2 & H3 & H4 & H5 & H6 & H7).
  - apply Forall_cons; split; [|apply Forall_cons; split; [|apply Forall_cons; split; [|apply Forall_nil; exact Logic.I]]]; apply issue_is_typed.
    all: first [by left | by (right; exists 6) | unfold MIN_TOKEN_DECIMALS, MAX_TOKEN_DECIMALS; lia].
  - exists x. split; [exact H1|]. split; [exact H2|]. split; [etransitivity; [exact H3|vm_compute; reflexivity]|]. rewrite Forall_forall in H4.
    pose proof (H4 ("LOCK_MINT", "lock_mint") (list_elem_of_further _ _ _ (list_elem_of_here _ _))) as Hlock. clear H4.
    split_and!; [etransitivity; [exact Hlock|]|etransitivity; [exact H5|]|etransitivity; [exact H6|]|etransitivity; [exact H7|]]; vm_compute; reflexivity.
Defined.
End Example.
