(* ===== verification/Balances.v ===== *)
(** * Balances: the aggregates rebuilt from the ledger

    Models [src/src/db/balance_helpers.js]: the rebuild of [balances] from the credits and
    debits, whole after a rollback or limited to a rectangle of addresses and ticks after
    a block ([rebuildBalances]), and the recomputation of [tokens.supply]
    ([recomputeTokenSupplies]).  A DECIMAL(65,18) amount is its number of 10^-18 units. *)

From S2P Require Import Prelude Sha256 JsText JsNumber JsMap Primitives FollowerRoots Sql.

Section Balances.
Context `{Dialect}.

Definition in_list (e : expr) (ids : list value) : cond :=
  match ids with
  | [] => Not TRUE
  | v :: l => fold_left (fun p x => Or p (Cmp Eq e (Lit x))) l (Cmp Eq e (Lit v))
  end.

Record scope := Scope { addressIds : list value; tickIds : list value }.
(** [WHERE address_id IN (...) AND tick_id IN (...)], or no condition. *)
Definition scope_pred (a : string) (sc : option scope) : cond :=
  match sc with
  | None => TRUE
  | Some sc => And (in_list (Col a "address_id") (addressIds sc)) (in_list (Col a "tick_id") (tickIds sc))
  end.

(** The rows of the UNION ALL with the sign of their side. *)
Definition ledger_rows (db : database) (sc : option scope) : list (value * value * Z) :=
  let side t (sgn : Z) :=
    map (fun r => (cell r "address_id", cell r "tick_id", sgn * units (cell r "amount")))
      (List.filter (fun r => satisfied db [("t", r)] (scope_pred "t" sc)) (rows_of db t)) in
  side "credits" 1 ++ side "debits" (-1).

Definition group_sum (l : list (value * value * Z)) (k : value * value) : Z :=
  foldr (fun p acc => (if bool_decide (p.1 = k) then p.2 else 0) + acc) 0 l.
Fixpoint dedup (l seen : list (value * value)) : list (value * value) :=
  match l with
  | [] => []
  | k :: l' => if bool_decide (k ∈ seen) then dedup l' seen else k :: dedup l' (k :: seen)
  end.
Definition balance_row (k : value * value) (u : Z) : row :=
  {["address_id" := k.1; "tick_id" := k.2; "amount" := Text (minimalDecimal u)]}.
(** [GROUP BY address_id, tick_id HAVING SUM(...) != 0] *)
Definition balance_rows (l : list (value * value * Z)) : list row :=
  flat_map (fun k => if group_sum l k =? 0 then [] else [balance_row k (group_sum l k)]) (dedup (map fst l) []).

Definition clearBalances (sc : option scope) : stmt := Delete "balances" "t" [] (scope_pred "t" sc) None.
Definition insertBalances (sc : option scope) : stmt :=
  let cols := ["address_id"; "tick_id"; "amount"] in
  Rebuild "balances" cols [("credits", cols); ("debits", cols)] (fun db l => l ++ balance_rows (ledger_rows db sc)).
Definition rebuildBalances (sc : option scope) : txn unit :=
  match sc with
  | Some (Scope [] _) | Some (Scope _ []) => tret tt
  | _ => run_stmt (clearBalances sc) ;! run_stmt (insertBalances sc)
  end.

(** ** Supplies *)

(** [CAST(SUM(amt) AS DECIMAL(60,d))]: units of 10^-d, half away from zero. *)
Definition round_scale (d u : Z) : Z :=
  let p := 10 ^ (18 - d) in Z.sgn u * ((2 * Z.abs u + p) / (2 * p)).
(** [CAST(x AS CHAR)] of a DECIMAL with [d] fractional digits. *)
Definition scale_text (d v : Z) : bytes :=
  (if v <? 0 then [c_minus] else []) ++ dec_of_nonneg (Z.abs v / 10 ^ d)
  ++ (if d =? 0 then [] else c_dot :: pad_start (Z.to_nat d) (dec_of_nonneg (Z.abs v mod 10 ^ d))).
Definition minimalSupply (d v : Z) : string :=
  of_utf8 (if d =? 0 then scale_text d v else trim_trailing c_dot (trim_trailing c_zero (scale_text d v))).

(** [SUM(amt)] of the three ledger tables for a tick; [None] when no row has it. *)
Definition tick_sum (db : database) (tick : value) : option Z :=
  let side t (sgn : Z) := map (fun r => sgn * units (cell r "amount"))
      (List.filter (fun r => bool_decide (cmp3 Eq (cell r "tick_id") tick = Some true)) (rows_of db t)) in
  match side "credits" 1 ++ side "debits" (-1) ++ side "escrows" 1 with
  | [] => None
  | l => Some (foldr Z.add 0 l)
  end.
Definition supply_text (db : database) (d : Z) (tick : value) : string :=
  match tick_sum db tick with Some u => minimalSupply d (round_scale d u) | None => "0" end.

Definition clamp_decimals (v : value) : Z :=
  match v with
  | Int z => Z.max 0 (Z.min 18 z)
  | Text s => Z.max 0 (Z.min 18 (default 0 (parse_int s)))
  | _ => 0
  end.
Definition supplyStmt (d : Z) : stmt :=
  Rebuild "tokens" ["tick_id"; "decimals"; "supply"]
    (map (fun t => (t, ["tick_id"; "amount"])) ["credits"; "debits"; "escrows"])
    (fun db l => map (fun r => if bool_decide (cmp3 Eq (cell r "decimals") (Int d) = Some true)
                               then <["supply" := Text (supply_text db d (cell r "tick_id"))]> r else r) l).
Definition recomputeTokenSupplies : txn unit :=
  do! precisions := ask (Select [("tokens", "k")] TRUE [("decimals", Col "k" "decimals")]) in
  each (remove_dups (map (fun r => cell r "decimals") precisions)) (fun v => run_stmt (supplyStmt (clamp_decimals v))).

(** ** What the rebuild leaves *)
Definition row_key (r : row) : value * value := (cell r "address_id", cell r "tick_id").
Definition held (db : database) (k : value * value) : list row := List.filter (fun r => bool_decide (row_key r = k)) (rows_of db "balances").
Definition net (db : database) (k : value * value) : Z := group_sum (ledger_rows db None) k.
(** The one row of a holder with a balance, none for the others. *)
Definition owed (db : database) (k : value * value) : list row := if net db k =? 0 then [] else [balance_row k (net db k)].
Definition balanced (db : database) : Prop := forall k, held db k = owed db k.

(** The rectangle of a scope. *)
Definition covers (sc : option scope) (k : value * value) : bool := satisfied ∅ [("t", balance_row k 0)] (scope_pred "t" sc).

Lemma key_balance_row k u : row_key (balance_row k u) = k.
Proof. by destruct k. Qed.

Lemma sat_in_list db env a c ids : satisfied db env (in_list (Col a c) ids) = existsb (fun v => bool_decide (cmp3 Eq (cell (alias_row env a) c) v = Some true)) ids.
Proof.
  destruct ids as [|v l]; [done|]. cbn [in_list existsb].
  assert (forall p, satisfied db env (fold_left (fun p x => Or p (Cmp Eq (Col a c) (Lit x))) l p)
    = satisfied db env p || existsb (fun v => bool_decide (cmp3 Eq (cell (alias_row env a) c) v = Some true)) l) as Hl.
  { induction l as [|x l IH]; intros p; cbn [fold_left existsb]; [by rewrite orb_false_r|]. rewrite IH, orb_assoc. f_equal.
    unfold satisfied. cbn [holds eval]. by destruct (holds db env p) as [[]|], (cmp3 Eq _ x) as [[]|]. }
  rewrite Hl. reflexivity.
Qed.
Lemma sat_scope db sc r : satisfied db [("t", r)] (scope_pred "t" sc) = covers sc (row_key r).
Proof.
  unfold covers. destruct sc as [[la ts]|]; [|done]. cbn [scope_pred addressIds tickIds].
  assert (forall db env p q, satisfied db env (And p q) = satisfied db env p && satisfied db env q) as Hand.
  { intros db' env p q. unfold satisfied. cbn [holds]. by destruct (holds db' env p) as [[]|], (holds db' env q) as [[]|]. }
  rewrite !Hand, !sat_in_list. reflexivity.
Qed.

Lemma side_scope db sc sgn l :
  map (fun r => (cell r "address_id", cell r "tick_id", sgn * units (cell r "amount"))) (List.filter (fun r => satisfied db [("t", r)] (scope_pred "t" sc)) l)
  = List.filter (fun p => covers sc p.1)
      (map (fun r => (cell r "address_id", cell r "tick_id", sgn * units (cell r "amount"))) (List.filter (fun r => satisfied db [("t", r)] (scope_pred "t" None)) l)).
Proof.
  induction l as [|r l IH]; [done|]. cbn [List.filter]. rewrite !sat_scope. change (covers None (row_key r)) with true. cbn [map List.filter fst].
  change (cell r "address_id", cell r "tick_id") with (row_key r). destruct (covers sc (row_key r)); cbn [map]; by rewrite IH.
Qed.
Lemma ledger_scope db sc : ledger_rows db sc = List.filter (fun p => covers sc p.1) (ledger_rows db None).
Proof. unfold ledger_rows. cbn zeta. rewrite List.filter_app. f_equal; apply side_scope. Qed.

Lemma group_sum_filter l (p : value * value -> bool) k : group_sum (List.filter (fun x => p x.1) l) k = if p k then group_sum l k else 0.
Proof.
  unfold group_sum. induction l as [|x l IH]; [by destruct (p k)|]. cbn [List.filter foldr]. destruct (p x.1) eqn:E; cbn [foldr]; rewrite IH.
  - case_bool_decide; [|destruct (p k); lia]. subst. rewrite E. lia.
  - case_bool_decide; [|destruct (p k); lia]. subst. by rewrite E.
Qed.
Lemma group_sum_absent l k : k ∉ map fst l -> group_sum l k = 0.
Proof.
  unfold group_sum. induction l as [|x l IH]; [done|]. cbn. intros Hk. rewrite bool_decide_eq_false_2 by set_solver. rewrite IH by set_solver. lia.
Qed.

Lemma dedup_filter l seen k :
  List.filter (fun x => bool_decide (x = k)) (dedup l seen) = if bool_decide (k ∈ l /\ k ∉ seen) then [k] else [].
Proof.
  revert seen. induction l as [|x l IH]; intros seen; cbn [dedup]; [by rewrite bool_decide_eq_false_2 by set_solver|].
  destruct (decide (x ∈ seen)) as [Hx|Hx].
  - rewrite bool_decide_eq_true_2 by done. rewrite IH. apply (f_equal (fun b : bool => if b then [k] else [])). apply bool_decide_ext. set_solver.
  - rewrite bool_decide_eq_false_2 by done. cbn [List.filter]. destruct (decide (x = k)) as [->|Hk].
    + rewrite bool_decide_eq_true_2 by done. rewrite IH, bool_decide_eq_false_2 by set_solver. rewrite bool_decide_eq_true_2 by set_solver. done.
    + rewrite bool_decide_eq_false_2 by done. rewrite IH. apply (f_equal (fun b : bool => if b then [k] else [])). apply bool_decide_ext. set_solver.
Qed.

Lemma held_balance_rows l k :
  List.filter (fun r => bool_decide (row_key r = k)) (balance_rows l) = if group_sum l k =? 0 then [] else [balance_row k (group_sum l k)].
Proof.
  unfold balance_rows.
  assert (forall ks, List.filter (fun r => bool_decide (row_key r = k)) (flat_map (fun x => if group_sum l x =? 0 then [] else [balance_row x (group_sum l x)]) ks)
    = flat_map (fun x => if group_sum l x =? 0 then [] else [balance_row x (group_sum l x)]) (List.filter (fun x => bool_decide (x = k)) ks)) as ->.
  { induction ks as [|x ks IH]; [done|]. cbn [flat_map List.filter]. rewrite List.filter_app, IH. destruct (decide (x = k)) as [->|Hk].
    - rewrite bool_decide_eq_true_2 by done. cbn [flat_map]. f_equal. destruct (_ =? 0); [done|]. cbn [List.filter].
      by rewrite key_balance_row, bool_decide_eq_true_2.
    - rewrite bool_decide_eq_false_2 by done. destruct (_ =? 0); [done|]. cbn [List.filter]. by rewrite key_balance_row, bool_decide_eq_false_2. }
  rewrite dedup_filter. case_bool_decide as Hk; cbn [flat_map]; [by rewrite app_nil_r|].
  rewrite (group_sum_absent l k); [done|]. intros Hin. apply Hk. split; [done|]. apply not_elem_of_nil.
Qed.

Lemma ledger_frame db l sc : ledger_rows (set_rows db "balances" l) sc = ledger_rows db sc.
Proof.
  unfold ledger_rows. cbn zeta. rewrite !rows_of_set_rows_ne by done.
  f_equal; f_equal; apply filter_ext; intros r; by rewrite !sat_scope.
Qed.

(** The two statements leave the rows outside the rectangle and the sums inside it. *)
Lemma rebuilt_rows db sc : is_Some (db !! "balances") ->
  let db1 := set_rows db "balances" (new_rows db (clearBalances sc)) in
  let db2 := set_rows db1 "balances" (new_rows db1 (insertBalances sc)) in
  (forall k, held db2 k = if covers sc k then owed db k else held db k) /\ (forall k, net db2 k = net db k).
Proof.
  intros Hdb. cbv zeta. set (l1 := new_rows db (clearBalances sc)).
  assert (is_Some (set_rows db "balances" l1 !! "balances")) as Hdb1.
  { unfold set_rows. rewrite lookup_alter_eq. destruct Hdb as [x ->]. cbn. eauto. }
  assert (new_rows (set_rows db "balances" l1) (insertBalances sc) = l1 ++ balance_rows (ledger_rows db sc)) as ->.
  { unfold new_rows, insertBalances. cbn [target]. by rewrite rows_of_set_rows, ledger_frame. }
  rewrite set_rows_set_rows. split.
  - intros k. unfold held. rewrite rows_of_set_rows by done. rewrite List.filter_app, held_balance_rows, ledger_scope, group_sum_filter.
    assert (l1 = List.filter (fun r => negb (covers sc (row_key r))) (rows_of db "balances")) as ->.
    { unfold l1, new_rows, clearBalances. cbn [target]. rewrite drop_where_None. apply filter_ext. intros r. by rewrite alone_match, sat_scope. }
    unfold owed, net. generalize (rows_of db "balances"). intros l. destruct (covers sc k) eqn:E.
    + assert (List.filter (fun r => bool_decide (row_key r = k)) (List.filter (fun r => negb (covers sc (row_key r))) l) = []) as ->; [|done].
      induction l as [|r l IH]; [done|]. cbn [List.filter]. destruct (covers sc (row_key r)) eqn:Er; cbn [negb List.filter]; [done|].
      rewrite bool_decide_eq_false_2; [done|]. intros <-. congruence.
    + rewrite Z.eqb_refl, app_nil_r. induction l as [|r l IH]; [done|]. cbn [List.filter].
      destruct (covers sc (row_key r)) eqn:Er; cbn [negb List.filter]; [|by rewrite IH].
      rewrite bool_decide_eq_false_2; [done|]. intros <-. congruence.
  - intros k. unfold net. by rewrite ledger_frame.
Qed.

(** C37. The rebuild limited to a rectangle is the full rebuild: whenever every pair outside
    the rectangle of addresses and ticks already has its balance, a rebuild that succeeds
    leaves each pair of the ledger with exactly one row, the minimal decimal text of its
    credits less its debits, and no row for a pair that nets to zero; without a rectangle
    this holds whatever the table held before. *)
Theorem rebuildBalances_correct sc f s s' :
  (forall k, covers sc k = false -> held (data s) k = owed (data s) k) ->
  rebuildBalances sc f s = (s', Done tt) ->
  balanced (data s').
Proof.
  intros Hout. assert (rebuildBalances sc = tret tt /\ (forall k, covers sc k = false)
    \/ rebuildBalances sc = (run_stmt (clearBalances sc) ;! run_stmt (insertBalances sc))) as [[-> Hc]| -> ].
  { destruct sc as [[[|a la] [|t ts]]|]; [left|left|left|by right|by right]; split; try done; intros k; unfold covers, satisfied; cbn [scope_pred addressIds tickIds in_list holds].
    all: try done; by destruct (holds ∅ _ _) as [[]|]. }
  { intros [= <-] k. by apply Hout. }
  unfold tbind. destruct (run_stmt (clearBalances sc) f s) as [s1 [[]|e]] eqn:E1; [|done]. intros E2.
  apply run_stmt_done in E1 as [Hgap E1]. apply run_stmt_done in E2 as [_ E2].
  assert (is_Some (data s !! "balances")) as Hdb by (eapply gap_tables; [exact Hgap|left]).
  destruct (rebuilt_rows (data s) sc Hdb) as [Hheld Hnet]. rewrite E1 in E2. rewrite E2. intros k.
  cbn [target clearBalances insertBalances] in Hheld, Hnet |- *. rewrite Hheld. unfold owed at 2. rewrite Hnet. fold (owed (data s) k).
  destruct (covers sc k) eqn:E; [done|]. by apply Hout.
Qed.
End Balances.
