(* ===== verification/Rollback.v ===== *)
(** * Rollback: a replica unwinds its tables to a block

    Models [src/src/client/rollback.js]: the constructor's checks, the reads before the
    transaction, every statement of [rollbackIndexer] in its order with the errors each
    step swallows, [rollbackDecoder], and the re-derivations that follow the deletes.
    [beginTransaction], [commitTransaction] and [rollbackTransaction] are those of
    [src/src/db/index.js], [rollbackPreservingError] is
    [src/src/client/rollback_preserving_error.js].

    A query fails when the schedule says so, with any error that is not a schema gap.  A
    COMMIT that fails may have landed: [landed] decides. *)

From S2P Require Import Prelude Sha256 JsText JsNumber JsMap Primitives GateRegistry Gates FollowerRoots Sql TableLifecycle TokenRefold Balances.

#[local] Open Scope Z_scope.

Declare Scope sql_scope.
#[local] Notation "a # c" := (Col a c) (at level 1, format "a # c") : sql_scope.
#[local] Notation "a == b" := (Cmp Eq a b) (at level 70) : sql_scope.
#[local] Notation "a >== b" := (Cmp Ge a b) (at level 70) : sql_scope.
#[local] Notation "a >> b" := (Cmp Gt a b) (at level 70) : sql_scope.
#[local] Notation "a << b" := (Cmp Lt a b) (at level 70) : sql_scope.
#[local] Notation "a <<>> b" := (Cmp Ne a b) (at level 70) : sql_scope.
#[local] Notation "p 'AND' q" := (And p q) (at level 75, right associativity) : sql_scope.
#[local] Notation "p 'OR' q" := (Or p q) (at level 76, right associativity) : sql_scope.
#[local] Open Scope sql_scope.
#[local] Notation N z := (Lit (Int z)).
#[local] Notation S_ s := (Lit (Text s)).
#[local] Notation NULL := (Lit Null).

(** ** The client *)
Record rollback_client := RollbackClient {
  coin : option string;            (* the ticker *)
  network : string;
  activationDelay : option Z;
  author_scope_table : gval;       (* ARCHIVE_ROLLBACK_AUTHOR_SCOPE_ACTIVATION *)
  gates : registry;
  gas_tick : string }.

(** The coin's aliases and its activation delay are the coin registry's. *)
Definition coinTicker (aliases : string -> option string) (c : option string) : option string :=
  match c with Some s => Some (default s (aliases (to_lower s))) | None => None end.
(** [None] for an omitted coin, [Some None] for an unknown one. *)
Definition activationDelayBlocks (aliases : string -> option string) (delays : string -> option Z) (c : option string) : option (option Z) :=
  match c with
  | None => None
  | Some s => Some (match aliases (to_lower s) with Some t => delays t | None => None end)
  end.
Definition newClient (aliases : string -> option string) (delays : string -> option Z) (author_scope : gval) (g : registry) (gas : string)
    (c : option string) (net : string) : result rollback_client :=
  match own author_scope net with
  | None => Throw "ClientRollback: network is required"
  | Some _ =>
      match activationDelayBlocks aliases delays c with
      | Some None => Throw "ClientRollback: unrecognized coin"
      | Some (Some d) => Ok (RollbackClient (coinTicker aliases c) net (Some d) author_scope g gas)
      | None => Ok (RollbackClient (coinTicker aliases c) net None author_scope g gas)
      end
  end.

(** ** Reads before the transaction *)
Section Program.
Context `{Mathjs} `{Dialect}.

(** [ORDER BY action_index ASC LIMIT 1] *)
Definition min_int (l : list Z) : option Z := match l with [] => None | z :: l' => Some (fold_left Z.min l' z) end.
Definition ints (l : list row) (c : string) : list Z := omap (fun r => match cell r c with Int z => Some z | _ => None end) l.
Definition getFirstActionIndex (b : Z) : txn (option Z) :=
  do! l := ask (Select [("actions", "a")] ("a"#"block_index" >== N b) [("action_index", "a"#"action_index")]) in
  tret (min_int (ints l "action_index")).

Definition SYNC_STATE_COLUMNS : list string := ["state_key"; "state_value"; "updated_at"].
(** [CREATE TABLE IF NOT EXISTS sync_state] *)
Definition ensure_table (db : database) : database :=
  match db !! "sync_state" with Some _ => db | None => <["sync_state" := Table SYNC_STATE_COLUMNS []]> db end.
Definition ensureSyncStateTable : txn unit := query (fun db => Done (ensure_table db, tt)).
Definition getSyncState (key : string) : txn (option value) :=
  ensureSyncStateTable ;!
  do! l := ask (Select [("sync_state", "s")] ("s"#"state_key" == S_ key) [("state_value", "s"#"state_value")]) in
  tret (match l with r :: _ => Some (cell r "state_value") | [] => None end).
(** [parseInt(base, 10) > 0] *)
Definition positive_text (s : string) : bool :=
  let '(sg, l) := strip_sign (trim_start (utf8 s)) in
  match (span_digits l).1 with [] => false | ds => 0 <? sg * dec_val ds end.
Definition truncated (base : option value) : bool :=
  match base with
  | Some (Text s) => positive_text s
  | Some (Int z) => 0 <? z
  | _ => false
  end.

Definition pair_columns : list (string * expr) :=
  [("tick1_id", Coalesce ("o"#"give_tick_id") (N 0)); ("tick2_id", Coalesce ("o"#"get_tick_id") (N 0))].
(** A UNION of reads is one query. *)
Definition ask_all (qs : list select) : txn (list row) :=
  query (fun db => match omap (select_gap db) qs with
                   | n :: l => Fail (DbError (Some (if bool_decide (NO_TABLE ∈ n :: l) then NO_TABLE else n)) None)
                   | [] => Done (db, flat_map (answer db) qs)
                   end).
Definition same_pair (p q : Z * Z) : bool := bool_decide (p = q) || bool_decide (p = (q.2, q.1)).
Definition add_pair (l : list (Z * Z)) (p : Z * Z) : list (Z * Z) := if existsb (same_pair p) l then l else l ++ [p].
Definition row_pair (r : row) : Z * Z := (int_cell r "tick1_id", int_cell r "tick2_id").
Definition affectedMarketPairs (first : Z) : txn (list (Z * Z)) :=
  catch (do! l := ask_all (map (fun t => Select [(t, "o")] ("o"#"action_index" >== N first) pair_columns) ["orders"; "order_matches"]) in
         tret (fold_left add_pair (map row_pair l) []))
        (fun e => if isSchemaGapError e then tret [] else throw e).

(** ** In-place resets *)
Definition deleteEmissions (first : Z) : stmt :=
  Delete "contract_emissions" "m" []
    (InQ ("m"#"execution_index") [("contract_executions", "x")] ("x"#"action_index" >== N first) ("x"#"action_index")) None.

Definition resetAttests (b : Z) : stmt :=
  Update "attests" "t" [] [("request_status", S_ "pending"); ("resolved_block", NULL)]
    (("t"#"version" == N 0) AND InL ("t"#"request_status") ["fulfilled"; "errored"; "expired"] AND ("t"#"resolved_block" >== N b)).
Definition resetXcalls (b : Z) : stmt :=
  Update "xcalls" "t" [] [("request_status", S_ "pending"); ("result_status", NULL); ("result_payload", NULL); ("resolved_block", NULL); ("callback_action_index", NULL)]
    (("t"#"version" == N 0) AND InL ("t"#"request_status") ["completed"; "expired"] AND ("t"#"resolved_block" >== N b)).
Definition reopenPolls (b : Z) : stmt :=
  Update "polls" "t" []
    [("poll_status", S_ "open"); ("winning_option", NULL); ("total_weight", NULL); ("total_voters", NULL); ("quorum_met", NULL);
     ("min_voters_met", NULL); ("fail_reason", NULL); ("decided_early", NULL); ("effective_close_block", NULL);
     ("finalized_action_index", NULL); ("resolved_block", NULL); ("deposit_resolved", NULL); ("callback_execute_action_index", NULL);
     ("callback_due_block", NULL)]
    (InL ("t"#"poll_status") ["finalized"; "failed_quorum"] AND ("t"#"resolved_block" >== N b)).
Definition rearmPollCallbacks (b : Z) : stmt :=
  Update "polls" "t" [] [("callback_execute_action_index", NULL)]
    (InL ("t"#"poll_status") ["finalized"; "failed_quorum"] AND ("t"#"callback_due_block" >== N b) AND IsNotNull ("t"#"callback_execute_action_index")).

Definition reopenFeedsToClosed (b : Z) : stmt :=
  Update "bet_feeds" "f" [("index_statuses", "cs")] [("feed_status_id", "cs"#"id"); ("terminal_block", NULL)]
    (("cs"#"status" == S_ "closed") AND ("f"#"terminal_block" >== N b) AND IsNotNull ("f"#"closed_block") AND ("f"#"closed_block" << N b)).
Definition reopenFeedsToOpen (b : Z) : stmt :=
  Update "bet_feeds" "f" [("index_statuses", "os")] [("feed_status_id", "os"#"id"); ("terminal_block", NULL)]
    (("os"#"status" == S_ "open") AND ("f"#"terminal_block" >== N b) AND (IsNull ("f"#"closed_block") OR ("f"#"closed_block" >== N b))).
Definition clearFeedLatches (b : Z) : stmt :=
  Update "bet_feeds" "f" [("index_statuses", "os")] [("feed_status_id", "os"#"id"); ("closed_block", NULL)]
    (("os"#"status" == S_ "open") AND ("f"#"closed_block" >== N b)).
Definition reopenBets (b : Z) : stmt :=
  Update "bets" "b" [("index_statuses", "os")] [("bet_status_id", "os"#"id"); ("settled_block", NULL)]
    (("os"#"status" == S_ "open") AND ("b"#"settled_block" >== N b)).

(** The orphaned debit with the highest [prev_amount]; ties go to the earliest. *)
Definition restoreContractSlash (t : string) (b : Z) : stmt :=
  Update t "t" [("contract_slash_debits", "d")] [("amount", "d"#"prev_amount")]
    (("d"#"stake_action_index" == "t"#"action_index") AND ("d"#"target_table" == S_ t) AND ("d"#"block_index" >== N b)
     AND Not (ExistsQ [("contract_slash_debits", "e")]
       (("e"#"target_table" == "d"#"target_table") AND ("e"#"stake_action_index" == "d"#"stake_action_index") AND ("e"#"block_index" >== N b)
        AND ((Decimal ("e"#"prev_amount") >> Decimal ("d"#"prev_amount"))
             OR ((Decimal ("e"#"prev_amount") == Decimal ("d"#"prev_amount"))
                 AND (("e"#"block_index" << "d"#"block_index")
                      OR (("e"#"block_index" == "d"#"block_index")
                          AND (("e"#"execution_index" << "d"#"execution_index")
                               OR (("e"#"execution_index" == "d"#"execution_index") AND ("e"#"slash_position" << "d"#"slash_position")))))))))).
Definition restoreRotations (t : string) (b : Z) : stmt :=
  Update t "t" [("contract_delegation_rotations", "r")] [("signing_pubkey_id", "r"#"prev_signing_pubkey_id")]
    (("r"#"stake_action_index" == "t"#"action_index") AND ("r"#"target_table" == S_ t) AND ("r"#"block_index" >== N b)
     AND Not (ExistsQ [("contract_delegation_rotations", "e")]
       (("e"#"target_table" == "r"#"target_table") AND ("e"#"stake_action_index" == "r"#"stake_action_index") AND ("e"#"block_index" >== N b)
        AND (("e"#"block_index" << "r"#"block_index")
             OR (("e"#"block_index" == "r"#"block_index") AND ("e"#"delegation_action_index" << "r"#"delegation_action_index")))))).
Definition restoreCapabilitySlash (t : string) (b : Z) : stmt :=
  Update t "t" [("capability_slash_debits", "d")] [("amount", "d"#"prev_amount")]
    (("d"#"stake_action_index" == "t"#"action_index") AND ("d"#"target_table" == S_ t) AND ("d"#"block_index" >== N b)
     AND Not (ExistsQ [("capability_slash_debits", "e")]
       (("e"#"target_table" == "d"#"target_table") AND ("e"#"stake_action_index" == "d"#"stake_action_index") AND ("e"#"block_index" >== N b)
        AND (("e"#"block_index" << "d"#"block_index")
             OR (("e"#"block_index" == "d"#"block_index") AND ("e"#"slash_action_index" << "d"#"slash_action_index")))))).

Definition reactivateStakes (b delay : Z) : stmt :=
  Update "stakes" "s" [("unstakes", "u")] [("deactivation_block", NULL)]
    (("u"#"signing_pubkey_id" == "s"#"signing_pubkey_id") AND ("u"#"block_index" >== N b) AND IsNotNull ("s"#"deactivation_block")
     AND ("s"#"deactivation_block" == Plus ("u"#"block_index") (N delay))).
Definition reactivateByThreshold (t : string) (b delay : Z) : stmt :=
  Update t "t" [] [("deactivation_block", NULL)]
    (IsNotNull ("t"#"deactivation_block") AND ("t"#"deactivation_block" >== N (b + delay))).
Definition reactivateContractStakes (b delay : Z) : stmt :=
  Update "contract_stakes" "cs" [("contract_unstakes", "cu")] [("deactivation_block", NULL)]
    (("cu"#"source_id" == "cs"#"source_id") AND ("cu"#"target_contract_index" == "cs"#"target_contract_index") AND ("cu"#"tick_id" == "cs"#"tick_id")
     AND ("cu"#"block_index" >== N b) AND IsNotNull ("cs"#"deactivation_block")
     AND ("cs"#"deactivation_block" == Plus ("cu"#"block_index") (N delay))).

(** Each reset has its own try; the four bet statements share one. *)
Definition resetStamps (b : Z) : txn unit :=
  catch_gap (run_stmt (resetAttests b)) ;!
  catch_gap (run_stmt (resetXcalls b)) ;!
  catch_gap (run_stmt (reopenPolls b)) ;!
  catch_gap (run_stmt (rearmPollCallbacks b)) ;!
  catch_gap (run_stmt (reopenFeedsToClosed b) ;! run_stmt (reopenFeedsToOpen b) ;! run_stmt (clearFeedLatches b) ;! run_stmt (reopenBets b)).
Definition restoreJournals (b : Z) : txn unit :=
  each ["contract_stakes"; "contract_unstakes"] (fun t => catch_gap (run_stmt (restoreContractSlash t b))) ;!
  each ["contract_stakes"; "contract_unstakes"] (fun t => catch_gap (run_stmt (restoreRotations t b))) ;!
  each ["stakes"; "unstakes"] (fun t => catch_gap (run_stmt (restoreCapabilitySlash t b))).
Definition reactivate (c : rollback_client) (b : Z) : txn unit :=
  match activationDelay c with
  | None => tret tt
  | Some delay =>
      catch_gap (run_stmt (reactivateStakes b delay)) ;!
      catch_gap (run_stmt (reactivateByThreshold "delegations" b delay)) ;!
      catch_gap (run_stmt (reactivateContractStakes b delay)) ;!
      catch_gap (run_stmt (reactivateByThreshold "contract_delegations" b delay))
  end.

(** The rewards an orphaned reconcile deleted, whose earn block and materialization block
    survive. *)
Definition reward_unique : list string := ["source_id"; "signing_pubkey_id"; "reward_type"; "round_reference"; "round_qualifier"].
Definition restoreRewards (b : Z) : stmt :=
  InsertIgnore "validator_rewards" reward_unique [("anchor_reward_reconcile_log", "d")]
    (("d"#"block_index" >== N b) AND ("d"#"reward_block_index" << N b)
     AND (IsNull ("d"#"reward_derive_block_index") OR ("d"#"reward_derive_block_index" << N b)))
    [("source_id", "d"#"source_id"); ("signing_pubkey_id", "d"#"signing_pubkey_id"); ("reward_type", "d"#"reward_type");
     ("round_reference", "d"#"round_reference"); ("round_qualifier", "d"#"round_qualifier"); ("amount", "d"#"amount");
     ("block_index", "d"#"reward_block_index"); ("derive_block_index", "d"#"reward_derive_block_index")].

(** ** Cooldown maturities *)
Definition MATURITY_ESCROW_REVERSAL_KEY : string := "cooldown_maturity_escrow_reversal_activation.COOLDOWN_MATURITY_ESCROW_REVERSAL_ACTIVATION".

Definition matured (u : string) (done b : Z) : cond :=
  (u#"status_id" == N done) AND (u#"cooldown_end_block" >== N b) AND (u#"block_index" << N b).
Definition capabilityLedger (t gas : string) (done b : Z) (w : cond) : stmt :=
  Delete t "c" [("unstakes", "u"); ("index_tickers", "g")]
    (("u"#"action_index" == "c"#"action_index") AND ("u"#"source_id" == "c"#"address_id") AND ("g"#"id" == "c"#"tick_id")
     AND ("g"#"tick" == S_ gas) AND matured "u" done b AND w) None.
Definition contractLedger (t : string) (done b : Z) (w : cond) : stmt :=
  Delete t "c" [("contract_unstakes", "cu")]
    (("cu"#"action_index" == "c"#"action_index") AND ("cu"#"source_id" == "c"#"address_id") AND ("cu"#"tick_id" == "c"#"tick_id")
     AND matured "cu" done b AND w) None.
Definition released : cond := Decimal ("c"#"amount") << N 0.
Definition deleteCapabilityMaturityLedgerRows (gas : string) (done b : Z) (deleteReleases : bool) : txn unit :=
  run_stmt (capabilityLedger "credits" gas done b TRUE) ;!
  if deleteReleases then run_stmt (capabilityLedger "escrows" gas done b released) else tret tt.
Definition deleteContractMaturityLedgerRows (done b : Z) (deleteReleases : bool) : txn unit :=
  run_stmt (contractLedger "credits" done b TRUE) ;!
  if deleteReleases then run_stmt (contractLedger "escrows" done b released) else tret tt.
Definition reopenUnstakes (t : string) (valid done b : Z) : stmt :=
  Update t "u" [] [("status_id", N valid)] (matured "u" done b).

Definition getStatusId (status : string) : txn (option Z) :=
  do! l := ask (Select [("index_statuses", "s")] ("s"#"status" == S_ status) [("id", "s"#"id")]) in
  tret (head (ints l "id")).
(** A gate that throws is an error without an [errno]. *)
Definition lift_gate {A} (r : result A) : txn A := match r with Ok a => tret a | Throw _ => throw (DbError None None) end.
Definition coin_js (c : rollback_client) : jsval := match coin c with Some s => JStr s | None => JUndef end.
Definition reverseCooldownMaturities (c : rollback_client) (b : Z) : txn unit :=
  catch_gap (
    do! completed := getStatusId "completed" in
    do! valid := getStatusId "valid" in
    match completed, valid with
    | Some done, Some valid =>
        do! deleteReleases := lift_gate (activeAt MATURITY_ESCROW_REVERSAL_KEY (JStr (network c)) (coin_js c) (JInt b) JNull (gates c)) in
        (if bool_decide (gas_tick c = "") then tret tt else deleteCapabilityMaturityLedgerRows (gas_tick c) done b deleteReleases) ;!
        deleteContractMaturityLedgerRows done b deleteReleases ;!
        run_stmt (reopenUnstakes "unstakes" valid done b) ;!
        run_stmt (reopenUnstakes "contract_unstakes" valid done b)
    | _, _ => tret tt
    end).

(** ** Archive and batch heads *)
Definition FOLD_GATE : string := "anchor_fold_activation.ANCHOR_FOLD_ACTIVATION".
Definition UNARMED_HEIGHT : Z := 9999999999.
Definition foldArchiveHeadFloor (c : rollback_client) (coin : string) : result Z :=
  let! t := get FOLD_GATE (gates c) in
  let floor := match own t (coin +:+ ":" +:+ network c) with
               | Some v => Some v
               | None => own t (network c)
               end in
  Ok (match floor with Some (GNum z) => z | _ => UNARMED_HEIGHT end).
Definition archiveHeadPickPredicate (a : string) (floor : Z) : cond :=
  IsNotNull (a#"match_batch_seq") AND ((a#"version" == N 1)
    OR ((a#"version" == N 3) AND IsNull (a#"chain") AND (a#"block_index_doge" >== N floor))).
Definition archiveHeadPredicate (a : string) : cond := IsNotNull (a#"match_batch_seq") AND (a#"version" <<>> N 2).
(** ARCHIVE_AUTHOR_SCOPE_JOIN_SQL *)
Definition author_joins : from := [("actions", "pact"); ("index_addresses", "padr"); ("actions", "cact"); ("index_addresses", "cadr")].
Definition author_cond : cond :=
  ("pact"#"action_index" == "p"#"action_index") AND ("padr"#"id" == "pact"#"source_id") AND ("cact"#"action_index" == "c"#"action_index")
  AND ("cadr"#"id" == "cact"#"source_id") AND ("cadr"#"address" == "padr"#"address").
Definition restoreArchiveHeads (scoped : bool) (floor first : Z) : stmt :=
  Update "anchor_actions" "p"
    ([("index_statuses", "ps"); ("anchor_actions", "c"); ("index_statuses", "cs")] ++ (if scoped then author_joins else []) ++ [("index_statuses", "us")])
    [("status_id", Coalesce ("p"#"pre_archive_status_id") ("us"#"id")); ("pre_archive_status_id", NULL)]
    (("ps"#"id" == "p"#"status_id") AND ("ps"#"status" == S_ "invalid_archive") AND ("c"#"version" == N 2)
     AND ("c"#"match_batch_seq" == "p"#"match_batch_seq") AND ("c"#"action_index" >== N first)
     AND ("cs"#"id" == "c"#"status_id") AND ("cs"#"status" == S_ "valid") AND (if scoped then author_cond else TRUE)
     AND ("us"#"status" == S_ "unverified") AND archiveHeadPickPredicate "p" floor AND ("p"#"action_index" << N first) AND archiveHeadPredicate "p").
Definition resetArchiveHeads (c : rollback_client) (b first : Z) : txn unit :=
  catch_gap (
    do! floor := lift_gate (foldArchiveHeadFloor c "DOGE") in
    run_stmt (restoreArchiveHeads (isArchiveRollbackAuthorScopeActive (author_scope_table c) (JInt b) (network c)) floor first)).

Definition ATTEST_BATCH_HEAD_VERSION : Z := 5.
Definition ATTEST_BATCH_CONTINUATION_VERSION : Z := 6.
Definition ATTEST_BATCH_COMPLETION_STAMP : string := " (stamped on batch completion)".
Definition restoreBatchHeads (first : Z) : stmt :=
  Update "attests" "p"
    [("index_statuses", "ps"); ("actions", "pa"); ("attests", "c"); ("index_statuses", "cs"); ("actions", "ca"); ("index_statuses", "vs")]
    [("status_id", "vs"#"id")]
    (("ps"#"id" == "p"#"status_id") AND EndsWith ("ps"#"status") ATTEST_BATCH_COMPLETION_STAMP AND ("pa"#"action_index" == "p"#"action_index")
     AND ("c"#"request_id" == "p"#"request_id") AND ("c"#"version" == N ATTEST_BATCH_CONTINUATION_VERSION)
     AND IsNotNull ("c"#"batch_chunk_index") AND ("c"#"action_index" >== N first)
     AND ("c"#"batch_total_chunks" == "p"#"batch_total_chunks") AND ("c"#"batch_crc32" == "p"#"batch_crc32")
     AND ("cs"#"id" == "c"#"status_id") AND ("cs"#"status" == S_ "valid") AND ("ca"#"action_index" == "c"#"action_index")
     AND ("ca"#"source_id" == "pa"#"source_id") AND ("vs"#"status" == S_ "valid")
     AND ("p"#"version" == N ATTEST_BATCH_HEAD_VERSION) AND ("p"#"batch_chunk_index" == N 0) AND ("p"#"action_index" << N first)).

(** ** Re-derivations *)
Record offer_kind := OfferKind { o_table : string; o_statuses : string; o_key : string }.
Definition OFFERS : list offer_kind :=
  [OfferKind "orders" "order_statuses" "order_action_index"; OfferKind "swaps" "swap_statuses" "swap_action_index";
   OfferKind "dispensers" "dispenser_statuses" "dispenser_action_index"].
Definition offer_from (o : offer_kind) : from := [(o_table o, "o"); (o_statuses o, "st"); ("index_statuses", "si")].
(** An ownership offer whose latest status still holds the token. *)
Definition still_escrowed (o : offer_kind) : cond :=
  ("st"#(o_key o) == "o"#"action_index") AND ("si"#"id" == "st"#"status_id") AND ("o"#"give_ownership" == N 1)
  AND ("st"#"action_index" == MaxOf [(o_statuses o, "x")] ("x"#(o_key o) == "o"#"action_index") ("x"#"action_index"))
  AND InL ("si"#"status") ["open"; "cancelling"; "expiring"].
Definition escrowAffectedTickers : list select :=
  [Select [("tokens", "t"); ("index_tickers", "tk")] (("tk"#"id" == "t"#"tick_id") AND IsNotNull ("t"#"escrow_action_index")) [("tick", "tk"#"tick")];
   Select [("index_tickers", "tk")]
     (fold_right (fun o p => Or (InQ ("tk"#"id") (offer_from o) (still_escrowed o) ("o"#"give_tick_id")) p) (Not TRUE) OFFERS)
     [("tick", "tk"#"tick")]].
Definition escrowOpenOffer (tick : value) : list select :=
  map (fun o => Select (offer_from o ++ [("index_tickers", "tk")])
                  (still_escrowed o AND ("tk"#"id" == "o"#"give_tick_id") AND ("tk"#"tick" == Lit tick)) [("action_index", "o"#"action_index")]) OFFERS.
Definition setEscrow (tick : value) (offer : option Z) : stmt :=
  Update "tokens" "t" [] [("escrow_action_index", match offer with Some z => N z | None => NULL end)]
    ("t"#"tick_id" == Pick [("index_tickers", "k")] ("k"#"tick" == Lit tick) ("k"#"id")).
Definition rederiveEscrowGate : txn unit :=
  do! tickers := ask_all escrowAffectedTickers in
  each (remove_dups (map (fun r => cell r "tick") tickers)) (fun tick =>
    do! offers := ask_all (escrowOpenOffer tick) in
    run_stmt (setEscrow tick (min_int (ints offers "action_index")))).

Definition status_id (s : string) : expr := Pick [("index_statuses", "is")] ("is"#"status" == S_ s) ("is"#"id").
Definition settled : cond :=
  InQ ("m"#"action_index") [("coinpay_statuses", "cs"); ("index_statuses", "si")]
    (("si"#"id" == "cs"#"status_id") AND ("si"#"status" == S_ "fulfilled") AND IsNotNull ("cs"#"coinpay_action_index")) ("cs"#"coinpay_action_index").
Definition moveMatches (src dst : string) (w : cond) : stmt :=
  Update "order_matches" "m" [] [("status_id", status_id dst)]
    (("m"#"settlement_type" == S_ "coinpay") AND IsNotNull (status_id dst) AND ("m"#"status_id" == status_id src) AND w).
Definition rederiveCoinpayMatchStatus : txn unit :=
  run_stmt (moveMatches "valid" "pending_coinpay" (Not settled)) ;! run_stmt (moveMatches "pending_coinpay" "valid" settled).

Definition clearBridged : stmt :=
  Update "tokens" "tokens" [] [("bridged", N 0)]
    (("tokens"#"bridged" == N 1) AND Not (ExistsQ [("xbridges", "x"); ("index_statuses", "s")]
       (("s"#"id" == "x"#"status_id") AND ("x"#"tick_id" == "tokens"#"tick_id") AND ("x"#"version" == N 3) AND ("s"#"status" == S_ "valid")))).
Definition rederiveTokenBridged : txn unit := run_stmt clearBridged.

(** ** Deletes and sweeps *)
Definition deleteFrom (t c : string) (z : Z) : stmt := Delete t "t" [] ("t"#c >== N z) None.
Definition deleteLoop (tables : list string) (c : string) (z : Z) : txn unit :=
  each tables (fun t => catch_gap (run_stmt (deleteFrom t c z))).
Definition rederiveAfterDelete (truncatedReplica : bool) : txn unit :=
  catch_gap rederiveEscrowGate ;!
  (if truncatedReplica then tret tt else catch_gap rederiveTokenBridged) ;!
  (if truncatedReplica then tret tt else catch_gap rederiveCoinpayMatchStatus).

Definition sweepIcons : stmt := Delete "icons" "t" [] (Not (InQ ("t"#"token_id") [("tokens", "k")] TRUE ("k"#"id"))) None.

Definition MARKET_NATIVE_TICK_ID : Z := 0.
Definition readSurvivingMaxId (t : string) : txn Z :=
  do! l := ask (Select [(t, "t")] TRUE [("id", "t"#"id")]) in
  tret (match ints l "id" with [] => 0 | z :: l' => fold_left Z.max l' z end).
Definition dangling (c : string) (tickerMax : Z) : cond :=
  ("m"#c <<>> N MARKET_NATIVE_TICK_ID) AND ("m"#c >> N tickerMax) AND Not (InQ ("m"#c) [("index_tickers", "k")] TRUE ("k"#"id")).
Definition sweepMarkets : txn unit :=
  do! tickerMax := readSurvivingMaxId "index_tickers" in
  run_stmt (Delete "markets" "m" [] (dangling "tick1_id" tickerMax OR dangling "tick2_id" tickerMax) None).

(** [(col = ? OR (col IS NULL AND ? = 0))] *)
Definition side (c : string) (z : Z) : cond := ("o"#c == N z) OR (IsNull ("o"#c) AND (N z == N 0)).
Definition traded (a b : Z) : cond :=
  (side "give_tick_id" a AND side "get_tick_id" b) OR (side "give_tick_id" b AND side "get_tick_id" a).
Definition survives (t : string) (a b : Z) : txn bool :=
  do! l := ask (Select [(t, "o")] (traded a b) []) in tret (negb (bool_decide (l = []))).
Definition deleteMarket (a b : Z) : stmt :=
  Delete "markets" "m" [] ((("m"#"tick1_id" == N a) AND ("m"#"tick2_id" == N b)) OR (("m"#"tick1_id" == N b) AND ("m"#"tick2_id" == N a))) None.
Definition sweepPair (p : Z * Z) : txn unit :=
  do! o := survives "orders" p.1 p.2 in
  do! m := (if o then tret true else survives "order_matches" p.1 p.2) in
  if m then tret tt else run_stmt (deleteMarket p.1 p.2).
Definition sweepPubkeys : txn unit :=
  do! addressMax := readSurvivingMaxId "index_addresses" in
  run_stmt (Delete "pubkeys" "t" [] (("t"#"address_id" >> N addressMax) AND Not (InQ ("t"#"address_id") [("index_addresses", "k")] TRUE ("k"#"id"))) None).

(** ** The price snapshot purge *)
Definition PRICE_SNAPSHOT_PURGE_CHUNK : nat := 1000.
Definition PRICE_SNAPSHOT_PURGE_TIMEOUT_RETRIES : nat := 3.
Definition isStatementTimeout (e : dberror) : bool :=
  bool_decide (errno e = Some 1969 \/ errno e = Some 3024 \/ code e = Some "ER_STATEMENT_TIMEOUT" \/ code e = Some "ER_QUERY_TIMEOUT").
Definition orphanedSnapshots (b : Z) : cond := ("t"#"reference_chain" == S_ "BTC") AND ("t"#"reference_block" >== N b).
Definition purgeChunk (b : Z) (chunk : nat) : stmt := Delete "price_snapshots" "t" [] (orphanedSnapshots b) (Some chunk).
Definition OUT_OF_FUEL : dberror := DbError (Some (-1)) None.
Fixpoint purge (fuel : nat) (b : Z) (chunk timeouts : nat) : txn unit :=
  match fuel with
  | O => throw OUT_OF_FUEL
  | S fuel =>
      do! r := catch (do! n := exec (purgeChunk b chunk) in tret (inl n))
                     (fun e => if isStatementTimeout e && (timeouts <? PRICE_SNAPSHOT_PURGE_TIMEOUT_RETRIES)%nat then tret (inr tt) else throw e) in
      match r with
      | inr _ => purge fuel b (Nat.max 1 (chunk / 2)) (S timeouts)
      | inl n => if n <? Z.of_nat chunk then tret tt else purge fuel b chunk 0
      end
  end.
(** Every fourth query removes a row, so the rows bound the queries. *)
Definition purgeOrphanedPriceSnapshots (b : Z) : txn unit :=
  fun f s => purge (4 * (length (rows_of (data s) "price_snapshots") + 1)) b PRICE_SNAPSHOT_PURGE_CHUNK 0 f s.

Definition repairEvictions (b delay : Z) : stmt :=
  Update "delegations" "d" [("rollcall_absences", "ra")] [("deactivation_block", NULL)]
    (("ra"#"source_id" == "d"#"source_id") AND ("ra"#"evicted" == N 1) AND ("ra"#"close_block" >== N b)
     AND IsNotNull ("d"#"deactivation_block") AND ("d"#"deactivation_block" == Plus ("ra"#"close_block") (N delay))).
(** An omitted coin binds NULL, which no row equals. *)
Definition coin_value (c : rollback_client) : value := match coin c with Some s => Text s | None => Null end.
Definition deleteChainFrom (t chain_col col : string) (chain : value) (z : Z) : stmt :=
  Delete t "t" [] (("t"#chain_col == Lit chain) AND ("t"#col >== N z)) None.
Definition deleteMatches (chain : value) (z : Z) : stmt :=
  Delete "cross_chain_matches" "t" []
    ((("t"#"a_chain" == Lit chain) AND ("t"#"a_action_index" >== N z)) OR (("t"#"b_chain" == Lit chain) AND ("t"#"b_action_index" >== N z))) None.

(** ** The indexer rollback *)
Definition when_first (first : option Z) (k : Z -> txn unit) : txn unit := match first with Some z => k z | None => tret tt end.

(** Up to the generic deletes. *)
Definition undoInPlace (c : rollback_client) (b : Z) (first : option Z) : txn unit :=
  when_first first (fun z => catch_missing (run_stmt (deleteEmissions z))) ;!
  resetStamps b ;!
  restoreJournals b ;!
  reactivate c b ;!
  catch_gap (run_stmt (restoreRewards b)) ;!
  reverseCooldownMaturities c b ;!
  when_first first (resetArchiveHeads c b) ;!
  when_first first (fun z => catch_gap (run_stmt (restoreBatchHeads z))).

Definition collectTicks (first : option Z) : txn (list value) :=
  match first with
  | Some z => catch (collectRefoldTickIds z (dataTables replicaRollbackTables)) (fun e => if isSchemaGapError e then tret [] else throw e)
  | None => tret []
  end.

Definition deleteOrphans (b : Z) (first : option Z) (truncatedReplica : bool) : txn unit :=
  when_first first (fun z =>
    deleteLoop (dataTables replicaRollbackTables) "action_index" z ;!
    rederiveAfterDelete truncatedReplica) ;!
  catch_missing (run_stmt sweepIcons) ;!
  deleteLoop (blockTables replicaRollbackTables) "block_index" b ;!
  catch_gap (run_stmt (deleteFrom "validator_rewards" "derive_block_index" b)) ;!
  deleteLoop (indexTables replicaRollbackTables) "block_index" b.

Definition sweep (c : rollback_client) (b : Z) (first : option Z) (pairs : list (Z * Z)) : txn unit :=
  catch_gap sweepMarkets ;!
  catch_gap (each pairs sweepPair) ;!
  catch_gap sweepPubkeys ;!
  catch_gap (if bool_decide (coin c = Some "BTC") then purgeOrphanedPriceSnapshots b else tret tt) ;!
  match activationDelay c with Some delay => catch_gap (run_stmt (repairEvictions b delay)) | None => tret tt end ;!
  deleteLoop ["rollcall_gates"; "rollcall_absences"; "rollcalls"] "close_block" b ;!
  when_first first (fun z => catch_gap (run_stmt (deleteChainFrom "oracle_prices" "source_chain" "action_index" (coin_value c) z))) ;!
  when_first first (fun z => catch_gap (
    run_stmt (deleteChainFrom "cross_chain_calls" "source_chain" "source_action_index" (coin_value c) z) ;!
    run_stmt (deleteMatches (coin_value c) z) ;!
    run_stmt (deleteChainFrom "bridge_transfers" "src_chain" "src_action_index" (coin_value c) z))) ;!
  catch_gap (run_stmt (deleteFrom "sync_meta" "block_index" b)) ;!
  catch_gap (run_stmt (deleteFrom "merkle_epochs" "end_block" b)) ;!
  catch_gap (run_stmt (deleteFrom "attest_validator_stats" "last_updated_block" b)).

Definition recompute (ticks : list value) : txn unit :=
  catch_missing (rebuildBalances None) ;!
  catch_gap (refoldTokenRows ticks) ;!
  catch_missing recomputeTokenSupplies.

(** The statements between BEGIN and COMMIT. *)
Definition indexerBody (c : rollback_client) (b : Z) (first : option Z) (truncatedReplica : bool) (pairs : list (Z * Z)) : txn unit :=
  undoInPlace c b first ;!
  do! ticks := collectTicks first in
  deleteOrphans b first truncatedReplica ;!
  sweep c b first pairs ;!
  recompute ticks.

(** The reads before BEGIN, each of which rethrows. *)
Definition indexerReads (b : Z) : txn (option Z * bool * list (Z * Z)) :=
  do! first := getFirstActionIndex b in
  do! base := getSyncState "bootstrap_base:indexer" in
  let truncatedReplica := truncated base in
  do! pairs := match first with
               | Some z => if truncatedReplica then tret [] else affectedMarketPairs z
               | None => tret []
               end in
  tret (first, truncatedReplica, pairs).

(** ** The decoder rollback *)
Definition decoderBlockTables : list string := rev (blockScoped decoderTopology).
Definition decoderTxScopedTables : list string := txScoped decoderTopology.
Definition deleteTxScoped (t : string) (ids : list Z) : stmt :=
  Delete t "t" [] (in_ids ("t"#"tx_index") (map Int ids)) None.
Definition decoderBody (b : Z) : txn unit :=
  do! l := ask (Select [("transactions", "t")] ("t"#"block_index" >== N b) [("tx_index", "t"#"tx_index")]) in
  let ids := ints l "tx_index" in
  (if bool_decide (ids = []) then tret tt
   else each decoderTxScopedTables (fun t => catch_gap (run_stmt (deleteTxScoped t ids)))) ;!
  each decoderBlockTables (fun t => run_stmt (deleteFrom t "block_index" b)).

(** ** Transactions *)
Record replica := Replica { committed : database; queries : nat }.
(** BEGIN, and a COMMIT that may fail after it landed. *)
Definition in_transaction (body : txn unit) (landed : nat -> bool) (f : schedule) (r : replica) : replica * outcome unit :=
  let n := queries r in
  match f n with
  | Some e => (Replica (committed r) (S n), Fail e)
  | None =>
      match body f (Session (committed r) (S n)) with
      | (s, Fail e) => (Replica (committed r) (sent s), Fail e)
      | (s, Done _) =>
          match f (sent s) with
          | Some e => (Replica (if landed (sent s) then data s else committed r) (S (sent s)), Fail e)
          | None => (Replica (data s) (S (sent s)), Done tt)
          end
      end
  end.
Definition rollbackIndexer (c : rollback_client) (b : Z) (landed : nat -> bool) (f : schedule) (r : replica) : replica * outcome unit :=
  match indexerReads b f (Session (committed r) (queries r)) with
  | (s, Fail e) => (Replica (data s) (sent s), Fail e)
  | (s, Done (first, truncatedReplica, pairs)) =>
      in_transaction (indexerBody c b first truncatedReplica pairs) landed f (Replica (data s) (sent s))
  end.
Definition rollbackDecoder (b : Z) (landed : nat -> bool) (f : schedule) (r : replica) : replica * outcome unit :=
  in_transaction (decoderBody b) landed f r.
Inductive db_type := IndexerDb | DecoderDb.
Definition rollback (t : db_type) (c : rollback_client) (b : Z) : (nat -> bool) -> schedule -> replica -> replica * outcome unit :=
  match t with DecoderDb => rollbackDecoder b | IndexerDb => rollbackIndexer c b end.
End Program.
