(* ===== verification/RollbackAtomic.v ===== *)
(** * RollbackAtomic: a rollback is all or nothing

    Every query of a rollback may fail.  A step that fails with anything but a schema gap
    aborts the transaction, so the tables end as they were or as the undisturbed rollback
    leaves them.  [faithful m] is that statement for a part of the program, closed under
    the program's own combinators; the chunked purge, which retries timeouts, is shown to
    delete the same rows whatever its chunks. *)

From S2P Require Import Prelude Sha256 JsText JsNumber JsMap Primitives GateRegistry Gates FollowerRoots Sql TableLifecycle TokenRefold Balances Rollback.

#[local] Open Scope Z_scope.

Definition faultless : schedule := fun _ => None.
(** Missing tables and columns are facts of the schema, not faults of the connection. *)
Definition benign (f : schedule) : Prop := forall n e, f n = Some e -> isSchemaGapError e = false.
Lemma faultless_benign : benign faultless.
Proof. done. Qed.

Definition same_run {A} (x y : session * outcome A) : Prop := data x.1 = data y.1 /\ x.2 = y.2.
Definition aborts {A} (x : session * outcome A) : Prop := exists e, x.2 = Fail e /\ isSchemaGapError e = false.

Definition faithful {A} (m : txn A) : Prop :=
  (forall db n n', same_run (m faultless (Session db n)) (m faultless (Session db n')))
  /\ (forall f db n, benign f -> aborts (m f (Session db n)) \/ same_run (m f (Session db n)) (m faultless (Session db n))).

Create HintDb faithful discriminated.
#[export] Hint Constants Opaque : faithful.

Lemma same_run_trans {A} (x y z : session * outcome A) : same_run x y -> same_run y z -> same_run x z.
Proof. intros [? ?] [? ?]. split; congruence. Qed.

Lemma session_eta s : s = Session (data s) (sent s).
Proof. by destruct s. Qed.

Lemma faithful_ret {A} (a : A) : faithful (tret a).
Proof. split; [done|]. intros f db n _. by right. Qed.
Lemma faithful_throw {A} e : faithful (throw (A := A) e).
Proof. split; [done|]. intros f db n _. by right. Qed.

Lemma faithful_query {A} (w : database -> outcome (database * A)) : faithful (query w).
Proof.
  split.
  - intros db n n'. unfold query, faultless. cbn. by destruct (w db) as [[? ?]|?].
  - intros f db n Hf. unfold query, faultless. cbn [sent data]. destruct (f n) as [e|] eqn:E; [left; by exists e; eauto|right].
    by destruct (w db) as [[? ?]|?].
Qed.

Lemma faithful_bind {A B} (m : txn A) (k : A -> txn B) : faithful m -> (forall a, faithful (k a)) -> faithful (tbind m k).
Proof.
  intros [Hm0 Hm] Hk. split.
  - intros db n n'. unfold tbind. pose proof (Hm0 db n n') as Hs.
    destruct (m faultless (Session db n)) as [s [a|e]], (m faultless (Session db n')) as [s' [a'|e']]; destruct Hs as [Hd He]; cbn in *; try done.
    + simplify_eq. rewrite (session_eta s), (session_eta s'), Hd. apply (Hk a').
    + split; cbn; congruence.
  - intros f db n Hf. unfold tbind. destruct (Hm f db n Hf) as [(e & He & Hg)|Hs].
    { left. exists e. destruct (m f (Session db n)) as [s [a|e']]; cbn in *; [done|]. by simplify_eq. }
    destruct (m f (Session db n)) as [s [a|e]], (m faultless (Session db n)) as [s' [a'|e']]; destruct Hs as [Hd He]; cbn in *; try done.
    + simplify_eq. rewrite (session_eta s), (session_eta s'), Hd. destruct (Hk a') as [Hk0 Hk1].
      destruct (Hk1 f (data s') (sent s) Hf) as [?|Hs]; [by left|right]. by eapply same_run_trans.
    + right. split; cbn; congruence.
Qed.

Lemma faithful_catch {A} (m : txn A) (h : dberror -> txn A) :
  faithful m -> (forall e, faithful (h e)) -> (forall e, isSchemaGapError e = false -> h e = throw e) -> faithful (catch m h).
Proof.
  intros [Hm0 Hm] Hh Hthrow. split.
  - intros db n n'. unfold catch. pose proof (Hm0 db n n') as Hs.
    destruct (m faultless (Session db n)) as [s [a|e]], (m faultless (Session db n')) as [s' [a'|e']]; destruct Hs as [Hd He]; cbn in *; try done.
    simplify_eq. rewrite (session_eta s), (session_eta s'), Hd. apply (Hh e').
  - intros f db n Hf. unfold catch. destruct (Hm f db n Hf) as [(e & He & Hg)|Hs].
    { left. exists e. destruct (m f (Session db n)) as [s [a|e']]; cbn in *; [done|]. simplify_eq. by rewrite Hthrow. }
    destruct (m f (Session db n)) as [s [a|e]], (m faultless (Session db n)) as [s' [a'|e']]; destruct Hs as [Hd He]; cbn in *; try done.
    + right. split; cbn; congruence.
    + simplify_eq. rewrite (session_eta s), (session_eta s'), Hd. destruct (Hh e') as [Hh0 Hh1].
      destruct (Hh1 f (data s') (sent s) Hf) as [?|Hs]; [by left|right]. by eapply same_run_trans.
Qed.

Lemma faithful_each {A} (l : list A) (k : A -> txn unit) : (forall x, faithful (k x)) -> faithful (each l k).
Proof. intros Hk. induction l as [|x l IH]; cbn; [apply faithful_ret|]. by apply faithful_bind. Qed.

Section Program.
Context `{Mathjs} `{Dialect}.

Lemma faithful_exec st : faithful (exec st).
Proof. apply faithful_query. Qed.
Lemma faithful_ask q : faithful (ask q).
Proof. apply faithful_query. Qed.
Lemma faithful_ask_all qs : faithful (ask_all qs).
Proof. apply faithful_query. Qed.
Lemma faithful_run_stmt st : faithful (run_stmt st).
Proof. apply faithful_bind; [apply faithful_exec|]. intros. apply faithful_ret. Qed.
Lemma faithful_catch_gap m : faithful m -> faithful (catch_gap m).
Proof.
  intros Hm. apply faithful_catch; [done|..]; intros e; [|intros ->; done].
  destruct (isSchemaGapError e); [apply faithful_ret|apply faithful_throw].
Qed.
Lemma faithful_catch_missing m : faithful m -> faithful (catch_missing m).
Proof.
  intros Hm. apply faithful_catch; [done|..]; intros e.
  - case_bool_decide; [apply faithful_ret|apply faithful_throw].
  - intros Hg. rewrite bool_decide_eq_false_2; [done|]. intros Hn. unfold isSchemaGapError in Hg. apply bool_decide_eq_false in Hg. auto.
Qed.
Lemma faithful_rescue {A} (m : txn A) (a : A) :
  faithful m -> faithful (catch m (fun e => if isSchemaGapError e then tret a else throw e)).
Proof.
  intros Hm. apply faithful_catch; [done|..]; intros e; [|intros ->; done].
  destruct (isSchemaGapError e); [apply faithful_ret|apply faithful_throw].
Qed.
Lemma faithful_lift_gate {A} (r : result A) : faithful (lift_gate r).
Proof. destruct r; [apply faithful_ret|apply faithful_throw]. Qed.
Lemma faithful_when_first first (k : Z -> txn unit) : (forall z, faithful (k z)) -> faithful (when_first first k).
Proof. intros Hk. destruct first; [apply Hk|apply faithful_ret]. Qed.
End Program.

#[export] Hint Resolve faithful_ret faithful_throw faithful_query faithful_exec faithful_ask faithful_ask_all faithful_run_stmt
  faithful_lift_gate : faithful.

(** Structural steps of a faithfulness goal. *)
Ltac faithful_step :=
  match goal with
  | |- faithful (tbind _ _) => apply faithful_bind; [|intros ?]
  | |- faithful (catch_gap _) => apply faithful_catch_gap
  | |- faithful (catch_missing _) => apply faithful_catch_missing
  | |- faithful (catch _ _) => apply faithful_rescue
  | |- faithful (each _ _) => apply faithful_each; intros ?
  | |- faithful (when_first _ _) => apply faithful_when_first; intros ?
  | |- faithful (match _ with _ => _ end) => case_match
  | |- faithful (let _ := _ in _) => cbv zeta
  | |- faithful _ => solve [eauto 2 with faithful]
  end.
Ltac faithful := intros; repeat faithful_step.

(** ** The purge *)
Section Purge.
Context `{Mathjs} `{Dialect}.

Definition orphaned_snapshot (b : Z) (r : row) : bool := satisfied ∅ [("t", r)] (orphanedSnapshots b).
Definition snapshots (db : database) : list row := rows_of db "price_snapshots".
Definition purged (b : Z) (db : database) : database :=
  set_rows db "price_snapshots" (drop_where None (orphaned_snapshot b) (snapshots db)).
Definition purge_gap (b : Z) (db : database) : option Z := gap db (stmt_tables (purgeChunk b 0)) (stmt_columns (purgeChunk b 0)).

Lemma purge_rows b k db : new_rows db (purgeChunk b k) = drop_where (Some k) (orphaned_snapshot b) (snapshots db).
Proof. apply drop_where_ext. intros r. by rewrite alone_match. Qed.

Lemma purge_affected b k db :
  affected db (purgeChunk b k) = Z.of_nat (Nat.min k (count_where (orphaned_snapshot b) (snapshots db))).
Proof.
  unfold affected. rewrite purge_rows. change (rows_of db (target (purgeChunk b k))) with (snapshots db).
  destruct (drop_where_Some k (orphaned_snapshot b) (snapshots db)) as (_ & Hl & _). lia.
Qed.

(** The error is one the schedule injected. *)
Definition blamed {A} (f : schedule) (x : session * outcome A) : Prop := exists e n, x.2 = Fail e /\ f n = Some e.

Lemma purged_after b k db : is_Some (db !! "price_snapshots") ->
  purged b (set_rows db "price_snapshots" (drop_where (Some k) (orphaned_snapshot b) (snapshots db))) = purged b db.
Proof.
  intros Hdb. unfold purged. rewrite set_rows_set_rows. f_equal. unfold snapshots at 1. rewrite rows_of_set_rows by done.
  apply drop_where_Some.
Qed.

Lemma purge_spec fuel : forall b chunk timeouts f db n,
  (1 <= chunk)%nat -> (timeouts <= 3)%nat -> purge_gap b db = None ->
  (4 * count_where (orphaned_snapshot b) (snapshots db) + (4 - timeouts) <= fuel)%nat ->
  let r := purge fuel b chunk timeouts f (Session db n) in
  blamed f r \/ r.2 = Done tt /\ data r.1 = purged b db.
Proof.
  induction fuel as [|fuel IH]; intros b chunk timeouts f db n Hchunk Ht Hgap Hfuel; [lia|].
  cbn [purge]. unfold tbind, catch, exec, query. cbn [sent data]. change (gap db (stmt_tables (purgeChunk b chunk)) _) with (purge_gap b db).
  rewrite Hgap. destruct (f n) as [e|] eqn:Ef.
  - destruct (isStatementTimeout e && _) eqn:Et; [|left; by exists e, n]. cbn [tret].
    apply andb_true_iff in Et as [_ Et]. apply Nat.ltb_lt in Et. unfold PRICE_SNAPSHOT_PURGE_TIMEOUT_RETRIES in Et.
    apply IH; [lia..|done|lia].
  - rewrite purge_affected, purge_rows. change (target (purgeChunk b chunk)) with "price_snapshots". cbn [tret]. assert (is_Some (db !! "price_snapshots")) as Hdb by (eapply gap_tables; [exact Hgap|cbn; left]).
    destruct (drop_where_Some chunk (orphaned_snapshot b) (snapshots db)) as (_ & _ & Hc).
    destruct (Z.ltb_spec (Z.of_nat (Nat.min chunk (count_where (orphaned_snapshot b) (snapshots db)))) (Z.of_nat chunk)) as [Hlt|Hge].
    + right. split; [done|]. cbn. unfold purged. rewrite drop_where_enough by lia. done.
    + assert (snapshots (set_rows db "price_snapshots" (drop_where (Some chunk) (orphaned_snapshot b) (snapshots db)))
              = drop_where (Some chunk) (orphaned_snapshot b) (snapshots db)) as Hs by (apply rows_of_set_rows; done).
      rewrite <- (purged_after b chunk db Hdb). apply IH; [lia|lia|unfold purge_gap; by rewrite gap_set_rows|].
      rewrite Hs. lia.
Qed.

Lemma count_where_le p l : (count_where p l <= length l)%nat.
Proof. unfold count_where. induction l as [|r l IH]; cbn; [lia|]. destruct (p r); cbn; lia. Qed.

(** On a replica without the table or its columns the first answered query says so. *)
Lemma purge_missing fuel : forall b chunk timeouts f db n z,
  purge_gap b db = Some z -> (4 - timeouts <= fuel)%nat -> (timeouts <= 3)%nat ->
  let r := purge fuel b chunk timeouts f (Session db n) in
  blamed f r \/ r.2 = Fail (DbError (Some z) None) /\ data r.1 = db.
Proof.
  induction fuel as [|fuel IH]; intros b chunk timeouts f db n z Hgap Hfuel Ht; [lia|].
  cbn [purge]. unfold tbind, catch, exec, query. cbn [sent data]. change (gap db (stmt_tables (purgeChunk b chunk)) _) with (purge_gap b db).
  rewrite Hgap. destruct (f n) as [e|] eqn:Ef.
  - destruct (isStatementTimeout e && _) eqn:Et; [|left; by exists e, n]. cbn [tret].
    apply andb_true_iff in Et as [_ Et]. apply Nat.ltb_lt in Et. unfold PRICE_SNAPSHOT_PURGE_TIMEOUT_RETRIES in Et.
    apply IH; [done|lia..].
  - right. assert (isStatementTimeout (DbError (Some z) None) = false) as ->; [|done].
    destruct (gap_errno _ _ _ _ Hgap) as [-> | ->]; apply bool_decide_eq_false; intros [?|[?|[?|?]]]; done.
Qed.

(** The purge ends, whatever times out; it deletes exactly the orphaned rounds or fails
    with an error of the connection. *)
Lemma purge_total b f db n :
  let r := purgeOrphanedPriceSnapshots b f (Session db n) in
  blamed f r \/ match purge_gap b db with
                | None => r.2 = Done tt /\ data r.1 = purged b db
                | Some z => r.2 = Fail (DbError (Some z) None) /\ data r.1 = db
                end.
Proof.
  cbn zeta. unfold purgeOrphanedPriceSnapshots. change (rows_of (data (Session db n)) "price_snapshots") with (snapshots db).
  destruct (purge_gap b db) as [z|] eqn:Hgap; [apply purge_missing; [done|lia..]|].
  apply purge_spec; [unfold PRICE_SNAPSHOT_PURGE_CHUNK; lia|lia|done|]. pose proof (count_where_le (orphaned_snapshot b) (snapshots db)). lia.
Qed.

Lemma faithful_purge b : faithful (purgeOrphanedPriceSnapshots b).
Proof.
  assert (forall f db n, blamed f (purgeOrphanedPriceSnapshots b f (Session db n))
    \/ same_run (purgeOrphanedPriceSnapshots b f (Session db n)) (purgeOrphanedPriceSnapshots b faultless (Session db 0))) as Hrun.
  { intros f db n. destruct (purge_total b f db n) as [?|Hf]; [by left|right].
    destruct (purge_total b faultless db 0) as [(? & ? & ? & ?)|Hz]; [done|]. destruct (purge_gap b db); split; intuition congruence. }
  split.
  - intros db n n'. destruct (Hrun faultless db n) as [(? & ? & ? & ?)|[? ?]]; [done|].
    destruct (Hrun faultless db n') as [(? & ? & ? & ?)|[? ?]]; [done|]. split; congruence.
  - intros f db n Hf. destruct (Hrun f db n) as [(e & k & He & Hk)|[? ?]]; [left; exists e; eauto|].
    destruct (Hrun faultless db n) as [(? & ? & ? & ?)|[? ?]]; [done|]. right. split; congruence.
Qed.
End Purge.
(** ** The program *)
Section Faithful.
Context `{Mathjs} `{Dialect}.

Lemma faithful_collectTables ts z found : faithful (collectTables ts z found).
Proof. revert found. induction ts as [|t ts IH]; intros found; cbn [collectTables]; faithful. Qed.
Lemma faithful_foldChunks ps out : faithful (foldChunks ps out).
Proof. revert out. induction ps as [|p ps IH]; intros out; cbn [foldChunks]; faithful. Qed.
Lemma faithful_anchorChunks ps out : faithful (anchorChunks ps out).
Proof. revert out. induction ps as [|p ps IH]; intros out; cbn [anchorChunks]; faithful. Qed.
#[local] Hint Resolve faithful_collectTables faithful_foldChunks faithful_anchorChunks faithful_purge : faithful.

Lemma faithful_getSyncState k : faithful (getSyncState k).
Proof. unfold getSyncState, ensureSyncStateTable. faithful. Qed.
Lemma faithful_undoInPlace c b first : faithful (undoInPlace c b first).
Proof.
  unfold undoInPlace, resetStamps, restoreJournals, reactivate, reverseCooldownMaturities, getStatusId,
    deleteCapabilityMaturityLedgerRows, deleteContractMaturityLedgerRows, resetArchiveHeads. faithful.
Qed.
Lemma faithful_collectTicks first : faithful (collectTicks first).
Proof. unfold collectTicks, collectRefoldTickIds. faithful. Qed.
Lemma faithful_deleteOrphans b first tr : faithful (deleteOrphans b first tr).
Proof.
  unfold deleteOrphans, deleteLoop, rederiveAfterDelete, rederiveEscrowGate, rederiveTokenBridged, rederiveCoinpayMatchStatus. faithful.
Qed.
Lemma faithful_sweep c b first pairs : faithful (sweep c b first pairs).
Proof. unfold sweep, sweepMarkets, sweepPair, sweepPubkeys, survives, readSurvivingMaxId, deleteLoop. faithful. Qed.
Lemma faithful_recompute ticks : faithful (recompute ticks).
Proof.
  unfold recompute, rebuildBalances, refoldTokenRows, recomputeTokenSupplies, foldTicks, tokenAnchors, refoldOne. faithful.
Qed.
#[local] Hint Resolve faithful_getSyncState faithful_undoInPlace faithful_collectTicks faithful_deleteOrphans faithful_sweep faithful_recompute : faithful.

Lemma faithful_indexerBody c b first tr pairs : faithful (indexerBody c b first tr pairs).
Proof. unfold indexerBody. faithful. Qed.
Lemma faithful_indexerReads b : faithful (indexerReads b).
Proof. unfold indexerReads, getFirstActionIndex, affectedMarketPairs. faithful. Qed.
Lemma faithful_decoderBody b : faithful (decoderBody b).
Proof. unfold decoderBody. faithful. Qed.
End Faithful.

(** ** All or nothing *)
Section Atomic.
Context `{Mathjs} `{Dialect}.

Lemma ensure_table_rows db t : rows_of (ensure_table db) t = rows_of db t.
Proof.
  unfold ensure_table. destruct (db !! "sync_state") eqn:E; [done|]. unfold rows_of. destruct (decide (t = "sync_state")) as [->|Ht].
  - by rewrite lookup_insert_eq, E.
  - by rewrite lookup_insert_ne by done.
Qed.

(** The reads before BEGIN change no row. *)
Definition same_rows (db db' : database) : Prop := forall t, rows_of db' t = rows_of db t.
Lemma reads_same_rows db b : preserves (same_rows db) (indexerReads b).
Proof.
  assert (forall qs, preserves (same_rows db) (ask_all qs)) as Hall.
  { intros qs. apply preserves_query. intros db' Hdb. by destruct (omap _ qs). }
  unfold indexerReads, getFirstActionIndex, getSyncState, ensureSyncStateTable, affectedMarketPairs.
  preserves; try apply Hall. apply preserves_query. intros db' Hdb t. by rewrite ensure_table_rows.
Qed.

Lemma transaction_atomic body landed f db n n' :
  faithful body -> benign f ->
  let ref := in_transaction body landed faultless (Replica db n') in
  let out := in_transaction body landed f (Replica db n) in
  match out.2 with
  | Done _ => ref.2 = Done tt /\ committed out.1 = committed ref.1
  | Fail _ => committed out.1 = db \/ committed out.1 = committed ref.1
  end.
Proof.
  intros [Hn Hbody] Hf. unfold in_transaction. cbv zeta. cbn [queries committed]. change (faultless n') with (@None dberror). cbv iota.
  destruct (f n) as [e|]; [by left|].
  destruct (Hbody f db (S n) Hf) as [(e & He & _)|Hs].
  { destruct (body f _) as [s [?|e']]; cbn in *; [done|]. by left. }
  pose proof (same_run_trans _ _ _ Hs (Hn db (S n) (S n'))) as [Hd Ho].
  destruct (body f _) as [s [?|e]], (body faultless (Session db (S n'))) as [s' [?|e']]; cbn in *; try done; [|by left].
  destruct (f (sent s)) as [e|]; [|by split].
  cbn. destruct (landed (sent s)); [by right|by left].
Qed.

(** C2. A rollback is all or nothing: under any schedule of faults, timeouts included, a
    rollback that reports success has left exactly the tables the undisturbed rollback
    leaves, and one that reports a failure has left every row as it was or, when the
    answer to a COMMIT that landed was lost, those same tables; no partial rollback is
    ever committed. *)
Theorem rollback_all_or_nothing kind c b landed f r :
  benign f ->
  let ref := rollback kind c b landed faultless r in
  let out := rollback kind c b landed f r in
  match out.2 with
  | Done _ => ref.2 = Done tt /\ committed out.1 = committed ref.1
  | Fail _ => same_rows (committed r) (committed out.1) \/ committed out.1 = committed ref.1
  end.
Proof.
  intros Hf. destruct kind; cbn [rollback].
  - unfold rollbackIndexer. pose proof (reads_same_rows (committed r) b f (Session (committed r) (queries r)) (fun _ => eq_refl)) as Hrows.
    destruct (faithful_indexerReads b) as [_ Hreads]. destruct (Hreads f (committed r) (queries r) Hf) as [(e & He & _)|[Hd Ho]].
    { destruct (indexerReads b f _) as [s [?|e']]; cbn in *; [done|]. by left. }
    destruct (indexerReads b f _) as [s [[[first tr] pairs]|e]] eqn:E1, (indexerReads b faultless _) as [s' [[[first' tr'] pairs']|e']] eqn:E2; cbn in *; try done; [|by left].
    simplify_eq. rewrite Hd in *.
    pose proof (transaction_atomic (indexerBody c b first' tr' pairs') landed f (data s') (sent s) (sent s') (faithful_indexerBody _ _ _ _ _) Hf) as Ht.
    cbv zeta in Ht. destruct (in_transaction _ landed f _) as [r' [?|e]]; cbn in *; [done|].
    destruct Ht as [Ht|Ht]; [left|by right]. by rewrite Ht.
  - pose proof (transaction_atomic (decoderBody b) landed f (committed r) (queries r) (queries r) (faithful_decoderBody b) Hf) as Ht.
    cbv zeta in Ht. unfold rollbackDecoder. destruct r as [db n]. cbn [committed queries] in *.
    destruct (in_transaction _ landed f _) as [r' [?|e]]; cbn in *; [done|]. destruct Ht as [Ht|Ht]; [left|by right]. by rewrite Ht.
Qed.
End Atomic.
