(* ===== verification/RollbackEffect.v ===== *)
(** * RollbackEffect: what a rollback leaves

    The generic deletes remove exactly the orphaned rows of their tables, later steps do
    not bring one back, and the tables the registry exempts keep every row.  [after P m Q]
    is partial correctness of a part of the program under connection faults; [frame t m]
    says that it does not touch the rows of [t]. *)

From S2P Require Import Prelude Sha256 JsText JsNumber JsMap Primitives GateRegistry Gates FollowerRoots Sql TableLifecycle TokenRefold Balances Rollback RollbackAtomic.

#[local] Open Scope Z_scope.

Definition after {A} (P : database -> Prop) (m : txn A) (Q : database -> Prop) : Prop :=
  forall f s a, benign f -> P (data s) -> (m f s).2 = Done a -> Q (data (m f s).1).

Lemma after_bind {A B} P Q R (m : txn A) (k : A -> txn B) : after P m Q -> (forall a, after Q (k a) R) -> after P (tbind m k) R.
Proof.
  intros Hm Hk f s b Hf HP. unfold tbind. specialize (Hm f s). destruct (m f s) as [s' [a|e]] eqn:E; cbn in *; [|done].
  intros Hb. apply (Hk a f s' b Hf); [|done]. by apply (Hm a).
Qed.
Lemma after_preserves {A} P (m : txn A) : preserves P m -> after P m P.
Proof. intros Hm f s a _ HP _. by apply Hm. Qed.
Lemma after_weaken {A} (P P' Q : database -> Prop) (m : txn A) : (forall db, P' db -> P db) -> after P m Q -> after P' m Q.
Proof. intros HP Hm f s a Hf HP'. apply Hm; auto. Qed.
Lemma after_conseq {A} (P Q Q' : database -> Prop) (m : txn A) : (forall db, Q db -> Q' db) -> after P m Q -> after P m Q'.
Proof. intros HQ Hm f s a Hf HP Ha. apply HQ. by apply (Hm f s a). Qed.

Definition frame {A} (t : string) (m : txn A) : Prop := forall R, preserves (fun db => rows_of db t = R) m.

Definition columns_kept {A} (m : txn A) : Prop := forall p, preserves (fun db => has_column db p = true) m.
Lemma has_column_set_rows db t l p : has_column (set_rows db t l) p = has_column db p.
Proof.
  unfold has_column. pose proof (columns_set_rows db t l p.1) as Hc. destruct (set_rows db t l !! p.1), (db !! p.1); cbn in Hc; try done.
  injection Hc as Hc. by rewrite Hc.
Qed.

Section Effect.
Context `{Mathjs} `{Dialect}.

Lemma preserves_lift_gate {A} I (r : result A) : preserves I (lift_gate r).
Proof. destruct r; [apply preserves_ret|apply preserves_throw]. Qed.
#[local] Hint Resolve preserves_lift_gate : preserves.

Lemma kept_run_stmt st : columns_kept (run_stmt st).
Proof. intros p. apply preserves_run_stmt. intros db _ Hp. by rewrite has_column_set_rows. Qed.
Lemma kept_ask_all p qs : preserves (fun db => has_column db p = true) (ask_all qs).
Proof. apply preserves_query. intros db Hdb. by destruct (omap _ qs). Qed.

Lemma frame_run_stmt t st : target st <> t -> frame t (run_stmt st).
Proof. intros Ht R. apply preserves_run_stmt. intros db _ <-. by apply rows_of_set_rows_ne. Qed.
Lemma frame_ask_all t qs R : preserves (fun db => rows_of db t = R) (ask_all qs).
Proof. apply preserves_query. intros db Hdb. by destruct (omap _ qs). Qed.

Lemma preserves_purge I b : (forall k db, I db -> I (set_rows db "price_snapshots" (new_rows db (purgeChunk b k)))) ->
  preserves I (purgeOrphanedPriceSnapshots b).
Proof.
  intros HI f s Hs. unfold purgeOrphanedPriceSnapshots. generalize (4 * (length (rows_of (data s) "price_snapshots") + 1))%nat.
  intros fuel. generalize PRICE_SNAPSHOT_PURGE_CHUNK 0%nat. revert s Hs. induction fuel as [|fuel IH]; intros s Hs chunk timeouts; [done|].
  cbn [purge]. unfold tbind, catch, exec, query. destruct (f (sent s)) as [e|].
  - destruct (isStatementTimeout e && _); [|done]. cbn. by apply IH.
  - destruct (gap (data s) _ _).
    + destruct (isStatementTimeout _ && _); [|done]. cbn. by apply IH.
    + cbn [tret]. destruct (_ <? _); cbn; [by apply HI|]. apply IH. cbn. by apply HI.
Qed.
Lemma kept_purge b : columns_kept (purgeOrphanedPriceSnapshots b).
Proof. intros p. apply preserves_purge. intros k db Hp. by rewrite has_column_set_rows. Qed.
Lemma frame_purge t b : t <> "price_snapshots" -> frame t (purgeOrphanedPriceSnapshots b).
Proof. intros Ht R. apply preserves_purge. intros k db <-. by apply rows_of_set_rows_ne. Qed.

(** ** A generic delete *)
Definition orphan (c : string) (z : Z) (r : row) : bool := bool_decide (cmp3 Ge (cell r c) (Int z) = Some true).
Definition survivors (c : string) (z : Z) (l : list row) : list row := List.filter (fun r => negb (orphan c z r)) l.

Lemma survivors_idem c z l : survivors c z (survivors c z l) = survivors c z l.
Proof. unfold survivors. induction l as [|r l IH]; cbn; [done|]. destruct (orphan c z r) eqn:E; cbn; [done|]. by rewrite E, IH. Qed.

Lemma delete_rows t c z db : new_rows db (deleteFrom t c z) = survivors c z (rows_of db t).
Proof. unfold new_rows, deleteFrom. cbn [target]. rewrite (drop_where_ext _ _ (orphan c z)); [apply drop_where_None|]. intros r. by rewrite alone_match. Qed.

Lemma delete_gap t c z db : has_column db (t, c) = true -> gap db (stmt_tables (deleteFrom t c z)) (stmt_columns (deleteFrom t c z)) = None.
Proof.
  intros Hc. change (gap db [t] [(t, c)] = None). unfold gap. cbn [forallb]. rewrite Hc. unfold has_column in Hc. cbn in Hc.
  destruct (db !! t) eqn:E; [|done]. by rewrite bool_decide_eq_true_2.
Qed.

Lemma after_delete t c z R :
  after (fun db => has_column db (t, c) = true /\ rows_of db t = R) (catch_gap (run_stmt (deleteFrom t c z)))
        (fun db => has_column db (t, c) = true /\ rows_of db t = survivors c z R).
Proof.
  intros f s a Hf [Hc HR]. unfold catch_gap, catch, run_stmt, tbind, exec, query. rewrite delete_gap by done.
  destruct (f (sent s)) as [e|] eqn:Ef; cbv iota beta.
  - rewrite (Hf _ _ Ef). done.
  - intros _. cbn [tret fst data target deleteFrom]. rewrite has_column_set_rows. split; [done|]. unfold has_column in Hc. cbn in Hc. destruct (data s !! t) eqn:E; [|done].
    rewrite rows_of_set_rows by eauto. by rewrite delete_rows, HR.
Qed.

Lemma after_deleteLoop t c z tables : forall R,
  after (fun db => has_column db (t, c) = true /\ rows_of db t = R) (deleteLoop tables c z)
        (fun db => has_column db (t, c) = true /\ rows_of db t = if bool_decide (t ∈ tables) then survivors c z R else R).
Proof.
  induction tables as [|x tables IH]; intros R; cbn [deleteLoop each].
  { rewrite bool_decide_eq_false_2 by apply not_elem_of_nil. apply after_preserves, preserves_ret. }
  destruct (decide (x = t)) as [->|Hx].
  - eapply after_bind; [apply after_delete|]. intros _. eapply after_conseq; [|apply IH]. intros db [Hc HR]. split; [done|].
    rewrite (bool_decide_eq_true_2 (t ∈ t :: tables)) by left. rewrite HR. case_bool_decide; [apply survivors_idem|done].
  - eapply after_bind.
    { apply after_preserves. apply preserves_catch_gap, preserves_run_stmt. intros db _ [Hc HR].
      split; [by rewrite has_column_set_rows|]. by rewrite rows_of_set_rows_ne. }
    intros _. eapply after_conseq; [|apply IH]. intros db [Hc HR]. split; [done|]. rewrite HR.
    by rewrite (bool_decide_ext (t ∈ x :: tables) (t ∈ tables)) by set_solver.
Qed.

(** ** The tables of the hand-written statements *)
Definition undo_targets : list string :=
  ["contract_emissions"; "attests"; "xcalls"; "polls"; "bet_feeds"; "bets"; "contract_stakes"; "contract_unstakes"; "stakes"; "unstakes";
   "delegations"; "contract_delegations"; "validator_rewards"; "credits"; "escrows"; "anchor_actions"].
Definition rederive_targets : list string := ["tokens"; "order_matches"; "icons"; "validator_rewards"].
Definition sweep_targets : list string :=
  ["markets"; "pubkeys"; "price_snapshots"; "delegations"; "rollcall_gates"; "rollcall_absences"; "rollcalls"; "oracle_prices"; "cross_chain_calls";
   "cross_chain_matches"; "bridge_transfers"; "sync_meta"; "merkle_epochs"; "attest_validator_stats"].
Definition recompute_targets : list string := ["balances"; "tokens"].
Definition bespoke_targets : list string := undo_targets ++ rederive_targets ++ sweep_targets ++ recompute_targets.
Definition generic_targets : list string :=
  dataTables replicaRollbackTables ++ blockTables replicaRollbackTables ++ indexTables replicaRollbackTables.

#[local] Ltac closed_member := apply (bool_decide_eq_true_1 (_ ∈ _)); vm_compute; reflexivity.
#[local] Ltac split_member :=
  repeat match goal with
         | H : _ ∈ _ :: _ |- _ => apply elem_of_cons in H as [->|H]
         | H : _ ∈ [] |- _ => by apply not_elem_of_nil in H
         end.
#[local] Ltac frame_stmt Ht := split_member; apply frame_run_stmt; intros <-; apply Ht; closed_member.
#[local] Ltac frame_tac Ht := intros R; preserves; first [frame_stmt Ht | apply frame_ask_all | apply preserves_ret].

Lemma frame_undoInPlace t c b first : t ∉ undo_targets -> frame t (undoInPlace c b first).
Proof.
  intros Ht. unfold undoInPlace, when_first, resetStamps, restoreJournals, reactivate, reverseCooldownMaturities, getStatusId,
    deleteCapabilityMaturityLedgerRows, deleteContractMaturityLedgerRows, resetArchiveHeads. frame_tac Ht.
Qed.
Lemma frame_collectTables t ts z found : frame t (collectTables ts z found).
Proof. intros R. revert found. induction ts as [|x ts IH]; intros found; cbn [collectTables]; preserves; apply IH. Qed.
Lemma frame_collectTicks t first : frame t (collectTicks first).
Proof. intros R. unfold collectTicks, collectRefoldTickIds. preserves. apply frame_collectTables. Qed.
Lemma frame_rederive t tr : t ∉ rederive_targets -> frame t (rederiveAfterDelete tr).
Proof. intros Ht. unfold rederiveAfterDelete, rederiveEscrowGate, rederiveTokenBridged, rederiveCoinpayMatchStatus. frame_tac Ht. Qed.
Lemma frame_deleteLoop t ts c z : t ∉ ts -> frame t (deleteLoop ts c z).
Proof. intros Ht R. unfold deleteLoop. preserves. apply frame_run_stmt. cbn. by intros ->. Qed.
Lemma frame_sweep t c b first pairs : t ∉ sweep_targets -> frame t (sweep c b first pairs).
Proof.
  intros Ht R. unfold sweep, when_first, sweepMarkets, sweepPair, sweepPubkeys, survives, readSurvivingMaxId, deleteLoop. preserves;
    first [frame_stmt Ht | apply frame_purge; intros ->; apply Ht; closed_member].
Qed.
Lemma frame_recompute t ticks : t ∉ recompute_targets -> frame t (recompute ticks).
Proof.
  intros Ht R.
  assert (forall ps out, preserves (fun db => rows_of db t = R) (foldChunks ps out)) as Hf
    by (intros ps; induction ps as [|x ps IH]; intros out; cbn [foldChunks]; preserves; apply IH).
  assert (forall ps out, preserves (fun db => rows_of db t = R) (anchorChunks ps out)) as Ha
    by (intros ps; induction ps as [|x ps IH]; intros out; cbn [anchorChunks]; preserves; apply IH).
  unfold recompute, rebuildBalances, refoldTokenRows, recomputeTokenSupplies, foldTicks, tokenAnchors, refoldOne. preserves;
    first [frame_stmt Ht | apply Hf | apply Ha].
Qed.

(** ** Columns *)
#[local] Ltac kept_tac := intros p; preserves; first [apply kept_run_stmt | apply kept_ask_all | apply kept_purge].
Lemma kept_undoInPlace c b first : columns_kept (undoInPlace c b first).
Proof.
  unfold undoInPlace, when_first, resetStamps, restoreJournals, reactivate, reverseCooldownMaturities, getStatusId,
    deleteCapabilityMaturityLedgerRows, deleteContractMaturityLedgerRows, resetArchiveHeads. kept_tac.
Qed.
Lemma kept_collectTicks first : columns_kept (collectTicks first).
Proof.
  intros p. unfold collectTicks, collectRefoldTickIds. preserves. match goal with |- preserves _ (collectTables ?ts _ ?l) => generalize ts l end.
  intros ts. induction ts as [|x ts IH]; intros found; cbn [collectTables]; preserves; apply IH.
Qed.
Lemma kept_rederive tr : columns_kept (rederiveAfterDelete tr).
Proof. unfold rederiveAfterDelete, rederiveEscrowGate, rederiveTokenBridged, rederiveCoinpayMatchStatus. kept_tac. Qed.
Lemma kept_deleteLoop ts c z : columns_kept (deleteLoop ts c z).
Proof. unfold deleteLoop. kept_tac. Qed.

(** ** No orphan comes back *)
Definition clean (t c : string) (z : Z) (db : database) : Prop := forall r, r ∈ rows_of db t -> orphan c z r = false.

Lemma survivors_clean c z l r : r ∈ survivors c z l -> orphan c z r = false.
Proof. unfold survivors. intros Hr%list_elem_of_In%filter_In. destruct Hr as [_ Hr]. by destruct (orphan c z r). Qed.

(** The statements that keep the column of every row of the table. *)
Definition keeps_column (t c : string) (st : stmt) : Prop :=
  match st with
  | Delete _ _ _ _ _ => True
  | Update t' _ _ sets _ => t' <> t \/ c ∉ map fst sets
  | InsertIgnore t' _ _ _ _ => t' <> t
  | Rebuild t' _ _ f => t' <> t \/ forall db l r, r ∈ f db l -> exists r0, r0 ∈ l /\ cell r c = cell r0 c
  end.

Lemma cell_assign db env sets r c : c ∉ map fst sets -> cell (assign db env sets r) c = cell r c.
Proof.
  unfold assign. revert r. induction sets as [|[k e] sets IH]; intros r Hc; [done|]. cbn in *.
  rewrite IH by set_solver. unfold cell. by rewrite lookup_insert_ne by set_solver.
Qed.
Lemma drop_where_sub k p l r : r ∈ drop_where k p l -> r ∈ l.
Proof.
  revert k. induction l as [|x l IH]; intros k; [done|]. cbn [drop_where]. destruct k as [[|k]|]; [done|..]; destruct (p x); intros Hr.
  1,3: right; by eapply IH. all: apply elem_of_cons in Hr as [->|Hr]; [by left|right; by eapply IH].
Qed.

Lemma new_rows_column t c st db r : keeps_column t c st -> target st = t -> r ∈ new_rows db st -> exists r0, r0 ∈ rows_of db t /\ cell r c = cell r0 c.
Proof.
  destruct st as [t' a joins w k|t' a joins sets w|t' key f w cols|t' cols reads f]; cbn [keeps_column target]; intros Hk <- Hr; unfold new_rows in Hr; cbn [target] in Hr.
  - exists r. split; [by eapply drop_where_sub|done].
  - destruct Hk as [?|Hk]; [done|]. apply list_elem_of_In, in_map_iff in Hr as (r0 & <- & Hr0). exists r0. split; [by apply list_elem_of_In|].
    destruct (matches db a joins w r0); [done|]. by apply cell_assign.
  - done.
  - destruct Hk as [?|Hk]; [done|]. by eapply Hk.
Qed.
Lemma clean_run_stmt t c z st : keeps_column t c st -> preserves (clean t c z) (run_stmt st).
Proof.
  intros Hk. apply preserves_run_stmt. intros db Hgap Hdb r Hr.
  destruct (decide (target st = t)) as [Ht|Ht].
  - rewrite Ht in Hr. rewrite rows_of_set_rows in Hr.
    + destruct (new_rows_column t c st db r Hk Ht Hr) as (r0 & Hr0 & He). unfold orphan. rewrite He. by apply Hdb.
    + eapply gap_tables; [exact Hgap|]. subst t. destruct st; cbn; left.
  - rewrite rows_of_set_rows_ne in Hr by done. by apply Hdb.
Qed.

Section Clean.
Context (t c : string) (z : Z) (Hc : c ∈ ["action_index"; "block_index"]) (Ht : t <> "balances").

Lemma keeps_supply d : keeps_column t c (supplyStmt d).
Proof.
  right. intros db l r Hr. apply list_elem_of_In, in_map_iff in Hr as (r0 & <- & Hr0). exists r0. split; [by apply list_elem_of_In|].
  case_bool_decide; [|done]. unfold cell. rewrite lookup_insert_ne; [done|]. intros <-. revert Hc. apply (bool_decide_eq_true_1 (_ ∉ _)). reflexivity.
Qed.
Lemma keeps_refold x : keeps_column t c (refoldStmt x).
Proof. right. cbn [map tokenColumns]. clear -Hc. split_member; apply (bool_decide_eq_true_1 (_ ∉ _)); vm_compute; reflexivity. Qed.

#[local] Ltac clean_stmt :=
  apply clean_run_stmt;
  first [ apply keeps_supply | apply keeps_refold | exact I
        | left; cbn; by intros <-
        | right; split_member; apply (bool_decide_eq_true_1 (_ ∉ _)); vm_compute; reflexivity ].
Lemma preserves_ask_all I qs : preserves I (ask_all qs).
Proof. apply preserves_query. intros db Hdb. by destruct (omap _ qs). Qed.

Lemma clean_rederive tr : preserves (clean t c z) (rederiveAfterDelete tr).
Proof.
  unfold rederiveAfterDelete, rederiveEscrowGate, rederiveTokenBridged, rederiveCoinpayMatchStatus. preserves;
    first [apply preserves_ask_all | clean_stmt].
Qed.
Lemma clean_deleteLoop ts k n : preserves (clean t c z) (deleteLoop ts k n).
Proof. unfold deleteLoop. preserves. by apply clean_run_stmt. Qed.
Lemma clean_purge b : preserves (clean t c z) (purgeOrphanedPriceSnapshots b).
Proof.
  apply preserves_purge. intros k db Hdb r. destruct (decide ("price_snapshots" = t)) as [<-|Hne].
  - destruct (db !! "price_snapshots") eqn:E.
    + rewrite rows_of_set_rows by eauto. intros Hr. apply drop_where_sub in Hr. by apply Hdb.
    + unfold rows_of, set_rows. rewrite lookup_alter_eq, E. set_solver.
  - rewrite rows_of_set_rows_ne by done. apply Hdb.
Qed.
Lemma clean_sweep cl b first pairs : preserves (clean t c z) (sweep cl b first pairs).
Proof.
  unfold sweep, when_first, sweepMarkets, sweepPair, sweepPubkeys, survives, readSurvivingMaxId, deleteLoop. preserves;
    first [apply clean_purge | clean_stmt].
Qed.
Lemma clean_recompute ticks : preserves (clean t c z) (recompute ticks).
Proof.
  assert (forall ps out, preserves (clean t c z) (foldChunks ps out)) as Hf
    by (intros ps; induction ps as [|x ps IH]; intros out; cbn [foldChunks]; preserves; apply IH).
  assert (forall ps out, preserves (clean t c z) (anchorChunks ps out)) as Ha
    by (intros ps; induction ps as [|x ps IH]; intros out; cbn [anchorChunks]; preserves; apply IH).
  unfold recompute, rebuildBalances, refoldTokenRows, recomputeTokenSupplies, foldTicks, tokenAnchors, refoldOne. preserves;
    first [apply Hf | apply Ha | clean_stmt].
Qed.
End Clean.

(** ** The whole rollback *)
#[local] Opaque each replicaRollbackTables.
Notation data_list := (dataTables replicaRollbackTables).
Notation block_list := (blockTables replicaRollbackTables ++ indexTables replicaRollbackTables).
(** The columns the generic deletes of a table read. *)
Definition keyed (t : string) (db : database) : Prop :=
  (t ∈ data_list -> has_column db (t, "action_index") = true) /\ (t ∈ block_list -> has_column db (t, "block_index") = true).
Definition first_action (b : Z) (db : database) : option Z :=
  min_int (ints (List.filter (orphan "block_index" b) (rows_of db "actions")) "action_index").

(** What is left of a table no hand-written statement writes. *)
Definition unwound_by (A B : list string) (b : Z) (first : option Z) (t : string) (l : list row) : list row :=
  let l := match first with Some z => if bool_decide (t ∈ A) then survivors "action_index" z l else l | None => l end in
  if bool_decide (t ∈ B) then survivors "block_index" b l else l.
Definition unwound : Z -> option Z -> string -> list row -> list row := unwound_by data_list block_list.
Lemma unwound_by_neither A B b first t l : t ∉ A -> t ∉ B -> unwound_by A B b first t l = l.
Proof. intros HA HB. unfold unwound_by. rewrite !bool_decide_eq_false_2 by done. by destruct first. Qed.

Lemma preserves_and {A} I J (m : txn A) : preserves I m -> preserves J m -> preserves (fun db => I db /\ J db) m.
Proof. intros HI HJ f s [? ?]. split; [by apply HI|by apply HJ]. Qed.
Lemma preserves_keyed {A} t (m : txn A) : columns_kept m -> preserves (keyed t) m.
Proof. intros Hm f s [H1 H2]. split; intros Ht; apply Hm; auto. Qed.
Lemma preserves_framed {A} t R (m : txn A) : columns_kept m -> frame t m -> preserves (fun db => keyed t db /\ rows_of db t = R) m.
Proof. intros Hk Hf. apply preserves_and; [by apply preserves_keyed|apply Hf]. Qed.

Lemma after_deleteLoop' t c z ts R :
  (forall db, keyed t db -> t ∈ ts -> has_column db (t, c) = true) ->
  after (fun db => keyed t db /\ rows_of db t = R) (deleteLoop ts c z)
        (fun db => keyed t db /\ rows_of db t = if bool_decide (t ∈ ts) then survivors c z R else R).
Proof.
  intros Hcol f s a Hf [Hk HR] Ha. split; [by apply (preserves_keyed t _ (kept_deleteLoop ts c z))|]. case_bool_decide as Hin.
  - pose proof (after_deleteLoop t c z ts R f s a Hf (conj (Hcol _ Hk Hin) HR) Ha) as [_ Hrows]. by rewrite bool_decide_eq_true_2 in Hrows.
  - by apply frame_deleteLoop.
Qed.

Lemma survivors_twice (t c : string) z (A B : list string) R :
  (if bool_decide (t ∈ B) then survivors c z (if bool_decide (t ∈ A) then survivors c z R else R) else if bool_decide (t ∈ A) then survivors c z R else R)
  = if bool_decide (t ∈ A ++ B) then survivors c z R else R.
Proof.
  rewrite (bool_decide_ext (t ∈ A ++ B) _ (elem_of_app _ _ _)). destruct (decide (t ∈ A)) as [HA|HA], (decide (t ∈ B)) as [HB|HB];
    rewrite ?(bool_decide_eq_true_2 _ HA), ?(bool_decide_eq_false_2 _ HA), ?(bool_decide_eq_true_2 _ HB), ?(bool_decide_eq_false_2 _ HB).
  all: first [rewrite bool_decide_eq_true_2 by auto|rewrite bool_decide_eq_false_2 by tauto]; rewrite ?survivors_idem; done.
Qed.
Lemma after_deleteOrphans t b first tr R : t ∉ rederive_targets ->
  after (fun db => keyed t db /\ rows_of db t = R) (deleteOrphans b first tr) (fun db => rows_of db t = unwound b first t R).
Proof.
  intros Ht. unfold deleteOrphans.
  assert (forall st, target st ∈ rederive_targets -> forall Q, preserves (fun db => keyed t db /\ rows_of db t = Q) (run_stmt st)) as Hst.
  { intros st Hin Q. apply preserves_framed; [apply kept_run_stmt|]. apply frame_run_stmt. intros <-. exact (Ht Hin). }
  eapply after_bind.
  { instantiate (1 := fun db => keyed t db /\ rows_of db t =
      match first with Some z => if bool_decide (t ∈ data_list) then survivors "action_index" z R else R | None => R end).
    destruct first as [z|]; cbn [when_first]; [|apply after_preserves, preserves_ret].
    eapply after_bind; [apply after_deleteLoop'; intros db [Hk _]; exact Hk|]. intros _. apply after_preserves, preserves_framed;
      [apply kept_rederive|by apply frame_rederive]. }
  intros _. unfold unwound, unwound_by. cbv zeta. set (R1 := match first with Some _ => _ | None => R end).
  eapply after_bind; [apply after_preserves, preserves_catch_missing, Hst; closed_member|]. intros _.
  eapply after_bind; [apply after_deleteLoop'; intros db [_ Hk] Hin; apply Hk, elem_of_app; by left|]. intros _.
  eapply after_bind; [apply after_preserves, preserves_catch_gap, Hst; closed_member|]. intros _.
  eapply after_conseq; [|apply after_deleteLoop'; intros db [_ Hk] Hin; apply Hk, elem_of_app; by right].
  intros db [_ ->]. apply survivors_twice.
Qed.

Lemma not_bespoke t : t ∉ bespoke_targets -> t ∉ undo_targets /\ t ∉ rederive_targets /\ t ∉ sweep_targets /\ t ∉ recompute_targets.
Proof. unfold bespoke_targets. rewrite !not_elem_of_app. tauto. Qed.

Lemma after_body t c b first tr pairs R : t ∉ bespoke_targets ->
  after (fun db => keyed t db /\ rows_of db t = R) (indexerBody c b first tr pairs) (fun db => rows_of db t = unwound b first t R).
Proof.
  intros (H1 & H2 & H3 & H4)%not_bespoke. unfold indexerBody.
  eapply after_bind; [apply after_preserves, preserves_framed; [apply kept_undoInPlace|by apply frame_undoInPlace]|]. intros _.
  eapply after_bind; [apply after_preserves, preserves_framed; [apply kept_collectTicks|apply frame_collectTicks]|]. intros ticks.
  eapply after_bind; [by apply after_deleteOrphans|]. intros _.
  eapply after_bind; [apply after_preserves; by apply frame_sweep|]. intros _.
  apply after_preserves. by apply frame_recompute.
Qed.

(** The tail of the program after the deletes of a list keeps it clean. *)
Lemma after_deleteLoop_clean t c z ts : t ∈ ts ->
  after (fun db => has_column db (t, c) = true) (deleteLoop ts c z) (clean t c z).
Proof.
  intros Hin f s a Hf Hc Ha r Hr. pose proof (after_deleteLoop t c z ts (rows_of (data s) t) f s a Hf (conj Hc eq_refl) Ha) as [_ Hrows].
  rewrite bool_decide_eq_true_2 in Hrows by done. rewrite Hrows in Hr. by eapply survivors_clean.
Qed.

Lemma clean_body_action t c b z tr pairs : t <> "balances" -> t ∈ data_list ->
  after (fun db => has_column db (t, "action_index") = true) (indexerBody c b (Some z) tr pairs) (clean t "action_index" z).
Proof.
  intros Ht Hin. assert ("action_index" ∈ ["action_index"; "block_index"]) as Hc by left. unfold indexerBody.
  eapply after_bind; [apply after_preserves, kept_undoInPlace|]. intros _.
  eapply after_bind; [apply after_preserves, kept_collectTicks|]. intros ticks.
  eapply after_bind.
  - unfold deleteOrphans. cbn [when_first]. eapply after_bind.
    + eapply after_bind; [by apply after_deleteLoop_clean|]. intros _. apply after_preserves. by apply clean_rederive.
    + intros _. apply after_preserves. preserves; first [by apply clean_deleteLoop | by apply clean_run_stmt].
  - intros _. eapply after_bind; [apply after_preserves; by apply clean_sweep|]. intros _. apply after_preserves. by apply clean_recompute.
Qed.
Lemma clean_body_block t c b first tr pairs : t <> "balances" -> t ∈ block_list ->
  after (fun db => has_column db (t, "block_index") = true) (indexerBody c b first tr pairs) (clean t "block_index" b).
Proof.
  intros Ht Hin. assert ("block_index" ∈ ["action_index"; "block_index"]) as Hc by (right; left). unfold indexerBody.
  eapply after_bind; [apply after_preserves, kept_undoInPlace|]. intros _.
  eapply after_bind; [apply after_preserves, kept_collectTicks|]. intros ticks.
  assert (forall st, preserves (fun db => has_column db (t, "block_index") = true) (run_stmt st)) as Hst by (intros; apply kept_run_stmt).
  eapply after_bind.
  - unfold deleteOrphans. eapply after_bind.
    { apply after_preserves. unfold when_first. preserves; [apply kept_deleteLoop|apply kept_rederive]. }
    intros _. eapply after_bind; [apply after_preserves; preserves; apply Hst|]. intros _.
    apply elem_of_app in Hin as [Hin|Hin].
    + eapply after_bind; [by apply after_deleteLoop_clean|]. intros _. apply after_preserves.
      preserves; first [by apply clean_deleteLoop | by apply clean_run_stmt].
    + eapply after_bind; [apply after_preserves, kept_deleteLoop|]. intros _.
      eapply after_bind; [apply after_preserves; preserves; apply Hst|]. intros _. by apply after_deleteLoop_clean.
  - intros _. eapply after_bind; [apply after_preserves; by apply clean_sweep|]. intros _. apply after_preserves. by apply clean_recompute.
Qed.

Lemma ints_cons r l c : ints (r :: l) c = match cell r c with Int z => z :: ints l c | _ => ints l c end.
Proof. unfold ints. cbn. by destruct (cell r c). Qed.
Lemma first_answer b db :
  ints (answer db (Select [("actions", "a")] (Cmp Ge (Col "a" "block_index") (Lit (Int b))) [("action_index", Col "a" "action_index")])) "action_index"
  = ints (List.filter (orphan "block_index" b) (rows_of db "actions")) "action_index".
Proof.
  unfold answer. cbn [s_from s_where s_cols products map]. generalize (rows_of db "actions"). intros l. induction l as [|r l IH]; [done|].
  cbn [flat_map map app List.filter]. change (satisfied db [("a", r)] _) with (orphan "block_index" b r). destruct (orphan "block_index" b r); [|exact IH].
  cbn [map]. rewrite !ints_cons, IH. change (cell (assign db [("a", r)] _ ∅) "action_index") with (cell (<["action_index" := cell r "action_index"]> (∅ : row)) "action_index").
  unfold cell at 1. rewrite lookup_insert_eq. done.
Qed.

Lemma reads_first b f s s' first tr pairs : indexerReads b f s = (s', Done (first, tr, pairs)) -> first = first_action b (data s).
Proof.
  unfold indexerReads, tbind at 1. destruct (getFirstActionIndex b f s) as [s1 [x|e]] eqn:E1; [|done].
  assert (x = first_action b (data s)) as Hx.
  { revert E1. unfold getFirstActionIndex, tbind, ask, query. destruct (f (sent s)); [done|]. destruct (select_gap _ _); [done|].
    intros [= _ <-]. unfold first_action. by rewrite <- first_answer. }
  clear E1. subst x. unfold tbind. destruct (getSyncState _ _ _) as [s2 [base|e]]; [|done].
  match goal with |- context [match ?m f s2 with _ => _ end] => destruct (m f s2) as [s3 [ps|e]] end; [|done]. by intros [= _ <- _ _].
Qed.

Lemma ensure_has_column db p : has_column db p = true -> has_column (ensure_table db) p = true.
Proof.
  unfold ensure_table. destruct (db !! "sync_state") eqn:E; [done|]. unfold has_column. destruct (decide (p.1 = "sync_state")) as [->|Hp].
  - by rewrite E.
  - by rewrite lookup_insert_ne by done.
Qed.
Lemma reads_keyed t b : preserves (keyed t) (indexerReads b).
Proof.
  apply preserves_keyed. intros p. unfold indexerReads, getFirstActionIndex, getSyncState, ensureSyncStateTable, affectedMarketPairs.
  preserves; try apply kept_ask_all. apply preserves_query. intros db. apply ensure_has_column.
Qed.

(** The tables the registry leaves alone on a replica. *)
Definition left_alone : list string := tablesWhere (fun e => replica_is "exempt" e || replica_is "lookup" e || replica_is "local" e).

Lemma left_alone_untouched t : t ∈ left_alone -> t ∉ bespoke_targets /\ t ∉ data_list /\ t ∉ block_list.
Proof.
  revert t. apply Forall_forall. apply (bool_decide_eq_true_1 (Forall _ _)). vm_compute. reflexivity.
Qed.
Lemma balances_not_generic : "balances" ∉ data_list ++ block_list.
Proof. apply (bool_decide_eq_true_1 (_ ∉ _)). vm_compute. reflexivity. Qed.

(** A successful rollback is its body, run on the rows the reads saw. *)
Lemma rollback_ran c b landed f r r' : benign f -> rollbackIndexer c b landed f r = (r', Done tt) ->
  exists db tr pairs, same_rows (committed r) db /\ (forall t, keyed t (committed r) -> keyed t db)
    /\ forall P Q, after P (indexerBody c b (first_action b (committed r)) tr pairs) Q -> P db -> Q (committed r').
Proof.
  intros Hf. unfold rollbackIndexer. destruct (indexerReads b f _) as [s [[[first tr] pairs]|e]] eqn:E; [|done].
  pose proof (reads_first _ _ _ _ _ _ _ E) as ->. cbn [data] in *.
  pose proof (fun t => reads_keyed t b f (Session (committed r) (queries r))) as Hkeyed. rewrite E in Hkeyed. cbn [fst data] in Hkeyed.
  pose proof (reads_same_rows (committed r) b f (Session (committed r) (queries r)) (fun _ => eq_refl)) as Hrows. rewrite E in Hrows. cbn [fst data] in Hrows.
  unfold in_transaction. cbn [queries committed]. destruct (f (sent s)); [done|].
  destruct (indexerBody _ _ _ _ _ _ _) as [s' [[]|e]] eqn:Eb; [|done]. destruct (f (sent s')); [done|]. intros [= <-]. cbn [committed].
  exists (data s), tr, pairs. split_and!; [exact Hrows|exact Hkeyed|].
  intros P Q HPQ HP. specialize (HPQ f (Session (data s) (S (sent s))) tt Hf HP). rewrite Eb in HPQ. by apply HPQ.
Qed.
Lemma rollback_exact c b landed f r r' t : benign f -> rollbackIndexer c b landed f r = (r', Done tt) ->
  t ∉ bespoke_targets -> keyed t (committed r) -> rows_of (committed r') t = unwound b (first_action b (committed r)) t (rows_of (committed r) t).
Proof.
  intros Hf Hrun Ht Hk. destruct (rollback_ran _ _ _ _ _ _ Hf Hrun) as (db & tr & pairs & Hrows & Hkeyed & Hbody).
  eapply Hbody; [by apply after_body|]. split; [by apply Hkeyed|apply Hrows].
Qed.

(** C7. A successful rollback to block [b] leaves exactly the rows of the surviving
    history: with [z] the first action of an orphaned block, a table written by the
    generic deletes alone keeps exactly its rows below [b] and below [z], in their order;
    no action-scoped table keeps a row of an orphaned action and no block-scoped or index
    table a row of an orphaned block, whatever the in-place resets did to it; and every
    table the registry exempts, looks up by id or keeps local has the rows it had. *)
Theorem rollback_removes_orphans c b landed f r r' :
  benign f -> rollbackIndexer c b landed f r = (r', Done tt) ->
  let db := committed r in let db' := committed r' in let first := first_action b db in
  (forall t, t ∉ bespoke_targets -> keyed t db -> rows_of db' t = unwound b first t (rows_of db t))
  /\ (forall t z, t ∈ data_list -> keyed t db -> first = Some z -> clean t "action_index" z db')
  /\ (forall t, t ∈ block_list -> keyed t db -> clean t "block_index" b db')
  /\ (forall t, t ∈ left_alone -> rows_of db' t = rows_of db t).
Proof.
  intros Hf Hrun db db' first. pose proof (fun t => rollback_exact _ _ _ _ _ _ t Hf Hrun) as Hexact.
  destruct (rollback_ran _ _ _ _ _ _ Hf Hrun) as (db1 & tr & pairs & Hrows & Hkeyed & Hbody). fold db db' first in Hexact, Hbody, Hkeyed, Hrows.
  split_and!; [exact Hexact|..].
  - intros t z Hin Hk Hz. eapply Hbody; [rewrite Hz; apply clean_body_action; [|exact Hin]|by apply Hkeyed].
    intros ->. apply balances_not_generic. apply elem_of_app. by left.
  - intros t Hin Hk. eapply Hbody; [apply clean_body_block; [|exact Hin]|by apply Hkeyed].
    intros ->. apply balances_not_generic. apply elem_of_app. by right.
  - intros t Ht. destruct (left_alone_untouched t Ht) as (H1 & H2 & H3). rewrite (Hexact t H1) by (split; intros Hin; [destruct (H2 Hin)|destruct (H3 Hin)]).
    exact (unwound_by_neither _ _ _ _ _ _ H2 H3).
Qed.
End Effect.
