(* ===== verification/RollbackResets.v ===== *)
(** * RollbackResets: what the in-place resets restore

    A row that survives a reorg may carry stamps an orphaned block wrote on it.  Each
    surviving row of a reset table is traced to the row it was: [all_rows t P] is an
    invariant of every later statement that keeps the columns [P] reads. *)

From S2P Require Import Prelude Sha256 JsText JsNumber JsMap Primitives GateRegistry Gates FollowerRoots Sql TableLifecycle TokenRefold Balances Rollback RollbackAtomic RollbackEffect.
From Stdlib Require Import Sorted.

#[local] Open Scope Z_scope.

Definition all_rows (t : string) (P : row -> Prop) (db : database) : Prop := forall r, r ∈ rows_of db t -> P r.
Definition agree (cs : list string) (r r' : row) : Prop := forall c, c ∈ cs -> cell r c = cell r' c.
Definition determined (cs : list string) (P : row -> Prop) : Prop := forall r r', agree cs r r' -> P r -> P r'.

Section Resets.
Context `{Mathjs} `{Dialect}.

Definition keeps (t : string) (cs : list string) (st : stmt) : Prop :=
  match st with
  | Delete _ _ _ _ _ => True
  | Update t' _ _ sets _ => t' <> t \/ forall c, c ∈ cs -> c ∉ map fst sets
  | InsertIgnore t' _ _ _ _ => t' <> t
  | Rebuild t' _ _ f => t' <> t \/ forall db l r, r ∈ f db l -> exists r0, r0 ∈ l /\ agree cs r0 r
  end.

Lemma new_rows_keeps t cs st db r : keeps t cs st -> target st = t -> r ∈ new_rows db st -> exists r0, r0 ∈ rows_of db t /\ agree cs r0 r.
Proof.
  destruct st as [t' a joins w k|t' a joins sets w|t' key f w cols|t' cols reads f]; cbn [keeps target]; intros Hk <- Hr; unfold new_rows in Hr; cbn [target] in Hr.
  - exists r. split; [by eapply drop_where_sub|done].
  - destruct Hk as [?|Hk]; [done|]. apply list_elem_of_In, in_map_iff in Hr as (r0 & <- & Hr0). exists r0. split; [by apply list_elem_of_In|].
    intros c Hc. destruct (matches db a joins w r0); [done|]. by rewrite cell_assign by auto.
  - done.
  - destruct Hk as [?|Hk]; [done|]. by eapply Hk.
Qed.

Lemma all_rows_stmt t cs P st : determined cs P -> keeps t cs st -> preserves (all_rows t P) (run_stmt st).
Proof.
  intros HP Hk. apply preserves_run_stmt. intros db Hgap Hdb r Hr. destruct (decide (target st = t)) as [Ht|Ht].
  - rewrite Ht in Hr. rewrite rows_of_set_rows in Hr.
    + destruct (new_rows_keeps t cs st db r Hk Ht Hr) as (r0 & Hr0 & Ha). eapply HP; [exact Ha|by apply Hdb].
    + eapply gap_tables; [exact Hgap|]. subst t. destruct st; cbn; left.
  - rewrite rows_of_set_rows_ne in Hr by done. by apply Hdb.
Qed.

(** A statement of a guarded step, on a replica that has its tables. *)
Definition supported (st : stmt) (db : database) : Prop := gap db (stmt_tables st) (stmt_columns st) = None.
Lemma supported_set_rows st db t l : supported st (set_rows db t l) <-> supported st db.
Proof. unfold supported. by rewrite gap_set_rows. Qed.

(** Partial correctness that also excludes the errors a guarded step would swallow. *)
Definition runs {A} (P : database -> Prop) (m : txn A) (Q : database -> Prop) : Prop :=
  forall f s, benign f -> P (data s) ->
  match m f s with (s', Done _) => Q (data s') | (_, Fail e) => isSchemaGapError e = false end.

Lemma runs_stmt st P Q :
  (forall db, P db -> supported st db) -> (forall db, P db -> Q (set_rows db (target st) (new_rows db st))) -> runs P (run_stmt st) Q.
Proof.
  intros Hsup HQ f s Hf HP. unfold run_stmt, tbind, exec, query. rewrite (Hsup _ HP).
  destruct (f (sent s)) eqn:E; cbv iota beta; [by eapply Hf|]. cbn [tret data]. by apply HQ.
Qed.
Lemma runs_bind {A B} P Q R (m : txn A) (k : A -> txn B) : runs P m Q -> (forall a, runs Q (k a) R) -> runs P (tbind m k) R.
Proof.
  intros Hm Hk f s Hf HP. unfold tbind. specialize (Hm f s Hf HP). destruct (m f s) as [s' [a|e]]; [|done]. by apply (Hk a).
Qed.
Lemma after_catch_gap m P Q : runs P m Q -> after P (catch_gap m) Q.
Proof.
  intros Hm f s a Hf HP. unfold catch_gap, catch. specialize (Hm f s Hf HP). destruct (m f s) as [s' [[]|e]]; [done|]. by rewrite Hm.
Qed.

(** ** Bet feeds *)
Definition status_row (S : list row) (name : string) : option row :=
  List.find (fun s => bool_decide (cmp3 Eq (cell s "status") (Text name) = Some true)) S.

(** An UPDATE joined to the row of a status. *)
Lemma matches_status db a x name w r :
  (forall s, holds db [(a, r); (x, s)] w = holds db [(a, r)] w) -> a <> x ->
  matches db a [("index_statuses", x)] (And (Cmp Eq (Col x "status") (Lit (Text name))) w) r
  = if satisfied db [(a, r)] w
    then map (fun s => [(a, r); (x, s)]) (List.filter (fun s => bool_decide (cmp3 Eq (cell s "status") (Text name) = Some true)) (rows_of db "index_statuses"))
    else [].
Proof.
  intros Hw Hax. unfold matches. cbn [products]. generalize (rows_of db "index_statuses"). intros S.
  induction S as [|s S IH]; [by destruct (satisfied _ _ _)|]. cbn [flat_map map app List.filter].
  assert (satisfied db [(a, r); (x, s)] (And (Cmp Eq (Col x "status") (Lit (Text name))) w)
          = bool_decide (cmp3 Eq (cell s "status") (Text name) = Some true) && satisfied db [(a, r)] w) as ->.
  { unfold satisfied. cbn [holds eval alias_row]. rewrite (bool_decide_eq_false_2 (a = x)), (bool_decide_eq_true_2 (x = x)) by done.
    change (holds db [(a, r); (x, s)] w) with (holds db [(a, r); (x, s)] w). rewrite Hw.
    destruct (cmp3 Eq (cell s "status") (Text name)) as [[]|], (holds db [(a, r)] w) as [[]|]; done. }
  cbn [map] in IH. rewrite IH. destruct (satisfied db [(a, r)] w), (bool_decide _); done.
Qed.

Lemma status_rows S name s : status_row S name = Some s ->
  exists l, List.filter (fun s => bool_decide (cmp3 Eq (cell s "status") (Text name) = Some true)) S = s :: l.
Proof.
  unfold status_row. induction S as [|x S IH]; [done|]. cbn. destruct (bool_decide _); [intros [= ->]; eauto|done].
Qed.

(** The effect of such an UPDATE on each row. *)
Lemma update_status db t a x name w sets s : a <> x -> status_row (rows_of db "index_statuses") name = Some s ->
  (forall r s, holds db [(a, r); (x, s)] w = holds db [(a, r)] w) ->
  new_rows db (Update t a [("index_statuses", x)] sets (And (Cmp Eq (Col x "status") (Lit (Text name))) w))
  = map (fun r => if satisfied db [(a, r)] w then assign db [(a, r); (x, s)] sets r else r) (rows_of db t).
Proof.
  intros Hax Hs Hw. unfold new_rows. cbn [target]. apply map_ext. intros r. rewrite matches_status by auto.
  destruct (satisfied db [(a, r)] w); [|done]. destruct (status_rows _ _ _ Hs) as [l ->]. done.
Qed.

Definition before (c : string) (b : Z) (r : row) : bool := bool_decide (cmp3 Lt (cell r c) (Int b) = Some true).
Definition feed_closed (b : Z) (cs r : row) : row :=
  if orphan "terminal_block" b r && before "closed_block" b r then <["terminal_block" := Null]> (<["feed_status_id" := cell cs "id"]> r) else r.
Definition feed_open (b : Z) (os r : row) : row :=
  if orphan "terminal_block" b r && negb (before "closed_block" b r) then <["terminal_block" := Null]> (<["feed_status_id" := cell os "id"]> r) else r.
Definition feed_unlatch (b : Z) (os r : row) : row :=
  if orphan "closed_block" b r then <["closed_block" := Null]> (<["feed_status_id" := cell os "id"]> r) else r.

Section Feeds.
Context (db : database) (b : Z) (cs os : row).
Context (Hcs : status_row (rows_of db "index_statuses") "closed" = Some cs) (Hos : status_row (rows_of db "index_statuses") "open" = Some os).

Lemma feed_closed_rows : new_rows db (reopenFeedsToClosed b) = map (feed_closed b cs) (rows_of db "bet_feeds").
Proof.
  unfold reopenFeedsToClosed. erewrite update_status; [|done|exact Hcs|done]. apply map_ext. intros r. unfold feed_closed.
  replace (satisfied _ _ _) with (orphan "terminal_block" b r && before "closed_block" b r); [done|].
  unfold satisfied, orphan, before, IsNotNull. cbn [holds eval alias_row]. change (bool_decide ("f" = "f")) with true. cbn iota.
  unfold cmp3. destruct (cell r "closed_block") eqn:E1; cbn [compare_values fmap option_fmap option_map];
    destruct (compare_values (cell r "terminal_block") (Int b)) as [[]|]; cbn; try done; by destruct (_ ?= _)%Z.
Qed.
Lemma feed_open_rows : new_rows db (reopenFeedsToOpen b) = map (feed_open b os) (rows_of db "bet_feeds").
Proof.
  unfold reopenFeedsToOpen. erewrite update_status; [|done|exact Hos|done]. apply map_ext. intros r. unfold feed_open.
  replace (satisfied _ _ _) with (orphan "terminal_block" b r && negb (before "closed_block" b r)); [done|].
  unfold satisfied, orphan, before. cbn [holds eval alias_row]. change (bool_decide ("f" = "f")) with true. cbn iota.
  unfold cmp3. destruct (cell r "closed_block") eqn:E1; cbn [compare_values fmap option_fmap option_map];
    destruct (compare_values (cell r "terminal_block") (Int b)) as [[]|]; cbn; try done; by destruct (_ ?= _)%Z.
Qed.
Lemma feed_unlatch_rows : new_rows db (clearFeedLatches b) = map (feed_unlatch b os) (rows_of db "bet_feeds").
Proof. unfold clearFeedLatches. by erewrite update_status; [|done|exact Hos|done]. Qed.
End Feeds.

(** A feed as it stood before block [b]: stamps of orphaned blocks are gone, and a feed
    that lost one is closed when its latch survives and open otherwise. *)
Definition feed_before (b : Z) (cs os r r' : row) : Prop :=
  cell r' "action_index" = cell r "action_index"
  /\ cell r' "closed_block" = (if orphan "closed_block" b r then Null else cell r "closed_block")
  /\ cell r' "terminal_block" = (if orphan "terminal_block" b r then Null else cell r "terminal_block")
  /\ cell r' "feed_status_id" = (if orphan "terminal_block" b r || orphan "closed_block" b r
                                 then if before "closed_block" b r then cell cs "id" else cell os "id" else cell r "feed_status_id").

Lemma cell_insert_eq (r : row) c v : cell (<[c := v]> r) c = v.
Proof. unfold cell. by rewrite lookup_insert_eq. Qed.
Lemma cell_insert_ne (r : row) c c' v : c <> c' -> cell (<[c := v]> r) c' = cell r c'.
Proof. intros Hc. unfold cell. by rewrite lookup_insert_ne. Qed.
Lemma before_orphan c b r : before c b r = true -> orphan c b r = false.
Proof. unfold before, orphan, cmp3. by destruct (compare_values (cell r c) (Int b)) as [[]|]. Qed.

#[local] Ltac cells := repeat first [rewrite cell_insert_eq | rewrite cell_insert_ne by discriminate].
Lemma orphan_cell c b r r' : cell r c = cell r' c -> orphan c b r = orphan c b r'.
Proof. unfold orphan. by intros ->. Qed.
Lemma orphan_null c b r : cell r c = Null -> orphan c b r = false.
Proof. unfold orphan. by intros ->. Qed.

Lemma feed_reset b cs os r : feed_before b cs os r (feed_unlatch b os (feed_open b os (feed_closed b cs r))).
Proof.
  pose proof (before_orphan "closed_block" b r) as Hex.
  assert (forall v, orphan "closed_block" b (<["terminal_block" := Null]> (<["feed_status_id" := v]> r)) = orphan "closed_block" b r) as Hkeep
    by (intros v; apply orphan_cell; by cells).
  unfold feed_before, feed_closed. destruct (orphan "terminal_block" b r) eqn:Et, (before "closed_block" b r) eqn:Eb; cbn [andb negb orb].
  - rewrite (Hex eq_refl). unfold feed_open. rewrite (orphan_null "terminal_block") by by cells. cbn [andb].
    unfold feed_unlatch. rewrite Hkeep, (Hex eq_refl). cells. done.
  - unfold feed_open. rewrite Et, Eb. cbn [andb negb]. unfold feed_unlatch. rewrite Hkeep. destruct (orphan "closed_block" b r); cells; done.
  - rewrite (Hex eq_refl). unfold feed_open. rewrite Et. cbn [andb]. unfold feed_unlatch. by rewrite (Hex eq_refl).
  - unfold feed_open. rewrite Et. cbn [andb]. unfold feed_unlatch. destruct (orphan "closed_block" b r); cells; done.
Qed.

(** ** The rest of the program keeps a traced table *)
#[local] Ltac split_member :=
  repeat match goal with
         | H : _ ∈ _ :: _ |- _ => apply elem_of_cons in H as [->|H]
         | H : _ ∈ [] |- _ => by apply not_elem_of_nil in H
         end.
#[local] Ltac keeps_stmt HP :=
  eapply all_rows_stmt; [exact HP|];
  first [ exact I | cbn; discriminate | left; cbn; discriminate
        | right; apply Forall_forall; apply (bool_decide_eq_true_1 (Forall _ _)); vm_compute; reflexivity ].
Lemma all_rows_purge t P b : preserves (all_rows t P) (purgeOrphanedPriceSnapshots b).
Proof.
  apply preserves_purge. intros k db Hdb r. destruct (decide ("price_snapshots" = t)) as [<-|Hne].
  - destruct (db !! "price_snapshots") eqn:E.
    + rewrite rows_of_set_rows by eauto. intros Hr. apply drop_where_sub in Hr. by apply Hdb.
    + unfold rows_of, set_rows. rewrite lookup_alter_eq, E. cbn. by intros ?%not_elem_of_nil.
  - rewrite rows_of_set_rows_ne by done. apply Hdb.
Qed.
Lemma all_rows_ask_all I qs : preserves I (ask_all qs).
Proof. apply preserves_query. intros db Hdb. by destruct (omap _ qs). Qed.
Lemma all_rows_foldChunks I ps out : preserves I (foldChunks ps out).
Proof. revert out. induction ps as [|x ps IH]; intros out; cbn [foldChunks]; preserves; apply IH. Qed.
Lemma all_rows_anchorChunks I ps out : preserves I (anchorChunks ps out).
Proof. revert out. induction ps as [|x ps IH]; intros out; cbn [anchorChunks]; preserves; apply IH. Qed.
Lemma all_rows_collectTables I ts z found : preserves I (collectTables ts z found).
Proof. revert found. induction ts as [|x ts IH]; intros found; cbn [collectTables]; preserves; apply IH. Qed.
Lemma all_rows_lift {A} I (r : result A) : preserves I (lift_gate r).
Proof. destruct r; [apply preserves_ret|apply preserves_throw]. Qed.

#[local] Ltac keeps_all HP :=
  unfold restoreJournals, reactivate, reverseCooldownMaturities, getStatusId, deleteCapabilityMaturityLedgerRows, deleteContractMaturityLedgerRows,
    resetArchiveHeads, collectTicks, collectRefoldTickIds, deleteOrphans, rederiveAfterDelete, rederiveEscrowGate, rederiveTokenBridged,
    rederiveCoinpayMatchStatus, sweep, sweepMarkets, sweepPair, sweepPubkeys, survives, readSurvivingMaxId, deleteLoop, recompute, rebuildBalances,
    refoldTokenRows, recomputeTokenSupplies, foldTicks, tokenAnchors, refoldOne, when_first;
  preserves;
  match goal with
  | |- preserves _ (run_stmt _) => split_member; keeps_stmt HP
  | |- preserves _ (purgeOrphanedPriceSnapshots _) => apply all_rows_purge
  | |- preserves _ (ask_all _) => apply all_rows_ask_all
  | |- preserves _ (foldChunks _ _) => apply all_rows_foldChunks
  | |- preserves _ (anchorChunks _ _) => apply all_rows_anchorChunks
  | |- preserves _ (collectTables _ _ _) => apply all_rows_collectTables
  | |- preserves _ (lift_gate _) => apply all_rows_lift
  end.

(** A precondition the statements before the reset do not disturb. *)
#[local] Ltac undisturbed :=
  apply after_preserves; preserves; apply preserves_run_stmt; intros ? _ Hdb; repeat split; rewrite ?rows_of_set_rows_ne by discriminate;
  rewrite ?supported_set_rows; apply Hdb.

Definition feed_columns : list string := ["action_index"; "closed_block"; "terminal_block"; "feed_status_id"].
Definition feeds_supported (b : Z) (db : database) : Prop :=
  supported (reopenFeedsToClosed b) db /\ supported (reopenFeedsToOpen b) db /\ supported (clearFeedLatches b) db /\ supported (reopenBets b) db.

Lemma feeds_block b R S cs os : status_row S "closed" = Some cs -> status_row S "open" = Some os ->
  runs (fun db => rows_of db "bet_feeds" = R /\ rows_of db "index_statuses" = S /\ feeds_supported b db)
    (run_stmt (reopenFeedsToClosed b) ;! run_stmt (reopenFeedsToOpen b) ;! run_stmt (clearFeedLatches b) ;! run_stmt (reopenBets b))
    (all_rows "bet_feeds" (fun r' => exists r, r ∈ R /\ feed_before b cs os r r')).
Proof.
  intros Hcs Hos.
  assert (forall st db l, supported st db -> target st = "bet_feeds" -> rows_of (set_rows db "bet_feeds" l) "bet_feeds" = l) as Hset.
  { intros st db l Hsup Ht. apply rows_of_set_rows. eapply gap_tables; [exact Hsup|]. rewrite <- Ht. destruct st; left. }
  set (I := fun g db => rows_of db "bet_feeds" = map g R /\ rows_of db "index_statuses" = S /\ feeds_supported b db).
  assert (forall st g h, target st = "bet_feeds" -> (forall db, feeds_supported b db -> supported st db) ->
    (forall db, rows_of db "index_statuses" = S -> new_rows db st = map h (rows_of db "bet_feeds")) ->
    runs (I g) (run_stmt st) (I (fun r => h (g r)))) as Hstep.
  { intros st g h Ht Hsup Hrows. apply runs_stmt; [intros db (_ & _ & Hs); by apply Hsup|]. intros db (Hf & Hi & Hs).
    rewrite Ht. split_and!; [|by rewrite rows_of_set_rows_ne|].
    - rewrite (Hset st) by auto. rewrite Hrows by done. rewrite Hf, map_map. done.
    - unfold feeds_supported in *. by rewrite !supported_set_rows. }
  assert (forall db, rows_of db "bet_feeds" = R /\ rows_of db "index_statuses" = S /\ feeds_supported b db -> I id db) as Hinit
    by (intros db (H1 & H2 & H3); split; [by rewrite map_id|done]).
  intros f s Hf HP. apply Hinit in HP. revert f s Hf HP. change (runs (I id) (run_stmt (reopenFeedsToClosed b) ;! run_stmt (reopenFeedsToOpen b) ;! run_stmt (clearFeedLatches b) ;! run_stmt (reopenBets b))
    (all_rows "bet_feeds" (fun r' => exists r, r ∈ R /\ feed_before b cs os r r'))).
  eapply runs_bind; [apply Hstep with (h := feed_closed b cs); [done|by intros ? (? & ? & ? & ?)|intros db <-; by apply feed_closed_rows]|]. intros _.
  eapply runs_bind; [apply Hstep with (h := feed_open b os); [done|by intros ? (? & ? & ? & ?)|intros db <-; by apply feed_open_rows]|]. intros _.
  eapply runs_bind; [apply Hstep with (h := feed_unlatch b os); [done|by intros ? (? & ? & ? & ?)|intros db <-; by apply feed_unlatch_rows]|]. intros _.
  apply runs_stmt; [by intros db (_ & _ & (_ & _ & _ & ?))|]. intros db (Hr & _ & _) r'. rewrite rows_of_set_rows_ne by done. rewrite Hr.
  intros (r & <- & Hin)%list_elem_of_In%in_map_iff. exists r. split; [by apply list_elem_of_In|]. apply feed_reset.
Qed.

Lemma feeds_body c b first tr pairs R S cs os : status_row S "closed" = Some cs -> status_row S "open" = Some os ->
  after (fun db => rows_of db "bet_feeds" = R /\ rows_of db "index_statuses" = S /\ feeds_supported b db)
    (indexerBody c b first tr pairs)
    (all_rows "bet_feeds" (fun r' => exists r, r ∈ R /\ feed_before b cs os r r')).
Proof.
  intros Hcs Hos. set (P := fun r' : row => exists r, r ∈ R /\ feed_before b cs os r r').
  assert (determined feed_columns P) as HP.
  { intros r1 r2 Ha (r & Hr & H1 & H2 & H3 & H4). exists r. split; [done|]. unfold feed_before.
    rewrite <- !Ha by (apply (bool_decide_eq_true_1 (_ ∈ _)); reflexivity). done. }
  unfold indexerBody, undoInPlace, resetStamps.
  eapply after_bind; [|intros _; apply after_preserves; keeps_all HP].
  eapply after_bind; [unfold when_first; undisturbed|]. intros _.
  eapply after_bind; [|intros _; apply after_preserves; keeps_all HP].
  do 4 (eapply after_bind; [undisturbed|]; intros _).
  apply after_catch_gap. by apply feeds_block.
Qed.

(** ** From the body to the rollback *)
Lemma ensure_lookup db t : is_Some (db !! t) -> is_Some (ensure_table db !! t).
Proof.
  intros Hs. unfold ensure_table. destruct (db !! "sync_state") eqn:E; [done|]. destruct (decide (t = "sync_state")) as [->|Ht]; [by rewrite E in Hs; destruct Hs|].
  by rewrite lookup_insert_ne by done.
Qed.
Lemma ensure_supported st db : supported st db -> supported st (ensure_table db).
Proof.
  unfold supported, gap. generalize (stmt_tables st) (stmt_columns st). intros ts cs.
  destruct (forallb (fun t => bool_decide (is_Some (db !! t))) ts) eqn:E1; [|done]. destruct (forallb (has_column db) cs) eqn:E2; [|done]. intros _.
  assert (forallb (fun t => bool_decide (is_Some (ensure_table db !! t))) ts = true) as ->.
  { rewrite forallb_forall in *. intros t Ht. specialize (E1 t Ht). apply bool_decide_eq_true in E1. by apply bool_decide_eq_true, ensure_lookup. }
  assert (forallb (has_column (ensure_table db)) cs = true) as ->; [|done].
  rewrite forallb_forall in *. intros p Hp. by apply ensure_has_column, E2.
Qed.
Lemma reads_preserve I b : (forall db, I db -> I (ensure_table db)) -> preserves I (indexerReads b).
Proof.
  intros HI. unfold indexerReads, getFirstActionIndex, getSyncState, ensureSyncStateTable, affectedMarketPairs.
  preserves; try apply all_rows_ask_all. apply preserves_query. intros db. apply HI.
Qed.

Lemma rollback_after P Q c b landed f r r' :
  benign f -> rollbackIndexer c b landed f r = (r', Done tt) ->
  (forall db, P db -> P (ensure_table db)) ->
  (forall first tr pairs, after P (indexerBody c b first tr pairs) Q) -> P (committed r) -> Q (committed r').
Proof.
  intros Hf Hrun HI Hbody HP. revert Hrun. unfold rollbackIndexer.
  pose proof (reads_preserve P b HI f (Session (committed r) (queries r)) HP) as Hreads.
  destruct (indexerReads b f _) as [s [[[first tr] pairs]|e]]; [|done]. cbn [fst] in Hreads.
  unfold in_transaction. cbn [queries committed]. destruct (f (sent s)); [done|].
  specialize (Hbody first tr pairs f (Session (data s) (S (sent s))) tt Hf Hreads).
  destruct (indexerBody _ _ _ _ _ _ _) as [s' [[]|e]]; [|done]. destruct (f (sent s')); [done|]. intros [= <-]. by apply Hbody.
Qed.

(** C14. A reorg gives every surviving bet feed the state it had before the orphaned blocks:
    after a successful rollback each row of [bet_feeds] is some former row with the
    closing and terminal stamps of orphaned blocks removed, closed again if its latch
    survives and open again otherwise, and unchanged if no orphaned block stamped it. *)
Theorem rollback_reopens_feeds c b landed f r r' cs os :
  benign f -> rollbackIndexer c b landed f r = (r', Done tt) ->
  feeds_supported b (committed r) ->
  status_row (rows_of (committed r) "index_statuses") "closed" = Some cs ->
  status_row (rows_of (committed r) "index_statuses") "open" = Some os ->
  forall x', x' ∈ rows_of (committed r') "bet_feeds" ->
  exists x, x ∈ rows_of (committed r) "bet_feeds" /\ feed_before b cs os x x'.
Proof.
  intros Hf Hrun Hsup Hcs Hos. pattern (committed r').
  eapply (rollback_after (fun db => rows_of db "bet_feeds" = rows_of (committed r) "bet_feeds"
    /\ rows_of db "index_statuses" = rows_of (committed r) "index_statuses" /\ feeds_supported b db)); [exact Hf|exact Hrun|..].
  - intros db (H1 & H2 & H3 & H4 & H5 & H6). rewrite !ensure_table_rows. repeat split; try done; by apply ensure_supported.
  - intros first tr pairs. by apply feeds_body.
  - done.
Qed.

(** ** Slashed stakes *)
Lemma sat_And db env p q : satisfied db env (And p q) = satisfied db env p && satisfied db env q.
Proof. unfold satisfied. cbn [holds]. by destruct (holds db env p) as [[]|], (holds db env q) as [[]|]. Qed.
Lemma sat_Or db env p q : satisfied db env (Or p q) = satisfied db env p || satisfied db env q.
Proof. unfold satisfied. cbn [holds]. by destruct (holds db env p) as [[]|], (holds db env q) as [[]|]. Qed.
Lemma sat_NotExists db env fr w : satisfied db env (Not (ExistsQ fr w)) = negb (existsb (fun p => satisfied db (p ++ env) w) (products db fr)).
Proof. unfold satisfied. cbn [holds not3 fmap option_fmap option_map]. by destruct (existsb _ _). Qed.

Definition is3 (op : cmp) (a b : value) : bool := bool_decide (cmp3 op a b = Some true).
Definition decimal (v : value) : value := match v with Null => Null | w => Dec (units w) end.

Lemma eval_Decimal db env a : eval db env (Decimal a) = decimal (eval db env a).
Proof. cbn [eval]. by destruct (eval db env a). Qed.

(** An orphaned debit of a stake, and the order of the restore. *)
Definition debit_of (t : string) (b : Z) (r d : row) : bool :=
  is3 Eq (cell d "stake_action_index") (cell r "action_index") && is3 Eq (cell d "target_table") (Text t) && orphan "block_index" b d.
Definition supersedes (b : Z) (e d : row) : bool :=
  is3 Eq (cell e "target_table") (cell d "target_table") && (is3 Eq (cell e "stake_action_index") (cell d "stake_action_index")
  && (orphan "block_index" b e
  && (is3 Gt (decimal (cell e "prev_amount")) (decimal (cell d "prev_amount"))
      || is3 Eq (decimal (cell e "prev_amount")) (decimal (cell d "prev_amount"))
         && (is3 Lt (cell e "block_index") (cell d "block_index")
             || is3 Eq (cell e "block_index") (cell d "block_index")
                && (is3 Lt (cell e "execution_index") (cell d "execution_index")
                    || is3 Eq (cell e "execution_index") (cell d "execution_index") && is3 Lt (cell e "slash_position") (cell d "slash_position")))))).

Lemma matches_debits db t b r :
  matches db "t" [("contract_slash_debits", "d")]
    (match restoreContractSlash t b with Update _ _ _ _ w => w | _ => TRUE end) r
  = map (fun d => [("t", r); ("d", d)])
      (List.filter (fun d => debit_of t b r d && negb (existsb (fun e => supersedes b e d) (rows_of db "contract_slash_debits"))) (rows_of db "contract_slash_debits")).
Proof.
  unfold matches. cbn [products restoreContractSlash].
  assert (forall l, map (cons ("t", r)) (flat_map (fun d => map (cons ("d", d)) [[]]) l) = map (fun d => [("t", r); ("d", d)]) l) as ->
    by (intros l; induction l as [|d l IH]; cbn in *; [done|by rewrite IH]).
  generalize (rows_of db "contract_slash_debits") at 1 3. intros l. induction l as [|d l IH]; [done|]. cbn [map List.filter].
  match goal with |- context [satisfied db [("t", r); ("d", d)] ?w] =>
    assert (satisfied db [("t", r); ("d", d)] w = debit_of t b r d && negb (existsb (fun e => supersedes b e d) (rows_of db "contract_slash_debits"))) as -> end.
  - rewrite !sat_And, sat_NotExists, !andb_assoc. unfold debit_of. f_equal. f_equal. cbn [products map].
    generalize (rows_of db "contract_slash_debits"). intros m. induction m as [|e m IHm]; [done|]. cbn [flat_map app existsb]. rewrite IHm. f_equal.
    repeat (rewrite sat_And || rewrite sat_Or). unfold supersedes. repeat (apply f_equal2; [try reflexivity|try reflexivity]);
      unfold satisfied; cbn [holds]; rewrite !eval_Decimal; reflexivity.
  - destruct (debit_of t b r d && _); cbn [map]; by rewrite IH.
Qed.

(** The journal's columns have their types. *)
Definition debit_typed (d : row) : Prop :=
  (exists z, cell d "stake_action_index" = Int z) /\ (exists x, cell d "target_table" = Text x) /\ cell d "prev_amount" <> Null.
(** The orphaned debits of a stake in the order they were applied: every debit takes
    from what the earlier ones left, so the amounts before them strictly decrease. *)
Definition applied_in_order (h : list row) : Prop :=
  StronglySorted (fun d e => units (cell e "prev_amount") < units (cell d "prev_amount")) h.
Definition orphaned_debits (t : string) (b : Z) (D : list row) (r : row) : list row := List.filter (debit_of t b r) D.

Lemma compare_refl x : String.compare x x = Datatypes.Eq.
Proof. pose proof (String.compare_antisym x x) as Hc. by destruct (String.compare x x). Qed.
Lemma is3_eq_int v z : is3 Eq v (Int z) = true -> (exists y, v = Int y) -> v = Int z.
Proof. intros Hv [y ->]. unfold is3, cmp3 in Hv. cbn in Hv. apply bool_decide_eq_true in Hv. destruct (Z.compare_spec y z); cbn in Hv; congruence. Qed.
Lemma is3_eq_text x y : is3 Eq (Text x) (Text y) = true -> collate x = collate y.
Proof.
  unfold is3, cmp3. cbn. intros Hv%bool_decide_eq_true. destruct (String.compare (collate x) (collate y)) eqn:E; cbn in Hv; try congruence.
  by apply String.compare_eq_iff.
Qed.
Lemma is3_text_eq x y : collate x = collate y -> is3 Eq (Text x) (Text y) = true.
Proof.
  intros He. unfold is3, cmp3. cbn. rewrite He. by rewrite compare_refl.
Qed.
Lemma is3_irrefl v : is3 Lt v v = false /\ is3 Gt v v = false.
Proof.
  unfold is3, cmp3. destruct v as [|z|x|u]; cbn; rewrite ?Z.compare_refl; [done|done| |done].
  by rewrite compare_refl.
Qed.
Lemma decimal_gt v w : v <> Null -> w <> Null -> is3 Gt (decimal v) (decimal w) = (units w <? units v).
Proof.
  intros Hv Hw. unfold is3, cmp3. assert (decimal v = Dec (units v)) as -> by by destruct v. assert (decimal w = Dec (units w)) as -> by by destruct w.
  cbn [compare_values units fmap option_fmap option_map]. destruct (Z.compare_spec (units v) (units w)); cbn; symmetry; [apply Z.ltb_ge|apply Z.ltb_ge|apply Z.ltb_lt]; lia.
Qed.
Lemma decimal_eq v w : v <> Null -> w <> Null -> is3 Eq (decimal v) (decimal w) = (units v =? units w).
Proof.
  intros Hv Hw. unfold is3, cmp3. assert (decimal v = Dec (units v)) as -> by by destruct v. assert (decimal w = Dec (units w)) as -> by by destruct w.
  cbn [compare_values units fmap option_fmap option_map]. destruct (Z.compare_spec (units v) (units w)); cbn; symmetry; [apply Z.eqb_eq|apply Z.eqb_neq|apply Z.eqb_neq]; lia.
Qed.

Lemma debit_shared t b r d e a : cell r "action_index" = Int a -> debit_typed d -> debit_typed e ->
  debit_of t b r d = true ->
  is3 Eq (cell e "target_table") (cell d "target_table") && (is3 Eq (cell e "stake_action_index") (cell d "stake_action_index") && orphan "block_index" b e)
  = debit_of t b r e.
Proof.
  intros Hr ([z Hz] & [x Hx] & _) ([z' Hz'] & [x' Hx'] & _) Hd. unfold debit_of in *. rewrite Hr, Hz, Hx in Hd. rewrite Hr, Hz, Hz', Hx, Hx'.
  apply andb_true_iff in Hd as [Hd _]. apply andb_true_iff in Hd as [Hs Ht]. apply is3_eq_int in Hs as [= ->]; [|eauto]. apply is3_eq_text in Ht.
  assert (is3 Eq (Text x') (Text x) = is3 Eq (Text x') (Text t)) as ->.
  { destruct (is3 Eq (Text x') (Text t)) eqn:E; [apply is3_eq_text in E; apply is3_text_eq; congruence|].
    destruct (is3 Eq (Text x') (Text x)) eqn:E'; [|done]. apply is3_eq_text in E'. rewrite is3_text_eq in E by congruence. done. }
  by destruct (is3 Eq (Text x') (Text t)), (is3 Eq (Int z') (Int a)), (orphan "block_index" b e).
Qed.

Lemma supersedes_debit t b r d e a : cell r "action_index" = Int a -> debit_typed d -> debit_typed e -> debit_of t b r d = true ->
  supersedes b e d = debit_of t b r e
    && (is3 Gt (decimal (cell e "prev_amount")) (decimal (cell d "prev_amount"))
        || is3 Eq (decimal (cell e "prev_amount")) (decimal (cell d "prev_amount"))
           && (is3 Lt (cell e "block_index") (cell d "block_index")
               || is3 Eq (cell e "block_index") (cell d "block_index")
                  && (is3 Lt (cell e "execution_index") (cell d "execution_index")
                      || is3 Eq (cell e "execution_index") (cell d "execution_index") && is3 Lt (cell e "slash_position") (cell d "slash_position")))).
Proof. intros Ha Hd He Hdd. unfold supersedes. rewrite <- (debit_shared t b r d e a) by done. by rewrite <- !andb_assoc. Qed.

Lemma filter_is_replicate (h : row) l : h ∈ l -> exists n, List.filter (fun d => bool_decide (d = h)) l = replicate (S n) h.
Proof.
  induction l as [|d l IH]; [by intros ?%not_elem_of_nil|]. intros Hin. cbn [List.filter].
  destruct (decide (h ∈ l)) as [Hl|Hl].
  - destruct (IH Hl) as [n ->]. case_bool_decide; [subst; by exists (S n)|by exists n].
  - assert (d = h) as -> by (apply elem_of_cons in Hin as [->|?]; done). rewrite bool_decide_eq_true_2 by done. exists 0%nat. cbn. f_equal.
    clear -Hl. induction l as [|x l IH]; [done|]. cbn. rewrite bool_decide_eq_false_2 by (intros ->; apply Hl; left). apply IH. intros ?. apply Hl. by right.
Qed.

(** The first applied debit is the one the restore picks. *)
Lemma first_debit_picked t b r D h tl a : cell r "action_index" = Int a -> Forall debit_typed D ->
  h :: tl ≡ₚ orphaned_debits t b D r -> applied_in_order (h :: tl) ->
  exists n, List.filter (fun d => debit_of t b r d && negb (existsb (fun e => supersedes b e d) D)) D = replicate (S n) h.
Proof.
  intros Ha HD Hperm Hord. apply StronglySorted_inv in Hord as [_ Hmax]. rewrite Forall_forall in HD, Hmax.
  assert (forall d, d ∈ h :: tl <-> d ∈ D /\ debit_of t b r d = true) as Hin.
  { intros d. rewrite Hperm. unfold orphaned_debits. rewrite !list_elem_of_In, filter_In. done. }
  destruct (proj1 (Hin h) ltac:(left)) as [HhD Hh].
  assert (forall d, d ∈ D -> debit_of t b r d && negb (existsb (fun e => supersedes b e d) D) = bool_decide (d = h)) as Hbest.
  { intros d Hd. destruct (debit_of t b r d) eqn:Ed; cbn [andb]; [|symmetry; apply bool_decide_eq_false; congruence].
    destruct (decide (d = h)) as [->|Hne].
    - rewrite bool_decide_eq_true_2 by done. apply negb_true_iff. apply not_true_iff_false. rewrite existsb_exists. intros (e & HeD%list_elem_of_In & He).
      rewrite (supersedes_debit t b r h e a) in He by auto. apply andb_true_iff in He as [He Hlt].
      pose proof (proj2 (Hin e) (conj HeD He)) as Hel. apply elem_of_cons in Hel as [->|Htl].
      + rewrite !(proj1 (is3_irrefl _)), !(proj2 (is3_irrefl _)) in Hlt. cbn in Hlt. rewrite !andb_false_r in Hlt. done.
      + pose proof (Hmax e Htl) as Hlt'. destruct (HD h HhD) as (_ & _ & Hn), (HD e HeD) as (_ & _ & Hn').
        rewrite decimal_gt, decimal_eq in Hlt by done. rewrite (proj2 (Z.ltb_ge (units (cell h "prev_amount")) _)), (proj2 (Z.eqb_neq (units (cell e "prev_amount")) _)) in Hlt by lia. done.
    - rewrite bool_decide_eq_false_2 by done. apply negb_false_iff, existsb_exists. exists h. split; [by apply list_elem_of_In|].
      rewrite (supersedes_debit t b r d h a) by auto. rewrite Hh. cbn [andb].
      pose proof (proj2 (Hin d) (conj Hd Ed)) as Htl. apply elem_of_cons in Htl as [?|Htl]; [done|].
      pose proof (Hmax d Htl) as Hlt. destruct (HD h HhD) as (_ & _ & Hn), (HD d Hd) as (_ & _ & Hn'). rewrite decimal_gt by done.
      by rewrite (proj2 (Z.ltb_lt _ _)). }
  rewrite (filter_ext_in _ (fun d => bool_decide (d = h))) by (intros d Hd%list_elem_of_In; by apply Hbest).
  apply filter_is_replicate. done.
Qed.

(** A stake after the restore: the amount before the first orphaned debit. *)
Definition stake_restored (t : string) (b : Z) (D : list row) (r r' : row) : Prop :=
  cell r' "action_index" = cell r "action_index"
  /\ forall hist, hist ≡ₚ orphaned_debits t b D r -> applied_in_order hist ->
     cell r' "amount" = match hist with h :: _ => cell h "prev_amount" | [] => cell r "amount" end.

Definition integer_keyed (r : row) : Prop := exists a, cell r "action_index" = Int a.

Lemma filter_and_nil (p q : row -> bool) l : List.filter p l = [] -> List.filter (fun d => p d && q d) l = [].
Proof. induction l as [|d l IH]; cbn; [done|]. destruct (p d); [done|]. apply IH. Qed.
Lemma restore_rows db t b : Forall debit_typed (rows_of db "contract_slash_debits") -> Forall integer_keyed (rows_of db t) ->
  forall r', r' ∈ new_rows db (restoreContractSlash t b) ->
  exists r, r ∈ rows_of db t /\ stake_restored t b (rows_of db "contract_slash_debits") r r'.
Proof.
  intros HD Hkey r' Hr'. change (new_rows db (restoreContractSlash t b)) with
    (map (fun r => match matches db "t" [("contract_slash_debits", "d")] (match restoreContractSlash t b with Update _ _ _ _ w => w | _ => TRUE end) r with
                   | env :: _ => assign db env [("amount", Col "d" "prev_amount")] r | [] => r end) (rows_of db t)) in Hr'.
  apply list_elem_of_In, in_map_iff in Hr' as (r & <- & Hr%list_elem_of_In). exists r. split; [done|]. rewrite matches_debits.
  set (l := List.filter _ _). rewrite Forall_forall in Hkey. destruct (Hkey r Hr) as [a Ha]. split.
  - destruct l; [done|]. cbn [map]. apply cell_assign. by apply (bool_decide_eq_true_1 (_ ∉ _)).
  - intros [|h tl] Hperm Hord.
    + assert (l = []) as ->; [|done]. unfold l. symmetry in Hperm. apply Permutation_nil_r in Hperm. unfold orphaned_debits in Hperm.
      by apply filter_and_nil.
    + destruct (first_debit_picked t b r _ h tl a Ha HD Hperm Hord) as [n Hl]. fold l in Hl. rewrite Hl. cbn [replicate map].
      change (assign db _ _ r) with (<["amount" := cell h "prev_amount"]> r). apply cell_insert_eq.
Qed.

Definition stake_columns : list string := ["action_index"; "amount"].
Definition slash_supported (b : Z) (db : database) : Prop :=
  supported (restoreContractSlash "contract_stakes" b) db /\ supported (restoreContractSlash "contract_unstakes" b) db.
(** The journal and the two stake tables before the restore. *)
Definition slash_state (b : Z) (D R U : list row) (db : database) : Prop :=
  rows_of db "contract_slash_debits" = D /\ rows_of db "contract_stakes" = R /\ rows_of db "contract_unstakes" = U /\ slash_supported b db.

Lemma restore_step t b D R : Forall debit_typed D -> Forall integer_keyed R -> t <> "contract_slash_debits" ->
  runs (fun db => rows_of db "contract_slash_debits" = D /\ rows_of db t = R /\ supported (restoreContractSlash t b) db)
    (run_stmt (restoreContractSlash t b)) (all_rows t (fun r' => exists r, r ∈ R /\ stake_restored t b D r r')).
Proof.
  intros HD HR Ht. apply runs_stmt; [by intros db (_ & _ & ?)|]. intros db (<- & <- & Hsup) r'. cbn [target restoreContractSlash].
  rewrite rows_of_set_rows by (eapply gap_tables; [exact Hsup|left]). by apply restore_rows.
Qed.

Lemma runs_weaken {A} (P P' Q : database -> Prop) (m : txn A) : (forall db, P' db -> P db) -> runs P m Q -> runs P' m Q.
Proof. intros HP Hm f s Hf HP'. apply Hm; auto. Qed.

Lemma slash_body t c b first tr pairs D R U : t ∈ ["contract_stakes"; "contract_unstakes"] ->
  Forall debit_typed D -> Forall integer_keyed R -> Forall integer_keyed U ->
  after (slash_state b D R U) (indexerBody c b first tr pairs)
    (all_rows t (fun r' => exists r, r ∈ (if bool_decide (t = "contract_stakes") then R else U) /\ stake_restored t b D r r')).
Proof.
  intros Ht HD HR HU. set (P := fun r' : row => exists r, r ∈ (if bool_decide (t = "contract_stakes") then R else U) /\ stake_restored t b D r r').
  assert (determined stake_columns P) as HP.
  { intros r1 r2 Ha (r & Hr & H1 & H2). exists r. split; [done|]. split.
    - rewrite <- Ha; [done|]. apply (bool_decide_eq_true_1 (_ ∈ _)); reflexivity.
    - intros hist Hp Ho. rewrite <- Ha; [by apply H2|]. apply (bool_decide_eq_true_1 (_ ∈ _)); reflexivity. }
  unfold indexerBody, undoInPlace, resetStamps, restoreJournals.
  eapply after_bind; [|intros _; apply after_preserves; split_member; keeps_all HP].
  eapply after_bind; [unfold when_first; undisturbed|]. intros _.
  eapply after_bind; [|intros _; eapply after_bind; [|intros _; apply after_preserves; split_member; keeps_all HP]].
  { apply after_preserves. preserves. all: apply preserves_run_stmt; intros ? _ Hdb; unfold slash_state, slash_supported in *; rewrite !supported_set_rows, ?rows_of_set_rows_ne by discriminate; done. }
  eapply after_bind; [|intros _; apply after_preserves; split_member; keeps_all HP].
  cbn [each]. split_member.
  - eapply after_bind; [|intros _; apply after_preserves; keeps_all HP]. apply after_catch_gap. eapply runs_weaken; [|by apply restore_step].
    intros db (H1 & H2 & H3 & H4 & H5). done.
  - eapply after_bind; [instantiate (1 := fun db => rows_of db "contract_slash_debits" = D /\ rows_of db "contract_unstakes" = U /\ supported (restoreContractSlash "contract_unstakes" b) db)|].
    + eapply after_weaken; [|undisturbed]. intros db (H1 & H2 & H3 & H4 & H5). done.
    + intros _. eapply after_bind; [|intros _; apply after_preserves; keeps_all HP]. apply after_catch_gap. by apply restore_step.
Qed.

(** C13. A reorg gives every surviving contract stake back what orphaned slashes took: after
    a successful rollback each row of the two stake tables is a former row whose amount
    is, byte for byte, the one journalled before the first orphaned slash in the order
    the slashes were applied, whatever the order of the journal's rows, their blocks and
    their positions, and a row no orphaned slash touched keeps its amount. *)
Theorem rollback_restores_stakes c b landed f r r' t :
  benign f -> rollbackIndexer c b landed f r = (r', Done tt) ->
  t ∈ ["contract_stakes"; "contract_unstakes"] -> slash_supported b (committed r) ->
  let journal := rows_of (committed r) "contract_slash_debits" in
  Forall debit_typed journal -> Forall integer_keyed (rows_of (committed r) "contract_stakes") ->
  Forall integer_keyed (rows_of (committed r) "contract_unstakes") ->
  forall x', x' ∈ rows_of (committed r') t -> exists x, x ∈ rows_of (committed r) t /\ stake_restored t b journal x x'.
Proof.
  intros Hf Hrun Ht Hsup journal HD HR HU x' Hx'.
  set (P := slash_state b journal (rows_of (committed r) "contract_stakes") (rows_of (committed r) "contract_unstakes")).
  set (Q := all_rows t (fun r' => exists r0, r0 ∈ (if bool_decide (t = "contract_stakes") then rows_of (committed r) "contract_stakes" else rows_of (committed r) "contract_unstakes")
    /\ stake_restored t b journal r0 r')).
  destruct (rollback_after P Q c b landed f r r' Hf Hrun) with (r := x') as (x & Hx & Hres).
  - intros db (H1 & H2 & H3 & H4 & H5). unfold P, slash_state, slash_supported. rewrite !ensure_table_rows. repeat split; try done; by apply ensure_supported.
  - intros first tr pairs. by apply slash_body.
  - done.
  - done.
  - exists x. split; [|done]. split_member; done.
Qed.
End Resets.
