(* ===== verification/RollbackBalances.v ===== *)
(** * RollbackBalances: a rollback leaves the balances of the surviving ledger

    The composition of [src/src/client/rollback.js] with
    [src/src/db/balance_helpers.js]: the rebuild runs after every delete of ledger rows,
    and what follows it writes [tokens] only. *)

From S2P Require Import Prelude Sha256 JsText JsNumber JsMap Primitives GateRegistry Gates FollowerRoots Sql TableLifecycle TokenRefold Balances Rollback RollbackAtomic RollbackEffect RollbackResets.

#[local] Open Scope Z_scope.

Section Rebuilt.
Context `{Mathjs} `{Dialect}.

Lemma after_catch_missing m P Q : runs P m Q -> after P (catch_missing m) Q.
Proof.
  intros Hm f s a Hf HP. unfold catch_missing, catch. specialize (Hm f s Hf HP). destruct (m f s) as [s' [[]|e]]; [done|].
  unfold isSchemaGapError in Hm. apply bool_decide_eq_false in Hm. rewrite bool_decide_eq_false_2 by tauto. done.
Qed.

(** The replica has the ledger and the balances. *)
Definition ledger_supported (db : database) : Prop := supported (clearBalances None) db /\ supported (insertBalances None) db.
Lemma ledger_supported_set_rows db t l : ledger_supported db -> ledger_supported (set_rows db t l).
Proof. unfold ledger_supported. by rewrite !supported_set_rows. Qed.

Lemma balanced_frame db t l : t ∉ ["balances"; "credits"; "debits"] -> balanced db -> balanced (set_rows db t l).
Proof.
  intros Ht Hb k. specialize (Hb k). unfold held, owed, net, ledger_rows in *. cbn zeta in *.
  rewrite !rows_of_set_rows_ne by (intros ->; apply Ht; apply (bool_decide_eq_true_1 (_ ∈ _)); reflexivity). rewrite Hb. reflexivity.
Qed.

Lemma runs_rebuild : runs ledger_supported (rebuildBalances None) balanced.
Proof.
  cbn [rebuildBalances]. eapply (runs_bind _ (fun db => exists db0, ledger_supported db0 /\ db = set_rows db0 "balances" (new_rows db0 (clearBalances None)))).
  - apply runs_stmt; [by intros db [? ?]|]. intros db Hdb. exists db. done.
  - intros _. apply runs_stmt.
    + intros db (db0 & Hs & ->). by apply supported_set_rows, Hs.
    + intros db (db0 & [Hc _] & ->). assert (is_Some (db0 !! "balances")) as Hdb by (eapply gap_tables; [exact Hc|left]).
      destruct (rebuilt_rows db0 None Hdb) as [Hheld Hnet]. intros k. cbn [target insertBalances]. rewrite Hheld. unfold owed at 2. by rewrite Hnet.
Qed.

#[local] Ltac structural stmt_tac :=
  unfold undoInPlace, resetStamps, restoreJournals, reactivate, reverseCooldownMaturities, getStatusId, deleteCapabilityMaturityLedgerRows,
    deleteContractMaturityLedgerRows, resetArchiveHeads, collectTicks, collectRefoldTickIds, deleteOrphans, rederiveAfterDelete, rederiveEscrowGate,
    rederiveTokenBridged, rederiveCoinpayMatchStatus, sweep, sweepMarkets, sweepPair, sweepPubkeys, survives, readSurvivingMaxId, deleteLoop,
    refoldTokenRows, recomputeTokenSupplies, foldTicks, tokenAnchors, refoldOne, when_first;
  preserves;
  match goal with
  | |- preserves _ (run_stmt _) => apply preserves_run_stmt; stmt_tac
  | |- preserves _ (purgeOrphanedPriceSnapshots _) => apply preserves_purge; intros ? ?; apply ledger_supported_set_rows
  | |- preserves _ (ask_all _) => apply all_rows_ask_all
  | |- preserves _ (foldChunks _ _) => apply all_rows_foldChunks
  | |- preserves _ (anchorChunks _ _) => apply all_rows_anchorChunks
  | |- preserves _ (collectTables _ _ _) => apply all_rows_collectTables
  | |- preserves _ (lift_gate _) => apply all_rows_lift
  end.

Lemma balanced_body c b first tr pairs : after ledger_supported (indexerBody c b first tr pairs) balanced.
Proof.
  unfold indexerBody.
  do 4 (eapply after_bind; [apply after_preserves; structural ltac:(intros ? _; apply ledger_supported_set_rows)|intros ?]).
  unfold recompute. eapply after_bind; [apply after_catch_missing, runs_rebuild|]. intros _. apply after_preserves.
  structural ltac:(intros ? _; apply balanced_frame; by apply (bool_decide_eq_true_1 (_ ∉ _))).
Qed.

(** C15. A reorg leaves the balances of the surviving ledger: after a successful rollback,
    whatever the balances were and whatever faults were retried on the way, each address
    and tick has exactly one row, the minimal decimal text of its surviving credits less
    its surviving debits, and a pair that nets to zero has none. *)
Theorem rollback_balances c b landed f r r' :
  benign f -> rollbackIndexer c b landed f r = (r', Done tt) -> ledger_supported (committed r) -> balanced (committed r').
Proof.
  intros Hf Hrun. eapply rollback_after; [exact Hf|exact Hrun| |intros; apply balanced_body].
  intros db [? ?]. split; by apply ensure_supported.
Qed.
End Rebuilt.
