(* ===== verification/RollbackInPlace.v ===== *)
(** * RollbackInPlace: a rollback edits the columns the registry declares, and no other

    [CONTENT_PARITY_IN_PLACE_COLUMNS] of [src/src/table_lifecycle.js] lists the columns a
    later block edits on an otherwise append-only row.  Every UPDATE of the rollback stays
    within it, so any other column of a surviving row is the replicated value, and only two
    tables gain rows. *)

From S2P Require Import Prelude Sha256 JsText JsNumber JsMap Primitives GateRegistry Gates FollowerRoots Sql TableLifecycle TokenRefold Balances Rollback RollbackAtomic RollbackEffect RollbackResets.

#[local] Open Scope Z_scope.

Definition in_place (t : string) : list string :=
  default [] (snd <$> List.find (fun p => bool_decide (p.1 = t)) CONTENT_PARITY_IN_PLACE_COLUMNS).

Section InPlace.
Context `{Mathjs} `{Dialect}.
Context (t : string) (cs : list string).
Context (Ht : t ∉ ["balances"; "validator_rewards"]) (Hcs : forall c, c ∈ cs -> c ∉ in_place t).

(** [l] is what is left of [R] after deletes and edits outside [cs]: the rows of a part of
    [R], in their order, each with its columns [cs] as they were. *)
Definition trimmed_to (R l : list row) : Prop := exists kept, kept `sublist_of` R /\ Forall2 (agree cs) kept l.

Lemma agree_trans r1 r2 r3 : agree cs r1 r2 -> agree cs r2 r3 -> agree cs r1 r3.
Proof. intros H12 H23 c Hc. rewrite H12 by done. by apply H23. Qed.
Lemma trimmed_refl R : trimmed_to R R.
Proof. exists R. split; [done|]. by apply Forall2_same_length_lookup_2; [|intros i x y Hx Hy; simplify_eq]. Qed.
Lemma trimmed_sublist R l : l `sublist_of` R -> trimmed_to R l.
Proof. intros Hl. destruct (trimmed_refl l) as (k & Hk & Ha). exists k. split; [by etrans|done]. Qed.
(** A part of the rows on one side has its counterpart on the other. *)
Lemma sublist_counterpart l l1 l2 : Forall2 (agree cs) l1 l2 -> l `sublist_of` l2 -> exists k, k `sublist_of` l1 /\ Forall2 (agree cs) k l.
Proof.
  intros Ha. revert l. induction Ha as [|x y l1 l2 Hxy Ha IH]; intros l Hl.
  - apply sublist_nil_r in Hl as ->. by exists [].
  - apply sublist_cons_r in Hl as [Hl|(l' & -> & Hl)]; destruct (IH _ Hl) as (k & Hk & Hkl).
    + exists k. split; [by apply sublist_cons|done].
    + exists (x :: k). split; [by apply sublist_skip|by constructor].
Qed.
Lemma trimmed_trans R l l' : trimmed_to R l -> trimmed_to l l' -> trimmed_to R l'.
Proof.
  intros (k & Hk & Ha) (k' & Hk' & Ha'). destruct (sublist_counterpart _ _ _ Ha Hk') as (k2 & Hk2 & Ha2). exists k2. split; [by etrans|].
  clear -Ha' Ha2. revert k2 Ha2. induction Ha'; intros k2 Ha2; inversion Ha2; subst; constructor; eauto using agree_trans.
Qed.
Lemma trimmed_map (f : row -> row) l : (forall r, agree cs r (f r)) -> trimmed_to l (map f l).
Proof. intros Hf. exists l. split; [done|]. induction l; constructor; auto. Qed.
Lemma drop_where_sublist k p (l : list row) : drop_where k p l `sublist_of` l.
Proof.
  revert k. induction l as [|r l IH]; intros k; cbn; [done|]. destruct k as [[|k]|]; [done|..]; (destruct (p r); [by apply sublist_cons|by apply sublist_skip]).
Qed.

Definition trims (st : stmt) : Prop :=
  match st with
  | Delete _ _ _ _ _ => True
  | Update t' _ _ sets _ => t' <> t \/ forall c, c ∈ cs -> c ∉ map fst sets
  | InsertIgnore t' _ _ _ _ => t' <> t
  | Rebuild t' _ _ f => t' <> t \/ forall db l, trimmed_to l (f db l)
  end.
Definition trimmed_rows (R : list row) (db : database) : Prop := trimmed_to R (rows_of db t).

Lemma new_rows_trims st db : trims st -> target st = t -> trimmed_to (rows_of db t) (new_rows db st).
Proof.
  destruct st as [t' a joins w k|t' a joins sets w|t' key f w cols|t' cols reads f]; cbn [trims target]; intros Hk <-; unfold new_rows; cbn [target].
  - apply trimmed_sublist, drop_where_sublist.
  - destruct Hk as [?|Hk]; [done|]. apply trimmed_map. intros r c Hc. destruct (matches db a joins w r); [done|]. by rewrite cell_assign by auto.
  - done.
  - destruct Hk as [?|Hk]; [done|]. apply Hk.
Qed.
Lemma trimmed_stmt R st : trims st -> preserves (trimmed_rows R) (run_stmt st).
Proof.
  intros Hk. apply preserves_run_stmt. unfold trimmed_rows. intros db Hgap Hdb. destruct (decide (target st = t)) as [Ht'|Ht'].
  - rewrite Ht'. rewrite rows_of_set_rows.
    + by eapply trimmed_trans, new_rows_trims.
    + eapply gap_tables; [exact Hgap|]. rewrite <- Ht'. destruct st; cbn; left.
  - by rewrite rows_of_set_rows_ne by done.
Qed.
Lemma trimmed_purge R b : preserves (trimmed_rows R) (purgeOrphanedPriceSnapshots b).
Proof.
  apply preserves_purge. unfold trimmed_rows. intros k db Hdb. destruct (decide ("price_snapshots" = t)) as [<-|Hne].
  - destruct (db !! "price_snapshots") eqn:E.
    + rewrite rows_of_set_rows by eauto. eapply trimmed_trans; [exact Hdb|]. apply trimmed_sublist, drop_where_sublist.
    + unfold rows_of, set_rows. rewrite lookup_alter_eq, E. apply trimmed_sublist, sublist_nil_l.
  - by rewrite rows_of_set_rows_ne by done.
Qed.

Lemma trims_update T a joins sets w : Forall (fun c => c ∈ in_place T) (map fst sets) -> trims (Update T a joins sets w).
Proof.
  intros Hsets. destruct (decide (T = t)) as [->|HT]; [right|by left]. intros c Hc Hin. rewrite Forall_forall in Hsets. by apply (Hcs c Hc), Hsets.
Qed.
Lemma trims_refoldStmt x : trims (refoldStmt x).
Proof.
  apply trims_update. rewrite map_map. change (map _ (tokenColumns (f_data x))) with FOLD_COLUMNS.
  apply (bool_decide_eq_true_1 (Forall _ _)). vm_compute. reflexivity.
Qed.
Lemma trims_supplyStmt d : trims (supplyStmt d).
Proof.
  destruct (decide ("tokens" = t)) as [<-|HT]; [right|by left]. intros db l. apply trimmed_map. intros r c Hc.
  case_bool_decide; [|done]. unfold cell. rewrite lookup_insert_ne; [done|]. intros <-. apply (Hcs "supply" Hc).
  apply (bool_decide_eq_true_1 (_ ∈ _)). vm_compute. reflexivity.
Qed.
Lemma not_inserted T : T ∈ ["balances"; "validator_rewards"] -> T <> t.
Proof. by intros HT ->. Qed.

#[local] Ltac member := apply (bool_decide_eq_true_1 (_ ∈ _)); vm_compute; reflexivity.
#[local] Ltac split_member :=
  repeat match goal with
         | H : _ ∈ _ :: _ |- _ => apply elem_of_cons in H as [->|H]
         | H : _ ∈ [] |- _ => by apply not_elem_of_nil in H
         end.
#[local] Ltac in_place_stmt :=
  apply trimmed_stmt;
  first [ exact I | apply trims_refoldStmt | apply trims_supplyStmt
        | apply trims_update; apply (bool_decide_eq_true_1 (Forall _ _)); vm_compute; reflexivity
        | apply not_inserted; member | left; apply not_inserted; member ].

#[local] Ltac in_place_all :=
  unfold undoInPlace, resetStamps, restoreJournals, reactivate, reverseCooldownMaturities, getStatusId, deleteCapabilityMaturityLedgerRows,
    deleteContractMaturityLedgerRows, resetArchiveHeads, collectTicks, collectRefoldTickIds, deleteOrphans, rederiveAfterDelete, rederiveEscrowGate,
    rederiveTokenBridged, rederiveCoinpayMatchStatus, sweep, sweepMarkets, sweepPair, sweepPubkeys, survives, readSurvivingMaxId, deleteLoop,
    recompute, rebuildBalances, refoldTokenRows, recomputeTokenSupplies, foldTicks, tokenAnchors, refoldOne, when_first;
  preserves;
  match goal with
  | |- preserves _ (run_stmt _) => split_member; in_place_stmt
  | |- preserves _ (purgeOrphanedPriceSnapshots _) => apply trimmed_purge
  | |- preserves _ (ask_all _) => apply all_rows_ask_all
  | |- preserves _ (foldChunks _ _) => apply all_rows_foldChunks
  | |- preserves _ (anchorChunks _ _) => apply all_rows_anchorChunks
  | |- preserves _ (collectTables _ _ _) => apply all_rows_collectTables
  | |- preserves _ (lift_gate _) => apply all_rows_lift
  end.

Lemma trimmed_body R c b first tr pairs : preserves (trimmed_rows R) (indexerBody c b first tr pairs).
Proof.
  unfold indexerBody. apply preserves_bind; [in_place_all|intros _]. apply preserves_bind; [in_place_all|intros ticks].
  apply preserves_bind; [in_place_all|intros _]. apply preserves_bind; [in_place_all|intros _]. in_place_all.
Qed.
End InPlace.

(** ** Rows a rollback leaves in place *)

(** The tables a hand-written statement deletes from or inserts into. *)
Definition removal_targets : list string :=
  ["contract_emissions"; "credits"; "escrows"; "icons"; "validator_rewards"; "markets"; "pubkeys"; "price_snapshots"; "rollcall_gates";
   "rollcall_absences"; "rollcalls"; "oracle_prices"; "cross_chain_calls"; "cross_chain_matches"; "bridge_transfers"; "sync_meta"; "merkle_epochs";
   "attest_validator_stats"; "balances"].

Section Held.
Context `{Mathjs} `{Dialect}.
Context (t : string) (cs : list string) (R : list row).
Context (Ht : t ∉ removal_targets) (Hcs : forall c, c ∈ cs -> c ∉ in_place t).

(** Each row of [R] has its counterpart among the rows of the table. *)
Definition rows_held (db : database) : Prop := exists k, k `sublist_of` rows_of db t /\ Forall2 (agree cs) R k.

Definition spares (st : stmt) : Prop :=
  match st with
  | Delete t' a joins w _ => t' <> t \/ forall db x r, x ∈ R -> agree cs x r -> matches db a joins w r = []
  | Update t' _ _ sets _ => t' <> t \/ forall c, c ∈ cs -> c ∉ map fst sets
  | InsertIgnore t' _ _ _ _ => t' <> t
  | Rebuild t' _ _ f => t' <> t \/ forall db l, Forall2 (agree cs) l (f db l)
  end.

Lemma sublist_drop_where p n (k l : list row) : k `sublist_of` l -> Forall (fun r => p r = false) k -> k `sublist_of` drop_where n p l.
Proof.
  intros Hk. revert n. induction Hk as [|x k l Hk IH|x k l Hk IH]; intros n Hp; cbn.
  - done.
  - apply Forall_cons in Hp as [Hx Hp]. rewrite Hx. destruct n as [[|n]|]; apply sublist_skip; auto.
  - destruct n as [[|n]|]; [by apply sublist_cons|..]; destruct (p x); try apply sublist_cons; auto.
Qed.
Lemma sublist_image (k l l' : list row) : Forall2 (agree cs) l l' -> k `sublist_of` l -> exists k', k' `sublist_of` l' /\ Forall2 (agree cs) k k'.
Proof.
  intros Ha. revert k. induction Ha as [|x y l l' Hxy Ha IH]; intros k Hk.
  - apply sublist_nil_r in Hk as ->. by exists [].
  - apply sublist_cons_r in Hk as [Hk|(k1 & -> & Hk)]; destruct (IH _ Hk) as (k' & Hk' & Hkk).
    + exists k'. split; [by apply sublist_cons|done].
    + exists (y :: k'). split; [by apply sublist_skip|by constructor].
Qed.
Lemma agree_all_trans l1 l2 l3 : Forall2 (agree cs) l1 l2 -> Forall2 (agree cs) l2 l3 -> Forall2 (agree cs) l1 l3.
Proof. intros H12. revert l3. induction H12; intros l3 H23; inversion H23; subst; constructor; eauto using agree_trans. Qed.

Lemma held_stmt st : spares st -> preserves rows_held (run_stmt st).
Proof.
  intros Hs. apply preserves_run_stmt. intros db Hgap (k & Hk & Ha). destruct (decide (target st = t)) as [Ht'|Ht'].
  2: { exists k. by rewrite rows_of_set_rows_ne by done. }
  unfold rows_held. rewrite Ht', rows_of_set_rows. 2: { eapply gap_tables; [exact Hgap|]. rewrite <- Ht'. destruct st; cbn; left. }
  assert (forall l', Forall2 (agree cs) (rows_of db t) l' -> exists k', k' `sublist_of` l' /\ Forall2 (agree cs) R k') as Himage.
  { intros l' Hl'. destruct (sublist_image k _ _ Hl' Hk) as (k' & Hk' & Hkk). exists k'. split; [done|by eapply agree_all_trans]. }
  destruct st as [t' a joins w n|t' a joins sets w|t' key f w cols|t' cols reads f]; cbn [spares target] in Hs, Ht'; subst t'; unfold new_rows; cbn [target].
  - destruct Hs as [?|Hs]; [done|]. exists k. split; [|done]. apply sublist_drop_where; [done|]. apply Forall_forall. intros r [i Hi]%list_elem_of_lookup.
    destruct (Forall2_lookup_r _ _ _ _ _ Ha Hi) as (x & Hx%list_elem_of_lookup_2 & Hxr). by rewrite (Hs db x r).
  - destruct Hs as [?|Hs]; [done|]. apply Himage. generalize (rows_of db t). intros l. induction l as [|r l IH]; constructor; [|done].
    intros c Hc. destruct (matches db a joins w r); [done|]. by rewrite cell_assign by auto.
  - done.
  - destruct Hs as [?|Hs]; [done|]. apply Himage, Hs.
Qed.
Lemma held_purge b : preserves rows_held (purgeOrphanedPriceSnapshots b).
Proof.
  apply preserves_purge. unfold rows_held. intros k db Hdb. rewrite rows_of_set_rows_ne; [done|]. intros <-. apply Ht.
  apply (bool_decide_eq_true_1 (_ ∈ _)). vm_compute. reflexivity.
Qed.
Lemma held_deleteLoop ts c z : c ∈ cs -> (t ∈ ts -> Forall (fun r => orphan c z r = false) R) -> preserves rows_held (deleteLoop ts c z).
Proof.
  intros Hc Hz. unfold deleteLoop. preserves. apply held_stmt. unfold deleteFrom. cbn [spares]. destruct (decide (x = t)) as [->|]; [right|by left].
  intros db y r Hy Ha. specialize (Hz ltac:(done)). rewrite Forall_forall in Hz. specialize (Hz y Hy).
  destruct (matches db "t" [] (Cmp Ge (Col "t" c) (Lit (Int z))) r) eqn:E; [done|]. exfalso. pose proof (alone_match db "t" (Cmp Ge (Col "t" c) (Lit (Int z))) r) as Hm. rewrite E in Hm.
  rewrite bool_decide_eq_false_2 in Hm by done. cbn [negb] in Hm. symmetry in Hm. change (orphan c z r = true) in Hm.
  unfold orphan in Hm, Hz. rewrite (Ha c Hc) in Hz. congruence.
Qed.

Lemma spares_update T a joins sets w : Forall (fun c => c ∈ in_place T) (map fst sets) -> spares (Update T a joins sets w).
Proof.
  intros Hsets. destruct (decide (T = t)) as [->|HT]; [right|by left]. intros c Hc Hin. rewrite Forall_forall in Hsets. by apply (Hcs c Hc), Hsets.
Qed.
Lemma spares_refoldStmt x : spares (refoldStmt x).
Proof.
  apply spares_update. rewrite map_map. change (map _ (tokenColumns (f_data x))) with FOLD_COLUMNS.
  apply (bool_decide_eq_true_1 (Forall _ _)). vm_compute. reflexivity.
Qed.
Lemma spares_supplyStmt d : spares (supplyStmt d).
Proof.
  destruct (decide ("tokens" = t)) as [<-|HT]; [right|by left]. intros db l. induction l as [|r l IH]; constructor; [|done]. intros c Hc.
  case_bool_decide; [|done]. unfold cell. rewrite lookup_insert_ne; [done|]. intros <-. apply (Hcs "supply" Hc).
  apply (bool_decide_eq_true_1 (_ ∈ _)). vm_compute. reflexivity.
Qed.
Lemma not_removal T : T ∈ removal_targets -> T <> t.
Proof. by intros HT ->. Qed.

#[local] Ltac member := apply (bool_decide_eq_true_1 (_ ∈ _)); vm_compute; reflexivity.
#[local] Ltac split_member :=
  repeat match goal with
         | H : _ ∈ _ :: _ |- _ => apply elem_of_cons in H as [->|H]
         | H : _ ∈ [] |- _ => by apply not_elem_of_nil in H
         end.
#[local] Ltac held_run :=
  apply held_stmt;
  first [ apply spares_refoldStmt | apply spares_supplyStmt
        | apply spares_update; apply (bool_decide_eq_true_1 (Forall _ _)); vm_compute; reflexivity
        | apply not_removal; member | left; apply not_removal; member ].
#[local] Ltac held_all :=
  unfold undoInPlace, resetStamps, restoreJournals, reactivate, reverseCooldownMaturities, getStatusId, deleteCapabilityMaturityLedgerRows,
    deleteContractMaturityLedgerRows, resetArchiveHeads, collectTicks, collectRefoldTickIds, rederiveAfterDelete, rederiveEscrowGate,
    rederiveTokenBridged, rederiveCoinpayMatchStatus, sweep, sweepMarkets, sweepPair, sweepPubkeys, survives, readSurvivingMaxId,
    recompute, rebuildBalances, refoldTokenRows, recomputeTokenSupplies, foldTicks, tokenAnchors, refoldOne, when_first;
  preserves;
  match goal with
  | |- preserves _ (run_stmt _) => split_member; held_run
  | |- preserves _ (purgeOrphanedPriceSnapshots _) => apply held_purge
  | |- preserves _ (ask_all _) => apply all_rows_ask_all
  | |- preserves _ (foldChunks _ _) => apply all_rows_foldChunks
  | |- preserves _ (anchorChunks _ _) => apply all_rows_anchorChunks
  | |- preserves _ (collectTables _ _ _) => apply all_rows_collectTables
  | |- preserves _ (lift_gate _) => apply all_rows_lift
  | |- preserves _ (deleteLoop _ "close_block" _) => unfold deleteLoop; preserves; split_member; held_run
  end.

(** The body of a rollback leaves the rows that its deletes by index do not name. *)
Lemma held_body c b first tr pairs : "action_index" ∈ cs -> "block_index" ∈ cs ->
  (t ∈ dataTables replicaRollbackTables -> forall z, first = Some z -> Forall (fun r => orphan "action_index" z r = false) R) ->
  (t ∈ blockTables replicaRollbackTables ++ indexTables replicaRollbackTables -> Forall (fun r => orphan "block_index" b r = false) R) ->
  preserves rows_held (indexerBody c b first tr pairs).
Proof.
  intros Ha Hb Hact Hblk. unfold indexerBody. apply preserves_bind; [held_all|intros _]. apply preserves_bind; [held_all|intros ticks].
  apply preserves_bind; [|intros _; apply preserves_bind; [held_all|intros _]; held_all].
  unfold deleteOrphans. apply preserves_bind; [|intros _].
  { destruct first as [z|]; cbn [when_first]; [|apply preserves_ret]. apply preserves_bind; [|intros _; held_all]. apply held_deleteLoop; [done|].
    intros Hin. by apply Hact. }
  apply preserves_bind; [held_all|intros _]. apply preserves_bind; [apply held_deleteLoop; [done|]; intros Hin; apply Hblk, elem_of_app; by left|intros _].
  apply preserves_bind; [held_all|intros _]. apply held_deleteLoop; [done|]. intros Hin. apply Hblk, elem_of_app. by right.
Qed.
End Held.

Section Whole.
Context `{Mathjs} `{Dialect}.

(** C16. However a rollback ends, and under any faults, it edits in place only the columns
    the registry declares as edited by later blocks, and adds no row: for every table but
    [balances] and [validator_rewards], the rows afterwards correspond one to one, in order,
    to a part of the rows before, each equal to its former row in every column that is not
    declared. *)
Theorem rollback_edits_declared_columns c b landed f r t cs :
  t ∉ ["balances"; "validator_rewards"] -> (forall k, k ∈ cs -> k ∉ in_place t) ->
  exists kept, kept `sublist_of` rows_of (committed r) t
  /\ Forall2 (agree cs) kept (rows_of (committed (rollbackIndexer c b landed f r).1) t).
Proof.
  intros Ht Hcs. set (I := trimmed_rows t cs (rows_of (committed r) t)).
  change (I (committed (rollbackIndexer c b landed f r).1)).
  assert (I (committed r)) as Hinit by apply trimmed_refl.
  assert (forall db, I db -> I (ensure_table db)) as Hens by (intros db Hdb; unfold I, trimmed_rows; by rewrite ensure_table_rows).
  pose proof (reads_preserve I b Hens f (Session (committed r) (queries r)) Hinit) as Hreads. unfold rollbackIndexer.
  destruct (indexerReads b f _) as [s [[[first tr] pairs]|e]]; cbn [fst] in Hreads; [|done].
  unfold in_transaction. cbn [queries committed]. destruct (f (sent s)); [done|].
  pose proof (trimmed_body t cs Ht Hcs (rows_of (committed r) t) c b first tr pairs f (Session (data s) (S (sent s))) Hreads) as Hbody.
  destruct (indexerBody _ _ _ _ _ _ _) as [s' [[]|e]]; cbn [fst] in Hbody; [|done].
  destruct (f (sent s')); [|done]. by destruct (landed (sent s')).
Qed.
End Whole.
