(* ===== verification/RollbackExample.v ===== *)
(** * RollbackExample: a small replica unwound

    Two orphaned blocks close a feed, slash a stake twice, credit an address and index a
    ticker.  Tables the replica does not have are schema gaps the rollback swallows. *)

From S2P Require Import Prelude Sha256 JsText JsNumber JsMap Primitives GateRegistry Gates FollowerRoots Sql TableLifecycle TokenRefold Balances Rollback RollbackAtomic RollbackEffect RollbackResets RollbackBalances RollbackInPlace.

#[local] Open Scope Z_scope.

Module Example.

#[local] Instance dialect : Dialect := {| cast_decimal := fun s => default 0 (amount_units s); collate := id |}.
#[local] Instance mathjs : Mathjs := {| formatFixed := fun s _ => s; gteBoundary := fun _ => Some false |}.

#[local] Notation I z := (Int z).
Definition mk (cols : list string) (l : list (list value)) : table := Table cols (map (fun vs => list_to_map (zip cols vs)) l).

Definition before_rollback : database := list_to_map
  [("blocks", mk ["block_index"] [[I 99]; [I 100]; [I 101]; [I 102]]);
   ("actions", mk ["action_index"; "block_index"; "source_id"] [[I 1; I 99; I 5]; [I 2; I 100; I 5]; [I 3; I 101; I 6]; [I 4; I 102; I 6]]);
   ("index_statuses", mk ["id"; "status"] [[I 1; Text "valid"]; [I 2; Text "open"]; [I 3; Text "closed"]; [I 4; Text "resolved"]]);
   ("index_tickers", mk ["id"; "tick"; "block_index"] [[I 1; Text "XCHAIN"; I 99]; [I 2; Text "NEW"; I 102]]);
   ("index_addresses", mk ["id"; "address"; "block_index"] [[I 5; Text "alice"; I 99]; [I 6; Text "bob"; I 99]]);
   ("bet_feeds", mk ["action_index"; "closed_block"; "terminal_block"; "feed_status_id"]
      [[I 1; I 99; I 101; I 4]; [I 2; I 101; Null; I 3]; [I 3; Null; Null; I 2]]);
   ("attests", mk ["action_index"; "version"; "request_status"; "resolved_block"; "callback_execute_action_index"]
      [[I 1; I 0; Text "fulfilled"; I 101; I 3]]);
   ("bets", mk ["action_index"; "settled_block"; "bet_status_id"] [[I 2; I 101; I 4]]);
   ("contract_stakes", mk ["action_index"; "amount"] [[I 1; Text "7"]; [I 2; Text "2.5"]]);
   ("contract_unstakes", mk ["action_index"; "amount"] []);
   ("contract_slash_debits", mk ["stake_action_index"; "target_table"; "block_index"; "execution_index"; "slash_position"; "prev_amount"]
      [[I 1; Text "contract_stakes"; I 102; I 9; I 0; Text "8"]; [I 1; Text "contract_stakes"; I 101; I 8; I 0; Text "10.0"];
       [I 1; Text "contract_stakes"; I 100; I 7; I 0; Text "12"]]);
   ("credits", mk ["action_index"; "address_id"; "tick_id"; "amount"] [[I 1; I 5; I 1; Text "20"]; [I 2; I 6; I 1; Text "1"]; [I 3; I 6; I 1; Text "4"]]);
   ("debits", mk ["action_index"; "address_id"; "tick_id"; "amount"] [[I 2; I 5; I 1; Text "0.5"]; [I 2; I 6; I 1; Text "1"]]);
   ("escrows", mk ["action_index"; "address_id"; "tick_id"; "amount"] []);
   ("balances", mk ["address_id"; "tick_id"; "amount"] [[I 5; I 1; Text "19.5"]; [I 6; I 1; Text "4"]]);
   ("tokens", mk ["id"; "action_index"; "tick_id"; "decimals"; "supply"] [[I 1; I 1; I 1; I 8; Text "23.5"]])].

Definition client : rollback_client :=
  RollbackClient (Some "BTC") "mainnet" (Some 6) (GObj [("mainnet", UNPINNED)])
    (Registry [(MATURITY_ESCROW_REVERSAL_KEY, GateRow "height" (GObj [("mainnet", GNum 0)])); (FOLD_GATE, GateRow "height" (GObj [("mainnet", UNPINNED)]))] None) "XCHAIN".
Definition start : replica := Replica before_rollback 0.
Definition never (_ : nat) : bool := false.
#[local] Notation run f := (rollbackIndexer client 101 never f start).
Definition unwound_replica : replica := (run faultless).1.

(** The connection is lost in the middle of the deletes. *)
Definition lost (n : nat) : option dberror := if (n =? 60)%nat then Some (DbError (Some 2013) None) else None.
Lemma lost_benign : benign lost.
Proof. intros n e. unfold lost. destruct (n =? 60)%nat; [|done]. by intros [= <-]. Qed.

Lemma run_succeeds : run faultless = (unwound_replica, Done tt).
Proof. vm_compute. reflexivity. Qed.

Lemma rollback_all_or_nothing_witness :
  (run lost).2 = Fail (DbError (Some 2013) None)
  /\ (same_rows (committed start) (committed (run lost).1) \/ committed (run lost).1 = committed (run faultless).1).
Proof.
  split; [vm_compute; reflexivity|].
  pose proof (rollback_all_or_nothing IndexerDb client 101 never lost start lost_benign) as Hrun. cbv zeta in Hrun.
  cbn [rollback] in Hrun. assert ((run lost).2 = Fail (DbError (Some 2013) None)) as E by (vm_compute; reflexivity).
  rewrite E in Hrun. exact Hrun.
Defined.

Lemma rollback_removes_orphans_witness :
  rows_of (committed unwound_replica) "actions" = unwound 101 (Some 3) "actions" (rows_of before_rollback "actions")
  /\ clean "bet_feeds" "action_index" 3 (committed unwound_replica)
  /\ clean "index_tickers" "block_index" 101 (committed unwound_replica)
  /\ rows_of (committed unwound_replica) "index_statuses" = rows_of before_rollback "index_statuses".
Proof.
  destruct (rollback_removes_orphans client 101 never faultless start unwound_replica faultless_benign run_succeeds) as (H1 & H2 & H3 & H4).
  assert (forall t, has_column before_rollback (t, "action_index") = true -> t ∉ blockTables replicaRollbackTables ++ indexTables replicaRollbackTables ->
    keyed t before_rollback) as Ka by (intros t Ht Hn; split; [done|intros Hin; destruct (Hn Hin)]).
  split_and!.
  - apply (H1 "actions"); [apply (bool_decide_eq_true_1 (_ ∉ _)); vm_compute; reflexivity|].
    apply Ka; [vm_compute; reflexivity|apply (bool_decide_eq_true_1 (_ ∉ _)); vm_compute; reflexivity].
  - apply (H2 "bet_feeds" 3); [apply (bool_decide_eq_true_1 (_ ∈ _)); vm_compute; reflexivity| |vm_compute; reflexivity].
    apply Ka; [vm_compute; reflexivity|apply (bool_decide_eq_true_1 (_ ∉ _)); vm_compute; reflexivity].
  - apply (H3 "index_tickers"); [apply (bool_decide_eq_true_1 (_ ∈ _)); vm_compute; reflexivity|].
    split; [|intros _; vm_compute; reflexivity].
    intros Hin. exfalso. revert Hin. apply (bool_decide_eq_true_1 (_ ∉ _)). vm_compute. reflexivity.
  - apply (H4 "index_statuses"). apply (bool_decide_eq_true_1 (_ ∈ _)). vm_compute. reflexivity.
Defined.

#[local] Notation status i s := (list_to_map (zip ["id"; "status"] [I i; Text s]) : row).
Lemma rollback_reopens_feeds_witness :
  Forall (fun x' => exists x, x ∈ rows_of before_rollback "bet_feeds" /\ feed_before 101 (status 3 "closed") (status 2 "open") x x')
    (rows_of (committed unwound_replica) "bet_feeds").
Proof.
  apply Forall_forall.
  apply (rollback_reopens_feeds client 101 never faultless start unwound_replica (status 3 "closed") (status 2 "open") faultless_benign run_succeeds).
  - split_and!; vm_compute; reflexivity.
  - vm_compute. reflexivity.
  - vm_compute. reflexivity.
Defined.

Lemma rollback_restores_stakes_witness :
  Forall (fun x' => exists x, x ∈ rows_of before_rollback "contract_stakes"
      /\ stake_restored "contract_stakes" 101 (rows_of before_rollback "contract_slash_debits") x x')
    (rows_of (committed unwound_replica) "contract_stakes").
Proof.
  apply Forall_forall.
  apply (rollback_restores_stakes client 101 never faultless start unwound_replica "contract_stakes" faultless_benign run_succeeds).
  - left.
  - split; vm_compute; reflexivity.
  - repeat constructor; cbn; eauto; discriminate.
  - repeat constructor; eexists; reflexivity.
  - constructor.
Defined.

(** The stake slashed at blocks 101 and 102 has the amount before block 101 again, spelled
    as it was. *)
Example slashed_stake_restored :
  map (fun r => cell r "amount") (rows_of (committed unwound_replica) "contract_stakes") = [Text "10.0"; Text "2.5"].
Proof. vm_compute. reflexivity. Qed.
Example feeds_reopened :
  map (fun r => (cell r "action_index", cell r "feed_status_id")) (rows_of (committed unwound_replica) "bet_feeds") = [(I 1, I 3); (I 2, I 2)].
Proof. vm_compute. reflexivity. Qed.

Lemma rollback_balances_witness : balanced (committed unwound_replica).
Proof. apply (rollback_balances client 101 never faultless start unwound_replica faultless_benign run_succeeds). split; vm_compute; reflexivity. Defined.
Example balances_rebuilt :
  map (fun r => (cell r "address_id", cell r "amount")) (rows_of (committed unwound_replica) "balances") = [(I 5, Text "19.5")].
Proof. vm_compute. reflexivity. Qed.

Lemma rollback_edits_declared_columns_witness : exists kept,
  kept `sublist_of` rows_of before_rollback "contract_stakes"
  /\ Forall2 (agree ["action_index"; "tick_id"; "source_id"]) kept (rows_of (committed (run lost).1) "contract_stakes").
Proof.
  apply (rollback_edits_declared_columns client 101 never lost start "contract_stakes" ["action_index"; "tick_id"; "source_id"]).
  - apply (bool_decide_eq_true_1 (_ ∉ _)). vm_compute. reflexivity.
  - apply Forall_forall. apply (bool_decide_eq_true_1 (Forall _ _)). vm_compute. reflexivity.
Defined.

(** [attests.callback_execute_action_index] is declared as edited by later blocks, yet no
    statement of the rollback writes it: the request is pending again and still names the
    orphaned action 3. *)
Example attest_callback_survives :
  "callback_execute_action_index" ∈ in_place "attests"
  /\ map (fun r => (cell r "request_status", cell r "resolved_block", cell r "callback_execute_action_index")) (rows_of (committed unwound_replica) "attests")
     = [(Text "pending", Null, I 3)]
  /\ map (fun r => cell r "action_index") (rows_of (committed unwound_replica) "actions") = [I 1; I 2].
Proof. split_and!; [apply (bool_decide_eq_true_1 (_ ∈ _))|..]; vm_compute; reflexivity. Qed.

(** One block's credit to bob, rebuilt for bob alone. *)
Definition credited : session :=
  Session (<["credits" := mk ["action_index"; "address_id"; "tick_id"; "amount"] [[I 1; I 5; I 1; Text "20"]; [I 2; I 6; I 1; Text "1"]; [I 3; I 6; I 1; Text "4.25"]]]> before_rollback) 0.
#[local] Notation bob := (Some (Scope [I 6] [I 1])).
#[local] Notation rebuilt := (rebuildBalances bob faultless credited).1.
Lemma alice_balanced k : covers bob k = false -> held (data credited) k = owed (data credited) k.
Proof.
  destruct (decide (k = (I 6, I 1))) as [->|H6]; [by intros ?%eq_true_false_abs|]. intros _.
  destruct (decide (k = (I 5, I 1))) as [->|H5]; [vm_compute; reflexivity|].
  assert (k ∉ map fst (ledger_rows (data credited) None)) as Hk.
  { assert (map fst (ledger_rows (data credited) None) = [(I 5, I 1); (I 6, I 1); (I 6, I 1); (I 5, I 1); (I 6, I 1)]) as -> by (vm_compute; reflexivity).
    set_solver. }
  unfold owed, net. rewrite (group_sum_absent _ _ Hk). cbn [Z.eqb].
  assert (forall l, Forall (fun r => row_key r <> k) l -> List.filter (fun r => bool_decide (row_key r = k)) l = []) as Hl.
  { intros l. induction 1 as [|r l Hr _ IH]; [done|]. cbn [List.filter]. by rewrite bool_decide_eq_false_2. }
  apply Hl. repeat constructor; intros <-; [by apply H5|by apply H6].
Qed.
Lemma rebuildBalances_correct_witness : balanced (data rebuilt).
Proof.
  apply (rebuildBalances_correct bob faultless credited rebuilt); [exact alice_balanced|vm_compute; reflexivity].
Defined.
End Example.
