(* ===== verification/Regex.v ===== *)
(** * Regex: JavaScript regular expressions over text

    The fragment of ECMA-262 regular expressions the program uses on untrusted text: one
    character of a set, sequence, ordered choice, greedy repetition, capture groups,
    [^], [$] and [\b].  [run] is the backtracking matcher of the standard, in
    continuation-passing style; [denotes] is the usual reading of an expression as a
    relation between positions, and [run_sound] and [run_complete] show that the matcher
    finds a match exactly when there is one.  A text is its UTF-8 bytes; letters are
    compared without case where the expression carries the flag [i]. *)

From S2P Require Import Prelude JsText.

(** A position: the byte before it, the text after it, and the groups captured so far. *)
Record position := Position { before : option byte; rest : bytes; groups : list (nat * bytes) }.

(** An atom gives the number of bytes it consumes. *)
Inductive re :=
| Eps
| Atom (f : bytes -> option nat)
| Cat (a b : re)
| Alt (a b : re)
| Star (a : re)
| Group (i : nat) (a : re)
| Bol
| Eol
| Bound.

Definition advance (n : nat) (p : position) : position :=
  Position (match last (take n (rest p)) with Some b => Some b | None => before p end) (drop n (rest p)) (groups p).
Definition capture (i : nat) (p q : position) : position :=
  Position (before q) (rest q) ((i, take (length (rest p) - length (rest q)) (rest p)) :: groups q).

Definition is_word (b : byte) : bool :=
  let z := b2z b in ((48 <=? z) && (z <=? 57)) || ((65 <=? z) && (z <=? 90)) || ((97 <=? z) && (z <=? 122)) || (z =? 95).
Definition word_at (o : option byte) : bool := match o with Some b => is_word b | None => false end.
Definition boundary (p : position) : bool := xorb (word_at (before p)) (word_at (head (rest p))).

Fixpoint run {A} (r : re) (k : position -> option A) (p : position) {struct r} : option A :=
  match r with
  | Eps => k p
  | Atom f => match f (rest p) with Some n => k (advance n p) | None => None end
  | Cat a b => run a (run b k) p
  | Alt a b => match run a k p with Some x => Some x | None => run b k p end
  | Star a =>
      (fix loop (n : nat) (p : position) : option A :=
         match n with
         | O => k p
         | S n =>
             match run a (fun q => if (length (rest q) <? length (rest p))%nat then loop n q else None) p with
             | Some x => Some x
             | None => k p
             end
         end) (length (rest p)) p
  | Group i a => run a (fun q => k (capture i p q)) p
  | Bol => if bool_decide (before p = None) then k p else None
  | Eol => if bool_decide (rest p = []) then k p else None
  | Bound => if boundary p then k p else None
  end.

(** [re.exec(text)]: the first start that matches, and where its match ends. *)
Fixpoint search (r : re) (p : position) (n : nat) : option (position * position) :=
  match run r Some p with
  | Some q => Some (p, q)
  | None => match n with O => None | S n => search r (advance 1 p) n end
  end.
Definition exec (r : re) (text : bytes) : option (position * position) := search r (Position None text []) (length text).
Definition test (r : re) (text : bytes) : bool := match exec r text with Some _ => true | None => false end.
Definition group (i : nat) (p : position) : bytes :=
  default [] (snd <$> List.find (fun g => bool_decide (g.1 = i)) (groups p)).
(** [text.replace(re, '')] *)
Definition strip_match (r : re) (text : bytes) : bytes :=
  match exec r text with
  | Some (p, q) => take (length text - length (rest p)) text ++ rest q
  | None => text
  end.

(** ** The pieces expressions are written with *)
Definition one (f : byte -> bool) : re :=
  Atom (fun l => match l with b :: _ => if f b then Some 1%nat else None | [] => None end).
Definition literal (s : string) : re :=
  fold_right (fun b r => Cat (one (fun x => bool_decide (x = b))) r) Eps (utf8 s).
(** With the flag [i]. *)
Definition keyword (s : string) : re :=
  fold_right (fun b r => Cat (one (fun x => bool_decide (lower_byte x = lower_byte b))) r) Eps (utf8 s).
Definition opt (r : re) : re := Alt r Eps.
Definition plus (r : re) : re := Cat r (Star r).
(** [\s] *)
Definition space : re :=
  Atom (fun l => head (omap (fun w => match strip_prefix w l with Some _ => Some (length w) | None => None end) js_white_space)).
(** [.], any character but a line terminator. *)
Definition line_terminators : list bytes := [[Byte.x0a]; [Byte.x0d]; [Byte.xe2; Byte.x80; Byte.xa8]; [Byte.xe2; Byte.x80; Byte.xa9]].
Definition dot : re :=
  Atom (fun l => match l with
                 | [] => None
                 | _ => match strip_one line_terminators l with Some _ => None | None => Some 1%nat end
                 end).
Definition none_of (s : string) : re := one (fun b => negb (bool_decide (b ∈ utf8 s))).
Definition any_of (s : string) : re := one (fun b => bool_decide (b ∈ utf8 s)).
Definition word : re := one is_word.
Fixpoint choice (l : list re) : re := match l with [] => Atom (fun _ => None) | [r] => r | r :: l' => Alt r (choice l') end.
Fixpoint seqs (l : list re) : re := match l with [] => Eps | [r] => r | r :: l' => Cat r (seqs l') end.

(** ** What an expression denotes *)
Inductive denotes : re -> position -> position -> Prop :=
| D_eps p : denotes Eps p p
| D_atom f p n : f (rest p) = Some n -> denotes (Atom f) p (advance n p)
| D_cat a b p q q' : denotes a p q -> denotes b q q' -> denotes (Cat a b) p q'
| D_left a b p q : denotes a p q -> denotes (Alt a b) p q
| D_right a b p q : denotes b p q -> denotes (Alt a b) p q
| D_stop a p : denotes (Star a) p p
| D_more a p q q' : denotes a p q -> (length (rest q) < length (rest p))%nat -> denotes (Star a) q q' -> denotes (Star a) p q'
| D_group i a p q : denotes a p q -> denotes (Group i a) p (capture i p q)
| D_bol p : before p = None -> denotes Bol p p
| D_eol p : rest p = [] -> denotes Eol p p
| D_bound p : boundary p = true -> denotes Bound p p.
#[export] Hint Constructors denotes : sync.

Lemma run_sound {A} r (k : position -> option A) p x : run r k p = Some x -> exists q, denotes r p q /\ k q = Some x.
Proof.
  revert k p. induction r as [|f|a IHa b IHb|a IHa b IHb|a IHa|i a IHa| | |]; intros k p; cbn [run].
  - eauto with sync.
  - destruct (f (rest p)) eqn:E; [|done]. eauto with sync.
  - intros (q & Hq & (q' & Hq' & Hk)%IHb)%IHa. eauto with sync.
  - destruct (run a k p) eqn:E; [intros [= ->]; apply IHa in E as (q & ? & ?)|intros (q & ? & ?)%IHb]; eauto with sync.
  - generalize (length (rest p)) at 1. intros n. revert p. induction n as [|n IHn]; intros p; [eauto with sync|].
    destruct (run a _ p) as [y|] eqn:E; [|eauto with sync]. intros [= ->]. apply IHa in E as (q & Hq & Hk).
    destruct (length (rest q) <? length (rest p))%nat eqn:El; [|done]. apply Nat.ltb_lt in El.
    apply IHn in Hk as (q' & ? & ?). eauto with sync.
  - intros (q & ? & ?)%IHa. eauto with sync.
  - case_bool_decide; [|done]. eauto with sync.
  - case_bool_decide; [|done]. eauto with sync.
  - destruct (boundary p) eqn:E; [|done]. eauto with sync.
Qed.

(** The text after a position bounds the repetitions, so no match is lost to the bound. *)
Lemma run_complete {A} r (k : position -> option A) p q : denotes r p q -> is_Some (k q) -> is_Some (run r k p).
Proof.
  revert k p q. induction r as [|f|a IHa b IHb|a IHa b IHb|a IHa|i a IHa| | |]; intros k p q Hd Hk; cbn [run].
  - by inversion Hd; subst.
  - inversion Hd as [|f' p' n E| | | | | | | | |]; subst. by rewrite E.
  - inversion Hd; subst. eauto.
  - inversion Hd; subst; [edestruct IHa as [y ->]; eauto|]. destruct (run a k p); eauto.
  - generalize (le_n (length (rest p))). generalize (length (rest p)) at 2 3. intros n Hn.
    remember (Star a) as s eqn:Es. revert n Hn. induction Hd as [| | | | |a' p|a' p q q' Ha _ Hl _ IHs| | | |]; try discriminate; injection Es as ->; intros n Hn.
    + destruct n; [done|]. destruct (run a _ p); eauto.
    + destruct n as [|n]; [lia|].
      match goal with |- is_Some (match run a ?k' p with _ => _ end) => enough (is_Some (run a k' p)) as [y ->] by eauto end.
      apply (IHa _ p q Ha). cbn beta. apply Nat.ltb_lt in Hl as Hb. rewrite Hb. apply IHs; [done|done|lia].
  - inversion Hd; subst. eauto.
  - inversion Hd; subst. by rewrite bool_decide_eq_true_2.
  - inversion Hd; subst. by rewrite bool_decide_eq_true_2.
  - inversion Hd as [| | | | | | | | | |p' E]; subst. by rewrite E.
Qed.

(** [exec] succeeds exactly when the expression denotes a match from some start. *)
Fixpoint starts (n : nat) (p : position) : list position :=
  p :: match n with O => [] | S n => starts n (advance 1 p) end.
Theorem exec_exact r text :
  is_Some (exec r text) <-> exists p q, p ∈ starts (length text) (Position None text []) /\ denotes r p q.
Proof.
  unfold exec. generalize (Position None text []) as p, (length text) as n. intros p n. revert p.
  induction n as [|n IH]; intros p; cbn [search starts]; split.
  1,3: intros [x Hx]; destruct (run r Some p) as [y|] eqn:E;
    [apply run_sound in E as (q & Hq & _); exists p, q; split; [left|done]|].
  - done.
  - destruct (proj1 (IH (advance 1 p))) as (p' & q & Hp & Hq); [eauto|]. exists p', q. split; [by right|done].
  - intros (p' & q & [->|Hp]%elem_of_cons & Hq); [|by apply elem_of_nil in Hp].
    destruct (run_complete r Some p q Hq) as [y ->]; eauto.
  - intros (p' & q & [->|Hp]%elem_of_cons & Hq).
    + destruct (run_complete r Some p q Hq) as [y ->]; eauto.
    + destruct (run r Some p); [eauto|]. apply IH. eauto.
Qed.

(** [^] holds at the first start only. *)
Lemma starts_before n p p' : p' ∈ starts n p -> (n <= length (rest p))%nat -> p' = p \/ is_Some (before p').
Proof.
  revert p. induction n as [|n IH]; intros p; cbn [starts]; intros [->|Hin]%elem_of_cons Hn; [by left|by apply elem_of_nil in Hin|by left|].
  right. destruct (rest p) as [|b l] eqn:E; cbn in Hn; [lia|].
  assert (before (advance 1 p) = Some b /\ rest (advance 1 p) = l) as [Hb Hr] by (unfold advance; rewrite E; done).
  destruct (IH _ Hin) as [->|?]; [rewrite Hr; lia|rewrite Hb; eauto|done].
Qed.
