(* ===== verification/Validation.v ===== *)
(** * Validation: untrusted names, table definitions and events

    Models [src/src/util/validation.js], the checks between what a source sends and the
    statements the replica runs, and the schema self-heal of
    [src/src/sql/migrations/runner.js] that splices an accepted column definition into
    an ALTER ([addMissingColumns]).

    [top_level] is a reference lexer for MariaDB statements (quoted strings with doubled
    and backslash escapes, quoted identifiers, comments, parentheses); the theorems
    compare the guard of [extractColumnDefinition] with it. *)

From S2P Require Import Prelude JsText JsNumber JsDouble Regex.

Inductive verdict := Valid | Invalid (reason : string).
Definition valid (v : verdict) : bool := match v with Valid => true | Invalid _ => false end.

(** [s.length]: UTF-16 code units of UTF-8 text. *)
Definition js_length (l : bytes) : nat :=
  fold_right (fun b n => let z := b2z b in
    (n + if (z <? 128)%Z then 1 else if (z <? 192)%Z then 0 else if (z <? 240)%Z then 1 else 2)%nat) O l.

(** ** Identifiers *)
Definition IDENTIFIER_RE : re := seqs [Bol; plus word; Eol].
Definition validateIdentifier (val : jsval) : verdict :=
  match val with
  | JNull | JUndef => Invalid "Identifier is null or undefined"
  | JStr s =>
      let l := utf8 s in
      if (js_length l =? 0)%nat then Invalid "Identifier is empty"
      else if (64 <? js_length l)%nat then Invalid "Identifier exceeds 64 characters"
      else if negb (test IDENTIFIER_RE l) then Invalid "Identifier contains invalid characters"
      else Valid
  | _ => Invalid "Identifier is not a string"
  end.
Definition valid_identifier (s : string) : bool := valid (validateIdentifier (JStr s)).

(** ** Table definitions *)
Definition DDL_START_RE : re := seqs [Bol; Star space; keyword "CREATE"; plus space; keyword "TABLE"; space].
Definition created (kinds : list string) : re := seqs [keyword "CREATE"; plus space; choice (map keyword kinds)].
Definition DDL_BANNED_STATEMENT_RE : re :=
  seqs [literal ";"; Star space;
        choice (keyword "DROP" :: map (fun k => seqs [keyword "CREATE"; plus space; keyword k]) ["TRIGGER"; "PROCEDURE"; "FUNCTION"; "EVENT"; "VIEW"]
                ++ [keyword "EXEC"; keyword "EXECUTE"]);
        Bound].
Definition DDL_WRONG_TYPE_RE : re := seqs [Bol; Star space; created ["TRIGGER"; "PROCEDURE"; "FUNCTION"; "EVENT"; "VIEW"]; Bound].
Definition validateDdl (sql : jsval) : verdict :=
  match sql with
  | JNull | JUndef => Invalid "DDL is null or undefined"
  | JStr s =>
      let l := utf8 s in
      if bool_decide (trim l = []) then Invalid "DDL is empty"
      else if negb (test DDL_START_RE l) then Invalid "DDL does not start with CREATE TABLE"
      else if test DDL_WRONG_TYPE_RE l then Invalid "DDL is a disallowed statement type"
      else if test DDL_BANNED_STATEMENT_RE l then Invalid "DDL contains disallowed statement after semicolon"
      else Valid
  | _ => Invalid "DDL is not a string"
  end.

(** [text.split(sep)] at one byte. *)
Fixpoint split_at (sep : byte) (l : bytes) : list bytes :=
  match l with
  | [] => [[]]
  | b :: l' =>
      if bool_decide (b = sep) then [] :: split_at sep l'
      else match split_at sep l' with w :: ws => (b :: w) :: ws | [] => [[b]] end
  end.
Definition c_newline : byte := Byte.x0a.
Definition c_tick : byte := Byte.x60.
Definition c_apos : byte := Byte.x27.
Definition c_dquote : byte := Byte.x22.
Definition c_comma : byte := Byte.x2c.
Definition c_open : byte := Byte.x28.
Definition c_close : byte := Byte.x29.
Definition c_semi : byte := Byte.x3b.
Definition c_back : byte := Byte.x5c.
Definition c_space : byte := Byte.x20.

(** The text before the first [b], if there is one. *)
Fixpoint before_byte (b : byte) (l : bytes) : option bytes :=
  match l with
  | [] => None
  | x :: l' => if bool_decide (x = b) then Some [] else cons x <$> before_byte b l'
  end.
(** The name of a line that starts with a quoted, non-empty identifier. *)
Definition line_name (trimmed : bytes) : option bytes :=
  match trimmed with
  | b :: l => if bool_decide (b = c_tick) then
                match before_byte c_tick l with Some [] | None => None | Some n => Some n end
              else None
  | [] => None
  end.
Definition extractColumnNames (ddl : bytes) : list bytes := omap (fun line => line_name (trim line)) (split_at c_newline ddl).

(** The quote-aware scan: whether no comma stands outside quotes and parentheses. *)
Inductive mode := Code | InStr | InTick.
Fixpoint scan (m : mode) (depth : nat) (l : bytes) : bool :=
  match l with
  | [] => true
  | x :: l' =>
      match m with
      | InStr =>
          if bool_decide (x = c_apos) then
            match l' with
            | y :: l'' => if bool_decide (y = c_apos) then scan InStr depth l'' else scan Code depth l'
            | [] => true
            end
          else scan InStr depth l'
      | InTick =>
          if bool_decide (x = c_tick) then
            match l' with
            | y :: l'' => if bool_decide (y = c_tick) then scan InTick depth l'' else scan Code depth l'
            | [] => true
            end
          else scan InTick depth l'
      | Code =>
          if bool_decide (x = c_apos) then scan InStr depth l'
          else if bool_decide (x = c_tick) then scan InTick depth l'
          else if bool_decide (x = c_open) then scan Code (S depth) l'
          else if bool_decide (x = c_close) then scan Code (Nat.pred depth) l'
          else if bool_decide (x = c_comma) && (depth =? 0)%nat then false
          else scan Code depth l'
      end
  end.

Definition TRAILING_COMMA_RE : re := seqs [literal ","; Star space; Eol].
Definition guarded (def : bytes) : option bytes :=
  if bool_decide (c_semi ∈ def) then None else if scan Code 0 def then Some def else None.
Fixpoint find_definition (lines : list bytes) (columnName : bytes) : option bytes :=
  match lines with
  | [] => None
  | line :: lines' =>
      let trimmed := trim line in
      if bool_decide (line_name trimmed = Some columnName) then guarded (strip_match TRAILING_COMMA_RE trimmed)
      else find_definition lines' columnName
  end.
Definition extractColumnDefinition (ddl columnName : bytes) : option bytes := find_definition (split_at c_newline ddl) columnName.

(** ** Keys *)
Definition quotes : list byte := [c_apos; c_tick; c_dquote].
Fixpoint mask (quote : option byte) (l : bytes) : bytes :=
  match l with
  | [] => []
  | x :: l' =>
      match quote with
      | Some q =>
          if bool_decide (x = q) then
            match l' with
            | y :: l'' => if bool_decide (y = q) then c_space :: c_space :: mask quote l'' else c_space :: mask None l'
            | [] => [c_space]
            end
          else c_space :: mask quote l'
      | None => if bool_decide (x ∈ quotes) then c_space :: mask (Some x) l' else x :: mask None l'
      end
  end.
Definition maskSqlQuoted (sql : bytes) : bytes := mask None sql.
Definition isAutoIncrementDefinition (def : bytes) : bool :=
  test (seqs [Bound; keyword "AUTO_INCREMENT"; Bound]) (maskSqlQuoted def).

Inductive key_type := Primary | Unique | Index.
Record key := Key { k_type : key_type; k_name : option bytes; k_columns : list bytes }.
Definition RANK (t : key_type) : nat := match t with Primary => 0 | Unique => 1 | Index => 2 end.

Definition quoted_name : re := seqs [literal "`"; Group 1 (plus (none_of "`")); literal "`"].
Definition key_parts (i : nat) : re := seqs [literal "("; Group i (Star dot); literal ")"; Eol].
Definition PRIMARY_RE : re := seqs [Bol; keyword "PRIMARY"; plus space; keyword "KEY"; Star space; key_parts 1].
Definition UNIQUE_RE : re := seqs [Bol; keyword "UNIQUE"; plus space; keyword "KEY"; plus space; quoted_name; Star space; key_parts 2].
Definition KEY_RE : re := seqs [Bol; keyword "KEY"; plus space; quoted_name; Star space; key_parts 2].
Definition PART_RE : re := seqs [Bol; quoted_name; opt (seqs [literal "("; plus (one is_digit); literal ")"]); Eol].

Definition key_line (trimmed : bytes) : option (key_type * option bytes * bytes) :=
  match exec PRIMARY_RE trimmed with
  | Some (_, q) => Some (Primary, None, group 1 q)
  | None =>
      match exec UNIQUE_RE trimmed with
      | Some (_, q) => Some (Unique, Some (group 1 q), group 2 q)
      | None => match exec KEY_RE trimmed with
                | Some (_, q) => Some (Index, Some (group 1 q), group 2 q)
                | None => None
                end
      end
  end.
(** The columns of a key, or nothing when a part is not a plain column. *)
Definition key_columns (colsRaw : bytes) : option (list bytes) :=
  mapM (fun part => match exec PART_RE (trim part) with
                    | Some (_, q) => if valid_identifier (of_utf8 (group 1 q)) then Some (group 1 q) else None
                    | None => None
                    end) (split_at c_comma colsRaw).
Definition line_key (line columnName : bytes) : option key :=
  let trimmed := strip_match TRAILING_COMMA_RE (trim line) in
  if bool_decide (c_semi ∈ trimmed) then None
  else match key_line trimmed with
       | None => None
       | Some (t, name, colsRaw) =>
           match key_columns colsRaw with
           | Some [c] =>
               if bool_decide (c = columnName)
                  && match name with Some n => valid_identifier (of_utf8 n) | None => true end
               then Some (Key t name [c]) else None
           | _ => None
           end
       end.
Definition better (best : option key) (k : key) : option key :=
  match best with
  | Some b => if (RANK (k_type k) <? RANK (k_type b))%nat then Some k else best
  | None => Some k
  end.
Definition extractKeyForColumn (ddl columnName : bytes) : option key :=
  fold_left (fun best line => match line_key line columnName with Some k => better best k | None => best end)
    (split_at c_newline ddl) None.

(** ** WebSocket events *)
Inductive wsval :=
| WUndef | WNull | WBool (b : bool) | WNum (x : jsnum) | WStr (s : string) | WArr (l : list wsval) | WObj (l : list (string * wsval)).
Definition member (l : list (string * wsval)) (k : string) : wsval :=
  default WUndef (snd <$> List.find (fun m => bool_decide (m.1 = k)) l).
Definition nullish (v : wsval) : bool := match v with WUndef | WNull => true | _ => false end.
Definition VALID_WS_TYPES : list string := ["block"; "reorg"; "status"].
Inductive ws_verdict := WsValid (type : string) | WsInvalid (reason : string).
Definition validateWsEvent (event : wsval) : ws_verdict :=
  match event with
  | WUndef | WNull => WsInvalid "Event is null or undefined"
  | WObj l =>
      match member l "type" with
      | WStr type =>
          if negb (bool_decide (type ∈ VALID_WS_TYPES)) then WsInvalid ("Unknown event type: " +:+ type)
          else if bool_decide (type = "status") then
            match member l "block_height" with
            | WUndef | WNull => WsValid type
            | WNum x => if isFinite x then WsValid type else WsInvalid "status event block_height is not a finite number"
            | _ => WsInvalid "status event block_height is not a finite number"
            end
          else
            match member l "block_index" with
            | WUndef | WNull => WsInvalid (type +:+ " event missing block_index")
            | WNum x =>
                if negb (isFinite x) then WsInvalid (type +:+ " event block_index is not a finite number")
                else match num_integer x with
                     | None => WsInvalid (type +:+ " event block_index is not an integer")
                     | Some z => if z <? 0 then WsInvalid (type +:+ " event block_index is negative") else WsValid type
                     end
            | _ => WsInvalid (type +:+ " event block_index is not a finite number")
            end
      | _ => WsInvalid "Event type is not a string"
      end
  | _ => WsInvalid "Event is not an object"
  end.

(** ** The schema self-heal (sql/migrations/runner.js) *)
Definition tick_quoted (n : bytes) : bytes := c_tick :: n ++ [c_tick].
(** The statement [source-column] of [2026-10-19-replica-columns.sql]. *)
Definition source_column (tableName actions : bytes) : bytes :=
  utf8 "ALTER TABLE " ++ tick_quoted tableName ++ [c_space] ++ actions.
(** [hasPrimary] is the answer of [hasPrimaryKey]; a failed read counts as a key. *)
Definition autoIncrementKeyAction (hasPrimary : option bool) (col sourceDdl : bytes) : bytes :=
  let over := utf8 " (" ++ tick_quoted col ++ [c_close] in
  let named kind n := utf8 kind ++ tick_quoted n ++ over in
  match extractKeyForColumn sourceDdl col with
  | Some (Key Primary _ _) => if default true hasPrimary then named "ADD UNIQUE KEY " col else utf8 "ADD PRIMARY KEY" ++ over
  | Some (Key Unique (Some n) _) => named "ADD UNIQUE KEY " n
  | Some (Key Index (Some n) _) => named "ADD KEY " n
  | _ => named "ADD UNIQUE KEY " col
  end.

Section SelfHeal.
(** What the replica answers, given the statements already sent: whether the table has a
    primary key, and the errno a statement fails with. *)
Variable hasPrimaryKey : list bytes -> option bool.
Variable alter_fails : list bytes -> bytes -> option Z.
Variables (tableName sourceDdl : bytes) (destSet : list bytes).

(** The statements sent, the columns added and the columns that failed with their errno. *)
Record heal := Heal { h_sent : list bytes; added : nat; failed : list (bytes * Z) }.
Definition column_actions (sent : list bytes) (col def : bytes) : bytes :=
  utf8 "ADD COLUMN " ++ def
  ++ (if isAutoIncrementDefinition def then utf8 ", " ++ autoIncrementKeyAction (hasPrimaryKey sent) col sourceDdl else []).
Definition addColumn (h : heal) (col : bytes) : heal :=
  if bool_decide (col ∈ destSet) then h
  else if negb (valid_identifier (of_utf8 col)) then h
  else match extractColumnDefinition sourceDdl col with
       | None => h
       | Some def =>
           let st := source_column tableName (column_actions (h_sent h) col def) in
           match alter_fails (h_sent h) st with
           | None => Heal (h_sent h ++ [st]) (S (added h)) (failed h)
           | Some e => Heal (h_sent h ++ [st]) (added h) (failed h ++ [(col, e)])
           end
       end.
(** The count of added columns, or the columns that are still missing. *)
Definition addMissingColumns : heal * (nat + list (bytes * Z)) :=
  let h := fold_left addColumn (extractColumnNames sourceDdl) (Heal [] 0 []) in
  (h, match failed h with [] => inl (added h) | l => inr l end).
End SelfHeal.

(** ** SQL files (db/sql_util.js) *)
Fixpoint strip_comments (quote : option byte) (skip : bool) (l : bytes) : bytes :=
  match l with
  | [] => []
  | x :: l' =>
      if skip then (if bool_decide (x = c_newline) then c_newline :: strip_comments None false l' else strip_comments None true l')
      else match quote with
           | Some q =>
               x :: (if bool_decide (x = q) then
                       match l' with
                       | y :: l'' => if bool_decide (y = q) then y :: strip_comments quote false l'' else strip_comments None false l'
                       | [] => []
                       end
                     else strip_comments quote false l')
           | None =>
               if bool_decide (x ∈ quotes) then x :: strip_comments (Some x) false l'
               else if bool_decide (x = ch "-") && bool_decide (head l' = Some (ch "-")) then strip_comments None true l'
               else x :: strip_comments None false l'
           end
  end.
Definition stripSqlLineComments (sql : bytes) : bytes := strip_comments None false sql.
Definition splitSqlStatements (sql : bytes) : list bytes :=
  List.filter (fun q => negb (bool_decide (q = []))) (map trim (split_at c_semi (stripSqlLineComments sql))).
