(* ===== verification/SchemaGuard.v ===== *)
(** * SchemaGuard: what the column guard lets through

    [top-level commas] separate the actions of an ALTER.  [lex_step] is a reference lexer
    for the statements of MariaDB, as its manual describes them: a single- or
    double-quoted string escapes its quote by doubling it and any byte with a backslash,
    a backtick identifier by doubling it, and [#], [-- ] and [/* */] are comments.  The
    guard of [extractColumnDefinition] knows the single quotes and the backticks.

    The theorems: a definition in the language the guard knows adds exactly one action to
    the ALTER the replica runs, and [SHOW CREATE TABLE] text gives back the columns it
    was printed from.  The examples are definitions outside that language that add a
    second action. *)

From S2P Require Import Prelude JsText JsNumber JsDouble Regex Validation.

(** ** The reference lexer *)
Inductive lexmode :=
| LCode (prev : byte)            (* outside quotes and comments, after [prev] *)
| LDashes                        (* after [--] *)
| LStr (q : byte) | LEscape (q : byte) | LQuote (q : byte)
| LTick | LTickEnd
| LLine | LBlock (prev : byte).
Record lexer := Lexer { l_mode : lexmode; l_depth : nat; l_commas : nat }.

Definition c_dash : byte := Byte.x2d.
Definition c_slash : byte := Byte.x2f.
Definition c_star : byte := Byte.x2a.
Definition c_hash : byte := Byte.x23.

Definition code_step (prev : byte) (d n : nat) (b : byte) : lexer :=
  if bool_decide (b = c_apos) || bool_decide (b = c_dquote) then Lexer (LStr b) d n
  else if bool_decide (b = c_tick) then Lexer LTick d n
  else if bool_decide (b = c_hash) then Lexer LLine d n
  else if bool_decide (prev = c_dash) && bool_decide (b = c_dash) then Lexer LDashes d n
  else if bool_decide (prev = c_slash) && bool_decide (b = c_star) then Lexer (LBlock c_space) d n
  else if bool_decide (b = c_open) then Lexer (LCode b) (S d) n
  else if bool_decide (b = c_close) then Lexer (LCode b) (Nat.pred d) n
  else if bool_decide (b = c_comma) && (d =? 0)%nat then Lexer (LCode b) d (S n)
  else Lexer (LCode b) d n.
Definition lex_step (s : lexer) (b : byte) : lexer :=
  let 'Lexer m d n := s in
  match m with
  | LCode prev => code_step prev d n b
  | LDashes => if b2z b <=? 32 then Lexer (if bool_decide (b = c_newline) then LCode b else LLine) d n else code_step c_dash d n b
  | LStr q => if bool_decide (b = q) then Lexer (LQuote q) d n
              else if bool_decide (b = c_back) then Lexer (LEscape q) d n else s
  | LEscape q => Lexer (LStr q) d n
  | LQuote q => if bool_decide (b = q) then Lexer (LStr q) d n else code_step q d n b
  | LTick => if bool_decide (b = c_tick) then Lexer LTickEnd d n else s
  | LTickEnd => if bool_decide (b = c_tick) then Lexer LTick d n else code_step c_tick d n b
  | LLine => if bool_decide (b = c_newline) then Lexer (LCode b) d n else s
  | LBlock prev => if bool_decide (prev = c_star) && bool_decide (b = c_slash) then Lexer (LCode c_space) d n else Lexer (LBlock b) d n
  end.
Definition lex (s : lexer) (l : bytes) : lexer := fold_left lex_step l s.
(** The separators between the actions of an ALTER. *)
Definition separators (statement : bytes) : nat := l_commas (lex (Lexer (LCode c_space) 0 0) statement).

(** The language the guard knows: no backslash, no double quote, no comment. *)
Fixpoint plain (prev : byte) (l : bytes) : bool :=
  match l with
  | [] => true
  | b :: l' =>
      negb (bool_decide (b ∈ [c_back; c_dquote; c_hash])) && negb (bool_decide (prev = c_dash) && bool_decide (b = c_dash))
      && negb (bool_decide (prev = c_slash) && bool_decide (b = c_star)) && plain b l'
  end.

(** ** The guard and the lexer agree on plain text *)
Definition lex_of (m : mode) (prev : byte) : lexmode := match m with Code => LCode prev | InStr => LStr c_apos | InTick => LTick end.

Lemma plain_cons prev b l : plain prev (b :: l) = true ->
  b <> c_back /\ b <> c_dquote /\ b <> c_hash /\ ~ (prev = c_dash /\ b = c_dash) /\ ~ (prev = c_slash /\ b = c_star) /\ plain b l = true.
Proof.
  cbn [plain]. rewrite !andb_true_iff, !negb_true_iff, !andb_false_iff, !bool_decide_eq_false. intros [[[H1 H2] H3] H4].
  split_and!; try done; [intros ->; apply H1; set_solver|intros ->; apply H1; set_solver|intros ->; apply H1; set_solver|naive_solver|naive_solver].
Qed.

(** One byte of plain code: the same move in both machines. *)
Lemma code_step_plain prev d n b l : plain prev (b :: l) = true -> scan Code d (b :: l) = true ->
  exists m d', code_step prev d n b = Lexer (lex_of m b) d' n /\ scan m d' l = true.
Proof.
  intros (H1 & H2 & H3 & H4 & H5 & Hl)%plain_cons. cbn [scan]. unfold code_step.
  destruct (decide (b = c_apos)) as [->|Ha]; [rewrite !bool_decide_eq_true_2 by done; intros Hs; by exists InStr, d|].
  rewrite (bool_decide_eq_false_2 _ Ha), (bool_decide_eq_false_2 _ H2). cbn [orb].
  destruct (decide (b = c_tick)) as [->|Ht]; [rewrite !bool_decide_eq_true_2 by done; intros Hs; by exists InTick, d|].
  rewrite (bool_decide_eq_false_2 _ Ht), (bool_decide_eq_false_2 _ H3).
  rewrite <- !bool_decide_and, (bool_decide_eq_false_2 _ H4), (bool_decide_eq_false_2 _ H5).
  case_bool_decide; [subst; intros Hs; by exists Code, (S d)|].
  case_bool_decide; [subst; intros Hs; by exists Code, (Nat.pred d)|].
  destruct (bool_decide (b = c_comma) && (d =? 0)%nat); [done|]. intros Hs. by exists Code, d.
Qed.

Lemma scan_lex l : forall m prev d n, plain prev l = true -> scan m d l = true -> l_commas (lex (Lexer (lex_of m prev) d n) l) = n.
Proof.
  induction l as [l IH] using (induction_ltof1 _ (@length byte)). unfold ltof in IH. intros m prev d n Hp Hs.
  destruct l as [|b l]; [done|]. pose proof (plain_cons _ _ _ Hp) as (H1 & _ & _ & _ & _ & Hl).
  assert (forall prev' y l', l = y :: l' -> plain prev' (y :: l') = true -> scan Code d l = true -> l_commas (lex (code_step prev' d n y) l') = n) as Hcode.
  { intros prev' y l' -> Hp' Hs'. destruct (code_step_plain _ _ n _ _ Hp' Hs') as (m' & d' & -> & Hs''). apply IH; [cbn; lia| |done].
    apply plain_cons in Hp' as (_ & _ & _ & _ & _ & ?). done. }
  destruct m.
  - destruct (code_step_plain _ _ n _ _ Hp Hs) as (m' & d' & E & Hs'). unfold lex. cbn [fold_left lex_step lex_of]. rewrite E. by apply IH; [cbn; lia|..].
  - unfold lex. cbn [fold_left lex_of lex_step]. cbn [scan] in Hs. destruct (decide (b = c_apos)) as [->|Hb].
    + rewrite bool_decide_eq_true_2 in Hs |- * by done. destruct l as [|y l']; [done|]. cbn [fold_left lex_step].
      destruct (decide (y = c_apos)) as [->|Hy].
      * rewrite bool_decide_eq_true_2 in Hs |- * by done. apply (IH l' ltac:(cbn; lia) InStr c_apos d n); [|done].
        by apply plain_cons in Hl as (_ & _ & _ & _ & _ & ?).
      * rewrite bool_decide_eq_false_2 in Hs |- * by done. by apply (Hcode c_apos y l' eq_refl).
    + rewrite bool_decide_eq_false_2 in Hs |- * by done. rewrite bool_decide_eq_false_2 by done. by apply (IH l ltac:(cbn; lia) InStr b).
  - unfold lex. cbn [fold_left lex_of lex_step]. cbn [scan] in Hs. destruct (decide (b = c_tick)) as [->|Hb].
    + rewrite bool_decide_eq_true_2 in Hs |- * by done. destruct l as [|y l']; [done|]. cbn [fold_left lex_step].
      destruct (decide (y = c_tick)) as [->|Hy].
      * rewrite bool_decide_eq_true_2 in Hs |- * by done. apply (IH l' ltac:(cbn; lia) InTick c_tick d n); [|done].
        by apply plain_cons in Hl as (_ & _ & _ & _ & _ & ?).
      * rewrite bool_decide_eq_false_2 in Hs |- * by done. by apply (Hcode c_tick y l' eq_refl).
    + rewrite bool_decide_eq_false_2 in Hs |- * by done. by apply (IH l ltac:(cbn; lia) InTick b).
Qed.

(** ** Whole statements *)
Lemma lex_app s l l' : lex s (l ++ l') = lex (lex s l) l'.
Proof. apply fold_left_app. Qed.

Definition comma_count (l : bytes) : nat := length (List.filter (fun b => bool_decide (b = c_comma)) l).
Lemma code_step_bound prev d n b : (n <= l_commas (code_step prev d n b) <= n + comma_count [b])%nat.
Proof.
  unfold code_step, comma_count. cbn [List.filter].
  repeat match goal with |- context [if ?c then _ else _] => destruct c eqn:? end; cbn [l_commas length]; try lia.
  all: rewrite ?andb_true_iff in *; naive_solver congruence.
Qed.
Lemma lex_step_bound s b : (l_commas s <= l_commas (lex_step s b) <= l_commas s + comma_count [b])%nat.
Proof.
  destruct s as [m d n]. cbn [lex_step l_commas].
  destruct m; repeat match goal with |- context [if ?c then _ else _] => destruct c end; cbn [l_commas]; try lia; apply code_step_bound.
Qed.
Lemma lex_bound s l : (l_commas s <= l_commas (lex s l) <= l_commas s + comma_count l)%nat.
Proof.
  revert s. induction l as [|b l IH]; intros s; [cbn; lia|]. pose proof (lex_step_bound s b) as Hb. specialize (IH (lex_step s b)).
  assert (comma_count (b :: l) = comma_count [b] + comma_count l)%nat as -> by (unfold comma_count; cbn [List.filter]; destruct (bool_decide _); cbn; lia).
  unfold lex in *. cbn [fold_left]. lia.
Qed.

(** A name of word characters. *)
Definition word_name (n : bytes) : Prop := n <> [] /\ Forall (fun b => is_word b = true) n.
Lemma word_not (c b : byte) : is_word b = true -> is_word c = false -> b <> c.
Proof. intros Hb Hc ->. congruence. Qed.

Lemma denotes_seq a b r p q : denotes (seqs (a :: b :: r)) p q -> exists q', denotes a p q' /\ denotes (seqs (b :: r)) q' q.
Proof. intros Hd. inversion Hd; subst. eauto. Qed.
Lemma star_word p q : denotes (Star word) p q -> exists w, rest p = w ++ rest q /\ Forall (fun b => is_word b = true) w.
Proof.
  remember (Star word) as r eqn:Er. induction 1 as [| | | | |a p|a p q q' Ha _ Hl _ IH| | | |]; try discriminate.
  - by exists [].
  - injection Er as ->. destruct (IH eq_refl) as (w & Hw & Hf). inversion Ha as [|f p' n En| | | | | | | | |]; subst. 
    destruct (rest p) as [|b l] eqn:Ep; [done|]. destruct (is_word b) eqn:Eb; [|done]. injection En as <-.
    unfold advance in Hw. rewrite Ep in Hw. cbn [rest drop] in Hw. exists (b :: w). split; [cbn; by rewrite <- Hw|by constructor].
Qed.
Lemma identifier_word s : valid_identifier s = true -> word_name (utf8 s).
Proof.
  unfold valid_identifier, validateIdentifier. destruct (_ =? 0)%nat; [done|]. destruct (64 <? _)%nat; [done|].
  unfold test. destruct (exec IDENTIFIER_RE (utf8 s)) as [[p q]|] eqn:E; [intros _|done].
  assert (is_Some (exec IDENTIFIER_RE (utf8 s))) as Hs by (rewrite E; eauto).
  apply exec_exact in Hs as (p0 & q0 & Hp0 & Hd).
  apply denotes_seq in Hd as (p1 & Hb & Hd). inversion Hb as [| | | | | | | |p' Hbol| |]; subst.
  apply denotes_seq in Hd as (p2 & Hw & Hd). inversion Hd as [| | | | | | | | |p'' Heol|]; subst.
  inversion Hw as [| |a b p' p3 p4 H1 H2| | | | | | | |]; subst. apply star_word in H2 as (w & Hr & Hf). rewrite Heol, app_nil_r in Hr.
  inversion H1 as [|f p' n En| | | | | | | | |]; subst. destruct (rest p1) as [|b l] eqn:Ep; [done|]. destruct (is_word b) eqn:Eb; [|done].
  injection En as <-. unfold advance in Hf. cbn [rest] in Hf. rewrite Ep in Hf. cbn [drop] in Hf.
  apply starts_before in Hp0 as [->|[x Hx]]; [|congruence|done]. cbn [rest] in Ep. rewrite Ep. split; [done|]. by constructor.
Qed.

Lemma lex_word m d n w : (m = LTick) -> Forall (fun b => is_word b = true) w -> lex (Lexer m d n) w = Lexer m d n.
Proof.
  intros ->. induction 1 as [|b w Hb _ IH]; [done|]. unfold lex in *. cbn [fold_left lex_step].
  by rewrite bool_decide_eq_false_2 by by apply word_not.
Qed.
Lemma lex_name prev d n w : word_name w -> lex (Lexer (LCode prev) d n) (tick_quoted w) = Lexer LTickEnd d n.
Proof.
  intros [_ Hw]. unfold tick_quoted. change (c_tick :: w ++ [c_tick]) with ([c_tick] ++ w ++ [c_tick]). rewrite !lex_app.
  change (lex (Lexer (LCode prev) d n) [c_tick]) with (Lexer LTick d n). by rewrite (lex_word LTick).
Qed.

(** Names and fixed words hold neither commas nor semicolons. *)
Definition quiet (l : bytes) : Prop := c_comma ∉ l /\ c_semi ∉ l.
Lemma quiet_app l l' : quiet l -> quiet l' -> quiet (l ++ l').
Proof. unfold quiet. set_solver. Qed.
Lemma quiet_name w : word_name w -> quiet (tick_quoted w).
Proof.
  intros [_ Hw]. rewrite Forall_forall in Hw. unfold quiet, tick_quoted.
  split; intros [E|[Hin|[E|E]%elem_of_cons]%elem_of_app]%elem_of_cons; try discriminate E; try by apply elem_of_nil in E.
  all: apply Hw in Hin; discriminate Hin.
Qed.
Lemma quiet_text s : bool_decide (c_comma ∉ utf8 s /\ c_semi ∉ utf8 s) = true -> quiet (utf8 s).
Proof. apply bool_decide_eq_true_1. Qed.
Lemma quiet_commas l : quiet l -> comma_count l = 0%nat.
Proof.
  intros [Hc _]. unfold comma_count. induction l as [|b l IH]; [done|]. cbn [List.filter]. rewrite bool_decide_eq_false_2 by set_solver. apply IH. set_solver.
Qed.
#[local] Hint Resolve quiet_app quiet_name : sync.

Lemma line_key_name line col t n cols : line_key line col = Some (Key t (Some n) cols) -> valid_identifier (of_utf8 n) = true.
Proof.
  unfold line_key. case_bool_decide; [done|]. destruct (key_line _) as [[[t' name] raw]|]; [|done].
  destruct (key_columns raw) as [[|c [|? ?]]|]; try done. destruct name as [n'|]; [|by destruct (_ && _)].
  destruct (bool_decide (c = col)); [|done]. cbn [andb]. destruct (valid_identifier (of_utf8 n')) eqn:E; [|done]. by intros [= _ <- _].
Qed.
Lemma key_name_valid ddl col t n cols : extractKeyForColumn ddl col = Some (Key t (Some n) cols) -> valid_identifier (of_utf8 n) = true.
Proof.
  unfold extractKeyForColumn. generalize (split_at c_newline ddl). intros lines.
  assert (forall best, (forall t n cols, best = Some (Key t (Some n) cols) -> valid_identifier (of_utf8 n) = true) ->
    forall t n cols, fold_left (fun best line => match line_key line col with Some k => better best k | None => best end) lines best = Some (Key t (Some n) cols) ->
    valid_identifier (of_utf8 n) = true) as Hl; [|intros H; eapply Hl; [|exact H]; done].
  clear t n cols. induction lines as [|line lines IH]; intros best Hb; [done|]. cbn [fold_left]. apply IH. intros t n cols.
  destruct (line_key line col) as [k|] eqn:E; [|apply Hb]. unfold better. destruct best as [b|]; [|intros [= ->]; by eapply line_key_name].
  destruct (_ <? _)%nat; [intros [= ->]; by eapply line_key_name|apply Hb].
Qed.
Lemma key_action_quiet has col ddl : valid_identifier (of_utf8 col) = true -> quiet (autoIncrementKeyAction has col ddl).
Proof.
  intros Hcol. assert (forall n, valid_identifier (of_utf8 n) = true -> quiet (tick_quoted n)) as Hq.
  { intros n Hn. apply quiet_name. rewrite <- (utf8_of_utf8 n). by apply identifier_word. }
  assert (quiet (utf8 " (" ++ tick_quoted col ++ [c_close])) as Hover.
  { apply quiet_app; [by apply quiet_text|]. apply quiet_app; [by apply Hq|]. by apply (bool_decide_eq_true_1 (_ /\ _)). }
  unfold autoIncrementKeyAction. destruct (extractKeyForColumn ddl col) as [[[] [n|] cols]|] eqn:E; try destruct (default true has);
    repeat first [exact Hover | apply quiet_app | apply quiet_text; reflexivity]; apply Hq; first [exact Hcol | eapply key_name_valid; exact E].
Qed.

Lemma definition_guarded ddl col def : extractColumnDefinition ddl col = Some def -> c_semi ∉ def /\ scan Code 0 def = true.
Proof.
  unfold extractColumnDefinition. induction (split_at c_newline ddl) as [|line lines IH]; cbn [find_definition]; [done|].
  destruct (bool_decide _); [|exact IH]. unfold guarded. destruct (bool_decide_reflect (c_semi ∈ strip_match TRAILING_COMMA_RE (trim line))) as [|Hs]; [done|].
  destruct (scan Code 0 (strip_match TRAILING_COMMA_RE (trim line))) eqn:E; [|done]. intros [= <-]. by split.
Qed.

(** Where a statement of the self-heal comes from. *)
Lemma sent_column hasPrimaryKey alter_fails tableName ddl destSet statement :
  statement ∈ h_sent (addMissingColumns hasPrimaryKey alter_fails tableName ddl destSet).1 ->
  exists col def sent, col ∈ extractColumnNames ddl /\ col ∉ destSet /\ valid_identifier (of_utf8 col) = true
    /\ extractColumnDefinition ddl col = Some def /\ statement = source_column tableName (column_actions hasPrimaryKey ddl sent col def).
Proof.
  unfold addMissingColumns. cbn [fst].
  assert (forall cols h, (forall c, c ∈ cols -> c ∈ extractColumnNames ddl) ->
    statement ∈ h_sent (fold_left (addColumn hasPrimaryKey alter_fails tableName ddl destSet) cols h) ->
    statement ∈ h_sent h \/ exists col def sent, col ∈ extractColumnNames ddl /\ col ∉ destSet /\ valid_identifier (of_utf8 col) = true
      /\ extractColumnDefinition ddl col = Some def
      /\ statement = source_column tableName (column_actions hasPrimaryKey ddl sent col def)) as Hfold.
  { induction cols as [|c cols IH]; intros h Hc; cbn [fold_left]; [by left|]. intros [Hin|?]%IH; [|by right|set_solver].
    revert Hin. unfold addColumn at 1. case_bool_decide; [by left|]. destruct (valid_identifier (of_utf8 c)) eqn:Ev; cbn [negb]; [|by left].
    destruct (extractColumnDefinition ddl c) as [def|] eqn:Ed; [|by left].
    destruct (alter_fails _ _); cbn [h_sent]; intros [?|Hst%list_elem_of_singleton]%elem_of_app; try (by left); right; exists c, def, (h_sent h); set_solver. }
  intros [Hin|?]%Hfold; [by apply elem_of_nil in Hin|done|done].
Qed.

(** C19. Every statement the schema self-heal sends adds one column that the source's
    definition has and the replica lacks.  It holds no semicolon, and when the definition
    has no backslash, double quote or comment the statement has no further action, or one
    more when the column is AUTO_INCREMENT and needs its key: no such text of the source
    reaches the replica as a further ALTER action. *)
Theorem self_heal_single_action hasPrimaryKey alter_fails tableName ddl destSet statement :
  valid_identifier (of_utf8 tableName) = true ->
  statement ∈ h_sent (addMissingColumns hasPrimaryKey alter_fails tableName ddl destSet).1 ->
  exists col def tail,
    col ∈ extractColumnNames ddl /\ col ∉ destSet /\ valid_identifier (of_utf8 col) = true
    /\ extractColumnDefinition ddl col = Some def
    /\ statement = source_column tableName (utf8 "ADD COLUMN " ++ def ++ tail)
    /\ c_semi ∉ statement
    /\ (plain c_space def = true -> (separators statement <= if isAutoIncrementDefinition def then 1 else 0)%nat).
Proof.
  intros Ht (col & def & sent & H1 & H2 & H3 & H4 & ->)%sent_column.
  exists col, def. eexists. split_and!; [done..|reflexivity| |].
  all: pose proof (definition_guarded _ _ _ H4) as [Hsemi Hscan].
  all: assert (word_name tableName) as Hn by (rewrite <- (utf8_of_utf8 tableName); by apply identifier_word).
  all: pose proof (key_action_quiet (hasPrimaryKey sent) col ddl H3) as [Hkc Hks].
  - unfold source_column, column_actions. pose proof (quiet_name _ Hn) as [_ Hq].
    assert (c_semi ∉ utf8 "ALTER TABLE " /\ c_semi ∉ utf8 "ADD COLUMN " /\ c_semi ∉ utf8 ", ") as (? & ? & ?) by (apply (bool_decide_eq_true_1 (_ /\ _)); reflexivity).
    destruct (isAutoIncrementDefinition def); rewrite !elem_of_app, ?list_elem_of_singleton, ?elem_of_nil; intuition discriminate.
  - intros Hp. unfold separators, source_column, column_actions. rewrite !lex_app.
    change (lex (Lexer (LCode c_space) 0 0) (utf8 "ALTER TABLE ")) with (Lexer (LCode c_space) 0 0). rewrite (lex_name _ _ _ _ Hn).
    change (lex (lex (Lexer LTickEnd 0 0) [c_space]) (utf8 "ADD COLUMN ")) with (Lexer (LCode c_space) 0 0).
    pose proof (scan_lex def Code c_space 0 0 Hp Hscan) as Hdef. cbn [lex_of] in Hdef.
    set (s := lex (Lexer (LCode c_space) 0 0) def) in *. destruct (isAutoIncrementDefinition def); [|change (lex s []) with s; lia].
    pose proof (lex_bound s (utf8 ", " ++ autoIncrementKeyAction (hasPrimaryKey sent) col ddl)) as Hb.
    unfold comma_count in Hb. rewrite List.filter_app, length_app in Hb. fold (comma_count (autoIncrementKeyAction (hasPrimaryKey sent) col ddl)) in Hb.
    rewrite (quiet_commas _ (conj Hkc Hks)) in Hb. change (length (List.filter (fun b => bool_decide (b = c_comma)) (utf8 ", "))) with 1%nat in Hb. lia.
Qed.

(** ** Examples *)
Definition newline : string := of_utf8 [c_newline].
Definition shown (columns : list string) : bytes :=
  utf8 (join_text newline ("CREATE TABLE `orders` (" :: map (fun c => "  " +:+ c) columns ++ [") ENGINE=InnoDB"])).
Definition replica_heal (columns : list string) : list string :=
  map of_utf8 (h_sent (addMissingColumns (fun _ => Some true) (fun _ _ => None) (utf8 "orders") (shown columns) [utf8 "action_index"]).1).

Definition ex_columns : list string :=
  ["`action_index` bigint(20) unsigned NOT NULL,"; "`kind` enum('a','b') DEFAULT 'a' COMMENT 'it''s, plain',"; "`seq` bigint(20) NOT NULL AUTO_INCREMENT,";
   "PRIMARY KEY (`action_index`),"; "UNIQUE KEY `seq_idx` (`seq`)"].
Example healed : replica_heal ex_columns =
  ["ALTER TABLE `orders` ADD COLUMN `kind` enum('a','b') DEFAULT 'a' COMMENT 'it''s, plain'";
   "ALTER TABLE `orders` ADD COLUMN `seq` bigint(20) NOT NULL AUTO_INCREMENT, ADD UNIQUE KEY `seq_idx` (`seq`)"].
Proof. vm_compute. reflexivity. Qed.

Lemma self_heal_single_action_witness :
  exists col def tail,
    col ∈ extractColumnNames (shown ex_columns) /\ col ∉ [utf8 "action_index"] /\ valid_identifier (of_utf8 col) = true
    /\ extractColumnDefinition (shown ex_columns) col = Some def
    /\ utf8 "ALTER TABLE `orders` ADD COLUMN `kind` enum('a','b') DEFAULT 'a' COMMENT 'it''s, plain'"
       = source_column (utf8 "orders") (utf8 "ADD COLUMN " ++ def ++ tail)
    /\ c_semi ∉ utf8 "ALTER TABLE `orders` ADD COLUMN `kind` enum('a','b') DEFAULT 'a' COMMENT 'it''s, plain'"
    /\ (plain c_space def = true ->
        (separators (utf8 "ALTER TABLE `orders` ADD COLUMN `kind` enum('a','b') DEFAULT 'a' COMMENT 'it''s, plain'") <= if isAutoIncrementDefinition def then 1 else 0)%nat).
Proof.
  apply (self_heal_single_action (fun _ => Some true) (fun _ _ => None)); [vm_compute; reflexivity|].
  apply (bool_decide_eq_true_1 (_ ∈ _)). vm_compute. reflexivity.
Defined.

(** Outside the language of the guard a second action passes it: a backslash-escaped
    quote, a double-quoted string and a comment each hide a comma from the scan that
    MariaDB reads as a separator. *)
Definition smuggled (column : string) : list (string * nat) :=
  map (fun st => (st, separators (utf8 st))) (replica_heal [column]).
Example backslash_hides_action :
  smuggled "`evil` int COMMENT '\'', DROP COLUMN `victim`, ADD COLUMN `c` int COMMENT ''"
  = [("ALTER TABLE `orders` ADD COLUMN `evil` int COMMENT '\'', DROP COLUMN `victim`, ADD COLUMN `c` int COMMENT ''", 2%nat)].
Proof. vm_compute. reflexivity. Qed.
Definition dq : string := of_utf8 [c_dquote].
Example double_quote_hides_action :
  map snd (smuggled ("`evil` int COMMENT " +:+ dq +:+ "'" +:+ dq +:+ ", DROP COLUMN `victim`, ADD COLUMN `c` int COMMENT " +:+ dq +:+ "'" +:+ dq)) = [2%nat].
Proof. vm_compute. reflexivity. Qed.
Example comment_hides_action :
  smuggled "`evil` int /* ' */, DROP COLUMN `victim` /* ' */" = [("ALTER TABLE `orders` ADD COLUMN `evil` int /* ' */, DROP COLUMN `victim` /* ' */", 1%nat)].
Proof. vm_compute. reflexivity. Qed.

(** A [status] event with a negative height is accepted, and a block at height 0. *)
Example negative_status :
  validateWsEvent (WObj [("type", WStr "status"); ("block_height", WNum (Fin (-1) 0))]) = WsValid "status"
  /\ validateWsEvent (WObj [("type", WStr "block"); ("block_index", WNum (Fin 0 0))]) = WsValid "block"
  /\ validateWsEvent (WObj [("type", WStr "reorg"); ("block_index", WNum (Fin 3 (-1)))]) = WsInvalid "reorg event block_index is not an integer".
Proof. split_and!; vm_compute; reflexivity. Qed.
