(* ===== verification/RowWrites.v ===== *)
(** * RowWrites: the statements the applier writes rows with

    Models [src/src/db/tables/table_mutations.js] and the reads of
    [src/src/db/tables/table_reads.js] the applier's lookup repair uses.  An INSERT is a
    sequence of rows over named columns; a row that agrees with a stored row on a unique
    key fails the statement with errno 1062, is skipped with a warning (IGNORE) or
    overwrites the named columns of that row (ON DUPLICATE KEY UPDATE).

    What the columns make of a bound value, the unique keys, the AUTO_INCREMENT column
    and the values of columns an INSERT does not name are the replica's schema: they are
    the operations of the class [Storage], and [StorageLaws] states what the applier
    relies on. *)

From S2P Require Import Prelude Sha256 JsText JsNumber JsMap JsDouble Json Primitives FollowerRoots Regex Validation WireCodec Sql Balances.

#[local] Notation row := (gmap string value).
#[local] Notation cell := Sql.cell.

(** ** Bound values *)
Fixpoint json_text (j : json) : string :=
  match j with
  | PNull => "null"
  | PBool b => if b then "true" else "false"
  | PNum z => string_of_int z
  | PStr s => s
  | PArr l => join_text "," (map (fun x => match x with PNull => "" | _ => json_text x end) l)
  | PObj _ => "[object Object]"
  end.
(** [doQuery] sends an object other than a Buffer as its text. *)
Definition coerce_arg (v : applied) : applied :=
  match v with
  | AVal (PArr l) => AVal (PStr (json_text (PArr l)))
  | AVal (PObj l) => AVal (PStr (json_text (PObj l)))
  | _ => v
  end.

Record warning := Warning { Code : Z; Message : string }.
Definition ER_DUP_ENTRY : Z := 1062.
Definition WARN_DATA_TRUNCATED : Z := 1265.

Class Storage := {
  bind : applied -> value;                                  (* a value as a parameter *)
  store : string -> string -> applied -> value;             (* what a column holds of it *)
  unique_keys : string -> list (string * list string);      (* index name, columns *)
  auto_column : string -> option string;                    (* the AUTO_INCREMENT column *)
  fill : string -> list row -> row -> row;                  (* the columns a row leaves out *)
  entry_text : list value -> string;                        (* the key in a 1062 message *)
  conversions : string -> list string -> list applied -> list warning }.

Section Writes.
Context `{Dialect} `{Storage}.

(** ** INSERT *)
Definition conflict (t : string) (l : list row) (r : row) : option (string * list string) :=
  List.find (fun k => existsb (same_key k.2 r) l) (unique_keys t).
Definition duplicate_warning (k : string * list string) (r : row) : warning :=
  Warning ER_DUP_ENTRY ("Duplicate entry '" +:+ entry_text (map (cell r) k.2) +:+ "' for key '" +:+ k.1 +:+ "'").

Fixpoint split_first (p : row -> bool) (l : list row) : option (list row * row * list row) :=
  match l with
  | [] => None
  | x :: l' => if p x then Some ([], x, l') else (fun s => (x :: s.1.1, s.1.2, s.2)) <$> split_first p l'
  end.
Definition overwrite (columns : list string) (r x : row) : row := fold_left (fun acc c => <[c := cell r c]> acc) columns x.

(** One row of an INSERT; [None] is errno 1062. *)
Definition insert_row (t : string) (columns : list string) (useIgnore useUpsert : bool) (l : list row) (named : row) : option (list row * list warning) :=
  let r := fill t l named in
  match conflict t l r with
  | None => Some (l ++ [r], [])
  | Some k =>
      let skip := if useIgnore then Some (l, [duplicate_warning k r]) else None in
      if useUpsert then
        match split_first (same_key k.2 r) l with
        | Some (pre, x, post) =>
            match conflict t (pre ++ post) (overwrite columns r x) with
            | None => Some (pre ++ overwrite columns r x :: post, [])
            | Some _ => skip
            end
        | None => skip
        end
      else skip
  end.
Fixpoint insert_all (t : string) (columns : list string) (useIgnore useUpsert : bool) (l : list row) (new : list row) : option (list row * list warning) :=
  match new with
  | [] => Some (l, [])
  | r :: new' =>
      match insert_row t columns useIgnore useUpsert l r with
      | None => None
      | Some (l1, w1) => (fun p => (p.1, w1 ++ p.2)) <$> insert_all t columns useIgnore useUpsert l1 new'
      end
  end.

(** The VALUES clauses over the flat list of arguments. *)
Definition clauses (n rowCount : nat) (args : list applied) : list (list applied) :=
  map (fun i => take n (drop (i * n) args)) (seq 0 rowCount).
Definition named_row (t : string) (columns : list string) (vals : list applied) : row :=
  list_to_map (zip_with (fun c v => (c, store t c (coerce_arg v))) columns vals).
(** The rows land or the statement fails as one; the answer is its warnings. *)
Definition insertRowValues (t : string) (columns : list string) (rowCount : nat) (args : list applied) (useIgnore useUpsert : bool) : txn (list warning) :=
  query (fun db =>
    match gap db [t] (map (pair t) columns) with
    | Some n => Fail (DbError (Some n) None)
    | None =>
        let vals := clauses (length columns) rowCount args in
        match insert_all t columns useIgnore useUpsert (rows_of db t) (map (named_row t columns) vals) with
        | None => Fail (DbError (Some ER_DUP_ENTRY) None)
        | Some (l, w) => Done (set_rows db t l, (if useIgnore then flat_map (conversions t columns) vals else []) ++ w)
        end
    end).
(** The warnings of the statement before. *)
Definition showWarnings (w : list warning) : txn (list warning) := query (fun db => Done (db, w)).

(** ** Keyed deletes and reads *)
Definition deleteRowsByKeyValues (t naturalKey : string) (slice : list applied) : stmt :=
  Delete t "t" [] (in_list (Col "t" naturalKey) (map (fun v => bind (coerce_arg v)) slice)) None.
Definition deleteAllRows (t : string) : stmt := Delete t "t" [] TRUE None.
Definition deleteRowById (t : string) (id : Z) : stmt := Delete t "t" [] (Cmp Eq (Col "t" "id") (Lit (bind (AVal (PNum id))))) None.
Definition all_of (l : list cond) : cond := match l with [] => TRUE | c :: l' => fold_left And l' c end.
Definition findRowIdsByKeyColumns (t : string) (keyColumns : list string) (values : list applied) : txn (list value) :=
  do! l := ask (Select [(t, "t")]
    (all_of (zip_with (fun c v => Cmp Eq (Col "t" c) (Lit (bind (coerce_arg v)))) keyColumns values)) [("id", Col "t" "id")]) in
  tret (take 2 (map (fun r => cell r "id") l)).
Definition findRowIdById (t : string) (id : applied) : txn (list value) :=
  do! l := ask (Select [(t, "t")] (Cmp Eq (Col "t" "id") (Lit (bind id))) [("id", Col "t" "id")]) in
  tret (take 1 (map (fun r => cell r "id") l)).
(** [information_schema.statistics] *)
Definition findIndexColumnNames (t indexName : string) : txn (list string) :=
  query (fun db => Done (db, default [] (snd <$> List.find (fun k => bool_decide (k.1 = indexName)) (unique_keys t)))).
End Writes.

(** What the applier relies on: a column an INSERT names holds the value the column makes
    of it, unless it is the AUTO_INCREMENT column given NULL or zero; and an AUTO_INCREMENT
    column that is not named gets a value no row of the table has. *)
Class StorageLaws `{Dialect} `{Storage} : Prop := {
  fill_named t l r c v : r !! c = Some v -> (auto_column t = Some c -> v <> Null /\ v <> Int 0) -> fill t l r !! c = Some v;
  fill_auto t l r c x : auto_column t = Some c -> r !! c = None -> x ∈ l -> cmp3 Eq (cell (fill t l r) c) (cell x c) <> Some true }.
