(* ===== verification/Applier.v ===== *)
(** * Applier: blocks and snapshots applied to the replica

    Models [src/src/client/applier.js] with the table sets of
    [src/src/server/snapshot_builder/table_sets.js] and
    [src/src/schema/generated_columns.js].  A payload is the parsed wire object: its
    tables with their rows in order.  Every entry point ([applyBlock],
    [applyFullSnapshot], [applyIncrementalSnapshot], [applyDispensersReplace]) is one
    transaction on the replica; any query of it may fail.

    The state commitment of a block is the interface [Commitment]; its own model is the
    file [Orchestrator], and [ApplierRoots] is the instance made of it.  The text of an
    error and the table name put on a failed upsert are diagnostics and are not carried:
    [refusal] is an Error of the applier itself. *)

From stdpp Require Import sorting.
From S2P Require Import Prelude Sha256 JsText JsNumber JsMap JsDouble Json Primitives GateRegistry Gates Subtrees FollowerRoots Regex Validation WireCodec Sql TableLifecycle Balances Rollback RowWrites.

#[local] Open Scope Z_scope.
#[local] Notation row := (gmap string value).
#[local] Notation cell := Sql.cell.

(** ** Payloads *)
Notation wire_row := (list (string * json)).
Notation wire_tables := (list (string * list wire_row)).
Definition field (r : wire_row) (c : string) : option json := snd <$> List.find (fun m => bool_decide (m.1 = c)) r.
Definition carried (ts : wire_tables) (t : string) : option (list wire_row) := snd <$> List.find (fun m => bool_decide (m.1 = t)) ts.
Definition rows_carried (ts : wire_tables) (t : string) : list wire_row := default [] (carried ts t).
(** [v == null] of a member. *)
Definition absent (o : option json) : bool := match o with None | Some PNull => true | _ => false end.

Record block_payload := BlockPayload {
  p_block_index : option Z; p_schema_version : option Z; p_data : option wire_tables; p_updated_rows : option wire_tables }.
Record snapshot_payload := SnapshotPayload {
  sn_tables : option wire_tables; sn_schema_version : option Z; sn_block_height : Z; sn_since_block : option Z; sn_updated_rows : option wire_tables }.

(** ** Table sets *)
Definition replicated_as (kinds : list string) : list string := tablesWhere (fun e => bool_decide (replication e ∈ kinds)).
Definition OPERATOR_LOCAL_TABLES : list string :=
  replicated_as ["local"; "hub-mirror"; "follower-derived"] ++ ["mempool_transactions"; "dispenser_extension_undo"; "sync_halt"; "sync_state"].
Definition SOURCE_UNSTREAMED_TABLES : list string := ["merkle_reorgs"].
Definition REPLICA_LEDGER_TABLES : list string := ["schema_migrations"].
Definition PRIORITY_TABLES : list string :=
  ["index_actions"; "index_addresses"; "index_coins"; "index_fiats"; "index_memos"; "index_mime_types"; "index_pubkeys"; "index_statuses";
   "index_tickers"; "index_transactions"; "blocks"; "transactions"; "actions"].
Definition TRAILING_TABLES : list string := ["balances"; "sync_meta"; "pubkeys"].
Definition text_le (a b : string) : Prop := String.leb a b = true.
#[global] Instance text_le_dec a b : Decision (text_le a b).
Proof. unfold text_le. apply _. Defined.
Definition orderSnapshotTables (allTables : list string) : list string :=
  List.filter (fun t => bool_decide (t ∈ allTables)) PRIORITY_TABLES
  ++ merge_sort text_le (List.filter (fun t => negb (bool_decide (t ∈ PRIORITY_TABLES)) && negb (bool_decide (t ∈ TRAILING_TABLES))) allTables)
  ++ List.filter (fun t => bool_decide (t ∈ allTables)) TRAILING_TABLES.

Definition ESCROW_TRIGGER_TABLES : list string :=
  ["orders"; "order_statuses"; "swaps"; "swap_statuses"; "dispensers"; "dispenser_statuses"; "tokens"].
Definition ignoreTables : list string :=
  replicated_as ["stream:index"]
  ++ ["pubkeys"; "events"; "sync_meta"; "merkle_epochs"; "validator_rewards"; "rollcalls"; "rollcall_absences"; "rollcall_gates"].
Definition idKeyedIgnoreTables : list string :=
  replicated_as ["stream:index"] ++ ["pubkeys"; "rollcalls"; "rollcall_absences"; "rollcall_gates"].
Definition repairNaturalKeyColumns (t : string) : option (list string) := if bool_decide (t = "index_statuses") then Some ["status"] else None.
Definition upsertFullDumpTables : list string := ["markets"; "attest_validator_stats"].
Definition authoritativeSnapshotUpsertTables : list string := ["merkle_epochs"].
Definition localSurrogateIdTables (t : string) : option string := if bool_decide (t = "blocks") then Some "block_index" else None.
Definition localSurrogateIdOnlyTables : list string := ["attest_validator_stats"; "sync_meta"; "merkle_epochs"].
Definition generatedColumns (t : string) : list string := if bool_decide (t = "contract_state") then ["state_key_bin"] else [].

Definition MAX_SCOPED_REBUILD_IDS : nat := 1000.
Definition SCHEMA_VERSION (kind : db_type) : Z := match kind with IndexerDb => 21 | DecoderDb => 5 end.

(** The part of a client the applier is built with. *)
Record applier := Applier { dbType : db_type; coinTicker : option string; network : option string }.
Definition commitment_active (a : applier) (b : Z) : bool :=
  match network a with
  | Some n => isStateCommitmentActive (JInt b) n (match coinTicker a with Some c => JStr c | None => JNull end)
  | None => false
  end.
Definition activation_block (a : applier) (b : Z) : bool :=
  match network a with
  | Some n => isStateCommitmentActivationBlock (JInt b) n (match coinTicker a with Some c => JStr c | None => JNull end)
  | None => false
  end.

(** What the state commitment promises the applier: see the laws in [ApplierRoots]. *)
Class Commitment := {
  computeFollowerRoots : option string -> option string -> Z -> list touched_key -> bool -> txn roots_row;
  seedSnapshotRoots : option string -> option string -> Z -> txn unit }.

Definition refusal : dberror := DbError None None.
Definition refuse {A} : txn A := throw refusal.
Definition check (b : bool) : txn unit := if b then tret tt else refuse.

Record insert_opts := InsertOpts { strictIgnoreCheck : bool; authoritativeSnapshot : bool }.
Definition no_opts : insert_opts := InsertOpts false false.

Section Program.
Context `{Dialect} `{Storage}.

(** ** insertRows *)
Definition sameKeyValue (a b : applied) : bool :=
  match a, b with
  | ABuf x, ABuf y => bool_decide (x = y)
  | AVal PNull, AVal PNull => true
  | AVal (PBool x), AVal (PBool y) => Bool.eqb x y
  | AVal (PNum x), AVal (PNum y) => (x =? y)%Z
  | AVal (PStr x), AVal (PStr y) => bool_decide (x = y)
  | _, _ => false
  end.
Definition add_value (l : list applied) (v : applied) : list applied := if existsb (fun k => sameKeyValue k v) l then l else l ++ [v].

Definition prepareInsertColumns (t : string) (rows : list wire_row) : option (list string) :=
  let columns := map fst (default [] (head rows)) in
  let columns1 := List.filter (fun c => negb (bool_decide (c ∈ generatedColumns t))) columns in
  if negb (bool_decide (generatedColumns t = [])) && bool_decide (columns1 = []) then None
  else if bool_decide (t ∈ localSurrogateIdOnlyTables) && bool_decide ("id" ∈ columns1) then
    let columns2 := List.filter (fun c => negb (bool_decide (c = "id"))) columns1 in
    if bool_decide (columns2 = []) then None else Some columns2
  else Some columns1.

Record prepared := Prepared { columns_of : list string; naturalKey : string; keyValues : list applied; useIgnore : bool; useUpsert : bool }.
(** The distinct natural keys of the rows; [None] when a row has none. *)
Fixpoint natural_keys (key : string) (rows : list wire_row) (acc : list applied) : option (list applied) :=
  match rows with
  | [] => Some acc
  | r :: rows' =>
      match field r key with
      | None | Some PNull => None
      | Some j => natural_keys key rows' (add_value acc (decodeValue j))
      end
  end.
Definition prepareTableRows (t : string) (rows : list wire_row) (o : insert_opts) : option prepared :=
  if negb (valid_identifier t) then None
  else
    let ups := bool_decide (t ∈ upsertFullDumpTables) || (authoritativeSnapshot o && bool_decide (t ∈ authoritativeSnapshotUpsertTables)) in
    let ign := bool_decide (t ∈ ignoreTables) && negb ups in
    match prepareInsertColumns t rows with
    | None => None
    | Some columns =>
        match localSurrogateIdTables t with
        | Some key =>
            if bool_decide ("id" ∈ columns) then
              let columns' := List.filter (fun c => negb (bool_decide (c = "id"))) columns in
              if negb (valid_identifier key) || bool_decide (columns' = []) then None
              else match natural_keys key rows [] with
                   | Some vals => Some (Prepared columns' key vals ign ups)
                   | None => None
                   end
            else Some (Prepared columns "" [] ign ups)
        | None => Some (Prepared columns "" [] ign ups)
        end
    end.

Definition arg (r : wire_row) (c : string) : applied := decodeValue (default PNull (field r c)).
Definition prepareInsertBatch (columns : list string) (batch : list wire_row) : list applied :=
  flat_map (fun r => map (arg r) columns) batch.
Definition insertRowBatch (t : string) (columns : list string) (batch : list wire_row) (ign ups : bool) : txn (list warning) :=
  insertRowValues t columns (length batch) (prepareInsertBatch columns batch) ign ups.

(** [for(i = 0; i < l.length; i += n)] over [l.slice(i, i + n)]. *)
Fixpoint chunks_from {A} (fuel n : nat) (l : list A) : list (list A) :=
  match fuel, l with
  | _, [] => []
  | O, _ => []
  | S fuel, _ => take n l :: chunks_from fuel n (drop n l)
  end.
Definition chunks {A} (n : nat) (l : list A) : list (list A) := chunks_from (length l) n l.

Definition assertNoEventTruncation (ws : list warning) : txn unit := check (forallb (fun w => negb (Code w =? WARN_DATA_TRUNCATED)) ws).

(** Warnings *)
Definition key_quote : re := opt (one (fun b => bool_decide (b ∈ quotes))).
Definition name_part : re := plus (one (fun b => is_word b || bool_decide (b = ch "-"))).
Definition FOR_PRIMARY_RE : re := seqs [keyword "for key "; key_quote; opt (seqs [name_part; literal "."]); keyword "PRIMARY"; key_quote].
Definition FOR_KEY_RE : re := seqs [keyword "for key "; key_quote; opt (seqs [name_part; literal "."]); Group 1 name_part; key_quote].
Definition suspectIgnoreWarnings (ws : list warning) : list warning :=
  List.filter (fun w => negb ((Code w =? ER_DUP_ENTRY) && test FOR_PRIMARY_RE (utf8 (Message w)))) ws.
Definition assertNoStrictIgnoreConflicts (suspect : list warning) : txn unit := check (bool_decide (length suspect = 0%nat)).

(** [Number(id)]; [None] is NaN. *)
Definition number_of_json (j : json) : option Z :=
  match j with
  | PNull => Some 0
  | PBool b => Some (if b then 1 else 0)
  | PNum z => Some z
  | PStr s => num_integer (js_number (JStr s))
  | _ => None
  end.
Definition number_of_value (v : value) : option Z :=
  match v with Null => Some 0 | Int z => to_double z | Text s => num_integer (js_number (JStr s)) | Dec _ => None end.
Definition same_number (a b : option Z) : bool := match a, b with Some x, Some y => x =? y | _, _ => false end.
Definition add_id (l : list Z) (o : option Z) : list Z :=
  match o with Some z => if bool_decide (z ∈ l) then l else l ++ [z] | None => l end.

(** The index names of a page of warnings; [None] unless every one is a collision on a
    key other than the primary one. *)
Fixpoint warned_indexes (ws : list warning) (acc : list string) : option (list string) :=
  match ws with
  | [] => Some acc
  | w :: ws' =>
      if negb (Code w =? ER_DUP_ENTRY) then None
      else match Regex.exec FOR_KEY_RE (utf8 (Message w)) with
           | None => None
           | Some (_, q) =>
               let name := of_utf8 (group 1 q) in
               if bool_decide (to_lower name = "primary") then None
               else warned_indexes ws' (if bool_decide (name ∈ acc) then acc else acc ++ [name])
           end
  end.
Definition uniqueKeyColumns (t indexName : string) : txn (list string) :=
  if negb (valid_identifier indexName) then tret []
  else do! names := findIndexColumnNames t indexName in
       tret (if forallb valid_identifier names then names else []).
(** The ids of a page, unless a row has none. *)
Definition page_ids (rows : list wire_row) : option (list (option Z)) :=
  mapM (fun r => if absent (field r "id") then None else Some (number_of_json (default PNull (field r "id")))) rows.
Definition in_window (low high : option Z) (z : Z) : bool :=
  match low, high with Some a, Some b => negb (z <? a) && negb (b <? z) | _, _ => true end.
Definition retire_one (t : string) (keyColumns : list string) (carriedIds : list (option Z)) (low high : option Z) (r : wire_row) : txn (list Z) :=
  let id := number_of_json (default PNull (field r "id")) in
  do! mine := findRowIdById t (AVal (match id with Some z => PNum z | None => PNull end)) in
  if negb (bool_decide (length mine = 0%nat)) then tret []
  else if negb (forallb (fun c => bool_decide (is_Some (field r c))) keyColumns) then tret []
  else
    do! holder := findRowIdsByKeyColumns t keyColumns (map (arg r) keyColumns) in
    match holder with
    | [v] =>
        match number_of_value v with
        | Some h =>
            if same_number (Some h) id || existsb (same_number (Some h)) carriedIds || negb (in_window low high h) then tret []
            else run_stmt (deleteRowById t h) ;! tret [h]
        | None => tret []
        end
    | _ => tret []
    end.
Fixpoint each_collect {A B} (l : list A) (k : A -> txn (list B)) : txn (list B) :=
  match l with
  | [] => tret []
  | x :: l' => do! a := k x in do! b := each_collect l' k in tret (a ++ b)
  end.
Definition fold_bound (op : Z -> Z -> Z) (ids : list (option Z)) : option Z :=
  match omap id ids with [] => None | z :: l => Some (fold_left op l z) end.
Definition retireStaleNaturalKeyRows (t : string) (batch pageRows : list wire_row) (ws : list warning) : txn (list Z) :=
  match warned_indexes ws [], page_ids pageRows with
  | Some indexNames, Some ids =>
      let low := fold_bound Z.min ids in let high := fold_bound Z.max ids in
      each_collect indexNames (fun indexName =>
        do! keyColumns := uniqueKeyColumns t indexName in
        if bool_decide (length keyColumns = 0%nat) then tret []
        else each_collect batch (retire_one t keyColumns ids low high))
  | _, _ => tret []
  end.

Definition insertBatch (t : string) (p : prepared) (rows : list wire_row) (o : insert_opts) (batch : list wire_row) : txn unit :=
  do! ws := insertRowBatch t (columns_of p) batch (useIgnore p) (useUpsert p) in
  if bool_decide (t = "events") then do! ws := showWarnings ws in assertNoEventTruncation ws
  else if strictIgnoreCheck o && bool_decide (t ∈ idKeyedIgnoreTables) then
    do! ws := showWarnings ws in
    let suspect := suspectIgnoreWarnings ws in
    if bool_decide (length suspect = 0%nat) then tret tt
    else
      do! retired := retireStaleNaturalKeyRows t batch rows suspect in
      do! suspect := (if bool_decide (length retired = 0%nat) then tret suspect
                      else do! ws := insertRowBatch t (columns_of p) batch (useIgnore p) (useUpsert p) in
                           do! ws := showWarnings ws in tret (suspectIgnoreWarnings ws)) in
      assertNoStrictIgnoreConflicts suspect
  else tret tt.
Definition insertRows (t : string) (rows : list wire_row) (o : insert_opts) : txn unit :=
  if bool_decide (length rows = 0%nat) then tret tt
  else
    match prepareTableRows t rows o with
    | None => refuse
    | Some p =>
        each (chunks 500 (keyValues p)) (fun slice => run_stmt (deleteRowsByKeyValues t (naturalKey p) slice)) ;!
        check (forallb valid_identifier (columns_of p)) ;!
        each (chunks 100 rows) (insertBatch t p rows o)
    end.

(** ** The lookup repair *)
Fixpoint stale_lookup_ids (t : string) (keyColumns : list string) (rows : list wire_row) (retire : list Z) : txn (list Z) :=
  match rows with
  | [] => tret retire
  | r :: rows' =>
      if absent (field r "id") || negb (forallb (fun c => bool_decide (is_Some (field r c))) keyColumns) then refuse
      else
        let id := default PNull (field r "id") in
        do! keyHolders := findRowIdsByKeyColumns t keyColumns (map (arg r) keyColumns) in
        if match keyHolders with [v] => same_number (number_of_value v) (number_of_json id) | _ => false end
        then stale_lookup_ids t keyColumns rows' retire
        else
          do! idHolder := findRowIdById t (AVal id) in
          stale_lookup_ids t keyColumns rows' (fold_left add_id (map number_of_value (idHolder ++ keyHolders)) retire)
  end.
Definition reconcileLookupRows (t : string) (rows : list wire_row) (keyColumns : list string) : txn unit :=
  do! retireIds := stale_lookup_ids t keyColumns rows [] in
  each retireIds (fun id => run_stmt (deleteRowById t id)).

(** ** Derived state *)
Fixpoint scope_rows (keyField : string) (rows : list wire_row) (keys ticks : list applied) : option (list applied * list applied) :=
  match rows with
  | [] => Some (keys, ticks)
  | r :: rows' =>
      if absent (field r keyField) || absent (field r "tick_id") then None
      else
        let keys := add_value keys (AVal (default PNull (field r keyField))) in
        let ticks := add_value ticks (AVal (default PNull (field r "tick_id"))) in
        if (MAX_SCOPED_REBUILD_IDS <? length keys)%nat || (MAX_SCOPED_REBUILD_IDS <? length ticks)%nat then None
        else scope_rows keyField rows' keys ticks
  end.
Definition collectRebuildScope (rows : list wire_row) (keyField : string) : option (list applied * list applied) := scope_rows keyField rows [] [].
Definition rebuildBalancesTouchedBy (credits debits : list wire_row) : txn unit :=
  match collectRebuildScope (credits ++ debits) "address_id" with
  | Some ([], _) => tret tt
  | Some (keys, ticks) =>
      catch_missing (rebuildBalances (Some (Scope (map (fun v => bind (coerce_arg v)) keys) (map (fun v => bind (coerce_arg v)) ticks))))
  | None => catch_missing (rebuildBalances None)
  end.

Definition value_text (v : value) : string :=
  match v with Null => "null" | Int z => string_of_int z | Text s => s | Dec u => minimalDecimal u end.
Definition c_tab : byte := Byte.x09.
Definition tab : string := of_utf8 [c_tab].
(** The pairs touched, as text, and the ids to look up. *)
Definition touch (acc : list string * list applied * list applied) (r : wire_row) : list string * list applied * list applied :=
  let '(pairs, addrs, ticks) := acc in
  if absent (field r "address_id") || absent (field r "tick_id") then acc
  else
    let a := default PNull (field r "address_id") in let k := default PNull (field r "tick_id") in
    let key := json_text a +:+ tab +:+ json_text k in
    (if bool_decide (key ∈ pairs) then pairs else pairs ++ [key], add_value addrs (AVal a), add_value ticks (AVal k)).
Definition index_text (t c : string) (ids : list applied) : txn (jsmap string value) :=
  do! l := ask (Select [(t, "t")] (in_list (Col "t" "id") (map (fun v => bind (coerce_arg v)) ids)) [("id", Col "t" "id"); (c, Col "t" c)]) in
  tret (fold_left (fun m r => jm_set (value_text (cell r "id")) (cell r c) m) l []).
Definition resolve_pair (addrMap tickMap : jsmap string value) (key : string) : option touched_key :=
  let parts := map of_utf8 (split_at c_tab (utf8 key)) in
  match jm_get (default "" (parts !! 0%nat)) addrMap, (parts !! 1%nat) ≫= (fun k => jm_get k tickMap) with
  | Some a, Some k =>
      if bool_decide (a = Null) || bool_decide (k = Null) || bool_decide (k = Text "") then None
      else Some (TouchedKey (Some (value_text a)) (Some (value_text k)))
  | _, _ => None
  end.
Definition collectSmtTouchedKeys (data : wire_tables) : txn (list touched_key) :=
  let '(pairs, addrs, ticks) := fold_left touch (rows_carried data "credits" ++ rows_carried data "debits" ++ rows_carried data "escrows") ([], [], []) in
  if bool_decide (length pairs = 0%nat) then tret []
  else
    do! addrMap := index_text "index_addresses" "address" addrs in
    do! tickMap := index_text "index_tickers" "tick" ticks in
    tret (omap (resolve_pair addrMap tickMap) pairs).

(** [a <=> b] *)
Definition NullSafeEq (a b : expr) : cond := Or (And (IsNull a) (IsNull b)) (Cmp Eq a b).
Definition deleteReconciledValidatorRewards (op : cmp) (z : Z) : stmt :=
  let d c := Col "d" c in let vr c := Col "vr" c in
  Delete "validator_rewards" "vr" [("anchor_reward_reconcile_log", "d")]
    (And (Cmp Eq (d "source_id") (vr "source_id")) (And (Cmp Eq (d "signing_pubkey_id") (vr "signing_pubkey_id"))
      (And (Cmp Eq (d "reward_type") (vr "reward_type")) (And (NullSafeEq (d "round_reference") (vr "round_reference"))
        (And (NullSafeEq (d "round_qualifier") (vr "round_qualifier")) (Cmp op (d "block_index") (Lit (Int z)))))))) None.
Definition mirrorAnchorRewardReconcile (op : cmp) (z : Z) : txn unit := catch_gap (run_stmt (deleteReconciledValidatorRewards op z)).
Definition maybeRederiveEscrow (ts : wire_tables) : txn unit :=
  if existsb (fun m => bool_decide (m.1 ∈ ESCROW_TRIGGER_TABLES)) ts then catch_gap rederiveEscrowGate else tret tt.

(** ** updated_rows *)
Definition upsertColumns (t : string) (rows : list wire_row) : option (list string) :=
  let columns := map fst (default [] (head rows)) in
  let columns1 := List.filter (fun c => negb (bool_decide (c ∈ generatedColumns t))) columns in
  if negb (bool_decide (generatedColumns t = [])) && bool_decide (columns1 = []) then None else Some columns1.
Definition upsertRows (t : string) (rows : list wire_row) : txn unit :=
  if bool_decide (length rows = 0%nat) then tret tt
  else if negb (valid_identifier t) then refuse
  else match upsertColumns t rows with
       | None => refuse
       | Some columns =>
           check (forallb valid_identifier columns) ;!
           each (chunks 100 rows) (fun batch => do! _ := insertRowBatch t columns batch false true in tret tt)
       end.
Definition applyUpdatedRows (updated : wire_tables) : txn unit := each updated (fun m => upsertRows m.1 m.2).

(** ** Blocks *)
Context `{Commitment}.

Definition insertBlockRows (data : wire_tables) : txn unit := each data (fun m => insertRows m.1 m.2 no_opts).
Definition updateBlockStateCommitment (a : applier) (b : Z) (data : wire_tables) : txn (option roots_row) :=
  if negb (commitment_active a b) then tret None
  else
    let isActivation := activation_block a b in
    do! touchedKeys := (if isActivation then tret [] else collectSmtTouchedKeys data) in
    do! roots := computeFollowerRoots (coinTicker a) (network a) b touchedKeys isActivation in
    tret (Some roots).
(** What blocks and catch-ups do after their rows are in. *)
Definition applyDerivedState (updated : option wire_tables) (op : cmp) (from : option Z) (data : wire_tables) : txn unit :=
  (match updated with Some u => applyUpdatedRows u | None => tret tt end) ;!
  (match from with
   | Some z => if bool_decide (length (rows_carried data "anchor_reward_reconcile_log") = 0%nat) then tret tt else mirrorAnchorRewardReconcile op z
   | None => tret tt
   end) ;!
  maybeRederiveEscrow data ;!
  match carried data "credits", carried data "debits" with
  | None, None => tret tt
  | _, _ => rebuildBalancesTouchedBy (rows_carried data "credits") (rows_carried data "debits")
  end.
Definition applyIndexerBlockState (a : applier) (b : Z) (updated : option wire_tables) (data : wire_tables) : txn (option roots_row) :=
  applyDerivedState updated Eq (Some b) data ;! updateBlockStateCommitment a b data.
Definition blockBody (a : applier) (b : Z) (updated : option wire_tables) (data : wire_tables) : txn (option roots_row) :=
  insertBlockRows data ;!
  match dbType a with IndexerDb => applyIndexerBlockState a b updated data | DecoderDb => tret None end.

(** BEGIN, a body and COMMIT; the body's value survives a COMMIT that failed. *)
Definition transact {A} (body : txn A) (landed : nat -> bool) (f : schedule) (r : replica) : replica * option A * outcome unit :=
  let n := queries r in
  match f n with
  | Some e => (Replica (committed r) (S n), None, Fail e)
  | None =>
      match body f (Session (committed r) (S n)) with
      | (s, Fail e) => (Replica (committed r) (sent s), None, Fail e)
      | (s, Done x) =>
          match f (sent s) with
          | Some e => (Replica (if landed (sent s) then data s else committed r) (S (sent s)), Some x, Fail e)
          | None => (Replica (data s) (S (sent s)), Some x, Done tt)
          end
      end
  end.

(** [getBlockHashRow(b)]: whether the block is on the replica. *)
Definition block_columns (kind : db_type) : list (string * string) :=
  map (pair "blocks") (match kind with
                       | DecoderDb => ["block_index"; "block_time"; "block_hash_id"]
                       | IndexerDb => ["block_index"; "block_time"; "ledger_hash_id"; "actions_hash_id"; "contract_hash_id"; "state_hash_id"]
                       end)
  ++ map (pair "index_transactions") ["id"; "hash"].
Definition getBlockHashRow (kind : db_type) (b : Z) : txn bool :=
  query (fun db => match gap db ["blocks"; "index_transactions"] (block_columns kind) with
                   | Some n => Fail (DbError (Some n) None)
                   | None => Done (db, existsb (fun r => bool_decide (cmp3 Eq (cell r "block_index") (bind (AVal (PNum b))) = Some true)) (rows_of db "blocks"))
                   end).

(** The replica, [_lastComputedRoots] and the outcome. *)
Definition applyBlock (a : applier) (p : block_payload) (landed : nat -> bool) (f : schedule) (r : replica) : replica * option roots_row * outcome unit :=
  match p_data p, p_block_index p with
  | Some data, Some b =>
      if negb (bool_decide (p_schema_version p = Some (SCHEMA_VERSION (dbType a)))) then (r, None, Fail refusal)
      else match getBlockHashRow (dbType a) b f (Session (committed r) (queries r)) with
           | (s, Fail e) => (Replica (committed r) (sent s), None, Fail e)
           | (s, Done true) => (Replica (committed r) (sent s), None, Done tt)
           | (s, Done false) =>
               let '(r', roots, out) := transact (blockBody a b (p_updated_rows p) data) landed f (Replica (committed r) (sent s)) in
               (r', mjoin roots, out)
           end
  | _, _ => (r, None, Done tt)
  end.

(** ** Snapshots *)
Definition findStreamableTableNames : txn (list string) := query (fun db => Done (db, map fst (map_to_list db))).
Definition localSnapshotTableNames (names : list string) : list string :=
  List.filter (fun t => negb (bool_decide (t = "")) && negb (bool_decide (t ∈ OPERATOR_LOCAL_TABLES)) && negb (bool_decide (t ∈ REPLICA_LEDGER_TABLES))) names.
Definition payloadSnapshotTableNames (ts : wire_tables) : list string :=
  List.filter (fun t => negb (bool_decide (t ∈ OPERATOR_LOCAL_TABLES)) && negb (bool_decide (t ∈ SOURCE_UNSTREAMED_TABLES))
                        && negb (bool_decide (t ∈ REPLICA_LEDGER_TABLES))) (map fst ts).
Definition assertClearableTables (tables : list string) : txn unit := check (forallb valid_identifier tables).
Definition deleteStateTreeRootsFromBlock (a : applier) (b : Z) : stmt :=
  let text o := Lit (match o with Some s => Text s | None => Null end) in
  Delete "state_tree_roots" "t" []
    (And (Cmp Eq (Col "t" "chain") (text (coinTicker a))) (And (Cmp Eq (Col "t" "network") (text (network a))) (Cmp Ge (Col "t" "block_index") (Lit (Int b))))) None.
Definition fullSnapshotBody (a : applier) (height : Z) (ts : wire_tables) : txn unit :=
  do! names := findStreamableTableNames in
  let payloadTables := payloadSnapshotTableNames ts in
  let tables := orderSnapshotTables (unique (payloadTables ++ localSnapshotTableNames names)) in
  assertClearableTables tables ;!
  each (rev tables) (fun t => run_stmt (deleteAllRows t)) ;!
  each tables (fun t => if bool_decide (t ∈ payloadTables) then insertRows t (rows_carried ts t) no_opts else tret tt) ;!
  catch_gap (run_stmt (deleteStateTreeRootsFromBlock a height)) ;!
  match dbType a with
  | IndexerDb => if commitment_active a height then seedSnapshotRoots (coinTicker a) (network a) height else tret tt
  | DecoderDb => tret tt
  end.
Definition outcome_of {A} (x : replica * option A * outcome unit) : replica * outcome unit := (x.1.1, x.2).
Definition applyFullSnapshot (a : applier) (p : snapshot_payload) (landed : nat -> bool) (f : schedule) (r : replica) : replica * outcome unit :=
  match sn_tables p with
  | None => (r, Done tt)
  | Some ts =>
      if negb (bool_decide (sn_schema_version p = Some (SCHEMA_VERSION (dbType a)))) then (r, Fail refusal)
      else outcome_of (transact (fullSnapshotBody a (sn_block_height p) ts) landed f r)
  end.

Definition insertSnapshotTables (ts : wire_tables) (strict : bool) : txn unit :=
  each ts (fun m =>
    if bool_decide (length m.2 = 0%nat) || bool_decide (m.1 ∈ REPLICA_LEDGER_TABLES) then tret tt
    else
      (match repairNaturalKeyColumns m.1 with
       | Some keyColumns => if strict then reconcileLookupRows m.1 m.2 keyColumns else tret tt
       | None => tret tt
       end) ;!
      insertRows m.1 m.2 (InsertOpts strict true)).
Definition incrementalBody (a : applier) (strict : bool) (height : Z) (since : option Z) (updated : option wire_tables) (ts : wire_tables) : txn unit :=
  insertSnapshotTables ts strict ;!
  match dbType a with
  | IndexerDb =>
      applyDerivedState updated Ge since ts ;!
      (if commitment_active a height then seedSnapshotRoots (coinTicker a) (network a) height else tret tt)
  | DecoderDb => tret tt
  end.
Definition applyIncrementalSnapshot (a : applier) (p : snapshot_payload) (strict : bool) (landed : nat -> bool) (f : schedule) (r : replica) : replica * outcome unit :=
  match sn_tables p with
  | None => (r, Done tt)
  | Some ts =>
      if negb (bool_decide (sn_schema_version p = Some (SCHEMA_VERSION (dbType a)))) then (r, Fail refusal)
      else outcome_of (transact (incrementalBody a strict (sn_block_height p) (sn_since_block p) (sn_updated_rows p) ts) landed f r)
  end.

(** ** The decoder's dispensers *)
Definition applyDispensersReplace (a : applier) (rows : option (list wire_row)) (landed : nat -> bool) (f : schedule) (r : replica) : replica * outcome unit :=
  match dbType a, rows with
  | DecoderDb, Some rows =>
      outcome_of (transact (run_stmt (deleteAllRows "dispensers") ;! insertRows "dispensers" rows no_opts) landed f r)
  | _, _ => (r, Done tt)
  end.
End Program.
