(* ===== verification/ApplierAtomic.v ===== *)
(** * ApplierAtomic: an apply is all or nothing

    Every entry point of [src/src/client/applier.js] runs its statements in one
    transaction.  Whatever query fails, the replica ends as it was or as the undisturbed
    apply leaves it.  The file also states what the applier relies on of the state
    commitment ([CommitmentLaws]) and shows that the tables the transaction reports are
    the ones the payload and the derivations name. *)

From S2P Require Import Prelude Sha256 JsText JsNumber JsMap JsDouble Json Primitives GateRegistry Gates Subtrees FollowerRoots Regex Validation WireCodec Sql TableLifecycle TokenRefold Balances Rollback RollbackAtomic RowWrites Applier.

#[local] Open Scope Z_scope.

(** The tables the state commitment writes. *)
Definition commitment_tables : list string := ["state_tree_roots"; "state_tree_nodes"].
Definition same_outside (ts : list string) (db0 db : database) : Prop := forall t, t ∉ ts -> db !! t = db0 !! t.
Class CommitmentLaws `{Commitment} : Prop := {
  roots_faithful chain net b keys first : faithful (computeFollowerRoots chain net b keys first);
  roots_outside chain net b keys first db0 : preserves (same_outside commitment_tables db0) (computeFollowerRoots chain net b keys first);
  seed_faithful chain net b : faithful (seedSnapshotRoots chain net b);
  seed_outside chain net b db0 : preserves (same_outside commitment_tables db0) (seedSnapshotRoots chain net b) }.

(** ** One entry point for all *)
Inductive request :=
| BlockRequest (p : block_payload)
| FullRequest (p : snapshot_payload)
| IncrementalRequest (p : snapshot_payload) (strict : bool)
| DispensersRequest (rows : option (list wire_row)).

Section Atomic.
Context `{Mathjs} `{Dialect} `{Storage} `{CommitmentLaws}.

Definition handle (a : applier) (q : request) (landed : nat -> bool) (f : schedule) (r : replica) : replica * outcome unit :=
  match q with
  | BlockRequest p => outcome_of (applyBlock a p landed f r)
  | FullRequest p => applyFullSnapshot a p landed f r
  | IncrementalRequest p strict => applyIncrementalSnapshot a p strict landed f r
  | DispensersRequest rows => applyDispensersReplace a rows landed f r
  end.

(** ** Every body is faithful *)
Lemma faithful_refuse {A} : faithful (refuse (A := A)).
Proof. apply faithful_throw. Qed.
Lemma faithful_check b : faithful (check b).
Proof. destruct b; [apply faithful_ret|apply faithful_refuse]. Qed.
Lemma faithful_insertRowValues t cols n args ign ups : faithful (insertRowValues t cols n args ign ups).
Proof. apply faithful_query. Qed.
Lemma faithful_showWarnings ws : faithful (showWarnings ws).
Proof. apply faithful_query. Qed.
Lemma faithful_each_collect {A B} (l : list A) (k : A -> txn (list B)) : (forall x, faithful (k x)) -> faithful (each_collect l k).
Proof.
  intros Hk. induction l as [|x l IH]; cbn [each_collect]; [apply faithful_ret|].
  apply faithful_bind; [apply Hk|intros ?]. apply faithful_bind; [exact IH|intros ?]. apply faithful_ret.
Qed.
Lemma faithful_findRowIds t cols vals : faithful (findRowIdsByKeyColumns t cols vals).
Proof. apply faithful_bind; [apply faithful_ask|intros ?; apply faithful_ret]. Qed.
Lemma faithful_findRowId t v : faithful (findRowIdById t v).
Proof. apply faithful_bind; [apply faithful_ask|intros ?; apply faithful_ret]. Qed.
Lemma faithful_index_text t c ids : faithful (index_text t c ids).
Proof. apply faithful_bind; [apply faithful_ask|intros ?; apply faithful_ret]. Qed.
#[local] Hint Resolve faithful_refuse faithful_check faithful_insertRowValues faithful_showWarnings faithful_findRowIds faithful_findRowId faithful_index_text
  roots_faithful seed_faithful : faithful.

#[local] Ltac faithful := intros; repeat first [faithful_step | match goal with |- faithful (each_collect _ _) => apply faithful_each_collect; intros ? end].

Lemma faithful_retire t batch page ws : faithful (retireStaleNaturalKeyRows t batch page ws).
Proof. unfold retireStaleNaturalKeyRows, uniqueKeyColumns, retire_one. faithful; apply faithful_query. Qed.
Lemma faithful_insertRows t rows o : faithful (insertRows t rows o).
Proof. unfold insertRows, insertBatch, insertRowBatch, assertNoEventTruncation, assertNoStrictIgnoreConflicts. faithful; apply faithful_retire. Qed.
Lemma faithful_upsertRows t rows : faithful (upsertRows t rows).
Proof. unfold upsertRows, insertRowBatch. faithful. Qed.
Lemma faithful_reconcile t rows cols : faithful (reconcileLookupRows t rows cols).
Proof.
  unfold reconcileLookupRows. apply faithful_bind; [|faithful]. generalize (@nil Z). induction rows as [|r rows IH]; intros acc; cbn [stale_lookup_ids]; faithful; apply IH.
Qed.
Lemma faithful_rebuild sc : faithful (rebuildBalances sc).
Proof. unfold rebuildBalances. faithful. Qed.
Lemma faithful_rederiveEscrow : faithful rederiveEscrowGate.
Proof. unfold rederiveEscrowGate. faithful. Qed.
#[local] Hint Resolve faithful_insertRows faithful_upsertRows faithful_reconcile faithful_rebuild faithful_rederiveEscrow : faithful.
Lemma faithful_derived updated op from data : faithful (applyDerivedState updated op from data).
Proof.
  unfold applyDerivedState, applyUpdatedRows, mirrorAnchorRewardReconcile, maybeRederiveEscrow, rebuildBalancesTouchedBy. faithful.
Qed.
#[local] Hint Resolve faithful_derived : faithful.
Lemma faithful_blockBody a b updated data : faithful (blockBody a b updated data).
Proof. unfold blockBody, insertBlockRows, applyIndexerBlockState, updateBlockStateCommitment, collectSmtTouchedKeys. faithful. Qed.
Lemma faithful_fullSnapshotBody a h ts : faithful (fullSnapshotBody a h ts).
Proof. unfold fullSnapshotBody, assertClearableTables, findStreamableTableNames. faithful. Qed.
Lemma faithful_incrementalBody a strict h since updated ts : faithful (incrementalBody a strict h since updated ts).
Proof. unfold incrementalBody, insertSnapshotTables. faithful. Qed.

(** ** The transaction *)
Lemma transact_atomic {A} (body : txn A) landed f db n n' :
  faithful body -> benign f ->
  let ref := transact body landed faultless (Replica db n') in
  let out := transact body landed f (Replica db n) in
  match out.2 with
  | Done _ => ref.2 = Done tt /\ committed out.1.1 = committed ref.1.1 /\ out.1.2 = ref.1.2
  | Fail _ => committed out.1.1 = db \/ committed out.1.1 = committed ref.1.1
  end.
Proof.
  intros [Hn Hbody] Hf. unfold transact. cbv zeta. cbn [queries committed]. change (faultless n') with (@None dberror). cbv iota.
  destruct (f n) as [e|]; [by left|].
  destruct (Hbody f db (S n) Hf) as [(e & He & _)|Hs].
  { destruct (body f _) as [s [?|e']]; cbn in *; [done|]. by left. }
  pose proof (same_run_trans _ _ _ Hs (Hn db (S n) (S n'))) as [Hd Ho].
  destruct (body f _) as [s [?|e]], (body faultless (Session db (S n'))) as [s' [?|e']]; cbn in *; try done; [|by left].
  simplify_eq. destruct (f (sent s)) as [e|]; [|by split_and!].
  cbn. destruct (landed (sent s)); [by right|by left].
Qed.
Lemma transact_request {A} (body : txn A) landed f r : faithful body -> benign f ->
  let ref := outcome_of (transact body landed faultless r) in
  let out := outcome_of (transact body landed f r) in
  match out.2 with
  | Done _ => ref.2 = Done tt /\ committed out.1 = committed ref.1
  | Fail _ => committed out.1 = committed r \/ committed out.1 = committed ref.1
  end.
Proof.
  intros Hb Hf. destruct r as [db n]. pose proof (transact_atomic body landed f db n n Hb Hf) as Ht. cbv zeta in *. cbn [outcome_of fst snd].
  destruct (transact body landed f (Replica db n)) as [[r' x] [u|e]]; cbn in *; [|done]. by destruct Ht as (? & ? & _).
Qed.

(** C3. An apply is all or nothing, whatever the request: under any schedule of faults, a
    block, a full or incremental snapshot or a dispenser replacement that reports success
    has left exactly the tables the undisturbed apply leaves, and one that reports a
    failure has left every table as it was or, when the answer to a COMMIT that landed was
    lost, those same tables. *)
Theorem apply_all_or_nothing a q landed f r :
  benign f ->
  let ref := handle a q landed faultless r in
  let out := handle a q landed f r in
  match out.2 with
  | Done _ => ref.2 = Done tt /\ committed out.1 = committed ref.1
  | Fail _ => committed out.1 = committed r \/ committed out.1 = committed ref.1
  end.
Proof.
  intros Hf. destruct q as [p|p|p strict|rows]; cbn [handle].
  - unfold applyBlock. destruct (p_data p) as [data|]; [|done]. destruct (p_block_index p) as [b|]; [|done].
    case_bool_decide; cbn [negb]; [|by left]. destruct (faithful_query (fun db => _) : faithful (getBlockHashRow (dbType a) b)) as [_ Hq].
    destruct (Hq f (committed r) (queries r) Hf) as [(e & He & _)|[Hd Ho]].
    { destruct (getBlockHashRow _ _ f _) as [s [?|e']]; cbn [fst snd] in *; [done|]. by left. }
    destruct (getBlockHashRow _ _ f _) as [s [[]|e]], (getBlockHashRow _ _ faultless _) as [s' [[]|e']]; cbn [fst snd] in *; try done; [|by left].
    pose proof (transact_atomic (blockBody a b (p_updated_rows p) data) landed f (committed r) (sent s) (sent s') (faithful_blockBody _ _ _ _) Hf) as Ht.
    cbv zeta in Ht. destruct (transact _ landed f _) as [[r1 x1] [u|e]], (transact _ landed faultless _) as [[r2 x2] o2]; cbn [fst snd outcome_of] in *.
    + by destruct Ht as (? & ? & _).
    + exact Ht.
  - unfold applyFullSnapshot. destruct (sn_tables p) as [ts|]; [|done]. case_bool_decide; cbn [negb]; [|by left]. apply transact_request; [apply faithful_fullSnapshotBody|done].
  - unfold applyIncrementalSnapshot. destruct (sn_tables p) as [ts|]; [|done]. case_bool_decide; cbn [negb]; [|by left]. apply transact_request; [apply faithful_incrementalBody|done].
  - unfold applyDispensersReplace. destruct (dbType a); [done|]. destruct rows as [rows|]; [|done]. apply transact_request; [|done].
    faithful.
Qed.
End Atomic.
