(* ===== verification/ApplierMirror.v ===== *)
(** * ApplierMirror: a full snapshot makes the replica a copy

    The refinement of [applyFullSnapshot] (src/src/client/applier.js): after a full
    snapshot that reports success, each table the payload carries holds exactly the
    payload's rows, each other streamable table of the replica is empty, and the tables
    that belong to the node are as they were. *)

From stdpp Require Import sorting.
From S2P Require Import Prelude Sha256 JsText JsNumber JsMap JsDouble Json Primitives GateRegistry Gates Subtrees FollowerRoots Regex Validation WireCodec Sql TableLifecycle TokenRefold Balances Rollback RollbackAtomic RollbackEffect RowWrites Applier ApplierAtomic.

#[local] Open Scope Z_scope.
#[local] Notation row := (gmap string value).
#[local] Notation cell := Sql.cell.

(** ** Frames: the tables a program writes *)
Definition writes {A} (ts : list string) (m : txn A) : Prop := forall db0, preserves (same_outside ts db0) m.

Lemma same_outside_set_rows ts db0 db t l : t ∈ ts -> same_outside ts db0 db -> same_outside ts db0 (set_rows db t l).
Proof. intros Ht Hs t' Ht'. unfold set_rows. rewrite lookup_alter_ne; [by apply Hs|]. intros ->. done. Qed.

Section Frames.
Context `{Mathjs} `{Dialect} `{Storage}.

Lemma writes_run_stmt ts st : target st ∈ ts -> writes ts (run_stmt st).
Proof. intros Ht db0. apply preserves_run_stmt. intros db _. by apply same_outside_set_rows. Qed.
Lemma writes_insertRowValues ts t cols n args ign ups : t ∈ ts -> writes ts (insertRowValues t cols n args ign ups).
Proof.
  intros Ht db0. apply preserves_query. intros db Hs. destruct (gap db _ _); [done|]. cbv zeta. destruct (insert_all _ _ _ _ _ _) as [[l w]|]; [|done].
  by apply same_outside_set_rows.
Qed.
Lemma writes_ask ts q : writes ts (ask q).
Proof. intros db0. apply preserves_ask. Qed.
Lemma writes_query {A} ts (w : database -> outcome (database * A)) : (forall db db' x, w db = Done (db', x) -> db' = db) -> writes ts (query w).
Proof. intros Hw db0. apply preserves_query. intros db Hs. destruct (w db) as [[db' x]|] eqn:E; [|done]. by apply Hw in E as ->. Qed.
Lemma writes_each_collect {A B} ts (l : list A) (k : A -> txn (list B)) : (forall x, writes ts (k x)) -> writes ts (each_collect l k).
Proof.
  intros Hk db0. induction l as [|x l IH]; cbn [each_collect]; [apply preserves_ret|].
  apply preserves_bind; [apply Hk|intros ?]. apply preserves_bind; [exact IH|intros ?]. apply preserves_ret.
Qed.
Lemma writes_check ts b : writes ts (check b).
Proof. intros db0. destruct b; [apply preserves_ret|apply preserves_throw]. Qed.
Lemma writes_retire ts t batch page ws : t ∈ ts -> writes ts (retireStaleNaturalKeyRows t batch page ws).
Proof.
  intros Ht. unfold retireStaleNaturalKeyRows. destruct (warned_indexes ws []) as [ns|]; [|intros db0; apply preserves_ret].
  destruct (page_ids page) as [ids|]; [|intros db0; apply preserves_ret]. apply writes_each_collect. intros n db0.
  unfold uniqueKeyColumns, findIndexColumnNames. preserves.
  - apply writes_query. by intros ? ? ? [= -> _].
  - apply writes_each_collect. intros r db1. unfold retire_one, findRowIdById, findRowIdsByKeyColumns. preserves. by apply writes_run_stmt.
Qed.
Lemma writes_insertBatch ts t p rows o batch : t ∈ ts -> writes ts (insertBatch t p rows o batch).
Proof.
  intros Ht db0. unfold insertBatch, insertRowBatch, showWarnings, assertNoEventTruncation, assertNoStrictIgnoreConflicts.
  preserves; first [by apply writes_insertRowValues | by apply writes_retire | apply writes_check | apply writes_query; by intros ? ? ? [= -> _]].
Qed.
Lemma writes_insertRows ts t rows o : t ∈ ts -> writes ts (insertRows t rows o).
Proof.
  intros Ht db0. unfold insertRows. case_bool_decide; [apply preserves_ret|]. destruct (prepareTableRows t rows o) as [p|]; [|apply preserves_throw].
  preserves; [by apply writes_run_stmt|apply writes_check|by apply writes_insertBatch].
Qed.
End Frames.

(** ** Rows that land *)
Section Landing.
Context `{Dialect} `{Storage} `{!StorageLaws}.

(** The stored row carries the wire row's columns. *)
Definition carries (t : string) (columns : list string) (r : wire_row) (x : row) : Prop :=
  forall c, c ∈ columns -> cell x c = store t c (coerce_arg (arg r c)).
Definition named (t : string) (columns : list string) (r : wire_row) : row := named_row t columns (map (arg r) columns).
Definition filled (t : string) (n x : row) : Prop := exists l, x = fill t l n.

Lemma named_lookup t columns r c : named t columns r !! c = if bool_decide (c ∈ columns) then Some (store t c (coerce_arg (arg r c))) else None.
Proof.
  unfold named, named_row. induction columns as [|c' columns IH]; [done|]. cbn. destruct (decide (c = c')) as [->|Hc].
  - rewrite lookup_insert_eq, bool_decide_eq_true_2; [done|left].
  - rewrite lookup_insert_ne by done. rewrite IH. apply (f_equal (fun b : bool => if b then _ else _)). apply bool_decide_ext. set_solver.
Qed.

(** The AUTO_INCREMENT column, where it is carried, has a value of its own. *)
Definition numbered (t : string) (columns : list string) (r : wire_row) : Prop :=
  forall c, auto_column t = Some c -> c ∈ columns -> store t c (coerce_arg (arg r c)) <> Null /\ store t c (coerce_arg (arg r c)) <> Int 0.
Lemma filled_carries t columns r x : numbered t columns r -> filled t (named t columns r) x -> carries t columns r x.
Proof.
  intros Hn [l ->] c Hc. unfold cell. erewrite fill_named; [reflexivity|rewrite named_lookup, bool_decide_eq_true_2 by done; reflexivity|].
  intros Ha. by apply Hn.
Qed.

Lemma rows_carry t columns rows l :
  Forall (numbered t columns) rows -> Forall2 (filled t) (map (named t columns) rows) l -> Forall2 (carries t columns) rows l.
Proof.
  revert l. induction rows as [|r rows IH]; intros l Hn Hl; inversion Hl; inversion Hn; subst; [constructor|]. constructor; [by apply filled_carries|auto].
Qed.

(** Two rows differ on every unique key, or the key is the number the replica gives. *)
Definition differ (t : string) (columns : list string) (r r' : wire_row) : Prop :=
  forall k, k ∈ unique_keys t ->
    (exists c, k.2 = [c] /\ auto_column t = Some c /\ c ∉ columns)
    \/ (exists c, c ∈ k.2 /\ c ∈ columns /\ cmp3 Eq (store t c (coerce_arg (arg r' c))) (store t c (coerce_arg (arg r c))) <> Some true).
(** Every row differs from the rows before it. *)
Definition distinct_rows (t : string) (columns : list string) (rows : list wire_row) : Prop :=
  forall pre r post x, rows = pre ++ r :: post -> x ∈ pre -> differ t columns x r.

Lemma find_all_false {A} (p : A -> bool) l : (forall x, x ∈ l -> p x = false) -> List.find p l = None.
Proof. induction l as [|x l IH]; cbn; intros Hp; [done|]. rewrite Hp by left. apply IH. intros y Hy. apply Hp. by right. Qed.
Lemma existsb_all_false {A} (p : A -> bool) l : (forall x, x ∈ l -> p x = false) -> existsb p l = false.
Proof. induction l as [|x l IH]; cbn; intros Hp; [done|]. rewrite Hp by left. apply IH. intros y Hy. apply Hp. by right. Qed.

Lemma no_conflict t columns pre r l : numbered t columns r -> Forall (numbered t columns) pre ->
  (forall x, x ∈ pre -> differ t columns x r) -> Forall2 (filled t) (map (named t columns) pre) l ->
  conflict t l (fill t l (named t columns r)) = None.
Proof.
  intros Hr Hpre Hd Hl. unfold conflict. apply find_all_false. intros k Hk. apply existsb_all_false. intros x' Hx.
  assert (exists x, x ∈ pre /\ filled t (named t columns x) x') as (x & Hin & Hf).
  { clear -Hl Hx. revert l Hl Hx. induction pre as [|y pre IH]; cbn; intros l Hl Hx; inversion Hl as [|n x0 ns l0 Hf Hl0]; subst; [by apply elem_of_nil in Hx|].
    apply elem_of_cons in Hx as [->|Hx]; [exists y; split; [left|done]|]. destruct (IH _ Hl0 Hx) as (z & ? & ?). exists z. split; [by right|done]. }
  unfold same_key. apply not_true_is_false. rewrite forallb_forall. intros Hall.
  destruct (Hd x Hin k Hk) as [(c & Ek & Ha & Hc)|(c & Hck & Hc & Hne)].
  - specialize (Hall c). rewrite Ek in Hall. specialize (Hall (or_introl eq_refl)). apply bool_decide_eq_true in Hall.
    revert Hall. apply fill_auto; [done| |done]. by rewrite named_lookup, bool_decide_eq_false_2.
  - specialize (Hall c). apply list_elem_of_In in Hck. specialize (Hall Hck). apply bool_decide_eq_true in Hall. revert Hall.
    rewrite (filled_carries t columns r _ Hr (ex_intro _ l eq_refl) c Hc).
    rewrite Forall_forall in Hpre. by rewrite (filled_carries t columns x _ (Hpre x Hin) Hf c Hc).
Qed.

(** Rows that cannot collide, or may not, are appended in order. *)
Lemma insert_all_appends t columns ign ups pre new l l' w :
  (ign = false /\ ups = false) \/ (Forall (numbered t columns) (pre ++ new) /\ distinct_rows t columns (pre ++ new)) ->
  Forall2 (filled t) (map (named t columns) pre) l ->
  insert_all t columns ign ups l (map (named t columns) new) = Some (l', w) ->
  Forall2 (filled t) (map (named t columns) (pre ++ new)) l'.
Proof.
  revert pre l w. induction new as [|r new IH]; intros pre l w Hc Hl; cbn [map insert_all].
  { intros [= <- _]. by rewrite app_nil_r. }
  unfold insert_row. destruct (conflict t l (fill t l (named t columns r))) as [k|] eqn:E.
  - destruct Hc as [[-> ->]|[Hn Hd]]; [done|]. rewrite (no_conflict t columns pre r l) in E; [done|..].
    + apply Forall_app in Hn as [_ Hn]. by inversion Hn.
    + by apply Forall_app in Hn as [Hn _].
    + intros x Hx. by eapply Hd.
    + done.
  - assert (pre ++ r :: new = (pre ++ [r]) ++ new) as Er by (by rewrite <- app_assoc). rewrite Er in Hc |- *.
    destruct (insert_all t columns ign ups (l ++ [fill t l (named t columns r)]) (map (named t columns) new)) as [[l2 w2]|] eqn:E2; [|done].
    cbn. intros [= <- _]. eapply IH; [exact Hc| |exact E2]. rewrite map_app. apply Forall2_app; [done|]. constructor; [by exists l|constructor].
Qed.

Lemma clauses_flat (columns : list string) (batch : list wire_row) :
  clauses (length columns) (length batch) (prepareInsertBatch columns batch) = map (fun r => map (arg r) columns) batch.
Proof.
  unfold clauses, prepareInsertBatch. set (n := length columns).
  assert (forall r, length (map (arg r) columns) = n) as Hlen by (intros r; apply length_map).
  induction batch as [|r batch IH]; [done|]. cbn [length seq map flat_map]. f_equal.
  - rewrite Nat.mul_0_l, drop_0. rewrite take_app_le by (rewrite Hlen; lia). by rewrite take_ge by (rewrite Hlen; lia).
  - rewrite <- IH, <- seq_shift, map_map. apply map_ext. intros i. f_equal. cbn [Nat.mul].
    rewrite <- drop_drop. f_equal. rewrite drop_app_ge by (rewrite Hlen; lia). by rewrite Hlen, Nat.sub_diag, drop_0.
Qed.
End Landing.

(** ** insertRows on an empty table *)
Lemma chunks_concat {A} n (l : list A) : (0 < n)%nat -> concat (chunks n l) = l.
Proof.
  intros Hn. unfold chunks. assert (forall fuel (l : list A), (length l <= fuel)%nat -> concat (chunks_from fuel n l) = l) as Hc; [|by apply Hc].
  induction fuel as [|fuel IH]; intros l' Hl; destruct l' as [|x l']; try done; cbn in Hl; [lia|].
  cbn [chunks_from concat]. rewrite IH by (rewrite length_drop; cbn; lia). apply take_drop.
Qed.

Section Insert.
Context `{Mathjs} `{Dialect} `{Storage} `{!StorageLaws}.

Lemma after_ret {A} (P Q : database -> Prop) (x : A) : (forall db, P db -> Q db) -> after P (tret x) Q.
Proof. intros HPQ f s a _ HP _. by apply HPQ. Qed.
Lemma after_throw {A} (P Q : database -> Prop) e : after P (throw (A := A) e) Q.
Proof. intros f s a _ _ [=]. Qed.
Lemma after_check P b : after P (check b) P.
Proof. destruct b; [by apply after_ret|apply after_throw]. Qed.
Lemma after_insertRowValues t columns n args ign ups (P Q : database -> Prop) :
  (forall db l w, P db -> is_Some (db !! t) -> Forall (fun c => has_column db (t, c) = true) columns ->
    insert_all t columns ign ups (rows_of db t) (map (named_row t columns) (clauses (length columns) n args)) = Some (l, w) -> Q (set_rows db t l)) ->
  after P (insertRowValues t columns n args ign ups) Q.
Proof.
  intros HQ f s a _ HP. unfold insertRowValues, query. destruct (f (sent s)); [done|]. destruct (gap (data s) _ _) eqn:Eg; [done|]. cbv zeta.
  destruct (insert_all _ _ _ _ _ _) as [[l w]|] eqn:E; [|done]. intros _. cbn [fst data]. eapply HQ; [done| | |exact E].
  - eapply gap_tables; [exact Eg|left].
  - unfold gap in Eg. destruct (forallb _ [t]); cbn in Eg; [|done]. destruct (forallb (has_column (data s)) _) eqn:Ec; [|done].
    rewrite forallb_forall in Ec. apply Forall_forall. intros c Hc. apply Ec. apply in_map. by apply list_elem_of_In.
Qed.

Definition holds_rows (t : string) (columns : list string) (rows : list wire_row) (db : database) : Prop :=
  Forall2 (filled t) (map (named t columns) rows) (rows_of db t).

(** A batch without the lookup repair inserts its rows and nothing else. *)
Lemma after_insertBatch t p rows0 o batch (P Q : database -> Prop) : strictIgnoreCheck o && bool_decide (t ∈ idKeyedIgnoreTables) = false ->
  (forall db l w, P db -> is_Some (db !! t) -> Forall (fun c => has_column db (t, c) = true) (columns_of p) ->
    insert_all t (columns_of p) (useIgnore p) (useUpsert p) (rows_of db t) (map (named t (columns_of p)) batch) = Some (l, w) -> Q (set_rows db t l)) ->
  after P (insertBatch t p rows0 o batch) Q.
Proof.
  intros Ho HQ. unfold insertBatch. rewrite Ho. eapply (after_bind _ Q).
  - unfold insertRowBatch. apply after_insertRowValues. intros db l w HP Hdb Hc. rewrite clauses_flat, map_map. by apply HQ.
  - intros ws. destruct (bool_decide (t = "events")); [|by apply after_ret]. eapply (after_bind _ Q).
    + apply after_preserves, preserves_query. by intros db HQ'.
    + intros ?. apply after_check.
Qed.
Lemma after_batches t p rows0 o cs pre : strictIgnoreCheck o && bool_decide (t ∈ idKeyedIgnoreTables) = false ->
  (useIgnore p = false /\ useUpsert p = false)
  \/ (Forall (numbered t (columns_of p)) (pre ++ concat cs) /\ distinct_rows t (columns_of p) (pre ++ concat cs)) ->
  after (holds_rows t (columns_of p) pre) (each cs (insertBatch t p rows0 o)) (holds_rows t (columns_of p) (pre ++ concat cs)).
Proof.
  intros Ho. revert pre. induction cs as [|c cs IH]; intros pre Hc; cbn [each concat]; [rewrite app_nil_r; by apply after_ret|].
  cbn [concat] in Hc. rewrite app_assoc in Hc |- *. eapply after_bind; [|intros _; apply IH; exact Hc].
  apply after_insertBatch; [done|]. intros db l w Hl Hdb _ E. unfold holds_rows. rewrite rows_of_set_rows by done.
  eapply insert_all_appends; [|exact Hl|exact E]. destruct Hc as [Hc|[Hn Hd]]; [by left|right]. split; [by apply Forall_app in Hn as [Hn _]|].
  intros q r post x Er Hx. apply (Hd q r (post ++ concat cs) x); [|done]. by rewrite Er, <- app_assoc.
Qed.

(** The columns an insert writes. *)
Definition written_columns (t : string) (rows : list wire_row) (o : insert_opts) : list string := default [] (columns_of <$> prepareTableRows t rows o).
(** What a table's rows need when a collision would be skipped or merged: the unique keys
    of the source. *)
Definition storable (t : string) (rows : list wire_row) : Prop :=
  Forall (numbered t (written_columns t rows no_opts)) rows
  /\ (t ∈ ignoreTables ++ upsertFullDumpTables -> distinct_rows t (written_columns t rows no_opts) rows).

Lemma prepared_modes t rows p : prepareTableRows t rows no_opts = Some p -> t ∉ ignoreTables ++ upsertFullDumpTables -> useIgnore p = false /\ useUpsert p = false.
Proof.
  intros Hp Ht. assert (t ∉ ignoreTables /\ t ∉ upsertFullDumpTables) as [Hi Hu] by (rewrite elem_of_app in Ht; tauto).
  unfold prepareTableRows in Hp. destruct (valid_identifier t); [|done]. cbn [negb authoritativeSnapshot no_opts andb orb] in Hp.
  rewrite (bool_decide_eq_false_2 _ Hi), (bool_decide_eq_false_2 _ Hu) in Hp. cbn [orb andb negb] in Hp.
  destruct (prepareInsertColumns t rows) as [cols|]; [|done]. destruct (localSurrogateIdTables t) as [key|]; [|by injection Hp as <-].
  destruct (bool_decide ("id" ∈ cols)); [|by injection Hp as <-]. destruct (_ || _); [done|]. destruct (natural_keys key rows []); [|done]. by injection Hp as <-.
Qed.

Lemma after_insertRows_empty t rows : storable t rows ->
  after (fun db => rows_of db t = []) (insertRows t rows no_opts) (holds_rows t (written_columns t rows no_opts) rows).
Proof.
  intros [Hn Hd]. unfold insertRows. case_bool_decide as Er.
  { destruct rows; [|done]. apply after_ret. intros db Hdb. unfold holds_rows. by rewrite Hdb. }
  unfold written_columns in *. destruct (prepareTableRows t rows no_opts) as [p|] eqn:Ep; [|apply after_throw]. cbn [fmap option_fmap option_map default] in *.
  eapply (after_bind _ (fun db => rows_of db t = [])).
  { apply after_preserves. apply preserves_each. intros slice _. apply preserves_run_stmt. intros db Hg Hdb. cbn [target deleteRowsByKeyValues].
    rewrite rows_of_set_rows by (eapply gap_tables; [exact Hg|left]). unfold new_rows. cbn [target deleteRowsByKeyValues]. by rewrite Hdb. }
  intros _. eapply after_bind; [apply after_check|]. intros _.
  eapply after_conseq; [|eapply after_weaken; [|apply (after_batches t p rows no_opts (chunks 100 rows) []); [done|]]].
  - intros db. cbn [app]. by rewrite chunks_concat by lia.
  - intros db Hdb. unfold holds_rows. by rewrite Hdb.
  - cbn [app]. rewrite chunks_concat by lia. destruct (decide (t ∈ ignoreTables ++ upsertFullDumpTables)) as [Ht|Ht]; [right; by auto|left; by eapply prepared_modes].
Qed.
End Insert.

(** ** The tables of a full snapshot *)
Lemma unique_spec l : NoDup (unique l) /\ forall t, t ∈ unique l <-> t ∈ l.
Proof.
  unfold unique. assert (forall acc, NoDup acc -> NoDup (fold_left (fun acc x => if bool_decide (x ∈ acc) then acc else acc ++ [x]) l acc)
    /\ forall t, t ∈ fold_left (fun acc x => if bool_decide (x ∈ acc) then acc else acc ++ [x]) l acc <-> t ∈ acc \/ t ∈ l) as Hu.
  { induction l as [|x l IH]; intros acc Ha; cbn [fold_left]; [split; [done|set_solver]|]. case_bool_decide as Hx.
    - destruct (IH acc Ha) as [H1 H2]. split; [done|]. intros t. rewrite H2. set_solver.
    - destruct (IH (acc ++ [x])) as [H1 H2]; [apply NoDup_app; split_and!; [done|set_solver|apply NoDup_singleton]|]. split; [done|]. intros t. rewrite H2. set_solver. }
  destruct (Hu []) as [H1 H2]; [constructor|]. split; [done|]. intros t. rewrite H2. set_solver.
Qed.

Lemma order_spec l : NoDup l -> NoDup (orderSnapshotTables l) /\ forall t, t ∈ orderSnapshotTables l <-> t ∈ l.
Proof.
  intros Hl. unfold orderSnapshotTables.
  set (mid := List.filter _ l). pose proof (merge_sort_Permutation text_le mid) as Hp.
  assert (NoDup PRIORITY_TABLES /\ NoDup TRAILING_TABLES /\ Forall (fun t => t ∉ TRAILING_TABLES) PRIORITY_TABLES) as (HP & HT & HPT)
    by (apply (bool_decide_eq_true_1 (_ /\ _ /\ _)); vm_compute; reflexivity).
  rewrite Forall_forall in HPT.
  assert (forall t, t ∈ merge_sort text_le mid <-> t ∈ l /\ t ∉ PRIORITY_TABLES /\ t ∉ TRAILING_TABLES) as Hmid.
  { intros t. rewrite Hp. unfold mid. rewrite elem_of_lfilter, andb_true_iff, !negb_true_iff, !bool_decide_eq_false. done. }
  assert (forall L t, t ∈ List.filter (fun t => bool_decide (t ∈ l)) L <-> t ∈ L /\ t ∈ l) as Hf.
  { intros L t. rewrite elem_of_lfilter, bool_decide_eq_true. done. }
  split.
  - rewrite !NoDup_app. split_and!.
    + apply NoDup_ListNoDup, List.NoDup_filter. by apply NoDup_ListNoDup.
    + intros t [H1 _]%Hf [[_ [Hn _]]%Hmid|[H2 _]%Hf]%elem_of_app; [done|]. by apply (HPT t).
    + rewrite Hp. apply NoDup_ListNoDup, List.NoDup_filter. by apply NoDup_ListNoDup.
    + intros t [_ [_ Hn]]%Hmid [H2 _]%Hf. done.
    + apply NoDup_ListNoDup, List.NoDup_filter. by apply NoDup_ListNoDup.
  - intros t. rewrite !elem_of_app, Hmid, !Hf. destruct (decide (t ∈ PRIORITY_TABLES)), (decide (t ∈ TRAILING_TABLES)); tauto.
Qed.

Section Snapshot.
Context `{Mathjs} `{Dialect} `{Storage} `{!StorageLaws} `{CommitmentLaws}.

Lemma after_each_one {A} (l : list A) (k : A -> txn unit) (P Q : database -> Prop) (x : A) :
  x ∈ l -> NoDup l -> (forall y, y ∈ l -> y <> x -> preserves P (k y) /\ preserves Q (k y)) -> after P (k x) Q -> after P (each l k) Q.
Proof.
  intros Hx Hl Hk Hkx. induction l as [|y l IH]; [by apply elem_of_nil in Hx|]. apply NoDup_cons in Hl as [Hy Hl]. cbn [each].
  apply elem_of_cons in Hx as [->|Hx].
  - eapply after_bind; [exact Hkx|]. intros _. apply after_preserves, preserves_each. intros z Hz. apply Hk; [by right|]. intros ->. done.
  - eapply after_bind; [apply after_preserves, Hk; [left|by intros ->]|]. intros _. apply IH; [done|done|]. intros z Hz. apply Hk. by right.
Qed.

Lemma rows_preserved {A} (ts : list string) (m : txn A) t (Q : option Sql.table -> Prop) :
  writes ts m -> t ∉ ts -> preserves (fun db => Q (db !! t)) m.
Proof. intros Hw Ht f s Hs. pose proof (Hw (data s) f s (fun _ _ => eq_refl) t Ht) as E. by rewrite E. Qed.
Lemma preserves_rows {A} ts (m : txn A) t (Q : list row -> Prop) : writes ts m -> t ∉ ts -> preserves (fun db => Q (rows_of db t)) m.
Proof. intros Hw Ht. exact (rows_preserved ts m t (fun o => Q (match o with Some x => rows x | None => [] end)) Hw Ht). Qed.

Lemma after_clear tables t : t ∈ tables -> NoDup tables ->
  after (fun _ => True) (each (rev tables) (fun t => run_stmt (deleteAllRows t))) (fun db => rows_of db t = []).
Proof.
  intros Ht Hn. apply (after_each_one _ _ _ _ t).
  - apply list_elem_of_In. apply -> in_rev. by apply list_elem_of_In.
  - apply NoDup_ListNoDup, List.NoDup_rev. by apply NoDup_ListNoDup.
  - intros y _ Hy. split; [by intros ? ?|]. apply (preserves_rows [y] _ t (fun l => l = [])); [apply writes_run_stmt; left|]. set_solver.
  - intros f s [] _ _ Hd. destruct (run_stmt (deleteAllRows t) f s) as [s' o] eqn:E. cbn [snd] in Hd. subst o. apply run_stmt_done in E as [Hg E].
    cbn [fst]. rewrite E. cbn [target deleteAllRows]. rewrite rows_of_set_rows by (eapply gap_tables; [exact Hg|left]). unfold new_rows. cbn [target deleteAllRows].
    rewrite drop_where_None. induction (rows_of (data s) t) as [|x l IH]; [done|]. cbn [List.filter]. by rewrite alone_match.
Qed.
End Snapshot.

Section FullSnapshot.
Context `{Mathjs} `{Dialect} `{Storage} `{!StorageLaws} `{CommitmentLaws}.

(** The tables a full snapshot clears, and what follows the inserts. *)
Definition snapshot_tables (ts : wire_tables) (names : list string) : list string :=
  orderSnapshotTables (unique (payloadSnapshotTableNames ts ++ localSnapshotTableNames names)).
Lemma snapshot_tables_spec ts names : NoDup (snapshot_tables ts names)
  /\ forall t, t ∈ snapshot_tables ts names <-> t ∈ payloadSnapshotTableNames ts \/ t ∈ localSnapshotTableNames names.
Proof.
  destruct (unique_spec (payloadSnapshotTableNames ts ++ localSnapshotTableNames names)) as [Hu1 Hu2].
  destruct (order_spec _ Hu1) as [Ho1 Ho2]. split; [done|]. intros t. unfold snapshot_tables. rewrite Ho2, Hu2. apply elem_of_app.
Qed.

Definition insert_payload (ts : wire_tables) (t : string) : txn unit :=
  if bool_decide (t ∈ payloadSnapshotTableNames ts) then insertRows t (rows_carried ts t) no_opts else tret tt.
Lemma writes_insert_payload ts t : writes [t] (insert_payload ts t).
Proof. unfold insert_payload. case_bool_decide; [apply writes_insertRows; left|]. intros db0. apply preserves_ret. Qed.

Definition seed (a : applier) (h : Z) : txn unit :=
  catch_gap (run_stmt (deleteStateTreeRootsFromBlock a h)) ;!
  match dbType a with
  | IndexerDb => if commitment_active a h then seedSnapshotRoots (coinTicker a) (network a) h else tret tt
  | DecoderDb => tret tt
  end.
Lemma writes_seed a h : writes commitment_tables (seed a h).
Proof.
  intros db0. unfold seed. preserves; [apply writes_run_stmt; left|apply seed_outside].
Qed.

(** The body after the tables are enumerated. *)
Definition snapshot_rest (a : applier) (h : Z) (ts : wire_tables) (names : list string) : txn unit :=
  assertClearableTables (snapshot_tables ts names) ;!
  each (rev (snapshot_tables ts names)) (fun t => run_stmt (deleteAllRows t)) ;!
  each (snapshot_tables ts names) (insert_payload ts) ;!
  seed a h.
Lemma fullSnapshotBody_names a h ts f s u : (fullSnapshotBody a h ts f s).2 = Done u ->
  fullSnapshotBody a h ts f s = snapshot_rest a h ts (map fst (map_to_list (data s))) f (Session (data s) (S (sent s))).
Proof.
  change (fullSnapshotBody a h ts) with (tbind findStreamableTableNames (snapshot_rest a h ts)).
  unfold tbind, findStreamableTableNames, query. by destruct (f (sent s)).
Qed.

Lemma writes_mono {A} ts ts' (m : txn A) : ts ⊆ ts' -> writes ts m -> writes ts' m.
Proof. intros Hs Hw db0 f s Hdb t Ht. rewrite <- (Hdb t Ht). apply (Hw (data s) f s (fun _ _ => eq_refl)). intros Hin. by apply Ht, Hs. Qed.
Lemma writes_rest a h ts names : writes (snapshot_tables ts names ++ commitment_tables) (snapshot_rest a h ts names).
Proof.
  intros db0. unfold snapshot_rest. preserves.
  - apply writes_check.
  - apply writes_run_stmt. cbn [target deleteAllRows]. apply elem_of_app. left. apply list_elem_of_In, in_rev. by apply list_elem_of_In.
  - eapply writes_mono; [|apply writes_insert_payload]. intros y ->%list_elem_of_singleton. apply elem_of_app. by left.
  - eapply writes_mono; [|apply writes_seed]. intros y Hy. apply elem_of_app. by right.
Qed.

(** What one cleared table holds in the end. *)
Lemma after_rest a h ts names t (Q : list row -> Prop) : t ∉ commitment_tables -> t ∈ snapshot_tables ts names ->
  after (fun db => rows_of db t = []) (insert_payload ts t) (fun db => Q (rows_of db t)) ->
  after (fun _ => True) (snapshot_rest a h ts names) (fun db => Q (rows_of db t)).
Proof.
  intros Hc Ht HQ. destruct (snapshot_tables_spec ts names) as [Hn _]. unfold snapshot_rest.
  eapply after_bind; [apply after_check|intros _]. eapply after_bind; [by apply after_clear|intros _].
  eapply (after_bind _ (fun db => Q (rows_of db t))).
  - apply (after_each_one _ _ _ _ t Ht Hn); [|exact HQ]. intros y _ Hy.
    assert (t ∉ [y]) as Hty by (by intros ->%list_elem_of_singleton). split; [apply (preserves_rows [y] _ t (fun l => l = []))|apply (preserves_rows [y] _ t Q)]; try exact Hty; apply writes_insert_payload.
  - intros _. apply after_preserves. apply (preserves_rows commitment_tables _ t Q); [apply writes_seed|done].
Qed.

Lemma transact_done {A} (body : txn A) landed f r r' x : transact body landed f r = (r', x, Done tt) ->
  exists s y, body f (Session (committed r) (S (queries r))) = (s, Done y) /\ committed r' = data s /\ x = Some y.
Proof.
  unfold transact. cbv zeta. destruct (f (queries r)); [done|]. destruct (body f _) as [s [y|e]]; [|done].
  destruct (f (sent s)); [done|]. intros [= <- <-]. by exists s, y.
Qed.

(** What a full snapshot that reports success did to each table. *)
Lemma full_snapshot_run a p ts landed f r r' (names := map fst (map_to_list (committed r))) :
  benign f -> sn_tables p = Some ts -> applyFullSnapshot a p landed f r = (r', Done tt) ->
  forall t, t ∉ commitment_tables ->
  (forall Q : list row -> Prop, t ∈ snapshot_tables ts names ->
     after (fun db => rows_of db t = []) (insert_payload ts t) (fun db => Q (rows_of db t)) -> Q (rows_of (committed r') t))
  /\ (t ∉ snapshot_tables ts names -> committed r' !! t = committed r !! t).
Proof.
  intros Hf Hts Hrun t Ht. unfold applyFullSnapshot in Hrun. rewrite Hts in Hrun. destruct (negb _); [done|].
  destruct (transact _ landed f r) as [[r1 x] o] eqn:E. cbn in Hrun. injection Hrun as -> ->.
  apply transact_done in E as (s & [] & E & -> & _). pose proof (fullSnapshotBody_names a (sn_block_height p) ts f (Session (committed r) (S (queries r))) tt) as Hb.
  rewrite E in Hb. specialize (Hb eq_refl). cbn [data sent] in Hb. fold names in Hb.
  set (s0 := Session (committed r) (S (S (queries r)))) in *. symmetry in Hb. split.
  - intros Q Hin HQ. pose proof (after_rest a (sn_block_height p) ts names t Q Ht Hin HQ f s0 tt Hf I) as Hr. rewrite Hb in Hr. by apply Hr.
  - intros Hin. pose proof (writes_rest a (sn_block_height p) ts names (committed r) f s0 (fun _ _ => eq_refl) t) as Hw. rewrite Hb in Hw. apply Hw.
    by intros [?|?]%elem_of_app.
Qed.
Lemma snapshot_tables_foreign ts names t : t ∈ OPERATOR_LOCAL_TABLES ++ REPLICA_LEDGER_TABLES -> t ∉ snapshot_tables ts names.
Proof.
  intros Hl%elem_of_app. rewrite (proj2 (snapshot_tables_spec ts names)). unfold payloadSnapshotTableNames, localSnapshotTableNames.
  rewrite !elem_of_lfilter, !andb_true_iff, !negb_true_iff, !bool_decide_eq_false. tauto.
Qed.

(** A full snapshot makes the replica a copy of the source.  When it reports success:
    every table the payload carries (node-local, unstreamed and ledger tables are ignored)
    has exactly the payload's rows in their order, each with every carried column (all but
    the generated ones and the surrogate ids the replica numbers itself) holding what the
    column makes of the decoded value; every other streamable table of the replica is
    empty; and every table that belongs to the node is as it was.  The tables of the state
    commitment are left to the seed that follows.  Where a collision would be skipped or
    merged (IGNORE and upsert tables) the payload's rows are assumed to differ on the
    unique keys, as rows of the source's table do. *)
Theorem full_snapshot_mirrors a p ts landed f r r' :
  benign f -> sn_tables p = Some ts -> applyFullSnapshot a p landed f r = (r', Done tt) ->
  forall t, t ∉ commitment_tables ->
  (t ∈ payloadSnapshotTableNames ts -> storable t (rows_carried ts t) ->
     Forall2 (carries t (written_columns t (rows_carried ts t) no_opts)) (rows_carried ts t) (rows_of (committed r') t))
  /\ (t ∉ payloadSnapshotTableNames ts -> t ∈ localSnapshotTableNames (map fst (map_to_list (committed r))) -> rows_of (committed r') t = [])
  /\ (t ∈ OPERATOR_LOCAL_TABLES ++ REPLICA_LEDGER_TABLES -> committed r' !! t = committed r !! t).
Proof.
  intros Hf Hts Hrun t Ht. destruct (full_snapshot_run a p ts landed f r r' Hf Hts Hrun t Ht) as [Hin Hout].
  destruct (snapshot_tables_spec ts (map fst (map_to_list (committed r)))) as [_ Hspec]. split_and!.
  - intros Hp [Hn Hd]. apply Hin; [apply Hspec; by left|]. unfold insert_payload. rewrite bool_decide_eq_true_2 by done.
    eapply after_conseq; [|by apply after_insertRows_empty]. intros db Hrows. by apply rows_carry.
  - intros Hp Hl. apply (Hin (fun l => l = [])); [apply Hspec; by right|]. unfold insert_payload. rewrite bool_decide_eq_false_2 by done. by apply after_ret.
  - intros Hl. by apply Hout, snapshot_tables_foreign.
Qed.
End FullSnapshot.
