(* ===== verification/ApplierBalances.v ===== *)
(** * ApplierBalances: applied ledgers and their balances

    The composition of [src/src/client/applier.js] with
    [src/src/db/balance_helpers.js]: a block or a catch-up adds credits and debits and
    rebuilds the balances of the addresses and ticks it touched, so balances that agreed
    with the ledger before the apply agree with it after. *)

From S2P Require Import Prelude Sha256 JsText JsNumber JsMap JsDouble Json Primitives GateRegistry Gates Subtrees FollowerRoots Regex Validation WireCodec Sql TableLifecycle TokenRefold Balances Rollback RollbackAtomic RollbackEffect RollbackResets RollbackBalances RowWrites Applier ApplierAtomic ApplierMirror.

#[local] Open Scope Z_scope.
#[local] Notation row := (gmap string value).
#[local] Notation cell := Sql.cell.

Definition ledger_tables : list string := ["credits"; "debits"; "balances"].

Section Ledger.
Context `{Mathjs} `{Dialect} `{Storage} `{!StorageLaws}.

(** A plain INSERT that succeeds appends its rows. *)
Lemma insert_all_plain t columns new l l' w : insert_all t columns false false l new = Some (l', w) ->
  exists added, l' = l ++ added /\ Forall2 (filled t) new added.
Proof.
  revert l w. induction new as [|r new IH]; intros l w; cbn [insert_all].
  { intros [= <- _]. exists []. by rewrite app_nil_r. }
  unfold insert_row. destruct (conflict t l (fill t l r)); [done|].
  destruct (insert_all t columns false false (l ++ [fill t l r]) new) as [[l2 w2]|] eqn:E2; [|done]. cbn. intros [= <- _].
  apply IH in E2 as (added & -> & Hf). exists (fill t l r :: added). rewrite <- app_assoc. split; [done|]. constructor; [by exists l|done].
Qed.

(** ** The ledger between the inserts and the rebuild *)

(** The rows added to a ledger table, with the columns of the first. *)
Definition added_to (t : string) (rows : list wire_row) (l0 l : list row) : Prop :=
  exists added, l = l0 ++ added /\ Forall2 (fun r x => filled t (named t (map fst (default [] (head rows))) r) x) rows added.
Definition grown (db0 : database) (cs ds : list wire_row) (db : database) : Prop :=
  ledger_supported db /\ rows_of db "balances" = rows_of db0 "balances"
  /\ added_to "credits" cs (rows_of db0 "credits") (rows_of db "credits")
  /\ added_to "debits" ds (rows_of db0 "debits") (rows_of db "debits").

Lemma forallb_ext_in {A} (p q : A -> bool) l : (forall x, In x l -> p x = q x) -> forallb p l = forallb q l.
Proof. induction l as [|x l IH]; cbn; intros Hpq; [done|]. rewrite Hpq by (by left). f_equal. apply IH. auto. Qed.
Lemma gap_lookup db db' ts cs : (forall t, t ∈ ts ++ map fst cs -> db' !! t = db !! t) -> gap db' ts cs = gap db ts cs.
Proof.
  intros Hl. unfold gap.
  assert (forallb (fun t => bool_decide (is_Some (db' !! t))) ts = forallb (fun t => bool_decide (is_Some (db !! t))) ts) as ->.
  { apply forallb_ext_in. intros t Ht. rewrite Hl; [done|]. apply elem_of_app. left. by apply list_elem_of_In. }
  assert (forallb (has_column db') cs = forallb (has_column db) cs) as ->; [|done].
  apply forallb_ext_in. intros p Hp. unfold has_column. rewrite Hl; [done|]. apply elem_of_app. right. apply list_elem_of_In. by apply in_map.
Qed.
Lemma ledger_supported_lookup db db' : (forall t, t ∈ ledger_tables -> db' !! t = db !! t) -> ledger_supported db -> ledger_supported db'.
Proof.
  intros Hl. unfold ledger_supported, supported. rewrite !(gap_lookup db db'); [done|..]; intros t Ht; apply Hl; revert t Ht; apply Forall_forall;
    apply (bool_decide_eq_true_1 (Forall _ _)); reflexivity.
Qed.
Lemma grown_outside {A} db0 cs ds ts (m : txn A) : writes ts m -> Forall (fun t => t ∉ ts) ledger_tables -> preserves (grown db0 cs ds) m.
Proof.
  intros Hw Ht f s (Hs & Hb & Hc & Hd). pose proof (Hw (data s) f s (fun _ _ => eq_refl)) as Hsame. rewrite Forall_forall in Ht.
  assert (forall t, t ∈ ledger_tables -> data (m f s).1 !! t = data s !! t) as Hl by (intros t Hin; apply Hsame; by apply Ht).
  assert (forall t, t ∈ ledger_tables -> rows_of (data (m f s).1) t = rows_of (data s) t) as Hr by (intros t Hin; unfold rows_of; by rewrite Hl).
  assert ("balances" ∈ ledger_tables /\ "credits" ∈ ledger_tables /\ "debits" ∈ ledger_tables) as (Ib & Icr & Id) by (apply (bool_decide_eq_true_1 (_ /\ _)); reflexivity).
  split_and!; [by eapply ledger_supported_lookup|by rewrite Hr|by rewrite Hr|by rewrite Hr].
Qed.

(** ** Inserting the ledger rows *)
(** The tables whose rows go through one INSERT and nothing else. *)
Definition plain_table (t : string) : Prop :=
  t ∉ ignoreTables /\ t ∉ upsertFullDumpTables /\ t ∉ authoritativeSnapshotUpsertTables /\ t ∉ localSurrogateIdOnlyTables
  /\ generatedColumns t = [] /\ localSurrogateIdTables t = None /\ t ∉ idKeyedIgnoreTables.
Lemma ledger_plain t : t ∈ ["credits"; "debits"] -> plain_table t.
Proof. revert t. apply Forall_forall. apply (bool_decide_eq_true_1 (Forall _ _)). vm_compute. reflexivity. Qed.
Lemma plain_modes t rows o p : plain_table t -> prepareTableRows t rows o = Some p ->
  columns_of p = map fst (default [] (head rows)) /\ keyValues p = [] /\ useIgnore p = false /\ useUpsert p = false.
Proof.
  intros (H1' & H2' & H3' & H4' & H5' & H6' & _).
  unfold prepareTableRows, prepareInsertColumns. rewrite H5', H6'. rewrite (bool_decide_eq_false_2 _ H1'), (bool_decide_eq_false_2 _ H2'), (bool_decide_eq_false_2 _ H3'), (bool_decide_eq_false_2 _ H4').
  destruct (valid_identifier t); [|done]. cbn [negb andb orb]. rewrite (bool_decide_eq_true_2 (@nil string = [])) by done. cbn [negb andb]. rewrite andb_false_r.
  intros [= <-]. cbn. split_and!; try done. generalize (map fst (default [] (head rows))). intros l. induction l as [|c l IH]; [done|]. cbn. by rewrite IH.
Qed.

(** The batches of a plain INSERT append their rows. *)
Lemma after_plain_batches t p rows0 o cs l1 (P : database -> Prop) :
  useIgnore p = false -> useUpsert p = false -> strictIgnoreCheck o && bool_decide (t ∈ idKeyedIgnoreTables) = false -> (forall db l, P db -> P (set_rows db t l)) ->
  after (fun db => P db /\ rows_of db t = l1) (each cs (insertBatch t p rows0 o))
    (fun db => P db /\ exists added, rows_of db t = l1 ++ added /\ Forall2 (fun r x => filled t (named t (columns_of p) r) x) (concat cs) added).
Proof.
  intros Hi Hu Hs HP. revert l1. induction cs as [|c cs IH]; intros l1; cbn [each concat]; [apply after_ret; intros db [? ->]; split; [done|]; exists []; by rewrite app_nil_r|].
  eapply (after_bind _ (fun db => P db /\ exists a1, rows_of db t = l1 ++ a1 /\ Forall2 (fun r x => filled t (named t (columns_of p) r) x) c a1)).
  - apply after_insertBatch; [done|]. intros db l w [HPdb Hl] Hdb _ E. rewrite Hi, Hu, Hl in E. apply insert_all_plain in E as (a1 & -> & Hf).
    split; [by apply HP|]. exists a1. rewrite rows_of_set_rows by done. split; [done|]. exact (proj1 (Forall2_fmap_l (named t (columns_of p)) (filled t) c a1) Hf).
  - intros _ f s a Hf (HPs & a1 & H1' & H2') Ha. destruct (IH (l1 ++ a1) f s a Hf (conj HPs H1') Ha) as (HPs' & a2 & H3' & H4').
    split; [done|]. exists (a1 ++ a2). rewrite H3', app_assoc. split; [done|]. by apply Forall2_app.
Qed.
Lemma after_insert_plain t rows o l0 (P : database -> Prop) : plain_table t -> (forall db l, P db -> P (set_rows db t l)) ->
  after (fun db => P db /\ rows_of db t = l0) (insertRows t rows o) (fun db => P db /\ added_to t rows l0 (rows_of db t)).
Proof.
  intros Ht HP. unfold insertRows. case_bool_decide as Er.
  { destruct rows; [|done]. apply after_ret. intros db [? ->]. split; [done|]. exists []. by rewrite app_nil_r. }
  destruct (prepareTableRows t rows o) as [p|] eqn:Ep; [|apply after_throw]. destruct (plain_modes _ _ _ _ Ht Ep) as (Hc & -> & Hi & Hu).
  eapply (after_bind _ (fun db => P db /\ rows_of db t = l0)); [by apply after_ret|intros _]. eapply after_bind; [apply after_check|intros _].
  set (cols := map fst (default [] (head rows))) in *.
  assert (strictIgnoreCheck o && bool_decide (t ∈ idKeyedIgnoreTables) = false) as Hs.
  { rewrite (bool_decide_eq_false_2 (t ∈ idKeyedIgnoreTables)); [apply andb_false_r|]. apply Ht. }
  eapply after_conseq; [|by apply (after_plain_batches t p rows o (chunks 100 rows) l0 P)]. intros db (HPdb & added & Hrows & Hf). split; [done|]. exists added.
  rewrite chunks_concat, Hc in Hf by lia. done.
Qed.
End Ledger.

Section Balanced.
Context `{Mathjs} `{Dialect} `{Storage} `{!StorageLaws}.

(** ** Every table of a payload *)
Lemma rows_carried_cons m (data : wire_tables) t : rows_carried (m :: data) t = if bool_decide (m.1 = t) then m.2 else rows_carried data t.
Proof. unfold rows_carried, carried. cbn [List.find]. by destruct (bool_decide (m.1 = t)). Qed.
Lemma rows_carried_absent (data : wire_tables) t : t ∉ map fst data -> rows_carried data t = [].
Proof.
  induction data as [|m data IH]; [done|]. cbn [map]. intros Ht. rewrite rows_carried_cons, bool_decide_eq_false_2 by (intros <-; apply Ht; left).
  apply IH. intros Hin. apply Ht. by right.
Qed.

Definition appends_rows (k : string * list wire_row -> txn unit) : Prop :=
  (forall m, m.1 ∉ ledger_tables -> exists ts, writes ts (k m) /\ Forall (fun t => t ∉ ts) ledger_tables)
  /\ (forall m l0 (P : database -> Prop), m.1 ∈ ["credits"; "debits"] -> (forall db l, P db -> P (set_rows db m.1 l)) ->
       after (fun db => P db /\ rows_of db m.1 = l0) (k m) (fun db => P db /\ added_to m.1 m.2 l0 (rows_of db m.1))).

Lemma added_nil t l0 l : added_to t [] l0 l -> l = l0.
Proof. intros (added & -> & Hf). inversion Hf. by rewrite app_nil_r. Qed.
Lemma grown_credits db0 ds k rows : appends_rows k ->
  after (grown db0 [] ds) (k ("credits", rows)) (grown db0 rows ds).
Proof.
  intros [_ Hk]. eapply after_conseq; [|eapply after_weaken; [|apply (Hk ("credits", rows) (rows_of db0 "credits")
    (fun db => ledger_supported db /\ rows_of db "balances" = rows_of db0 "balances" /\ added_to "debits" ds (rows_of db0 "debits") (rows_of db "debits")))]].
  - intros db ((? & ? & ?) & ?). by split_and!.
  - intros db (? & ? & E%added_nil & ?). by split_and!.
  - left.
  - intros db l (? & ? & ?). cbn [fst]. rewrite !rows_of_set_rows_ne by done. split_and!; [by apply ledger_supported_set_rows|done..].
Qed.
Lemma grown_debits db0 cs k rows : appends_rows k ->
  after (grown db0 cs []) (k ("debits", rows)) (grown db0 cs rows).
Proof.
  intros [_ Hk]. eapply after_conseq; [|eapply after_weaken; [|apply (Hk ("debits", rows) (rows_of db0 "debits")
    (fun db => ledger_supported db /\ rows_of db "balances" = rows_of db0 "balances" /\ added_to "credits" cs (rows_of db0 "credits") (rows_of db "credits")))]].
  - intros db ((? & ? & ?) & ?). by split_and!.
  - intros db (? & ? & ? & E%added_nil). by split_and!.
  - right. left.
  - intros db l (? & ? & ?). cbn [fst]. rewrite !rows_of_set_rows_ne by done. split_and!; [by apply ledger_supported_set_rows|done..].
Qed.
Lemma after_each_ledger db0 k data cs ds : appends_rows k -> NoDup (map fst data) -> "balances" ∉ map fst data ->
  ("credits" ∈ map fst data -> cs = []) -> ("debits" ∈ map fst data -> ds = []) ->
  after (grown db0 cs ds) (each data k) (grown db0 (cs ++ rows_carried data "credits") (ds ++ rows_carried data "debits")).
Proof.
  intros Hk. revert cs ds. induction data as [|[t rows] data IH]; intros cs ds Hn Hb Hc Hd; cbn [each].
  { apply after_ret. intros db. by rewrite !app_nil_r. }
  cbn [map fst] in *. apply NoDup_cons in Hn as [Ht Hn]. rewrite !rows_carried_cons. cbn [fst snd].
  assert (forall t', t' ∈ map fst data -> t' ∈ t :: map fst data) as Hin by (intros t' ?; by right).
  destruct (decide (t = "credits")) as [->|Hnc]; [|destruct (decide (t = "debits")) as [->|Hnd]].
  - rewrite Hc by left. eapply after_bind; [by apply grown_credits|intros _].
    rewrite bool_decide_eq_true_2, bool_decide_eq_false_2 by done. eapply after_conseq; [|apply (IH rows ds); auto; done].
    intros db. rewrite (rows_carried_absent data "credits") by done. by rewrite app_nil_r.
  - rewrite Hd by left. eapply after_bind; [by apply grown_debits|intros _].
    rewrite bool_decide_eq_false_2, (bool_decide_eq_true_2 ("debits" = "debits")) by done. eapply after_conseq; [|apply (IH cs rows); auto; done].
    intros db. rewrite (rows_carried_absent data "debits") by done. by rewrite app_nil_r.
  - rewrite !bool_decide_eq_false_2 by done. eapply after_bind; [apply after_preserves|intros _; apply IH; auto].
    destruct (proj1 Hk (t, rows)) as (ts & Hw & Hts); [|by eapply grown_outside].
    cbn. intros [->|[->|[->|Hnil]%elem_of_cons]%elem_of_cons]%elem_of_cons; [done|done|apply Hb; left|by apply elem_of_nil in Hnil].
Qed.
End Balanced.

Section Rebuild.
Context `{Mathjs} `{Dialect} `{Storage} `{!StorageLaws}.

(** ** The rectangle of a payload *)
Lemma add_value_has l v : v ∈ add_value l v /\ l ⊆ add_value l v.
Proof.
  unfold add_value. destruct (existsb (fun k => sameKeyValue k v) l) eqn:E; [|set_solver]. split; [|done].
  apply existsb_exists in E as (k & Hk%list_elem_of_In & Hs). enough (k = v) as <- by done. destruct k as [x|[| | | | |]], v as [y|[| | | | |]]; try discriminate Hs; cbn in Hs.
  - apply bool_decide_eq_true in Hs. by subst.
  - done.
  - apply Bool.eqb_prop in Hs. by subst.
  - apply Z.eqb_eq in Hs. by subst.
  - apply bool_decide_eq_true in Hs. by subst.
Qed.
Lemma scope_rows_covers kf rows keys ticks K T : scope_rows kf rows keys ticks = Some (K, T) ->
  keys ⊆ K /\ ticks ⊆ T
  /\ forall r, r ∈ rows -> exists j k, field r kf = Some j /\ j <> PNull /\ AVal j ∈ K /\ field r "tick_id" = Some k /\ k <> PNull /\ AVal k ∈ T.
Proof.
  revert keys ticks. induction rows as [|r rows IH]; intros keys ticks; cbn [scope_rows].
  { intros [= -> ->]. split_and!; [done..|]. intros r Hr. by apply elem_of_nil in Hr. }
  destruct (absent (field r kf)) eqn:E1; [done|]. destruct (absent (field r "tick_id")) eqn:E2; [done|]. cbn [orb].
  destruct (field r kf) as [j|] eqn:Ej; [|done]. destruct (field r "tick_id") as [k|] eqn:Ek; [|done]. cbn [default].
  pose proof (add_value_has keys (AVal j)) as [Hj Hjs]. pose proof (add_value_has ticks (AVal k)) as [Hk Hks].
  destruct (_ || _)%bool; [done|]. intros (HK & HT & Hr)%IH. split_and!; [by etransitivity|by etransitivity|].
  intros x [->|Hx]%elem_of_cons; [|by apply Hr]. exists j, k. split_and!; auto; by intros ->.
Qed.

(** An id column holds what its parameter is compared with. *)
Definition ids_bound (ts : wire_tables) : Prop :=
  forall t c r j, t ∈ ["credits"; "debits"] -> c ∈ ["address_id"; "tick_id"] -> r ∈ rows_carried ts t -> field r c = Some j -> j <> PNull ->
  auto_column t <> Some c /\ cmp3 Eq (store t c (coerce_arg (decodeValue j))) (bind (coerce_arg (AVal j))) = Some true.

Lemma field_named (r : wire_row) c j : field r c = Some j -> c ∈ map fst r.
Proof.
  unfold field. induction r as [|m r IH]; cbn; [done|]. case_bool_decide as E; [intros _; subst; left|]. intros Hr. right. by apply IH.
Qed.
Lemma filled_cell t cols r x c j : filled t (named t cols r) x -> c ∈ cols -> field r c = Some j -> auto_column t <> Some c ->
  cell x c = store t c (coerce_arg (decodeValue j)).
Proof.
  intros [l ->] Hc Hj Ha. unfold cell. erewrite fill_named; [reflexivity| |by intros ?].
  rewrite named_lookup, bool_decide_eq_true_2 by done. unfold arg. by rewrite Hj.
Qed.

Definition param (v : applied) : value := bind (coerce_arg v).
(** Every ledger row the payload added is inside the rectangle. *)
Lemma added_covered ts t rows l0 l K T : t ∈ ["credits"; "debits"] -> rows = rows_carried ts t -> ids_bound ts ->
  (forall r, r ∈ rows -> exists j k, field r "address_id" = Some j /\ j <> PNull /\ AVal j ∈ K /\ field r "tick_id" = Some k /\ k <> PNull /\ AVal k ∈ T) ->
  added_to t rows l0 l -> exists added, l = l0 ++ added /\ Forall (fun x => covers (Some (Scope (map param K) (map param T))) (row_key x) = true) added.
Proof.
  intros Ht Hrows Hids Hsc (added & -> & Hf). exists added. split; [done|].
  assert ("address_id" ∈ ["address_id"; "tick_id"] /\ "tick_id" ∈ ["address_id"; "tick_id"]) as [Hca Hct] by (apply (bool_decide_eq_true_1 (_ /\ _)); reflexivity).
  destruct rows as [|r0 rows]; [inversion Hf; constructor|].
  assert (r0 ∈ r0 :: rows) as Hr0 by left. destruct (Hsc r0 Hr0) as (j0 & k0 & Hj0 & _ & _ & Hk0 & _). apply field_named in Hj0, Hk0. cbn [head default] in Hf.
  apply Forall_forall. intros x Hx. apply list_elem_of_lookup in Hx as [i Hi]. destruct (Forall2_lookup_r _ _ _ _ _ Hf Hi) as (r & Hr%list_elem_of_lookup_2 & Hfill).
  destruct (Hsc r Hr) as (j & k & Hj & Hjn & HjK & Hk & Hkn & HkT). rewrite Hrows in Hr.
  destruct (Hids t "address_id" r j Ht Hca Hr Hj Hjn) as [Ha1 He1]. destruct (Hids t "tick_id" r k Ht Hct Hr Hk Hkn) as [Ha2 He2].
  rewrite <- (sat_scope ∅). cbn [scope_pred addressIds tickIds].
  assert (forall p q, satisfied ∅ [("t", x)] (And p q) = satisfied ∅ [("t", x)] p && satisfied ∅ [("t", x)] q) as ->.
  { intros p q. unfold satisfied. cbn [holds]. by destruct (holds ∅ _ p) as [[]|], (holds ∅ _ q) as [[]|]. }
  rewrite !sat_in_list, andb_true_iff, !existsb_exists. change (alias_row [("t", x)] "t") with x.
  rewrite (filled_cell _ _ _ _ _ _ Hfill Hj0 Hj Ha1), (filled_cell _ _ _ _ _ _ Hfill Hk0 Hk Ha2).
  split; [exists (param (AVal j))|exists (param (AVal k))]; (split; [apply in_map; by apply list_elem_of_In|by apply bool_decide_eq_true]).
Qed.

Lemma group_sum_app l l' k : group_sum (l ++ l') k = group_sum l k + group_sum l' k.
Proof. unfold group_sum. induction l as [|x l IH]; cbn; [done|]. rewrite IH. lia. Qed.
Definition side_rows (sgn : Z) (l : list row) : list (value * value * Z) :=
  map (fun r => (cell r "address_id", cell r "tick_id", sgn * units (cell r "amount"))) l.
Lemma ledger_rows_all db : ledger_rows db None = side_rows 1 (rows_of db "credits") ++ side_rows (-1) (rows_of db "debits").
Proof.
  unfold ledger_rows, side_rows. cbn zeta.
  assert (forall l, List.filter (fun r => satisfied db [("t", r)] (scope_pred "t" None)) l = l) as Hl; [|by rewrite !Hl].
  induction l as [|x l IH]; [done|]. cbn [List.filter]. rewrite sat_scope. change (covers None (row_key x)) with true. by rewrite IH.
Qed.
Lemma side_sum_covered sgn added sc k : Forall (fun x => covers sc (row_key x) = true) added -> covers sc k = false -> group_sum (side_rows sgn added) k = 0.
Proof.
  intros Ha Hk. apply group_sum_absent. unfold side_rows. rewrite map_map. intros Hin. rewrite Forall_forall in Ha.
  apply list_elem_of_In, in_map_iff in Hin as (x & <- & Hx%list_elem_of_In). specialize (Ha x Hx). unfold row_key in Ha. cbn [fst] in Hk. congruence.
Qed.
End Rebuild.

Section Rebuilt.
Context `{Mathjs} `{Dialect} `{Storage} `{!StorageLaws}.

(** ** The scoped rebuild *)
Lemma in_list_names scope a c ids : cond_tables (in_list (Col a c) ids) = [] /\ Forall (eq (table_of scope a, c)) (cond_columns scope (in_list (Col a c) ids)).
Proof.
  destruct ids as [|v l]; [split; [done|constructor]|]. cbn [in_list].
  assert (forall p, cond_tables p = [] /\ Forall (eq (table_of scope a, c)) (cond_columns scope p) ->
    let q := fold_left (fun p x => Or p (Cmp Eq (Col a c) (Lit x))) l p in cond_tables q = [] /\ Forall (eq (table_of scope a, c)) (cond_columns scope q)) as Hl.
  { induction l as [|x l IH]; intros p Hp; cbn [fold_left]; [done|]. apply IH. cbn [cond_tables cond_columns expr_tables expr_columns]. destruct Hp as [-> Hp].
    split; [done|]. apply Forall_app. split; [done|]. repeat constructor. }
  apply Hl. cbn. split; [done|]. repeat constructor.
Qed.
Lemma supported_scope sc db : ledger_supported db -> supported (clearBalances sc) db /\ supported (insertBalances sc) db.
Proof.
  intros [Hc Hi]. split; [|exact Hi]. destruct sc as [[la lt]|]; [|exact Hc].
  unfold supported, gap in *. cbn [stmt_tables stmt_columns clearBalances insertBalances scope_pred addressIds tickIds cond_tables cond_columns] in *.
  destruct (in_list_names [("balances", "t")] "t" "address_id" la) as [-> H1']. destruct (in_list_names [("balances", "t")] "t" "tick_id" lt) as [-> H2'].
  cbn [map app fst forallb] in *. destruct (bool_decide (is_Some (db !! "balances"))); [|done]. cbn [andb negb] in *.
  destruct (bool_decide (is_Some (db !! "credits")) && _); [|done]. cbn [negb flat_map map app fst snd forallb] in Hi.
  assert (has_column db ("balances", "address_id") = true /\ has_column db ("balances", "tick_id") = true) as [Ha Hk].
  { destruct (has_column db ("balances", "address_id")); [|done]. destruct (has_column db ("balances", "tick_id")); [done|done]. }
  assert (forallb (has_column db) (cond_columns [("balances", "t")] (in_list (Col "t" "address_id") la) ++ cond_columns [("balances", "t")] (in_list (Col "t" "tick_id") lt)) = true) as ->; [|done].
  rewrite forallb_app, andb_true_iff, !forallb_forall. rewrite Forall_forall in H1', H2'.
  split; intros p Hp%list_elem_of_In; [specialize (H1' p Hp)|specialize (H2' p Hp)]; by subst p.
Qed.

Definition outside_balanced (sc : option scope) (db : database) : Prop := forall k, covers sc k = false -> held db k = owed db k.
Lemma runs_rebuild_scope sc : runs (fun db => ledger_supported db /\ outside_balanced sc db) (rebuildBalances sc) balanced.
Proof.
  assert (rebuildBalances sc = tret tt /\ (forall k, covers sc k = false)
    \/ rebuildBalances sc = (run_stmt (clearBalances sc) ;! run_stmt (insertBalances sc))) as [[-> Hc]| -> ].
  { destruct sc as [[[|a la] [|t ts]]|]; [left|left|left|by right|by right]; split; try done; intros k; unfold covers, satisfied; cbn [scope_pred addressIds tickIds in_list holds].
    all: try done; by destruct (holds ∅ _ _) as [[]|]. }
  { intros f s _ [_ Ho] k. cbn. by apply Ho. }
  eapply (runs_bind _ (fun db => exists db0, ledger_supported db0 /\ outside_balanced sc db0 /\ db = set_rows db0 "balances" (new_rows db0 (clearBalances sc)))).
  - apply runs_stmt; [intros db [Hs _]; by apply supported_scope|]. intros db [? ?]. by exists db.
  - intros _. apply runs_stmt.
    + intros db (db0 & Hs & _ & ->). apply supported_set_rows. by apply supported_scope.
    + intros db (db0 & Hs & Ho & ->). destruct (supported_scope sc db0 Hs) as [Hcl _]. assert (is_Some (db0 !! "balances")) as Hdb by (eapply gap_tables; [exact Hcl|left]).
      destruct (rebuilt_rows db0 sc Hdb) as [Hheld Hnet]. intros k. cbn [target insertBalances]. rewrite Hheld. unfold owed at 2. rewrite Hnet. fold (owed db0 k).
      destruct (covers sc k) eqn:E; [done|]. by apply Ho.
Qed.

(** Rows inside the rectangle leave the balances outside it right. *)
Lemma grown_outside_balanced db0 cs ds db sc : balanced db0 -> grown db0 cs ds db ->
  (forall l0 l, added_to "credits" cs l0 l -> exists added, l = l0 ++ added /\ Forall (fun x => covers sc (row_key x) = true) added) ->
  (forall l0 l, added_to "debits" ds l0 l -> exists added, l = l0 ++ added /\ Forall (fun x => covers sc (row_key x) = true) added) ->
  outside_balanced sc db.
Proof.
  intros Hb (_ & Hbal & Hc & Hd) Hcc Hcd k Hk. apply Hcc in Hc as (ac & Ec & Hac). apply Hcd in Hd as (ad & Ed & Had).
  unfold held, owed, net. rewrite Hbal, ledger_rows_all, Ec, Ed. unfold side_rows. rewrite !map_app, !group_sum_app.
  fold (side_rows 1 ac) (side_rows (-1) ad) (side_rows 1 (rows_of db0 "credits")) (side_rows (-1) (rows_of db0 "debits")).
  rewrite (side_sum_covered 1 ac sc k Hac Hk), (side_sum_covered (-1) ad sc k Had Hk), !Z.add_0_r.
  specialize (Hb k). unfold held, owed, net in Hb. by rewrite ledger_rows_all, group_sum_app in Hb.
Qed.

Lemma after_rebuildTouched ts db0 : balanced db0 -> ids_bound ts ->
  after (grown db0 (rows_carried ts "credits") (rows_carried ts "debits"))
    (rebuildBalancesTouchedBy (rows_carried ts "credits") (rows_carried ts "debits")) balanced.
Proof.
  intros Hb Hids. unfold rebuildBalancesTouchedBy, collectRebuildScope.
  destruct (scope_rows "address_id" _ [] []) as [[K T]|] eqn:E.
  - assert (forall t, t ∈ ["credits"; "debits"] -> forall l0 l, added_to t (rows_carried ts t) l0 l ->
      exists added, l = l0 ++ added /\ Forall (fun x => covers (Some (Scope (map param K) (map param T))) (row_key x) = true) added) as Hcov.
    { intros t Ht l0 l. apply (added_covered ts t _ l0 l K T Ht eq_refl Hids). intros r Hr. apply scope_rows_covers in E as (_ & _ & E). apply E.
      apply elem_of_app. apply elem_of_cons in Ht as [->|[->|Hn]%elem_of_cons]; [by left|by right|by apply elem_of_nil in Hn]. }
    assert ("credits" ∈ ["credits"; "debits"] /\ "debits" ∈ ["credits"; "debits"]) as [Ic Id] by (apply (bool_decide_eq_true_1 (_ /\ _)); reflexivity).
    assert (forall db, grown db0 (rows_carried ts "credits") (rows_carried ts "debits") db -> ledger_supported db /\ outside_balanced (Some (Scope (map param K) (map param T))) db) as Hpre.
    { intros db Hg. split; [by destruct Hg|]. by eapply grown_outside_balanced; [exact Hb|exact Hg|apply Hcov|apply Hcov]. }
    destruct K as [|v K].
    + apply after_ret. intros db Hg k. apply Hpre in Hg as [_ Ho]. apply Ho. done.
    + eapply after_weaken; [exact Hpre|]. apply after_catch_missing, runs_rebuild_scope.
  - eapply after_weaken; [|apply after_catch_missing, runs_rebuild]. by intros db [? _].
Qed.
End Rebuilt.

Section Apply.
Context `{Mathjs} `{Dialect} `{Storage} `{!StorageLaws} `{CommitmentLaws}.

(** ** The two loops append ledger rows *)
Lemma outside_one t : t ∉ ledger_tables -> Forall (fun x => x ∉ [t]) ledger_tables.
Proof. intros Ht. apply Forall_forall. intros x Hx ->%list_elem_of_singleton. done. Qed.
Lemma block_appends : appends_rows (fun m => insertRows m.1 m.2 no_opts).
Proof.
  split; [|intros m l0 P Ht HP; apply after_insert_plain; [by apply ledger_plain|done]].
  intros m Hm. exists [m.1]. split; [apply writes_insertRows; left|by apply outside_one].
Qed.
Lemma writes_reconcile t rows cols : writes [t] (reconcileLookupRows t rows cols).
Proof.
  intros db0. unfold reconcileLookupRows. apply preserves_bind.
  - generalize (@nil Z). induction rows as [|r rows IH]; intros acc; cbn [stale_lookup_ids]; unfold findRowIdsByKeyColumns, findRowIdById; preserves;
      first [apply IH | apply preserves_throw].
  - intros ids. preserves. apply writes_run_stmt. left.
Qed.
Lemma snapshot_appends (strict : bool) : appends_rows (fun m =>
    if bool_decide (length m.2 = 0%nat) || bool_decide (m.1 ∈ REPLICA_LEDGER_TABLES) then tret tt
    else (match repairNaturalKeyColumns m.1 with
          | Some keyColumns => if strict then reconcileLookupRows m.1 m.2 keyColumns else tret tt
          | None => tret tt
          end) ;! insertRows m.1 m.2 (InsertOpts strict true)).
Proof.
  split.
  - intros [t rows] Hm. exists [t]. split; [|by apply outside_one]. intros db0. preserves; [apply writes_reconcile|apply writes_insertRows; left].
  - intros [t rows] l0 P Ht HP. cbn [fst snd] in *.
    assert (t ∉ REPLICA_LEDGER_TABLES /\ repairNaturalKeyColumns t = None) as [Hl Hr].
    { clear -Ht. revert t Ht. apply Forall_forall. apply (bool_decide_eq_true_1 (Forall _ _)). vm_compute. reflexivity. }
    rewrite (bool_decide_eq_false_2 _ Hl), orb_false_r, Hr. case_bool_decide as E.
    { destruct rows; [|done]. apply after_ret. intros db [? ->]. split; [done|]. exists []. by rewrite app_nil_r. }
    eapply (after_bind _ (fun db => P db /\ rows_of db t = l0)); [by apply after_ret|]. intros _. apply after_insert_plain; [by apply ledger_plain|done].
Qed.

(** ** The rest of the transaction leaves the ledger alone *)
Lemma writes_updated u : writes (map fst u) (applyUpdatedRows u).
Proof.
  intros db0. unfold applyUpdatedRows. apply preserves_each. intros [t rows] Hm. assert (t ∈ map fst u) as Ht by (apply list_elem_of_In, (in_map fst u (t, rows)); by apply list_elem_of_In).
  cbn [fst snd]. unfold upsertRows, insertRowBatch, refuse. preserves; [apply writes_check|]. by apply writes_insertRowValues.
Qed.
Lemma writes_escrow ts : writes ["tokens"] (maybeRederiveEscrow ts).
Proof.
  intros db0. unfold maybeRederiveEscrow, rederiveEscrowGate. preserves; try (apply writes_run_stmt; left).
  all: apply preserves_query; intros db Hdb; by destruct (omap _ _).
Qed.
Lemma writes_mirror op z : writes ["validator_rewards"] (mirrorAnchorRewardReconcile op z).
Proof. intros db0. unfold mirrorAnchorRewardReconcile. preserves. apply writes_run_stmt. left. Qed.
Lemma writes_commit a b data : writes commitment_tables (updateBlockStateCommitment a b data).
Proof. intros db0. unfold updateBlockStateCommitment, collectSmtTouchedKeys, index_text. preserves; apply roots_outside. Qed.
Lemma writes_seed_roots a h : writes commitment_tables (if commitment_active a h then seedSnapshotRoots (coinTicker a) (network a) h else tret tt).
Proof. intros db0. preserves. apply seed_outside. Qed.

Lemma balanced_outside {A} ts (m : txn A) : writes ts m -> Forall (fun t => t ∉ ts) ledger_tables -> preserves balanced m.
Proof.
  intros Hw Ht f s Hb. pose proof (Hw (data s) f s (fun _ _ => eq_refl)) as Hs. rewrite Forall_forall in Ht.
  assert (forall t, t ∈ ledger_tables -> rows_of (data (m f s).1) t = rows_of (data s) t) as Hr by (intros t Hin; unfold rows_of; by rewrite Hs by (by apply Ht)).
  assert ("balances" ∈ ledger_tables /\ "credits" ∈ ledger_tables /\ "debits" ∈ ledger_tables) as (Ib & Icr & Id) by (apply (bool_decide_eq_true_1 (_ /\ _)); reflexivity).
  intros k. specialize (Hb k). unfold held, owed, net in *. rewrite ledger_rows_all in *. by rewrite !Hr.
Qed.

(** A payload of ledger rows: each table once, ids as the columns compare them, and the
    derived balances not among the rows. *)
Record ledger_payload (ts : wire_tables) (updated : option wire_tables) : Prop := {
  tables_once : NoDup (map fst ts);
  no_balances : "balances" ∉ map fst ts;
  no_ledger_updates : Forall (fun t => t ∉ map fst (default [] updated)) ledger_tables;
  ids_ok : ids_bound ts }.

Lemma grown_start db : ledger_supported db -> grown db [] [] db.
Proof. intros Hs. split_and!; try done; exists []; by rewrite app_nil_r. Qed.
Lemma after_derived db0 updated op from ts : ledger_payload ts updated -> balanced db0 ->
  after (grown db0 (rows_carried ts "credits") (rows_carried ts "debits")) (applyDerivedState updated op from ts) balanced.
Proof.
  intros Hp Hb. destruct Hp as [_ _ Hu Hids]. unfold applyDerivedState.
  eapply after_bind; [apply after_preserves|intros _].
  { destruct updated as [u|]; [|apply preserves_ret]. by eapply grown_outside; [apply writes_updated|]. }
  eapply after_bind; [apply after_preserves|intros _].
  { destruct from as [z|]; [|apply preserves_ret]. case_bool_decide; [apply preserves_ret|]. eapply grown_outside; [apply writes_mirror|].
    apply (bool_decide_eq_true_1 (Forall _ _)). reflexivity. }
  eapply after_bind; [apply after_preserves|intros _].
  { eapply grown_outside; [apply writes_escrow|]. apply (bool_decide_eq_true_1 (Forall _ _)). reflexivity. }
  pose proof (after_rebuildTouched ts db0 Hb Hids) as Hr.
  destruct (carried ts "credits") as [cs|] eqn:Ec; [exact Hr|]. destruct (carried ts "debits") as [ds|] eqn:Ed; [exact Hr|].
  unfold rows_carried. rewrite Ec, Ed. cbn [default]. apply after_ret. intros db (_ & Hbal & Hc%added_nil & Hd%added_nil) k.
  specialize (Hb k). unfold held, owed, net in *. rewrite ledger_rows_all in *. by rewrite Hbal, Hc, Hd.
Qed.

Lemma commitment_outside : Forall (fun t => t ∉ commitment_tables) ledger_tables.
Proof. apply (bool_decide_eq_true_1 (Forall _ _)). reflexivity. Qed.
Lemma after_blockBody a b updated ts db0 : dbType a = IndexerDb -> ledger_payload ts updated -> ledger_supported db0 -> balanced db0 ->
  after (fun db => db = db0) (blockBody a b updated ts) balanced.
Proof.
  intros Ha Hp Hs Hb. unfold blockBody. rewrite Ha. eapply after_bind.
  - eapply after_weaken; [|apply (after_each_ledger db0 _ ts [] [] block_appends); try done; apply Hp]. intros db ->. by apply grown_start.
  - intros _. unfold applyIndexerBlockState. eapply after_bind; [by apply after_derived|intros _].
    apply after_preserves. eapply balanced_outside; [apply writes_commit|apply commitment_outside].
Qed.
Lemma after_incrementalBody a strict h since updated ts db0 : dbType a = IndexerDb -> ledger_payload ts updated -> ledger_supported db0 -> balanced db0 ->
  after (fun db => db = db0) (incrementalBody a strict h since updated ts) balanced.
Proof.
  intros Ha Hp Hs Hb. unfold incrementalBody. rewrite Ha. eapply after_bind.
  - eapply after_weaken; [|apply (after_each_ledger db0 _ ts [] [] (snapshot_appends strict)); try done; apply Hp]. intros db ->. by apply grown_start.
  - intros _. eapply after_bind; [by apply after_derived|intros _].
    apply after_preserves. eapply balanced_outside; [apply writes_seed_roots|apply commitment_outside].
Qed.

(** The rows a block or an incremental snapshot brings. *)
Definition request_tables (q : request) : option (wire_tables * option wire_tables) :=
  match q with
  | BlockRequest p => (fun ts => (ts, p_updated_rows p)) <$> p_data p
  | IncrementalRequest p _ => (fun ts => (ts, sn_updated_rows p)) <$> sn_tables p
  | _ => None
  end.
Lemma transact_after {A} (body : txn A) landed f r r' x (Q : database -> Prop) : benign f ->
  after (fun db => db = committed r) body Q -> transact body landed f r = (r', x, Done tt) -> Q (committed r').
Proof.
  intros Hf Ha Ht. apply transact_done in Ht as (s & y & E & -> & _). specialize (Ha f (Session (committed r) (S (queries r))) y Hf eq_refl). rewrite E in Ha. by apply Ha.
Qed.

(** C11. Applying a block or a catch-up keeps the balances of the ledger: if every address
    and tick had exactly one balance row, the minimal decimal text of its credits less its
    debits (and none when they net to zero), the same holds after the apply, although only
    the addresses and ticks the payload touches are recomputed. *)
Theorem apply_keeps_balances a q ts updated landed f r r' :
  benign f -> dbType a = IndexerDb -> request_tables q = Some (ts, updated) -> ledger_payload ts updated ->
  ledger_supported (committed r) -> balanced (committed r) ->
  handle a q landed f r = (r', Done tt) -> balanced (committed r').
Proof.
  intros Hf Ha Hq Hp Hs Hb. destruct q as [p|p|p strict|rows]; cbn [request_tables handle] in *; try done.
  - unfold applyBlock. destruct (p_data p) as [data|]; [|done]. cbn in Hq. injection Hq as -> ->.
    destruct (p_block_index p) as [b|]; [|by intros [= <-]]. destruct (negb _); [done|].
    destruct (getBlockHashRow (dbType a) b f _) as [s [[]|e]]; [by intros [= <-]| |done].
    destruct (transact _ landed f _) as [[r1 x] o] eqn:E. cbn. intros [= -> ->].
    eapply (transact_after _ _ _ _ _ _ _ Hf); [|exact E]. by apply after_blockBody.
  - unfold applyIncrementalSnapshot. destruct (sn_tables p) as [data|]; [|done]. cbn in Hq. injection Hq as -> ->. destruct (negb _); [done|].
    destruct (transact _ landed f r) as [[r1 x] o] eqn:E. cbn. intros [= -> ->].
    eapply (transact_after _ _ _ _ _ _ _ Hf); [|exact E]. by apply after_incrementalBody.
Qed.
End Apply.
