(* ===== verification/ApplierRollback.v ===== *)
(** * ApplierRollback: a block applied and rolled back

    The composition of [src/src/client/applier.js] and [src/src/client/rollback.js]: a
    reorg undoes what the applier did.  For the tables that only gain rows, the rows after
    the rollback of a block are the rows before its apply, up to the columns the rollback
    resets in place. *)

From S2P Require Import Prelude Sha256 JsText JsNumber JsMap JsDouble Json Primitives GateRegistry Gates Subtrees FollowerRoots Regex Validation WireCodec Sql TableLifecycle TokenRefold Balances Rollback RollbackAtomic RollbackEffect RollbackResets RollbackInPlace RowWrites Applier ApplierAtomic ApplierMirror ApplierBalances.

#[local] Open Scope Z_scope.
#[local] Notation row := (gmap string value).
#[local] Notation cell := Sql.cell.

Section Roundtrip.
Context `{Mathjs} `{Dialect} `{Storage} `{!StorageLaws} `{CommitmentLaws}.

(** ** What an apply adds to one table *)
Lemma key_of (ts : wire_tables) t rows : (t, rows) ∈ ts -> t ∈ map fst ts.
Proof. intros Hin. apply list_elem_of_In, (in_map fst ts (t, rows)). by apply list_elem_of_In. Qed.
Lemma carried_once (ts : wire_tables) t rows : NoDup (map fst ts) -> (t, rows) ∈ ts ->
  rows_carried ts t = rows /\ NoDup ts /\ forall y, y ∈ ts -> y <> (t, rows) -> y.1 <> t.
Proof.
  revert rows. induction ts as [|[t' rows'] ts IH]; intros rows Hn Hin; [by apply elem_of_nil in Hin|]. cbn [map fst] in Hn. apply NoDup_cons in Hn as [Hm Hn].
  rewrite rows_carried_cons. cbn [fst snd]. assert (NoDup ((t', rows') :: ts)) as Hnd.
  { apply NoDup_cons. split; [intros Hk; by apply Hm, (key_of ts t' rows')|]. by apply NoDup_fmap_1 in Hn. }
  split_and!; [|done|].
  - apply elem_of_cons in Hin as [E|Hin]; [injection E as -> ->; by rewrite bool_decide_eq_true_2|].
    rewrite bool_decide_eq_false_2 by (intros ->; by apply Hm, (key_of ts t rows)). by apply IH.
  - intros [t1 r1] Hy Hne Et. cbn in Et. subst t1. apply Hne. f_equal.
    apply elem_of_cons in Hin as [E|Hin], Hy as [E'|Hy]; [congruence| | |].
    + injection E as -> ->. by destruct (Hm (key_of _ _ _ Hy)).
    + injection E' as -> ->. by destruct (Hm (key_of _ _ _ Hin)).
    + destruct (IH rows Hn Hin) as (<- & _ & _). destruct (IH r1 Hn Hy) as (<- & _ & _). done.
Qed.

(** The schema and the rows of a table are kept by a program that does not write it. *)
Lemma keyed_outside {A} tl (m : txn A) t (Q : list row -> Prop) : writes tl m -> t ∉ tl -> preserves (fun db => keyed t db /\ Q (rows_of db t)) m.
Proof.
  intros Hw Ht. apply (rows_preserved tl m t (fun o =>
    let col c := match o with Some x => bool_decide (c ∈ columns x) | None => false end in
    ((t ∈ dataTables replicaRollbackTables -> col "action_index" = true)
     /\ (t ∈ blockTables replicaRollbackTables ++ indexTables replicaRollbackTables -> col "block_index" = true))
    /\ Q (match o with Some x => rows x | None => [] end)) Hw Ht).
Qed.

Lemma after_block_inserts ts t l0 : plain_table t -> NoDup (map fst ts) ->
  after (fun db => keyed t db /\ rows_of db t = l0) (insertBlockRows ts) (fun db => keyed t db /\ added_to t (rows_carried ts t) l0 (rows_of db t)).
Proof.
  intros Hp Hn. unfold insertBlockRows.
  assert (forall m, m.1 <> t -> forall Q : list row -> Prop, preserves (fun db => keyed t db /\ Q (rows_of db t)) (insertRows m.1 m.2 no_opts)) as Hm.
  { intros m Hm Q. eapply keyed_outside; [apply writes_insertRows; left|]. by intros ->%list_elem_of_singleton. }
  destruct (decide (t ∈ map fst ts)) as [Hin|Hin].
  - apply list_elem_of_In, in_map_iff in Hin as ([t' rows] & Et & Hin%list_elem_of_In). cbn in Et. subst t'.
    destruct (carried_once ts t rows Hn Hin) as (-> & Hnd & Hy). apply (after_each_one _ _ _ _ (t, rows) Hin Hnd).
    + intros y Hyin Hne. split; [apply (Hm y (Hy y Hyin Hne) (fun l => l = l0))|apply (Hm y (Hy y Hyin Hne) (added_to t rows l0))].
    + cbn [fst snd]. apply (after_insert_plain t rows no_opts l0 (keyed t) Hp). intros db l [? ?]. by split; rewrite has_column_set_rows.
  - rewrite rows_carried_absent by done. eapply after_conseq; [|apply after_preserves, preserves_each].
    + intros db [? ->]. split; [done|]. exists []. by rewrite app_nil_r.
    + intros [t' rows] Hmin. apply (Hm (t', rows)) with (Q := fun l => l = l0). cbn. intros ->. by apply Hin, (key_of ts t rows).
Qed.

Definition derived_tables : list string := ["validator_rewards"; "tokens"; "balances"] ++ commitment_tables.
Lemma writes_derived updated op from ts : writes (map fst (default [] updated) ++ derived_tables) (applyDerivedState updated op from ts).
Proof.
  assert (forall (us : list string) A (m : txn A), us ⊆ derived_tables -> writes us m -> writes (map fst (default [] updated) ++ derived_tables) m) as Hsub.
  { intros us A m Hus. apply writes_mono. intros u Hu. apply elem_of_app. right. by apply Hus. }
  assert (["validator_rewards"] ⊆ derived_tables /\ ["tokens"] ⊆ derived_tables /\ ["balances"] ⊆ derived_tables) as (Hv & Ht & Hb).
  { split_and!; intros u ->%list_elem_of_singleton; apply (bool_decide_eq_true_1 (_ ∈ _)); reflexivity. }
  assert (forall cs ds, writes ["balances"] (rebuildBalancesTouchedBy cs ds)) as Hr.
  { intros cs ds db0. unfold rebuildBalancesTouchedBy, rebuildBalances. preserves; apply writes_run_stmt; left. }
  intros db0. unfold applyDerivedState.
  apply preserves_bind; [destruct updated as [u|]; [|apply preserves_ret]; eapply writes_mono; [|apply writes_updated]; intros v Hu; apply elem_of_app; by left|intros _].
  apply preserves_bind; [case_bool_decide; destruct from; first [apply preserves_ret|by eapply Hsub; [|apply writes_mirror]]|intros _].
  apply preserves_bind; [by eapply Hsub; [|apply writes_escrow]|intros _].
  destruct (carried ts "credits"), (carried ts "debits"); try (by eapply Hsub; [|apply Hr]). apply preserves_ret.
Qed.
Lemma derived_outside a b updated ts t Q : t ∉ map fst (default [] updated) -> t ∉ derived_tables ->
  preserves (fun db => keyed t db /\ Q (rows_of db t)) (match dbType a with IndexerDb => applyIndexerBlockState a b updated ts | DecoderDb => tret None end).
Proof.
  intros Hu Hd. apply (keyed_outside (map fst (default [] updated) ++ derived_tables)); [|by intros [?|?]%elem_of_app].
  intros db0. destruct (dbType a); [|apply preserves_ret]. unfold applyIndexerBlockState. apply preserves_bind; [apply writes_derived|intros _].
  eapply writes_mono; [|apply writes_commit]. intros u Hin. unfold derived_tables. rewrite !elem_of_app. tauto.
Qed.
Lemma after_block_rows a b updated ts t l0 :
  plain_table t -> NoDup (map fst ts) -> t ∉ map fst (default [] updated) -> t ∉ derived_tables ->
  after (fun db => keyed t db /\ rows_of db t = l0) (blockBody a b updated ts) (fun db => keyed t db /\ added_to t (rows_carried ts t) l0 (rows_of db t)).
Proof.
  intros Hp Hn Hu Hd. unfold blockBody. eapply after_bind; [by apply after_block_inserts|]. intros _.
  apply after_preserves. by apply (derived_outside a b updated ts t (added_to t (rows_carried ts t) l0)).
Qed.

(** ** Rows of one block *)

(** Every carried row of a table has the column, at or above [z]. *)
Definition keyed_rows (t c : string) (z : Z) (ts : wire_tables) : Prop :=
  auto_column t <> Some c
  /\ forall r, r ∈ rows_carried ts t -> c ∈ map fst (default [] (head (rows_carried ts t))) /\ cmp3 Ge (store t c (coerce_arg (arg r c))) (Int z) = Some true.
Lemma filled_cell_arg t cols r x c : filled t (named t cols r) x -> c ∈ cols -> auto_column t <> Some c -> cell x c = store t c (coerce_arg (arg r c)).
Proof. intros [l ->] Hc Ha. unfold cell. erewrite fill_named; [reflexivity| |by intros ?]. by rewrite named_lookup, bool_decide_eq_true_2. Qed.
Lemma added_orphans t c z ts l0 l : keyed_rows t c z ts -> added_to t (rows_carried ts t) l0 l ->
  exists added, l = l0 ++ added /\ Forall (fun x => orphan c z x = true) added.
Proof.
  intros [Ha Hk] (added & -> & Hf). exists added. split; [done|]. apply Forall_forall. intros x Hx. apply list_elem_of_lookup in Hx as [i Hi].
  destruct (Forall2_lookup_r _ _ _ _ _ Hf Hi) as (r & Hr%list_elem_of_lookup_2 & Hfill). destruct (Hk r Hr) as [Hc He].
  unfold orphan. rewrite (filled_cell_arg _ _ _ _ _ Hfill Hc Ha). by apply bool_decide_eq_true.
Qed.
Lemma survivors_added c z l0 added : (forall r, r ∈ l0 -> orphan c z r = false) -> Forall (fun x => orphan c z x = true) added -> survivors c z (l0 ++ added) = l0.
Proof.
  intros H0' Ha. unfold survivors. rewrite List.filter_app. assert (List.filter (fun r => negb (orphan c z r)) added = []) as ->.
  { induction Ha as [|x added Hx _ IH]; [done|]. cbn. by rewrite Hx. }
  rewrite app_nil_r. induction l0 as [|x l0 IH]; [done|]. cbn. rewrite H0' by left. cbn. f_equal. apply IH. intros y Hy. apply H0'. by right.
Qed.

(** The first action of the payload, as the replica stores it. *)
Definition payload_first (ts : wire_tables) : option Z :=
  min_int (omap (fun r => match store "actions" "action_index" (coerce_arg (arg r "action_index")) with Int z => Some z | _ => None end) (rows_carried ts "actions")).
Definition action_rows (b : Z) (ts : wire_tables) : Prop :=
  keyed_rows "actions" "block_index" b ts /\ auto_column "actions" <> Some "action_index"
  /\ (rows_carried ts "actions" <> [] -> "action_index" ∈ map fst (default [] (head (rows_carried ts "actions")))).
Lemma first_action_added b ts db0 db : clean "actions" "block_index" b db0 -> action_rows b ts ->
  added_to "actions" (rows_carried ts "actions") (rows_of db0 "actions") (rows_of db "actions") -> first_action b db = payload_first ts.
Proof.
  intros Hc (Hk & Ha & Hcol) Hadd. pose proof (added_orphans _ _ _ _ _ _ Hk Hadd) as (added & El & Hor). destruct Hadd as (added' & El' & Hf).
  rewrite El in El'. apply app_inv_head in El' as <-. unfold first_action, payload_first. f_equal. rewrite El, List.filter_app.
  assert (List.filter (orphan "block_index" b) (rows_of db0 "actions") = []) as ->.
  { clear -Hc. unfold clean in Hc. revert Hc. generalize (rows_of db0 "actions"). intros l. induction l as [|x l IH]; intros Hc; [done|]. cbn. rewrite Hc by left.
    apply IH. intros y Hy. apply Hc. by right. }
  assert (List.filter (orphan "block_index" b) added = added) as ->.
  { clear -Hor. induction Hor as [|x added Hx _ IH]; [done|]. cbn. by rewrite Hx, IH. }
  cbn [app]. unfold ints. set (cols := map fst (default [] (head (rows_carried ts "actions")))) in *. revert Hf Hcol. clear Hc Hk El Hor.
  generalize (rows_carried ts "actions"). intros rows Hf Hcol. assert (rows <> [] -> "action_index" ∈ cols) as Hc' by exact Hcol. clearbody cols. clear Hcol.
  induction Hf as [|r x rows added Hfill Hf IH]; [done|]. cbn. rewrite (filled_cell_arg _ _ _ _ _ Hfill (Hc' ltac:(done)) Ha).
  destruct (store "actions" "action_index" _); rewrite IH; try done; intros _; by apply Hc'.
Qed.

(** The replica is at the block before [b], and the payload is a block at [b]. *)
Record next_block (b : Z) (p : block_payload) (ts : wire_tables) (db : database) : Prop := {
  nb_height : p_block_index p = Some b;
  nb_tables : p_data p = Some ts;
  nb_once : NoDup (map fst ts);
  nb_new : Forall (fun x => cmp3 Eq (cell x "block_index") (bind (AVal (PNum b))) <> Some true) (rows_of db "blocks");
  nb_below : clean "actions" "block_index" b db;
  nb_actions : action_rows b ts;
  nb_not_updated : "actions" ∉ map fst (default [] (p_updated_rows p));
  nb_schema : keyed "actions" db }.
(** A table of the block's actions or a block-scoped table that the apply only adds rows to. *)
Record append_only (b : Z) (p : block_payload) (ts : wire_tables) (db : database) (t : string) : Prop := {
  ao_plain : plain_table t;
  ao_derived : t ∉ derived_tables;
  ao_updated : t ∉ map fst (default [] (p_updated_rows p));
  ao_schema : keyed t db;
  ao_scope : t ∈ dataTables replicaRollbackTables ++ (blockTables replicaRollbackTables ++ indexTables replicaRollbackTables);
  ao_action : t ∈ dataTables replicaRollbackTables ->
    match payload_first ts with Some z => clean t "action_index" z db /\ keyed_rows t "action_index" z ts | None => rows_carried ts t = [] end;
  ao_block : t ∈ blockTables replicaRollbackTables ++ indexTables replicaRollbackTables -> clean t "block_index" b db /\ keyed_rows t "block_index" b ts }.

Lemma applied_rows a p b ts landed f r r1 t : benign f -> next_block b p ts (committed r) -> outcome_of (applyBlock a p landed f r) = (r1, Done tt) ->
  plain_table t -> t ∉ derived_tables -> t ∉ map fst (default [] (p_updated_rows p)) -> keyed t (committed r) ->
  keyed t (committed r1) /\ added_to t (rows_carried ts t) (rows_of (committed r) t) (rows_of (committed r1) t).
Proof.
  intros Hf [Hb Hts Hn Hnew _ _ _ _] Happly Hp Hd Hu Hk. revert Happly. unfold applyBlock. rewrite Hts, Hb. destruct (negb _); [done|].
  unfold getBlockHashRow, query. cbn [sent data]. destruct (f (queries r)); [done|]. destruct (gap _ _ _); [done|]. rewrite existsb_all_false.
  - destruct (transact _ landed f _) as [[r' x] o] eqn:E. cbn. intros [= -> ->].
    apply (transact_after _ _ _ _ _ _ (fun db => keyed t db /\ added_to t (rows_carried ts t) (rows_of (committed r) t) (rows_of db t)) Hf) in E; [exact E|].
    eapply after_weaken; [|by apply after_block_rows]. cbn. by intros db ->.
  - intros x Hx. rewrite Forall_forall in Hnew. apply bool_decide_eq_false_2. by apply Hnew.
Qed.

Lemma unwound_added b ts p db t l : append_only b p ts db t -> added_to t (rows_carried ts t) (rows_of db t) l ->
  unwound b (payload_first ts) t l = rows_of db t.
Proof.
  intros [_ _ _ _ Hscope Hdata Hblock] Ht1. set (l0 := rows_of db t) in *.
  assert (t ∈ blockTables replicaRollbackTables ++ indexTables replicaRollbackTables -> survivors "block_index" b l0 = l0 /\ survivors "block_index" b l = l0) as Hsb.
  { intros Hin. destruct (Hblock Hin) as [Hcl Hk]. destruct (added_orphans _ _ _ _ _ _ Hk Ht1) as (added & -> & Hor). split; [|by apply survivors_added].
    rewrite <- (app_nil_r l0) at 1. by apply survivors_added. }
  assert (t ∈ dataTables replicaRollbackTables -> match payload_first ts with Some z => survivors "action_index" z l | None => l end = l0) as Hsa.
  { intros Hin. specialize (Hdata Hin). destruct (payload_first ts) as [z|].
    - destruct Hdata as [Hcl Hk]. destruct (added_orphans _ _ _ _ _ _ Hk Ht1) as (added & -> & Hor). by apply survivors_added.
    - rewrite Hdata in Ht1. by apply added_nil in Ht1. }
  revert Hscope Hsa Hsb. clear. unfold unwound, unwound_by.
  generalize (dataTables replicaRollbackTables), (blockTables replicaRollbackTables ++ indexTables replicaRollbackTables). intros A B Hscope Hsa Hsb.
  destruct (decide (t ∈ A)) as [HA|HA].
  - rewrite (bool_decide_eq_true_2 _ HA), (Hsa HA). case_bool_decide as HB; [by apply Hsb|done].
  - apply elem_of_app in Hscope as [?|HB]; [done|]. rewrite (bool_decide_eq_false_2 _ HA), (bool_decide_eq_true_2 _ HB).
    destruct (payload_first ts); by apply Hsb.
Qed.

(** The apply in terms of the rows it added, which the deletes by index take back. *)
Lemma added_rows b ts p db t l : append_only b p ts db t -> added_to t (rows_carried ts t) (rows_of db t) l ->
  exists added, l = rows_of db t ++ added
  /\ (t ∈ dataTables replicaRollbackTables -> match payload_first ts with
        | Some z => Forall (fun r => orphan "action_index" z r = false) (rows_of db t) /\ survivors "action_index" z (rows_of db t ++ added) = rows_of db t
        | None => added = [] end)
  /\ (t ∈ blockTables replicaRollbackTables ++ indexTables replicaRollbackTables ->
        Forall (fun r => orphan "block_index" b r = false) (rows_of db t) /\ survivors "block_index" b (rows_of db t ++ added) = rows_of db t).
Proof.
  intros Ht Hadd. pose proof Hadd as (added & El & Hf). exists added. split; [done|]. split.
  - intros Hin. pose proof (ao_action _ _ _ _ _ Ht Hin) as Ha. destruct (payload_first ts) as [z|].
    + destruct Ha as [Hcl Hk]. destruct (added_orphans _ _ _ _ _ _ Hk Hadd) as (added' & El' & Hor). rewrite El in El'. apply app_inv_head in El' as <-.
      split; [by apply Forall_forall|by apply survivors_added].
    + rewrite Ha in Hf. by apply Forall2_nil_inv_l in Hf.
  - intros Hin. destruct (ao_block _ _ _ _ _ Ht Hin) as [Hcl Hk]. destruct (added_orphans _ _ _ _ _ _ Hk Hadd) as (added' & El' & Hor).
    rewrite El in El'. apply app_inv_head in El' as <-. split; [by apply Forall_forall|by apply survivors_added].
Qed.

(** ** Tables with in-place resets *)
Lemma index_not_in_place t c : c ∈ ["action_index"; "block_index"] -> c ∉ in_place t.
Proof.
  intros Hc. assert (Forall (fun p => "action_index" ∉ p.2 /\ "block_index" ∉ p.2) CONTENT_PARITY_IN_PLACE_COLUMNS) as Hall
    by (apply (bool_decide_eq_true_1 (Forall _ _)); vm_compute; reflexivity).
  unfold in_place. destruct (List.find _ _) as [p|] eqn:E; cbn; [|apply not_elem_of_nil].
  apply List.find_some in E as [Hin%list_elem_of_In _]. rewrite Forall_forall in Hall. destruct (Hall p Hin). apply elem_of_cons in Hc as [->|Hc]; [done|]. by apply list_elem_of_singleton in Hc as ->.
Qed.

(** A part of the rows without an orphan is a part of the survivors. *)
Lemma sublist_survivors c z k l : k `sublist_of` l -> Forall (fun r => orphan c z r = false) k -> k `sublist_of` survivors c z l.
Proof.
  intros Hk Hc. assert (survivors c z k = k) as <-; [|by apply sublist_lfilter].
  apply lfilter_all. intros r Hr. rewrite Forall_forall in Hc. by rewrite Hc.
Qed.
Lemma agree_clean cs c z k l : c ∈ cs -> Forall2 (agree cs) k l -> (forall r, r ∈ l -> orphan c z r = false) -> Forall (fun r => orphan c z r = false) k.
Proof.
  intros Hc Ha Hl. apply Forall_forall. intros r [i Hi]%list_elem_of_lookup. destruct (Forall2_lookup_l _ _ _ _ _ Ha Hi) as (x & Hx%list_elem_of_lookup_2 & Hrx).
  specialize (Hl x Hx). unfold orphan in *. by rewrite (Hrx c Hc).
Qed.

(** What a rollback that ran leaves of a table, over the rows the apply left. *)
Lemma rolled_back_rows cl b landed f r1 r2 t cs l0 added z :
  benign f -> rollbackIndexer cl b landed f r1 = (r2, Done tt) -> keyed t (committed r1) -> t ∉ ["balances"; "validator_rewards"] ->
  "action_index" ∈ cs -> "block_index" ∈ cs -> (forall c, c ∈ cs -> c ∉ in_place t) ->
  first_action b (committed r1) = z -> rows_of (committed r1) t = l0 ++ added ->
  (t ∈ dataTables replicaRollbackTables -> match z with Some z => Forall (fun r => orphan "action_index" z r = false) l0 /\ survivors "action_index" z (l0 ++ added) = l0 | None => added = [] end) ->
  (t ∈ blockTables replicaRollbackTables ++ indexTables replicaRollbackTables -> Forall (fun r => orphan "block_index" b r = false) l0 /\ survivors "block_index" b (l0 ++ added) = l0) ->
  t ∈ dataTables replicaRollbackTables ++ (blockTables replicaRollbackTables ++ indexTables replicaRollbackTables) ->
  (exists kept, kept `sublist_of` l0 /\ Forall2 (agree cs) kept (rows_of (committed r2) t))
  /\ (t ∉ removal_targets -> Forall2 (agree cs) l0 (rows_of (committed r2) t)).
Proof.
  intros Hf Hrun Hkey Hb Hca Hcb Hcs Hz Hl Hact Hblk Hscope.
  destruct (rollback_ran _ _ _ _ _ _ Hf Hrun) as (db & tr & pairs & Hrows & Hkeyed & Hbody). rewrite Hz in Hbody.
  assert (t <> "balances") as Hnb by (intros ->; apply Hb; left).
  assert (trimmed_rows t cs (l0 ++ added) (committed r2)) as (kept & Hk & Ha).
  { eapply Hbody; [apply after_preserves, trimmed_body; done|]. unfold trimmed_rows. rewrite Hrows, Hl. apply trimmed_refl. }
  assert (kept `sublist_of` l0) as Hk0.
  { apply elem_of_app in Hscope as [Hin|Hin].
    - specialize (Hact Hin). destruct z as [z|]; [|by subst added; rewrite app_nil_r in Hk]. destruct Hact as [_ <-]. apply sublist_survivors; [done|].
      eapply (agree_clean cs); [exact Hca|exact Ha|]. eapply Hbody; [by apply clean_body_action|by apply Hkeyed].
    - destruct (Hblk Hin) as [_ <-]. apply sublist_survivors; [done|].
      eapply (agree_clean cs); [exact Hcb|exact Ha|]. eapply Hbody; [by apply clean_body_block|by apply Hkeyed]. }
  split; [by exists kept|]. intros Hrem.
  assert (rows_held t cs l0 (committed r2)) as (k & Hsub & Hak).
  { eapply Hbody; [apply after_preserves, held_body; [done..| |]|].
    - intros Hin z' ->. by destruct (Hact Hin).
    - intros Hin. by destruct (Hblk Hin).
    - exists l0. rewrite Hrows, Hl. split; [by apply sublist_inserts_r|]. by apply Forall2_same_length_lookup_2; [|intros i x y Hx Hy; simplify_eq]. }
  assert (kept = l0) as <-; [|done]. apply sublist_same_length; [done|]. apply sublist_length in Hsub, Hk0. apply Forall2_length in Ha, Hak. lia.
Qed.

End Roundtrip.
