(* ===== verification/ApplierUpdates.v ===== *)
(** * ApplierUpdates: rows updated in place, and blocks applied once

    Two behaviours of [src/src/client/applier.js] on rows the replica already has: the
    [updated_rows] channel overwrites them with the source's current values, and a block
    that is on the replica is not applied again. *)

From S2P Require Import Prelude Sha256 JsText JsNumber JsMap JsDouble Json Primitives GateRegistry Gates Subtrees FollowerRoots Regex Validation WireCodec Sql TableLifecycle TokenRefold Balances Rollback RollbackAtomic RollbackEffect RowWrites Applier ApplierAtomic ApplierMirror ApplierBalances ApplierRollback.

#[local] Open Scope Z_scope.
#[local] Notation row := (gmap string value).
#[local] Notation cell := Sql.cell.

Section Upsert.
Context `{Mathjs} `{Dialect} `{Storage} `{!StorageLaws}.

(** ** One upserted row *)
Lemma overwrite_cell columns r x c : c ∈ columns -> cell (overwrite columns r x) c = cell r c.
Proof.
  unfold overwrite. assert (forall x, c ∈ columns \/ cell x c = cell r c -> cell (fold_left (fun acc c => <[c := cell r c]> acc) columns x) c = cell r c) as Ho; [|by auto].
  induction columns as [|d columns IH]; intros y Hc; cbn [fold_left]; [destruct Hc as [Hc|Hc]; [by apply elem_of_nil in Hc|done]|].
  apply IH. destruct (decide (d = c)) as [->|Hd]; [right; unfold cell at 1; by rewrite lookup_insert_eq|].
  destruct Hc as [[->|Hc]%elem_of_cons|Hc]; [done|by left|]. right. unfold cell at 1. rewrite lookup_insert_ne by done. exact Hc.
Qed.
Lemma split_first_spec p l pre x post : split_first p l = Some (pre, x, post) -> l = pre ++ x :: post /\ p x = true.
Proof.
  revert pre. induction l as [|y l IH]; cbn [split_first]; intros pre; [done|]. destruct (p y) eqn:E; [by intros [= <- <- <-]|].
  destruct (split_first p l) as [[[pre' x'] post']|]; [|done]. cbn. intros [= <- <- <-]. destruct (IH pre' eq_refl) as [-> ?]. done.
Qed.

(** Every row of [done] is in the table. *)
Definition present (t : string) (columns : list string) (done : list wire_row) (l : list row) : Prop :=
  forall r, r ∈ done -> exists x, x ∈ l /\ carries t columns r x.

(** A stored row that carries an earlier row is on no key of a later one. *)
Lemma carried_no_clash t columns r r' l x k : numbered t columns r' -> differ t columns r r' -> carries t columns r x -> x ∈ l ->
  k ∈ unique_keys t -> same_key k.2 (fill t l (named t columns r')) x = false.
Proof.
  intros Hn Hd Hx Hin Hk. unfold same_key. apply not_true_is_false. rewrite forallb_forall. intros Hall.
  destruct (Hd k Hk) as [(c & Ek & Ha & Hc)|(c & Hck & Hc & Hne)].
  - rewrite Ek in Hall. specialize (Hall c (or_introl eq_refl)). apply bool_decide_eq_true in Hall. revert Hall.
    apply fill_auto; [done| |done]. by rewrite named_lookup, bool_decide_eq_false_2.
  - apply list_elem_of_In in Hck. specialize (Hall c Hck). apply bool_decide_eq_true in Hall. revert Hall.
    rewrite (filled_carries t columns r' _ Hn (ex_intro _ l eq_refl) c Hc). by rewrite (Hx c Hc).
Qed.
Lemma upsert_row_present t columns before r' l l' w : numbered t columns r' -> (forall r, r ∈ before -> differ t columns r r') ->
  insert_row t columns false true l (named t columns r') = Some (l', w) -> present t columns before l -> present t columns (before ++ [r']) l'.
Proof.
  intros Hn Hd. unfold insert_row. cbv zeta. pose proof (filled_carries t columns r' (fill t l (named t columns r')) Hn (ex_intro _ l eq_refl)) as Hc.
  destruct (conflict t l (fill t l (named t columns r'))) as [k|] eqn:Ek.
  - apply List.find_some in Ek as [Hk%list_elem_of_In _]. destruct (split_first _ l) as [[[pre x] post]|] eqn:Es; [|done].
    apply split_first_spec in Es as [El Hx]. destruct (conflict t (pre ++ post) _); [done|]. intros [= <- _] Hp r [Hr| ->%list_elem_of_singleton]%elem_of_app.
    + destruct (Hp r Hr) as (y & Hy & Hcy). exists y. split; [|done]. rewrite El in Hy. apply elem_of_app. apply elem_of_app in Hy as [Hy|[->|Hy]%elem_of_cons]; [by left| |by right; right].
      rewrite (carried_no_clash t columns r r' l x k Hn (Hd r Hr) Hcy) in Hx; [done| |done]. rewrite El. apply elem_of_app. right. left.
    + eexists. split; [apply elem_of_app; right; left|]. intros c Hcc. rewrite overwrite_cell by done. by apply Hc.
  - intros [= <- _] Hp r [Hr| ->%list_elem_of_singleton]%elem_of_app.
    + destruct (Hp r Hr) as (y & Hy & Hcy). exists y. split; [apply elem_of_app; by left|done].
    + eexists. split; [apply elem_of_app; right; left|exact Hc].
Qed.
Lemma upsert_all_present t columns new : forall before l l' w, Forall (numbered t columns) (before ++ new) -> distinct_rows t columns (before ++ new) ->
  insert_all t columns false true l (map (named t columns) new) = Some (l', w) -> present t columns before l -> present t columns (before ++ new) l'.
Proof.
  induction new as [|r new IH]; intros before l l' w Hn Hd; cbn [map insert_all].
  { intros [= <- _]. by rewrite app_nil_r. }
  destruct (insert_row t columns false true l (named t columns r)) as [[l1 w1]|] eqn:E1; [|done].
  destruct (insert_all t columns false true l1 _) as [[l2 w2]|] eqn:E2; [|done]. cbn. intros [= <- _] Hp.
  assert (before ++ r :: new = (before ++ [r]) ++ new) as Er by (by rewrite <- app_assoc). rewrite Er in *.
  eapply IH; [done|done|exact E2|]. eapply upsert_row_present; [| |exact E1|exact Hp].
  - apply Forall_app in Hn as [Hn _]. apply Forall_app in Hn as [_ Hn]. by inversion Hn.
  - intros x Hx. apply (Hd before r new x); [by rewrite <- app_assoc|done].
Qed.

(** ** A whole table *)
Definition upsert_columns (t : string) (rows : list wire_row) : list string := default [] (upsertColumns t rows).
Definition updatable (t : string) (rows : list wire_row) : Prop :=
  Forall (numbered t (upsert_columns t rows)) rows /\ distinct_rows t (upsert_columns t rows) rows.
Lemma after_upsertRows t rows : updatable t rows ->
  after (fun _ => True) (upsertRows t rows) (fun db => present t (upsert_columns t rows) rows (rows_of db t)).
Proof.
  intros [Hn Hd]. unfold upsertRows, upsert_columns in *. case_bool_decide as Er.
  { destruct rows; [|done]. apply after_ret. intros db _ r Hr. by apply elem_of_nil in Hr. }
  destruct (negb _); [apply after_throw|]. destruct (upsertColumns t rows) as [cols|]; [|apply after_throw]. cbn [default] in *.
  eapply after_bind; [apply after_check|intros _].
  assert (forall cs pre, rows = pre ++ concat cs -> after (fun db => present t cols pre (rows_of db t))
    (each cs (fun batch => do! _ := insertRowBatch t cols batch false true in tret tt)) (fun db => present t cols rows (rows_of db t))) as Hcs.
  { induction cs as [|c cs IH]; intros pre Epre; cbn [each concat] in *; [apply after_ret; intros db; by rewrite Epre, app_nil_r|].
    eapply (after_bind _ (fun db => present t cols (pre ++ c) (rows_of db t))); [|intros _; apply IH; by rewrite <- app_assoc].
    eapply (after_bind _ (fun db => present t cols (pre ++ c) (rows_of db t))); [|intros _; by apply after_ret]. unfold insertRowBatch. apply after_insertRowValues. intros db l w Hp Hdb _.
    rewrite clauses_flat, map_map. intros E. rewrite rows_of_set_rows by done. eapply upsert_all_present; [| |exact E|exact Hp].
    - rewrite Epre, app_assoc in Hn. by apply Forall_app in Hn as [Hn _].
    - intros q r post x Eq Hx. apply (Hd q r (post ++ concat cs) x); [|done]. by rewrite Epre, app_assoc, Eq, <- app_assoc. }
  eapply after_weaken; [|apply (Hcs (chunks 100 rows) [])]; [intros db _ r Hr; by apply elem_of_nil in Hr|]. by rewrite chunks_concat by lia.
Qed.
End Upsert.

Section Blocks.
Context `{Mathjs} `{Dialect} `{Storage} `{!StorageLaws} `{CommitmentLaws}.

(** ** Inside the transaction of a block *)

(** A new block: none of its height is on the replica. *)
Definition new_height (b : Z) (db : database) : Prop :=
  Forall (fun x => cmp3 Eq (cell x "block_index") (bind (AVal (PNum b))) <> Some true) (rows_of db "blocks").
Lemma applied_block a p b ts landed f r r1 (Q : database -> Prop) :
  benign f -> p_block_index p = Some b -> p_data p = Some ts -> new_height b (committed r) ->
  outcome_of (applyBlock a p landed f r) = (r1, Done tt) ->
  after (fun db => db = committed r) (blockBody a b (p_updated_rows p) ts) Q -> Q (committed r1).
Proof.
  intros Hf Hb Hts Hnew Happly HQ. revert Happly. unfold applyBlock. rewrite Hts, Hb. destruct (negb _); [done|].
  unfold getBlockHashRow, query. cbn [sent data]. destruct (f (queries r)); [done|]. destruct (gap _ _ _); [done|]. rewrite existsb_all_false.
  - destruct (transact _ landed f _) as [[r' x] o] eqn:E. cbn. intros [= -> ->]. by apply (transact_after _ _ _ _ _ _ Q Hf) in E.
  - intros x Hx. unfold new_height in Hnew. rewrite Forall_forall in Hnew. apply bool_decide_eq_false_2. by apply Hnew.
Qed.

Lemma after_updated u t rows : (t, rows) ∈ u -> NoDup (map fst u) -> updatable t rows ->
  after (fun _ => True) (applyUpdatedRows u) (fun db => present t (upsert_columns t rows) rows (rows_of db t)).
Proof.
  intros Hin Hn Hu. destruct (carried_once u t rows Hn Hin) as (_ & Hnd & Hy). unfold applyUpdatedRows. apply (after_each_one _ _ _ _ (t, rows) Hin Hnd); [|by apply after_upsertRows].
  intros [t' rows'] Hyin Hne. split; [by intros ? ?|]. apply (preserves_rows [t'] _ t (present t (upsert_columns t rows) rows)).
  - intros db0. cbn [fst snd]. unfold upsertRows, insertRowBatch, refuse. preserves; [apply writes_check|]. apply writes_insertRowValues. left.
  - intros Et%list_elem_of_singleton. by apply (Hy (t', rows') Hyin Hne).
Qed.
Lemma derived_rows_outside ts op from t (Q : list row -> Prop) : t ∉ derived_tables -> preserves (fun db => Q (rows_of db t)) (applyDerivedState None op from ts).
Proof.
  intros Hd. assert (t ∉ ["tokens"] /\ t ∉ ["validator_rewards"] /\ t ∉ ["balances"]) as (H1' & H2' & H3').
  { rewrite !list_elem_of_singleton. split_and!; intros ->; apply Hd; apply (bool_decide_eq_true_1 (_ ∈ _)); reflexivity. }
  unfold applyDerivedState. apply preserves_bind; [apply preserves_ret|intros _].
  apply preserves_bind; [destruct from; [|apply preserves_ret]; case_bool_decide; [apply preserves_ret|by eapply preserves_rows; [apply writes_mirror|]]|intros _].
  apply preserves_bind; [by eapply preserves_rows; [apply writes_escrow|]|intros _].
  assert (forall cs ds, preserves (fun db => Q (rows_of db t)) (rebuildBalancesTouchedBy cs ds)) as Hr.
  { intros cs ds. eapply (preserves_rows ["balances"]); [|done]. intros db0. unfold rebuildBalancesTouchedBy, rebuildBalances. preserves; apply writes_run_stmt; left. }
  destruct (carried ts "credits"), (carried ts "debits"); try apply Hr. apply preserves_ret.
Qed.
Lemma commit_rows_outside a b ts t (Q : list row -> Prop) : t ∉ derived_tables -> preserves (fun db => Q (rows_of db t)) (updateBlockStateCommitment a b ts).
Proof. intros Hd. eapply preserves_rows; [apply writes_commit|]. intros Hin. apply Hd. unfold derived_tables. apply elem_of_app. by right. Qed.
Lemma after_any {A} (P : database -> Prop) (m : txn A) : after P m (fun _ => True).
Proof. by intros f s x _ _ _. Qed.

(** C17. Rows the source changed in place converge: after a block that carries updated rows
    is applied, every updated row of a table the apply does not derive afterwards is on
    the replica with every carried column holding the source's value, whether the replica
    had the row or not, and whatever values it had for it. *)
Theorem updated_rows_land a p b ts u landed f r r1 t rows :
  benign f -> dbType a = IndexerDb -> p_block_index p = Some b -> p_data p = Some ts -> p_updated_rows p = Some u -> NoDup (map fst u) ->
  new_height b (committed r) -> outcome_of (applyBlock a p landed f r) = (r1, Done tt) ->
  (t, rows) ∈ u -> t ∉ derived_tables -> updatable t rows ->
  forall x, x ∈ rows -> exists y, y ∈ rows_of (committed r1) t /\ carries t (upsert_columns t rows) x y.
Proof.
  intros Hf Ha Hb Hts Hu Hn Hnew Happly Hin Hd Hup.
  eapply (applied_block _ _ _ _ _ _ _ _ (fun db => present t (upsert_columns t rows) rows (rows_of db t)) Hf Hb Hts Hnew Happly).
  rewrite Hu. unfold blockBody. rewrite Ha. eapply after_bind; [apply after_any|intros _].
  unfold applyIndexerBlockState. eapply after_bind; [|intros _; apply after_preserves; by apply (commit_rows_outside a b ts t (present t (upsert_columns t rows) rows))].
  unfold applyDerivedState. eapply after_bind; [by eapply (after_updated u t rows)|intros _].
  apply after_preserves. exact (derived_rows_outside ts Eq (Some b) t (present t (upsert_columns t rows) rows) Hd).
Qed.

(** ** A block is applied once *)
Lemma blocks_modes rows p : prepareTableRows "blocks" rows no_opts = Some p ->
  useIgnore p = false /\ useUpsert p = false /\ forall c, c <> "id" -> c ∈ map fst (default [] (head rows)) -> c ∈ columns_of p.
Proof.
  unfold prepareTableRows, prepareInsertColumns.
  assert (bool_decide ("blocks" ∈ ignoreTables) = false /\ bool_decide ("blocks" ∈ upsertFullDumpTables) = false /\ bool_decide ("blocks" ∈ localSurrogateIdOnlyTables) = false) as (-> & -> & ->)
    by (split_and!; vm_compute; reflexivity).
  change (generatedColumns "blocks") with (@nil string). change (localSurrogateIdTables "blocks") with (Some "block_index").
  change (valid_identifier "blocks") with true. rewrite (bool_decide_eq_true_2 (@nil string = [])) by done. cbn [negb andb orb].
  set (cols := List.filter _ _).
  assert (forall c, c ∈ map fst (default [] (head rows)) -> c ∈ cols) as Hcols.
  { intros c Hc. unfold cols. apply elem_of_lfilter. split; [done|]. rewrite bool_decide_eq_false_2; [done|]. apply not_elem_of_nil. }
  case_bool_decide.
  - destruct (_ || _); [done|]. destruct (natural_keys _ _ _); [|done]. intros [= <-]. split_and!; try done. intros c Hid Hc. cbn [columns_of]. apply elem_of_lfilter.
    split; [by apply Hcols|]. by rewrite bool_decide_eq_false_2.
  - intros [= <-]. split_and!; try done. intros c _ Hc. by apply Hcols.
Qed.
(** The payload has a row for its own block. *)
Definition carries_block (b : Z) (ts : wire_tables) : Prop :=
  auto_column "blocks" <> Some "block_index"
  /\ exists r, r ∈ rows_carried ts "blocks" /\ "block_index" ∈ map fst (default [] (head (rows_carried ts "blocks")))
      /\ cmp3 Eq (store "blocks" "block_index" (coerce_arg (arg r "block_index"))) (bind (AVal (PNum b))) = Some true.
Definition on_replica (b : Z) (l : list row) : Prop := exists x, x ∈ l /\ cmp3 Eq (cell x "block_index") (bind (AVal (PNum b))) = Some true.
Lemma after_insert_blocks b ts : carries_block b ts ->
  after (fun _ => True) (insertRows "blocks" (rows_carried ts "blocks") no_opts) (fun db => on_replica b (rows_of db "blocks")).
Proof.
  intros (Ha & r & Hr & Hcol & He). set (rows := rows_carried ts "blocks") in *. unfold insertRows. case_bool_decide as Er; [destruct rows; [by apply elem_of_nil in Hr|done]|].
  destruct (prepareTableRows "blocks" rows no_opts) as [p|] eqn:Ep; [|apply after_throw]. destruct (blocks_modes rows p Ep) as (Hi & Hu & Hc).
  eapply after_bind; [apply after_any|intros _]. eapply after_bind; [apply after_any|intros _].
  intros f s x Hf _ Hx. pose proof (after_plain_batches "blocks" p rows no_opts (chunks 100 rows) (rows_of (data s) "blocks") (fun _ => True) Hi Hu eq_refl (fun _ _ _ => I) f s x Hf (conj I eq_refl) Hx)
    as (_ & added & Hrows & Hadd). rewrite chunks_concat in Hadd by lia. apply list_elem_of_lookup in Hr as [i Hri].
  destruct (Forall2_lookup_l _ _ _ _ _ Hadd Hri) as (y & Hy%list_elem_of_lookup_2 & Hfill). exists y. rewrite Hrows. split; [apply elem_of_app; by right|].
  by rewrite (filled_cell_arg _ _ _ _ _ Hfill (Hc "block_index" ltac:(done) Hcol) Ha).
Qed.
Lemma after_own_block a b updated ts : carries_block b ts -> NoDup (map fst ts) -> "blocks" ∉ map fst (default [] updated) ->
  after (fun _ => True) (blockBody a b updated ts) (fun db => on_replica b (rows_of db "blocks")).
Proof.
  intros Hc Hn Hu. assert ("blocks" ∉ derived_tables) as Hd by (apply (bool_decide_eq_true_1 (_ ∉ _)); reflexivity).
  assert (exists rows, ("blocks", rows) ∈ ts) as [rows Hin].
  { destruct (decide ("blocks" ∈ map fst ts)) as [Hin|Hin].
    - apply list_elem_of_In, in_map_iff in Hin as ([t rows] & Et & Hin%list_elem_of_In). cbn in Et. subst t. by exists rows.
    - destruct Hc as (_ & r & Hr & _). rewrite rows_carried_absent in Hr by done. by apply elem_of_nil in Hr. }
  destruct (carried_once ts "blocks" rows Hn Hin) as (Er & Hnd & Hy). unfold blockBody.
  eapply (after_bind _ (fun db => on_replica b (rows_of db "blocks"))).
  - apply (after_each_one _ _ _ _ ("blocks", rows) Hin Hnd).
    + intros y Hyin Hne. split; [by intros ? ?|]. apply (preserves_rows [y.1] _ "blocks" (on_replica b)); [apply writes_insertRows; left|].
      intros E%list_elem_of_singleton. by apply (Hy y Hyin Hne).
    + cbn [fst snd]. rewrite <- Er. by apply after_insert_blocks.
  - intros _. apply after_preserves. destruct (dbType a); [|apply preserves_ret]. unfold applyIndexerBlockState. apply preserves_bind.
    + pose proof (derived_rows_outside ts Eq (Some b) "blocks" (on_replica b) Hd) as Hder. unfold applyDerivedState in Hder |- *. destruct updated as [u|]; [|exact Hder].
      apply preserves_bind; [|intros _; exact Hder]. apply (preserves_rows (map fst u) _ "blocks" (on_replica b)); [apply writes_updated|exact Hu].
    + intros _. by apply (commit_rows_outside a b ts "blocks" (on_replica b)).
Qed.

(** C18. A block is applied at most once: after a block was applied (or found to be on the
    replica), a payload for the same height changes no table, whatever it carries and
    whatever fails, and exposes no computed roots. *)
Theorem block_applied_once a p p' b ts landed landed' f f' r r1 :
  benign f -> p_block_index p = Some b -> p_data p = Some ts -> NoDup (map fst ts) -> carries_block b ts ->
  "blocks" ∉ map fst (default [] (p_updated_rows p)) ->
  outcome_of (applyBlock a p landed f r) = (r1, Done tt) -> p_block_index p' = Some b ->
  committed (applyBlock a p' landed' f' r1).1.1 = committed r1 /\ (applyBlock a p' landed' f' r1).1.2 = None.
Proof.
  intros Hf Hb Hts Hn Hc Hu Happly Hb'. assert (on_replica b (rows_of (committed r1) "blocks")) as (x & Hx & He).
  { destruct (decide (new_height b (committed r))) as [Hnew|Hold].
    - apply (applied_block a p b ts landed f r r1 (fun db => on_replica b (rows_of db "blocks")) Hf Hb Hts Hnew Happly).
      eapply after_weaken; [|by apply after_own_block]. done.
    - apply not_Forall_Exists in Hold; [|apply _]. apply Exists_exists in Hold as (x & Hx & He). apply dec_stable in He.
      revert Happly. unfold applyBlock. rewrite Hts, Hb. destruct (negb _); [done|]. unfold getBlockHashRow, query. cbn [sent data].
      destruct (f (queries r)); [done|]. destruct (gap _ _ _); [done|].
      destruct (existsb _ _) eqn:E; [intros [= <-]; by exists x|]. rewrite <- not_true_iff_false, existsb_exists in E. destruct E. exists x.
      split; [by apply list_elem_of_In|by apply bool_decide_eq_true]. }
  unfold applyBlock. rewrite Hb'. destruct (p_data p') as [ts'|]; [|done]. destruct (negb _); [done|]. unfold getBlockHashRow, query. cbn [sent data].
  destruct (f' (queries r1)); [done|]. destruct (gap _ _ _); [done|]. rewrite (proj2 (existsb_exists _ _)); [done|].
  exists x. split; [by apply list_elem_of_In|by apply bool_decide_eq_true].
Qed.
End Blocks.
