(* ===== verification/ApplierRoots.v ===== *)
(** * ApplierRoots: the applier's state commitment is the orchestrator's

    The interface [Commitment] the applier is written against, discharged by the model of
    [src/src/state_commitment/index.js] in [Orchestrator].  The orchestrator works on its
    own view of the replica: [view] reads it from the tables and [put] writes it back,
    which is assumed to touch the two tables of the commitment only. *)

From S2P Require Import Prelude Sha256 JsText JsNumber JsMap JsDouble Json Primitives SparseMerkle FixedMerkle NodeStore PersistentSMT GateRegistry Gates Subtrees FollowerRoots Regex Validation WireCodec Sql TableLifecycle TokenRefold Balances Rollback RollbackAtomic RowWrites Applier ApplierAtomic.
From S2P Require Orchestrator.

#[local] Open Scope Z_scope.

Section Roots.
Context `{HashFn} {St : Type} `{NodeStore St}.
Variables (maps : subtree_maps) (caps : list string).
Variable stake_weights : database -> Z -> string -> result (list weight_row).
Variable block_leaf_rows : database -> Z -> result block_rows.
Variable view : database -> Orchestrator.roots_state (St := St).
Variable put : Orchestrator.roots_state (St := St) -> database -> database.
Hypothesis put_outside : forall rs db, same_outside commitment_tables db (put rs db).

(** A write of the orchestrator as one step of the transaction. *)
Definition commit_step {A} (work : database -> result (Orchestrator.roots_state (St := St) * A)) : txn A :=
  query (fun db => match work db with Ok (rs, x) => Done (put rs db, x) | Throw _ => Fail refusal end).
Definition both (chain net : option string) : option (string * string) :=
  match chain, net with Some c, Some n => Some (c, n) | _, _ => None end.
#[export] Instance orchestrated : Commitment := {
  Applier.computeFollowerRoots chain net b keys first :=
    match both chain net with
    | Some (c, n) => commit_step (fun db =>
        Orchestrator.computeFollowerRoots maps caps (stake_weights db) (block_leaf_rows db) c n b keys first (view db))
    | None => refuse
    end;
  Applier.seedSnapshotRoots chain net h :=
    match both chain net with
    | Some (c, n) => tbind (commit_step (fun db =>
        Orchestrator.seedSnapshotRoots maps caps (stake_weights db) (block_leaf_rows db) c n h (view db))) (fun _ => tret tt)
    | None => refuse
    end }.

Lemma commit_step_outside {A} (work : database -> result (Orchestrator.roots_state (St := St) * A)) db0 : preserves (same_outside commitment_tables db0) (commit_step work).
Proof.
  apply preserves_query. intros db Hdb. destruct (work db) as [[rs x]|]; [|done]. intros t Ht. by rewrite (put_outside rs db t Ht), (Hdb t Ht).
Qed.
#[export] Instance orchestrated_laws : CommitmentLaws.
Proof.
  split; intros; cbn [Applier.computeFollowerRoots Applier.seedSnapshotRoots orchestrated]; destruct (both chain net) as [[c n]|].
  all: first [apply faithful_throw | apply preserves_throw | apply faithful_query | apply commit_step_outside | idtac].
  - apply faithful_bind; [apply faithful_query|intros ?; apply faithful_ret].
  - apply preserves_bind; [apply commit_step_outside|intros ?; apply preserves_ret].
Qed.

(** The applier's gate over the orchestrator is the gate [Orchestrator] models: with the
    touched keys collected, one undisturbed step gives the same roots and the same state. *)
Lemma applier_commits `{Dialect} `{Storage} a b data db n m c net keys :
  coinTicker a = Some c -> network a = Some net ->
  (if activation_block a b then keys = [] /\ m = n else collectSmtTouchedKeys data faultless (Session db n) = (Session db m, Done keys)) ->
  commitment_active a b = true ->
  match Orchestrator.updateBlockStateCommitment maps caps (stake_weights db) (block_leaf_rows db) c net b (Ok keys) (view db) with
  | Ok (rs, roots) => updateBlockStateCommitment a b data faultless (Session db n) = (Session (put rs db) (S m), Done roots)
  | Throw _ => (updateBlockStateCommitment a b data faultless (Session db n)).2 = Fail refusal
  end.
Proof.
  intros Hc Hn Hk Ha. unfold updateBlockStateCommitment, Orchestrator.updateBlockStateCommitment. rewrite Ha. cbn [negb].
  unfold commitment_active, activation_block in *. rewrite Hc, Hn in *. rewrite Ha. cbn [negb].
  destruct (isStateCommitmentActivationBlock (JInt b) net (JStr c)); [destruct Hk as [-> ->]|]; cbn [rbind]; unfold tbind; cbn [tret].
  - cbn. unfold commit_step, query. cbn. destruct (Orchestrator.computeFollowerRoots _ _ _ _ _ _ _ _ _ _) as [[rs row]|]; done.
  - rewrite Hk. cbn. unfold commit_step, query. cbn. destruct (Orchestrator.computeFollowerRoots _ _ _ _ _ _ _ _ _ _) as [[rs row]|]; done.
Qed.
End Roots.
