(* ===== verification/ApplierExample.v ===== *)
(** * ApplierExample: a block and a snapshot applied to a small replica

    The replica of [RollbackExample] at block 100, with a schema of integer and text
    columns, one AUTO_INCREMENT column and the unique keys of the tables used.  Block 101
    credits bob, records a send and slashes a stake in place. *)

From S2P Require Import Prelude Sha256 JsText JsNumber JsMap JsDouble Json Primitives GateRegistry Gates Subtrees FollowerRoots Regex Validation WireCodec Sql TableLifecycle TokenRefold Balances Rollback RollbackAtomic RollbackEffect RollbackResets RollbackBalances RowWrites Applier ApplierAtomic ApplierMirror ApplierBalances ApplierRollback ApplierUpdates.

#[local] Open Scope Z_scope.
#[local] Notation row := (gmap string value).
#[local] Notation cell := Sql.cell.

Module ApplyExample.

#[local] Instance dialect : Dialect := {| cast_decimal := fun s => default 0 (amount_units s); collate := id |}.
#[local] Instance mathjs : Mathjs := {| formatFixed := fun s _ => s; gteBoundary := fun _ => Some false |}.

(** ** A schema *)
Definition plain_bind (v : applied) : value :=
  match v with
  | AVal (PNum z) => Int z
  | AVal (PBool b) => Int (if b then 1 else 0)
  | AVal (PStr s) => Text s
  | AVal _ => Null
  | ABuf b => Text (of_utf8 b)
  end.
Definition keys (t : string) : list (string * list string) :=
  if bool_decide (t = "index_statuses") then [("PRIMARY", ["id"]); ("status", ["status"])]
  else if bool_decide (t = "index_addresses") then [("PRIMARY", ["id"])]
  else if bool_decide (t = "contract_stakes") then [("action_index", ["action_index"])]
  else if bool_decide (t = "blocks") then [("PRIMARY", ["id"])]
  else [].
Definition auto (t : string) : option string := if bool_decide (t = "blocks") then Some "id" else None.
Definition ceiling (v : value) : Z := units v / 10 ^ 18.
Definition next_id (c : string) (l : list row) : Z := 1 + fold_right (fun x m => Z.max (ceiling (cell x c)) m) 0 l.
Definition vacant (v : value) : bool := bool_decide (v = Null) || bool_decide (v = Int 0).
Definition number (t : string) (l : list row) (r : row) : row :=
  match auto t with
  | Some c => if vacant (cell r c) then <[c := Int (next_id c l)]> r else r
  | None => r
  end.
#[local] Instance storage : Storage := {|
  bind := plain_bind; store := fun _ _ => plain_bind; unique_keys := keys; auto_column := auto; fill := number;
  entry_text := fun l => join_text "-" (map value_text l); conversions := fun _ _ _ => [] |}.

Lemma next_id_above c l x : x ∈ l -> units (cell x c) < next_id c l * 10 ^ 18.
Proof.
  intros Hx. assert (ceiling (cell x c) <= fold_right (fun x m => Z.max (ceiling (cell x c)) m) 0 l) as Hle.
  { induction l as [|y l IH]; [by apply elem_of_nil in Hx|]. cbn [fold_right]. apply elem_of_cons in Hx as [<-|Hx]; [lia|]. specialize (IH Hx). lia. }
  unfold next_id. pose proof (Z.mul_succ_div_gt (units (cell x c)) (10 ^ 18) ltac:(lia)) as Hgt. unfold ceiling in Hle at 1.
  eapply Z.lt_le_trans; [exact Hgt|]. rewrite Z.mul_comm. apply Z.mul_le_mono_nonneg_r; [lia|]. unfold Z.succ. lia.
Qed.
#[local] Instance storage_laws : StorageLaws.
Proof.
  split.
  - intros t l r c v Hv Ha. cbn. unfold number. destruct (auto t) as [d|] eqn:E; [|done]. destruct (vacant (cell r d)) eqn:Ev; [|done].
    rewrite lookup_insert_ne; [done|]. intros ->. cbn in Ha. rewrite E in Ha. destruct (Ha eq_refl) as [H1 H2].
    unfold vacant, Sql.cell in Ev. rewrite Hv in Ev. cbn in Ev. rewrite !bool_decide_eq_false_2 in Ev by done. done.
  - intros t l r c x Ha Hr Hx. cbn in *. unfold number. rewrite Ha. unfold vacant. replace (cell r c) with Null by (unfold Sql.cell; by rewrite Hr).
    cbn [orb]. rewrite bool_decide_eq_true_2 by done. cbn [orb]. unfold Sql.cell at 1. rewrite lookup_insert_eq. cbn [default].
    pose proof (next_id_above c l x Hx) as Hlt. unfold cmp3, compare_values. destruct (cell x c) as [|z|s|u]; cbn [fmap option_fmap option_map units] in *; try done.
    all: unfold id; generalize dependent (next_id c l); intros n Hlt; cbn [units];
      match goal with |- context[(?a ?= ?b)%Z] => assert ((a ?= b)%Z = Datatypes.Gt) as -> by (apply Z.compare_gt_iff; lia) end; done.
Qed.

(** No block of the example is past the flag day of the commitment. *)
#[local] Instance no_commitment : Commitment := {| computeFollowerRoots := fun _ _ _ _ _ => refuse; seedSnapshotRoots := fun _ _ _ => refuse |}.
#[local] Instance no_commitment_laws : CommitmentLaws.
Proof. split; intros; first [apply faithful_throw|apply preserves_throw]. Qed.

(** ** The replica *)
#[local] Notation I z := (Int z).
Definition mk (cols : list string) (l : list (list value)) : table := Table cols (map (fun vs => list_to_map (zip cols vs)) l).
Definition block_cols : list string := ["id"; "block_index"; "block_time"; "ledger_hash_id"; "actions_hash_id"; "contract_hash_id"; "state_hash_id"].
Definition at_100 : database := list_to_map
  [("blocks", mk block_cols [[I 1; I 99; I 7; I 1; I 1; I 1; I 1]; [I 2; I 100; I 8; I 1; I 1; I 1; I 1]]);
   ("index_transactions", mk ["id"; "hash"] [[I 1; Text "aa"]]);
   ("index_statuses", mk ["id"; "status"] [[I 1; Text "valid"]]);
   ("index_addresses", mk ["id"; "address"] [[I 5; Text "alice"]; [I 6; Text "bob"]]);
   ("actions", mk ["action_index"; "block_index"; "source_id"] [[I 1; I 99; I 5]; [I 2; I 100; I 5]]);
   ("sends", mk ["action_index"; "amount"] [[I 2; Text "1"]]);
   ("contract_stakes", mk ["action_index"; "amount"] [[I 1; Text "10.0"]]);
   ("credits", mk ["action_index"; "address_id"; "tick_id"; "amount"] [[I 1; I 5; I 1; Text "20"]; [I 2; I 6; I 1; Text "1"]]);
   ("debits", mk ["action_index"; "address_id"; "tick_id"; "amount"] [[I 2; I 5; I 1; Text "1"]]);
   ("balances", mk ["address_id"; "tick_id"; "amount"] [[I 5; I 1; Text "19"]; [I 6; I 1; Text "1"]]);
   ("sync_halt", mk ["reason"] [[Text "old"]])].
Definition start : replica := Replica at_100 0.
Definition app : applier := Applier IndexerDb (Some "BTC") (Some "mainnet").
Definition never (_ : nat) : bool := false.
Definition lost (n : nat) : option dberror := if (n =? 5)%nat then Some (DbError (Some 2013) None) else None.
Lemma lost_apply_benign : benign lost.
Proof. intros n e. unfold lost. destruct (n =? 5)%nat; [|done]. by intros [= <-]. Qed.

Definition wire (cols : list string) (vals : list json) : wire_row := zip cols vals.
Definition data_101 : wire_tables :=
  [("blocks", [wire block_cols [PNum 900; PNum 101; PNum 9; PNum 1; PNum 1; PNum 1; PNum 1]]);
   ("index_addresses", [wire ["id"; "address"] [PNum 6; PStr "bob"]]);
   ("actions", [wire ["action_index"; "block_index"; "source_id"] [PNum 3; PNum 101; PNum 6]]);
   ("sends", [wire ["action_index"; "amount"] [PNum 3; PStr "0.75"]]);
   ("credits", [wire ["action_index"; "address_id"; "tick_id"; "amount"] [PNum 3; PNum 6; PNum 1; PStr "0.75"]]);
   ("debits", [wire ["action_index"; "address_id"; "tick_id"; "amount"] [PNum 3; PNum 5; PNum 1; PStr "0.75"]])].
Definition updated_101 : wire_tables := [("contract_stakes", [wire ["action_index"; "amount"] [PNum 1; PStr "7"]])].
Definition block_101 : block_payload := BlockPayload (Some 101) (Some 21) (Some data_101) (Some updated_101).
#[local] Notation applied_101 f := (outcome_of (applyBlock app block_101 never f start)).
Definition at_101 : replica := (applied_101 faultless).1.
Lemma applied_ok : applied_101 faultless = (at_101, Done tt).
Proof. vm_compute. reflexivity. Qed.

(** The replica's own block id, bob's new balance and the slashed stake. *)
Example block_101_effect :
  map (fun r => (cell r "id", cell r "block_index")) (rows_of (committed at_101) "blocks") = [(I 1, I 99); (I 2, I 100); (I 3, I 101)]
  /\ map (fun r => (cell r "address_id", cell r "amount")) (rows_of (committed at_101) "balances") = [(I 5, Text "18.25"); (I 6, Text "1.75")]
  /\ map (fun r => cell r "amount") (rows_of (committed at_101) "contract_stakes") = [Text "7"].
Proof. split_and!; vm_compute; reflexivity. Qed.

(** The connection is lost after the first tables are in. *)
Lemma apply_all_or_nothing_witness :
  (applied_101 lost).2 = Fail (DbError (Some 2013) None)
  /\ (committed (applied_101 lost).1 = at_100 \/ committed (applied_101 lost).1 = committed at_101).
Proof.
  assert ((applied_101 lost).2 = Fail (DbError (Some 2013) None)) as E by (vm_compute; reflexivity). split; [exact E|].
  pose proof (apply_all_or_nothing app (BlockRequest block_101) never lost start lost_apply_benign) as Hrun. cbv zeta in Hrun. cbn [handle] in Hrun.
  rewrite E in Hrun. exact Hrun.
Defined.

(** A ledger is balanced when the keys of its rows are. *)
Lemma balanced_check db :
  forallb (fun k => bool_decide (held db k = owed db k)) (map row_key (rows_of db "balances") ++ map fst (ledger_rows db None)) = true -> balanced db.
Proof.
  intros Hall k. rewrite forallb_forall in Hall. destruct (decide (k ∈ map row_key (rows_of db "balances") ++ map fst (ledger_rows db None))) as [Hk|Hk].
  { apply list_elem_of_In in Hk. apply Hall in Hk. by apply bool_decide_eq_true in Hk. }
  rewrite elem_of_app in Hk. unfold owed, net. rewrite group_sum_absent by tauto. cbn [Z.eqb]. unfold held. assert (k ∉ map row_key (rows_of db "balances")) as Hn by tauto.
  clear Hk Hall. induction (rows_of db "balances") as [|r l IH]; [done|]. cbn [List.filter map] in *. rewrite not_elem_of_cons in Hn.
  rewrite bool_decide_eq_false_2 by (intros E; by apply (proj1 Hn)). apply IH. tauto.
Qed.

#[local] Ltac decided := match goal with |- ?P => apply (bool_decide_eq_true_1 P); vm_compute; reflexivity end.
#[local] Ltac each_of Hin := vm_compute in Hin; repeat first [apply elem_of_cons in Hin as [->|Hin]|by apply elem_of_nil in Hin].

Lemma ids_101 : ids_bound data_101.
Proof.
  intros t c r j Ht Hc Hr. each_of Ht; each_of Hr; each_of Hc; intros [= <-] _; (split; [done|vm_compute; reflexivity]).
Qed.
Lemma apply_keeps_balances_witness : balanced (committed at_101).
Proof.
  apply (apply_keeps_balances app (BlockRequest block_101) data_101 (Some updated_101) never faultless start at_101 faultless_benign eq_refl eq_refl).
  - split; [decided|decided|decided|exact ids_101].
  - split; vm_compute; reflexivity.
  - apply balanced_check. vm_compute. reflexivity.
  - exact applied_ok.
Defined.

Lemma new_101 : new_height 101 at_100.
Proof. decided. Qed.
Lemma updated_rows_land_witness :
  Exists (fun y => cell y "action_index" = I 1 /\ cell y "amount" = Text "7") (rows_of (committed at_101) "contract_stakes").
Proof.
  destruct (updated_rows_land app block_101 101 data_101 updated_101 never faultless start at_101 "contract_stakes"
    [wire ["action_index"; "amount"] [PNum 1; PStr "7"]] faultless_benign eq_refl eq_refl eq_refl eq_refl) with (x := wire ["action_index"; "amount"] [PNum 1; PStr "7"])
    as (y & Hy & Hcar).
  - decided.
  - exact new_101.
  - exact applied_ok.
  - left.
  - decided.
  - split; [constructor; [done|constructor]|]. intros pre r post x E Hx. destruct pre as [|q [|]]; [by apply elem_of_nil in Hx|done..].
  - left.
  - apply Exists_exists. exists y. split; [exact Hy|]. split; [rewrite (Hcar "action_index")|rewrite (Hcar "amount")]; first [decided|vm_compute; reflexivity].
Defined.

(** A second payload for block 101 that would slash the stake to nothing. *)
Definition replayed : block_payload :=
  BlockPayload (Some 101) (Some 21) (Some data_101) (Some [("contract_stakes", [wire ["action_index"; "amount"] [PNum 1; PStr "0"]])]).
Lemma block_applied_once_witness : committed (applyBlock app replayed never faultless at_101).1.1 = committed at_101.
Proof.
  refine (proj1 (block_applied_once app block_101 replayed 101 data_101 never never faultless faultless start at_101 faultless_benign eq_refl eq_refl _ _ _ applied_ok eq_refl)).
  - decided.
  - split; [done|]. eexists. split; [left|]. split; [decided|vm_compute; reflexivity].
  - decided.
Defined.

(** The block orphaned: its send, its action and its block row are gone. *)
Definition client : rollback_client :=
  RollbackClient (Some "BTC") "mainnet" (Some 6) (GObj [("mainnet", UNPINNED)])
    (Registry [(MATURITY_ESCROW_REVERSAL_KEY, GateRow "height" (GObj [("mainnet", GNum 0)])); (FOLD_GATE, GateRow "height" (GObj [("mainnet", UNPINNED)]))] None) "XCHAIN".
Definition back_at_100 : replica := (rollbackIndexer client 101 never faultless at_101).1.
Lemma undone_ok : rollbackIndexer client 101 never faultless at_101 = (back_at_100, Done tt).
Proof. vm_compute. reflexivity. Qed.

(** A snapshot at block 200 of a source with other rows; it also carries a halt record of
    its own and no stakes. *)
Definition source_tables : wire_tables :=
  [("index_addresses", [wire ["id"; "address"] [PNum 6; PStr "bob"]; wire ["id"; "address"] [PNum 7; PStr "carol"]]);
   ("sends", [wire ["action_index"; "amount"] [PNum 9; PStr "3"]; wire ["action_index"; "amount"] [PNum 8; PStr "2"]]);
   ("sync_halt", [wire ["reason"] [PStr "foreign"]])].
Definition snapshot_200 : snapshot_payload := SnapshotPayload (Some source_tables) (Some 21) 200 None None.
Definition at_200 : replica := (applyFullSnapshot app snapshot_200 never faultless start).1.
Lemma snapshot_ok : applyFullSnapshot app snapshot_200 never faultless start = (at_200, Done tt).
Proof. vm_compute. reflexivity. Qed.
Lemma full_snapshot_mirrors_witness :
  Forall2 (carries "index_addresses" ["id"; "address"]) (rows_carried source_tables "index_addresses") (rows_of (committed at_200) "index_addresses")
  /\ Forall2 (carries "sends" ["action_index"; "amount"]) (rows_carried source_tables "sends") (rows_of (committed at_200) "sends")
  /\ rows_of (committed at_200) "contract_stakes" = []
  /\ committed at_200 !! "sync_halt" = at_100 !! "sync_halt".
Proof.
  pose proof (full_snapshot_mirrors app snapshot_200 source_tables never faultless start at_200 faultless_benign eq_refl snapshot_ok) as Hm. split_and!.
  - apply (Hm "index_addresses"); [decided|decided|]. split; [repeat constructor; done|]. intros _ pre r post x E Hx.
    destruct pre as [|q [|q' pre]]; [by apply elem_of_nil in Hx| |by destruct pre]. injection E as <- <- _. each_of Hx.
    intros k Hk. each_of Hk. right. exists "id". split_and!; decided.
  - apply (Hm "sends"); [decided|decided|]. split; [repeat constructor; done|]. intros Hin. exfalso. revert Hin. decided.
  - apply (Hm "contract_stakes"); decided.
  - apply (Hm "sync_halt"); decided.
Defined.
Example snapshot_200_effect :
  map (fun r => cell r "address") (rows_of (committed at_200) "index_addresses") = [Text "bob"; Text "carol"]
  /\ map (fun r => cell r "amount") (rows_of (committed at_200) "sends") = [Text "3"; Text "2"]
  /\ rows_of (committed at_200) "credits" = [].
Proof. split_and!; vm_compute; reflexivity. Qed.

(** A warning whose duplicate entry spells out the primary key's name is taken for a
    collision on the primary key, so the strict check does not see the row it lost. *)
Example quoted_primary_key :
  suspectIgnoreWarnings [Warning ER_DUP_ENTRY "Duplicate entry 'for key PRIMARY' for key 'index_memos.memo'"] = []
  /\ suspectIgnoreWarnings [Warning ER_DUP_ENTRY "Duplicate entry 'hello' for key 'index_memos.memo'"] <> [].
Proof. split; [vm_compute; reflexivity|vm_compute; discriminate]. Qed.
End ApplyExample.
