(* ===== verification/JsonPrefix.v ===== *)
(** * JsonPrefix: a document cut short is not a document

    [JSON.parse] of a text that was cut before the end of its object is a syntax error:
    what a reader has accepted it still accepts when more text follows, so no proper
    prefix of a printed object can be read as a whole. *)

From S2P Require Import Prelude JsText Json.

(** Nothing that follows can extend the value. *)
Definition closed (j : json) : Prop := match j with PNum _ => False | _ => True end.
Definition settled_by (j : json) (rest : bytes) : Prop := rest <> [] \/ closed j.

Lemma strip_prefix_more p l r q : strip_prefix p l = Some r -> strip_prefix p (l ++ q) = Some (r ++ q).
Proof.
  revert l. induction p as [|a p IH]; intros l; cbn; [by intros [= ->]|]. destruct l as [|b l]; [done|]. cbn. case_bool_decide; [apply IH|done].
Qed.
Lemma strip_one_less b l q : strip_prefix [b] l = None -> l <> [] -> strip_prefix [b] (l ++ q) = None.
Proof. destruct l as [|c l]; [done|]. cbn. by case_bool_decide. Qed.
Lemma unescape_more l s t q : unescape l = Some (s, t) -> unescape (l ++ q) = Some (s, t ++ q).
Proof.
  remember (length l) as n eqn:En. revert l s t En. induction n as [n IH] using lt_wf_ind. intros l s t ->. destruct l as [|b l]; [done|].
  cbn [unescape app]. case_bool_decide; [by intros [= <- <-]|]. case_bool_decide.
  - destruct l as [|e l]; [done|]. cbn [app]. case_bool_decide.
    + destruct l as [|x [|y [|h1 [|h2 l]]]]; try done. cbn [app]. destruct (unescape l) as [[s' t']|] eqn:E; [|done].
      intros [= <- <-]. erewrite (IH (length l)); [reflexivity|cbn; lia|done|exact E].
    + destruct (assoc_fst _ _) as [c|]; [|done]. destruct (unescape l) as [[s' t']|] eqn:E; [|done].
      intros [= <- <-]. erewrite (IH (length l)); [reflexivity|cbn; lia|done|exact E].
  - destruct (unescape l) as [[s' t']|] eqn:E; [|done]. intros [= <- <-]. erewrite (IH (length l)); [reflexivity|cbn; lia|done|exact E].
Qed.
Lemma span_digits_more l d b r q : span_digits l = (d, b :: r) -> span_digits (l ++ q) = (d, b :: r ++ q).
Proof.
  revert d. induction l as [|c l IH]; intros d; cbn; [done|]. destruct (is_digit c); [|by intros [= <- -> <-]].
  destruct (span_digits l) as [d' t'] eqn:E. intros [= <- ->]. by rewrite (IH d').
Qed.
Lemma read_number_more l j b r q : read_number l = Some (j, b :: r) -> read_number (l ++ q) = Some (j, b :: r ++ q).
Proof.
  unfold read_number. destruct (strip_prefix [c_minus] l) as [l'|] eqn:E.
  - rewrite (strip_prefix_more _ _ _ q E). destruct (span_digits l') as [d t] eqn:Ed. destruct d; [done|]. intros [= <- ->]. by rewrite (span_digits_more _ _ _ _ q Ed).
  - destruct l as [|c l]; [done|]. rewrite strip_one_less by done. destruct (span_digits (c :: l)) as [d t] eqn:Ed. destruct d; [done|]. intros [= <- ->].
    by rewrite (span_digits_more _ _ _ _ q Ed).
Qed.

(** ** Readers that accept more text and more fuel *)
Definition extends {A} (p p' : bytes -> option (A * bytes)) : Prop :=
  forall l a b r q, p l = Some (a, b :: r) -> p' (l ++ q) = Some (a, b :: r ++ q).
Lemma read_items_more {A} (p p' : bytes -> option (A * bytes)) close n n' l items t q :
  extends p p' -> (n <= n')%nat -> read_items p close n l = Some (items, t) -> read_items p' close n' (l ++ q) = Some (items, t ++ q).
Proof.
  intros Hp. revert n' l items t. induction n as [|n IH]; intros n' l items t Hn; [done|]. destruct n' as [|n']; [lia|]. cbn [read_items].
  destruct (p l) as [[a [|c r]]|] eqn:E; [done| |done]. rewrite (Hp _ _ _ _ q E). case_bool_decide; [by intros [= <- <-]|]. case_bool_decide; [|done].
  destruct (read_items p close n r) as [[items' t']|] eqn:Er; [|done]. intros [= <- <-]. erewrite (IH n' r); [reflexivity|lia|exact Er].
Qed.
Lemma read_member_more p p' : extends p p' -> extends (read_member p) (read_member p').
Proof.
  intros Hp l a b r q. unfold read_member. destruct l as [|c l]; [done|]. cbn [app]. case_bool_decide; [|done].
  destruct (unescape l) as [[k [|d t]]|] eqn:E; [done| |done]. rewrite (unescape_more _ _ _ q E). cbn [app]. case_bool_decide; [|done].
  destruct (p t) as [[v t']|] eqn:Ep; [|done]. intros [= <- ->]. by rewrite (Hp _ _ _ _ q Ep).
Qed.

Lemma read_json_more n n' l j t q : (n <= n')%nat -> read_json n l = Some (j, t) -> settled_by j t -> read_json n' (l ++ q) = Some (j, t ++ q).
Proof.
  revert n' l j t q. induction n as [|n IH]; intros n' l j t q Hn; [done|]. destruct n' as [|n']; [lia|]. destruct l as [|b r]; [done|].
  assert (extends (read_json n) (read_json n')) as Hext.
  { intros l a c t' q' E. apply (IH n' l a (c :: t')); [lia|exact E|by left]. }
  clear IH. assert (n <= n')%nat as Hle by lia. cbn [read_json app]. case_bool_decide.
  { destruct (unescape r) as [[s t']|] eqn:E; [|done]. intros [= <- <-] _. by rewrite (unescape_more _ _ _ q E). }
  case_bool_decide.
  { destruct (strip_prefix [c_rbrack] r) as [t'|] eqn:E; [intros [= <- <-] _; by rewrite (strip_prefix_more _ _ _ q E)|].
    destruct (read_items (read_json n) c_rbrack n r) as [[items t']|] eqn:Er; [|done]. intros [= <- <-] _.
    rewrite strip_one_less, (read_items_more _ _ _ _ n' _ _ _ q Hext Hle Er); [done|done|]. intros ->. destruct n; [done|]. by destruct n. }
  case_bool_decide.
  { destruct (strip_prefix [c_rbrace] r) as [t'|] eqn:E; [intros [= <- <-] _; by rewrite (strip_prefix_more _ _ _ q E)|].
    destruct (read_items (read_member (read_json n)) c_rbrace n r) as [[items t']|] eqn:Er; [|done]. intros [= <- <-] _.
    rewrite strip_one_less, (read_items_more _ _ _ _ n' _ _ _ q (read_member_more _ _ Hext) Hle Er); [done|done|]. intros ->. by destruct n. }
  assert (forall w j0, read_word w j0 (b :: r) = Some (j, t) -> settled_by j t -> read_word w j0 (b :: r ++ q) = Some (j, t ++ q)) as Hw.
  { intros w j0. unfold read_word. destruct (strip_prefix (utf8 w) (b :: r)) as [t'|] eqn:E; [|done]. intros [= <- <-] _.
    pose proof (strip_prefix_more _ _ _ q E) as E'. cbn [app] in E'. by rewrite E'. }
  case_bool_decide; [apply Hw|]. case_bool_decide; [apply Hw|]. case_bool_decide; [apply Hw|].
  intros E [Hne|Hc].
  - destruct t as [|c t]; [done|]. exact (read_number_more (b :: r) j c t q E).
  - unfold read_number in E. repeat case_match; simplify_eq; done.
Qed.

(** A text that starts a printed object and parses is the whole object. *)
Theorem parse_prefix m text more j :
  print_json (PObj m) = text ++ more -> JSON_parse (of_utf8 text) = Some j -> more = [] /\ j = PObj m.
Proof.
  intros Htext Hj. pose proof (parse_print (PObj m)) as Hall. unfold JSON_parse in *. rewrite utf8_of_utf8 in *. rewrite Htext in Hall.
  destruct (read_json (S (length text)) text) as [[j' t]|] eqn:E; [|done]. destruct t; [|done]. injection Hj as ->.
  assert (closed j) as Hc.
  { destruct text as [|b text]; [done|]. cbn [print_json app] in Htext. injection Htext as <- _. cbn [read_json] in E.
    rewrite (bool_decide_eq_false_2 (c_lbrace = c_quote)), (bool_decide_eq_false_2 (c_lbrace = c_lbrack)), (bool_decide_eq_true_2 (c_lbrace = c_lbrace)) in E by done.
    repeat case_match; simplify_eq; exact I. }
  assert (S (length text) <= S (length (text ++ more)))%nat as Hle by (rewrite length_app; lia).
  rewrite (read_json_more _ _ _ _ _ more Hle E (or_intror Hc)) in Hall. cbn [app] in Hall.
  destruct more; [by injection Hall|done].
Qed.
