(* ===== verification/ServerReads.v ===== *)
(** * ServerReads: reading the source under a snapshot and writing a response

    The server's snapshots ([src/src/server/snapshot_builder.js] and its parts) read every
    table on one connection that holds a REPEATABLE READ view and write the response piece
    by piece.  [view] is that view.  Any query may fail ([faults]) and the client may leave
    at any write ([cut]: before the chunk was accepted, or while the writer waits for
    'drain' after it); [live] is what a query on another connection of the pool sees, [None]
    when it fails.  The
    rows of the driver are parameters: [fetch] is the JavaScript value of a stored column,
    [order_by] the order in which the engine returns rows, which an ORDER BY constrains.

    Also models the finders of [src/src/db/tables/table_streaming.js],
    [src/src/db/tables/table_reads.js], [src/src/db/actions.js], [src/src/db/blocks.js] and
    [src/src/db/transactions.js] that these parts use, and
    [src/src/server/snapshot_builder/stream_writer.js]. *)

From stdpp Require Import sorting.
From S2P Require Import Prelude Sha256 JsText JsNumber JsMap JsDouble Json Primitives FollowerRoots Regex Validation WireCodec Sql TableLifecycle Balances Rollback RowWrites Applier.

#[local] Open Scope Z_scope.
#[local] Notation row := (gmap string value).
#[local] Notation cell := Sql.cell.

(** A row as the driver returns it. *)
Notation read_row := (list (string * WireCodec.cell)).

Class SourceDb := {
  fetch : string -> string -> value -> WireCodec.cell;          (* table, column *)
  order_by : list string -> list row -> list row }.
(** What the statements rely on: no row is lost or doubled, and an ORDER BY on an integer
    column is its order. *)
Definition int_cells (c : string) (l : list row) : Prop := Forall (fun r => exists z, cell r c = Int z) l.
Definition int_of (c : string) (r : row) : Z := match cell r c with Int z => z | _ => 0 end.
Class SourceLaws `{SourceDb} : Prop := {
  order_by_perm cs l : order_by cs l ≡ₚ l;
  order_by_int c l : int_cells c l -> StronglySorted (fun x y => int_of c x <= int_of c y) (order_by [c] l) }.

(** ** The server's monad *)
Record world := World { faults : schedule; cut : nat -> option bool; live : nat -> option database }.
Record serving := Serving { view : database; asked : nat; wrote : list bytes }.
Inductive stop := Aborted | Raised (e : dberror).
Definition srv (A : Type) : Type := world -> serving -> serving * (stop + A).
Definition sret {A} (a : A) : srv A := fun _ s => (s, inr a).
Definition sbind {A B} (m : srv A) (k : A -> srv B) : srv B :=
  fun w s => match m w s with (s', inr a) => k a w s' | (s', inl e) => (s', inl e) end.
Definition sthrow {A} (e : stop) : srv A := fun _ s => (s, inl e).
Definition scatch {A} (m : srv A) (h : stop -> srv A) : srv A :=
  fun w s => match m w s with (s', inl e) => h e w s' | r => r end.
Notation "'do?' x ':=' m 'in' k" := (sbind m (fun x => k)) (at level 200, x name, m at level 100, k at level 200).
Notation "m ';?' k" := (sbind m (fun _ => k)) (at level 199, right associativity).
Fixpoint seach {A} (l : list A) (k : A -> srv unit) : srv unit :=
  match l with [] => sret tt | x :: l' => k x ;? seach l' k end.

(** [catch(e){ if(!isSchemaGapError(e)) throw e; }] *)
Definition on_gap {A} (m : srv A) (d : A) : srv A :=
  scatch m (fun e => match e with Raised x => if isSchemaGapError x then sret d else sthrow e | Aborted => sthrow e end).

(** A query on the snapshot's connection; an error always propagates. *)
Definition sread {A} (work : database -> outcome A) : srv A :=
  fun w s => let s' := Serving (view s) (S (asked s)) (wrote s) in
    match faults w (asked s) with
    | Some e => (s', inl (Raised e))
    | None => match work (view s) with Done a => (s', inr a) | Fail e => (s', inl (Raised e)) end
    end.
(** A query on a pool connection outside a transaction: an error reads as no rows. *)
Definition soft_read {A} (none : A) (work : database -> outcome A) : srv A :=
  fun w s => let s' := Serving (view s) (S (asked s)) (wrote s) in
    match live w (asked s) with
    | Some db => match work db with Done a => (s', inr a) | Fail _ => (s', inr none) end
    | None => (s', inr none)
    end.
(** [doQueryStrict] on a pool connection. *)
Definition strict_read {A} (work : database -> outcome A) : srv A :=
  fun w s => let s' := Serving (view s) (S (asked s)) (wrote s) in
    match live w (asked s) with
    | Some db => match work db with Done a => (s', inr a) | Fail e => (s', inl (Raised e)) end
    | None => (s', inl (Raised refusal))
    end.
(** A step of the driver that returns nothing. *)
Definition tick : srv unit := sread (fun _ => Done tt).

(** [SnapshotStreamWriter.write]. *)
Definition put (chunk : bytes) : srv unit :=
  fun w s => match cut w (length (wrote s)) with
             | None => (Serving (view s) (asked s) (wrote s ++ [chunk]), inr tt)
             | Some false => (s, inl Aborted)
             | Some true => (Serving (view s) (asked s) (wrote s ++ [chunk]), inl Aborted)
             end.
Definition text_of (s : serving) : bytes := concat (wrote s).

Definition assertValidIdentifier (t : string) : srv unit := if valid_identifier t then sret tt else sthrow (Raised refusal).

(** ** Reads of rows *)
Section Reads.
Context `{Dialect} `{SourceDb}.

(** [SELECT a.* FROM t a JOIN ... WHERE ... ORDER BY ... LIMIT ...]; [q_cols] names the columns of
    a SELECT that lists them. *)
Record star := Star { q_table : string; q_alias : string; q_joins : from; q_where : cond; q_order : list string; q_cols : option (list string) }.
Definition Plain (t : string) (w : cond) (order : list string) : star := Star t "t" [] w order None.
Definition table_columns (db : database) (t : string) : list string := match db !! t with Some x => columns x | None => [] end.
Definition star_from (q : star) : from := (q_table q, q_alias q) :: q_joins q.
Definition star_gap (db : database) (q : star) : option Z :=
  gap db (map fst (star_from q) ++ cond_tables (q_where q))
    (cond_columns (star_from q) (q_where q) ++ map (pair (q_table q)) (q_order q ++ default [] (q_cols q))).
Definition star_rows (db : database) (q : star) : list row :=
  order_by (q_order q)
    (map (fun env => alias_row env (q_alias q)) (List.filter (fun env => satisfied db env (q_where q)) (products db (star_from q)))).
Definition as_read (t : string) (cols : list string) (r : row) : read_row := map (fun c => (c, fetch t c (cell r c))) cols.
Definition star_answer (db : database) (q : star) : list read_row :=
  map (as_read (q_table q) (default (table_columns db (q_table q)) (q_cols q))) (star_rows db q).
(** A query of one table. *)
Lemma plain_rows db t w order : star_rows db (Plain t w order) = order_by order (List.filter (fun r => satisfied db [("t", r)] w) (rows_of db t)).
Proof.
  unfold star_rows, star_from. cbn [q_order q_alias q_where q_table q_joins Plain products]. f_equal. induction (rows_of db t) as [|x l IH]; [done|].
  cbn [flat_map map app List.filter]. destruct (satisfied db [("t", x)] w); [|done]. cbn [map alias_row]. rewrite bool_decide_eq_true_2 by done. by f_equal.
Qed.
Definition find_rows (q : star) : srv (list read_row) :=
  sread (fun db => match star_gap db q with Some n => Fail (DbError (Some n) None) | None => Done (star_answer db q) end).

Definition At (c : string) : expr := Col "t" c.
Definition findRowsFromBlockIndex (t : string) (sinceBlock : Z) : srv (list read_row) :=
  find_rows (Plain t (Cmp Ge (At "block_index") (Lit (Int sinceBlock))) ["block_index"]).
Definition findRowsFromBlockKey (t key : string) (sinceBlock : Z) : srv (list read_row) :=
  find_rows (Plain t (Cmp Ge (At key) (Lit (Int sinceBlock))) [key]).
Definition findRowsFromActionIndex (t : string) (first : Z) : srv (list read_row) :=
  find_rows (Plain t (Cmp Ge (At "action_index") (Lit (Int first))) ["action_index"]).
Definition findAllRows (t : string) : srv (list read_row) := find_rows (Plain t TRUE []).
Definition findTxScopedRowsFromBlock (t : string) (sinceBlock : Z) : srv (list read_row) :=
  find_rows (Star t "t" [("transactions", "tx")]
    (And (Cmp Eq (Col "tx" "tx_index") (At "tx_index")) (Cmp Ge (Col "tx" "block_index") (Lit (Int sinceBlock)))) ["tx_index"] None).
Definition EMISSION_COLUMNS : list string := ["execution_index"; "emitted_action"; "action_index"; "position"].
Definition findEmissionRowsFromBlock (sinceBlock : Z) : srv (list read_row) :=
  find_rows (Star "contract_emissions" "em" [("contract_executions", "ce"); ("actions", "a")]
    (And (Cmp Eq (Col "ce" "action_index") (Col "em" "execution_index"))
      (And (Cmp Eq (Col "a" "action_index") (Col "ce" "action_index")) (Cmp Ge (Col "a" "block_index") (Lit (Int sinceBlock)))))
    ["execution_index"; "position"] (Some EMISSION_COLUMNS)).
(** [... WHERE col > ? ORDER BY col ASC LIMIT ?] *)
Definition findLookupPageAfter (t col : string) (after : value) (limit : nat) : srv (list read_row) :=
  sread (fun db => let q := Plain t (Cmp Gt (At col) (Lit after)) [col] in
    match star_gap db q with Some n => Fail (DbError (Some n) None) | None => Done (take limit (star_answer db q)) end).

(** The same page on a pool connection outside a transaction. *)
Definition findLookupPageAfter_pool (t col : string) (after : Z) (limit : nat) : srv (list read_row) :=
  soft_read [] (fun db => let q := Plain t (Cmp Gt (At col) (Lit (Int after))) [col] in
    match star_gap db q with Some n => Fail (DbError (Some n) None) | None => Done (take limit (star_answer db q)) end).
Definition dispenser_order : list string := ["tx_index"; "address_id"].
Definition findAllDispensers : srv (list read_row) :=
  strict_read (fun db => let q := Plain "dispensers" TRUE dispenser_order in
    match star_gap db q with Some n => Fail (DbError (Some n) None) | None => Done (star_answer db q) end).
Definition findDispensersAfter (afterTx afterAddr : Z) : srv (list read_row) :=
  strict_read (fun db => let q := Plain "dispensers"
      (Or (Cmp Gt (At "tx_index") (Lit (Int afterTx))) (And (Cmp Eq (At "tx_index") (Lit (Int afterTx))) (Cmp Gt (At "address_id") (Lit (Int afterAddr))))) dispenser_order in
    match star_gap db q with Some n => Fail (DbError (Some n) None) | None => Done (star_answer db q) end).

Definition findStreamableTableNames_conn : srv (list string) := sread (fun db => Done (map fst (map_to_list db))).
Definition getTableCount (t : string) : srv Z :=
  assertValidIdentifier t ;?
  sread (fun db => match gap db [t] [] with Some n => Fail (DbError (Some n) None) | None => Done (Z.of_nat (length (rows_of db t))) end).
Definition last_block (db : database) : option Z :=
  match max_value (map (fun r => cell r "block_index") (rows_of db "blocks")) with Int z => Some z | _ => None end.
Definition getLastBlock : srv (option Z) :=
  sread (fun db => match gap db ["blocks"] [("blocks", "block_index")] with Some n => Fail (DbError (Some n) None) | None => Done (last_block db) end).
(** The hash row fills the response headers only. *)
Definition readHashRow (kind : db_type) : srv unit :=
  sread (fun db => match gap db ["blocks"; "index_transactions"] (block_columns kind) with Some n => Fail (DbError (Some n) None) | None => Done tt end).
Definition first_from (db : database) (b : Z) : option Z :=
  min_int (ints (List.filter (fun r => bool_decide (cmp3 Ge (cell r "block_index") (Int b) = Some true)) (rows_of db "actions")) "action_index").
Definition getFirstActionIndex_conn (b : Z) : srv (option Z) :=
  sread (fun db => match gap db ["actions"] [("actions", "block_index"); ("actions", "action_index")] with
                   | Some n => Fail (DbError (Some n) None)
                   | None => Done (first_from db b)
                   end).
(** Read on a pool connection, not on the snapshot's. *)
Definition getStatusId_soft (status : string) : srv (option Z) :=
  soft_read None (fun db => match gap db ["index_statuses"] [("index_statuses", "status"); ("index_statuses", "id")] with
    | Some n => Fail (DbError (Some n) None)
    | None => Done (head (ints (List.filter (fun r => bool_decide (cmp3 Eq (cell r "status") (Text status) = Some true)) (rows_of db "index_statuses")) "id"))
    end).
End Reads.
