(* ===== verification/RowProducers.v ===== *)
(** * RowProducers: the rows a server adds to its payloads

    Models [src/src/server/cooldown_credits.js], [src/src/server/recovery_rewards.js],
    [src/src/server/derived_rewards.js], [src/src/server/reward_identity.js] and
    [src/src/server/updated_rows.js] with its parts, and the finders of
    [src/src/db/credits.js], [src/src/db/validator_rewards.js], [src/src/db/tables.js] and
    [src/src/db/index_lookups.js] they call: rows that belong to a window of blocks although
    their own action or block is older, and surviving rows the source changed in place. *)

From S2P Require Import Prelude Sha256 JsText JsNumber JsMap JsDouble Json Primitives FollowerRoots Regex Validation WireCodec Sql TableLifecycle Balances Rollback RowWrites Applier ServerReads.

#[local] Open Scope Z_scope.

(** ** Members of a row *)
Definition jv_text (v : jv) : string :=
  match v with
  | VUndef => "undefined" | VNull => "null" | VBool b => if b then "true" else "false"
  | VNum z | VBig z => string_of_int z | VStr s => s
  | VArr _ | VObj _ => json_text (default PNull (serialize v))
  end.
Definition cell_text (c : WireCodec.cell) : string := match c with Val v => jv_text v | Buf b => of_utf8 b end.
Definition read_field (r : read_row) (c : string) : option WireCodec.cell := snd <$> List.find (fun m => bool_decide (m.1 = c)) r.
Definition field_text (r : read_row) (c : string) : string := match read_field r c with Some x => cell_text x | None => "undefined" end.
Definition has_value (r : read_row) (c : string) : bool :=
  match read_field r c with None | Some (Val VNull) | Some (Val VUndef) => false | _ => true end.
Definition key_text (cs : list string) (r : read_row) : string := join_text ":" (map (field_text r) cs).

(** Append the rows of [extra] whose key is new. *)
Fixpoint append_new (key : read_row -> string) (seen : list string) (rows extra : list read_row) : list read_row :=
  match extra with
  | [] => rows
  | r :: extra' =>
      if bool_decide (key r ∈ seen) then append_new key seen rows extra'
      else append_new key (key r :: seen) (rows ++ [r]) extra'
  end.
Definition merge_rows (key : read_row -> string) (rows extra : list read_row) : list read_row := append_new key (map key rows) rows extra.
(** The last row of each key, at the position of the first. *)
Definition by_key (key : read_row -> string) (p : read_row -> bool) (rows : list read_row) : jsmap string read_row :=
  fold_left (fun m r => if p r then jm_set (key r) r m else m) rows [].

Definition between (e : expr) (lo hi : Z) : cond := And (Cmp Ge e (Lit (Int lo))) (Not (Cmp Gt e (Lit (Int hi)))).
Fixpoint conj (l : list cond) : cond := match l with [] => TRUE | [p] => p | p :: l' => And p (conj l') end.
Fixpoint disj (l : list cond) : cond := match l with [] => Not TRUE | [p] => p | p :: l' => Or p (disj l') end.

Section Producers.
Context `{Dialect} `{SourceDb}.

(** ** Matured cooldowns *)
Definition ledgerRowKey : read_row -> string := key_text ["action_index"; "address_id"; "tick_id"].
Definition findMaturedCapability (t gasTick : string) (completed from to : Z) : srv (list read_row) :=
  find_rows (Star t "c" [("unstakes", "u"); ("index_tickers", "g")]
    (conj [Cmp Eq (Col "u" "action_index") (Col "c" "action_index"); Cmp Eq (Col "u" "source_id") (Col "c" "address_id");
           Cmp Eq (Col "g" "id") (Col "c" "tick_id"); Cmp Eq (Col "g" "tick") (Lit (Text gasTick));
           Cmp Eq (Col "u" "status_id") (Lit (Int completed)); between (Col "u" "cooldown_end_block") from to]) [] None).
Definition findMaturedContract (t : string) (completed from to : Z) : srv (list read_row) :=
  find_rows (Star t "c" [("contract_unstakes", "cu")]
    (conj [Cmp Eq (Col "cu" "action_index") (Col "c" "action_index"); Cmp Eq (Col "cu" "source_id") (Col "c" "address_id");
           Cmp Eq (Col "cu" "tick_id") (Col "c" "tick_id");
           Cmp Eq (Col "cu" "status_id") (Lit (Int completed)); between (Col "cu" "cooldown_end_block") from to]) [] None).
(** [t] is credits or escrows. *)
Definition collectMatured (t gasTick : string) (from to : Z) : srv (list read_row) :=
  do? completed := getStatusId_soft "completed" in
  match completed with
  | None => sret []
  | Some done =>
      do? cap := (if bool_decide (gasTick = "") then sret [] else on_gap (findMaturedCapability t gasTick done from to) []) in
      do? con := on_gap (findMaturedContract t done from to) [] in
      sret (map snd (by_key ledgerRowKey (fun r => has_value r "action_index" && has_value r "address_id" && has_value r "tick_id") (cap ++ con)))
  end.
Definition mergeMaturedRows (rows matured : list read_row) : list read_row := merge_rows ledgerRowKey rows matured.

(** ** Backdated rewards *)
Definition REWARD_IDENTITY_COLUMNS : list string := ["source_id"; "signing_pubkey_id"; "reward_type"; "round_reference"; "round_qualifier"].
Definition validatorRewardKey : read_row -> string := key_text REWARD_IDENTITY_COLUMNS.
Definition findDerivedValidatorRewards (from to : Z) : srv (list read_row) :=
  find_rows (Star "validator_rewards" "vr" [] (And (between (Col "vr" "derive_block_index") from to) (Cmp Lt (Col "vr" "block_index") (Col "vr" "derive_block_index"))) [] None).
Definition findRedrivenValidatorRewards (from to : Z) : srv (list read_row) :=
  let vr c := Col "vr" c in let rpr c := Col "rpr" c in
  find_rows (Star "validator_rewards" "vr" [("recovery_pending_rewards", "rpr"); ("index_pubkeys", "ip")]
    (conj [Cmp Eq (rpr "source_id") (vr "source_id"); Cmp Eq (rpr "reward_type") (vr "reward_type");
           NullSafeEq (rpr "round_reference") (vr "round_reference"); Cmp Eq (rpr "amount") (vr "amount");
           Cmp Eq (rpr "block_index") (vr "block_index"); Cmp Eq (Col "ip" "id") (vr "signing_pubkey_id");
           Cmp Eq (Col "ip" "pubkey") (rpr "validator_pubkey"); Cmp Eq (rpr "applied") (Lit (Int 1)); IsNotNull (rpr "applied_block");
           between (rpr "applied_block") from to; Cmp Lt (vr "block_index") (rpr "applied_block")]) [] None).
Definition reward_rows (m : srv (list read_row)) : srv (list read_row) :=
  do? rows := on_gap m [] in
  sret (map snd (by_key validatorRewardKey (fun r => has_value r "source_id" && has_value r "signing_pubkey_id") rows)).
Definition collectRedrivenValidatorRewards (from to : Z) : srv (list read_row) := reward_rows (findRedrivenValidatorRewards from to).
Definition collectDerivedAnchorRewards (from to : Z) : srv (list read_row) := reward_rows (findDerivedValidatorRewards from to).
Definition appendNewRewardRows (rows extra : list read_row) : list read_row := merge_rows validatorRewardKey rows extra.

(** ** Rows changed in place *)
Notation updates := (jsmap string (jsmap string read_row)).
Definition add (acc : updates) (t : string) (rows : list read_row) : updates :=
  match rows with
  | [] => acc
  | _ => jm_set t (fold_left (fun m r => if has_value r "action_index" then jm_set (field_text r "action_index") r m else m) rows (default [] (jm_get t acc))) acc
  end.
(** One class of changes: a query whose schema gap is skipped. *)
Definition update_class : Type := string * star.
Definition collect_class (acc : updates) (c : update_class) : srv updates := on_gap (do? rows := find_rows c.2 in sret (add acc c.1 rows)) acc.
Fixpoint collect_all (cs : list update_class) (acc : updates) : srv updates :=
  match cs with [] => sret acc | c :: cs' => do? acc := collect_class acc c in collect_all cs' acc end.

Definition DEACTIVATION_TABLES : list string := ["stakes"; "delegations"; "contract_stakes"; "contract_delegations"].
Definition SLASH_SPECS : list (string * string) :=
  [("contract_stakes", "contract_slash_debits"); ("contract_unstakes", "contract_slash_debits"); ("stakes", "capability_slash_debits"); ("unstakes", "capability_slash_debits")].
Definition ROTATION_TABLES : list string := ["contract_stakes"; "contract_unstakes"].
Definition REQUEST_STATUS_TABLES : list string := ["attests"; "xcalls"].
Definition POLL_FINALIZE_TABLES : list string := ["polls"].
Definition COOLDOWN_STATUS_TABLES : list string := ["unstakes"; "contract_unstakes"].
Definition BET_STATUS_SPECS : list (string * list string) := [("bet_feeds", ["closed_block"; "terminal_block"]); ("bets", ["settled_block"])].

Definition deactivation_stamped (from to : Z) (t : string) : update_class :=
  (t, Plain t (And (IsNotNull (At "deactivation_block")) (between (At "deactivation_block") from to)) []).
(** The row a journal entry of the window names. *)
Definition journalled (journal target : string) (from to : Z) (t : string) : update_class :=
  (t, Star t "t" [(journal, "d")]
    (conj [Cmp Eq (Col "d" "stake_action_index") (At "action_index"); Cmp Eq (Col "d" "target_table") (Lit (Text target)); between (Col "d" "block_index") from to]) [] None).
Definition resolved_request (from to : Z) (t : string) : update_class :=
  (t, Plain t (And (Cmp Eq (At "version") (Lit (Int 0))) (between (At "resolved_block") from to)) []).
Definition finalized_poll (from to : Z) (t : string) : update_class :=
  (t, Plain t (Or (between (At "resolved_block") from to) (And (between (At "callback_due_block") from to) (IsNotNull (At "callback_execute_action_index")))) []).
Definition matured_cooldown (from to : Z) (t : string) : update_class := (t, Plain t (between (At "cooldown_end_block") from to) []).
Definition bet_stamped (from to : Z) (spec : string * list string) : update_class := (spec.1, Plain spec.1 (disj (map (fun c => between (At c) from to) spec.2)) []).
(** A DISTINCT of rows reached through several chunks; [add] keeps one of each anyway. *)
Definition invalid_archive (from to : Z) : update_class :=
  ("anchor_actions", Star "anchor_actions" "p" [("anchor_actions", "c"); ("index_statuses", "ps"); ("index_statuses", "cs")]
    (conj [Cmp Eq (Col "c" "version") (Lit (Int 2)); Cmp Eq (Col "c" "match_batch_seq") (Col "p" "match_batch_seq");
           Cmp Eq (Col "ps" "id") (Col "p" "status_id"); Cmp Eq (Col "ps" "status") (Lit (Text "invalid_archive"));
           Cmp Eq (Col "cs" "id") (Col "c" "status_id"); Cmp Eq (Col "cs" "status") (Lit (Text "valid"));
           archiveHeadPredicate "p"; Cmp Eq (Col "p" "version") (Lit (Int 1)); between (Col "c" "block_index_doge") from to]) [] None).
Definition failed_batch_head (from to : Z) : update_class :=
  let ah c := Col "ah" c in let ac c := Col "ac" c in
  ("attests", Star "attests" "ah" [("index_statuses", "ahs"); ("actions", "aha"); ("attests", "ac"); ("index_statuses", "acs"); ("actions", "aca")]
    (conj [Cmp Eq (Col "ahs" "id") (ah "status_id"); EndsWith (Col "ahs" "status") ATTEST_BATCH_COMPLETION_STAMP;
           Cmp Eq (Col "aha" "action_index") (ah "action_index"); Cmp Eq (ac "request_id") (ah "request_id");
           Cmp Eq (ac "version") (Lit (Int ATTEST_BATCH_CONTINUATION_VERSION)); IsNotNull (ac "batch_chunk_index");
           Cmp Eq (ac "batch_total_chunks") (ah "batch_total_chunks"); Cmp Eq (ac "batch_crc32") (ah "batch_crc32");
           Cmp Eq (Col "acs" "id") (ac "status_id"); Cmp Eq (Col "acs" "status") (Lit (Text "valid"));
           Cmp Eq (Col "aca" "action_index") (ac "action_index"); Cmp Eq (Col "aca" "source_id") (Col "aha" "source_id");
           Cmp Eq (ah "version") (Lit (Int ATTEST_BATCH_HEAD_VERSION)); Cmp Eq (ah "batch_chunk_index") (Lit (Int 0));
           between (ac "block_index") from to]) [] None).
(** [t.tick_id IN (... UNION ...)] *)
Definition touched_ticks (from to : Z) (ledger : string) : cond :=
  InQ (At "tick_id") [(ledger, "l"); ("actions", "a")]
    (conj [Cmp Eq (Col "a" "action_index") (Col "l" "action_index"); between (Col "a" "block_index") from to; IsNotNull (Col "l" "tick_id")]) (Col "l" "tick_id").
Definition ledger_touched (from to : Z) : update_class :=
  ("tokens", Plain "tokens" (disj (map (touched_ticks from to) ["credits"; "debits"; "escrows"])) []).
Definition edited_tokens (from to : Z) : update_class :=
  ("tokens", Plain "tokens" (InQ (At "tick_id") [("issues", "i"); ("actions", "a"); ("index_statuses", "s")]
    (conj [Cmp Eq (Col "a" "action_index") (Col "i" "action_index"); Cmp Eq (Col "s" "id") (Col "i" "status_id"); Cmp Eq (Col "s" "status") (Lit (Text "valid"));
           between (Col "a" "block_index") from to; IsNotNull (Col "i" "tick_id")]) (Col "i" "tick_id")) []).
Definition settled_matches (from to : Z) : update_class :=
  ("order_matches", Plain "order_matches" (And (Cmp Eq (At "settlement_type") (Lit (Text "coinpay")))
    (InQ (At "action_index") [("coinpay_statuses", "cs"); ("actions", "a"); ("index_statuses", "si")]
      (conj [Cmp Eq (Col "a" "action_index") (Col "cs" "action_index"); Cmp Eq (Col "si" "id") (Col "cs" "status_id"); Cmp Eq (Col "si" "status") (Lit (Text "fulfilled"));
             between (Col "a" "block_index") from to]) (Col "cs" "coinpay_action_index"))) []).

Definition collectDeactivationAndSlashRows (from to : Z) (delay : option Z) (acc : updates) : srv updates :=
  do? acc := (match delay with Some d => collect_all (map (deactivation_stamped (from + d) (to + d)) DEACTIVATION_TABLES) acc | None => sret acc end) in
  collect_all (map (fun s => journalled s.2 s.1 from to s.1) SLASH_SPECS) acc.
Definition collectRotationAndRequestRows (from to : Z) (acc : updates) : srv updates :=
  do? acc := collect_all (map (fun t => journalled "contract_delegation_rotations" t from to t) ROTATION_TABLES) acc in
  collect_all (map (resolved_request from to) REQUEST_STATUS_TABLES) acc.
Definition collectPollAndCooldownRows (from to : Z) (acc : updates) : srv updates :=
  do? acc := collect_all (map (finalized_poll from to) POLL_FINALIZE_TABLES) acc in
  collect_all (map (matured_cooldown from to) COOLDOWN_STATUS_TABLES) acc.
Definition collectBetStatusRows (from to : Z) (acc : updates) : srv updates := collect_all (map (bet_stamped from to) BET_STATUS_SPECS) acc.
Definition collectInvalidArchiveRows (from to : Z) (acc : updates) : srv updates := collect_class acc (invalid_archive from to).
Definition collectAttestBatchHeadRows (from to : Z) (acc : updates) : srv updates := collect_class acc (failed_batch_head from to).
Definition collectTokenSupplyRows (from to : Z) (acc : updates) : srv updates := collect_class acc (ledger_touched from to).
Definition collectTokenEditRows (from to : Z) (acc : updates) : srv updates := collect_class acc (edited_tokens from to).
Definition collectCoinpayMatchRows (from to : Z) (acc : updates) : srv updates := collect_class acc (settled_matches from to).
Definition collectUpdatedRows (from to : Z) (delay : option Z) : srv (list (string * list read_row)) :=
  do? acc := collectDeactivationAndSlashRows from to delay [] in
  do? acc := collectRotationAndRequestRows from to acc in
  do? acc := collectPollAndCooldownRows from to acc in
  do? acc := collectBetStatusRows from to acc in
  do? acc := collectInvalidArchiveRows from to acc in
  do? acc := collectAttestBatchHeadRows from to acc in
  do? acc := collectTokenSupplyRows from to acc in
  do? acc := collectTokenEditRows from to acc in
  do? acc := collectCoinpayMatchRows from to acc in
  sret (List.filter (fun m => negb (bool_decide (length m.2 = 0%nat))) (map (fun m => (m.1, map snd m.2)) acc)).
End Producers.
