(* ===== verification/SnapshotBuilder.v ===== *)
(** * SnapshotBuilder: snapshots served to followers

    Models [src/src/server/snapshot_builder.js] with [snapshot_builder/full_snapshot.js],
    [snapshot_builder/incremental_snapshot.js], [snapshot_builder/table_streaming.js] and
    the incremental sets of [snapshot_builder/table_sets.js], and
    [src/src/db/pool_sizing.js] as far as it bounds the concurrent streams.

    A response is the text written to it ([text_of]).  Headers, the status texts and the
    compression are not modelled: [Served] is a stream that ran to its end, [NotFound] and
    [BadRequest] are the answers given before any text. *)

From S2P Require Import Prelude Sha256 JsText JsNumber JsMap JsDouble Json Primitives FollowerRoots Regex Validation WireCodec Sql TableLifecycle Balances Rollback RowWrites Applier ServerReads RowProducers.

#[local] Open Scope Z_scope.

Inductive answer_kind := Served | NotFound | BadRequest.

(** ** The slots of concurrent streams *)

(** [toUpperCase] of an ASCII text, and [parseInt(s, 10)]. *)
Definition upper_byte (b : byte) : byte := let z := b2z b in if (97 <=? z) && (z <=? 122) then z2b (z - 32) else b.
Definition to_upper (s : string) : string := of_utf8 (map upper_byte (utf8 s)).
Definition parse_int10 (s : string) : option Z :=
  let '(sg, l) := strip_sign (trim_start (utf8 s)) in
  match (span_digits l).1 with [] => None | ds => (fun m => sg * m) <$> to_double (dec_val ds) end.

Definition DEFAULT_POOL_SIZE (dbType : string) : Z := if bool_decide (dbType = "decoder") then 6 else 12.
Definition MIN_POOL_SIZE : Z := 2.
Definition MAX_POOL_SIZE : Z := 100.
Definition normalizeDbType (dbType : option string) : string :=
  match dbType with None | Some "" => "indexer" | Some s => to_lower (of_utf8 (trim (utf8 s))) end.
(** The environment as a function of the name. *)
Definition blank (s : string) : bool := bool_decide (trim (utf8 s) = []).
Definition readEnvOverride (env : string -> option string) (name dbType : string) : option string :=
  let get k := match env k with Some s => if blank s then None else Some s | None => None end in
  match get (name +:+ "_" +:+ to_upper dbType)%string with Some s => Some s | None => get name end.
Definition parsePositiveInt (raw : option string) : option Z :=
  match raw with
  | Some s => match parse_int10 s with Some z => if 0 <? z then Some z else None | None => None end
  | None => None
  end.
Definition resolvePoolSize (env : string -> option string) (dbType : option string) : Z :=
  let type := normalizeDbType dbType in
  let wanted := default (DEFAULT_POOL_SIZE type) (parsePositiveInt (readEnvOverride env "DB_POOL_SIZE" type)) in
  Z.max MIN_POOL_SIZE (Z.min MAX_POOL_SIZE wanted).
(** [limit] is [connectionPoolParams.connectionLimit], [asked] is [parseInt] of
    MAX_CONCURRENT_SNAPSHOTS. *)
Definition pool_size (env : string -> option string) (dbType : option string) (limit : option Z) : Z :=
  match limit with Some z => if z =? 0 then resolvePoolSize env dbType else z | None => resolvePoolSize env dbType end.
Definition snapshotCap (poolSize : Z) (asked : option Z) : Z := Z.max 1 (Z.min (default (poolSize - 2) asked) (poolSize - 1)).

Section Slots.
Context {K : Type} `{Countable K}.
#[local] Notation slots := (gmap K Z).
Definition inflight (m : slots) (db : K) : Z := default 0 (m !! db).
(** [None] is 503. *)
Definition acquireSnapshotSlot (cap : Z) (db : K) (m : slots) : option slots :=
  if cap <=? inflight m db then None else Some (<[db := inflight m db + 1]> m).
Definition releaseSnapshotSlot (db : K) (m : slots) : slots :=
  if inflight m db <=? 1 then delete db m else <[db := inflight m db - 1]> m.
End Slots.

Section Builder.
Context `{Dialect} `{SourceDb}.

(** ** Texts *)
Definition q_ : string := of_utf8 [c_quote].
Definition quoted (t : string) : bytes := utf8 (q_ +:+ t +:+ q_)%string.
Definition row_chunk (r : read_row) : bytes := default [] (row_text r).
(** The rows of an array, comma separated. *)
Fixpoint put_rows (first : bool) (rows : list read_row) : srv unit :=
  match rows with
  | [] => sret tt
  | r :: rows' => (if first then sret tt else put [c_comma]) ;? put (row_chunk r) ;? put_rows false rows'
  end.
Definition open_table (first : bool) (t : string) : srv unit :=
  (if first then sret tt else put [c_comma]) ;? put (quoted t ++ utf8 ":[").

Definition getOrderedTables : srv (list string) :=
  do? names := findStreamableTableNames_conn in
  sret (orderSnapshotTables (List.filter (fun t => negb (bool_decide (t ∈ OPERATOR_LOCAL_TABLES)) && negb (bool_decide (t ∈ SOURCE_UNSTREAMED_TABLES))
                                                   && negb (bool_decide (t ∈ REPLICA_LEDGER_TABLES))) names)).

(** ** The full snapshot *)

(** The rows of a stream arrive one by one; each step of the driver may fail. *)
Fixpoint stream_rows (first : bool) (rows : list read_row) : srv unit :=
  match rows with
  | [] => tick
  | r :: rows' => tick ;? (if first then sret tt else put [c_comma]) ;? put (row_chunk r) ;? stream_rows false rows'
  end.
(** [SELECT * FROM t ORDER BY 1] *)
Definition streamTableRows (t : string) : srv (list read_row) :=
  assertValidIdentifier t ;?
  sread (fun db => match gap db [t] [] with
                   | Some n => Fail (DbError (Some n) None)
                   | None => Done (map (as_read t (table_columns db t)) (order_by (take 1 (table_columns db t)) (rows_of db t)))
                   end).
Fixpoint stream_tables (first : bool) (tables : list string) : srv unit :=
  match tables with
  | [] => sret tt
  | t :: tables' =>
      do? count := getTableCount t in
      if count =? 0 then stream_tables first tables'
      else
        open_table first t ;?
        do? rows := streamTableRows t in
        stream_rows true rows ;? put [c_rbrack] ;? stream_tables false tables'
  end.
Definition streamFullSnapshotTables : srv unit := do? tableOrder := getOrderedTables in stream_tables true tableOrder.
Definition snapshot_head (kind : db_type) (lastBlock : Z) : bytes :=
  utf8 ("{" +:+ q_ +:+ "schema_version" +:+ q_ +:+ ":" +:+ string_of_int (SCHEMA_VERSION kind) +:+ "," +:+ q_ +:+ "block_height" +:+ q_ +:+ ":" +:+ string_of_int lastBlock)%string.
Definition tables_open : bytes := utf8 ("," +:+ q_ +:+ "tables" +:+ q_ +:+ ":{")%string.
Definition beginReadSnapshot : srv unit := tick ;? tick.
Definition commitReadSnapshot : srv unit := tick.
Definition streamFullSnapshotLocked (kind : db_type) : srv answer_kind :=
  beginReadSnapshot ;?
  do? lastBlock := getLastBlock in
  match lastBlock with
  | None => commitReadSnapshot ;? sret NotFound
  | Some b =>
      readHashRow kind ;?
      put (snapshot_head kind b ++ tables_open) ;?
      streamFullSnapshotTables ;?
      put (utf8 "}}") ;? commitReadSnapshot ;? sret Served
  end.

(** ** The incremental snapshot *)
Definition decoder_skip : list string := ["mempool_transactions"; "dispensers"; "dispenser_extension_undo"].
Definition indexerBlockScopedSet : list string := blockScoped (getTopology false) ++ ["sync_meta"].
Definition indexerFullDumpSet : list string := index (getTopology false) ++ ["merkle_epochs"; "markets"; "attest_validator_stats"; "events"; "pubkeys"].
Definition INDEXER_INCREMENTAL_SKIP : list string := ["balances"; "state_tree_nodes"].
Definition INDEXER_INBAND_PAGED (t : string) : option string :=
  if bool_decide (t = "events") then Some "id" else if bool_decide (t = "pubkeys") then Some "address_id" else None.
Definition lookupCursorColumn (t : string) : string := "id".
Definition pageSize : nat := 10000.

Record select_ctx := SelectCtx {
  x_kind : db_type; x_since : Z; x_last : Z; x_skipLookups : bool; x_first : option Z; x_gasTick : string }.
Definition lookupSet (kind : db_type) : list string := index (getTopology (match kind with DecoderDb => true | IndexerDb => false end)).
Definition buildIncrementalSelectCtx (kind : db_type) (gasTick : string) (since last : Z) (skipLookups : bool) : srv select_ctx :=
  match kind with
  | IndexerDb => do? first := getFirstActionIndex_conn since in sret (SelectCtx kind since last skipLookups first gasTick)
  | DecoderDb => sret (SelectCtx kind since last skipLookups None gasTick)
  end.

Definition some_rows (m : srv (list read_row)) : srv (option (list read_row)) := do? l := m in sret (Some l).
Definition selectDecoderRows (x : select_ctx) (t : string) : srv (option (list read_row)) :=
  let top := getTopology true in
  if bool_decide (t ∈ decoder_skip) then sret None
  else if bool_decide (t ∈ blockScoped top) then some_rows (findRowsFromBlockIndex t (x_since x))
  else if bool_decide (t ∈ txScoped top) then some_rows (findTxScopedRowsFromBlock t (x_since x))
  else if bool_decide (t ∈ index top) then
    if x_skipLookups x && bool_decide (t ∈ lookupSet DecoderDb) then sret None else some_rows (findAllRows t)
  else sret None.
Definition selectIndexerRows (x : select_ctx) (t : string) : srv (option (list read_row)) :=
  if bool_decide (t ∈ indexerBlockScopedSet) then some_rows (findRowsFromBlockKey t (blockKey t) (x_since x))
  else if bool_decide (t ∈ indexerFullDumpSet) then
    if x_skipLookups x && bool_decide (t ∈ lookupSet IndexerDb) then sret None else some_rows (findAllRows t)
  else if bool_decide (t ∈ INDEXER_INCREMENTAL_SKIP) then sret None
  else if bool_decide (t = "contract_emissions") then on_gap (some_rows (findEmissionRowsFromBlock (x_since x))) None
  else match x_first x with
       | Some first => on_gap (some_rows (findRowsFromActionIndex t first)) None
       | None => if bool_decide (t ∈ ["credits"; "escrows"]) then sret (Some []) else sret None
       end.
Definition mergeMaturedCooldownRows (x : select_ctx) (t : string) (rows : list read_row) : srv (list read_row) :=
  on_gap (do? matured := collectMatured t (x_gasTick x) (x_since x) (x_last x) in sret (mergeMaturedRows rows matured)) rows.
Definition reward_channel (rows : list read_row) (collect : srv (list read_row)) : srv (list read_row) :=
  on_gap (do? extra := collect in sret (appendNewRewardRows rows extra)) rows.
Definition mergeValidatorRewardRows (x : select_ctx) (rows : list read_row) : srv (list read_row) :=
  do? rows := reward_channel rows (collectRedrivenValidatorRewards (x_since x) (x_last x)) in
  reward_channel rows (collectDerivedAnchorRewards (x_since x) (x_last x)).
Definition selectIncrementalRows (x : select_ctx) (t : string) : srv (option (list read_row)) :=
  do? selected := (match x_kind x with DecoderDb => selectDecoderRows x t | IndexerDb => selectIndexerRows x t end) in
  match selected, x_kind x with
  | None, _ => sret None
  | Some rows, DecoderDb => sret (Some rows)
  | Some rows, IndexerDb =>
      do? rows := (if bool_decide (t ∈ ["credits"; "escrows"]) then mergeMaturedCooldownRows x t rows else sret rows) in
      do? rows := (if bool_decide (t = "validator_rewards") then mergeValidatorRewardRows x rows else sret rows) in
      sret (Some rows)
  end.

(** [Number(page[page.length - 1][col])] as the next cursor; a value that is no number
    compares with no row. *)
Definition cursor_of (col : string) (page : list read_row) : value :=
  match last page with
  | Some r => match read_field r col with
              | Some (Val (VNum z)) | Some (Val (VBig z)) => Int z
              | Some (Val (VStr s)) => match num_integer (js_number (JStr s)) with Some z => Int z | None => Null end
              | _ => Null
              end
  | None => Null
  end.
Definition cursor_number (col : string) (page : list read_row) (d : Z) : Z :=
  match page with [] => d | _ => match cursor_of col page with Int z => z | _ => 0 end end.
(** The pages of a table after the cursor; every page but the last is full, so the number
    of rows bounds the pages. *)
Fixpoint page_loop (fuel n : nat) (t col : string) (after : value) (first firstRow : bool) : srv (bool * bool) :=
  match fuel with
  | O => sret (first, firstRow)
  | S fuel' =>
      do? page := findLookupPageAfter t col after n in
      if bool_decide (length page = 0%nat) then sret (first, firstRow)
      else
        (if firstRow then open_table first t else sret tt) ;?
        put_rows firstRow page ;?
        if bool_decide (length page < n)%nat then sret (false, false)
        else page_loop fuel' n t col (cursor_of col page) false false
  end.
Definition row_count (t : string) : srv nat := fun _ s => (s, inr (length (rows_of (view s) t))).
Definition streamLookupPaged (t col : string) (first : bool) : srv bool :=
  do? fuel := row_count t in
  do? flags := page_loop (S fuel) pageSize t col (Int 0) first true in
  let '(first', firstRow) := flags in
  (if firstRow then sret tt else put [c_rbrack]) ;? sret (if firstRow then first else false).

Definition writeIncrementalTableRows (t : string) (rows : list read_row) (first : bool) : srv bool :=
  open_table first t ;? put_rows true rows ;? put [c_rbrack] ;? sret false.
Definition full_dumped (kind : db_type) (t : string) : bool :=
  match kind with DecoderDb => bool_decide (t ∈ index (getTopology true)) | IndexerDb => bool_decide (t ∈ indexerFullDumpSet) end.
Definition inband_cursor (kind : db_type) (t : string) : option string :=
  match kind with IndexerDb => if bool_decide (t ∈ indexerFullDumpSet) then INDEXER_INBAND_PAGED t else None | DecoderDb => None end.
Definition streamIncrementalTable (x : select_ctx) (t : string) (first : bool) : srv bool :=
  on_gap (
    if bool_decide (t ∈ lookupSet (x_kind x)) && full_dumped (x_kind x) t then
      if x_skipLookups x then sret first else streamLookupPaged t (lookupCursorColumn t) first
    else match inband_cursor (x_kind x) t with
    | Some col => streamLookupPaged t col first
    | None =>
        do? selected := selectIncrementalRows x t in
        match selected with
        | None | Some [] => sret first
        | Some rows => writeIncrementalTableRows t rows first
        end
    end) first.
Fixpoint incremental_tables (x : select_ctx) (first : bool) (tables : list string) : srv unit :=
  match tables with [] => sret tt | t :: tables' => do? first := streamIncrementalTable x t first in incremental_tables x first tables' end.
Definition streamIncrementalTables (kind : db_type) (gasTick : string) (since last : Z) (skipLookups : bool) : srv unit :=
  do? tableOrder := getOrderedTables in
  do? x := buildIncrementalSelectCtx kind gasTick since last skipLookups in
  incremental_tables x true tableOrder.
(** [None] is an omitted coin; an unknown coin is refused before. *)
Definition updated_json (updated : list (string * list read_row)) : json :=
  PObj (map (fun m => (m.1, PArr (map (fun r => PObj (members_of (encodeRow r))) m.2))) updated).
Definition writeIncrementalUpdatedRows (kind : db_type) (since last : Z) (delay : option Z) : srv unit :=
  match kind with
  | DecoderDb => sret tt
  | IndexerDb =>
      do? updated := collectUpdatedRows since last delay in
      put (utf8 ("," +:+ q_ +:+ "updated_rows" +:+ q_ +:+ ":")%string ++ print_json (updated_json updated))
  end.
Definition incremental_head (kind : db_type) (lastBlock since : Z) : bytes :=
  snapshot_head kind lastBlock ++ utf8 ("," +:+ q_ +:+ "since_block" +:+ q_ +:+ ":" +:+ string_of_int since)%string.
(** [delay] is [activationDelayBlocks(coin)]: [Some None] for an unknown coin. *)
Definition streamIncrementalSnapshotLocked (kind : db_type) (gasTick : string) (delay : option (option Z)) (since : Z) (skipLookups : bool) : srv answer_kind :=
  match kind, delay with
  | IndexerDb, Some None => sthrow (Raised refusal)
  | _, _ =>
      beginReadSnapshot ;?
      do? lastBlock := getLastBlock in
      match lastBlock with
      | Some b =>
          if b <? since then commitReadSnapshot ;? sret NotFound
          else
            readHashRow kind ;?
            put (incremental_head kind b since ++ tables_open) ;?
            streamIncrementalTables kind gasTick since b skipLookups ;?
            put [c_rbrace] ;?
            writeIncrementalUpdatedRows kind since b (mjoin delay) ;?
            put [c_rbrace] ;? commitReadSnapshot ;? sret Served
      | None => commitReadSnapshot ;? sret NotFound
      end
  end.

(** ** Single tables *)
Definition ROWS_PAGE_DEFAULT : Z := 50000.
Definition ROWS_PAGE_MAX : Z := 100000.
Definition REISSUING_LOOKUPS : list string := ["index_addresses"; "index_tickers"].
Definition parseMaxBlock (raw : option string) : option Z :=
  match raw with
  | None | Some "" => None
  | Some s => match parse_int10 s with Some n => if 0 <=? n then Some n else None | None => None end
  end.
Definition above_block (maxBlock : Z) (r : read_row) : bool :=
  has_value r "block_index" && match cursor_of "block_index" [r] with Int z => maxBlock <? z | _ => false end.
Fixpoint before_first {A} (p : A -> bool) (l : list A) : list A :=
  match l with [] => [] | x :: l' => if p x then [] else x :: before_first p l' end.
Definition bool_text (b : bool) : string := if b then "true" else "false".
Definition put_member (key : string) (v : string) : string := ("," +:+ q_ +:+ key +:+ q_ +:+ ":" +:+ v)%string.
Definition put_page (head : string) (rows : list read_row) : srv answer_kind :=
  put (utf8 (head +:+ put_member "rows" "[")%string) ;? put_rows true rows ;? put (utf8 "]}") ;? sret Served.
Definition version_head (kind : db_type) : string := ("{" +:+ q_ +:+ "schema_version" +:+ q_ +:+ ":" +:+ string_of_int (SCHEMA_VERSION kind))%string.
Definition streamTableRowsById (kind : db_type) (t : string) (afterId limit : option Z) (max_block : option string) : srv answer_kind :=
  if negb (bool_decide (t ∈ lookupSet kind)) then sret BadRequest
  else
    let after := Z.max 0 (default 0 afterId) in
    let lim := Z.max 1 (Z.min ROWS_PAGE_MAX (default ROWS_PAGE_DEFAULT limit)) in
    let col := lookupCursorColumn t in
    do? page := findLookupPageAfter_pool t col after (Z.to_nat lim) in
    let full := bool_decide (length page = Z.to_nat lim) in
    let maxBlock := if bool_decide (t ∈ REISSUING_LOOKUPS) then parseMaxBlock max_block else None in
    let rows := match maxBlock with Some b => before_first (above_block b) page | None => page end in
    let hasMore := full && bool_decide (length rows = length page) in
    put_page (version_head kind +:+ put_member "table" (q_ +:+ t +:+ q_) +:+ put_member "max_id" (string_of_int (cursor_number col rows after))
              +:+ put_member "has_more" (bool_text hasMore))%string rows.
Definition streamDispensers (kind : db_type) (afterTx afterAddr : option Z) : srv answer_kind :=
  match kind with
  | IndexerDb => sret BadRequest
  | DecoderDb =>
      do? rows := (match afterTx, afterAddr with Some x, Some y => findDispensersAfter x y | _, _ => findAllDispensers end) in
      put_page (version_head kind +:+ put_member "max_tx" (string_of_int (cursor_number "tx_index" rows (default 0 afterTx)))
                +:+ put_member "max_addr" (string_of_int (cursor_number "address_id" rows (default 0 afterAddr)))
                +:+ put_member "has_more" "false")%string rows
  end.
End Builder.
