(* ===== verification/SnapshotWire.v ===== *)
(** * SnapshotWire: what a follower can read of a served snapshot

    A response may stop anywhere: a query fails, the client's connection drops and is
    replaced, the writer is destroyed.  [streams] relates a run to the undisturbed run of
    the same program: it either is that run or stops with a prefix of its text.  Since no
    proper prefix of the body is a JSON document, a text that parses is the whole payload
    of the view. *)

From S2P Require Import Prelude Sha256 JsText JsNumber JsMap JsDouble Json JsonPrefix Primitives FollowerRoots Regex Validation SchemaGuard WireCodec Sql TableLifecycle Balances Rollback RollbackAtomic RowWrites Applier ApplierMirror ServerReads RowProducers SnapshotBuilder.

#[local] Open Scope Z_scope.

(** ** Undisturbed runs *)
Definition ideal (w : world) : world := World (fun _ => None) (fun _ => None) (live w).
Definition interrupt (e : stop) : Prop := match e with Aborted => True | Raised x => isSchemaGapError x = false end.

Definition grows {A} (m : srv A) : Prop := forall w s, view (m w s).1 = view s /\ wrote s `prefix_of` wrote (m w s).1.
Definition tracks {A} (m : srv A) : Prop := forall w s, benign (faults w) ->
  m w s = m (ideal w) s \/ (exists e, (m w s).2 = inl e /\ interrupt e /\ wrote (m w s).1 `prefix_of` wrote (m (ideal w) s).1).
Definition streams {A} (m : srv A) : Prop := grows m /\ tracks m.

Lemma streams_ret {A} (a : A) : streams (sret a).
Proof. split; [by intros w s|by left]. Qed.
Lemma streams_throw {A} e : streams (@sthrow A e).
Proof. split; [by intros w s|by left]. Qed.
Lemma streams_bind {A B} (m : srv A) (k : A -> srv B) : streams m -> (forall a, streams (k a)) -> streams (sbind m k).
Proof.
  intros [Gm Tm] Hk. split.
  - intros w s. unfold sbind. destruct (Gm w s) as [Hv Hp]. destruct (m w s) as [s1 [e|a]]; [done|]. cbn in *.
    destruct (proj1 (Hk a) w s1) as [Hv' Hp']. split; [congruence|by etransitivity].
  - intros w s Hb. unfold sbind. destruct (Tm w s Hb) as [E|(e & E & Hi & Hp)].
    + rewrite E. destruct (m (ideal w) s) as [s1 [e|a]]; [by left|]. exact (proj2 (Hk a) w s1 Hb).
    + right. exists e. destruct (m w s) as [s1 r1]. cbn in E, Hp. subst r1. cbn. split_and!; [done..|].
      destruct (m (ideal w) s) as [s2 [e2|a]]; [done|]. cbn in Hp. etransitivity; [exact Hp|]. exact (proj2 (proj1 (Hk a) (ideal w) s2)).
Qed.
Lemma streams_on_gap {A} (m : srv A) d : streams m -> streams (on_gap m d).
Proof.
  intros [Gm Tm]. split.
  - intros w s. unfold on_gap, scatch. destruct (Gm w s) as [Hv Hp]. destruct (m w s) as [s1 [[|x]|a]]; [done| |done]. cbn in *. by destruct (isSchemaGapError x).
  - intros w s Hb. unfold on_gap, scatch. destruct (Tm w s Hb) as [E|(e & E & Hi & Hp)].
    + left. rewrite E. destruct (m (ideal w) s) as [s1 [[|x]|a]]; try done. by destruct (isSchemaGapError x).
    + right. exists e. destruct (m w s) as [s1 r1]. cbn in E, Hp. subst r1. assert ((match e with Raised x => if isSchemaGapError x then sret d else sthrow e | Aborted => sthrow e end) = @sthrow A e) as Eh.
      { destruct e as [|x]; [done|]. cbn in Hi. by rewrite Hi. }
      rewrite Eh. cbn. split_and!; [done..|]. destruct (m (ideal w) s) as [s2 [[|x]|a]]; try done. cbn. by destruct (isSchemaGapError x).
Qed.
Lemma streams_read {A} (work : database -> outcome A) : streams (sread work).
Proof.
  split.
  - intros w s. unfold sread. destruct (faults w (asked s)); [done|]. by destruct (work (view s)).
  - intros w s Hb. unfold sread. cbn [faults ideal]. destruct (faults w (asked s)) as [e|] eqn:E; [|by left].
    right. exists (Raised e). cbn. split_and!; [done|by apply (Hb _ _ E)|]. by destruct (work (view s)).
Qed.
Lemma streams_soft {A} (d : A) work : streams (soft_read d work).
Proof. split; [|by left]. intros w s. unfold soft_read. destruct (live w (asked s)) as [db|]; [|done]. by destruct (work db). Qed.
Lemma streams_put chunk : streams (put chunk).
Proof.
  split.
  - intros w s. unfold put. destruct (cut w _) as [[]|]; cbn; split; try done; by apply prefix_app_r.
  - intros w s Hb. unfold put. cbn [cut ideal]. destruct (cut w (length (wrote s))) as [[]|]; [right; exists Aborted..|by left]; cbn; split_and!; try done. by apply prefix_app_r.
Qed.
Lemma streams_seach {A} (l : list A) k : (forall x, streams (k x)) -> streams (seach l k).
Proof. intros Hk. induction l as [|x l IH]; [apply streams_ret|]. by apply streams_bind. Qed.
Lemma streams_count t : streams (row_count t).
Proof. split; [by intros w s|by left]. Qed.
Lemma streams_valid t : streams (assertValidIdentifier t).
Proof. unfold assertValidIdentifier. destruct (valid_identifier t); [apply streams_ret|apply streams_throw]. Qed.
Create HintDb streams_db.
#[export] Hint Resolve streams_ret streams_throw streams_read streams_soft streams_put streams_count streams_valid : streams_db.

(** Closes [streams] goals of programs built from these. *)
Ltac streams :=
  repeat first
    [ progress (intros)
    | solve [auto with streams_db]
    | apply streams_bind
    | apply streams_on_gap
    | match goal with |- streams (match ?x with _ => _ end) => destruct x end ].

(** ** The text of an undisturbed run *)
Definition emits {A} (db : database) (m : srv A) (text : bytes) (r : stop + A) : Prop :=
  forall w s, view s = db -> exists s', m (ideal w) s = (s', r) /\ view s' = db /\ text_of s' = text_of s ++ text.
Lemma emits_ret {A} db (a : A) : emits db (sret a) [] (inr a).
Proof. intros w s Hv. exists s. by rewrite app_nil_r. Qed.
Lemma emits_throw {A} db e : emits db (@sthrow A e) [] (inl e).
Proof. intros w s Hv. exists s. by rewrite app_nil_r. Qed.
Lemma emits_bind {A B} db (m : srv A) (k : A -> srv B) t1 t2 a r : emits db m t1 (inr a) -> emits db (k a) t2 r -> emits db (sbind m k) (t1 ++ t2) r.
Proof.
  intros Hm Hk w s Hv. destruct (Hm w s Hv) as (s1 & E1 & V1 & T1). destruct (Hk w s1 V1) as (s2 & E2 & V2 & T2).
  exists s2. unfold sbind. rewrite E1. split_and!; [done..|]. by rewrite T2, T1, app_assoc.
Qed.
Lemma emits_stop {A B} db (m : srv A) (k : A -> srv B) t e : emits db m t (inl e) -> emits db (sbind m k) t (inl e).
Proof. intros Hm w s Hv. destruct (Hm w s Hv) as (s1 & E1 & V1 & T1). exists s1. unfold sbind. by rewrite E1. Qed.
Lemma emits_put db chunk : emits db (put chunk) chunk (inr tt).
Proof. intros w s Hv. eexists. split; [reflexivity|]. split; [done|]. unfold text_of. cbn [wrote]. rewrite concat_app. cbn [concat]. by rewrite app_nil_r. Qed.
Lemma emits_read {A} db (work : database -> outcome A) a : work db = Done a -> emits db (sread work) [] (inr a).
Proof. intros Ha w s Hv. unfold sread. cbn. rewrite Hv, Ha. eexists. split; [reflexivity|]. by rewrite app_nil_r. Qed.
Lemma emits_fails {A} db (work : database -> outcome A) e : work db = Fail e -> emits db (sread work) [] (inl (Raised e)).
Proof. intros Ha w s Hv. unfold sread. cbn. rewrite Hv, Ha. eexists. split; [reflexivity|]. by rewrite app_nil_r. Qed.
Lemma emits_tick db : emits db tick [] (inr tt).
Proof. by apply emits_read. Qed.
Lemma emits_text {A} db (m : srv A) t t' r : emits db m t r -> t = t' -> emits db m t' r.
Proof. by intros ? <-. Qed.

Lemma emits_result {A} db (m : srv A) t r r' : emits db m t r -> r = r' -> emits db m t r'.
Proof. by intros ? <-. Qed.

(** A run writes a prefix of what the undisturbed run writes. *)
Lemma text_prefix {A} (m : srv A) w s : streams m -> benign (faults w) -> exists more, text_of (m w s).1 ++ more = text_of (m (ideal w) s).1.
Proof.
  intros [_ Tm] Hb. destruct (Tm w s Hb) as [->|(e & _ & _ & [more Hp])]; [exists []; apply app_nil_r|].
  exists (concat more). unfold text_of. by rewrite Hp, concat_app.
Qed.

(** ** Rows and tables *)
Definition row_json (r : read_row) : json := PObj (members_of (encodeRow r)).
Lemma row_chunk_json r : row_chunk r = print_json (row_json r).
Proof. done. Qed.
Fixpoint separated (first : bool) (l : list bytes) : bytes :=
  match l with [] => [] | x :: l' => (if first then [] else [c_comma]) ++ x ++ separated false l' end.
Lemma separated_join first l : separated first l = match l with [] => [] | _ => (if first then [] else [c_comma]) ++ join_comma l end.
Proof.
  revert first. induction l as [|x l IH]; intros first; [done|]. cbn [separated]. rewrite IH. destruct l as [|y l]; cbn [join_comma]; by rewrite ?app_nil_r.
Qed.
Lemma emits_sep db (first : bool) : emits db (if first then sret tt else put [c_comma]) (if first then [] else [c_comma]) (inr tt).
Proof. destruct first; [apply emits_ret|apply emits_put]. Qed.
Lemma emits_put_rows db first rows : emits db (put_rows first rows) (separated first (map row_chunk rows)) (inr tt).
Proof.
  revert first. induction rows as [|r rows IH]; intros first; [apply emits_ret|]. cbn [put_rows map separated].
  eapply emits_bind; [apply emits_sep|]. eapply emits_bind; [apply emits_put|apply IH].
Qed.

(** A name that needs no escape. *)
Lemma escape_word b : is_word b = true -> escape_byte b = [b].
Proof. destruct b; by cbn. Qed.
Lemma print_word l : forallb is_word l = true -> List.flat_map escape_byte l = l.
Proof. induction l as [|b l IH]; cbn [forallb List.flat_map]; [done|]. intros [Hb Hl]%andb_true_iff. by rewrite escape_word, IH. Qed.

Section Full.
Context `{Dialect} `{SourceDb}.

Lemma streams_put_rows first rows : streams (put_rows first rows).
Proof. revert first. induction rows as [|r rows IH]; intros first; cbn [put_rows]; streams. Qed.
Lemma streams_stream_rows first rows : streams (stream_rows first rows).
Proof. revert first. induction rows as [|r rows IH]; intros first; cbn [stream_rows]; unfold tick; streams. Qed.
Lemma streams_tables first tables : streams (stream_tables first tables).
Proof.
  revert first. induction tables as [|t tables IH]; intros first; cbn [stream_tables]; unfold getTableCount, streamTableRows, open_table; streams; apply streams_stream_rows.
Qed.
Lemma streams_full kind : streams (streamFullSnapshotLocked kind).
Proof.
  unfold streamFullSnapshotLocked, beginReadSnapshot, commitReadSnapshot, tick, getLastBlock, readHashRow, streamFullSnapshotTables, getOrderedTables, findStreamableTableNames_conn.
  streams. apply streams_tables.
Qed.

(** ** The payload *)
Definition table_rows (db : database) (t : string) : list read_row :=
  map (as_read t (table_columns db t)) (order_by (take 1 (table_columns db t)) (rows_of db t)).
Definition table_json (db : database) (t : string) : string * json := (t, PArr (map row_json (table_rows db t))).
Definition streamed_tables (db : database) : list string :=
  orderSnapshotTables (List.filter (fun t => negb (bool_decide (t ∈ OPERATOR_LOCAL_TABLES)) && negb (bool_decide (t ∈ SOURCE_UNSTREAMED_TABLES))
                                            && negb (bool_decide (t ∈ REPLICA_LEDGER_TABLES))) (map fst (map_to_list db))).
Definition nonempty (db : database) (t : string) : bool := negb (bool_decide (rows_of db t = [])).
Definition payload_of (kind : db_type) (db : database) (b : Z) (tables : list string) : list (string * json) :=
  [("schema_version", PNum (SCHEMA_VERSION kind)); ("block_height", PNum b); ("tables", PObj (map (table_json db) (List.filter (nonempty db) tables)))].
Definition full_payload (kind : db_type) (db : database) (b : Z) : json := PObj (payload_of kind db b (streamed_tables db)).

Definition table_text (db : database) (t : string) : bytes := quoted t ++ utf8 ":[" ++ separated true (map row_chunk (table_rows db t)) ++ [c_rbrack].
Definition tables_text (db : database) (first : bool) (tables : list string) : bytes := separated first (map (table_text db) (List.filter (nonempty db) tables)).

Lemma emits_stream_rows db first rows : emits db (stream_rows first rows) (separated first (map row_chunk rows)) (inr tt).
Proof.
  revert first. induction rows as [|r rows IH]; intros first; cbn [stream_rows map separated].
  { apply emits_tick. }
  eapply emits_text; [eapply emits_bind; [apply emits_tick|]|reflexivity].
  eapply emits_bind; [apply emits_sep|]. eapply emits_bind; [apply emits_put|apply IH].
Qed.
Lemma emits_stream_tables db first tables : Forall (fun t => is_Some (db !! t)) tables ->
  if forallb valid_identifier tables then emits db (stream_tables first tables) (tables_text db first tables) (inr tt)
  else exists e, emits db (stream_tables first tables) (tables_text db first (before_first (fun t => negb (valid_identifier t)) tables)) (inl e).
Proof.
  intros Hdb. revert first. induction Hdb as [|t tables [x Hx] Hdb IH]; intros first; [apply emits_ret|].
  cbn [forallb before_first stream_tables]. destruct (valid_identifier t) eqn:Ev; cbn [negb andb].
  2:{ exists (Raised refusal). unfold getTableCount. apply emits_stop, emits_stop. unfold assertValidIdentifier. rewrite Ev. apply emits_throw. }
  assert (gap db [t] [] = None) as Hg by (unfold gap; cbn; by rewrite Hx).
  assert (emits db (getTableCount t) [] (inr (Z.of_nat (length (rows_of db t))))) as Hcount.
  { unfold getTableCount. eapply (emits_bind _ _ _ [] []); [unfold assertValidIdentifier; rewrite Ev; apply emits_ret|]. apply emits_read. by rewrite Hg. }
  assert (emits db (streamTableRows t) [] (inr (table_rows db t))) as Hrows.
  { unfold streamTableRows. eapply (emits_bind _ _ _ [] []); [unfold assertValidIdentifier; rewrite Ev; apply emits_ret|]. apply emits_read. by rewrite Hg. }
  destruct (Z.eqb_spec (Z.of_nat (length (rows_of db t))) 0) as [E0|E0].
  - assert (nonempty db t = false) as Hn by (unfold nonempty; destruct (rows_of db t); done).
    specialize (IH first). unfold tables_text in *. cbn [List.filter]. rewrite Hn. destruct (forallb valid_identifier tables).
    + eapply (emits_bind _ _ _ []); [exact Hcount|]. rewrite E0. exact IH.
    + destruct IH as [e IH]. exists e. eapply (emits_bind _ _ _ []); [exact Hcount|]. rewrite E0. exact IH.
  - assert (nonempty db t = true) as Hn by (unfold nonempty; destruct (rows_of db t); done).
    assert (forall more r, emits db (stream_tables false tables) more r ->
      emits db (do? count := getTableCount t in if count =? 0 then stream_tables first tables
        else open_table first t ;? do? rows := streamTableRows t in stream_rows true rows ;? put [c_rbrack] ;? stream_tables false tables)
        ((if first then [] else [c_comma]) ++ table_text db t ++ more) r) as Hone.
    { intros more r Hm. eapply (emits_bind _ _ _ []); [exact Hcount|]. rewrite (proj2 (Z.eqb_neq _ _) E0). unfold open_table, table_text.
      eapply emits_text; [eapply emits_bind; [eapply emits_bind; [apply emits_sep|apply emits_put]|]|].
      - eapply (emits_bind _ _ _ []); [exact Hrows|]. eapply emits_bind; [apply emits_stream_rows|]. eapply emits_bind; [apply emits_put|exact Hm].
      - rewrite <- !app_assoc. by destruct first. }
    specialize (IH false). unfold tables_text in *. cbn [List.filter]. rewrite Hn. cbn [map separated]. destruct (forallb valid_identifier tables).
    + by apply Hone.
    + destruct IH as [e IH]. exists e. by apply Hone.
Qed.

(** ** The body as a document *)
Lemma quoted_print t : valid_identifier t = true -> quoted t = print_string t.
Proof.
  intros Ht%identifier_word. unfold quoted, print_string, q_. rewrite !utf8_app, utf8_of_utf8. cbn [app]. rewrite print_word; [done|].
  apply forallb_forall. intros b Hb%list_elem_of_In. unfold word_name in Ht. rewrite Forall_forall in Ht. by apply Ht.
Qed.
Lemma table_text_print db t : valid_identifier t = true -> table_text db t = print_member print_json (table_json db t).
Proof.
  intros Ht. unfold table_text, print_member, table_json. cbn [fst snd print_json]. rewrite (quoted_print t Ht). f_equal. change (utf8 ":[") with [c_colon; c_lbrack].
  cbn [app]. do 3 f_equal. rewrite separated_join, map_map. destruct (table_rows db t); done.
Qed.
Lemma body_print kind db b tables : forallb valid_identifier tables = true ->
  (snapshot_head kind b ++ tables_open) ++ tables_text db true tables ++ utf8 "}}" = print_json (PObj (payload_of kind db b tables)).
Proof.
  intros Hv'. assert (forallb valid_identifier (List.filter (nonempty db) tables) = true) as Hv.
  { rewrite forallb_forall in Hv' |- *. intros t [Ht _]%filter_In. by apply Hv'. }
  unfold payload_of, tables_text. rewrite separated_join. set (l := List.filter (nonempty db) tables) in *.
  assert (match map (table_text db) l with [] => [] | _ => [] ++ join_comma (map (table_text db) l) end = join_comma (map (print_member print_json) (map (table_json db) l))) as ->.
  { assert (map (table_text db) l = map (print_member print_json) (map (table_json db) l)) as E.
    { rewrite map_map. apply map_ext_in. intros t Ht. rewrite forallb_forall in Hv. by apply table_text_print, Hv. }
    rewrite <- E. by destruct l. }
  cbn [print_json map join_comma]. unfold print_member at 2 3 4. cbn [fst snd]. unfold snapshot_head, tables_open, q_. rewrite !utf8_app, !utf8_of_utf8.
  unfold string_of_int. rewrite !utf8_of_utf8. cbn [print_json]. repeat (rewrite <- ?app_assoc; progress cbn [app]). rewrite <- ?app_assoc. destruct kind; reflexivity.
Qed.

Lemma streamed_spec db t : t ∈ streamed_tables db <->
  is_Some (db !! t) /\ t ∉ OPERATOR_LOCAL_TABLES /\ t ∉ SOURCE_UNSTREAMED_TABLES /\ t ∉ REPLICA_LEDGER_TABLES.
Proof.
  assert (NoDup (List.filter (fun t => negb (bool_decide (t ∈ OPERATOR_LOCAL_TABLES)) && negb (bool_decide (t ∈ SOURCE_UNSTREAMED_TABLES))
    && negb (bool_decide (t ∈ REPLICA_LEDGER_TABLES))) (map fst (map_to_list db)))) as Hn.
  { apply NoDup_ListNoDup, List.NoDup_filter, NoDup_ListNoDup. apply NoDup_fst_map_to_list. }
  unfold streamed_tables. rewrite (proj2 (order_spec _ Hn)), elem_of_lfilter, !andb_true_iff, !negb_true_iff, !bool_decide_eq_false.
  assert (t ∈ map fst (map_to_list db) <-> is_Some (db !! t)) as ->; [|tauto].
  rewrite list_elem_of_fmap. split.
  - intros ([k x] & -> & Hx%elem_of_map_to_list). by exists x.
  - intros [x Hx]. exists (t, x). split; [done|]. by apply elem_of_map_to_list.
Qed.
Lemma streamed_nodup db : NoDup (streamed_tables db).
Proof. apply order_spec, NoDup_ListNoDup, List.NoDup_filter, NoDup_ListNoDup, NoDup_fst_map_to_list. Qed.
Lemma streamed_present db : Forall (fun t => is_Some (db !! t)) (streamed_tables db).
Proof. apply Forall_forall. intros t Ht. by apply streamed_spec in Ht as [? _]. Qed.
Lemma before_first_all {A} (p : A -> bool) l : forallb p (before_first (fun x => negb (p x)) l) = true.
Proof. induction l as [|x l IH]; cbn; [done|]. destruct (p x) eqn:E; cbn; [by rewrite E|done]. Qed.

(** The undisturbed run: a refusal before any text, the whole body, or a body that stops
    before its end. *)
Lemma emits_full kind db :
  exists t r, emits db (streamFullSnapshotLocked kind) t r
  /\ (t = [] \/ exists b, last_block db = Some b
        /\ ((t = print_json (full_payload kind db b) /\ r = inr Served) \/ exists m more, more <> [] /\ print_json (PObj m) = t ++ more)).
Proof.
  unfold streamFullSnapshotLocked. assert (forall B (k : unit -> srv B) t r, emits db (k tt) t r -> emits db (sbind beginReadSnapshot k) t r) as Hbegin.
  { intros B k t r Hk. eapply (emits_bind _ _ _ []); [eapply (emits_bind _ _ _ [] []); apply emits_tick|done]. }
  destruct (gap db ["blocks"] [("blocks", "block_index")]) as [n|] eqn:Eg.
  { eexists [], _. split; [apply Hbegin, emits_stop; apply emits_fails; by rewrite Eg|by left]. }
  assert (forall B (k : option Z -> srv B) t r, emits db (k (last_block db)) t r -> emits db (sbind getLastBlock k) t r) as Hlast.
  { intros B k t r Hk. eapply (emits_bind _ _ _ []); [apply emits_read; by rewrite Eg|done]. }
  destruct (last_block db) as [b|] eqn:Eb.
  2:{ eexists [], _. split; [|by left]. apply Hbegin, Hlast. eapply (emits_bind _ _ _ [] []); [apply emits_tick|apply emits_ret]. }
  destruct (gap db ["blocks"; "index_transactions"] (block_columns kind)) as [n|] eqn:Eh.
  { eexists [], _. split; [apply Hbegin, Hlast, emits_stop; apply emits_fails; by rewrite Eh|by left]. }
  pose proof (emits_stream_tables db true (streamed_tables db) (streamed_present db)) as Ht.
  assert (forall t r, emits db (stream_tables true (streamed_tables db)) t r -> emits db streamFullSnapshotTables t r) as Htables.
  { intros t r Hr. unfold streamFullSnapshotTables, getOrderedTables. eapply (emits_bind _ _ _ []); [|exact Hr]. eapply (emits_bind _ _ _ [] []); [by apply emits_read|apply emits_ret]. }
  assert (emits db (readHashRow kind) [] (inr tt)) as Hhash by (apply emits_read; by rewrite Eh).
  destruct (forallb valid_identifier (streamed_tables db)) eqn:Ev.
  - eexists _, _. split; [|right; exists b; split; [done|left; split; [exact (body_print kind db b _ Ev)|reflexivity]]].
    apply Hbegin, Hlast. eapply emits_text; [eapply (emits_bind _ _ _ []); [exact Hhash|]; eapply emits_bind; [apply emits_put|]; eapply emits_bind; [by apply Htables|];
      eapply emits_bind; [apply emits_put|]; eapply (emits_bind _ _ _ [] []); [apply emits_tick|apply emits_ret]|]. by rewrite app_nil_r.
  - destruct Ht as [e Ht]. eexists _, _. split.
    { apply Hbegin, Hlast. eapply (emits_bind _ _ _ []); [exact Hhash|]. eapply emits_bind; [apply emits_put|]. apply emits_stop. by apply Htables. }
    right. exists b. split; [done|]. right. eexists _, (utf8 "}}"). split; [done|].
    cbn [app]. rewrite <- (app_assoc (snapshot_head kind b ++ tables_open)). symmetry. exact (body_print kind db b _ (before_first_all valid_identifier (streamed_tables db))).
Qed.

(** What a follower can read of a full snapshot: whatever queries fail and whenever the
    connection drops, a text received from the server (a prefix of what was written) that
    parses as JSON is the whole payload of the server's view, every table with every row
    at one block height; and with no fault the server serves it to the end. *)
Lemma text_whole kind w s text more j :
  benign (faults w) -> wrote s = [] -> text_of (streamFullSnapshotLocked kind w s).1 = text ++ more ->
  JSON_parse (of_utf8 text) = Some j ->
  exists b, last_block (view s) = Some b /\ j = full_payload kind (view s) b /\ (streamFullSnapshotLocked kind (ideal w) s).2 = inr Served.
Proof.
  intros Hb Hw Htext Hj. destruct (emits_full kind (view s)) as (t & r & He & Ht).
  destruct (text_prefix _ w s (streams_full kind) Hb) as [rest Hrest].
  assert (text_of (streamFullSnapshotLocked kind (ideal w) s).1 = t) as Et.
  { destruct (He w s eq_refl) as (s' & -> & _ & T). cbn [fst]. rewrite T. unfold text_of. by rewrite Hw. }
  rewrite Et, Htext, <- app_assoc in Hrest.
  destruct Ht as [->|(b & Eb & [[-> ->]|(m & tail & Htail & Hm)])].
  - apply app_eq_nil in Hrest as [-> _]. done.
  - exists b. destruct (parse_prefix _ _ _ _ (eq_sym Hrest) Hj) as [_ ->]. split_and!; [done..|].
    destruct (He w s eq_refl) as (s' & E & _). by rewrite E.
  - rewrite <- Hrest, <- app_assoc in Hm. destruct (parse_prefix _ _ _ _ Hm Hj) as [Hnil _]. by apply app_eq_nil in Hnil as [_ ->].
Qed.
End Full.
