(* ===== verification/SnapshotPaging.v ===== *)
(** * SnapshotPaging: paged tables and the slots of concurrent streams

    [streamLookupPaged] of [src/src/server/snapshot_builder/incremental_snapshot.js] reads
    a table page by page after an id cursor; here its text is that of the whole table in
    the order of its ids, whatever the page size.  [acquireSnapshotSlot] and
    [releaseSnapshotSlot] of [src/src/server/snapshot_builder.js] keep the streams of a
    database below its pool. *)

From stdpp Require Import sorting.
From S2P Require Import Prelude Sha256 JsText JsNumber JsMap JsDouble Json JsonPrefix Primitives FollowerRoots Regex Validation SchemaGuard WireCodec Sql TableLifecycle Balances Rollback RollbackAtomic RowWrites Applier ApplierMirror ServerReads RowProducers SnapshotBuilder SnapshotWire.

#[local] Open Scope Z_scope.
#[local] Notation row := (gmap string value).
#[local] Notation cell := Sql.cell.

(** ** Sorted lists *)
Section Sorted.
Context {A : Type} (key : A -> Z).
#[local] Notation sorted := (StronglySorted (fun x y => key x <= key y)).
Definition increasing (l : list A) : Prop := StronglySorted (fun x y => key x < key y) l.

Lemma sorted_strict l : sorted l -> NoDup (map key l) -> increasing l.
Proof.
  induction 1 as [|x l Hl IH Hx]; cbn [map]; intros Hn; [constructor|]. apply NoDup_cons in Hn as [Hn Hn']. constructor; [by apply IH|].
  rewrite Forall_forall in Hx |- *. intros y Hy. specialize (Hx y Hy). assert (key x <> key y); [|lia].
  intros E. apply Hn. rewrite E. by apply list_elem_of_fmap_2.
Qed.
Lemma increasing_unique l l' : increasing l -> increasing l' -> l ≡ₚ l' -> l = l'.
Proof.
  intros Hl. revert l'. induction Hl as [|x l Hl IH Hx]; intros l' Hl' Hp; [by apply Permutation_nil_l in Hp|].
  destruct Hl' as [|y l' Hl' Hy]; [by apply Permutation_nil_r in Hp|]. rewrite Forall_forall in Hx, Hy.
  assert (x = y) as ->.
  { assert (x ∈ y :: l') as [->|Hxy]%elem_of_cons by (rewrite <- Hp; left); [done|].
    assert (y ∈ x :: l) as [->|Hyx]%elem_of_cons by (rewrite Hp; left); [done|]. specialize (Hx y Hyx). specialize (Hy x Hxy). lia. }
  f_equal. apply IH; [done|]. by apply Permutation_cons_inv in Hp.
Qed.
Lemma increasing_filter (p : A -> bool) l : increasing l -> increasing (List.filter p l).
Proof.
  induction 1 as [|x l Hl IH Hx]; cbn [List.filter]; [constructor|]. destruct (p x); [|done]. constructor; [done|].
  rewrite Forall_forall in Hx |- *. intros y [Hy _]%elem_of_lfilter. by apply Hx.
Qed.
(** What is above the last element of a prefix is the rest. *)
Definition above (a : Z) : A -> bool := fun x => a <? key x.
Lemma above_last l x l' : increasing (l ++ x :: l') -> List.filter (above (key x)) (l ++ x :: l') = l'.
Proof.
  induction l as [|y l IH]; cbn [app List.filter]; intros Hl; inversion Hl as [|? ? Hl' Hall]; subst; rewrite Forall_forall in Hall; unfold above at 1.
  - rewrite Z.ltb_irrefl. clear Hl Hl'. induction l' as [|y l' IH]; [done|]. cbn [List.filter]. unfold above at 1. rewrite (proj2 (Z.ltb_lt _ _)) by (apply Hall; left).
    f_equal. apply IH. intros z Hz. apply Hall. by right.
  - assert (key y < key x) as Hyx by (apply Hall, elem_of_app; right; left). rewrite (proj2 (Z.ltb_ge _ _)) by lia. by apply IH.
Qed.
End Sorted.
Lemma filter_map_perm {A} (p : A -> bool) (l l' : list A) : l ≡ₚ l' -> List.filter p l ≡ₚ List.filter p l'.
Proof. induction 1; cbn; repeat case_match; eauto using Permutation. Qed.

(** ** Pages *)
Section Paging.
Context `{Dialect} `{SourceDb} `{!SourceLaws}.
Context (db : database) (t col : string) (tab : table) (Htab : db !! t = Some tab) (Hcol : col ∈ columns tab).
(** The ids are positive numbers, one per row, and the driver returns them as such. *)
Context (Hids : forall x, x ∈ rows tab -> exists z, cell x col = Int z /\ 0 < z /\ cursor_of col [as_read t (columns tab) x] = Int z).
Context (Hunique : NoDup (map (int_of col) (rows tab))).

#[local] Notation id_of := (int_of col).
#[local] Notation ordered := (order_by [col] (rows tab)).
#[local] Notation read := (as_read t (columns tab)).

Lemma rows_tab : rows_of db t = rows tab.
Proof. unfold rows_of. by rewrite Htab. Qed.
Lemma ordered_increasing (p : row -> bool) : increasing id_of (order_by [col] (List.filter p (rows tab))).
Proof.
  apply sorted_strict.
  - apply order_by_int, Forall_forall. intros x [Hx _]%elem_of_lfilter. destruct (Hids x Hx) as (z & E & _). by exists z.
  - rewrite order_by_perm. by apply NoDup_map_lfilter.
Qed.
Lemma ordered_all : increasing id_of ordered.
Proof. rewrite <- (lfilter_all (fun _ => true) (rows tab)) by done. apply ordered_increasing. Qed.
Lemma ordered_filter (p : row -> bool) : order_by [col] (List.filter p (rows tab)) = List.filter p ordered.
Proof.
  apply (increasing_unique id_of); [apply ordered_increasing| |].
  - apply increasing_filter, ordered_all.
  - rewrite order_by_perm. apply filter_map_perm. symmetry. apply order_by_perm.
Qed.

(** ** One page *)
Lemma after_cursor a x : x ∈ rows tab -> satisfied db [("t", x)] (Cmp Gt (At col) (Lit (Int a))) = above id_of a x.
Proof.
  intros Hx. destruct (Hids x Hx) as (z & E & _). unfold satisfied, above, int_of. cbn [holds eval At alias_row]. rewrite (bool_decide_eq_true_2 ("t" = "t")) by done. rewrite E.
  unfold cmp3, Z.ltb. cbn. rewrite (Z.compare_antisym a z). by destruct (a ?= z).
Qed.
#[local] Notation query a := (Plain t (Cmp Gt (At col) (Lit (Int a))) [col]).
Lemma page_gap a : star_gap db (query a) = None.
Proof.
  unfold star_gap, gap, has_column. cbn. rewrite Htab. cbn.
  rewrite (bool_decide_eq_true_2 ("t" = "t")) by done. cbn. by rewrite Htab, (bool_decide_eq_true_2 (col ∈ columns tab)).
Qed.
Lemma page_answer a : star_answer db (query a) = map read (List.filter (above id_of a) ordered).
Proof.
  unfold star_answer, table_columns. cbn [q_table q_cols Plain default]. rewrite Htab, plain_rows, rows_tab, <- ordered_filter. do 2 f_equal.
  apply filter_ext_in. intros x Hx%list_elem_of_In. by apply after_cursor.
Qed.

(** ** All pages *)
Lemma separated_app first l l' : l <> [] -> separated first (l ++ l') = separated first l ++ separated false l'.
Proof.
  intros Hl. destruct l as [|x l]; [done|]. cbn [app separated]. rewrite <- !app_assoc. do 2 f_equal. clear Hl.
  induction l as [|y l IH]; [done|]. cbn [app separated]. rewrite <- !app_assoc. by do 2 f_equal.
Qed.
Definition rest (a : Z) : list row := List.filter (above id_of a) ordered.
Lemma emits_page a n : emits db (findLookupPageAfter t col (Int a) n) [] (inr (map read (take n (rest a)))).
Proof. apply emits_read. cbv zeta. rewrite page_gap, page_answer. do 2 f_equal. symmetry. apply fmap_take. Qed.
Lemma rest_mono a b : a <= b -> rest b = List.filter (above id_of b) (rest a).
Proof.
  intros Hab. unfold rest. induction ordered as [|y l IH]; [done|]. cbn [List.filter]. destruct (above id_of a y) eqn:Ea; cbn [List.filter].
  - destruct (above id_of b y); by rewrite IH.
  - unfold above in *. apply Z.ltb_ge in Ea. rewrite (proj2 (Z.ltb_ge b (id_of y))) by lia. exact IH.
Qed.
(** The cursor after a page leaves the rows after it. *)
Lemma next_page a n : 0 <= a -> (0 < n)%nat -> rest a <> [] ->
  exists b, cursor_of col (map read (take n (rest a))) = Int b /\ 0 <= b /\ rest b = drop n (rest a).
Proof.
  intros Ha Hn Hr. destruct (exists_last (l := take n (rest a))) as (pre & x & E); [destruct n; [lia|]; by destruct (rest a)|].
  assert (x ∈ rest a) as Hx. { rewrite <- (take_drop n (rest a)), E, !elem_of_app. left; right; left. }
  unfold rest in Hx. apply elem_of_lfilter in Hx as [Hx Hax]. rewrite order_by_perm in Hx. destruct (Hids x Hx) as (z & Ez & Hz & Hc).
  assert (int_of col x = z) as Eid by (unfold int_of; by rewrite Ez).
  exists z. split_and!; [|lia|].
  - rewrite E. unfold cursor_of in *. rewrite map_app. cbn [map]. rewrite last_snoc. exact Hc.
  - assert (rest a = pre ++ x :: drop n (rest a)) as Em by (by rewrite <- (take_drop n (rest a)) at 1; rewrite E, <- app_assoc).
    rewrite (rest_mono a z) by (rewrite <- Eid; apply Z.ltb_lt in Hax; lia). rewrite Em at 1. rewrite <- Eid. apply above_last. rewrite <- Em.
    apply increasing_filter, ordered_all.
Qed.
Definition opening (first firstRow : bool) : bytes := if firstRow then (if first then [] else [c_comma]) ++ quoted t ++ utf8 ":[" else [].
Lemma emits_opening (first firstRow : bool) : emits db (if firstRow then open_table first t else sret tt) (opening first firstRow) (inr tt).
Proof. destruct firstRow; [|apply emits_ret]. eapply emits_bind; [apply emits_sep|apply emits_put]. Qed.
Definition chunks_of (l : list row) : list bytes := map row_chunk (map read l).
Lemma emits_page_loop fuel n a first firstRow : 0 <= a -> (0 < n)%nat -> (length (rest a) < fuel)%nat ->
  emits db (page_loop fuel n t col (Int a) first firstRow)
    (match rest a with [] => [] | l => opening first firstRow ++ separated firstRow (chunks_of l) end)
    (inr (match rest a with [] => (first, firstRow) | _ => (false, false) end)).
Proof.
  intros Ha Hn. revert a Ha first firstRow. induction fuel as [|fuel IH]; intros a Ha first firstRow Hf; [lia|]. cbn [page_loop].
  eapply (emits_bind _ _ _ []); [apply emits_page|]. rewrite length_map, length_take.
  destruct (rest a) as [|x l] eqn:Er; [rewrite bool_decide_eq_true_2 by (cbn; lia); apply emits_ret|]. rewrite <- Er in *.
  assert (rest a <> []) as Hr by (by rewrite Er). assert (length (rest a) <> 0%nat) as Hlen by (by rewrite Er).
  rewrite bool_decide_eq_false_2 by lia. eapply emits_bind; [apply emits_opening|].
  destruct (next_page a n Ha Hn Hr) as (b & Ec & Hb & Eb).
  assert (take n (rest a) <> []) as Ht. { intros E. apply (f_equal length) in E. rewrite length_take in E. cbn in E. lia. }
  eapply emits_text; [eapply emits_bind; [apply emits_put_rows|]|].
  { case_bool_decide as Hshort.
    - instantiate (1 := separated false (chunks_of (drop n (rest a)))). rewrite drop_ge by lia. apply emits_ret.
    - rewrite Ec. eapply emits_text; [eapply (emits_result _ _ _ _ (inr (false, false))); [apply IH; [done|rewrite Eb, length_drop; lia]|by destruct (rest b)]|].
      rewrite Eb. by destruct (drop n (rest a)). }
  unfold chunks_of. rewrite <- separated_app by (by destruct (take n (rest a))). by rewrite <- !map_app, take_drop.
Qed.
Lemma rest_all : rest 0 = ordered.
Proof.
  apply lfilter_all. intros x Hx. rewrite order_by_perm in Hx. destruct (Hids x Hx) as (z & E & Hz & _). unfold above, int_of. rewrite E. by apply Z.ltb_lt.
Qed.
Lemma emits_paged first :
  emits db (streamLookupPaged t col first)
    (match ordered with [] => [] | l => opening first true ++ separated true (chunks_of l) ++ [c_rbrack] end)
    (inr (match ordered with [] => first | _ => false end)).
Proof.
  eapply (emits_bind _ _ _ [] _ (length (rows tab))). { intros w s Hv. exists s. unfold row_count. by rewrite Hv, rows_tab, app_nil_r. }
  assert (0 < pageSize)%nat as Hn by (apply Nat.ltb_lt; vm_compute; reflexivity).
  pose proof (emits_page_loop (S (length (rows tab))) pageSize 0 first true ltac:(lia) Hn) as Hl. rewrite rest_all in Hl.
  assert (length ordered < S (length (rows tab)))%nat as Hf by (rewrite order_by_perm; lia). specialize (Hl Hf). destruct ordered as [|x l].
  - eapply (emits_bind _ _ _ []); [exact Hl|]. eapply (emits_bind _ _ _ [] []); apply emits_ret.
  - eapply emits_text; [eapply emits_bind; [exact Hl|]; eapply (emits_bind _ _ _ [c_rbrack] []); [apply emits_put|apply emits_ret]|]. by rewrite <- app_assoc.
Qed.

(** C21. Paging is invisible.  The stream of a large lookup reads a page at a time after an id
    cursor; undisturbed it ends, and what it writes is exactly what the unpaged writer
    writes for the whole table in the order of its ids: every row once, none skipped at a
    page boundary, and nothing at all for an empty table. *)
Theorem paged_stream_whole first w s : view s = db ->
  let paged := streamLookupPaged t col first (ideal w) s in
  let whole := writeIncrementalTableRows t (map read ordered) first (ideal w) s in
  match rows tab with
  | [] => text_of paged.1 = text_of s /\ paged.2 = inr first
  | _ => text_of paged.1 = text_of whole.1 /\ paged.2 = whole.2 /\ paged.2 = inr false
  end.
Proof.
  intros Hv. cbv zeta. destruct (emits_paged first w s Hv) as (s1 & -> & _ & T1). cbn [fst snd]. rewrite T1. clear T1.
  destruct (rows tab) as [|x l] eqn:Er.
  { assert (order_by [col] [] = []) as -> by (apply Permutation_nil_r, order_by_perm). by rewrite app_nil_r. }
  assert (emits db (writeIncrementalTableRows t (map read ordered) first) (opening first true ++ separated true (chunks_of ordered) ++ [c_rbrack]) (inr false)) as Hw.
  { unfold writeIncrementalTableRows. eapply emits_text; [eapply emits_bind; [apply (emits_opening first true)|]; eapply emits_bind; [apply emits_put_rows|];
      eapply emits_bind; [apply emits_put|apply emits_ret]|]. by rewrite app_nil_r. }
  rewrite Er in Hw. destruct (Hw w s Hv) as (s2 & -> & _ & T2). cbn [fst snd]. rewrite T2. clear T2.
  destruct (order_by [col] (x :: l)) eqn:Eo; [|done]. pose proof (order_by_perm [col] (x :: l)) as Hp. rewrite Eo in Hp. by apply Permutation_nil_l in Hp.
Qed.
End Paging.

(** ** Slots *)
Section Streams.
Context {K : Type} `{Countable K}.

(** The streams of a server: a request that gets no slot is refused; a stream that ends,
    in whatever way, gives its slot back. *)
Inductive slot_step (cap : K -> Z) : gmap K Z * list K -> gmap K Z * list K -> Prop :=
| Admit k m m' open : acquireSnapshotSlot (cap k) k m = Some m' -> slot_step cap (m, open) (m', k :: open)
| Refuse k m open : acquireSnapshotSlot (cap k) k m = None -> slot_step cap (m, open) (m, open)
| Finish k m pre post : slot_step cap (m, pre ++ k :: post) (releaseSnapshotSlot k m, pre ++ post).

Definition streaming (k : K) (open : list K) : Z := Z.of_nat (length (List.filter (fun k' => bool_decide (k' = k)) open)).
Definition slots_ok (cap : K -> Z) (x : gmap K Z * list K) : Prop :=
  forall k, inflight x.1 k = streaming k x.2 /\ streaming k x.2 <= Z.max 0 (cap k).

Lemma streaming_cons k k' open : streaming k (k' :: open) = (if bool_decide (k' = k) then 1 else 0) + streaming k open.
Proof. unfold streaming. cbn [List.filter]. case_bool_decide; cbn [length]; lia. Qed.
Lemma streaming_remove k k' pre post : streaming k (pre ++ k' :: post) = (if bool_decide (k' = k) then 1 else 0) + streaming k (pre ++ post).
Proof. induction pre as [|y pre IH]; cbn [app]; rewrite ?streaming_cons; [done|]. rewrite IH. lia. Qed.
Lemma streaming_nonneg k open : 0 <= streaming k open.
Proof. unfold streaming. lia. Qed.

Lemma inflight_insert (m : gmap K Z) k z k' : inflight (<[k := z]> m) k' = if bool_decide (k = k') then z else inflight m k'.
Proof. unfold inflight. case_bool_decide; [subst; by rewrite lookup_insert_eq|by rewrite lookup_insert_ne]. Qed.
Lemma inflight_delete (m : gmap K Z) k k' : inflight (delete k m) k' = if bool_decide (k = k') then 0 else inflight m k'.
Proof. unfold inflight. case_bool_decide; [subst; by rewrite lookup_delete_eq|by rewrite lookup_delete_ne]. Qed.
Lemma slot_step_ok cap x y : slot_step cap x y -> slots_ok cap x -> slots_ok cap y.
Proof.
  intros [k m m' open E|k m open E|k m pre post] Hx k'; [|exact (Hx k')|]; destruct (Hx k') as [Hm Hc]; cbn [fst snd] in *.
  - unfold acquireSnapshotSlot in E. destruct (Z.leb_spec (cap k) (inflight m k)) as [|Hlt]; [done|]. injection E as <-.
    rewrite streaming_cons, inflight_insert. case_bool_decide; [subst; lia|lia].
  - rewrite streaming_remove in Hm, Hc. pose proof (streaming_nonneg k' (pre ++ post)) as Hn. unfold releaseSnapshotSlot.
    destruct (Z.leb_spec (inflight m k) 1); rewrite ?inflight_delete, ?inflight_insert; case_bool_decide; subst; lia.
Qed.

(** C36. A pool is never exhausted by snapshots.  In every state the server reaches by
    admitting, refusing and ending streams, the counter of a database is the number of its
    open streams, at most the cap; the cap leaves a connection of the pool for other work
    whatever MAX_CONCURRENT_SNAPSHOTS says; and a request is refused only at the cap. *)
Theorem snapshots_leave_a_connection (pool : K -> Z) (wanted : K -> option Z) (cap := fun k => snapshotCap (pool k) (wanted k)) x k :
  rtc (slot_step cap) (∅, []) x -> MIN_POOL_SIZE <= pool k ->
  inflight x.1 k = streaming k x.2 /\ streaming k x.2 < pool k /\ 1 <= cap k
  /\ (acquireSnapshotSlot (cap k) k x.1 = None <-> streaming k x.2 = cap k).
Proof.
  intros Hx Hpool. assert (slots_ok cap x) as Hok.
  { assert (slots_ok cap (∅, [])) as H0 by (intros k0; unfold inflight, streaming; cbn [fst snd]; rewrite lookup_empty; cbn; lia).
    clear Hpool. revert H0. induction Hx as [|y y' z Hy _ IH]; [done|]. intros H0. by apply IH, (slot_step_ok _ y). }
  destruct (Hok k) as [Hm Hc]. unfold acquireSnapshotSlot. assert (1 <= cap k < pool k) as Hcap by (unfold cap, snapshotCap, MIN_POOL_SIZE in *; lia).
  split_and!; [done|lia|lia|]. rewrite Hm. destruct (Z.leb_spec (cap k) (streaming k x.2)); split; try done; lia.
Qed.
End Streams.
