(* ===== verification/SnapshotReplica.v ===== *)
(** * SnapshotReplica: a bootstrap from end to end

    [SnapshotWire] says what text of a full snapshot parses, [ApplierMirror] what an
    applied payload leaves in each table.  Here they meet: the text a follower downloads
    (the body of [bootstrapDownloadSnapshot] of [src/src/client/sync.js]) is parsed and applied, and
    the replica's tables are the source's. *)

From S2P Require Import Prelude Sha256 JsText JsNumber JsMap JsDouble Json JsonPrefix Primitives GateRegistry Gates Subtrees FollowerRoots Regex Validation SchemaGuard WireCodec Sql TableLifecycle TokenRefold Balances Rollback RollbackAtomic RollbackEffect RowWrites Applier ApplierAtomic ApplierMirror ServerReads RowProducers SnapshotBuilder SnapshotWire.

#[local] Open Scope Z_scope.
#[local] Notation row := (gmap string value).
#[local] Notation cell := Sql.cell.

(** ** The download *)

(** The parsed object as the applier reads it. *)
Definition json_member (k : string) (j : json) : option json :=
  match j with PObj l => snd <$> List.find (fun m => bool_decide (m.1 = k)) l | _ => None end.
Definition json_int (j : json) : option Z := match j with PNum z => Some z | _ => None end.
Definition json_row (j : json) : wire_row := match j with PObj m => m | _ => [] end.
Definition json_tables (j : json) : option wire_tables :=
  match j with PObj l => Some (map (fun m => (m.1, match m.2 with PArr rows => map json_row rows | _ => [] end)) l) | _ => None end.
Definition snapshot_of_json (j : json) : snapshot_payload :=
  let member {A} k (read : json -> option A) := match json_member k j with Some v => read v | None => None end in
  SnapshotPayload (member "tables" json_tables) (member "schema_version" json_int) (default 0 (member "block_height" json_int))
    (member "since_block" json_int) (member "updated_rows" json_tables).
(** The end of [bootstrapDownloadSnapshot] and of [downloadIncrementalCatchUp], once the
    whole body is there: [None] is the error of a truncated download.  The request, its size
    limit, the gunzip and the separate paging of lookups by a truncated replica are not
    modelled. *)
Definition parseSnapshotBody (text : bytes) : option snapshot_payload := snapshot_of_json <$> JSON_parse (of_utf8 text).
Definition parseCatchUpBody (text : bytes) : option snapshot_payload := snapshot_of_json <$> JSON_parse (of_utf8 text).

(** ** Columns *)

(** The columns a replica keeps as the source has them: not the generated ones, nor the
    surrogate ids it numbers itself. *)
Definition own_id (t : string) : bool := bool_decide (t ∈ localSurrogateIdOnlyTables) || bool_decide (is_Some (localSurrogateIdTables t)).
Definition replicated_columns (t : string) (cols : list string) : list string :=
  List.filter (fun c => negb (own_id t && bool_decide (c = "id"))) (List.filter (fun c => negb (bool_decide (c ∈ generatedColumns t))) cols).

Lemma filter_own_id t l : (own_id t = false \/ "id" ∉ l) -> List.filter (fun c => negb (own_id t && bool_decide (c = "id"))) l = l.
Proof.
  intros Hl. apply lfilter_all. intros c Hc. apply negb_true_iff, andb_false_iff. destruct Hl as [Hl|Hl]; [by left|right].
  apply bool_decide_eq_false. by intros ->.
Qed.
Lemma prepared_columns t rows p cols :
  prepareTableRows t rows no_opts = Some p -> map fst (default [] (head rows)) = cols -> columns_of p = replicated_columns t cols.
Proof.
  intros Hp <-. unfold prepareTableRows in Hp. destruct (negb (valid_identifier t)); [done|].
  assert (forall c1, prepareInsertColumns t rows = Some c1 -> localSurrogateIdTables t = None ->
    c1 = replicated_columns t (map fst (default [] (head rows)))) as Hplain.
  { intros c1 Hc Hno. unfold prepareInsertColumns in Hc. unfold replicated_columns.
    set (l := List.filter (fun c => negb (bool_decide (c ∈ generatedColumns t))) _) in *. destruct (negb _ && _); [done|].
    assert (own_id t = bool_decide (t ∈ localSurrogateIdOnlyTables)) as Eo.
    { unfold own_id. rewrite Hno, (bool_decide_eq_false_2 (is_Some None)) by (by intros [? ?]). apply orb_false_r. }
    case_bool_decide as Ht; cbn [andb] in Hc.
    - case_bool_decide as Hid; cbn [andb] in Hc.
      + case_bool_decide; [done|]. injection Hc as <-. rewrite Eo. done.
      + injection Hc as <-. rewrite filter_own_id; [done|by right].
    - injection Hc as <-. rewrite filter_own_id; [done|left; exact Eo]. }
  destruct (prepareInsertColumns t rows) as [c1|] eqn:Ec; [|done]. destruct (localSurrogateIdTables t) as [key|] eqn:El; [|injection Hp as <-; by apply Hplain].
  assert (t = "blocks") as -> by (clear -El; unfold localSurrogateIdTables in El; by case_bool_decide).
  unfold prepareInsertColumns in Ec. unfold replicated_columns.
  change (bool_decide ("blocks" ∈ localSurrogateIdOnlyTables)) with false in Ec. cbn [andb] in Ec. destruct (negb _ && _); [done|]. injection Ec as <-.
  case_bool_decide as Hid.
  - destruct (_ || _); [done|]. destruct (natural_keys key rows []); [|done]. by injection Hp as <-.
  - injection Hp as <-. cbn [columns_of]. rewrite filter_own_id; [done|by right].
Qed.

(** ** Rows on their way *)
Section Replica.
Context `{Mathjs} `{Dialect} `{Storage} `{!StorageLaws} `{CommitmentLaws} `{!SourceDb} `{!SourceLaws}.

(** What arrives of a stored value. *)
Definition arrived (t c : string) (v : value) : applied := decodeValue (default PNull (serialize (encodeCell (fetch t c v)))).
Definition wire_of (t : string) (cols : list string) (x : row) : wire_row := members_of (encodeRow (as_read t cols x)).
Lemma wire_of_cons t c cols x :
  wire_of t (c :: cols) x = (match serialize (encodeCell (fetch t c (cell x c))) with Some j => [(c, j)] | None => [] end) ++ wire_of t cols x.
Proof. done. Qed.
Lemma wire_of_columns t cols x : (forall c, c ∈ cols -> is_Some (serialize (encodeCell (fetch t c (cell x c))))) -> map fst (wire_of t cols x) = cols.
Proof.
  induction cols as [|c cols IH]; intros Hs; [done|]. rewrite wire_of_cons. destruct (Hs c) as [j ->]; [left|]. cbn. f_equal. apply IH. intros d Hd. apply Hs. by right.
Qed.
Lemma wire_of_arg t cols x c : c ∈ cols -> arg (wire_of t cols x) c = arrived t c (cell x c).
Proof.
  intros Hc. unfold arg, arrived. do 2 f_equal.
  assert (field (wire_of t cols x) c = if bool_decide (c ∈ cols) then serialize (encodeCell (fetch t c (cell x c))) else None) as ->; [|by rewrite bool_decide_eq_true_2].
  clear Hc. induction cols as [|d cols IH]; [done|]. rewrite wire_of_cons. unfold field in *. destruct (decide (d = c)) as [->|Hd].
  - rewrite (bool_decide_eq_true_2 (c ∈ c :: cols)) by left. destruct (serialize _) as [j|]; cbn; [by rewrite bool_decide_eq_true_2|]. rewrite IH. by case_bool_decide.
  - rewrite (bool_decide_ext (c ∈ d :: cols) (c ∈ cols)) by set_solver. destruct (serialize (encodeCell (fetch t d _))) as [j|]; [|done]. cbn. by rewrite bool_decide_eq_false_2.
Qed.

(** ** What replication relies on *)

(** Two rows of the source differ on every unique key the replica enforces. *)
Definition apart (t : string) (columns : list string) (x y : row) : Prop :=
  forall k, k ∈ unique_keys t ->
    (exists c, k.2 = [c] /\ auto_column t = Some c /\ c ∉ columns)
    \/ (exists c, c ∈ k.2 /\ c ∈ columns /\ cmp3 Eq (cell y c) (cell x c) <> Some true).
(** The driver returns a value for every column, a column of the replica takes back what
    it was sent for the value it had, and the two schemas have the same keys. *)
Record faithful (db : database) (t : string) (columns := replicated_columns t (table_columns db t)) : Prop := {
  faithful_text x c : x ∈ rows_of db t -> c ∈ table_columns db t -> is_Some (serialize (encodeCell (fetch t c (cell x c))));
  faithful_value x c : x ∈ rows_of db t -> c ∈ columns -> store t c (coerce_arg (arrived t c (cell x c))) = cell x c;
  faithful_number x c : x ∈ rows_of db t -> c ∈ columns -> auto_column t = Some c -> cell x c <> Null /\ cell x c <> Int 0;
  faithful_keys i j x y : t ∈ ignoreTables ++ upsertFullDumpTables -> i <> j ->
    rows_of db t !! i = Some x -> rows_of db t !! j = Some y -> apart t columns x y }.
Definition same_on (columns : list string) (x y : row) : Prop := forall c, c ∈ columns -> cell y c = cell x c.

Section Table.
Context (db : database) (t : string) (Hfaith : faithful db t) (l : list row) (Hsub : l ⊆ rows_of db t).
#[local] Notation cols := (table_columns db t).
#[local] Notation kept := (replicated_columns t (table_columns db t)).
#[local] Notation sent_rows := (map (wire_of t (table_columns db t)) l).

Lemma kept_column c : c ∈ kept -> c ∈ cols.
Proof. unfold replicated_columns. rewrite !elem_of_lfilter. tauto. Qed.
Lemma stored_back x c : x ∈ l -> c ∈ kept -> store t c (coerce_arg (arg (wire_of t cols x) c)) = cell x c.
Proof. intros Hx Hc. rewrite wire_of_arg by (by apply kept_column). apply (faithful_value _ _ Hfaith); [by apply Hsub|done]. Qed.
Lemma sent_numbered : Forall (numbered t kept) sent_rows.
Proof.
  apply Forall_forall. intros r (x & -> & Hx)%list_elem_of_fmap c Ha Hc. rewrite stored_back by done.
  apply (faithful_number _ _ Hfaith); [by apply Hsub|done..].
Qed.
Lemma sent_distinct : l ≡ₚ rows_of db t -> t ∈ ignoreTables ++ upsertFullDumpTables -> distinct_rows t kept sent_rows.
Proof.
  intros Hl Ht pre r post x E Hx k Hk. apply map_eq_app in E as (lpre & l2 & El & <- & E2). apply map_eq_cons in E2 as (y & lpost & -> & <- & _).
  apply list_elem_of_fmap in Hx as (z & -> & Hz). apply list_elem_of_lookup in Hz as [i Hi].
  destruct (proj1 (Permutation_inj _ _) Hl) as (_ & g & Hg & Hlook).
  assert (l !! i = Some z) as Li by (rewrite El; by apply lookup_app_l_Some).
  assert (l !! length lpre = Some y) as Ly by (rewrite El; by apply list_lookup_middle).
  assert (g i <> g (length lpre)) as Hne.
  { intros E%Hg. apply lookup_lt_Some in Hi. lia. }
  destruct (faithful_keys _ _ Hfaith (g i) (g (length lpre)) z y Ht Hne) with (k := k) as [Hc|(c & Hck & Hc & Hd)]; [by rewrite <- Hlook..|done|by left|right].
  exists c. split_and!; [done..|]. rewrite !stored_back; [done|by eapply list_elem_of_lookup_2|done|by eapply list_elem_of_lookup_2|done].
Qed.

Lemma sent_columns : l = [] \/ map fst (default [] (head sent_rows)) = cols.
Proof.
  destruct l as [|x l'] eqn:El; [by left|right]. cbn. apply wire_of_columns. intros c Hc. apply (faithful_text _ _ Hfaith); [|done]. apply Hsub. left.
Qed.
Lemma sent_copied l1 : Forall2 (carries t kept) sent_rows l1 -> Forall2 (same_on kept) l l1.
Proof.
  assert (forall l0 l1, l0 ⊆ l -> Forall2 (carries t kept) (map (wire_of t cols) l0) l1 -> Forall2 (same_on kept) l0 l1) as Hall; [|by apply Hall].
  induction l0 as [|x l0 IH]; cbn [map]; intros l2 Hl0 HF; inversion HF as [|? y ? l2' Hc HF']; subst; constructor.
  - intros c Hc'. rewrite (Hc c Hc'). apply stored_back; [apply Hl0; left|done].
  - apply IH; [|done]. intros z Hz. apply Hl0. by right.
Qed.

(** Inserting the rows sent for a table makes it a copy. *)
Lemma after_insert_copy : l ≡ₚ rows_of db t ->
  after (fun db' => rows_of db' t = []) (insertRows t sent_rows no_opts) (fun db' => Forall2 (same_on kept) l (rows_of db' t)).
Proof.
  intros Hl. destruct sent_columns as [El|Hcols].
  { rewrite El. unfold insertRows. rewrite bool_decide_eq_true_2 by done. apply after_ret. intros db' ->. constructor. }
  destruct (prepareTableRows t sent_rows no_opts) as [p|] eqn:Ep.
  2:{ unfold insertRows. case_bool_decide as E0; [|rewrite Ep; apply after_throw]. apply after_ret. intros db' ->. destruct l; [constructor|done]. }
  assert (written_columns t sent_rows no_opts = kept) as Ew by (unfold written_columns; rewrite Ep; by apply (prepared_columns t sent_rows p cols)).
  eapply after_conseq; [|apply after_insertRows_empty; split; rewrite Ew; [apply sent_numbered|by apply sent_distinct]].
  rewrite Ew. intros db' Hrows%(rows_carry t kept sent_rows _ sent_numbered). by apply sent_copied.
Qed.
End Table.

(** ** The payload as it arrives *)
Definition sent_tables (db : database) : wire_tables :=
  map (fun t => (t, map (wire_of t (table_columns db t)) (order_by (take 1 (table_columns db t)) (rows_of db t)))) (List.filter (nonempty db) (streamed_tables db)).
Lemma payload_arrives kind db b :
  snapshot_of_json (full_payload kind db b) = SnapshotPayload (Some (sent_tables db)) (Some (SCHEMA_VERSION kind)) b None None.
Proof.
  unfold snapshot_of_json, full_payload, payload_of.
  assert (json_tables (PObj (map (table_json db) (List.filter (nonempty db) (streamed_tables db)))) = Some (sent_tables db)) as E.
  { unfold json_tables, sent_tables. rewrite map_map. f_equal. apply map_ext. intros t. unfold table_json, table_rows. cbn [fst snd]. by rewrite !map_map. }
  set (tables := PObj (map _ _)) in *. clearbody tables. change (SnapshotPayload (json_tables tables) (Some (SCHEMA_VERSION kind)) b None None = SnapshotPayload (Some (sent_tables db)) (Some (SCHEMA_VERSION kind)) b None None).
  by rewrite E.
Qed.
Lemma carried_sent db t : t ∈ List.filter (nonempty db) (streamed_tables db) ->
  rows_carried (sent_tables db) t = map (wire_of t (table_columns db t)) (order_by (take 1 (table_columns db t)) (rows_of db t)).
Proof.
  unfold rows_carried, carried, sent_tables. induction (List.filter (nonempty db) (streamed_tables db)) as [|u us IH]; intros Ht; [by apply elem_of_nil in Ht|].
  cbn [map List.find fst]. case_bool_decide as Hu; [by subst|]. apply IH. apply elem_of_cons in Ht as [->|Ht]; done.
Qed.
Lemma payload_names_sent db : payloadSnapshotTableNames (sent_tables db) = List.filter (nonempty db) (streamed_tables db).
Proof.
  unfold payloadSnapshotTableNames, sent_tables. rewrite map_map. cbn [fst]. rewrite map_id. apply lfilter_all. intros t [Ht _]%elem_of_lfilter.
  apply streamed_spec in Ht as (_ & Ho & Hu & Hr). by rewrite !bool_decide_eq_false_2.
Qed.
Lemma empty_rows db t : nonempty db t = false -> rows_of db t = [].
Proof. unfold nonempty. rewrite negb_false_iff. apply bool_decide_eq_true. Qed.

(** C5. A bootstrap replicates.  A follower downloads a full snapshot, of which any prefix
    may arrive, from a server whose queries may fail and whose connection may drop; if the
    text parses and its application reports success, then the snapshot is of one block
    height, the source's last, and every replicated table of the follower (also one the
    source has empty or lacks) has exactly the rows of the source's view, in some order,
    with every replicated column the same; the tables of the node itself are as they were.
    The values are assumed to survive driver, wire and column type ([faithful]); the
    commitment's own tables are left to the seed. *)
Theorem full_snapshot_replicates kind w s text more p a landed f r r' :
  benign (faults w) -> wrote s = [] -> text_of (streamFullSnapshotLocked kind w s).1 = text ++ more ->
  parseSnapshotBody text = Some p ->
  benign f -> applyFullSnapshot a p landed f r = (r', Done tt) ->
  last_block (view s) = Some (sn_block_height p) /\ kind = dbType a
  /\ forall t, t ∉ commitment_tables ->
     (t ∈ OPERATOR_LOCAL_TABLES ++ REPLICA_LEDGER_TABLES -> committed r' !! t = committed r !! t)
     /\ (t ∉ OPERATOR_LOCAL_TABLES ++ REPLICA_LEDGER_TABLES ++ SOURCE_UNSTREAMED_TABLES -> t <> "" -> faithful (view s) t ->
         exists l, l ≡ₚ rows_of (view s) t
           /\ Forall2 (same_on (replicated_columns t (table_columns (view s) t))) l (rows_of (committed r') t)).
Proof.
  intros Hw Hs Htext Hp Hf Hrun. unfold parseSnapshotBody in Hp. destruct (JSON_parse (of_utf8 text)) as [j|] eqn:Ej; [|done].
  destruct (text_whole kind w s text more j Hw Hs Htext Ej) as (b & Hb & -> & _). cbn [fmap option_fmap option_map] in Hp. rewrite payload_arrives in Hp. injection Hp as <-.
  cbn [sn_block_height]. split; [done|]. split.
  { unfold applyFullSnapshot in Hrun. cbn [sn_tables sn_schema_version] in Hrun. case_bool_decide as Hv; [|done]. injection Hv as Hv. by destruct kind, (dbType a). }
  intros t Ht. destruct (full_snapshot_run a (SnapshotPayload _ _ b None None) (sent_tables (view s)) landed f r r' Hf eq_refl Hrun t Ht) as [Hin Hout].
  split; [intros Hl; by apply Hout, snapshot_tables_foreign|]. intros Hforeign Hname Hfaith. rewrite !elem_of_app in Hforeign.
  pose proof (proj2 (snapshot_tables_spec (sent_tables (view s)) (map fst (map_to_list (committed r)))) t) as Hspec. rewrite payload_names_sent in Hspec.
  destruct (decide (t ∈ List.filter (nonempty (view s)) (streamed_tables (view s)))) as [Hsent|Hsent].
  - eexists. split; [apply (order_by_perm (take 1 (table_columns (view s) t)))|]. apply (Hin (fun l => Forall2 _ _ l)); [apply Hspec; by left|].
    unfold insert_payload. rewrite payload_names_sent, bool_decide_eq_true_2 by done. rewrite carried_sent by done. apply after_insert_copy; [done| |apply order_by_perm]. intros x. by rewrite order_by_perm.
  - exists []. assert (rows_of (view s) t = []) as ->.
    { destruct (nonempty (view s) t) eqn:En; [|by apply empty_rows]. unfold rows_of. destruct (view s !! t) as [x|] eqn:Ex; [|done].
      exfalso. apply Hsent, elem_of_lfilter. split; [|done]. apply streamed_spec. split; [by exists x|tauto]. }
    split; [done|]. assert (rows_of (committed r') t = []) as ->; [|constructor].
    destruct (decide (t ∈ snapshot_tables (sent_tables (view s)) (map fst (map_to_list (committed r))))) as [Hc|Hc].
    + apply (Hin (fun l => l = [])); [done|]. unfold insert_payload. rewrite payload_names_sent, bool_decide_eq_false_2 by done. by apply after_ret.
    + unfold rows_of. rewrite (Hout Hc). destruct (committed r !! t) as [x|] eqn:Ex; [|done]. exfalso. apply Hc, Hspec. right.
      unfold localSnapshotTableNames. apply elem_of_lfilter. split; [apply list_elem_of_fmap; exists (t, x); split; [done|by apply elem_of_map_to_list]|].
      rewrite !bool_decide_eq_false_2 by tauto. done.
Qed.
End Replica.
