(* ===== verification/SnapshotCatchup.v ===== *)
(** * SnapshotCatchup: an incremental snapshot from end to end

    The window of blocks a follower is behind ([streamIncrementalSnapshotLocked] of
    [src/src/server/snapshot_builder/incremental_snapshot.js], parsed and applied by
    [applyIncrementalSnapshot] of [src/src/client/applier.js]): a table whose rows belong
    to a block or an action arrives with exactly the rows of the window, so a replica
    that had the older rows has them all. *)

From S2P Require Import Prelude Sha256 JsText JsNumber JsMap JsDouble Json JsonPrefix Primitives GateRegistry Gates Subtrees FollowerRoots Regex Validation SchemaGuard WireCodec Sql TableLifecycle TokenRefold Balances Rollback RollbackAtomic RollbackEffect RowWrites Applier ApplierAtomic ApplierMirror ApplierBalances ApplierRollback ServerReads RowProducers SnapshotBuilder SnapshotWire SnapshotPaging SnapshotReplica.

#[local] Open Scope Z_scope.
#[local] Notation row := (gmap string value).
#[local] Notation cell := Sql.cell.
#[local] Notation tab := (string * list read_row)%type.

(** ** Programs that only read *)

(** An undisturbed run writes nothing and returns with [R], or meets a schema gap with [E]. *)
Definition silent {A} (db : database) (m : srv A) (R : A -> Prop) (E : Prop) : Prop :=
  forall w s, view s = db -> exists s' r, m (ideal w) s = (s', r) /\ view s' = db /\ wrote s' = wrote s
    /\ match r with inr a => R a | inl (ServerReads.Raised e) => isSchemaGapError e = true /\ E | inl Aborted => False end.

Lemma silent_ret {A} db (a : A) (R : A -> Prop) E : R a -> silent db (sret a) R E.
Proof. intros HR w s Hv. by exists s, (inr a). Qed.
Lemma silent_conseq {A} db (m : srv A) (R R' : A -> Prop) (E E' : Prop) : (forall a, R a -> R' a) -> (E -> E') -> silent db m R E -> silent db m R' E'.
Proof. intros HR HE Hm w s Hv. destruct (Hm w s Hv) as (s' & r & Er & V & W & Hr). exists s', r. split_and!; [done..|]. destruct r as [[]|]; naive_solver. Qed.
Lemma silent_bind {A B} db (m : srv A) (k : A -> srv B) R R' E : silent db m R E -> (forall a, R a -> silent db (k a) R' E) -> silent db (sbind m k) R' E.
Proof.
  intros Hm Hk w s Hv. destruct (Hm w s Hv) as (s1 & r1 & E1 & V1 & W1 & Hr1). unfold sbind. rewrite E1. destruct r1 as [e|a]; [exists s1, (inl e); by split_and!|].
  destruct (Hk a Hr1 w s1 V1) as (s2 & r2 & -> & V2 & W2 & Hr2). exists s2, r2. split_and!; [done..|congruence|done].
Qed.
Lemma silent_on_gap {A} db (m : srv A) d (R : A -> Prop) (E E' : Prop) : silent db m R E -> (E -> R d) -> silent db (on_gap m d) R E'.
Proof.
  intros Hm Hd w s Hv. destruct (Hm w s Hv) as (s1 & r1 & E1 & V1 & W1 & Hr1). unfold on_gap, scatch. rewrite E1.
  destruct r1 as [[|e]|a]; [done| |by exists s1, (inr a)]. destruct Hr1 as [-> He]. exists s1, (inr d). split_and!; auto.
Qed.
Lemma silent_soft {A} db (d : A) work E : silent db (soft_read d work) (fun _ => True) E.
Proof.
  intros w s Hv. unfold soft_read. cbn. destruct (live w (asked s)) as [db'|]; [destruct (work db')|]; eexists _, _; (split; [reflexivity|]); by split_and!.
Qed.
Lemma gap_error n (db : database) ts cs : gap db ts cs = Some n -> isSchemaGapError (DbError (Some n) None) = true.
Proof. unfold gap. destruct (negb _); [by intros [= <-]|]. destruct (negb _); [by intros [= <-]|done]. Qed.
Lemma silent_gap {A} db (missing : database -> option Z) (a : database -> A) (E : Prop) :
  (forall n, missing db = Some n -> isSchemaGapError (DbError (Some n) None) = true /\ E) ->
  silent db (sread (fun db => match missing db with Some n => Fail (DbError (Some n) None) | None => Done (a db) end)) (fun x => missing db = None /\ x = a db) E.
Proof.
  intros HE w s Hv. unfold sread. cbn. rewrite Hv. destruct (missing db) as [n|] eqn:Em; [destruct (HE n eq_refl)|]; eexists _, _; (split; [reflexivity|]); by split_and!.
Qed.

#[local] Opaque getTopology indexerBlockScopedSet indexerFullDumpSet blockKey.

Section Catchup.
Context `{Mathjs} `{Dialect} `{Storage} `{!StorageLaws} `{CommitmentLaws} `{!SourceDb} `{!SourceLaws}.

Lemma silent_find db q : silent db (find_rows q) (fun l => star_gap db q = None /\ l = star_answer db q) (star_gap db q <> None).
Proof. apply (silent_gap db (fun db => star_gap db q) (fun db => star_answer db q)). intros n En. split; [by eapply gap_error|by rewrite En]. Qed.
Lemma silent_tried db q E : silent db (on_gap (find_rows q) []) (fun _ => True) E.
Proof. eapply silent_on_gap; [eapply silent_conseq; [| |apply silent_find]|]; done. Qed.

(** ** The rows of the window *)
Definition since_query (x : select_ctx) (t : string) : option star :=
  (fun k => Plain t (Cmp Ge (At k.1) (Lit (Int k.2))) [k.1]) <$>
  (if bool_decide (t ∈ indexerBlockScopedSet) then Some (blockKey t, x_since x) else pair "action_index" <$> x_first x).
Definition since_rows (db : database) (x : select_ctx) (t : string) : list read_row :=
  match since_query x t with
  | Some q => match star_gap db q with None => star_answer db q | Some _ => [] end
  | None => []
  end.
(** Tables an incremental snapshot selects by block or action, and those of them that also
    get rows of older blocks. *)
Definition ranged (t : string) : Prop :=
  t ∉ indexerFullDumpSet /\ (t ∈ indexerBlockScopedSet \/ (t ∉ INDEXER_INCREMENTAL_SKIP /\ t <> "contract_emissions")).
Definition backdated_tables : list string := ["credits"; "escrows"; "validator_rewards"].
Definition chosen (db : database) (x : select_ctx) (t : string) (rows : list read_row) : Prop :=
  x_kind x = IndexerDb -> ranged t -> exists extra, rows = since_rows db x t ++ extra /\ (t ∉ backdated_tables -> extra = []).

Lemma append_new_app key extra seen rows : exists new, append_new key seen rows extra = rows ++ new.
Proof.
  revert seen rows. induction extra as [|r extra IH]; intros seen rows; cbn [append_new]; [exists []; by rewrite app_nil_r|]. case_bool_decide; [apply IH|].
  destruct (IH (key r :: seen) (rows ++ [r])) as [new ->]. exists ([r] ++ new). by rewrite app_assoc.
Qed.
(** A producer of older rows only appends. *)
Definition extends (rows rows' : list read_row) : Prop := exists new, rows' = rows ++ new.
Lemma window_extends_trans a b c : extends a b -> extends b c -> extends a c.
Proof. intros [n ->] [n' ->]. exists (n ++ n'). by rewrite app_assoc. Qed.
Lemma silent_collectMatured db t g from to E : silent db (collectMatured t g from to) (fun _ => True) E.
Proof.
  unfold collectMatured. eapply silent_bind; [apply silent_soft|]. intros [done|] _; [|by apply silent_ret].
  eapply (silent_bind _ _ _ (fun _ => True)); [destruct (bool_decide _); [by apply silent_ret|apply silent_tried]|].
  intros cap _. eapply silent_bind; [apply silent_tried|]. intros con _. by apply silent_ret.
Qed.
Lemma silent_rewards db q E : silent db (reward_rows (find_rows q)) (fun _ => True) E.
Proof. eapply silent_bind; [apply silent_tried|]. intros l _. by apply silent_ret. Qed.
Lemma silent_channel db rows m key E : silent db m (fun _ => True) True ->
  silent db (on_gap (do? extra := m in sret (merge_rows key rows extra)) rows) (extends rows) E.
Proof.
  intros Hm. eapply silent_on_gap; [|intros _; exists []; by rewrite app_nil_r]. eapply silent_bind; [exact Hm|]. intros extra _. apply silent_ret. apply append_new_app.
Qed.
Lemma silent_merges db x t rows E :
  silent db (do? rows := (if bool_decide (t ∈ ["credits"; "escrows"]) then mergeMaturedCooldownRows x t rows else sret rows) in
             do? rows := (if bool_decide (t = "validator_rewards") then mergeValidatorRewardRows x rows else sret rows) in sret (Some rows))
    (fun o => exists new, o = Some (rows ++ new) /\ (t ∉ backdated_tables -> new = [])) E.
Proof.
  assert (forall rows, extends rows rows) as Hrefl by (intros l; exists []; by rewrite app_nil_r).
  eapply (silent_bind _ _ _ (fun rows' => extends rows rows' /\ (t ∉ backdated_tables -> rows' = rows))).
  { case_bool_decide as Ht; [|by apply silent_ret]. eapply silent_conseq; [| |apply (silent_channel _ _ _ _ E), silent_collectMatured]; [|done].
    intros l Hl. split; [done|]. intros Hn. exfalso. apply Hn. unfold backdated_tables. set_solver. }
  intros rows1 [H1' E1]. eapply (silent_bind _ _ _ (fun rows' => extends rows rows' /\ (t ∉ backdated_tables -> rows' = rows))).
  { case_bool_decide as Ht; [|by apply silent_ret]. unfold mergeValidatorRewardRows, reward_channel.
    eapply silent_bind; [apply (silent_channel db rows1), silent_rewards|]. intros rows2 H2'. eapply silent_conseq; [| |apply (silent_channel db rows2 _ _ E), silent_rewards]; [|done].
    intros l Hl. split; [by eapply window_extends_trans, window_extends_trans; [exact H1'|exact H2'|exact Hl]|]. intros Hn. exfalso. apply Hn. unfold backdated_tables. set_solver. }
  intros l [[new ->] El]. apply silent_ret. exists new. split; [done|]. intros Hn. specialize (El Hn). apply (app_inv_head rows). by rewrite app_nil_r.
Qed.

Lemma silent_some db m (R : list read_row -> Prop) E : silent db m R E -> silent db (some_rows m) (fun o => exists l, o = Some l /\ R l) E.
Proof. intros Hm. eapply silent_bind; [exact Hm|]. intros l Hl. apply silent_ret. by exists l. Qed.
Lemma silent_some_find db q (R : option (list read_row) -> Prop) (E : Prop) :
  (star_gap db q = None -> R (Some (star_answer db q))) -> (star_gap db q <> None -> E) -> silent db (some_rows (find_rows q)) R E.
Proof. intros HR HE. eapply silent_conseq; [|exact HE|apply silent_some, silent_find]. intros o (l & -> & Hg & ->). by apply HR. Qed.

Definition picked (db : database) (x : select_ctx) (t : string) (o : option (list read_row)) : Prop := ranged t -> default [] o = since_rows db x t.
Lemma silent_selectIndexer db x t : silent db (selectIndexerRows x t) (picked db x t) (picked db x t None).
Proof.
  unfold selectIndexerRows. case_bool_decide as Hb.
  { apply silent_some_find; unfold picked, since_rows, since_query; rewrite bool_decide_eq_true_2 by done; cbn [fmap option_fmap option_map fst snd]; [by intros ->|].
    intros Hg _. by destruct (star_gap db _). }
  case_bool_decide as Hf.
  { assert (forall o, picked db x t o) as Hno by (intros o [Hn _]; by destruct (Hn Hf)). destruct (_ && _); [by apply silent_ret|by apply silent_some_find]. }
  assert (t ∈ INDEXER_INCREMENTAL_SKIP \/ t = "contract_emissions" -> forall o, picked db x t o) as Hno by (intros Hs o [_ Hr]; tauto).
  case_bool_decide as Hs. { apply silent_ret, Hno. by left. }
  case_bool_decide as He. { eapply silent_on_gap; [|intros _; apply Hno; by right]. apply silent_some_find; intros _; [apply Hno; by right|exact I]. }
  assert (forall o, default [] o = since_rows db x t -> picked db x t o) as Hp by (intros o Ho _; exact Ho).
  assert (since_query x t = (fun first => Plain t (Cmp Ge (At "action_index") (Lit (Int first))) ["action_index"]) <$> x_first x) as Eq.
  { unfold since_query. rewrite bool_decide_eq_false_2 by done. by destruct (x_first x). }
  unfold since_rows in Hp. rewrite Eq in Hp. destruct (x_first x) as [first|].
  - eapply silent_on_gap with (E := star_gap db (Plain t (Cmp Ge (At "action_index") (Lit (Int first))) ["action_index"]) <> None); [apply silent_some_find; [|done]|].
    + intros Hg. apply Hp. cbn. by rewrite Hg.
    + intros Hg. apply Hp. cbn. by destruct (star_gap db _).
  - destruct (bool_decide _); apply silent_ret; by apply Hp.
Qed.
Lemma silent_select db x t : silent db (selectIncrementalRows x t) (fun o => chosen db x t (default [] o)) (chosen db x t []).
Proof.
  unfold selectIncrementalRows. destruct (x_kind x) eqn:Ek.
  2:{ assert (forall l, chosen db x t l) as Hc by (intros l Hk; by rewrite Ek in Hk).
      eapply (silent_bind _ _ _ (fun _ => True)); [|intros [l|] _; apply silent_ret, Hc]. unfold selectDecoderRows. cbv zeta.
      destruct (bool_decide (t ∈ decoder_skip)); [by apply silent_ret|]. destruct (bool_decide (t ∈ blockScoped _)); [by apply silent_some_find|].
      destruct (bool_decide (t ∈ txScoped _)); [by apply silent_some_find|]. destruct (bool_decide (t ∈ index _)); [|by apply silent_ret].
      destruct (_ && _); [by apply silent_ret|by apply silent_some_find]. }
  assert (forall o, picked db x t o -> chosen db x t (default [] o)) as Hc by (intros o Ho Hk Hr; exists []; rewrite app_nil_r; auto).
  eapply silent_bind; [eapply silent_conseq; [| |apply silent_selectIndexer]; [done|exact (Hc None)]|]. intros [rows|] Hp; [|apply silent_ret; by apply (Hc None)].
  eapply silent_conseq; [| |apply (silent_merges db x t rows (chosen db x t []))]; [|done].
  intros o (new & -> & Hn) _ Hr. exists new. cbn in *. by rewrite <- (Hp Hr).
Qed.

(** ** Tables written *)
Definition tab_text (m : tab) : bytes := quoted m.1 ++ utf8 ":[" ++ separated true (map row_chunk m.2) ++ [c_rbrack].
Definition one (t : string) (rows : list read_row) : list tab := match rows with [] => [] | _ => [(t, rows)] end.
(** The pages of a table hold some rows of it, or the first page meets a gap. *)
Lemma pages_some db t col n fuel after first firstRow : star_gap db (Plain t (Cmp Gt (At col) (Lit after)) [col]) = None ->
  exists rows : list read_row, emits db (page_loop fuel n t col after first firstRow)
    (match rows with [] => [] | _ => opening t first firstRow ++ separated firstRow (map row_chunk rows) end)
    (inr (match rows with [] => (first, firstRow) | _ => (false, false) end)).
Proof.
  revert after first firstRow. induction fuel as [|fuel IH]; intros after first firstRow Hg; [exists []; apply emits_ret|]. cbn [page_loop].
  set (page := take n (star_answer db (Plain t (Cmp Gt (At col) (Lit after)) [col]))).
  assert (emits db (findLookupPageAfter t col after n) [] (inr page)) as Hpage by (apply emits_read; cbv zeta; by rewrite Hg).
  destruct (decide (page = [])) as [Ep|Ep].
  { exists []. eapply (emits_bind _ _ _ []); [exact Hpage|]. rewrite Ep. rewrite bool_decide_eq_true_2 by done. apply emits_ret. }
  assert (forall more r, emits db (if bool_decide (length page < n)%nat then sret (false, false) else page_loop fuel n t col (cursor_of col page) false false) more r ->
    emits db (do? page := findLookupPageAfter t col after n in
      if bool_decide (length page = 0%nat) then sret (first, firstRow)
      else (if firstRow then open_table first t else sret tt) ;? put_rows firstRow page ;?
           if bool_decide (length page < n)%nat then sret (false, false) else page_loop fuel n t col (cursor_of col page) false false)
      (opening t first firstRow ++ separated firstRow (map row_chunk page) ++ more) r) as Hone.
  { intros more r Hm. eapply (emits_bind _ _ _ []); [exact Hpage|]. rewrite bool_decide_eq_false_2 by (by destruct page). eapply emits_bind; [apply emits_opening|].
    eapply emits_bind; [apply emits_put_rows|exact Hm]. }
  assert (map row_chunk page <> []) as Hne by (by destruct page).
  destruct (bool_decide (length page < n)%nat) eqn:Eb.
  - exists page. eapply emits_text; [eapply emits_result; [apply Hone, emits_ret|by destruct page]|]. rewrite app_nil_r. by destruct page.
  - destruct (IH (cursor_of col page) false false) as [rows Hrows]; [exact Hg|]. exists (page ++ rows). eapply emits_text; [eapply emits_result; [apply Hone, Hrows|]|].
    + destruct rows; by destruct page.
    + rewrite map_app, separated_app by done. destruct page; [done|]. cbn [app opening]. by destruct rows.
Qed.

Definition appends_tabs (db : database) (m : srv bool) (first : bool) (R : list tab -> Prop) : Prop :=
  forall w s, view s = db -> exists s' tabs, m (ideal w) s = (s', inr (first && bool_decide (tabs = []))) /\ view s' = db
    /\ text_of s' = text_of s ++ separated first (map tab_text tabs) /\ R tabs.
Lemma one_text (first : bool) t rows : rows <> [] -> separated first (map tab_text (one t rows)) = opening t first true ++ separated true (map row_chunk rows) ++ [c_rbrack].
Proof.
  intros Hr. assert (one t rows = [(t, rows)]) as -> by (by destruct rows). cbn [map]. unfold separated at 1. unfold tab_text, opening. cbn [fst snd].
  by rewrite app_nil_r, <- !app_assoc.
Qed.
Lemma emits_one db (m : srv bool) first t rows (R : list tab -> Prop) : R (one t rows) ->
  emits db m (match rows with [] => [] | _ => opening t first true ++ separated true (map row_chunk rows) ++ [c_rbrack] end)
    (inr (match rows with [] => first | _ => false end)) -> appends_tabs db (on_gap m first) first R.
Proof.
  intros HR Hm w s Hv. destruct (Hm w s Hv) as (s' & E & V & T). exists s', (one t rows). unfold on_gap, scatch. rewrite E. split_and!; [|done| |done].
  - destruct rows; cbn; by rewrite ?andb_true_r, ?andb_false_r.
  - rewrite T. destruct rows as [|r rows]; [done|]. by rewrite one_text.
Qed.
(** A gap met before anything was written leaves the table out. *)
Lemma gap_none db (m : srv bool) first (R : list tab -> Prop) : R [] ->
  (forall w s, view s = db -> exists s' e, m (ideal w) s = (s', inl (ServerReads.Raised e)) /\ view s' = db /\ text_of s' = text_of s /\ isSchemaGapError e = true) ->
  appends_tabs db (on_gap m first) first R.
Proof.
  intros HR Hm w s Hv. destruct (Hm w s Hv) as (s' & e & E & V & T & Hg). exists s', []. unfold on_gap, scatch. rewrite E, Hg, T. cbn. by rewrite app_nil_r, andb_true_r.
Qed.
Lemma paged_tabs db t col first : appends_tabs db (on_gap (streamLookupPaged t col first) first) first (fun tabs => exists rows, tabs = one t rows).
Proof.
  set (q := Plain t (Cmp Gt (At col) (Lit (Int 0))) [col]). assert (forall db, emits db (row_count t) [] (inr (length (rows_of db t)))) as Hcount.
  { intros db' w s Hv. exists s. unfold row_count. by rewrite Hv, app_nil_r. }
  destruct (star_gap db q) as [n|] eqn:Eg.
  - apply gap_none; [by exists []|]. intros w s Hv. unfold streamLookupPaged. destruct (Hcount db w s Hv) as (s1 & E1 & V1 & T1). unfold sbind at 1. rewrite E1.
    cbn [page_loop]. unfold sbind at 1 2. unfold findLookupPageAfter, sread. cbn [faults ideal]. cbv zeta. rewrite V1. fold q. rewrite Eg.
    eexists _, _. split; [reflexivity|]. split; [done|]. split; [unfold text_of in *; cbn [wrote]; by rewrite T1, app_nil_r|]. by eapply gap_error.
  - destruct (pages_some db t col pageSize (S (length (rows_of db t))) (Int 0) first true Eg) as [rows Hrows].
    apply (emits_one db _ first t rows); [by exists rows|]. eapply (emits_bind _ _ _ []); [apply Hcount|]. cbv beta. destruct rows as [|r rows].
    + eapply (emits_bind _ _ _ []); [exact Hrows|]. eapply (emits_bind _ _ _ [] []); apply emits_ret.
    + eapply emits_text; [eapply emits_bind; [exact Hrows|]; eapply (emits_bind _ _ _ [c_rbrack] []); [apply emits_put|apply emits_ret]|]. by rewrite <- app_assoc.
Qed.

Lemma tabs_conseq db m first (R R' : list tab -> Prop) : (forall tabs, R tabs -> R' tabs) -> appends_tabs db m first R -> appends_tabs db m first R'.
Proof. intros HR Hm w s Hv. destruct (Hm w s Hv) as (s' & tabs & ? & ? & ? & ?). exists s', tabs. split_and!; auto. Qed.
Lemma table_tabs db x t first : appends_tabs db (streamIncrementalTable x t first) first (fun tabs => exists rows, tabs = one t rows /\ chosen db x t rows).
Proof.
  assert (forall col, (x_kind x = IndexerDb -> t ∈ indexerFullDumpSet) ->
    appends_tabs db (on_gap (streamLookupPaged t col first) first) first (fun tabs => exists rows, tabs = one t rows /\ chosen db x t rows)) as Hpaged.
  { intros col Hd. eapply tabs_conseq; [|apply paged_tabs]. intros tabs [rows ->]. exists rows. split; [done|]. intros Hk [Hn _]. by destruct (Hn (Hd Hk)). }
  unfold streamIncrementalTable. destruct (bool_decide (t ∈ lookupSet (x_kind x)) && full_dumped (x_kind x) t) eqn:El.
  { apply andb_true_iff in El as [_ Hd]. assert (x_kind x = IndexerDb -> t ∈ indexerFullDumpSet) as Hfd by (intros Ek; rewrite Ek in Hd; by apply bool_decide_eq_true in Hd).
    destruct (x_skipLookups x); [|by apply Hpaged]. apply (emits_one db (sret first) first t []); [|apply emits_ret].
    exists []. split; [done|]. intros Hk [Hn _]. by destruct (Hn (Hfd Hk)). }
  destruct (inband_cursor (x_kind x) t) as [col|] eqn:Ei.
  { apply Hpaged. intros Ek. rewrite Ek in Ei. unfold inband_cursor in Ei. by case_bool_decide. }
  intros w s Hv. unfold on_gap, scatch, sbind at 1. destruct (silent_select db x t w s Hv) as (s1 & r1 & E1 & V1 & W1 & Hr). rewrite E1.
  assert (text_of s1 = text_of s) as T1 by (unfold text_of; by rewrite W1).
  destruct r1 as [[|e]|o]; [done| |].
  { destruct Hr as [-> Hc]. exists s1, []. cbn. rewrite app_nil_r, andb_true_r. split_and!; [done..|]. by exists []. }
  destruct o as [[|r rows]|]; [..|exists s1, []; cbn; rewrite app_nil_r, andb_true_r; split_and!; [done..|]; by exists []].
  { exists s1, []. cbn. rewrite app_nil_r, andb_true_r. split_and!; [done..|]. by exists []. }
  assert (emits db (writeIncrementalTableRows t (r :: rows) first) (opening t first true ++ separated true (map row_chunk (r :: rows)) ++ [c_rbrack]) (inr false)) as Hw.
  { unfold writeIncrementalTableRows. eapply emits_text; [eapply emits_bind; [apply (emits_opening db t first true)|]; eapply emits_bind; [apply emits_put_rows|];
      eapply emits_bind; [apply emits_put|apply emits_ret]|]. by rewrite app_nil_r. }
  destruct (Hw w s1 V1) as (s2 & -> & V2 & T2). exists s2, (one t (r :: rows)). split_and!; [cbn; by rewrite andb_false_r|done|by rewrite T2, T1, one_text|by exists (r :: rows)].
Qed.

(** ** All tables *)
Definition selects (db : database) (x : select_ctx) (tables : list string) (tabs : list tab) : Prop :=
  exists choice, Forall2 (chosen db x) tables choice /\ tabs = concat (zip_with one tables choice).
Lemma selects_cons db x t tables rows tabs : chosen db x t rows -> selects db x tables tabs -> selects db x (t :: tables) (one t rows ++ tabs).
Proof. intros Hc (choice & Hf & ->). exists (rows :: choice). split; [by constructor|done]. Qed.
Lemma incremental_tabs db x tables first w s : view s = db -> exists s' tabs, incremental_tables x first tables (ideal w) s = (s', inr tt) /\ view s' = db
  /\ text_of s' = text_of s ++ separated first (map tab_text tabs) /\ selects db x tables tabs.
Proof.
  revert first s. induction tables as [|t tables IH]; intros first s Hv; cbn [incremental_tables].
  { exists s, []. cbn. rewrite app_nil_r. split_and!; try done. exists []. split; [constructor|done]. }
  destruct (table_tabs db x t first w s Hv) as (s1 & tabs1 & E1 & V1 & T1 & rows & -> & Hc). unfold sbind. rewrite E1.
  destruct (IH (first && bool_decide (one t rows = [])) s1 V1) as (s2 & tabs & -> & V2 & T2 & Hs).
  exists s2, (one t rows ++ tabs). split_and!; [done..| |by apply selects_cons]. rewrite T2, T1, <- app_assoc, map_app. f_equal.
  destruct (one t rows) as [|m l] eqn:Eo; [by rewrite bool_decide_eq_true_2, andb_true_r|].
  rewrite bool_decide_eq_false_2, andb_false_r by done. by rewrite separated_app.
Qed.
Lemma one_names t rows : map fst (one t rows) = [] \/ map fst (one t rows) = [t].
Proof. destruct rows; [by left|by right]. Qed.
Lemma selects_names db x tables tabs : selects db x tables tabs -> map fst tabs ⊆ tables /\ (NoDup tables -> NoDup (map fst tabs)).
Proof.
  intros (choice & Hf & ->). induction Hf as [|t rows tables choice Hc Hf [IH1 IH2]]; [split; [done|constructor]|]. cbn [zip_with concat]. rewrite map_app. split.
  - destruct (one_names t rows) as [->| ->]; cbn [app]; [by intros u Hu%IH1; right|]. intros u [->|Hu]%elem_of_cons; [left|right; by apply IH1].
  - intros [Ht Hn]%NoDup_cons. destruct (one_names t rows) as [->| ->]; cbn [app]; [by apply IH2|]. apply NoDup_cons. split; [|by apply IH2]. intros Hin. by apply Ht, IH1.
Qed.
Definition rows_in (tabs : list tab) (t : string) : list read_row := default [] (snd <$> List.find (fun m => bool_decide (m.1 = t)) tabs).
Lemma selects_rows db x tables tabs t : selects db x tables tabs -> NoDup tables -> t ∈ tables -> chosen db x t (rows_in tabs t).
Proof.
  intros (choice & Hf & ->). induction Hf as [|u rows tables choice Hc Hf IH]; intros Hn Ht; [by apply elem_of_nil in Ht|]. apply NoDup_cons in Hn as [Hu Hn].
  cbn [zip_with concat]. assert (selects db x tables (concat (zip_with one tables choice))) as Hsel by (by exists choice).
  unfold rows_in in *. apply elem_of_cons in Ht as [->|Ht].
  - destruct rows as [|r rows]; cbn [one app List.find fst]; [|by rewrite bool_decide_eq_true_2]. rewrite find_all_false; [done|].
    intros m Hm. apply bool_decide_eq_false. intros <-. apply Hu, (selects_names _ _ _ _ Hsel). by apply list_elem_of_fmap_2.
  - destruct rows as [|r rows]; cbn [one app List.find fst]; [by apply IH|]. rewrite bool_decide_eq_false_2 by (by intros ->). by apply IH.
Qed.

(** ** Updated rows *)
Definition updated_tables : list string :=
  DEACTIVATION_TABLES ++ map fst SLASH_SPECS ++ ROTATION_TABLES ++ REQUEST_STATUS_TABLES ++ POLL_FINALIZE_TABLES ++ COOLDOWN_STATUS_TABLES ++ map fst BET_STATUS_SPECS
  ++ ["anchor_actions"; "attests"; "tokens"; "order_matches"].
#[local] Notation known acc := (jm_keys acc ⊆ updated_tables).
Lemma add_known acc t rows : t ∈ updated_tables -> known acc -> known (add acc t rows).
Proof.
  intros Ht Ha. unfold add. destruct rows; [done|]. rewrite jm_keys_set. case_decide; [done|]. intros u [Hu|Hu]%elem_of_app; [by apply Ha|]. by apply list_elem_of_singleton in Hu as ->.
Qed.
Lemma silent_class db acc c E : c.1 ∈ updated_tables -> known acc -> silent db (collect_class acc c) (fun acc' => known acc') E.
Proof.
  intros Hc Ha. eapply silent_on_gap; [|done]. eapply silent_bind; [apply silent_find|]. intros rows _. by apply silent_ret, add_known.
Qed.
Lemma silent_classes db cs acc E : Forall (fun c : update_class => c.1 ∈ updated_tables) cs -> known acc -> silent db (collect_all cs acc) (fun acc' => known acc') E.
Proof.
  intros Hc. revert acc. induction Hc as [|c cs Hc _ IH]; intros acc Ha; [by apply silent_ret|]. eapply silent_bind; [by apply silent_class|]. intros acc' Ha'. by apply IH.
Qed.
Lemma silent_updated db from to delay E : silent db (collectUpdatedRows from to delay) (fun u => map fst u ⊆ updated_tables) E.
Proof.
  assert (forall (cs : list update_class), forallb (fun t => bool_decide (t ∈ updated_tables)) (map fst cs) = true -> Forall (fun c : update_class => c.1 ∈ updated_tables) cs) as Hall.
  { intros cs Hcs. rewrite forallb_forall in Hcs. apply Forall_forall. intros c Hc%list_elem_of_In. specialize (Hcs c.1 (in_map fst _ _ Hc)). by apply bool_decide_eq_true in Hcs. }
  unfold collectUpdatedRows, collectDeactivationAndSlashRows, collectRotationAndRequestRows, collectPollAndCooldownRows, collectBetStatusRows,
    collectInvalidArchiveRows, collectAttestBatchHeadRows, collectTokenSupplyRows, collectTokenEditRows, collectCoinpayMatchRows.
  assert (forall acc (cs : list update_class), forallb (fun t => bool_decide (t ∈ updated_tables)) (map fst cs) = true -> known acc ->
    silent db (collect_all cs acc) (fun acc' => known acc') E) as Hcs by (intros acc cs Hcs Ha; by apply silent_classes; [apply Hall|]).
  assert (forall acc (c : update_class), bool_decide (c.1 ∈ updated_tables) = true -> known acc -> silent db (collect_class acc c) (fun acc' => known acc') E) as Hc1
    by (intros acc c Hc Ha; apply silent_class; [by apply bool_decide_eq_true in Hc|done]).
  assert (jm_keys (@nil (string * jsmap string read_row)) ⊆ updated_tables) as H0' by (apply list_subseteq_nil).
  eapply (silent_bind _ _ _ (fun acc => known acc)).
  { eapply (silent_bind _ _ _ (fun acc => known acc)); [destruct delay; [by apply Hcs|by apply silent_ret]|]. intros acc Ha. by apply Hcs. }
  intros a1 Ha1. eapply silent_bind; [eapply silent_bind; [by apply Hcs|]; intros acc Ha; by apply Hcs|].
  intros a2 Ha2. eapply silent_bind; [eapply silent_bind; [by apply Hcs|]; intros acc Ha; by apply Hcs|].
  intros a3 Ha3. do 6 (eapply silent_bind; [first [by apply Hcs|by apply Hc1]|]; intros ? ?).
  apply silent_ret. intros t (m & -> & [Hm _]%elem_of_lfilter)%list_elem_of_fmap. apply list_elem_of_fmap in Hm as (m' & -> & Hm'). cbn [fst].
  cbv beta in *. match goal with Hm : _ ∈ ?acc, Hk : jm_keys ?acc ⊆ _ |- _ => apply Hk end. unfold jm_keys. by apply list_elem_of_fmap_2.
Qed.

(** ** The body as a document *)
Definition tab_json (m : tab) : string * json := (m.1, PArr (map row_json m.2)).
Definition window_members (kind : db_type) (b since : Z) (tabs : list tab) : list (string * json) :=
  [("schema_version", PNum (SCHEMA_VERSION kind)); ("block_height", PNum b); ("since_block", PNum since); ("tables", PObj (map tab_json tabs))].
Definition updated_text (extra : list (string * json)) : bytes := flat_map (cons c_comma) (map (print_member print_json) extra).

Lemma updated_text_one j : updated_text [("updated_rows", j)] = utf8 ("," +:+ q_ +:+ "updated_rows" +:+ q_ +:+ ":")%string ++ print_json j.
Proof. unfold updated_text, print_member. cbn [map flat_map fst snd]. rewrite app_nil_r. reflexivity. Qed.
Lemma tab_text_print m : valid_identifier m.1 = true -> tab_text m = print_member print_json (tab_json m).
Proof.
  intros Ht. unfold tab_text, print_member, tab_json. cbn [fst snd print_json]. rewrite (quoted_print m.1 Ht). f_equal. change (utf8 ":[") with [c_colon; c_lbrack].
  cbn [app]. do 3 f_equal. rewrite separated_join, map_map. by destruct m.2.
Qed.
Lemma join_comma_cons a l : join_comma (a :: l) = a ++ flat_map (cons c_comma) l.
Proof.
  revert a. induction l as [|b l IH]; intros a; [cbn; by rewrite app_nil_r|]. change (join_comma (a :: b :: l)) with (a ++ c_comma :: join_comma (b :: l)). by rewrite IH.
Qed.
Lemma window_print kind b since tabs extra : Forall (fun m : tab => valid_identifier m.1 = true) tabs ->
  (incremental_head kind b since ++ tables_open) ++ separated true (map tab_text tabs) ++ [c_rbrace] ++ updated_text extra ++ [c_rbrace]
  = print_json (PObj (window_members kind b since tabs ++ extra)).
Proof.
  intros Hv.
  assert (separated true (map tab_text tabs) = join_comma (map (print_member print_json) (map tab_json tabs))) as Et.
  { rewrite separated_join, map_map. assert (map tab_text tabs = map (fun m => print_member print_json (tab_json m)) tabs) as ->.
    { apply map_ext_in. intros m Hm%list_elem_of_In. rewrite Forall_forall in Hv. by apply tab_text_print, Hv. }
    by destruct tabs. }
  rewrite Et. cbn [print_json]. unfold window_members. rewrite map_app. cbn [map app]. rewrite join_comma_cons. cbn [flat_map].
  unfold print_member at 2 3 4 5. cbn [fst snd]. unfold incremental_head, snapshot_head, tables_open, q_. rewrite !utf8_app, !utf8_of_utf8.
  unfold string_of_int. rewrite !utf8_of_utf8. cbn [print_json]. unfold updated_text.
  repeat (rewrite <- ?app_assoc; progress cbn [app]). rewrite <- ?app_assoc. destruct kind; reflexivity.
Qed.

(** ** The undisturbed stream *)
Definition run_text {A} (db : database) (m : srv A) (Q : bytes -> Prop) : Prop :=
  forall w s, view s = db -> exists t, text_of (m (ideal w) s).1 = text_of s ++ t /\ Q t.
Lemma run_ret {A} db (a : A) (Q : bytes -> Prop) : Q [] -> run_text db (sret a) Q.
Proof. intros HQ w s Hv. exists []. by rewrite app_nil_r. Qed.
Lemma run_throw {A} db e (Q : bytes -> Prop) : Q [] -> run_text db (@sthrow A e) Q.
Proof. intros HQ w s Hv. exists []. by rewrite app_nil_r. Qed.
Lemma run_conseq {A} db (m : srv A) (Q Q' : bytes -> Prop) : (forall t, Q t -> Q' t) -> run_text db m Q -> run_text db m Q'.
Proof. intros HQ Hm w s Hv. destruct (Hm w s Hv) as (t & ? & ?). exists t. auto. Qed.
Lemma run_emits {A B} db (m : srv A) (k : A -> srv B) t a Q : emits db m t (inr a) -> run_text db (k a) (fun t' => Q (t ++ t')) -> run_text db (sbind m k) Q.
Proof.
  intros Hm Hk w s Hv. destruct (Hm w s Hv) as (s1 & E1 & V1 & T1). unfold sbind. rewrite E1. destruct (Hk w s1 V1) as (t' & T2 & HQ).
  exists (t ++ t'). by rewrite T2, T1, app_assoc.
Qed.
Lemma run_silent {A B} db (m : srv A) (k : A -> srv B) R E (Q : bytes -> Prop) : silent db m R E -> Q [] -> (forall a, R a -> run_text db (k a) Q) -> run_text db (sbind m k) Q.
Proof.
  intros Hm H0' Hk w s Hv. destruct (Hm w s Hv) as (s1 & r & E1 & V1 & W1 & Hr). assert (text_of s1 = text_of s) as T1 by (unfold text_of; by rewrite W1).
  unfold sbind. rewrite E1. destruct r as [e|a]; [exists []; cbn; by rewrite app_nil_r|]. rewrite <- T1. by apply Hk.
Qed.
Lemma run_tabs {B} db x tables (k : unit -> srv B) Q :
  (forall tabs, selects db x tables tabs -> run_text db (k tt) (fun t' => Q (separated true (map tab_text tabs) ++ t'))) ->
  run_text db (sbind (incremental_tables x true tables) k) Q.
Proof.
  intros Hk w s Hv. destruct (incremental_tabs db x tables true w s Hv) as (s1 & tabs & E1 & V1 & T1 & Hs). unfold sbind. rewrite E1.
  destruct (Hk tabs Hs w s1 V1) as (t' & T2 & HQ). eexists. split; [|exact HQ]. by rewrite T2, T1, app_assoc.
Qed.
Lemma sbind_assoc {A B C} (m : srv A) (k : A -> srv B) (k' : B -> srv C) w s : sbind (sbind m k) k' w s = sbind m (fun a => sbind (k a) k') w s.
Proof. unfold sbind. by destruct (m w s) as [s1 [e|a]]. Qed.
Lemma run_assoc {A B C} db (m : srv A) (k : A -> srv B) (k' : B -> srv C) Q : run_text db (sbind m (fun a => sbind (k a) k')) Q -> run_text db (sbind (sbind m k) k') Q.
Proof. intros Hr w s Hv. rewrite sbind_assoc. by apply Hr. Qed.

Definition window_ctx (kind : db_type) (g : string) (db : database) (since b : Z) (skip : bool) : select_ctx :=
  SelectCtx kind since b skip (match kind with IndexerDb => first_from db since | DecoderDb => None end) g.
(** A text without an end, or a whole document of the window. *)
Definition window_text (kind : db_type) (g : string) (db : database) (since : Z) (skip : bool) (text : bytes) : Prop :=
  text = [] \/ exists b m more, last_block db = Some b /\ print_json (PObj m) = text ++ more
    /\ (more = [] -> exists tabs extra, selects db (window_ctx kind g db since b skip) (streamed_tables db) tabs
          /\ m = window_members kind b since tabs ++ extra
          /\ (extra = [] \/ exists u, map fst u ⊆ updated_tables /\ extra = [("updated_rows", updated_json u)])).

Lemma silent_ctx db kind g since b skip :
  silent db (buildIncrementalSelectCtx kind g since b skip) (fun x => x = window_ctx kind g db since b skip) True.
Proof.
  destruct kind; [|by apply silent_ret]. eapply silent_bind; [eapply (silent_gap db (fun db => gap db _ _) (fun db => first_from db since)); intros n Hn; split; [by eapply gap_error|done]|].
  intros f [_ ->]. by apply silent_ret.
Qed.

Lemma run_incremental kind g delay since skip db : forallb valid_identifier (streamed_tables db) = true ->
  run_text db (streamIncrementalSnapshotLocked kind g delay since skip) (window_text kind g db since skip).
Proof.
  intros Hvalid. set (Q := window_text kind g db since skip). assert (Q []) as HQ0 by (by left).
  assert (run_text db (beginReadSnapshot ;? do? lastBlock := getLastBlock in
    match lastBlock with
    | Some b => if b <? since then commitReadSnapshot ;? sret NotFound
        else readHashRow kind ;? put (incremental_head kind b since ++ tables_open) ;? streamIncrementalTables kind g since b skip ;?
             put [c_rbrace] ;? writeIncrementalUpdatedRows kind since b (mjoin delay) ;? put [c_rbrace] ;? commitReadSnapshot ;? sret Served
    | None => commitReadSnapshot ;? sret NotFound
    end) Q) as Hrun; [|unfold streamIncrementalSnapshotLocked; destruct kind, delay as [[]|]; first [exact Hrun|by apply run_throw]].
  apply (run_emits _ _ _ [] tt); [eapply (emits_bind _ _ _ [] []); apply emits_tick|]. cbn [app].
  eapply run_silent; [apply (silent_gap db (fun db => gap db _ _) last_block True); intros n Hn; split; [by eapply gap_error|done]|exact HQ0|].
  intros o [_ ->]. assert (run_text db (commitReadSnapshot ;? sret NotFound) Q) as Hnone by (by apply (run_emits _ _ _ [] tt); [apply emits_tick|apply run_ret]).
  destruct (last_block db) as [b|] eqn:Eb; [|exact Hnone]. destruct (b <? since); [exact Hnone|].
  eapply run_silent; [apply (silent_gap db (fun db => gap db _ _) (fun _ => tt) True); intros n Hn; split; [by eapply gap_error|done]|exact HQ0|]. intros _ _.
  eapply run_emits; [apply emits_put|]. unfold streamIncrementalTables. apply run_assoc.
  apply (run_emits _ _ _ [] (streamed_tables db)). { eapply (emits_bind _ _ _ [] []); [by apply emits_read|apply emits_ret]. }
  cbn [app]. apply run_assoc.
  assert (forall tabs, selects db (window_ctx kind g db since b skip) (streamed_tables db) tabs \/ tabs = [] -> Forall (fun m : tab => valid_identifier m.1 = true) tabs) as Hnames.
  { intros tabs [Hs| ->]; [|constructor]. apply Forall_forall. intros m Hm. rewrite forallb_forall in Hvalid. apply Hvalid, list_elem_of_In.
    apply (selects_names _ _ _ _ Hs). by apply list_elem_of_fmap_2. }
  eapply run_silent; [apply silent_ctx| |].
  { right. exists b, (window_members kind b since []), [c_rbrace; c_rbrace]. split_and!; [done| |done]. rewrite app_nil_r.
    rewrite <- (app_nil_r (window_members _ _ _ _)). by rewrite <- window_print by (by constructor). }
  intros x ->. apply run_tabs. intros tabs Hs. apply (run_emits _ _ _ [c_rbrace] tt); [apply emits_put|].
  assert (forall extra, (extra = [] \/ exists u, map fst u ⊆ updated_tables /\ extra = [("updated_rows", updated_json u)]) ->
    run_text db (put [c_rbrace] ;? commitReadSnapshot ;? sret Served)
      (fun t => Q ((incremental_head kind b since ++ tables_open) ++ separated true (map tab_text tabs) ++ [c_rbrace] ++ updated_text extra ++ t))) as Hend.
  { intros extra Hx. apply (run_emits _ _ _ [c_rbrace] tt); [apply emits_put|]. apply (run_emits _ _ _ [] tt); [apply emits_tick|]. apply run_ret.
    right. exists b, (window_members kind b since tabs ++ extra), []. split_and!; [done| |intros _; by exists tabs, extra]. rewrite <- window_print by (apply Hnames; by left).
    by rewrite !app_nil_r. }
  unfold writeIncrementalUpdatedRows. destruct kind.
  - apply run_assoc. eapply (run_silent _ _ _ _ True); [apply silent_updated| |].
    + right. exists b, (window_members IndexerDb b since tabs), [c_rbrace]. split_and!; [done| |done]. rewrite app_nil_r.
      rewrite <- (app_nil_r (window_members _ _ _ _)), <- window_print by (apply Hnames; by left). cbn [updated_text app]. by rewrite <- !app_assoc.
    + intros u Hu. eapply run_emits; [apply emits_put|]. eapply run_conseq; [|apply (Hend [("updated_rows", updated_json u)]); right; by exists u].
      intros t. cbv beta. by rewrite updated_text_one.
  - apply (run_emits _ _ _ [] tt); [apply emits_ret|]. apply (Hend []). by left.
Qed.

(** ** What arrives *)
Lemma streams_find q : streams (find_rows q).
Proof. apply streams_read. Qed.
Lemma streams_page t col after n : streams (findLookupPageAfter t col after n).
Proof. apply streams_read. Qed.
#[local] Hint Resolve streams_find streams_page streams_put_rows : streams_db.
Lemma streams_rewards q : streams (reward_rows (find_rows q)).
Proof. unfold reward_rows. streams. Qed.
Lemma streams_matured t g from to : streams (collectMatured t g from to).
Proof. unfold collectMatured, getStatusId_soft. streams; apply streams_find. Qed.
#[local] Hint Resolve streams_rewards streams_matured : streams_db.
Lemma streams_select x t : streams (selectIncrementalRows x t).
Proof.
  unfold selectIncrementalRows, selectDecoderRows, selectIndexerRows, some_rows, mergeMaturedCooldownRows, mergeValidatorRewardRows, reward_channel.
  streams; first [apply streams_find|apply streams_rewards].
Qed.
Lemma streams_pages fuel n t col after first firstRow : streams (page_loop fuel n t col after first firstRow).
Proof.
  revert after first firstRow. induction fuel as [|fuel IH]; intros after first firstRow; cbn [page_loop]; unfold open_table; streams; apply IH.
Qed.
#[local] Hint Resolve streams_select streams_pages : streams_db.
Lemma streams_table x t first : streams (streamIncrementalTable x t first).
Proof. unfold streamIncrementalTable, streamLookupPaged, writeIncrementalTableRows, open_table. streams. Qed.
Lemma streams_classes cs acc : streams (collect_all cs acc).
Proof. revert acc. induction cs as [|c cs IH]; intros acc; cbn [collect_all]; unfold collect_class; streams; apply IH. Qed.
#[local] Hint Resolve streams_table streams_classes : streams_db.
Lemma streams_updated from to delay : streams (collectUpdatedRows from to delay).
Proof.
  unfold collectUpdatedRows, collectDeactivationAndSlashRows, collectRotationAndRequestRows, collectPollAndCooldownRows, collectBetStatusRows,
    collectInvalidArchiveRows, collectAttestBatchHeadRows, collectTokenSupplyRows, collectTokenEditRows, collectCoinpayMatchRows, collect_class. streams.
Qed.
Lemma streams_tabs x first tables : streams (incremental_tables x first tables).
Proof. revert first. induction tables as [|t tables IH]; intros first; cbn [incremental_tables]; streams; apply IH. Qed.
#[local] Hint Resolve streams_updated streams_tabs : streams_db.
Lemma streams_incremental kind g delay since skip : streams (streamIncrementalSnapshotLocked kind g delay since skip).
Proof.
  unfold streamIncrementalSnapshotLocked, beginReadSnapshot, commitReadSnapshot, tick, getLastBlock, readHashRow, streamIncrementalTables, getOrderedTables, findStreamableTableNames_conn,
    buildIncrementalSelectCtx, getFirstActionIndex_conn, writeIncrementalUpdatedRows. streams.
Qed.
Lemma window_whole kind g delay since skip w s text more j :
  benign (faults w) -> wrote s = [] -> forallb valid_identifier (streamed_tables (view s)) = true ->
  text_of (streamIncrementalSnapshotLocked kind g delay since skip w s).1 = text ++ more -> JSON_parse (of_utf8 text) = Some j ->
  exists b tabs extra, last_block (view s) = Some b /\ selects (view s) (window_ctx kind g (view s) since b skip) (streamed_tables (view s)) tabs
    /\ j = PObj (window_members kind b since tabs ++ extra)
    /\ (extra = [] \/ exists u, map fst u ⊆ updated_tables /\ extra = [("updated_rows", updated_json u)]).
Proof.
  intros Hb Hw Hvalid Htext Hj. destruct (text_prefix _ w s (streams_incremental kind g delay since skip) Hb) as [rest Hrest].
  destruct (run_incremental kind g delay since skip (view s) Hvalid w s eq_refl) as (t & Et & HQ).
  assert (text_of s = []) as T0 by (unfold text_of; by rewrite Hw). rewrite Et, T0, Htext, <- app_assoc in Hrest. cbn [app] in Hrest.
  destruct HQ as [->|(b & m & tail & Eb & Hm & Hwhole)]; [by apply app_eq_nil in Hrest as [-> _]|].
  rewrite <- Hrest, <- app_assoc in Hm. destruct (parse_prefix _ _ _ _ Hm Hj) as [Hnil ->]. apply app_eq_nil in Hnil as [_ ->].
  destruct (Hwhole eq_refl) as (tabs & extra & Hs & -> & Hx). by exists b, tabs, extra.
Qed.

(** ** The payload as it arrives *)
Definition wire_tabs (tabs : list tab) : wire_tables := map (fun m => (m.1, map (fun r => members_of (encodeRow r)) m.2)) tabs.
Lemma window_arrives kind b since tabs extra : (extra = [] \/ exists u, map fst u ⊆ updated_tables /\ extra = [("updated_rows", updated_json u)]) ->
  exists updated, snapshot_of_json (PObj (window_members kind b since tabs ++ extra)) = SnapshotPayload (Some (wire_tabs tabs)) (Some (SCHEMA_VERSION kind)) b (Some since) updated
    /\ map fst (default [] updated) ⊆ updated_tables.
Proof.
  assert (forall l : list tab, json_tables (PObj (map (fun m => (m.1, PArr (map (fun r => PObj (members_of (encodeRow r))) m.2))) l)) = Some (wire_tabs l)) as Et.
  { intros l. unfold json_tables, wire_tabs. rewrite map_map. f_equal. apply map_ext. intros m. cbn [fst snd]. by rewrite map_map. }
  intros [->|(u & Hu & ->)]; cbn [app window_members].
  - exists None. split; [|apply list_subseteq_nil].
    change (SnapshotPayload (json_tables (PObj (map tab_json tabs))) (Some (SCHEMA_VERSION kind)) b (Some since) None = SnapshotPayload (Some (wire_tabs tabs)) (Some (SCHEMA_VERSION kind)) b (Some since) None).
    unfold tab_json, row_json. by rewrite Et.
  - exists (Some (wire_tabs u)). split; [|unfold wire_tabs; cbn; by rewrite map_map].
    change (SnapshotPayload (json_tables (PObj (map tab_json tabs))) (Some (SCHEMA_VERSION kind)) b (Some since) (json_tables (updated_json u))
      = SnapshotPayload (Some (wire_tabs tabs)) (Some (SCHEMA_VERSION kind)) b (Some since) (Some (wire_tabs u))).
    unfold tab_json, row_json, updated_json. by rewrite !Et.
Qed.
Lemma wire_tabs_rows tabs t : rows_carried (wire_tabs tabs) t = map (fun r => members_of (encodeRow r)) (rows_in tabs t).
Proof.
  unfold rows_carried, carried, rows_in, wire_tabs. induction tabs as [|m tabs IH]; [done|]. cbn [map List.find fst]. repeat case_bool_decide; done.
Qed.

(** ** What an incremental snapshot adds to one table *)
Lemma after_window_inserts ts strict t l0 : plain_table t -> t ∉ REPLICA_LEDGER_TABLES -> NoDup (map fst ts) ->
  after (fun db => rows_of db t = l0) (insertSnapshotTables ts strict) (fun db => added_to t (rows_carried ts t) l0 (rows_of db t)).
Proof.
  intros Hp Hl Hn. unfold insertSnapshotTables. set (step := fun m : string * list wire_row => _).
  assert (forall m, writes [m.1] (step m)) as Hw.
  { intros m db0. unfold step. destruct (_ || _); [apply preserves_ret|]. apply preserves_bind; [|intros _; apply writes_insertRows; left].
    destruct (repairNaturalKeyColumns m.1); [|apply preserves_ret]. destruct strict; [apply writes_reconcile|apply preserves_ret]. }
  assert (forall m, m.1 <> t -> forall Q : list row -> Prop, preserves (fun db => Q (rows_of db t)) (step m)) as Hm.
  { intros m Hm Q. eapply preserves_rows; [apply Hw|]. by intros ->%list_elem_of_singleton. }
  destruct (decide (t ∈ map fst ts)) as [Hin|Hin].
  - apply list_elem_of_In, in_map_iff in Hin as ([t' rows] & Et & Hin%list_elem_of_In). cbn in Et. subst t'.
    destruct (carried_once ts t rows Hn Hin) as (-> & Hnd & Hy). apply (after_each_one _ _ _ _ (t, rows) Hin Hnd).
    + intros y Hyin Hne. split; [apply (Hm y (Hy y Hyin Hne) (fun l => l = l0))|apply (Hm y (Hy y Hyin Hne) (added_to t rows l0))].
    + unfold step. cbn [fst snd]. case_bool_decide as E0; cbn [orb].
      { apply after_ret. intros db ->. destruct rows; [|done]. exists []. by rewrite app_nil_r. }
      rewrite bool_decide_eq_false_2 by done. assert (repairNaturalKeyColumns t = None) as ->.
      { unfold repairNaturalKeyColumns. case_bool_decide as Et; [|done]. subst. exfalso. apply (proj1 Hp). apply (bool_decide_eq_true_1 (_ ∈ _)). reflexivity. }
      eapply (after_bind _ (fun db => rows_of db t = l0)); [by apply after_ret|intros _].
      eapply after_conseq; [|eapply after_weaken; [|apply (after_insert_plain t rows _ l0 (fun _ => True) Hp)]]; [by intros db [_ ?]|by intros db|done].
  - rewrite rows_carried_absent by done. eapply after_conseq; [|apply after_preserves, preserves_each].
    + intros db ->. exists []. by rewrite app_nil_r.
    + intros [t' rows] Hmin. apply (Hm (t', rows)) with (Q := fun l => l = l0). cbn. intros ->. by apply Hin, (key_of ts t rows).
Qed.
Lemma after_window_rows a strict h since updated ts t l0 :
  plain_table t -> t ∉ REPLICA_LEDGER_TABLES -> NoDup (map fst ts) -> t ∉ map fst (default [] updated) ++ derived_tables ->
  after (fun db => rows_of db t = l0) (incrementalBody a strict h since updated ts) (fun db => added_to t (rows_carried ts t) l0 (rows_of db t)).
Proof.
  intros Hp Hl Hn Hu. unfold incrementalBody. eapply after_bind; [by apply after_window_inserts|]. intros _. apply after_preserves.
  destruct (dbType a); [|apply preserves_ret]. apply preserves_bind; [by eapply preserves_rows; [apply writes_derived|]|]. intros _.
  eapply preserves_rows; [apply writes_seed_roots|]. intros Hc. apply Hu. unfold derived_tables. rewrite !elem_of_app. tauto.
Qed.

(** ** The rows a replica is behind *)

(** The column and the bound that place a row inside the window: the table's block column
    and the first block asked for, or the first action of the window. *)
Definition window_key (db : database) (since : Z) (t : string) : option (string * Z) :=
  if bool_decide (t ∈ indexerBlockScopedSet) then Some (blockKey t, since) else pair "action_index" <$> first_from db since.
Definition recent (db : database) (since : Z) (t : string) (r : row) : bool :=
  match window_key db since t with Some (c, z) => bool_decide (cmp3 Ge (cell r c) (Int z) = Some true) | None => false end.
Definition window_column (db : database) (since : Z) (t : string) : Prop := forall c z, window_key db since t = Some (c, z) -> has_column db (t, c) = true.

Lemma since_rows_recent db g since b skip t : is_Some (db !! t) -> window_column db since t ->
  exists l, l ≡ₚ List.filter (recent db since t) (rows_of db t) /\ since_rows db (window_ctx IndexerDb g db since b skip) t = map (as_read t (table_columns db t)) l.
Proof.
  intros [x Hx] Hc. unfold since_rows. assert (since_query (window_ctx IndexerDb g db since b skip) t
    = (fun k => Plain t (Cmp Ge (At k.1) (Lit (Int k.2))) [k.1]) <$> window_key db since t) as -> by done.
  unfold recent. destruct (window_key db since t) as [[c z]|] eqn:Ek; cbn [fmap option_fmap option_map fst snd].
  2:{ exists []. split; [|done]. by induction (rows_of db t). }
  specialize (Hc c z Ek). assert (star_gap db (Plain t (Cmp Ge (At c) (Lit (Int z))) [c]) = None) as ->.
  { unfold star_gap, gap. cbn. rewrite Hx. cbn. rewrite (bool_decide_eq_true_2 ("t" = "t")) by done. cbn. by rewrite Hc. }
  eexists. split; [|unfold star_answer; cbn [q_table q_cols Plain default]; reflexivity]. rewrite plain_rows, order_by_perm.
  erewrite filter_ext; [reflexivity|]. intros r. unfold satisfied. cbn [holds eval At alias_row]. by rewrite (bool_decide_eq_true_2 ("t" = "t")).
Qed.
Lemma filter_split_perm {A} (p : A -> bool) l : List.filter (fun x => negb (p x)) l ++ List.filter p l ≡ₚ l.
Proof.
  induction l as [|x l IH]; [done|]. cbn [List.filter]. destruct (p x); cbn [negb app]; [rewrite <- Permutation_middle|]; by rewrite IH.
Qed.
Lemma plain_columns t cols : plain_table t -> replicated_columns t cols = cols.
Proof.
  intros (_ & _ & _ & Ho & Hg & Hs & _). unfold replicated_columns, own_id. rewrite Hg, Hs. rewrite (bool_decide_eq_false_2 _ Ho).
  rewrite (bool_decide_eq_false_2 (is_Some None)) by (by intros [? ?]). cbn [orb andb negb]. rewrite !lfilter_all; try done; intros c _; by rewrite bool_decide_eq_false_2 by apply not_elem_of_nil.
Qed.
(** The rows of [l'] are those of [l] in some order, on these columns. *)
Definition copy_on (columns : list string) (l l' : list row) : Prop := exists k, k ≡ₚ l /\ Forall2 (same_on columns) k l'.

End Catchup.
