(* ===== verification/SnapshotExample.v ===== *)
(** * SnapshotExample: a small source served to a small replica

    The source of [ApplierExample] after block 101, read by a driver that returns integers
    as numbers and texts as strings, and a replica still at block 100. *)

From stdpp Require Import sorting.
From S2P Require Import Prelude Sha256 JsText JsNumber JsMap JsDouble Json JsonPrefix Primitives GateRegistry Gates Subtrees FollowerRoots Regex Validation SchemaGuard WireCodec Sql TableLifecycle TokenRefold Balances Rollback RollbackAtomic RollbackEffect RowWrites Applier ApplierAtomic ApplierMirror ApplierBalances ApplierRollback ApplierExample ServerReads RowProducers SnapshotBuilder SnapshotWire SnapshotPaging SnapshotReplica SnapshotCatchup.

#[local] Open Scope Z_scope.
#[local] Notation row := (gmap string value).
#[local] Notation cell := Sql.cell.

Module ServeExample.
#[local] Existing Instance ApplyExample.dialect.
#[local] Existing Instance ApplyExample.mathjs.
#[local] Existing Instance ApplyExample.storage.
#[local] Existing Instance ApplyExample.storage_laws.
#[local] Existing Instance ApplyExample.no_commitment.
#[local] Existing Instance ApplyExample.no_commitment_laws.

(** ** A driver *)
Definition driver_value (v : value) : WireCodec.cell :=
  Val (match v with Null => VNull | Int z => VNum z | Text s => VStr s | Dec u => VBig u end).
Definition by_int (c : string) (x y : row) : Prop := int_of c x <= int_of c y.
#[local] Instance by_int_dec c x y : Decision (by_int c x y).
Proof. unfold by_int. apply _. Defined.
#[local] Instance by_int_total c : Total (by_int c).
Proof. intros x y. unfold by_int. lia. Qed.
#[local] Instance by_int_trans c : Transitive (by_int c).
Proof. intros x y z. unfold by_int. lia. Qed.
#[local] Instance source_db : SourceDb := {|
  fetch := fun _ _ => driver_value;
  order_by := fun cs l => match cs with [c] => merge_sort (by_int c) l | _ => l end |}.
#[local] Instance source_laws : SourceLaws.
Proof.
  split.
  - intros cs l. cbn. destruct cs as [|c [|]]; try done. apply merge_sort_Permutation.
  - intros c l _. cbn. apply (StronglySorted_merge_sort (by_int c)).
Qed.

(** ** The bootstrap *)
Definition source : database := committed ApplyExample.at_101.
Definition quiet : world := World (fun _ => None) (fun _ => None) (fun _ => Some source).
Definition opened : serving := Serving source 0 [].
Definition body : bytes := text_of (streamFullSnapshotLocked IndexerDb quiet opened).1.
Definition payload_101 : snapshot_payload := default (SnapshotPayload None None 0 None None) (parseSnapshotBody body).
Lemma body_parses : parseSnapshotBody body = Some payload_101.
Proof. vm_compute. reflexivity. Qed.
Definition copied : replica := (applyFullSnapshot ApplyExample.app payload_101 ApplyExample.never faultless ApplyExample.start).1.
Lemma copy_ok : applyFullSnapshot ApplyExample.app payload_101 ApplyExample.never faultless ApplyExample.start = (copied, Done tt).
Proof. vm_compute. reflexivity. Qed.
(** A download that breaks off anywhere is refused. *)
Example truncated_refused : parseSnapshotBody (take 400 body) = None /\ parseSnapshotBody (removelast body) = None.
Proof. split; vm_compute; reflexivity. Qed.

#[local] Ltac decided := match goal with |- ?P => apply (bool_decide_eq_true_1 P); vm_compute; reflexivity end.
#[local] Ltac each_of Hin := vm_compute in Hin; repeat first [apply elem_of_cons in Hin as [->|Hin]|by apply elem_of_nil in Hin].

(** The schema takes back every value of the source but a computed decimal. *)
Lemma value_back t c v : (forall u, v <> Dec u) -> store t c (coerce_arg (arrived t c v)) = v.
Proof. intros Hv. destruct v as [|z|x|u]; try done. by destruct (Hv u). Qed.
Definition plain_cells (cols : list string) (x : row) : bool := forallb (fun c => match cell x c with Dec _ => false | _ => true end) cols.
Lemma plain_cell cols x c u : plain_cells cols x = true -> c ∈ cols -> cell x c <> Dec u.
Proof. unfold plain_cells. rewrite forallb_forall. intros Hall Hc%list_elem_of_In E. specialize (Hall c Hc). by rewrite E in Hall. Qed.
Definition pairwise {A} (p : A -> A -> bool) (l : list A) : bool :=
  let ids := seq 0 (length l) in
  forallb (fun i => forallb (fun j => (i =? j)%nat || match l !! i, l !! j with Some x, Some y => p x y | _, _ => true end) ids) ids.
Lemma pairwise_lookup {A} (p : A -> A -> bool) l i j x y : pairwise p l = true -> i <> j -> l !! i = Some x -> l !! j = Some y -> p x y = true.
Proof.
  unfold pairwise. rewrite forallb_forall. intros Hall Hij Hi Hj. specialize (Hall i). rewrite in_seq in Hall. apply lookup_lt_Some in Hi as Li. apply lookup_lt_Some in Hj as Lj.
  specialize (Hall ltac:(lia)). rewrite forallb_forall in Hall. specialize (Hall j). rewrite in_seq in Hall. specialize (Hall ltac:(lia)).
  rewrite Hi, Hj in Hall. apply orb_true_iff in Hall as [E%Nat.eqb_eq|Hp]; [done|exact Hp].
Qed.
Lemma addresses_faithful : faithful source "index_addresses".
Proof.
  split.
  - intros x c _ _. cbn. destruct (cell x c); by eexists.
  - assert (forallb (plain_cells (table_columns source "index_addresses")) (rows_of source "index_addresses") = true) as Hp by (vm_compute; reflexivity).
    intros x c Hx%list_elem_of_In Hc%kept_column. apply value_back. intros u. rewrite forallb_forall in Hp. by eapply plain_cell, Hc; apply Hp.
  - intros x c _ _ [=].
  - intros i j x y _ Hij Hi Hj. assert (cmp3 Eq (cell y "id") (cell x "id") <> Some true) as Hne; [|clear Hi Hj; intros k Hk; right; each_of Hk; exists "id"; split_and!; [decided..|exact Hne]].
    apply (bool_decide_eq_true_1 (cmp3 Eq (cell y "id") (cell x "id") <> Some true)).
    apply (pairwise_lookup (fun x y => bool_decide (cmp3 Eq (cell y "id") (cell x "id") <> Some true)) (rows_of source "index_addresses") i j x y); [vm_compute; reflexivity|exact Hij|exact Hi|exact Hj].
Qed.
Lemma full_snapshot_replicates_witness :
  last_block source = Some 101
  /\ (exists l, l ≡ₚ rows_of source "index_addresses" /\ Forall2 (same_on ["id"; "address"]) l (rows_of (committed copied) "index_addresses"))
  /\ committed copied !! "sync_halt" = ApplyExample.at_100 !! "sync_halt".
Proof.
  destruct (full_snapshot_replicates IndexerDb quiet opened body [] payload_101 ApplyExample.app ApplyExample.never faultless ApplyExample.start copied)
    as (Hlast & _ & Hall); [done|done|by rewrite app_nil_r|exact body_parses|exact faultless_benign|exact copy_ok|].
  assert (sn_block_height payload_101 = 101) as Eh by (vm_compute; reflexivity). rewrite Eh in Hlast.
  assert (replicated_columns "index_addresses" (table_columns source "index_addresses") = ["id"; "address"]) as Ec by (vm_compute; reflexivity).
  destruct (Hall "index_addresses") as [_ Hcopy]; [decided|]. destruct (Hall "sync_halt") as [Hown _]; [decided|]. cbn [view opened] in *. rewrite Ec in Hcopy.
  split; [exact Hlast|]. split; [apply Hcopy; [decided|discriminate|exact addresses_faithful]|apply Hown; decided].
Defined.

(** ** The catch-up of block 101 *)
Definition window_body : bytes := text_of (streamIncrementalSnapshotLocked IndexerDb "XCHAIN" (Some (Some 6)) 101 false quiet opened).1.
Definition window_101 : snapshot_payload := default (SnapshotPayload None None 0 None None) (parseCatchUpBody window_body).
Lemma window_parses : parseCatchUpBody window_body = Some window_101.
Proof. vm_compute. reflexivity. Qed.
Definition caught_up : replica := (applyIncrementalSnapshot ApplyExample.app window_101 true ApplyExample.never faultless ApplyExample.start).1.
Lemma catch_up_ok : applyIncrementalSnapshot ApplyExample.app window_101 true ApplyExample.never faultless ApplyExample.start = (caught_up, Done tt).
Proof. vm_compute. reflexivity. Qed.
Example caught_up_sends : map (fun r => cell r "amount") (rows_of (committed caught_up) "sends") = [Text "1"; Text "0.75"].
Proof. vm_compute. reflexivity. Qed.

Lemma sends_faithful : faithful source "sends".
Proof.
  split.
  - intros x c _ _. cbn. destruct (cell x c); by eexists.
  - assert (forallb (plain_cells (table_columns source "sends")) (rows_of source "sends") = true) as Hp by (vm_compute; reflexivity).
    intros x c Hx%list_elem_of_In Hc%kept_column. apply value_back. intros u. rewrite forallb_forall in Hp. by eapply plain_cell, Hc; apply Hp.
  - intros x c _ _ [=].
  - intros i j x y Hin. exfalso. revert Hin. decided.
Qed.
Lemma copy_on_refl cols l : copy_on cols l l.
Proof. exists l. split; [done|]. induction l; by constructor. Qed.

(** ** The lookup of addresses, paged *)
Lemma ids_checked t col (tab : table) :
  forallb (fun x => match cell x col with Int z => (0 <? z) && bool_decide (cursor_of col [as_read t (columns tab) x] = Int z) | _ => false end) (rows tab) = true ->
  forall x, x ∈ rows tab -> exists z, cell x col = Int z /\ 0 < z /\ cursor_of col [as_read t (columns tab) x] = Int z.
Proof.
  intros Hids x Hx%list_elem_of_In. rewrite forallb_forall in Hids. specialize (Hids x Hx). destruct (cell x col) as [|z| |]; [done| |done..].
  apply andb_true_iff in Hids as [Hz Hc]. exists z. split_and!; [done|by apply Z.ltb_lt|by apply bool_decide_eq_true in Hc].
Qed.
Lemma paged_stream_whole_witness :
  let tab := default (Table [] []) (source !! "index_addresses") in
  let paged := streamLookupPaged "index_addresses" "id" true (ideal quiet) opened in
  let whole := writeIncrementalTableRows "index_addresses" (map (as_read "index_addresses" (columns tab)) (order_by ["id"] (rows tab))) true (ideal quiet) opened in
  text_of paged.1 = text_of whole.1 /\ paged.2 = whole.2 /\ paged.2 = inr false.
Proof.
  intros tab paged whole.
  assert (source !! "index_addresses" = Some tab) as Htab by (vm_compute; reflexivity).
  assert (length (rows tab) <> 0%nat) as Hlen by (vm_compute; discriminate).
  pose proof (paged_stream_whole source "index_addresses" "id" tab Htab ltac:(decided) (ids_checked "index_addresses" "id" tab ltac:(vm_compute; reflexivity)) ltac:(decided)
    true quiet opened eq_refl) as Hpaged.
  cbv zeta in Hpaged. unfold paged, whole. clear Htab. clearbody tab. destruct (rows tab); [exact (False_ind _ (Hlen eq_refl))|exact Hpaged].
Defined.

(** ** Two streams of one database with a pool of three *)
Definition two_streams : gmap string Z * list string := ({["indexer" := 2]}, ["indexer"; "indexer"]).
Lemma snapshots_leave_a_connection_witness :
  inflight two_streams.1 "indexer" = 2 /\ streaming "indexer" two_streams.2 < 3 /\ acquireSnapshotSlot 2 "indexer" two_streams.1 = None.
Proof.
  destruct (snapshots_leave_a_connection (fun _ : string => 3) (fun _ => Some 9) two_streams "indexer") as (Hm & Hlt & _ & Hfull).
  - eapply rtc_l; [apply (Admit _ "indexer" ∅ {["indexer" := 1]}); vm_compute; reflexivity|].
    eapply rtc_l; [apply (Admit _ "indexer" _ {["indexer" := 2]}); vm_compute; reflexivity|apply rtc_refl].
  - vm_compute. discriminate.
  - split; [exact Hm|]. split; [exact Hlt|]. apply Hfull. reflexivity.
Defined.

(** ** Reads that fail open *)

(** No connection of the pool answers. *)
Definition pool_down : world := World (fun _ => None) (fun _ => None) (fun _ => None).
(** A page whose query fails is served like the end of the table. *)
Example failed_page_ends_table :
  let served := streamTableRowsById IndexerDb "index_addresses" (Some 0) None None in
  (served pool_down opened).2 = inr Served
  /\ JSON_parse (of_utf8 (text_of (served pool_down opened).1))
     = Some (PObj [("schema_version", PNum 21); ("table", PStr "index_addresses"); ("max_id", PNum 0); ("has_more", PBool false); ("rows", PArr [])])
  /\ text_of (served quiet opened).1 <> text_of (served pool_down opened).1.
Proof. split_and!; [vm_compute; reflexivity..|]. vm_compute. discriminate. Qed.
(** A refund of an unstake that matured at block 101. *)
Definition matured_source : database := list_to_map
  [("index_statuses", ApplyExample.mk ["id"; "status"] [[Int 1; Text "valid"]; [Int 2; Text "completed"]]);
   ("index_tickers", ApplyExample.mk ["id"; "tick"] [[Int 1; Text "XCHAIN"]]);
   ("unstakes", ApplyExample.mk ["action_index"; "source_id"; "status_id"; "cooldown_end_block"] [[Int 1; Int 5; Int 2; Int 101]]);
   ("credits", ApplyExample.mk ["action_index"; "address_id"; "tick_id"; "amount"] [[Int 1; Int 5; Int 1; Text "10"]])].
(** The status id is read beside the snapshot; when that read fails the refund is left out
    and the stream goes on. *)
Example failed_status_drops_refund :
  let refunds w := (collectMatured "credits" "XCHAIN" 101 101 w (Serving matured_source 0 [])).2 in
  refunds (World (fun _ => None) (fun _ => None) (fun _ => Some matured_source))
  = inr [[("action_index", Val (VNum 1)); ("address_id", Val (VNum 5)); ("tick_id", Val (VNum 1)); ("amount", Val (VStr "10"))]]
  /\ refunds pool_down = inr [].
Proof. split; vm_compute; reflexivity. Qed.
End ServeExample.
