(* ===== verification/TrainGate.v ===== *)
(** * TrainGate: the platform-train gate before every apply

    [consensus/gates/train_gate.js], whole, with its caller in [client/sync.js]
    ([resolveTrainActivationRequirement], [checkTrainActivation] and the guards at the head
    of [applyAndVerifyBlock]).  The release manifest of an installation names the rule set
    a train needs and the BTC height it starts at; a follower that does not carry the rule
    set applies the blocks below that height and halts at the first other one.

    A manifest is the value [JSON.parse] returned, a [value]; whether its file is there,
    readable and well formed is what the file system answers ([file]).  The prose of a
    verdict is a constructor with the data it prints.  The halt is the one of
    [HaltPersistence]. *)

From S2P Require Import Prelude JsText JsNumber JsMap JsDouble Json GateRegistry SharedRows HaltPersistence.

(** ** Values *)
Inductive value :=
| Undefined
| Null
| Bool (b : bool)
| Num (x : jsnum)
| Str (s : string)
| Arr (l : list value)
| Obj (l : list (string * value)).

(** A property; an object of [JSON.parse] has each key once. *)
Definition prop (v : value) (k : string) : value :=
  match v with Obj l => default Undefined (jm_get k l) | _ => Undefined end.
Definition truthy (v : value) : bool :=
  match v with
  | Undefined | Null => false
  | Bool b => b
  | Num (Fin m _) => negb (m =? 0)
  | Num NaN => false
  | Num _ => true
  | Str s => negb (bool_decide (s = ""))
  | Arr _ | Obj _ => true
  end.
Definition is_object (v : value) : bool := match v with Arr _ | Obj _ => true | _ => false end.

(** [Number(String(v))] of an item of an array: the text of an array is the text of its
    items joined by commas, and no number has a comma. *)
Fixpoint item_number (v : value) : jsnum :=
  match v with
  | Undefined | Null => Fin 0 0
  | Num x => x
  | Str s => num_text s
  | Arr [] => Fin 0 0
  | Arr [x] => item_number x
  | Bool _ | Arr _ | Obj _ => NaN
  end.
(** [Number(v)] *)
Definition to_number (v : value) : jsnum :=
  match v with
  | Undefined => NaN
  | Bool b => Fin (if b then 1 else 0) 0
  | _ => item_number v
  end.

(** [String(v)] where it can be a version: the text of a number has at most one dot, the
    text of an array with two items a comma, and the other texts have no digit. *)
Fixpoint version_text (v : value) : string :=
  match v with
  | Str s => s
  | Arr [x] => version_text x
  | _ => ""
  end.

(** A value of the committed table. *)
Fixpoint of_gval (v : gval) : value :=
  match v with
  | GUndef => Undefined
  | GNull => Null
  | GBool b => Bool b
  | GNum z => Num (Fin z 0)
  | GNonFinite => Num NaN
  | GStr s => Str s
  | GArr l => Arr (map of_gval l)
  | GObj l => Obj (map (fun p => (p.1, of_gval p.2)) l)
  | GRegExp _ | GOpaque _ => Obj []
  end.

(** Strict order and equality of finite numbers. *)
Definition num_lt (x y : jsnum) : bool := num_le x y && negb (num_le y x).
Definition num_eq (x y : jsnum) : bool := num_le x y && num_le y x.

(** ** Versions *)
Definition K_TRAIN : string := "train_activation.TRAIN_ACTIVATION".
Definition TRAIN_ACTIVATION : value :=
  of_gval (default GUndef (snd <$> List.find (fun q => bool_decide (q.1.1 = K_TRAIN)) committed_rows)).

Definition parseRuleSetVersion (v : value) : option (list jsnum) :=
  match split_on (ch ".") (trim (utf8 (version_text v))) with
  | [a; b; c] => if all_digits a && all_digits b && all_digits c then Some (map decimal_literal [a; b; c]) else None
  | _ => None
  end.

Fixpoint compare_parts (a b : list jsnum) : comparison :=
  match a, b with
  | x :: a, y :: b => if num_eq x y then compare_parts a b else if num_lt x y then Lt else Gt
  | _, _ => Eq
  end.
Definition unparseable {A} : result A := Throw "TRAIN_ACTIVATION: unparseable rule-set version".
Definition compareRuleSetVersions (a b : string) : result comparison :=
  match parseRuleSetVersion (Str a), parseRuleSetVersion (Str b) with
  | Some pa, Some pb => Ok (compare_parts pa pb)
  | _, _ => unparseable
  end.

(** [Array.prototype.sort] with a comparator that may throw: stable. *)
Fixpoint insert_version (v : string) (l : list string) : result (list string) :=
  match l with
  | [] => Ok [v]
  | w :: l' =>
      let! c := compareRuleSetVersions v w in
      match c with
      | Gt => let! r := insert_version v l' in Ok (w :: r)
      | _ => Ok (v :: l)
      end
  end.
Fixpoint sort_versions (l : list string) : result (list string) :=
  match l with
  | [] => Ok []
  | v :: l' => let! r := sort_versions l' in insert_version v r
  end.
Definition object_keys (v : value) : list string := match v with Obj l => jm_keys l | _ => [] end.
Definition implementedRuleSets (activation : value) : result (list string) := sort_versions (object_keys activation).

(** ** Heights *)
Definition asHeight (v : value) : option jsnum :=
  match v with
  | Undefined | Null | Bool _ | Str "" => None
  | _ => let h := to_number v in if isFinite h then Some h else None
  end.

(** [row[network]]; the key [null] is the text. *)
Definition network_key (network : option string) : string := default "null" network.
Definition activationHeightFor (version : string) (network : option string) (activation : value) : option jsnum :=
  let row := prop activation version in
  if is_object row then asHeight (prop row (network_key network)) else None.

(** The loop of [resolveRuleSet] over the versions in order. *)
Fixpoint best_rule_set (h : jsnum) (network : option string) (map : value) (versions : list string)
  (best : option (string * jsnum)) : result (option (string * jsnum)) :=
  match versions with
  | [] => Ok best
  | version :: rest =>
      match activationHeightFor version network map with
      | None => best_rule_set h network map rest best
      | Some at_ =>
          if num_lt h at_ then best_rule_set h network map rest best
          else
            let! better := match best with
                           | None => Ok true
                           | Some (b, bestAt) =>
                               if num_lt bestAt at_ then Ok true
                               else if num_eq at_ bestAt then
                                 let! c := compareRuleSetVersions version b in
                                 Ok (match c with Gt => true | _ => false end)
                               else Ok false
                           end in
            best_rule_set h network map rest (if better : bool then Some (version, at_) else best)
      end
  end.
Definition resolveRuleSet (h : option jsnum) (network : option string) (activation : value) : result (option string) :=
  match h with
  | None => Ok None
  | Some h =>
      let! versions := implementedRuleSets activation in
      let! best := best_rule_set h network activation versions None in
      Ok (fst <$> best)
  end.

(** ** The manifest *)
Inductive fault :=
| NotAnObject
| BadVersion (version : value)
| HeightsNotAnObject
| CouldNotBeRead (file : string)
| NotValidJson (file : string).
Record requirement := Requirement {
  ruleSetVersion : string;
  heights : value;
  computedFromBtcTip : value;
  classification : value }.
(** What a manifest says: nothing, something this code cannot read, or a rule set. *)
Inductive required := NoRequirement | Malformed (f : fault) | Requires (r : requirement).

Definition readManifestTrainActivation (manifest : value) : required :=
  if negb (is_object manifest) then NoRequirement
  else match prop manifest "trainActivation" with
       | Undefined | Null => NoRequirement
       | Obj l =>
           let block := Obj l in
           let version := prop block "ruleSetVersion" in
           match parseRuleSetVersion version with
           | None => Malformed (BadVersion version)
           | Some _ =>
               match prop block "heights" with
               | Obj hs =>
                   Requires {| ruleSetVersion := of_utf8 (trim (utf8 (version_text version)));
                               heights := Obj hs;
                               computedFromBtcTip := (let t := prop block "computedFromBtcTip" in if is_object t then t else Null);
                               classification := (let c := prop block "classification" in if truthy c then c else Null) |}
               | _ => Malformed HeightsNotAnObject
               end
           end
       | _ => Malformed NotAnObject
       end.

(** ** The verdict *)
Inductive status := Clear | Pending | Halting.
Inductive why :=
| CannotRead (f : fault)
| NoHeightNamed (wanted : string) (network : option string)
| NoClock (wanted : string) (at_ : jsnum)
| BoundaryReached (clock at_ : jsnum) (wanted : string)
| BoundaryAhead (clock at_ : jsnum) (wanted : string)
| GateFailed (message : string).
Record train_verdict := TrainVerdict {
  v_status : status;
  activeRuleSet : option string;
  requiredRuleSet : option string;
  requiredAtHeight : option jsnum;
  v_network : option string;
  v_height : option jsnum;
  v_classification : value;
  v_reason : option why }.

Definition baseTrainVerdict (active network : option string) (clock : option jsnum) : train_verdict :=
  TrainVerdict Clear active None None network clock Null None.
Definition with_class (c : value) (v : train_verdict) : train_verdict :=
  TrainVerdict (v_status v) (activeRuleSet v) (requiredRuleSet v) (requiredAtHeight v) (v_network v) (v_height v) c (v_reason v).
(** [Object.assign_verdict(base, { status, requiredRuleSet, requiredAtHeight, reason })] *)
Definition assign_verdict (base : train_verdict) (s : status) (wanted : option string) (at_ : option jsnum) (w : why) : train_verdict :=
  TrainVerdict s (activeRuleSet base) wanted at_ (v_network base) (v_height base) (v_classification base) (Some w).

Definition unsupportedTrainVerdict (base : train_verdict) (r : requirement) (network : option string)
  (clock : option jsnum) : train_verdict :=
  let wanted := ruleSetVersion r in
  match asHeight (prop (heights r) (network_key network)) with
  | None => assign_verdict base Halting (Some wanted) None (NoHeightNamed wanted network)
  | Some at_ =>
      match clock with
      | None => assign_verdict base Halting (Some wanted) (Some at_) (NoClock wanted at_)
      | Some c =>
          if num_le at_ c then assign_verdict base Halting (Some wanted) (Some at_) (BoundaryReached c at_ wanted)
          else assign_verdict base Pending (Some wanted) (Some at_) (BoundaryAhead c at_ wanted)
      end
  end.

(** The options of [evaluateTrainActivation]; [required] is absent, what
    [readManifestTrainActivation] returned, or a raw manifest. *)
Inductive given := NotGiven | Given (q : required) | GivenManifest (m : value).
Record train_opts := TrainOpts {
  o_height : value;
  o_network : option string;
  o_required : given;
  o_manifest : value;
  o_activation : option value }.

Definition normalizeTrainRequirement (o : train_opts) : required :=
  match o_required o with
  | NotGiven => readManifestTrainActivation (o_manifest o)
  | Given q => q
  | GivenManifest m => readManifestTrainActivation m
  end.

Definition evaluateTrainActivation (o : train_opts) : result train_verdict :=
  let network := o_network o in
  let activation := default TRAIN_ACTIVATION (o_activation o) in
  let clock := asHeight (o_height o) in
  let q := normalizeTrainRequirement o in
  let! active := resolveRuleSet clock network activation in
  let base := baseTrainVerdict active network clock in
  match q with
  | NoRequirement => Ok base
  | Malformed f => Ok (assign_verdict base Halting None None (CannotRead f))
  | Requires r =>
      let base := with_class (if truthy (classification r) then classification r else Null) base in
      let! known := implementedRuleSets activation in
      if bool_decide (ruleSetVersion r ∈ known) then Ok base
      else Ok (unsupportedTrainVerdict base r network clock)
  end.

(** ** The follower *)

(** What the file system answers for a candidate path. *)
Inductive file := Missing | Unreadable | NotJson | Parsed (manifest : value).

(** The fields of the client the gate keeps, beside the halt. *)
Record gate_state := GateState {
  trainActivation : option train_verdict;
  trainActivationLogTick : Z;
  trainActivationRequired : option required;     (** [None] is [undefined] *)
  announcements : list train_verdict;            (** the pending verdicts logged *)
  sync : client }.
Record train_config := TrainConfig { coinTicker : string; network : option string; now : string }.

(** Over the candidate files, in order. *)
Fixpoint find_manifest (files : list (string * file)) : required * bool :=
  match files with
  | [] => (NoRequirement, true)
  | (_, Missing) :: files => find_manifest files
  | (name, Unreadable) :: _ => (Malformed (CouldNotBeRead name), false)
  | (name, NotJson) :: _ => (Malformed (NotValidJson name), false)
  | (_, Parsed manifest) :: _ => (readManifestTrainActivation manifest, true)
  end.
Definition resolveTrainActivationRequirement (files : list (string * file)) (s : gate_state) : gate_state * required :=
  match trainActivationRequired s with
  | Some q => (s, q)
  | None =>
      let '(q, cached) := find_manifest files in
      (if cached : bool then
         GateState (trainActivation s) (trainActivationLogTick s) (Some q) (announcements s) (sync s)
       else s, q)
  end.

Section Follower.
(** The record of the mismatch a halt carries: the fields of the verdict as JSON. *)
Variable record_of : train_verdict -> json.
Variable cfg : train_config.

Definition failed_verdict (blockIndex : Z) (message : string) : train_verdict :=
  TrainVerdict Halting None None None (network cfg) (Some (Fin blockIndex 0)) Null (Some (GateFailed message)).
Definition clock_of (blockIndex : Z) : value :=
  if bool_decide (coinTicker cfg = "BTC") then Num (Fin blockIndex 0) else Null.

Definition set_verdict (v : train_verdict) (s : gate_state) : gate_state :=
  GateState (Some v) (trainActivationLogTick s) (trainActivationRequired s) (announcements s) (sync s).
Definition log_pending (v : train_verdict) (s : gate_state) : gate_state :=
  let tick := trainActivationLogTick s in
  GateState (trainActivation s) (tick + 1) (trainActivationRequired s)
    (announcements s ++ (if tick mod 60 =? 0 then [v] else [])) (sync s).
Definition halt_train (blockIndex : Z) (v : train_verdict) (s : gate_state) : gate_state :=
  GateState (trainActivation s) (trainActivationLogTick s) (trainActivationRequired s) (announcements s)
    (haltOn blockIndex "train-activation" (PArr [record_of v]) (PArr []) (now cfg) (sync s)).

(** [true]: halted, the caller stops without applying. *)
Definition checkTrainActivation (files : list (string * file)) (blockIndex : Z) (s : gate_state) : gate_state * bool :=
  let '(s, q) := resolveTrainActivationRequirement files s in
  let v := match evaluateTrainActivation (TrainOpts (clock_of blockIndex) (network cfg) (Given q) Undefined None) with
           | Ok v => v
           | Throw message => failed_verdict blockIndex message
           end in
  let s := set_verdict v s in
  match v_status v with
  | Clear => (s, false)
  | Pending => (log_pending v s, false)
  | Halting => (halt_train blockIndex v s, true)
  end.

(** The guards at the head of [applyAndVerifyBlock]: whether the block goes on to the
    applier. *)
Definition admit_block (files : list (string * file)) (blockIndex : Z) (s : gate_state) : gate_state * bool :=
  match halted (sync s) with
  | Some _ => (s, false)
  | None => let '(s, refused) := checkTrainActivation files blockIndex s in (s, negb refused)
  end.
(** Blocks offered one after the other, with the files as they are at each of them, and
    the blocks that went on to the applier. *)
Fixpoint offer_blocks (offers : list (list (string * file) * Z)) (s : gate_state) : gate_state * list Z :=
  match offers with
  | [] => (s, [])
  | (files, b) :: offers =>
      let '(s, admitted) := admit_block files b s in
      let '(s, bs) := offer_blocks offers s in
      (s, if admitted : bool then b :: bs else bs)
  end.

(** ** What the gate promises *)

(** The committed table names the rule set. *)
Definition implemented (r : requirement) : bool := bool_decide (ruleSetVersion r ∈ object_keys TRAIN_ACTIVATION).
(** A block may be applied: nothing is required, or the rule set is implemented, or the
    follower has the BTC clock and the block is below the height the manifest names. *)
Definition below_boundary (q : required) (b : Z) : bool :=
  match q with
  | NoRequirement => true
  | Malformed _ => false
  | Requires r =>
      implemented r
      || bool_decide (coinTicker cfg = "BTC")
         && match asHeight (prop (heights r) (network_key (network cfg))) with
            | Some at_ => num_lt (Fin b 0) at_
            | None => false
            end
  end.
Fixpoint while_below (q : required) (bs : list Z) : list Z :=
  match bs with
  | [] => []
  | b :: bs => if below_boundary q b then b :: while_below q bs else []
  end.
End Follower.

(** ** Numbers and heights *)
Lemma asHeight_finite v x : asHeight v = Some x -> exists m e, x = Fin m e.
Proof.
  intros H. assert (forall y, (if isFinite y then Some y else None) = Some x -> exists m e, x = Fin m e) as K.
  { intros []; cbn; naive_solver. }
  destruct v as [| | | |[]| |]; cbn in H; eauto; done.
Qed.

Lemma num_lt_fin m e m' e' : num_lt (Fin m e) (Fin m' e') = negb (num_le (Fin m' e') (Fin m e)).
Proof. unfold num_lt. cbn. pose proof (fin_le_total m e m' e') as T. do 2 destruct fin_le; naive_solver. Qed.

Lemma activation_finite v n t x : activationHeightFor v n t = Some x -> exists m e, x = Fin m e.
Proof. unfold activationHeightFor. case_match; [apply asHeight_finite|done]. Qed.

(** ** The active rule set *)
Definition parsed (v : string) : Prop := is_Some (parseRuleSetVersion (Str v)).

Lemma compare_parsed a b : parsed a -> parsed b -> is_ok (compareRuleSetVersions a b) = true.
Proof. unfold compareRuleSetVersions. by intros [? ->] [? ->]. Qed.

(** What [best] is after the versions [seen]. *)
Definition best_of (h : jsnum) (n : option string) (t : value) (seen : list string) (best : option (string * jsnum)) : Prop :=
  match best with
  | None => forall v x, v ∈ seen -> activationHeightFor v n t = Some x -> num_lt h x = true
  | Some (w, y) => w ∈ seen /\ activationHeightFor w n t = Some y /\ num_lt h y = false
      /\ forall v x, v ∈ seen -> activationHeightFor v n t = Some x -> num_lt h x = true \/ num_le x y = true
  end.

Lemma best_of_skip h n t seen v best :
  (forall x, activationHeightFor v n t = Some x -> num_lt h x = true \/ exists w y, best = Some (w, y) /\ num_le x y = true) ->
  best_of h n t seen best -> best_of h n t (seen ++ [v]) best.
Proof.
  intros Hv. destruct best as [[w y]|]; cbn.
  - intros (Hw & Hy & Hh & Hall). split_and!; [set_solver|done..|]. intros v' x [Hs|Hs%list_elem_of_singleton]%elem_of_app Hx; [eauto|].
    subst v'. destruct (Hv _ Hx) as [|(? & ? & [= <- <-] & ?)]; auto.
  - intros Hall v' x [Hs|Hs%list_elem_of_singleton]%elem_of_app Hx; [eauto|]. subst v'. by destruct (Hv _ Hx) as [|(? & ? & ? & ?)].
Qed.

Lemma best_of_take h n t seen v x best : activationHeightFor v n t = Some x -> num_lt h x = false ->
  (forall w y, best = Some (w, y) -> num_le y x = true) ->
  best_of h n t seen best -> best_of h n t (seen ++ [v]) (Some (v, x)).
Proof.
  intros Hx Hh Hle Hb. cbn. split_and!; [set_solver|done..|]. intros v' x' [Hs|Hs%list_elem_of_singleton]%elem_of_app Hx'.
  - destruct best as [[w y]|]; cbn in Hb; [|eauto]. destruct Hb as (_ & Hy & _ & Hall). destruct (Hall _ _ Hs Hx') as [|Hxy]; [by left|right].
    specialize (Hle _ _ eq_refl). apply activation_finite in Hx' as (? & ? & ->), Hy as (? & ? & ->), Hx as (? & ? & ->). by eapply fin_le_trans.
  - subst v'. right. simplify_eq. apply activation_finite in Hx as (m & e & ->). cbn. by destruct (fin_le_total m e m e).
Qed.

Lemma best_rule_set_spec h n t versions : forall seen best r,
  best_of h n t seen best -> best_rule_set h n t versions best = Ok r -> best_of h n t (seen ++ versions) r.
Proof.
  induction versions as [|v vs IH]; intros seen best r Hb Hr; cbn in Hr; [by rewrite app_nil_r; simplify_eq|].
  rewrite cons_middle, app_assoc. destruct (activationHeightFor v n t) as [x|] eqn:Hx; [|by eapply IH, Hr; apply best_of_skip; [congruence|]].
  destruct (num_lt h x) eqn:Hh; [by eapply IH, Hr; apply best_of_skip; [naive_solver|]|].
  apply rbind_Ok in Hr as (better & Hbetter & Hr). eapply IH, Hr.
  assert (forall w y, best = Some (w, y) -> exists m e, y = Fin m e) as Hfin.
  { intros w y ->. destruct Hb as (_ & Hy & _). by eapply activation_finite. }
  destruct (activation_finite _ _ _ _ Hx) as (m & e & ->).
  destruct better.
  - eapply best_of_take; [done..| |done]. intros w y ->. destruct (Hfin _ _ eq_refl) as (m' & e' & ->). rewrite num_lt_fin in Hbetter. unfold num_eq in Hbetter.
    pose proof (fin_le_total m e m' e') as T. cbn in *. do 2 destruct fin_le; naive_solver.
  - apply best_of_skip; [|done]. rewrite Hx. intros x' [= <-]. right. destruct best as [[w y]|]; [|done]. exists w, y. split; [done|].
    destruct (Hfin _ _ eq_refl) as (m' & e' & ->). rewrite num_lt_fin in Hbetter. unfold num_eq in Hbetter.
    pose proof (fin_le_total m e m' e') as T. cbn in *. do 2 destruct fin_le; naive_solver.
Qed.

Lemma best_rule_set_ok h n t versions : forall best, Forall parsed versions -> (forall w y, best = Some (w, y) -> parsed w) ->
  is_ok (best_rule_set h n t versions best) = true.
Proof.
  induction versions as [|v vs IH]; intros best Hp Hb; [done|]. apply Forall_cons in Hp as [Hv Hp]. cbn.
  destruct (activationHeightFor v n t) as [x|]; [|by apply IH]. destruct (num_lt h x); [by apply IH|].
  assert (forall better : bool, is_ok (best_rule_set h n t vs (if better then Some (v, x) else best)) = true) as K.
  { intros []; apply IH; naive_solver. }
  destruct best as [[w y]|]; [|apply (K true)]. destruct (num_lt y x); [apply (K true)|]. destruct (num_eq x y); [|apply (K false)].
  pose proof (compare_parsed v w Hv (Hb _ _ eq_refl)) as Hc. destruct (compareRuleSetVersions v w); [|done]. apply K.
Qed.

Lemma insert_version_perm v l : forall r, insert_version v l = Ok r -> r ≡ₚ v :: l.
Proof.
  induction l as [|w l IH]; cbn; intros r Hr; [by simplify_eq|]. apply rbind_Ok in Hr as (c & _ & Hr).
  destruct c; [by simplify_eq..|]. apply rbind_Ok in Hr as (r' & Hr' & Hr). simplify_eq. rewrite (IH _ Hr'). apply Permutation_swap.
Qed.
Lemma sort_versions_perm l : forall r, sort_versions l = Ok r -> r ≡ₚ l.
Proof.
  induction l as [|v l IH]; cbn; intros r Hr; [by simplify_eq|]. apply rbind_Ok in Hr as (r' & Hr' & Hr).
  by rewrite (insert_version_perm _ _ _ Hr), (IH _ Hr').
Qed.

(** The active rule set has the greatest activation height the clock has reached, among
    the rule sets the table carries. *)
Lemma resolveRuleSet_greatest h n t v : resolveRuleSet (Some h) n t = Ok (Some v) ->
  v ∈ object_keys t /\ exists y, activationHeightFor v n t = Some y /\ num_lt h y = false
  /\ forall v' x, v' ∈ object_keys t -> activationHeightFor v' n t = Some x -> num_lt h x = true \/ num_le x y = true.
Proof.
  intros Hr. apply rbind_Ok in Hr as (vs & Hvs & Hr). apply rbind_Ok in Hr as (best & Hb & Hr). simplify_eq.
  apply (best_rule_set_spec h n t vs [] None) in Hb; [|set_solver]. apply sort_versions_perm in Hvs.
  destruct best as [[w y]|]; simplify_eq. destruct Hb as (Hw & Hy & Hh & Hall). cbn in Hw, Hr. simplify_eq. split; [by rewrite <- Hvs|].
  exists y. split_and!; [done..|]. intros v' x Hv'. apply Hall. by rewrite Hvs.
Qed.

(** ** The committed table *)
Lemma train_table e r : committed_registry e = Ok r -> of_gval <$> (match GateRegistry.copy K_TRAIN r with Ok v => Some v | Throw _ => None end) = Some TRAIN_ACTIVATION.
Proof.
  rewrite committed_registry_eq. intros Hr. apply Ok_inj in Hr as <-. vm_compute. reflexivity.
Qed.

Definition train_versions : list string := ["0.19.0"; "0.20.0"; "0.21.0"; "1.0.0"].
Lemma train_implemented : implementedRuleSets TRAIN_ACTIVATION = Ok train_versions.
Proof. vm_compute. reflexivity. Qed.
Lemma train_parsed : Forall parsed train_versions.
Proof. repeat constructor; vm_compute; eauto. Qed.

Lemma train_resolves clock n : exists active, resolveRuleSet clock n TRAIN_ACTIVATION = Ok active.
Proof.
  destruct clock as [h|]; [|by eexists]. unfold resolveRuleSet. rewrite train_implemented. cbn [rbind].
  pose proof (best_rule_set_ok h n TRAIN_ACTIVATION train_versions None train_parsed ltac:(done)) as Hb.
  destruct best_rule_set; [by eexists|done].
Qed.

Lemma implemented_known r : bool_decide (ruleSetVersion r ∈ train_versions) = implemented r.
Proof.
  apply bool_decide_ext. by rewrite (sort_versions_perm _ _ train_implemented).
Qed.

(** ** The verdict of a block *)
Section Gate.
Context (record_of : train_verdict -> json) (cfg : train_config).

Definition verdict_of (q : required) (b : Z) : train_verdict :=
  match evaluateTrainActivation (TrainOpts (clock_of cfg b) (network cfg) (Given q) Undefined None) with
  | Ok v => v
  | Throw message => failed_verdict cfg b message
  end.

Lemma clock_is b : asHeight (clock_of cfg b) = if bool_decide (coinTicker cfg = "BTC") then Some (Fin b 0) else None.
Proof. unfold clock_of. by case_bool_decide. Qed.

(** The gate halts on the blocks that are not below the boundary, and on no other. *)
Lemma verdict_halts q b : v_status (verdict_of q b) = Halting <-> below_boundary cfg q b = false.
Proof.
  unfold verdict_of, evaluateTrainActivation. cbn [o_height o_network o_required o_activation normalizeTrainRequirement default].
  destruct (train_resolves (asHeight (clock_of cfg b)) (network cfg)) as [active ->]. cbn [rbind].
  destruct q as [|f|r]; [done..|]. rewrite train_implemented. cbn [rbind below_boundary]. rewrite implemented_known.
  destruct (implemented r); [done|]. unfold unsupportedTrainVerdict. rewrite clock_is. cbn [orb].
  destruct (asHeight (prop (heights r) (network_key (network cfg)))) as [x|] eqn:Hx; [|by rewrite andb_false_r].
  case_bool_decide; [|done]. apply asHeight_finite in Hx as (m & e & ->). rewrite num_lt_fin. cbn [andb]. by destruct (num_le (Fin m e) (Fin b 0)).
Qed.

(** Before the boundary the verdict announces it: the rule set and the height it starts at. *)
Lemma verdict_announces r b : implemented r = false -> below_boundary cfg (Requires r) b = true ->
  v_status (verdict_of (Requires r) b) = Pending /\ requiredRuleSet (verdict_of (Requires r) b) = Some (ruleSetVersion r)
  /\ requiredAtHeight (verdict_of (Requires r) b) = asHeight (prop (heights r) (network_key (network cfg))).
Proof.
  intros Hi Hb. assert (v_status (verdict_of (Requires r) b) <> Halting) as Hn by (rewrite verdict_halts; congruence).
  revert Hn. unfold verdict_of, evaluateTrainActivation. cbn [o_height o_network o_required o_activation normalizeTrainRequirement default].
  destruct (train_resolves (asHeight (clock_of cfg b)) (network cfg)) as [active ->]. rewrite train_implemented. cbn [rbind].
  rewrite implemented_known, Hi. unfold unsupportedTrainVerdict. by repeat case_match.
Qed.

(** ** A run of the follower *)
Definition requirement_at (files : list (string * file)) (s : gate_state) : required := (resolveTrainActivationRequirement files s).2.

Lemma checked files b s : let s1 := (resolveTrainActivationRequirement files s).1 in let v := verdict_of (requirement_at files s) b in
  checkTrainActivation record_of cfg files b s
  = match v_status v with
    | Clear => (set_verdict v s1, false)
    | Pending => (log_pending v (set_verdict v s1), false)
    | Halting => (halt_train record_of cfg b v (set_verdict v s1), true)
    end.
Proof. unfold checkTrainActivation, requirement_at, verdict_of. by destruct resolveTrainActivationRequirement. Qed.

Lemma resolve_sync files s : sync (resolveTrainActivationRequirement files s).1 = sync s.
Proof. unfold resolveTrainActivationRequirement. destruct (trainActivationRequired s); [done|]. by destruct (find_manifest files) as [? []]. Qed.

(** A requirement that has been read stays. *)
Lemma resolve_keeps files s : trainActivationRequired (resolveTrainActivationRequirement files s).1 = trainActivationRequired s
  \/ trainActivationRequired (resolveTrainActivationRequirement files s).1 = Some (requirement_at files s).
Proof.
  unfold requirement_at, resolveTrainActivationRequirement. destruct (trainActivationRequired s) eqn:E; [by left|].
  destruct (find_manifest files) as [? []]; [by right|by left].
Qed.

Lemma requirement_at_cached files s q : trainActivationRequired s = Some q -> requirement_at files s = q.
Proof. unfold requirement_at, resolveTrainActivationRequirement. by intros ->. Qed.
Lemma requirement_at_same files s s' : trainActivationRequired s = trainActivationRequired s' -> requirement_at files s = requirement_at files s'.
Proof. unfold requirement_at, resolveTrainActivationRequirement. intros ->. destruct (trainActivationRequired s'); [done|]. by destruct (find_manifest files). Qed.

Lemma admitted files b s : halted (sync s) = None ->
  let s' := (admit_block record_of cfg files b s).1 in
  (admit_block record_of cfg files b s).2 = below_boundary cfg (requirement_at files s) b
  /\ (trainActivationRequired s' = trainActivationRequired s \/ trainActivationRequired s' = Some (requirement_at files s))
  /\ if below_boundary cfg (requirement_at files s) b then halted (sync s') = None
     else exists h, halted (sync s') = Some h /\ blockIndex h = b /\ reason h = "train-activation" /\ WriteCheck First h ∈ tasks (sync s').
Proof.
  intros Hh. unfold admit_block. rewrite Hh, checked. pose proof (verdict_halts (requirement_at files s) b) as Hv. pose proof (resolve_keeps files s) as Hk.
  pose proof (resolve_sync files s) as Hs. destruct (below_boundary cfg (requirement_at files s) b).
  - assert (v_status (verdict_of (requirement_at files s) b) <> Halting) as Hn by (rewrite Hv; done).
    destruct (v_status _); [| |done]; cbn; by rewrite Hs.
  - rewrite (proj2 Hv eq_refl). cbn. rewrite Hs. unfold haltOn. rewrite Hh. split_and!; [done..|].
    eexists. split_and!; [done..|]. cbn. set_solver.
Qed.

Lemma offers_after_halt offers : forall s h, halted (sync s) = Some h -> offer_blocks record_of cfg offers s = (s, []).
Proof. induction offers as [|[files b] offers IH]; intros s h Hh; [done|]. cbn. unfold admit_block. rewrite Hh. by rewrite (IH s h Hh). Qed.

(** C35. The platform-train gate stops a follower exactly at the boundary its release
    manifest names.  Over any sequence of blocks, with one requirement [q] read from the
    manifest, the blocks that reach the applier are the ones before the first block that is
    not below the boundary: every block when nothing is required or the rule set is
    implemented; none when the manifest cannot be read, or the rule set is not implemented
    and the follower has no BTC clock or the manifest names no height for its network; and
    else the blocks under the height.  At the first other block the follower halts with
    that block and the reason, the write of the halt is under way, and no later block is
    applied. *)
Theorem train_boundary_kept q offers : forall s, halted (sync s) = None ->
  (forall files b, (files, b) ∈ offers -> requirement_at files s = q) ->
  let s' := (offer_blocks record_of cfg offers s).1 in
  let applied := (offer_blocks record_of cfg offers s).2 in
  applied = while_below cfg q (map snd offers)
  /\ match drop (length applied) offers with
     | [] => halted (sync s') = None
     | (_, b) :: _ => below_boundary cfg q b = false
         /\ exists h, halted (sync s') = Some h /\ blockIndex h = b /\ reason h = "train-activation" /\ WriteCheck First h ∈ tasks (sync s')
     end.
Proof.
  induction offers as [|[files b] offers IH]; intros s Hh Hq; [done|]. cbn [offer_blocks map while_below snd].
  destruct (admitted files b s Hh) as (Ha & Hk & Hs). rewrite (Hq files b) in Ha, Hk, Hs by set_solver.
  destruct (admit_block record_of cfg files b s) as [s1 a]. cbn [fst snd] in *. subst a. destruct (below_boundary cfg q b) eqn:Eb.
  - assert (forall files' b', (files', b') ∈ offers -> requirement_at files' s1 = q) as Hq1.
    { intros files' b' Hin. destruct Hk as [Hk|Hk]; [|by apply requirement_at_cached]. rewrite (requirement_at_same _ _ s Hk). apply (Hq files' b'). set_solver. }
    destruct (IH s1 Hs Hq1) as [H1 H2]. destruct (offer_blocks record_of cfg offers s1) as [s2 bs]. cbn [fst snd length drop] in *. by rewrite <- H1.
  - destruct Hs as (h & Hs & Hrest). rewrite (offers_after_halt offers s1 h Hs). cbn. split; [done|]. split; [done|]. by exists h.
Qed.
End Gate.

(** ** Examples *)
Module TrainExample.
Definition btc : train_config := TrainConfig "BTC" (Some "testnet") "2026-01-01T12:00:00.000Z".
Definition ltc : train_config := TrainConfig "LTC" (Some "testnet") "2026-01-01T12:00:00.000Z".
Definition manifest (version : string) : value :=
  Obj [("version", Str version); ("trainActivation", Obj [("ruleSetVersion", Str version);
    ("heights", Obj [("mainnet", Num (Fin 961000 0)); ("testnet", Num (Fin 160000 0))]); ("classification", Str "major")])].
Definition started : gate_state := GateState None 0 None [] (fresh [] None).
Definition disk (version : string) : list (string * file) := [("/etc/release.json", Missing); ("release-manifest.json", Parsed (manifest version))].
Definition no_record (v : train_verdict) : json := PNull.

(** A follower that carries 0.21.0 under a manifest that needs 0.22.0. *)
Definition crossing : list (list (string * file) * Z) := [(disk "0.22.0", 159998); (disk "0.22.0", 159999); (disk "0.22.0", 160000); (disk "0.22.0", 160001)].
Lemma train_boundary_kept_witness : (offer_blocks no_record btc crossing started).2 = [159998; 159999]
  /\ exists h, halted (sync (offer_blocks no_record btc crossing started).1) = Some h /\ blockIndex h = 160000.
Proof.
  pose proof (train_boundary_kept no_record btc (readManifestTrainActivation (manifest "0.22.0")) crossing started eq_refl) as H.
  destruct H as [H1 H2].
  { intros files b Hin. assert (files = disk "0.22.0") as -> by (unfold crossing in Hin; set_solver). reflexivity. }
  assert ((offer_blocks no_record btc crossing started).2 = [159998; 159999]) as E by (rewrite H1; vm_compute; reflexivity).
  rewrite E in H2. destruct H2 as (_ & h & Hh & Hb & _). split; [exact E|]. exists h. split; [exact Hh|exact Hb].
Defined.

(** Without the BTC clock the same manifest stops the follower at once; a rule set it
    carries never does. *)
Example off_btc : (offer_blocks no_record ltc crossing started).2 = []
  /\ (offer_blocks no_record ltc [(disk "0.21.0", 5000000)] started).2 = [5000000].
Proof. by vm_compute. Qed.

(** On testnet the newest train is active from its height on; on regtest, where every row
    starts at 0, the tie goes to the greatest version, the launch rule set. *)
Example active_rule_sets :
  resolveRuleSet (Some (Fin 154566 0)) (Some "testnet") TRAIN_ACTIVATION = Ok (Some "0.21.0")
  /\ resolveRuleSet (Some (Fin 154566 0)) (Some "mainnet") TRAIN_ACTIVATION = Ok (Some "1.0.0")
  /\ resolveRuleSet (Some (Fin 154566 0)) (Some "regtest") TRAIN_ACTIVATION = Ok (Some "1.0.0").
Proof. by vm_compute. Qed.
End TrainExample.
